(* ===== verification/_CoqProject ===== *)
-Q . S2P
Prelude.v
PyStr.v
Sql.v
Json.v
Objects.v
ObjectProps.v
Tasks.v
Lifecycle.v
Queue.v
Claims.v
Parking.v
Execution.v
Machine.v
Moves.v
Fleet.v
QueueProps.v
Spec.v
Datasheets.v
Pricing.v
PricingProps.v
Routing.v
Fallback.v
Shapes.v
Access.v
RoutingProps.v
BudgetProps.v
Batches.v
Poll.v
BatchProps.v
Collect.v
Receipts.v
Runs.v
CollectProps.v
RunProps.v
Listings.v
ListingProps.v
Mail.v
Pipeline.v
MailProps.v
MailSync.v
SyncProps.v
MailSweep.v
MatchProps.v
DeriveProps.v
Hosts.v
Catalog.v
CatalogProps.v
Availability.v
Regex.v
Screening.v
ScreenProps.v
Taxonomy.v
Selection.v
Verdicts.v
Visibility.v
VisibilityProps.v
RunInputs.v
ManagedBoards.v
ManagedProps.v
PyStd.v
Urls.v
Schedule.v
ScheduleProps.v
Fetches.v
FilterRuns.v
FilterExec.v
FilterProps.v
Rollup.v
RollupProps.v
Drafts.v
DraftProps.v
VerifyTargets.v
Verification.v
VerifyProps.v
Ssrf.v
Ats.v
Ingest.v
AtsProps.v
IngestProps.v
Grants.v
