(* ===== verification/Prelude.v ===== *)
(** * Job Scripts: a verification library of the backend's core

    Job Scripts lists job postings, screens them with AI models, tracks one's
    applications and reads the mail about them. Its Python backend (src/src) is a
    PostgreSQL database, a task queue that many workers share, handlers that run
    the tasks, and providers of AI models paid per call. This library models the
    parts that decide what work is done, what is paid for and what is recorded,
    and proves what each promises the others.

    ** How the parts interact

    A task is a row. A worker claims it, heartbeats, runs the handler and settles
    the row; a reaper requeues what a dead worker held. A handler that wants AI
    answers snapshots its requests, routes them to a model, submits them as
    provider batches and parks the row on the batch ids; the poll wakes it; the
    collection turns answers into receipts and ledger rows, and consumes each
    receipt once. Large values live in an object store behind references. Mail is
    imported by a resumable scan, classified by such batches, matched to
    applications by a repeated sweep, and read as stages, asks and proposals.

    ** Foundations

    - [Prelude]: results, Python's [min], booleans as propositions ([breflect]),
      list lemmas. [PyStr]: text. [Sql]: tables as finite maps with UPDATE and
      SELECT, nullable comparisons, JSON values. [Json]: [json.dumps] and
      [json.loads] with their round trip and injectivity ([loads_dumps],
      [dumps_inj]).

    ** The task queue

    - [Tasks], [Lifecycle] (tasks/runtime/lifecycle.py), [Queue] (api/queue.py),
      [Claims] (api/worker_lifecycle/claims.py, api/worker.py), [Parking]
      (tasks/runtime/batching.py), [Execution] (api/worker_lifecycle/execution.py,
      tasks/runtime/payload_recovery.py): each statement of the code is a function
      on the table [tasks] of a [world].
    - [Machine] is the specification of one row: labelled moves and the invariant
      they keep. [Moves] proves that every operation makes only such moves;
      [Fleet] is the step relation of all workers, the scheduler and the operator
      on one table, any interleaving of statements.
    - [QueueProps]: at most one live claim, a lost claim stays lost and writes
      nothing, the refinement to the machine, the retry budget, claim order and
      bounded overtaking, reconciliation leaves no stuck parent, unique keys.

    ** Models, prices and budgets

    - [Spec], [Datasheets] (core/providers), [Pricing] (core/pricing.py,
      core/batch_capabilities.py), [Routing] (core/routing.py), [Fallback]
      (core/fallback.py, core/verdict_equivalence.py, api/model_fallback.py),
      [Shapes] (core/shapes.py, api/task_config.py, api/budget/fleet.py), [Access]
      (api/budget, api/ai).
    - [PricingProps]: the price in Python and the price in SQL agree, NULL
      included; a reservation bounds the bill. [RoutingProps]: the cheapest
      eligible model, and a fallback only when blocked. [BudgetProps]: the weekly
      ceiling holds over any week of checked calls.

    ** Provider batches

    - [Batches] submits (core/batch, tasks/runtime/batching.py), [Poll] wakes
      (tasks/batches.py), [Collect] reads results (core/batch/collection.py,
      core/batch/anthropic_batches.py), [Receipts] records and consumes them
      (api/ai/batch_results.py, api/model_calls.py), [Runs] is one run from
      requests to receipts.
    - [BatchProps]: waves respect limits, submission ends, buys nothing twice and
      leaves what was accepted on the task. [CollectProps]: a batch leaves its
      task only with every answer recorded. [RunProps]: a receipt is consumed
      once, and a run spends once. Two error theorems show a paid batch on a
      failed task and a batch id lost by a concurrent checkpoint.
    - [Rollup] (the hourly ledger of spend: its dirty hours, triggers, refresh
      and reads): [RollupProps] proves a read equal to the aggregation of its
      sources under any interleaving of writes and refreshes.

    ** Payloads and listings

    - [Objects] (core/payloads/objects.py, blob_parts.py) and [Listings]
      (core/payloads/listings.py, core/catalog/listings.py).
    - [ObjectProps]: values and bundle members read back as they were put; the two
      kinds of reference are told apart. [ListingProps]: a forward simulation from
      the table of inline values and references to a table of values, through
      pulls, uploads and migrations either way.

    ** Mail

    - [Mail] (api/mail/store.py, events.py, match_decision.py, current.py,
      [record] of match.py), [Pipeline] (api/mail/pipeline), [MailSync]
      (tasks/mail/sync.py), [MailSweep] (the tiers of api/mail/match.py,
      tasks/mail/matching, api/mail/match_sweeps.py).
    - [MailProps]: pointers name the newest row, a person's decision stands,
      stages and proposals. [SyncProps]: the scan misses nothing
      under any interleaving, and ends. [MatchProps]: a sweep's selection changes
      nothing against deciding everything, by an invariant of the step relation
      [sweep_step]. [DeriveProps]: floors fall to the earliest evidence and stay;
      what an application is derived from. Error theorems: a decision between
      [record]'s two statements, a message reclassified in mid-sweep, a floor
      that releases nothing, an application derived from refused mail.

    ** The catalog

    - [Catalog] (core/catalog/jobs.py, core/catalog/observations.py): a posting is a
      row and what each source said of it an append-only log; the stored
      availability is a projection of the log, the switches and the setting.
      [CatalogProps]: what a pull records and decides, and that the upsert's change
      check loses nothing. [Availability] lets every writer and the refresh's
      lock, evaluation and write interleave, and proves the projection current.
    - [Regex] holds regular expressions as syntax with a derivative matcher, and
      the flags in which Python and PostgreSQL differ; [Screening]
      (core/screening.py) and [Taxonomy] (core/reason_taxonomy.py) use it.
      [ScreenProps]: the two spellings of a screen agree on printable titles, and
      part at a newline.
    - [Hosts] (api/hosts.py): the statements of [take], [refused] and [succeeded],
      and the spacing they give under any interleaving.

    ** Boards

    - [Selection] (api/source_selection.py): boards and bundles a person follows,
      and what each write does to the sources that reach each person.
    - [Verdicts] (core/verdict_reads.py) reads the latest answers; [Visibility]
      (api/board/criteria.py, eligibility.py, person_state.py, visibility.py) is
      who is shown what, in full and as the stored set. [VisibilityProps]: the full
      predicate in words, the stored set equal to it after a recompute, the two
      spellings of the gates, the two bindings of the criteria and where they part.
    - [RunInputs] (core/filters.py, api/task_jobs.py, api/run_configs.py): prompts,
      references and interned settings. [ManagedBoards] (api/managed_boards):
      selection, admission against the sponsor's allowance and the projection.
      [ManagedProps]: an admission made from a stale plan still stays within the
      cap, a refusal queues nothing, the projection is exact.

    ** Scheduling

    - [PyStd] is Python's and PostgreSQL's text of times. [Schedule]
      (api/worker_lifecycle/scheduling.py, api/ai_pause.py,
      tasks/derivations/sweep.py): every stage of a poll, in order, on the rows,
      settings and boards of a [site].
    - [ScheduleProps]: a repeated pass adds nothing, a paused pass adds nothing
      that pays, one pull of a source waits, the skipped windows are the backlog of
      the pauses, one sweep of a kind submits.

    ** Filter runs

    - [Fetches] (core/page_fetches.py, the streaks of api/ai/verdicts.py) is the
      log of page fetches; [FilterRuns] (api/filter_runs.py, tasks/filtering)
      admits a run, splits it and owns postings by chunk; [FilterExec]
      (tasks/filtering/execution.py) selects, asks and collects.
    - [FilterProps]: two chunks that may both still answer never both buy a
      posting, and collecting in chunks is collecting one by one.

    ** Verification and drafts

    - [VerifyTargets] (the gate of a sweep and its targets) and [Verification]
      (tasks/verification): near copies, new postings, re-checks and what they
      write. [VerifyProps]: the staged gate is one EXISTS, a late re-check yields
      to newer evidence, near copies are read once.
    - [Drafts] (application answers): reservations, revisions and edits.
      [DraftProps]: what a person wrote after a reservation stays.

    ** Mailbox grants

    - [Grants] (api/oauth): the signed state of a consent, the exchange of a code,
      the access token asked for under the row's lock, the end of a grant; then
      workers, reconnects and an endpoint that may replace the refresh token,
      interleaved as [step]s. A row's token stays one the provider takes unless it
      was revoked or an answer was not kept; a refusal is recorded though its call
      raises; a worker that waited takes the fresh token; a state comes back.

    ** Requests to the outside

    - [Urls] is urlparse with addresses, [Ssrf] (api/ssrf.py, api/fetching.py) the
      checks before a request: the pinned client connects to public addresses
      only, and a page fetch can be rebound.
    - [Ats] (core/fetching/ats): an engine for the systems' regular expressions,
      the sixteen resolvers and the two that a source vouches for, [canonicalize].
      [Ingest] (tasks/ingest.py, core/fetching/boards/formats.py, [refresh_page] of
      api/ai/verdicts.py) is the pull of a source and a fresh read of a posting, on
      an [ingest_site] that holds the catalog, the queue, hosts, fetches, answers
      and listings together.
    - [AtsProps]: what a search captures is a piece of the text ([run_sound]), and a
      closure is recorded only on evidence of that posting. [IngestProps]: a pull
      settles the catalog, absence needs a whole pull, what a failed pull costs.

    ** Choices of the model

    - A database statement, or a transaction, is one step. Where the code reads in
      one statement and writes in another, the model has both and lets other steps
      come between. Connection failures are not modelled, apart from calls that
      the code itself expects to fail.
    - Money is an exact rational ([Qc]) where the code has Decimal. Times are
      integers: microseconds, or the unit the file names.
    - What is outside src/ is a parameter: providers' answers, Gmail, the object
      store's client, the digest, decryption. Two functions of src/ are parameters
      of their callers too, which are proved for any such function: the mail
      prefilter and, in [MailSweep], [canonicalize], which [Ats] defines. HTTP
      answers, name lookups, the browser, a board's fetcher, BeautifulSoup with
      ftfy ([clean]) and the table of HTML entities are parameters.
    - Text is ASCII or single-byte and is compared by bytes; JSON numbers are
      integers.
    - Fuel: [_submit] recurses along the fallback chain and its fuel exceeds the
      chain's length, since each refusal uses up a model; [chain_fuel] and
      [reconcile_fuel] are shown to be enough where their callers' termination is
      proved; the JSON reader's fuel is the length of the text, each read
      consuming a character.

    ** Not modelled, and why

    Board fetchers page through third-party sites and parse their pages; HTTP
    routes, the browser extension, the apply agent, read models for screens,
    telemetry and migrations are input and output, third-party protocols or
    queries without decisions of their own; sign-in is third-party cryptography.
    Prompts and the parsing of a model's prose, the pay screen, the mail
    classifiers and posting identity beyond [canonicalize] read free text by
    vendor-specific rules whose only specification is themselves. The worker's
    loop is threads and signals around the claims modelled here. Hydrating the
    instructions of stored answers is left out of [decided_custom_urls], and a
    title recipe's name is one that exists, since unknown names are refused where
    they are set. *)

From stdpp Require Export base tactics strings list gmap sorting.
From stdpp Require Import pretty.
From Stdlib Require Export ZArith Lia.

#[global] Open Scope Z_scope.

Declare Scope js_scope.
Delimit Scope js_scope with js.

(** ** Results: a value or a raised exception *)

Inductive result (E A : Type) : Type :=
| Ok (a : A)
| Err (e : E).
Arguments Ok {E A} a.
Arguments Err {E A} e.

Definition rbind {E A B} (m : result E A) (k : A → result E B) : result E B :=
  match m with
  | Ok a => k a
  | Err e => Err e
  end.

Definition is_ok {E A} (m : result E A) : bool :=
  match m with
  | Ok _ => true
  | Err _ => false
  end.

Notation "'do' x '<-' m ';;' k" := (rbind m (λ x, k))
  (at level 10, x name, m at level 99, k at level 200) : js_scope.

(** ** Python's [min(l, key=...)]: the first element no later one is strictly below *)

Fixpoint min_from {A} (ltb : A → A → bool) (best : A) (l : list A) : A :=
  match l with
  | [] => best
  | x :: l' => min_from ltb (if ltb x best then x else best) l'
  end.

Definition min_by {A} (ltb : A → A → bool) (l : list A) : option A :=
  match l with
  | [] => None
  | x :: l' => Some (min_from ltb x l')
  end.

(** A strict order given as a boolean test whose negation is transitive: what
    comparing by a totally ordered key gives. *)
Class StrictWeak {A} (ltb : A → A → bool) : Prop := {
  sw_irrefl : ∀ x, ltb x x = false;
  sw_trans : ∀ x y z, ltb x y = true → ltb y z = true → ltb x z = true;
  sw_negtrans : ∀ x y z, ltb x y = false → ltb y z = false → ltb x z = false;
}.

(** ** Small list functions the components share *)

(** Python's [x in l] for a decidable type, as a boolean. *)
Definition mem {A} `{EqDecision A} (x : A) (l : list A) : bool := bool_decide (x ∈ l).

(** Sums of an integer column. *)
Fixpoint list_sum_Z (l : list Z) : Z :=
  match l with
  | [] => 0
  | x :: l' => x + list_sum_Z l'
  end.

(** ** Tactics *)

(** Turn boolean tests in the context or goal into the propositions they decide. *)
Ltac breflect :=
  repeat match goal with
  | H : bool_decide _ = true |- _ => apply bool_decide_eq_true_1 in H
  | H : bool_decide _ = false |- _ => apply bool_decide_eq_false_1 in H
  | H : (_ && _)%bool = true |- _ => apply andb_true_iff in H; destruct H
  | H : (_ || _)%bool = false |- _ => apply orb_false_iff in H; destruct H
  | H : negb _ = true |- _ => apply negb_true_iff in H
  | H : negb _ = false |- _ => apply negb_false_iff in H
  | H : (_ <? _) = true |- _ => apply Z.ltb_lt in H
  | H : (_ <? _) = false |- _ => apply Z.ltb_ge in H
  | H : (_ <=? _) = true |- _ => apply Z.leb_le in H
  | H : (_ <=? _) = false |- _ => apply Z.leb_gt in H
  | H : (_ =? _) = true |- _ => apply Z.eqb_eq in H
  | H : (_ =? _) = false |- _ => apply Z.eqb_neq in H
  end.

(** Case analysis on the first [if] or [match] scrutinee of the goal, with
    boolean tests reflected. *)
Ltac split_if :=
  match goal with
  | |- context [ if ?b then _ else _ ] =>
      let E := fresh "E" in destruct b eqn:E; breflect
  end.

Create HintDb js.
Create Rewrite HintDb js.

(** ** Lemmas *)

Lemma sublist_fmap {A B} (f : A → B) l1 l2 :
  l1 `sublist_of` l2 → (f <$> l1) `sublist_of` (f <$> l2).
Proof. induction 1; csimpl; by constructor. Qed.

Lemma sublist_elem {A} (l1 l2 : list A) x : l1 `sublist_of` l2 → x ∈ l1 → x ∈ l2.
Proof. induction 1; set_solver. Qed.

Lemma elem_of_concat_map {A B} (f : A → list B) l y :
  y ∈ concat (map f l) ↔ ∃ x, x ∈ l ∧ y ∈ f x.
Proof.
  rewrite list_elem_of_In, in_concat. setoid_rewrite in_map_iff. split.
  - intros (k & (x & <- & Hx) & Hy). exists x. by rewrite !list_elem_of_In.
  - intros (x & Hx%list_elem_of_In & Hy%list_elem_of_In). eauto.
Qed.

Lemma NoDup_fmap_inj {A B} (f : A → B) l x y :
  NoDup (f <$> l) → x ∈ l → y ∈ l → f x = f y → x = y.
Proof.
  induction l as [|z l IH]; [by intros _ ?%elem_of_nil|]. csimpl.
  intros [Hz Hl]%NoDup_cons [->|Hx]%elem_of_cons [->|Hy]%elem_of_cons Heq; [done|..].
  - destruct Hz. rewrite Heq. by apply list_elem_of_fmap_2.
  - destruct Hz. rewrite <- Heq. by apply list_elem_of_fmap_2.
  - by apply IH.
Qed.

(** A partial map that keeps its key keeps the order of the keys it keeps. *)
Lemma omap_key_sublist {A B} (f : A → option B) (g : B → A) l :
  (∀ a b, f a = Some b → g b = a) → (g <$> omap f l) `sublist_of` l.
Proof.
  intros H. induction l as [|a l IH]; csimpl; [done|].
  destruct (f a) as [b|] eqn:E; csimpl; [rewrite (H a b E)|]; by constructor.
Qed.

Lemma StronglySorted_filter {A} (R : A → A → Prop) (P : A → Prop) `{∀ x, Decision (P x)} l :
  StronglySorted R l → StronglySorted R (filter P l).
Proof.
  induction 1 as [|x l _ IH Hx]; [constructor|]. rewrite filter_cons. case_decide; [|done].
  constructor; [done|]. rewrite Forall_forall in *. intros y [_ Hy]%list_elem_of_filter. by apply Hx.
Qed.

Section min_by_lemmas.
Context {A : Type} (ltb : A → A → bool) `{!StrictWeak ltb}.

Lemma min_from_elem best l : min_from ltb best l = best ∨ min_from ltb best l ∈ l.
Proof.
  revert best; induction l as [|x l IH]; intros best; simpl; [by left|].
  destruct (IH (if ltb x best then x else best)) as [->|?].
  - destruct (ltb x best); [right; by left | by left].
  - right; by right.
Qed.

Lemma min_from_best best l : ltb best (min_from ltb best l) = false.
Proof.
  revert best; induction l as [|x l IH]; intros best; simpl; [apply sw_irrefl|].
  destruct (ltb x best) eqn:E; [|apply IH].
  specialize (IH x).
  destruct (ltb best (min_from ltb x l)) eqn:E2; [|done].
  by rewrite (sw_trans x best _ E E2) in IH.
Qed.

Lemma min_from_le best l y : y ∈ l → ltb y (min_from ltb best l) = false.
Proof.
  revert best; induction l as [|x l IH]; intros best Hy; [by apply elem_of_nil in Hy|].
  apply elem_of_cons in Hy as [->|Hy]; simpl; [|by apply IH].
  destruct (ltb x best) eqn:E; [apply min_from_best|].
  eapply sw_negtrans; [exact E | apply min_from_best].
Qed.

Lemma min_by_None l : min_by ltb l = None ↔ l = [].
Proof. by destruct l. Qed.

Lemma min_by_elem l x : min_by ltb l = Some x → x ∈ l.
Proof.
  destruct l as [|y l]; simpl; [done|]. intros [= <-].
  destruct (min_from_elem y l) as [->|?]; [by left | by right].
Qed.

Lemma min_by_le l x y : min_by ltb l = Some x → y ∈ l → ltb y x = false.
Proof.
  destruct l as [|z l]; simpl; [done|]. intros [= <-] [->|Hy]%elem_of_cons.
  - apply min_from_best.
  - by apply min_from_le.
Qed.

Lemma min_by_is_Some l : l ≠ [] → is_Some (min_by ltb l).
Proof. destruct l; [done|]. by eexists. Qed.

Lemma min_from_first best l :
  min_from ltb best l = best ∨
  ∃ l1 l2, l = l1 ++ min_from ltb best l :: l2 ∧ ltb (min_from ltb best l) best = true ∧
    ∀ y, y ∈ l1 → ltb (min_from ltb best l) y = true.
Proof.
  revert best; induction l as [|w l IH]; intros z; simpl; [by left|].
  destruct (ltb w z) eqn:E; [right|].
  - destruct (IH w) as [Heq|(l1 & l2 & Heq & Hw & Hlt)].
    + exists [], l. rewrite Heq. split_and!; [done..|]. by intros y ?%elem_of_nil.
    + exists (w :: l1), l2. split_and!; [simpl; by f_equal|by eapply sw_trans|].
      intros y [->|Hy]%elem_of_cons; [done|by apply Hlt].
  - destruct (IH z) as [Heq|(l1 & l2 & Heq & Hz & Hlt)]; [by left|right].
    exists (w :: l1), l2. split_and!; [simpl; by f_equal|done|].
    intros y [->|Hy]%elem_of_cons; [|by apply Hlt].
    destruct (ltb (min_from ltb z l) w) eqn:E2; [done|].
    by rewrite (sw_negtrans _ _ _ E2 E) in Hz.
Qed.

(** Ties keep the caller's own order: everything before the minimum is
    strictly above it. *)
Lemma min_by_first l x :
  min_by ltb l = Some x →
  ∃ l1 l2, l = l1 ++ x :: l2 ∧ ∀ y, y ∈ l1 → ltb x y = true.
Proof.
  destruct l as [|z l]; simpl; [done|]. intros [= <-].
  destruct (min_from_first z l) as [Heq|(l1 & l2 & Heq & Hz & Hlt)].
  - exists [], l. rewrite Heq. split; [done|]. by intros y ?%elem_of_nil.
  - exists (z :: l1), l2. split; [simpl; by f_equal|].
    intros y [->|Hy]%elem_of_cons; [done|by apply Hlt].
Qed.

End min_by_lemmas.
