(* ===== verification/PyStr.v ===== *)
(** * Python text operations on ASCII strings

    The string methods and regular expressions the modelled code uses, as
    functions on [string], whose characters are the code points 0 to 127 of the
    source's text. *)

From S2P Require Import Prelude.
From Stdlib Require Import Ascii.

(** ** Characters *)

Definition code (c : ascii) : nat := nat_of_ascii c.

Definition is_upper (c : ascii) : bool := ((65 <=? code c) && (code c <=? 90))%nat.
Definition is_lower (c : ascii) : bool := ((97 <=? code c) && (code c <=? 122))%nat.
Definition is_digit (c : ascii) : bool := ((48 <=? code c) && (code c <=? 57))%nat.

(** [a-z0-9] after lowering. *)
Definition is_alnum_lower (c : ascii) : bool := is_lower c || is_digit c.

(** [\w]. *)
Definition is_word (c : ascii) : bool :=
  is_upper c || is_lower c || is_digit c || (code c =? 95)%nat.

(** The ASCII characters [str.strip] removes. *)
Definition is_space (c : ascii) : bool :=
  ((9 <=? code c) && (code c <=? 13) || (28 <=? code c) && (code c <=? 32))%nat.

Definition lower_char (c : ascii) : ascii :=
  if is_upper c then ascii_of_nat (code c + 32) else c.

(** ** Strings *)

Definition chars (s : string) : list ascii := String.list_ascii_of_string s.
Definition of_chars (l : list ascii) : string := String.string_of_list_ascii l.

Definition lower (s : string) : string := of_chars (map lower_char (chars s)).

Fixpoint drop_while (p : ascii → bool) (l : list ascii) : list ascii :=
  match l with
  | [] => []
  | c :: l' => if p c then drop_while p l' else l
  end.

Definition lstrip_chars (p : ascii → bool) (l : list ascii) : list ascii := drop_while p l.
Definition rstrip_chars (p : ascii → bool) (l : list ascii) : list ascii :=
  rev (drop_while p (rev l)).

Definition strip (s : string) : string :=
  of_chars (rstrip_chars is_space (lstrip_chars is_space (chars s))).

(** [s.rstrip(set)]. *)
Definition rstrip (set : string) (s : string) : string :=
  of_chars (rstrip_chars (λ c, bool_decide (c ∈ chars set)) (chars s)).

Fixpoint starts_with (p l : list ascii) : bool :=
  match p, l with
  | [], _ => true
  | _ :: _, [] => false
  | a :: p', b :: l' => bool_decide (a = b) && starts_with p' l'
  end.

Fixpoint contains_chars (p l : list ascii) : bool :=
  starts_with p l ||
  match l with
  | [] => false
  | _ :: l' => contains_chars p l'
  end.

(** [p in s]. *)
Definition contains (p s : string) : bool := contains_chars (chars p) (chars s).

(** [s[:n]]. *)
Definition str_take (n : nat) (s : string) : string := of_chars (take n (chars s)).

(** [sep.join(parts)]. *)
Fixpoint str_join (sep : string) (parts : list string) : string :=
  match parts with
  | [] => ""
  | [x] => x
  | x :: rest => (x ++ sep ++ str_join sep rest)%string
  end.

(** The maximal runs of characters satisfying [p]: [re.findall("[...]+", s)]. *)
Fixpoint runs_from (p : ascii → bool) (cur : list ascii) (l : list ascii) : list (list ascii) :=
  match l with
  | [] => match cur with [] => [] | _ => [rev cur] end
  | c :: l' =>
      if p c then runs_from p (c :: cur) l'
      else match cur with
           | [] => runs_from p [] l'
           | _ => rev cur :: runs_from p [] l'
           end
  end.

Definition runs (p : ascii → bool) (s : string) : list string :=
  map of_chars (runs_from p [] (chars s)).

(** [str.replace]: every occurrence, left to right; the old text is not empty. *)
Fixpoint replace_from (fuel : nat) (old new l : list ascii) : list ascii :=
  match fuel, l with
  | S k, c :: l' =>
      if starts_with old l then (new ++ replace_from k old new (drop (length old) l))%list
      else c :: replace_from k old new l'
  | _, _ => l
  end.

Definition replace (old new s : string) : string :=
  of_chars (replace_from (S (String.length s)) (chars old) (chars new) (chars s)).

(** ** Lemmas *)

Lemma chars_of_chars l : chars (of_chars l) = l.
Proof. apply String.list_ascii_of_string_of_list_ascii. Qed.

Lemma of_chars_chars s : of_chars (chars s) = s.
Proof. apply String.string_of_list_ascii_of_string. Qed.

Lemma chars_append a b : chars (a ++ b)%string = (chars a ++ chars b)%list.
Proof. unfold chars. induction a as [|c a IH]; simpl; [done|]. by rewrite IH. Qed.

Lemma drop_while_head p l c l' : drop_while p l = c :: l' → p c = false.
Proof.
  induction l as [|d l IH]; simpl; [done|].
  destruct (p d) eqn:E; [done|]. intros [= <- <-]. done.
Qed.

Lemma starts_with_spec p l : starts_with p l = true ↔ ∃ k, l = p ++ k.
Proof.
  revert l; induction p as [|a p IH]; intros l; simpl.
  - split; [by exists l|done].
  - destruct l as [|b l]; [split; [done|by intros []]|].
    rewrite andb_true_iff, bool_decide_eq_true, IH. split.
    + intros [-> [k ->]]. by exists k.
    + intros [k [= -> ->]]. eauto.
Qed.

Lemma contains_chars_spec p l : contains_chars p l = true ↔ ∃ k1 k2, l = k1 ++ p ++ k2.
Proof.
  induction l as [|c l IH]; simpl; rewrite orb_true_iff, starts_with_spec.
  - split.
    + intros [[k Hk]|?]; [|done]. by exists [], k.
    + intros (k1 & k2 & Hk). left. symmetry in Hk. apply app_eq_nil in Hk as [-> Hk].
      by exists k2.
  - rewrite IH. split.
    + intros [[k ->]|(k1 & k2 & ->)]; [by exists [], k|by exists (c :: k1), k2].
    + intros ([|d k1] & k2 & Hk); simplify_eq/=; [left; by exists k2|right; by exists k1, k2].
Qed.
