(* ===== verification/Sql.v ===== *)
(** * SQL statements over a table, and the JSON the tables hold

    A table is a finite map from primary key to row. An [UPDATE ... WHERE] is
    [update_where], its row count [count_where], a [SELECT id ... WHERE] is
    [ids_where]. A predicate is the WHERE clause with SQL's third truth value
    read as "row not selected", so a comparison with NULL is [false]. *)

From S2P Require Import Prelude.

(** ** Statements *)

Definition update_where {R} (P : Z → R → bool) (f : R → R) (m : gmap Z R) : gmap Z R :=
  map_imap (λ i r, Some (if P i r then f r else r)) m.

(** Ascending primary keys of the selected rows. *)
Definition ids_where {R} (P : Z → R → bool) (m : gmap Z R) : list Z :=
  merge_sort (≤) (omap (λ kv : Z * R, if P kv.1 kv.2 then Some kv.1 else None) (map_to_list m)).

Definition count_where {R} (P : Z → R → bool) (m : gmap Z R) : nat := length (ids_where P m).

Definition exists_where {R} (P : Z → R → bool) (m : gmap Z R) : bool :=
  match ids_where P m with
  | [] => false
  | _ :: _ => true
  end.

(** ** Nullable comparisons *)

Definition sql_lt (a b : option Z) : bool :=
  match a, b with
  | Some x, Some y => x <? y
  | _, _ => false
  end.

Definition sql_le (a b : option Z) : bool :=
  match a, b with
  | Some x, Some y => x <=? y
  | _, _ => false
  end.

Definition coalesce {A} (a b : option A) : option A :=
  match a with
  | Some _ => a
  | None => b
  end.

(** ** JSON values *)

Inductive json : Type :=
| JNull
| JBool (b : bool)
| JInt (z : Z)
| JStr (s : string)
| JArr (l : list json)
| JObj (l : list (string * json)).

#[export] Instance json_eq_dec : EqDecision json.
Proof.
  refine (fix go (x y : json) {struct x} : Decision (x = y) :=
    match x, y with
    | JNull, JNull => left eq_refl
    | JBool a, JBool b => cast_if (decide (a = b))
    | JInt a, JInt b => cast_if (decide (a = b))
    | JStr a, JStr b => cast_if (decide (a = b))
    | JArr a, JArr b => cast_if (@list_eq_dec json go a b)
    | JObj a, JObj b => cast_if (@list_eq_dec _ (@prod_eq_dec string _ json go) a b)
    | _, _ => right _
    end); clear go; abstract congruence.
Defined.

(** A JSON object column: keys are unique and unordered, as in [jsonb]. *)
Abbreviation jobject := (gmap string json).

(** [d[k]] on an insertion-ordered dict. *)
Fixpoint alist_get {A} (k : string) (l : list (string * A)) : option A :=
  match l with
  | [] => None
  | (k', v) :: l' => if String.eqb k' k then Some v else alist_get k l'
  end.

(** [d[k] = v] on an insertion-ordered dict. *)
Fixpoint alist_set {A} (k : string) (v : A) (l : list (string * A)) : list (string * A) :=
  match l with
  | [] => [(k, v)]
  | (k', v') :: l' => if String.eqb k' k then (k', v) :: l' else (k', v') :: alist_set k v l'
  end.

(** [o ->> k]: the text of a scalar member, NULL when absent or JSON null. The
    code reads only scalar members as text. *)
Definition json_text (j : json) : option string :=
  match j with
  | JStr s => Some s
  | JInt z => Some (pretty.pretty z)
  | JBool true => Some "true"%string
  | JBool false => Some "false"%string
  | JNull | JArr _ | JObj _ => None
  end.

Definition obj_text (o : jobject) (k : string) : option string :=
  match o !! k with
  | Some j => json_text j
  | None => None
  end.

(** [(o ->> k)::int] for the integers the code writes. *)
Definition obj_int (o : jobject) (k : string) : option Z :=
  match o !! k with
  | Some (JInt z) => Some z
  | _ => None
  end.

(** Python truthiness of a decoded value. *)
Definition truthy (j : json) : bool :=
  match j with
  | JNull => false
  | JBool b => b
  | JInt z => negb (z =? 0)
  | JStr s => negb (String.eqb s "")
  | JArr l => match l with [] => false | _ => true end
  | JObj l => match l with [] => false | _ => true end
  end.

(** [a || b] on objects: the right operand's keys win. *)
Definition jsonb_concat (a b : jobject) : jobject := b ∪ a.

Definition json_strings (j : json) : list string :=
  match j with
  | JArr l => omap (λ x, match x with JStr s => Some s | _ => None end) l
  | _ => []
  end.

(** ** Lemmas *)

Lemma lookup_update_where {R} P (f : R → R) (m : gmap Z R) i :
  update_where P f m !! i = (λ r, if P i r then f r else r) <$> m !! i.
Proof. unfold update_where. rewrite map_lookup_imap. by destruct (m !! i). Qed.

Lemma update_where_none {R} P (f : R → R) (m : gmap Z R) :
  (∀ i r, m !! i = Some r → P i r = false) → update_where P f m = m.
Proof.
  intros H. apply map_eq; intros i. rewrite lookup_update_where.
  destruct (m !! i) eqn:E; [|done]. simpl. by rewrite (H _ _ E).
Qed.

Lemma dom_update_where {R} P (f : R → R) (m : gmap Z R) : dom (update_where P f m) = dom m.
Proof.
  apply set_eq; intros i. rewrite !elem_of_dom, lookup_update_where.
  by rewrite fmap_is_Some.
Qed.

Lemma elem_of_ids_where {R} P (m : gmap Z R) i :
  i ∈ ids_where P m ↔ ∃ r, m !! i = Some r ∧ P i r = true.
Proof.
  unfold ids_where. rewrite merge_sort_Permutation, list_elem_of_omap. split.
  - intros ([k r] & Hin & Heq). apply elem_of_map_to_list in Hin. simpl in *.
    destruct (P k r) eqn:E; simplify_eq. eauto.
  - intros (r & Hin & HP). exists (i, r). rewrite elem_of_map_to_list. simpl.
    by rewrite HP.
Qed.

Lemma ids_where_sorted {R} P (m : gmap Z R) : StronglySorted (≤) (ids_where P m).
Proof. apply StronglySorted_merge_sort; apply _. Qed.

Lemma NoDup_ids_where {R} P (m : gmap Z R) : NoDup (ids_where P m).
Proof.
  unfold ids_where. rewrite merge_sort_Permutation.
  pose proof (NoDup_fst_map_to_list m) as Hnd.
  assert (∀ l : list (Z * R), NoDup l.*1 →
    NoDup (omap (λ kv : Z * R, if P kv.1 kv.2 then Some kv.1 else None) l)) as H; [|by apply H].
  induction l as [|[k r] l IH]; csimpl; [by constructor|]. intros [Hk Hl]%NoDup_cons.
  destruct (P k r); [|by apply IH]. constructor; [|by apply IH].
  rewrite list_elem_of_omap. intros ([k' r'] & Hin & Heq). simpl in *.
  destruct (P k' r'); simplify_eq. apply Hk. apply list_elem_of_fmap. by exists (k, r').
Qed.

Lemma exists_where_true {R} P (m : gmap Z R) :
  exists_where P m = true ↔ ∃ i r, m !! i = Some r ∧ P i r = true.
Proof.
  unfold exists_where. split.
  - destruct (ids_where P m) as [|i l] eqn:E; [done|]. intros _.
    exists i. apply elem_of_ids_where. rewrite E. by left.
  - intros (i & r & H1 & H2). assert (i ∈ ids_where P m) as Hin by (apply elem_of_ids_where; eauto).
    destruct (ids_where P m); [by apply elem_of_nil in Hin|done].
Qed.

Lemma exists_where_false {R} P (m : gmap Z R) :
  exists_where P m = false ↔ ∀ i r, m !! i = Some r → P i r = false.
Proof.
  split.
  - intros H i r Hi. destruct (P i r) eqn:E; [|done].
    assert (exists_where P m = true) as H' by (apply exists_where_true; eauto). congruence.
  - intros H. destruct (exists_where P m) eqn:E; [|done].
    apply exists_where_true in E as (i & r & Hi & HP). by rewrite (H i r Hi) in HP.
Qed.

Lemma count_where_zero {R} P (m : gmap Z R) :
  count_where P m = 0%nat ↔ ∀ i r, m !! i = Some r → P i r = false.
Proof.
  rewrite <- exists_where_false. unfold count_where, exists_where.
  by destruct (ids_where P m).
Qed.

Lemma coalesce_Some {A} (a b : option A) x :
  coalesce a b = Some x ↔ a = Some x ∨ a = None ∧ b = Some x.
Proof. destruct a; simpl; naive_solver. Qed.

#[export] Hint Rewrite @lookup_update_where : js.

(** ** Lemmas: insertion-ordered dicts *)

Lemma alist_get_set {A} k k' (v : A) l :
  alist_get k (alist_set k' v l) = if String.eqb k' k then Some v else alist_get k l.
Proof.
  induction l as [|[k0 v0] l IH]; simpl; [done|].
  destruct (String.eqb_spec k0 k') as [->|Hn]; simpl; [by destruct (String.eqb k' k)|].
  rewrite IH. destruct (String.eqb_spec k0 k) as [->|]; [|done].
  destruct (String.eqb_spec k' k); congruence.
Qed.

Lemma alist_get_elem {A} k (v : A) l : alist_get k l = Some v → (k, v) ∈ l.
Proof.
  induction l as [|[k' v'] l IH]; simpl; [done|].
  destruct (String.eqb_spec k' k) as [->|]; [intros [= ->]; by left|]. intros ?. right. auto.
Qed.

Lemma alist_set_elem {A} k k' (v v' : A) l :
  (k', v') ∈ alist_set k v l → (k', v') = (k, v) ∨ (k', v') ∈ l.
Proof.
  induction l as [|[k0 v0] l IH]; simpl; [set_solver|].
  destruct (String.eqb_spec k0 k) as [->|]; [set_solver|].
  rewrite elem_of_cons. intros [?|?%IH]; set_solver.
Qed.

Lemma alist_set_keys {A} k (v : A) l x : x ∈ (alist_set k v l).*1 ↔ x = k ∨ x ∈ l.*1.
Proof.
  induction l as [|[k0 v0] l IH]; simpl; [set_solver|].
  destruct (String.eqb_spec k0 k) as [->|]; csimpl; rewrite !elem_of_cons; [naive_solver|].
  rewrite IH. naive_solver.
Qed.

Lemma alist_set_NoDup {A} k (v : A) l : NoDup l.*1 → NoDup (alist_set k v l).*1.
Proof.
  induction l as [|[k0 v0] l IH]; simpl; [intros; apply NoDup_singleton|].
  intros [Hn Hl]%NoDup_cons. destruct (String.eqb_spec k0 k) as [->|]; csimpl; constructor; auto.
  rewrite alist_set_keys. by intros [?|?].
Qed.

Lemma StronglySorted_snoc {A} (R : A → A → Prop) l x :
  StronglySorted R l → (∀ y, y ∈ l → R y x) → StronglySorted R (l ++ [x]).
Proof.
  induction 1 as [|y l Hl IH Hy]; intros H; simpl; [by repeat constructor|].
  constructor; [apply IH; intros z Hz; apply H; by right|].
  apply Forall_app. split; [done|]. constructor; [|done]. apply H. by left.
Qed.

Lemma sorted_ids_unique (l1 l2 : list Z) :
  StronglySorted (≤) l1 → StronglySorted (≤) l2 → NoDup l1 → NoDup l2 → (∀ i, i ∈ l1 ↔ i ∈ l2) → l1 = l2.
Proof.
  intros H1 H2 D1 D2 H. apply (StronglySorted_unique (≤)); [done..|]. by apply NoDup_Permutation.
Qed.

(** A row with the greatest id comes last. *)
Lemma ids_where_top {R} (P : Z → R → bool) (m : gmap Z R) n x :
  (∀ i, is_Some (m !! i) → i < n) →
  ids_where P (<[n := x]> m) = (ids_where P m ++ if P n x then [n] else [])%list.
Proof.
  intros Hn. assert (∀ i, i ∈ ids_where P m → i < n) as Hlt.
  { intros i (r & Hr & _)%elem_of_ids_where. apply Hn. eauto. }
  apply sorted_ids_unique; [apply ids_where_sorted| |apply NoDup_ids_where| |].
  - destruct (P n x); [|rewrite app_nil_r; apply ids_where_sorted].
    apply StronglySorted_snoc; [apply ids_where_sorted|]. intros i Hi. apply Hlt in Hi. lia.
  - apply NoDup_app. split_and!; [apply NoDup_ids_where| |by destruct (P n x); repeat constructor; apply not_elem_of_nil].
    intros i Hi. apply Hlt in Hi. destruct (P n x); [|apply not_elem_of_nil]. intros ->%list_elem_of_singleton. lia.
  - intros i. rewrite elem_of_app, !elem_of_ids_where. split.
    + intros (r & Hr & HP). destruct (decide (i = n)) as [->|Hne].
      * rewrite lookup_insert_eq in Hr. injection Hr as ->. rewrite HP. right. by left.
      * rewrite lookup_insert_ne in Hr by done. left. eauto.
    + intros [(r & Hr & HP)|Hi].
      * exists r. split; [|done]. rewrite lookup_insert_ne; [done|]. intros ->. pose proof (Hn i (ex_intro _ _ Hr)). lia.
      * destruct (P n x) eqn:E; [|by apply elem_of_nil in Hi]. apply list_elem_of_singleton in Hi as ->.
        exists x. by rewrite lookup_insert_eq.
Qed.
