(* ===== verification/Json.v ===== *)
(** * JSON text as Python writes and reads it

    [json.dumps(value, sort_keys=True, separators=(",", ":"))] and [json.loads],
    for the values [json] holds: a number with a fraction or an exponent is no
    [JInt], so a text with one does not load here. A character is a code point
    below 256. *)

From S2P Require Import Prelude PyStr Sql.
From Stdlib Require Import Ascii DecimalString DecimalFacts DecimalN DecimalPos.

Local Open Scope Z_scope.
Local Open Scope list_scope.

(** ** Writing *)

Definition quote : ascii := "034"%char.
Definition backslash : ascii := "\"%char.

Definition hex_char (n : nat) : ascii :=
  ascii_of_nat (if (n <? 10)%nat then 48 + n else 87 + n).

(** [ensure_ascii]: printable ASCII as it is, the rest escaped. *)
Definition escape (c : ascii) : list ascii :=
  if bool_decide (c = quote) || bool_decide (c = backslash) then [backslash; c]
  else if (code c =? 10)%nat then [backslash; "n"%char]
  else if (code c =? 13)%nat then [backslash; "r"%char]
  else if (code c =? 9)%nat then [backslash; "t"%char]
  else if (code c =? 12)%nat then [backslash; "f"%char]
  else if (code c =? 8)%nat then [backslash; "b"%char]
  else if ((32 <=? code c) && (code c <=? 126))%nat then [c]
  else [backslash; "u"; "0"; "0"; hex_char (code c / 16); hex_char (code c mod 16)]%char.

Definition emit_str (s : string) : list ascii :=
  quote :: concat (map escape (chars s)) ++ [quote].

Definition uint_chars (d : Decimal.uint) : list ascii := chars (NilEmpty.string_of_uint d).

Definition emit_int (z : Z) : list ascii :=
  match z with
  | Z0 => ["0"%char]
  | Zpos p => uint_chars (Pos.to_uint p)
  | Zneg p => "-"%char :: uint_chars (Pos.to_uint p)
  end.

Fixpoint separated (parts : list (list ascii)) : list ascii :=
  match parts with
  | [] => []
  | [x] => x
  | x :: parts => x ++ ","%char :: separated parts
  end.

Fixpoint emit (j : json) : list ascii :=
  match j with
  | JNull => chars "null"
  | JBool true => chars "true"
  | JBool false => chars "false"
  | JInt z => emit_int z
  | JStr s => emit_str s
  | JArr l => "["%char :: separated (map emit l) ++ ["]"%char]
  | JObj l =>
      "{"%char :: separated (map (λ p, emit_str p.1 ++ ":"%char :: emit p.2) l) ++ ["}"%char]
  end.

(** Members by key: strings compare by code point. *)
Definition key_le (a b : string * json) : Prop := String.le a.1 b.1.
#[export] Instance key_le_dec : RelDecision key_le.
Proof. intros a b. unfold key_le. apply _. Defined.

(** [sort_keys], at every depth. *)
Fixpoint sort_keys (j : json) : json :=
  match j with
  | JArr l => JArr (map sort_keys l)
  | JObj l => JObj (merge_sort key_le (map (λ p, (p.1, sort_keys p.2)) l))
  | _ => j
  end.

Definition dumps (j : json) : string := of_chars (emit (sort_keys j)).

(** ** Reading *)

Definition is_ws (c : ascii) : bool :=
  (code c =? 32)%nat || (code c =? 9)%nat || (code c =? 10)%nat || (code c =? 13)%nat.

Definition skip (l : list ascii) : list ascii := drop_while is_ws l.

Definition hex_val (c : ascii) : option nat :=
  if is_digit c then Some (code c - 48)%nat
  else if ((97 <=? code c) && (code c <=? 102))%nat then Some (code c - 87)%nat
  else if ((65 <=? code c) && (code c <=? 70))%nat then Some (code c - 55)%nat
  else None.

(** The character after a backslash, [u] apart. *)
Definition unescape (c : ascii) : option ascii :=
  if bool_decide (c = quote) || bool_decide (c = backslash) || bool_decide (c = "/"%char) then Some c
  else if bool_decide (c = "n"%char) then Some (ascii_of_nat 10)
  else if bool_decide (c = "r"%char) then Some (ascii_of_nat 13)
  else if bool_decide (c = "t"%char) then Some (ascii_of_nat 9)
  else if bool_decide (c = "f"%char) then Some (ascii_of_nat 12)
  else if bool_decide (c = "b"%char) then Some (ascii_of_nat 8)
  else None.

(** The rest of a string, after its opening quote; a control character is
    refused. *)
Fixpoint read_str (l : list ascii) : option (list ascii * list ascii) :=
  match l with
  | [] => None
  | c :: l =>
      if bool_decide (c = quote) then Some ([], l)
      else if bool_decide (c = backslash) then
        match l with
        | e :: l =>
            if bool_decide (e = "u"%char) then
              match l with
              | a :: b :: c :: d :: l =>
                  w ← hex_val a; x ← hex_val b; y ← hex_val c; z ← hex_val d;
                  let n := (((w * 16 + x) * 16 + y) * 16 + z)%nat in
                  if (n <? 256)%nat
                  then '(s, rest) ← read_str l; Some (ascii_of_nat n :: s, rest)
                  else None
              | _ => None
              end
            else d ← unescape e; '(s, rest) ← read_str l; Some (d :: s, rest)
        | [] => None
        end
      else if (code c <? 32)%nat then None
      else '(s, rest) ← read_str l; Some (c :: s, rest)
  end.

Fixpoint span (p : ascii → bool) (l : list ascii) : list ascii * list ascii :=
  match l with
  | [] => ([], [])
  | c :: l' => if p c then let '(a, b) := span p l' in (c :: a, b) else ([], l)
  end.

(** [0] or digits without a leading zero. *)
Definition whole (ds rest : list ascii) : list ascii * list ascii :=
  match ds with
  | c :: d :: more => if bool_decide (c = "0"%char) then ([c], d :: more ++ rest) else (ds, rest)
  | _ => (ds, rest)
  end.

Definition fractional (rest : list ascii) : bool :=
  match rest with
  | c :: _ => bool_decide (c = "."%char) || bool_decide (c = "e"%char) || bool_decide (c = "E"%char)
  | [] => false
  end.

Definition read_uint (l : list ascii) : option (Z * list ascii) :=
  let '(ds, rest) := span is_digit l in
  let '(ds, rest) := whole ds rest in
  match ds with
  | [] => None
  | _ =>
      if fractional rest then None
      else d ← NilEmpty.uint_of_string (of_chars ds); Some (Z.of_N (N.of_uint d), rest)
  end.

Definition read_int (l : list ascii) : option (json * list ascii) :=
  match l with
  | c :: l' =>
      if bool_decide (c = "-"%char) then '(n, rest) ← read_uint l'; Some (JInt (- n), rest)
      else '(n, rest) ← read_uint l; Some (JInt n, rest)
  | [] => None
  end.

(** The items of an array up to its bracket, from the first item's start. *)
Fixpoint read_items (item : list ascii → option (json * list ascii)) (n : nat) (l : list ascii)
    : option (list json * list ascii) :=
  match n with
  | O => None
  | S n =>
      '(v, rest) ← item (skip l);
      match skip rest with
      | c :: rest =>
          if bool_decide (c = "]"%char) then Some ([v], rest)
          else if bool_decide (c = ","%char)
          then '(vs, rest) ← read_items item n rest; Some (v :: vs, rest)
          else None
      | [] => None
      end
  end.

(** The members of an object up to its brace. *)
Fixpoint read_members (item : list ascii → option (json * list ascii)) (n : nat) (l : list ascii)
    : option (list (string * json) * list ascii) :=
  match n with
  | O => None
  | S n =>
      match skip l with
      | q :: l =>
          if negb (bool_decide (q = quote)) then None
          else
            '(k, rest) ← read_str l;
            match skip rest with
            | c :: rest =>
                if negb (bool_decide (c = ":"%char)) then None
                else
                  '(v, rest) ← item (skip rest);
                  match skip rest with
                  | c :: rest =>
                      if bool_decide (c = "}"%char) then Some ([(of_chars k, v)], rest)
                      else if bool_decide (c = ","%char)
                      then '(vs, rest) ← read_members item n rest; Some ((of_chars k, v) :: vs, rest)
                      else None
                  | [] => None
                  end
            | [] => None
            end
      | [] => None
      end
  end.

(** [dict(pairs)]: a repeated key keeps its place and takes the last value. *)
Definition dict_of (l : list (string * json)) : list (string * json) :=
  foldl (λ d p, alist_set p.1 p.2 d) [] l.

(** A value at the start of [l]. [fuel] bounds the depth and the number of items. *)
Fixpoint read (fuel : nat) (l : list ascii) : option (json * list ascii) :=
  match fuel with
  | O => None
  | S fuel =>
      match l with
      | [] => None
      | c :: l' =>
          if bool_decide (c = quote) then '(s, rest) ← read_str l'; Some (JStr (of_chars s), rest)
          else if bool_decide (c = "["%char) then
            match skip l' with
            | d :: rest =>
                if bool_decide (d = "]"%char) then Some (JArr [], rest)
                else '(vs, rest) ← read_items (read fuel) fuel l'; Some (JArr vs, rest)
            | [] => None
            end
          else if bool_decide (c = "{"%char) then
            match skip l' with
            | d :: rest =>
                if bool_decide (d = "}"%char) then Some (JObj [], rest)
                else '(vs, rest) ← read_members (read fuel) fuel l'; Some (JObj (dict_of vs), rest)
            | [] => None
            end
          else if starts_with (chars "null") l then Some (JNull, drop 4 l)
          else if starts_with (chars "true") l then Some (JBool true, drop 4 l)
          else if starts_with (chars "false") l then Some (JBool false, drop 5 l)
          else read_int l
      end
  end.

(** [json.loads]; [None] is an exception. Every level and every item takes a
    character, so the text's length is fuel enough. *)
Definition loads (s : string) : option json :=
  '(v, rest) ← read (S (length (chars s))) (skip (chars s));
  match skip rest with
  | [] => Some v
  | _ => None
  end.

(** What a Python dict can hold: each key once. *)
Inductive json_ok : json → Prop :=
| ok_null : json_ok JNull
| ok_bool b : json_ok (JBool b)
| ok_int z : json_ok (JInt z)
| ok_str s : json_ok (JStr s)
| ok_arr l : Forall json_ok l → json_ok (JArr l)
| ok_obj l : NoDup l.*1 → Forall (λ p, json_ok p.2) l → json_ok (JObj l).

(** Python's [==]: dicts without regard to order, and a bool as the int it is. *)
Fixpoint eq_form (j : json) : json :=
  match j with
  | JBool b => JInt (Z.b2z b)
  | JArr l => JArr (map eq_form l)
  | JObj l => JObj (merge_sort key_le (map (λ p, (p.1, eq_form p.2)) l))
  | _ => j
  end.

Definition py_eq (a b : json) : bool := bool_decide (eq_form a = eq_form b).

(** ** Lemmas: strings *)

Lemma read_escape c rest :
  read_str (escape c ++ rest) = ('(s, r) ← read_str rest; Some (c :: s, r)).
Proof. destruct c as [[] [] [] [] [] [] [] []]; reflexivity. Qed.

Lemma read_emit_str l rest :
  read_str (concat (map escape l) ++ quote :: rest) = Some (l, rest).
Proof.
  induction l as [|c l IH]; [done|]. simpl concat. rewrite <- app_assoc, read_escape, IH. done.
Qed.

(** ** Lemmas: integers *)

(** What may follow a value: nothing a number would go on with. *)
Definition ends (rest : list ascii) : Prop :=
  match rest with
  | [] => True
  | c :: _ => is_digit c = false ∧ fractional rest = false
  end.

Lemma span_app p l rest :
  Forall (λ c, p c = true) l → match rest with [] => True | c :: _ => p c = false end →
  span p (l ++ rest) = (l, rest).
Proof.
  intros Hl Hr. induction Hl as [|c l Hc _ IH]; simpl.
  - destruct rest as [|c rest]; [done|]. simpl. by rewrite Hr.
  - by rewrite Hc, IH.
Qed.

Lemma uint_digits d : Forall (λ c, is_digit c = true) (uint_chars d).
Proof. induction d; by constructor. Qed.

Lemma to_uint_head p d : Pos.to_uint p ≠ Decimal.D0 d.
Proof.
  intros Hd. pose proof (DecimalN.Unsigned.to_of (Pos.to_uint p)) as H.
  unfold N.of_uint in H. rewrite DecimalPos.Unsigned.of_to in H. simpl in H.
  unfold Decimal.unorm in H. destruct (Decimal.nzhead (Pos.to_uint p)) eqn:E; rewrite Hd in H;
    try done.
  - by rewrite Hd in E; apply (DecimalPos.Unsigned.to_uint_nonzero p); rewrite Hd, H.
  - by apply (nzhead_nonzero _ _ E).
Qed.

Lemma read_uint_chars p rest :
  ends rest → read_uint (uint_chars (Pos.to_uint p) ++ rest) = Some (Zpos p, rest).
Proof.
  intros Hr. unfold read_uint. rewrite span_app; [|apply uint_digits|by destruct rest; [|destruct Hr]].
  assert (whole (uint_chars (Pos.to_uint p)) rest = (uint_chars (Pos.to_uint p), rest)) as ->.
  { destruct (Pos.to_uint p) as [|d|d|d|d|d|d|d|d|d|d] eqn:E; try (by apply to_uint_head in E);
      [done|..]; unfold uint_chars, chars; simpl; by destruct (String.list_ascii_of_string _). }
  assert (fractional rest = false) as Hf by by destruct rest; [|destruct Hr].
  unfold uint_chars at 2. rewrite of_chars_chars, NilEmpty.usu. rewrite Hf.
  destruct (uint_chars (Pos.to_uint p)) eqn:E.
  - exfalso. destruct (Pos.to_uint p) eqn:E'; try done. by apply (DecimalPos.Unsigned.to_uint_nonnil p).
  - simpl. unfold N.of_uint. by rewrite DecimalPos.Unsigned.of_to.
Qed.

Lemma read_emit_int z rest : ends rest → read_int (emit_int z ++ rest) = Some (JInt z, rest).
Proof.
  intros Hr. destruct z as [|p|p]; simpl emit_int.
  - unfold read_int. simpl. unfold read_uint. simpl. rewrite (span_app _ [] rest);
      [|done|by destruct rest; [|destruct Hr]]. simpl.
    assert (fractional rest = false) as -> by by destruct rest; [|destruct Hr]. done.
  - pose proof (read_uint_chars p rest Hr) as Hu. pose proof (uint_digits (Pos.to_uint p)) as Hd.
    destruct (uint_chars (Pos.to_uint p)) as [|c l] eqn:E.
    { exfalso. destruct (Pos.to_uint p) eqn:E'; try done. by apply (DecimalPos.Unsigned.to_uint_nonnil p). }
    simpl app in *. unfold read_int. apply Forall_cons_1 in Hd as [Hc _].
    rewrite bool_decide_eq_false_2 by (intros ->; done). by rewrite Hu.
  - simpl. by rewrite read_uint_chars.
Qed.

(** ** Lemmas: values *)

Fixpoint json_rec' (P : json → Prop) (Hn : P JNull) (Hb : ∀ b, P (JBool b)) (Hi : ∀ z, P (JInt z))
    (Hs : ∀ s, P (JStr s)) (Ha : ∀ l, Forall P l → P (JArr l))
    (Ho : ∀ l, Forall (λ p, P p.2) l → P (JObj l)) (j : json) {struct j} : P j :=
  match j with
  | JNull => Hn
  | JBool b => Hb b
  | JInt z => Hi z
  | JStr s => Hs s
  | JArr l =>
      Ha l ((fix go l : Forall P l :=
        match l with
        | [] => List.Forall_nil _
        | x :: l => List.Forall_cons _ _ _ (json_rec' P Hn Hb Hi Hs Ha Ho x) (go l)
        end) l)
  | JObj l =>
      Ho l ((fix go (l : list (string * json)) : Forall (λ p, P p.2) l :=
        match l with
        | [] => List.Forall_nil _
        | x :: l => List.Forall_cons _ _ _ (json_rec' P Hn Hb Hi Hs Ha Ho x.2) (go l)
        end) l)
  end.

(** What a value starts with: no space, and nothing that closes a container. *)
Definition starts (l : list ascii) : Prop :=
  match l with
  | [] => False
  | c :: _ => is_ws c = false ∧ c ≠ "]"%char ∧ c ≠ "}"%char
  end.

Lemma digit_starts c l : is_digit c = true → starts (c :: l).
Proof.
  intros Hd. destruct c as [[] [] [] [] [] [] [] []]; try done; simpl; split_and!; done.
Qed.

Lemma uint_starts p : starts (uint_chars (Pos.to_uint p)).
Proof.
  pose proof (uint_digits (Pos.to_uint p)) as Hd.
  destruct (uint_chars (Pos.to_uint p)) as [|c l] eqn:E.
  - destruct (Pos.to_uint p) eqn:E'; try done. by apply (DecimalPos.Unsigned.to_uint_nonnil p).
  - apply digit_starts. by apply Forall_cons_1 in Hd as [? _].
Qed.

Lemma emit_starts j : starts (emit j).
Proof.
  destruct j as [|[]|[]| | |]; try (by simpl; split_and!). apply uint_starts.
Qed.

Lemma skip_starts l rest : starts l → skip (l ++ rest) = l ++ rest.
Proof. destruct l as [|c l]; [done|]. intros [Hc _]. unfold skip. simpl. by rewrite Hc. Qed.

Lemma separated_cons x parts :
  separated (x :: parts) = match parts with [] => x | _ => x ++ ","%char :: separated parts end.
Proof. by destruct parts. Qed.

Lemma read_items_separated item l n rest :
  l ≠ [] → (length l ≤ n)%nat →
  (∀ v r, v ∈ l → ends r → item (emit v ++ r) = Some (v, r)) →
  read_items item n (separated (map emit l) ++ "]"%char :: rest) = Some (l, rest).
Proof.
  revert n. induction l as [|v l IH]; intros n Hl Hn Hitem; [done|]. destruct n as [|n]; [simpl in Hn; lia|].
  cbn [map]. rewrite separated_cons. destruct l as [|v' l]; cbn [map read_items].
  - rewrite skip_starts by apply emit_starts. rewrite Hitem by (done || by left). done.
  - rewrite <- app_assoc. rewrite skip_starts by apply emit_starts.
    rewrite Hitem by (done || by left). cbn -[separated read_items].
    change (is_ws ","%char) with false. cbn iota.
    rewrite bool_decide_eq_false_2, bool_decide_eq_true_2 by done.
    change (emit v' :: map emit l) with (map emit (v' :: l)).
    rewrite IH; [done|done|simpl in *; lia|]. intros w r Hw. apply Hitem. by right.
Qed.

Definition member_text (p : string * json) : list ascii := emit_str p.1 ++ ":"%char :: emit p.2.

Lemma read_members_separated item l n rest :
  l ≠ [] → (length l ≤ n)%nat →
  (∀ p r, p ∈ l → ends r → item (emit p.2 ++ r) = Some (p.2, r)) →
  read_members item n (separated (map member_text l) ++ "}"%char :: rest) = Some (l, rest).
Proof.
  revert n. induction l as [|p l IH]; intros n Hl Hn Hitem; [done|]. destruct n as [|n]; [simpl in Hn; lia|].
  assert (∀ tl, read_members item (S n) (member_text p ++ tl) =
    ('(v, rest) ← item (emit p.2 ++ tl);
     match skip rest with
     | c :: rest =>
         if bool_decide (c = "}"%char) then Some ([(p.1, v)], rest)
         else if bool_decide (c = ","%char)
         then '(vs, rest) ← read_members item n rest; Some ((p.1, v) :: vs, rest)
         else None
     | [] => None
     end)) as Hone.
  { intros tl. unfold member_text, emit_str. rewrite <- app_assoc. cbn [app read_members].
    unfold skip at 1. cbn [drop_while]. change (is_ws quote) with false. cbn iota.
    change (negb (bool_decide (quote = quote))) with false. cbn iota.
    rewrite <- app_assoc. cbn [app]. rewrite read_emit_str. cbn [mbind option_bind].
    unfold skip at 1. cbn [drop_while]. change (is_ws ":"%char) with false. cbn iota.
    change (negb (bool_decide (":"%char = ":"%char))) with false. cbn iota.
    rewrite skip_starts by apply emit_starts. by rewrite !of_chars_chars. }
  cbn [map]. rewrite separated_cons. destruct l as [|p' l]; cbn [map].
  - rewrite Hone, Hitem by (done || by left). destruct p. done.
  - rewrite <- app_assoc, Hone. rewrite Hitem by (done || by left). cbn -[separated read_members member_text].
    change (is_ws ","%char) with false. cbn iota.
    rewrite bool_decide_eq_false_2, bool_decide_eq_true_2 by done.
    change (member_text p' :: map member_text l) with (map member_text (p' :: l)).
    rewrite IH; [by destruct p|done|simpl in *; lia|]. intros w r Hw. apply Hitem. by right.
Qed.

Lemma alist_set_fresh {A} k (v : A) l : k ∉ l.*1 → alist_set k v l = l ++ [(k, v)].
Proof.
  induction l as [|[k' v'] l IH]; [done|]. csimpl. intros Hk.
  destruct (String.eqb_spec k' k) as [->|]; [destruct Hk; by left|].
  rewrite IH; [done|]. intros ?. apply Hk. by right.
Qed.

Lemma dict_of_nodup l : NoDup l.*1 → dict_of l = l.
Proof.
  unfold dict_of. change l with ([] ++ l) at 1 3.
  generalize (@nil (string * json)) as acc. induction l as [|[k v] l IH]; intros acc Hnd; simpl.
  - by rewrite List.app_nil_r.
  - rewrite alist_set_fresh.
    + rewrite IH; rewrite <- app_assoc; [done|]. done.
    + rewrite fmap_app in Hnd. apply NoDup_app in Hnd as (_ & Hd & _). intros Hk.
      apply (Hd k Hk). by left.
Qed.

Lemma separated_length {A} (f : A → list ascii) l :
  (∀ x, x ∈ l → 1 ≤ length (f x))%nat →
  (length l ≤ length (separated (map f l)))%nat ∧
  ∀ x, x ∈ l → (length (f x) ≤ length (separated (map f l)))%nat.
Proof.
  induction l as [|x l IH]; intros Hf; [by split; [done|intros ? ?%elem_of_nil]|].
  cbn [map]. rewrite separated_cons.
  destruct IH as [IH1 IH2]; [by intros y Hy; apply Hf; right|].
  pose proof (Hf x ltac:(by left)). destruct l as [|y l]; cbn [map] in *.
  - split; [simpl; lia|]. intros z [->|?%elem_of_nil]%elem_of_cons; [lia|done].
  - rewrite length_app. cbn [length] in *. split; [lia|].
    intros z [->|Hz]%elem_of_cons; [lia|]. specialize (IH2 z Hz). lia.
Qed.

Lemma starts_length l : starts l → (1 ≤ length l)%nat.
Proof. destruct l; [done|]. simpl. lia. Qed.

(** A written value is read back, whatever ends it. *)
Lemma read_emit j fuel rest :
  json_ok j → (length (emit j) ≤ fuel)%nat → ends rest → read fuel (emit j ++ rest) = Some (j, rest).
Proof.
  revert fuel rest. induction j as [|b|z|s|l IH|l IH] using json_rec'; intros fuel rest Hok Hfuel Hr;
    (destruct fuel as [|fuel];
      [exfalso; match type of Hfuel with (length (emit ?j) ≤ _)%nat =>
         pose proof (starts_length _ (emit_starts j)); lia end|]).
  - done.
  - by destruct b.
  - cbn [emit]. pose proof (emit_starts (JInt z)) as Hst. cbn [emit] in Hst.
    pose proof (read_emit_int z rest Hr) as Hi.
    assert (∃ c l, emit_int z = c :: l ∧ (c = "-"%char ∨ is_digit c = true)) as (c & l & E & Hc).
    { destruct z as [|p|p]; [by eexists _, _; split; [|right]| |by eexists _, _; split; [|left]].
      pose proof (uint_digits (Pos.to_uint p)) as Hd.
      destruct (uint_chars (Pos.to_uint p)) as [|c l] eqn:E; [by cbn in Hst; rewrite E in Hst|].
      exists c, l. split; [done|]. right. by apply Forall_cons_1 in Hd as [? _]. }
    rewrite E in *. cbn [app read] in *.
    assert (∀ d, is_digit d = false → d ≠ "-"%char → c ≠ d) as Hne.
    { intros d Hd Hm ->. destruct Hc as [?|Hc]; [done|]. by rewrite Hd in Hc. }
    do 3 (rewrite bool_decide_eq_false_2 by (apply Hne; done)).
    cbn [starts_with chars String.list_ascii_of_string].
    do 3 (rewrite (bool_decide_eq_false_2 (_ = c)) by (apply not_eq_sym, Hne; done)).
    by cbn [andb].
  - cbn [emit app]. unfold emit_str. cbn [app read].
    rewrite bool_decide_eq_true_2 by done. rewrite <- app_assoc. cbn [app].
    rewrite read_emit_str. cbn. by rewrite of_chars_chars.
  - cbn [emit app read]. rewrite bool_decide_eq_false_2, bool_decide_eq_true_2 by done.
    inversion Hok as [| | | |? Hl|]; subst. rewrite <- app_assoc. cbn [app].
    destruct l as [|v l]; [done|].
    assert (∀ tl, starts (separated (map emit (v :: l)) ++ tl)) as Hst.
    { intros tl. cbn [map]. rewrite separated_cons. pose proof (emit_starts v).
      destruct (emit v); [done|]. by destruct (map emit l). }
    specialize (Hst ("]"%char :: rest)).
    destruct (separated_length emit (v :: l)) as [Hn Hlen].
    { intros x _. apply starts_length, emit_starts. }
    assert (read_items (read fuel) fuel (separated (map emit (v :: l)) ++ "]"%char :: rest)
      = Some (v :: l, rest)) as Hitems.
    { cbn [emit length] in Hfuel. rewrite length_app in Hfuel. apply read_items_separated; [done|lia|].
      intros w r Hw Hends. rewrite Forall_forall in IH. rewrite Forall_forall in Hl.
      apply IH; [done|by apply Hl| |done]. specialize (Hlen w Hw). lia. }
    destruct (separated (map emit (v :: l)) ++ "]"%char :: rest) as [|c tl] eqn:E; [done|].
    destruct Hst as (Hws & Hc & _). unfold skip. cbn [drop_while]. rewrite Hws.
    rewrite bool_decide_eq_false_2 by done. by rewrite Hitems.
  - cbn [emit app read]. do 2 (rewrite bool_decide_eq_false_2 by done). rewrite bool_decide_eq_true_2 by done.
    inversion Hok as [| | | | |? Hnd Hl]; subst. rewrite <- app_assoc. cbn [app].
    change (map (λ p, emit_str p.1 ++ ":"%char :: emit p.2) l) with (map member_text l) in *.
    destruct l as [|v l]; [done|].
    assert (∃ tl', separated (map member_text (v :: l)) ++ "}"%char :: rest = quote :: tl') as [tl' Hq].
    { cbn [map]. rewrite separated_cons. destruct (map member_text l); eexists; reflexivity. }
    destruct (separated_length member_text (v :: l)) as [Hn Hlen].
    { intros x _. unfold member_text, emit_str. simpl. lia. }
    assert (read_members (read fuel) fuel (separated (map member_text (v :: l)) ++ "}"%char :: rest)
      = Some (v :: l, rest)) as Hitems.
    { cbn [emit length] in Hfuel. rewrite length_app in Hfuel.
      change (map (λ p, emit_str p.1 ++ ":"%char :: emit p.2) (v :: l)) with (map member_text (v :: l)) in Hfuel.
      apply read_members_separated; [done|lia|].
      intros w r Hw Hends. rewrite Forall_forall in IH. rewrite Forall_forall in Hl.
      apply IH; [done|by apply Hl| |done]. specialize (Hlen w Hw).
      unfold member_text at 1 in Hlen. rewrite length_app in Hlen. cbn [length] in Hlen. lia. }
    rewrite Hq in *. unfold skip. cbn [drop_while]. change (is_ws quote) with false. cbn iota.
    rewrite bool_decide_eq_false_2 by done. rewrite Hitems. cbn [mbind option_bind]. by rewrite dict_of_nodup.
Qed.

(** ** Lemmas: sorted keys *)

Lemma sort_keys_ok j : json_ok j → json_ok (sort_keys j).
Proof.
  induction j as [|b|z|s|l IH|l IH] using json_rec'; intros Hok; simpl; [by constructor..| |].
  - inversion Hok as [| | | |? Hl|]; subst. constructor. rewrite Forall_forall in *.
    intros x (y & -> & Hy)%list_elem_of_fmap. apply IH, Hl; done.
  - inversion Hok as [| | | | |? Hnd Hl]; subst.
    assert (merge_sort key_le (map (λ p, (p.1, sort_keys p.2)) l) ≡ₚ map (λ p, (p.1, sort_keys p.2)) l)
      as Hp by apply merge_sort_Permutation.
    constructor.
    + rewrite Hp. replace (map (λ p, (p.1, sort_keys p.2)) l).*1 with l.*1; [done|].
      clear. induction l as [|p l IH]; [done|]. csimpl. by rewrite <- IH.
    + rewrite Hp. rewrite Forall_forall in *.
      intros x (y & -> & Hy)%list_elem_of_fmap. apply IH, Hl; done.
Qed.

#[export] Instance key_le_trans : Transitive key_le.
Proof. intros a b c. unfold key_le. apply transitivity. Qed.

#[export] Instance key_le_total : Total key_le.
Proof. intros a b. apply String.le_total. Qed.

Lemma sorted_perm_eq (l1 l2 : list (string * json)) :
  StronglySorted key_le l1 → StronglySorted key_le l2 → l1 ≡ₚ l2 → NoDup l1.*1 → l1 = l2.
Proof.
  intros H1. revert l2. induction H1 as [|x l1 H1 IH Hx]; intros l2 H2 Hp Hnd.
  { by apply Permutation_nil_l in Hp. }
  destruct H2 as [|y l2 H2 Hy]; [by apply Permutation_nil_r in Hp|].
  assert (x = y) as ->.
  { assert (x ∈ y :: l2) as Hxin by (rewrite <- Hp; by left).
    assert (y ∈ x :: l1) as Hyin by (rewrite Hp; by left).
    assert (key_le x y ∧ key_le y x) as [Hxy Hyx].
    { rewrite Forall_forall in Hx, Hy. split.
      - apply elem_of_cons in Hyin as [->|?]; [unfold key_le; reflexivity|by apply Hx].
      - apply elem_of_cons in Hxin as [->|?]; [unfold key_le; reflexivity|by apply Hy]. }
    apply (NoDup_fmap_inj fst (x :: l1)); [done|by left|done|]. by apply (anti_symm String.le). }
  f_equal. apply IH; [done|by apply Permutation_cons_inv in Hp|]. csimpl in *. by apply NoDup_cons in Hnd as [_ ?].
Qed.

Lemma merge_sort_perm_eq (l1 l2 : list (string * json)) :
  l1 ≡ₚ l2 → NoDup l1.*1 → merge_sort key_le l1 = merge_sort key_le l2.
Proof.
  intros Hp Hnd. apply sorted_perm_eq; [apply StronglySorted_merge_sort; apply _..| |];
    by rewrite !merge_sort_Permutation.
Qed.

Lemma map_second_keys (f : json → json) (l : list (string * json)) :
  (map (λ p, (p.1, f p.2)) l).*1 = l.*1.
Proof. induction l as [|p l IH]; [done|]. csimpl. by rewrite IH. Qed.

(** Sorting keys makes an equal value. *)
Lemma eq_form_sort_keys j : json_ok j → eq_form (sort_keys j) = eq_form j.
Proof.
  induction j as [|b|z|s|l IH|l IH] using json_rec'; intros Hok; simpl; [done..| |].
  - inversion Hok as [| | | |? Hl|]; subst. f_equal. rewrite map_map. apply map_ext_in.
    intros x Hx%list_elem_of_In. rewrite Forall_forall in *. by apply IH, Hl.
  - inversion Hok as [| | | | |? Hnd Hl]; subst. f_equal. symmetry.
    apply merge_sort_perm_eq; [|by rewrite map_second_keys].
    rewrite merge_sort_Permutation, map_map. match goal with |- ?x ≡ₚ ?y => assert (x = y) as ->; [|done] end. apply map_ext_in.
    intros x Hx%list_elem_of_In. simpl. f_equal. rewrite Forall_forall in *. symmetry. by apply IH, Hl.
Qed.

Lemma sort_keys_idem j : json_ok j → sort_keys (sort_keys j) = sort_keys j.
Proof.
  induction j as [|b|z|s|l IH|l IH] using json_rec'; intros Hok; simpl; [done..| |].
  - inversion Hok as [| | | |? Hl|]; subst. f_equal. rewrite map_map. apply map_ext_in.
    intros x Hx%list_elem_of_In. rewrite Forall_forall in *. by apply IH, Hl.
  - inversion Hok as [| | | | |? Hnd Hl]; subst. f_equal. symmetry.
    apply merge_sort_perm_eq; [|by rewrite map_second_keys].
    rewrite merge_sort_Permutation, map_map.
    match goal with |- ?x ≡ₚ ?y => assert (x = y) as ->; [|done] end. apply map_ext_in.
    intros x Hx%list_elem_of_In. simpl. f_equal. rewrite Forall_forall in *. symmetry. by apply IH, Hl.
Qed.

Lemma dumps_sort_keys j : json_ok j → dumps (sort_keys j) = dumps j.
Proof. intros Hok. unfold dumps. by rewrite sort_keys_idem. Qed.

(** What is written is read back, with keys in order. *)
Lemma loads_dumps j : json_ok j → loads (dumps j) = Some (sort_keys j).
Proof.
  intros Hok. unfold loads, dumps. rewrite chars_of_chars.
  pose proof (sort_keys_ok j Hok) as Hs. pose proof (emit_starts (sort_keys j)) as Hst.
  rewrite <- (List.app_nil_r (emit (sort_keys j))) at 2. rewrite skip_starts by done.
  by rewrite read_emit by (done || lia).
Qed.

(** Two values written alike are the same up to the order of keys. *)
Lemma dumps_inj a b : json_ok a → json_ok b → dumps a = dumps b → sort_keys a = sort_keys b.
Proof.
  intros Ha Hb Heq. pose proof (loads_dumps a Ha) as H. rewrite Heq, loads_dumps in H by done.
  by simplify_eq.
Qed.

Lemma py_eq_canonical a b : json_ok a → json_ok b → sort_keys a = sort_keys b → py_eq a b = true.
Proof.
  intros Ha Hb Heq. unfold py_eq. apply bool_decide_eq_true.
  by rewrite <- (eq_form_sort_keys a Ha), Heq, eq_form_sort_keys.
Qed.

Lemma py_eq_refl a : py_eq a a = true.
Proof. unfold py_eq. by apply bool_decide_eq_true. Qed.

Lemma py_eq_trans a b c : py_eq a b = true → py_eq b c = true → py_eq a c = true.
Proof. unfold py_eq. rewrite !bool_decide_eq_true. congruence. Qed.

Lemma py_eq_sym a b : py_eq a b = py_eq b a.
Proof. unfold py_eq. apply bool_decide_ext. by split. Qed.
