(* ===== verification/Objects.v ===== *)
(** * Payload objects ([core.payloads.objects], [core.payloads.blob_parts])

    Values and file parts outside the database, named by the digest of what they
    hold and read back before they are believed. The object store's client is a
    parameter, and so is the digest ([hashlib.sha256(...).hexdigest()]); [None] is
    PayloadUnavailable. An uploaded byte is a character. *)

From S2P Require Import Prelude PyStr Sql Json.
From Stdlib Require Import Ascii.

Local Open Scope string_scope.
Local Open Scope Z_scope.

(** Every JSON value the model holds is finite, so encoding does not raise. *)
Definition encode_payload (v : json) : string := dumps v.

Definition len_of (s : string) : Z := Z.of_nat (String.length s).

Definition is_hex (c : ascii) : bool :=
  is_digit c || ((97 <=? code c) && (code c <=? 102))%nat.

(** [re.fullmatch(r"[0-9a-f]{64}", s)]. *)
Definition is_digest (s : string) : bool := (len_of s =? 64) && forallb is_hex (chars s).

(** ** References *)

Record PayloadRef : Type := mkRef {
  rf_bucket : string;
  rf_key : string;
  rf_sha256 : string;
  rf_size : Z;
  rf_version : Z;
}.

Record BundleMemberRef : Type := mkMember {
  bm_bucket : string;
  bm_key : string;
  bm_sha256 : string;
  bm_size : Z;
  bm_member : string;
  bm_member_sha256 : string;
  bm_member_size : Z;
  bm_version : Z;
}.

(** [asdict]. *)
Definition ref_dict (r : PayloadRef) : json :=
  JObj [("bucket", JStr (rf_bucket r)); ("key", JStr (rf_key r)); ("sha256", JStr (rf_sha256 r));
        ("size", JInt (rf_size r)); ("version", JInt (rf_version r))].

Definition member_dict (r : BundleMemberRef) : json :=
  JObj [("bucket", JStr (bm_bucket r)); ("key", JStr (bm_key r)); ("sha256", JStr (bm_sha256 r));
        ("size", JInt (bm_size r)); ("member", JStr (bm_member r));
        ("member_sha256", JStr (bm_member_sha256 r)); ("member_size", JInt (bm_member_size r));
        ("version", JInt (bm_version r))].

Definition payload_key (sha256 : string) : string := "payloads/v2/sha256/" ++ sha256 ++ ".json".
Definition bundle_key (sha256 : string) : string := "payloads/v3/sha256/" ++ sha256 ++ ".json".

(** No keyword the class does not take. *)
Definition only_keys (names : list string) (d : list (string * json)) : bool :=
  forallb (λ p, mem p.1 names) d.

(** [PayloadRef.parse]. *)
Definition parse_ref (v : json) : option PayloadRef :=
  match v with
  | JObj d =>
      if negb (only_keys ["bucket"; "key"; "sha256"; "size"; "version"] d) then None
      else
        match alist_get "bucket" d, alist_get "key" d, alist_get "sha256" d, alist_get "size" d,
              default (JInt 2) (alist_get "version" d) with
        | Some (JStr bucket), Some (JStr key), Some (JStr sha256), Some (JInt size), JInt version =>
            if String.eqb bucket "" || negb (is_digest sha256) || (size <? 0) || negb (version =? 2)
               || negb (String.eqb key (payload_key sha256))
            then None else Some (mkRef bucket key sha256 size version)
        | _, _, _, _, _ => None
        end
  | _ => None
  end.

(** [BundleMemberRef.parse]. *)
Definition parse_member (v : json) : option BundleMemberRef :=
  match v with
  | JObj d =>
      if negb (only_keys ["bucket"; "key"; "sha256"; "size"; "member"; "member_sha256"; "member_size";
                          "version"] d) then None
      else
        match alist_get "bucket" d, alist_get "key" d, alist_get "sha256" d, alist_get "size" d,
              alist_get "member" d, alist_get "member_sha256" d, alist_get "member_size" d,
              default (JInt 3) (alist_get "version" d) with
        | Some (JStr bucket), Some (JStr key), Some (JStr sha256), Some (JInt size),
          Some (JStr member), Some (JStr msha256), Some (JInt msize), JInt version =>
            if String.eqb bucket "" || negb (is_digest sha256) || (size <? 0) || negb (version =? 3)
               || negb (String.eqb key (bundle_key sha256)) || String.eqb member ""
               || negb (is_digest msha256) || (msize <? 0)
            then None
            else Some (mkMember bucket key sha256 size member msha256 msize version)
        | _, _, _, _, _, _, _, _ => None
        end
  | _ => None
  end.

Definition BUNDLE_MAX_BYTES : Z := 8 * 1024 * 1024.

(** One step of [bundle_groups]: the groups so far, newest first, and the bytes
    in the newest. *)
Definition bundle_step {A} (size : A → Z) (k : list (list A) * Z) (item : A) : list (list A) * Z :=
  match k with
  | ([], _) => ([[item]], size item)
  | (g :: gs, total) =>
      if BUNDLE_MAX_BYTES <? total + size item then ([item] :: g :: gs, size item)
      else ((g ++ [item])%list :: gs, total + size item)
  end.

(** Consecutive runs of items, each at most [BUNDLE_MAX_BYTES] unless one item
    alone is larger. *)
Definition bundle_groups {A} (items : list A) (size : A → Z) : list (list A) :=
  rev (fst (foldl (bundle_step size) ([], 0) items)).

(** ** The store *)

(** What the code needs of an object store's client. [put] may fail, and
    whether it stored anything then is the client's business. *)
Record client (St : Type) : Type := mkClient {
  cl_put : string → string → string → St → St * bool;   (** bucket, key, body *)
  cl_get : string → string → St → option string;
}.
Arguments mkClient {St} _ _.
Arguments cl_put {St} _ _ _ _ _.
Arguments cl_get {St} _ _ _ _.

(** Decoded bundles by object key and size. *)
Abbreviation bundle_cache := (gmap (string * Z) (list (string * json))).

Section store.
Context {St : Type} (c : client St) (sha256 : string → string) (bucket : string).

(** [_read]. *)
Definition _read (b key : string) (size : Z) (sha : string) (s : St) : option json :=
  if negb (String.eqb b bucket) then None
  else
    raw ← cl_get c b key s;
    let raw := str_take (Z.to_nat (size + 1)) raw in
    if negb (len_of raw =? size) || negb (String.eqb (sha256 raw) sha) then None else loads raw.

(** [get]. *)
Definition get_payload (r : PayloadRef) (s : St) : option json :=
  r ← parse_ref (ref_dict r); _read (rf_bucket r) (rf_key r) (rf_size r) (rf_sha256 r) s.

(** The reference [put_verified] gives a value. *)
Definition ref_for (v : json) : PayloadRef :=
  let raw := encode_payload v in
  let digest := sha256 raw in
  mkRef bucket (payload_key digest) digest (len_of raw) 2.

Definition put_verified (v : json) (s : St) : St * option PayloadRef :=
  let r := ref_for v in
  let '(s, uploaded) := cl_put c bucket (rf_key r) (encode_payload v) s in
  if negb uploaded then (s, None)
  else
    match get_payload r s with
    | Some v' => if py_eq v' v then (s, Some r) else (s, None)
    | None => (s, None)
    end.

(** [_bundle]; an exception leaves the cache as it was. *)
Definition _bundle (b sha : string) (size : Z) (cache : bundle_cache) (s : St)
    : option (bundle_cache * list (string * json)) :=
  let key := bundle_key sha in
  match cache !! (key, size) with
  | Some members => Some (cache, members)
  | None =>
      v ← _read b key size sha s;
      match v with
      | JObj members => Some (<[(key, size) := members]> cache, members)
      | _ => None
      end
  end.

Definition get_bundle (r : BundleMemberRef) (cache : bundle_cache) (s : St)
    : option (bundle_cache * list (string * json)) :=
  r ← parse_member (member_dict r); _bundle (bm_bucket r) (bm_sha256 r) (bm_size r) cache s.

Definition get_member (r : BundleMemberRef) (cache : bundle_cache) (s : St)
    : option (bundle_cache * json) :=
  '(cache, members) ← get_bundle r cache s;
  v ← alist_get (bm_member r) members;
  let raw := encode_payload v in
  if negb (len_of raw =? bm_member_size r) || negb (String.eqb (sha256 raw) (bm_member_sha256 r))
  then None else Some (cache, v).

(** A member named by its own digest, in this store's bucket. *)
Definition get_digest_member (bundle_sha : string) (bundle_size : Z) (member_sha : string)
    (cache : bundle_cache) (s : St) : option (bundle_cache * json) :=
  if negb (is_digest bundle_sha) || negb (is_digest member_sha) || (bundle_size <? 0) then None
  else
    '(cache, members) ← _bundle bucket bundle_sha bundle_size cache s;
    v ← alist_get member_sha members;
    if negb (String.eqb (sha256 (encode_payload v)) member_sha) then None else Some (cache, v).

(** The reference [put_bundle] gives a member of [members]. *)
Definition member_for (members : list (string * json)) (p : string * json) : BundleMemberRef :=
  let raw := encode_payload (JObj members) in
  let digest := sha256 raw in
  let encoded := encode_payload p.2 in
  mkMember bucket (bundle_key digest) digest (len_of raw) p.1 (sha256 encoded) (len_of encoded) 3.

(** Read every member back through the reader, on one cache. *)
Fixpoint read_back (all l : list (string * json)) (cache : bundle_cache) (s : St) : bool :=
  match l with
  | [] => true
  | p :: l =>
      match get_member (member_for all p) cache s with
      | Some (cache, v) => py_eq v p.2 && read_back all l cache s
      | None => false
      end
  end.

Definition put_bundle (members : list (string * json)) (s : St)
    : St * option (list (string * BundleMemberRef)) :=
  if bool_decide (members = []) || existsb (λ p, String.eqb p.1 "") members then (s, None)
  else
    let raw := encode_payload (JObj members) in
    let '(s, uploaded) := cl_put c bucket (bundle_key (sha256 raw)) raw s in
    if uploaded && read_back members members ∅ s
    then (s, Some (map (λ p, (p.1, member_for members p)) members)) else (s, None).
End store.

(** ** Parts of an uploaded file *)

Definition PART_BYTES : Z := 1024 * 1024.

(** [upload_id] is a UUID's text. *)
Record BlobPart : Type := mkPart {
  bp_upload_id : string;
  bp_index : Z;
  bp_sha256 : string;
  bp_size : Z;
}.

(** [BlobPart.key]. *)
Definition part_key (p : BlobPart) : string :=
  "uploads/v1/" ++ bp_upload_id p ++ "/" ++ pretty.pretty (bp_index p) ++ "/" ++ bp_sha256 p.

Section parts.
Context {St : Type} (c : client St) (sha256 : string → string) (bucket : string).

(** [BlobPartStore.read]. *)
Definition read_part (p : BlobPart) (s : St) : option string :=
  if (bp_index p <? 0) || (bp_size p <? 1) || (PART_BYTES <? bp_size p)
     || negb (is_digest (bp_sha256 p)) then None
  else
    raw ← cl_get c bucket (part_key p) s;
    let raw := str_take (Z.to_nat (bp_size p + 1)) raw in
    if negb (len_of raw =? bp_size p) || negb (String.eqb (sha256 raw) (bp_sha256 p)) then None
    else Some raw.

(** How [BlobPartStore.put] ends: a part, a refusal of the arguments
    (ValueError), or PayloadUnavailable. *)
Inductive put_part_end : Type :=
| Stored (p : BlobPart)
| BadPart
| PartUnavailable.

Definition put_part (upload_id : string) (index : Z) (data : string) (s : St) : St * put_part_end :=
  if (index <? 0) || (len_of data =? 0) || (PART_BYTES <? len_of data) then (s, BadPart)
  else
    let p := mkPart upload_id index (sha256 data) (len_of data) in
    let '(s, uploaded) := cl_put c bucket (part_key p) data s in
    if negb uploaded then (s, PartUnavailable)
    else
      match read_part p s with
      | Some raw => if String.eqb raw data then (s, Stored p) else (s, PartUnavailable)
      | None => (s, PartUnavailable)
      end.
End parts.
