(* ===== verification/ObjectProps.v ===== *)
(** * What a payload store promises

    A value put is the value read back, one reader never takes the other's
    references, and a bundle's members are read through one cache as they would
    be alone. *)

From S2P Require Import Prelude PyStr Sql Json Objects.
From Stdlib Require Import Ascii.

Local Open Scope Z_scope.

(** ** Definitions *)

(** A client whose uploads succeed and whose reads return what was uploaded. *)
Definition honest {St} (c : client St) : Prop :=
  ∀ b k raw s, ∃ s', cl_put c b k raw s = (s', true) ∧ cl_get c b k s' = Some raw.

(** What was readable still reads the same. *)
Definition grown {St} (c : client St) (s s' : St) : Prop :=
  ∀ b k x, cl_get c b k s = Some x → cl_get c b k s' = Some x.

(** An upload changes no object that can be read: a key names its content. *)
Definition keeps {St} (c : client St) : Prop :=
  ∀ b k raw s, grown c s (fst (cl_put c b k raw s)).

(** Every entry is what the store holds under its key. *)
Definition coherent {St} (c : client St) (sha256 : string → string) (bucket : string) (s : St)
    (cache : bundle_cache) : Prop :=
  ∀ sha size m, cache !! (bundle_key sha, size) = Some m →
    _read c sha256 bucket bucket (bundle_key sha) size sha s = Some (JObj m).

Definition ref_ok (r : PayloadRef) : bool :=
  negb (String.eqb (rf_bucket r) "") && is_digest (rf_sha256 r) && (0 <=? rf_size r) &&
  (rf_version r =? 2) && String.eqb (rf_key r) (payload_key (rf_sha256 r)).

Definition member_ok (r : BundleMemberRef) : bool :=
  negb (String.eqb (bm_bucket r) "") && is_digest (bm_sha256 r) && (0 <=? bm_size r) &&
  (bm_version r =? 3) && String.eqb (bm_key r) (bundle_key (bm_sha256 r)) &&
  negb (String.eqb (bm_member r) "") && is_digest (bm_member_sha256 r) && (0 <=? bm_member_size r).

(** An in-memory store that writes a key once, and a digest of 64 digits. *)
Definition demo_client : client (gmap (string * string) string) :=
  mkClient
    (λ b k raw s, (match s !! (b, k) with Some _ => s | None => <[(b, k) := raw]> s end, true))
    (λ b k s, s !! (b, k)).

Definition demo_store : client (gmap (string * string) string) :=
  mkClient (λ b k raw s, (<[(b, k) := raw]> s, true)) (λ b k s, s !! (b, k)).

Definition demo_digest (x : string) : string :=
  let n := Nat.min (String.length x) 64 in
  of_chars (replicate n "1"%char ++ replicate (64 - n) "0"%char).

Definition demo_value : json := JObj [("size", JInt 3); ("id", JStr "a")]%string.

Definition demo_members : list (string * json) := [("a", JStr "x"); ("b", demo_value)]%string.

(** ** Lemmas: text *)

Lemma length_chars s : length (chars s) = String.length s.
Proof. unfold chars. induction s as [|c s IH]; simpl; [done|]. by rewrite IH. Qed.

Lemma chars_inj a b : chars a = chars b → a = b.
Proof. intros H. rewrite <- (of_chars_chars a), H. apply of_chars_chars. Qed.

Lemma str_take_all s n : (String.length s ≤ n)%nat → str_take n s = s.
Proof.
  intros H. unfold str_take. rewrite take_ge; [apply of_chars_chars|]. by rewrite length_chars.
Qed.

Lemma append_inj_r a b q : (a ++ q)%string = (b ++ q)%string → a = b.
Proof.
  intros H. apply (f_equal chars) in H. rewrite !chars_append in H.
  by apply chars_inj, (app_inv_tail (chars q)).
Qed.

Lemma bundle_key_inj a b : bundle_key a = bundle_key b → a = b.
Proof. unfold bundle_key. intros H%(inj _). by apply append_inj_r in H. Qed.

(** ** Lemmas: references *)

Lemma parse_ref_dict r : parse_ref (ref_dict r) = if ref_ok r then Some r else None.
Proof.
  destruct r as [b k sha sz v]. unfold ref_ok. cbn -[payload_key is_digest].
  rewrite Z.ltb_antisym.
  by destruct (String.eqb b ""), (is_digest sha), (0 <=? sz), (v =? 2), (String.eqb k _).
Qed.

Lemma parse_member_dict r : parse_member (member_dict r) = if member_ok r then Some r else None.
Proof.
  destruct r as [b k sha sz m msha msz v]. unfold member_ok. cbn -[bundle_key is_digest].
  rewrite !Z.ltb_antisym.
  by destruct (String.eqb b ""), (is_digest sha), (0 <=? sz), (v =? 3), (String.eqb k _),
    (String.eqb m ""), (is_digest msha), (0 <=? msz).
Qed.

Lemma parse_ref_ok v r : parse_ref v = Some r → ref_ok r = true.
Proof.
  unfold parse_ref. intros H. repeat case_match; simplify_eq. unfold ref_ok. simpl.
  repeat match goal with E : (_ || _)%bool = false |- _ => apply orb_false_iff in E as [E ?] end.
  breflect. subst. repeat match goal with E : _ = _ :> bool |- _ => rewrite E end.
  rewrite !andb_true_r. by apply Z.leb_le.
Qed.

(** ** Lemmas: reading *)

Section reading.
Context {St : Type} (c : client St) (sha256 : string → string) (bucket : string).
Context (Hdigest : ∀ x, is_digest (sha256 x) = true) (Hbucket : bucket ≠ ""%string).

Lemma len_of_nonneg s : 0 ≤ len_of s.
Proof. unfold len_of. lia. Qed.

(** An object that holds the encoding of a value reads as the value. *)
Lemma read_encoded key v s :
  json_ok v → cl_get c bucket key s = Some (encode_payload v) →
  _read c sha256 bucket bucket key (len_of (encode_payload v)) (sha256 (encode_payload v)) s
    = Some (sort_keys v).
Proof.
  intros Hok Hget. unfold _read. rewrite String.eqb_refl, Hget. cbn [negb mbind option_bind].
  rewrite str_take_all by (unfold len_of; lia). rewrite Z.eqb_refl, String.eqb_refl.
  by apply loads_dumps.
Qed.

Lemma read_grown b key size sha s s' v :
  grown c s s' → _read c sha256 bucket b key size sha s = Some v →
  _read c sha256 bucket b key size sha s' = Some v.
Proof.
  intros Hg. unfold _read. destruct (negb _); [done|].
  destruct (cl_get c b key s) as [raw|] eqn:E; [|done]. by rewrite (Hg _ _ _ E).
Qed.

Lemma ref_for_ok v : ref_ok (ref_for sha256 bucket v) = true.
Proof.
  unfold ref_ok, ref_for. simpl. rewrite Hdigest, String.eqb_refl.
  rewrite (proj2 (String.eqb_neq _ _) Hbucket). simpl. rewrite !andb_true_r.
  by apply Z.leb_le, len_of_nonneg.
Qed.

Lemma get_ref_for v s :
  get_payload c sha256 bucket (ref_for sha256 bucket v) s =
  _read c sha256 bucket bucket (payload_key (sha256 (encode_payload v))) (len_of (encode_payload v))
    (sha256 (encode_payload v)) s.
Proof. unfold get_payload. by rewrite parse_ref_dict, ref_for_ok. Qed.

(** ** Lemmas: bundles *)

Lemma bundle_coherent sha size cache s cache' m :
  coherent c sha256 bucket s cache →
  _bundle c sha256 bucket bucket sha size cache s = Some (cache', m) →
  _read c sha256 bucket bucket (bundle_key sha) size sha s = Some (JObj m) ∧
  coherent c sha256 bucket s cache'.
Proof.
  intros Hcoh. unfold _bundle. destruct (cache !! _) as [m'|] eqn:E.
  - intros [= <- <-]. split; [by apply Hcoh|done].
  - destruct (_read _ _ _ _ _ _ _ _) as [v|] eqn:Er; [|done]. simpl. destruct v; try done.
    intros [= <- <-]. split; [done|]. intros sha' size' m'.
    destruct (decide ((bundle_key sha, size) = (bundle_key sha', size'))) as [Heq|Hne].
    + rewrite <- Heq, lookup_insert_eq. intros [= <-].
      pose proof (f_equal fst Heq) as Hk. pose proof (f_equal snd Heq) as Hs. cbn [fst snd] in Hk, Hs.
      by apply bundle_key_inj in Hk as <-; subst size'.
    + rewrite lookup_insert_ne by done. apply Hcoh.
Qed.

(** The other way: what the store holds is what a bundle read gives, cached or not. *)
Lemma bundle_read sha size cache s m :
  coherent c sha256 bucket s cache →
  _read c sha256 bucket bucket (bundle_key sha) size sha s = Some (JObj m) →
  ∃ cache', _bundle c sha256 bucket bucket sha size cache s = Some (cache', m) ∧
    coherent c sha256 bucket s cache'.
Proof.
  intros Hcoh Hread. destruct (_bundle c sha256 bucket bucket sha size cache s) as [[cache' m']|] eqn:E.
  - destruct (bundle_coherent _ _ _ _ _ _ Hcoh E) as [Hread' Hcoh'].
    rewrite Hread in Hread'. simplify_eq. by exists cache'.
  - exfalso. unfold _bundle in E. destruct (cache !! _) as [m'|] eqn:Em; [done|].
    by rewrite Hread in E.
Qed.

Lemma coherent_empty s : coherent c sha256 bucket s ∅.
Proof. intros sha size m. by rewrite lookup_empty. Qed.

(** What [get_digest_member] reads, without the cache. *)
Definition digest_member (bundle_sha : string) (size : Z) (member_sha : string) (s : St) : option json :=
  snd <$> get_digest_member c sha256 bucket bundle_sha size member_sha ∅ s.

Lemma digest_member_spec bundle_sha size member_sha s v :
  digest_member bundle_sha size member_sha s = Some v ↔
  is_digest bundle_sha = true ∧ is_digest member_sha = true ∧ 0 ≤ size ∧
  ∃ m, _read c sha256 bucket bucket (bundle_key bundle_sha) size bundle_sha s = Some (JObj m) ∧
    alist_get member_sha m = Some v ∧ sha256 (encode_payload v) = member_sha.
Proof.
  unfold digest_member, get_digest_member.
  destruct (is_digest bundle_sha), (is_digest member_sha); simpl; try (split; [done|by intros (?&?&_)]).
  destruct (Z.ltb_spec size 0) as [Hs|Hs]; [split; [done|intros (_ & _ & ? & _); lia]|].
  destruct (_bundle c sha256 bucket bucket bundle_sha size ∅ s) as [[cache m]|] eqn:E; cbn.
  - destruct (bundle_coherent _ _ _ _ _ _ (coherent_empty s) E) as [Hr _].
    destruct (alist_get member_sha m) as [w|] eqn:Ew; cbn.
    + destruct (String.eqb_spec (sha256 (encode_payload w)) member_sha) as [Hd|Hd]; cbn; split.
      * intros [= ->]. split_and!; [done..|]. by exists m.
      * intros (_ & _ & _ & m' & Hr' & Hw & _). rewrite Hr in Hr'. by simplify_eq.
      * done.
      * intros (_ & _ & _ & m' & Hr' & Hw & Hd'). rewrite Hr in Hr'. by simplify_eq.
    + split; [done|]. intros (_ & _ & _ & m' & Hr' & Hw & _). rewrite Hr in Hr'. by simplify_eq.
  - split; [done|]. intros (_ & _ & _ & m & Hr & _).
    destruct (bundle_read _ _ _ _ _ (coherent_empty s) Hr) as (? & E' & _). by rewrite E in E'.
Qed.

(** A coherent cache changes no answer. *)
Lemma digest_member_cached bundle_sha size member_sha cache s :
  coherent c sha256 bucket s cache →
  match get_digest_member c sha256 bucket bundle_sha size member_sha cache s with
  | Some (cache', v) =>
      digest_member bundle_sha size member_sha s = Some v ∧ coherent c sha256 bucket s cache'
  | None => digest_member bundle_sha size member_sha s = None
  end.
Proof.
  intros Hcoh. pose proof (digest_member_spec bundle_sha size member_sha s) as Hspec.
  unfold get_digest_member.
  destruct (is_digest bundle_sha) eqn:E1, (is_digest member_sha) eqn:E2; simpl;
    try (destruct (digest_member _ _ _ _) as [v|]; [by destruct (proj1 (Hspec v) eq_refl) as (?&?&_)|done]).
  destruct (Z.ltb_spec size 0) as [Hs|Hs].
  { destruct (digest_member _ _ _ _) as [v|]; [|done].
    destruct (proj1 (Hspec v) eq_refl) as (_ & _ & ? & _). lia. }
  destruct (_bundle c sha256 bucket bucket bundle_sha size cache s) as [[cache' m]|] eqn:E; cbn.
  - destruct (bundle_coherent _ _ _ _ _ _ Hcoh E) as [Hr Hcoh'].
    destruct (alist_get member_sha m) as [w|] eqn:Ew; cbn.
    + destruct (String.eqb_spec (sha256 (encode_payload w)) member_sha) as [Hd|Hd]; cbn.
      * split; [|done]. apply Hspec. split_and!; [done..|]. by exists m.
      * destruct (digest_member _ _ _ _) as [v|]; [|done].
        destruct (proj1 (Hspec v) eq_refl) as (_ & _ & _ & m' & Hr' & Hw & Hd').
        rewrite Hr in Hr'. by simplify_eq.
    + destruct (digest_member _ _ _ _) as [v|]; [|done].
      destruct (proj1 (Hspec v) eq_refl) as (_ & _ & _ & m' & Hr' & Hw & Hd').
      rewrite Hr in Hr'. by simplify_eq.
  - destruct (digest_member _ _ _ _) as [v|]; [|done].
    destruct (proj1 (Hspec v) eq_refl) as (_ & _ & _ & m' & Hr' & _).
    destruct (bundle_read _ _ _ _ _ Hcoh Hr') as (? & E' & _). by rewrite E in E'.
Qed.

Lemma digest_member_grown bundle_sha size member_sha s s' v :
  grown c s s' → digest_member bundle_sha size member_sha s = Some v →
  digest_member bundle_sha size member_sha s' = Some v.
Proof.
  intros Hg. rewrite !digest_member_spec. intros (? & ? & ? & m & Hr & ?).
  split_and!; [done..|]. exists m. split; [by apply (read_grown _ _ _ _ s)|done].
Qed.

Lemma member_for_bundle all p cache s :
  get_bundle c sha256 bucket (member_for sha256 bucket all p) cache s =
  if String.eqb p.1 "" then None
  else _bundle c sha256 bucket bucket (sha256 (encode_payload (JObj all)))
         (len_of (encode_payload (JObj all))) cache s.
Proof.
  unfold get_bundle. rewrite parse_member_dict. unfold member_ok, member_for. cbn -[bundle_key].
  rewrite !Hdigest, String.eqb_refl, (proj2 (String.eqb_neq _ _) Hbucket). cbn.
  rewrite !(proj2 (Z.leb_le 0 _)) by apply len_of_nonneg. cbn. by destruct (String.eqb p.1 "").
Qed.

(** What reading a bundle back has checked of a member. *)
Definition member_held (all : list (string * json)) (s : St) (p : string * json) : Prop :=
  ∃ m v, _read c sha256 bucket bucket (bundle_key (sha256 (encode_payload (JObj all))))
           (len_of (encode_payload (JObj all))) (sha256 (encode_payload (JObj all))) s = Some (JObj m) ∧
    alist_get p.1 m = Some v ∧ py_eq v p.2 = true ∧
    sha256 (encode_payload v) = sha256 (encode_payload p.2).

Lemma read_back_held all l cache s :
  coherent c sha256 bucket s cache → read_back c sha256 bucket all l cache s = true →
  Forall (member_held all s) l.
Proof.
  revert cache. induction l as [|p l IH]; intros cache Hcoh; [done|]. cbn [read_back].
  unfold get_member. rewrite member_for_bundle. destruct (String.eqb p.1 ""); [done|].
  destruct (_bundle _ _ _ _ _ _ _ _) as [[cache' m]|] eqn:Eb; [|done]. cbn [mbind option_bind].
  destruct (alist_get _ m) as [v|] eqn:Ev; [|done]. cbn [mbind option_bind].
  destruct (negb (_ =? _)); [done|]. cbn [orb].
  destruct (String.eqb_spec (sha256 (encode_payload v))
    (bm_member_sha256 (member_for sha256 bucket all p))) as [Hd|Hd]; [|done].
  cbn [negb]. destruct (py_eq v p.2) eqn:Epy; [|done]. cbn [andb]. intros Hl.
  destruct (bundle_coherent _ _ _ _ _ _ Hcoh Eb) as [Hr Hcoh'].
  constructor; [|by apply (IH cache')]. by exists m, v.
Qed.

Lemma put_bundle_held members s s' refs :
  put_bundle c sha256 bucket members s = (s', Some refs) →
  Forall (member_held members s') members ∧
  refs = map (λ p, (p.1, member_for sha256 bucket members p)) members.
Proof.
  unfold put_bundle. destruct (_ || _); [done|].
  destruct (cl_put _ _ _ _ _) as [s1 [|]]; [|done]. cbn [andb].
  destruct (read_back _ _ _ _ _ _ _) eqn:E; [|done]. intros [= <- <-]. split; [|done].
  by apply (read_back_held members members ∅), E; apply coherent_empty.
Qed.

Lemma alist_get_unique {A} (l : list (string * A)) k v :
  NoDup l.*1 → alist_get k l = Some v ↔ (k, v) ∈ l.
Proof.
  induction l as [|[k' v'] l IH]; csimpl.
  - split; [done|by intros ?%elem_of_nil].
  - intros [Hk Hnd]%NoDup_cons. destruct (String.eqb_spec k' k) as [->|Hne].
    + split; [intros [= ->]; by left|]. intros [[= ->]|Hin]%elem_of_cons; [done|].
      destruct Hk. apply list_elem_of_fmap. by exists (k, v).
    + rewrite IH by done. split; [by right|]. intros [[= -> ->]|?]%elem_of_cons; done.
Qed.

Lemma sort_keys_get members k v :
  NoDup members.*1 → (k, v) ∈ members →
  ∃ m, sort_keys (JObj members) = JObj m ∧ alist_get k m = Some (sort_keys v).
Proof.
  intros Hnd Hin. eexists. split; [done|]. cbn [sort_keys]. apply alist_get_unique.
  - rewrite merge_sort_Permutation. by rewrite map_second_keys.
  - rewrite merge_sort_Permutation. apply list_elem_of_fmap. by exists (k, v).
Qed.

Lemma named_member (members : list (string * json)) p :
  existsb (λ p, String.eqb p.1 "") members = false → p ∈ members → String.eqb p.1 "" = false.
Proof.
  intros Hn Hp. destruct (String.eqb p.1 "") eqn:E; [|done]. rewrite <- Hn. symmetry.
  apply existsb_exists. exists p. by split; [apply list_elem_of_In|].
Qed.

(** Members uploaded to an honest client are all held. *)
Lemma put_bundle_honest members s :
  honest c → members ≠ [] → existsb (λ p, String.eqb p.1 "") members = false →
  json_ok (JObj members) →
  ∃ s', put_bundle c sha256 bucket members s =
    (s', Some (map (λ p, (p.1, member_for sha256 bucket members p)) members)) ∧
    _read c sha256 bucket bucket (bundle_key (sha256 (encode_payload (JObj members))))
      (len_of (encode_payload (JObj members))) (sha256 (encode_payload (JObj members))) s'
      = Some (sort_keys (JObj members)).
Proof.
  intros Hh Hne Hnames Hok. unfold put_bundle. rewrite bool_decide_eq_false_2, Hnames by done. cbn [orb].
  destruct (Hh bucket (bundle_key (sha256 (encode_payload (JObj members)))) (encode_payload (JObj members)) s)
    as (s' & -> & Hget). cbn [andb].
  pose proof (read_encoded _ _ _ Hok Hget) as Hr. pose proof Hr as Hr0.
  assert (∀ l cache, coherent c sha256 bucket s' cache → (∀ p, p ∈ l → p ∈ members) →
    read_back c sha256 bucket members l cache s' = true) as Hback.
  { induction l as [|p l IH]; intros cache Hcoh Hsub; [done|]. cbn [read_back].
    unfold get_member. rewrite member_for_bundle.
    assert (p ∈ members) as Hp by by apply Hsub; left.
    rewrite (named_member members p) by done.
    inversion Hok as [| | | | |? Hnd Hall]; subst.
    destruct (sort_keys_get members p.1 p.2 Hnd) as (m & Hm & Hv); [by destruct p|].
    rewrite Hm in Hr. destruct (bundle_read _ _ cache _ _ Hcoh Hr) as (cache' & -> & Hcoh').
    cbn [mbind option_bind]. cbn [bm_member member_for]. rewrite Hv. cbn [mbind option_bind].
    rewrite Forall_forall in Hall. pose proof (Hall p Hp) as Hpok.
    unfold encode_payload at 1 2. rewrite dumps_sort_keys by done.
    cbn [bm_member_size bm_member_sha256 member_for]. unfold encode_payload.
    rewrite Z.eqb_refl, String.eqb_refl. cbn [negb orb].
    unfold py_eq. rewrite bool_decide_eq_true_2 by (by apply eq_form_sort_keys). cbn [andb].
    apply IH; [done|]. intros q Hq. apply Hsub. by right. }
  exists s'. by rewrite (Hback members ∅ (coherent_empty s')).
Qed.
End reading.

Lemma parse_member_ok v r : parse_member v = Some r → member_ok r = true.
Proof.
  unfold parse_member. intros H. destruct v as [| | | | |d]; try done. repeat case_match; simplify_eq.
  unfold member_ok. simpl.
  repeat match goal with E : (_ || _)%bool = false |- _ => apply orb_false_iff in E as [E ?] end.
  breflect. subst. repeat match goal with E : _ = _ :> bool |- _ => rewrite E end.
  rewrite !(proj2 (Z.leb_le 0 _)) by done. done.
Qed.

Lemma alist_get_only {A} names k (v : A) (l : list (string * A)) :
  alist_get k l = Some v → forallb (λ p, mem p.1 names) l = true → mem k names = true.
Proof.
  induction l as [|[k' v'] l IH]; [done|]. simpl. intros Hg [Hm Hl]%andb_true_iff.
  destruct (String.eqb_spec k' k) as [->|]; [done|by apply IH].
Qed.

(** Only a bundle's reference names a member. *)
Lemma kinds_apart v r m : parse_ref v = Some r → parse_member v = Some m → False.
Proof.
  unfold parse_ref, parse_member. destruct v as [| | | | |d]; try done. intros H1 H2.
  destruct (only_keys ["bucket"; "key"; "sha256"; "size"; "version"]%string d) eqn:Ek; [|done].
  destruct (alist_get "member" d) as [w|] eqn:Em.
  - pose proof (alist_get_only _ _ _ _ Em Ek) as Hm. by vm_compute in Hm.
  - destruct (negb _); [done|]. repeat (case_match; try done).
Qed.

(** ** Properties *)

(** C33: a value put is the value read back. With a client that stores what it is
    given, [put_verified] succeeds and [get] then returns the value, its keys in
    order; with any client at all, a reference it returned keeps reading as an
    equal value for as long as the object stays. *)
Theorem payload_roundtrip sha256 bucket v :
  (∀ x, is_digest (sha256 x) = true) → bucket ≠ ""%string → json_ok v →
  (∀ St (c : client St) s, honest c →
     ∃ s' r, put_verified c sha256 bucket v s = (s', Some r) ∧
       get_payload c sha256 bucket r s' = Some (sort_keys v) ∧ py_eq (sort_keys v) v = true) ∧
  (∀ St (c : client St) s s' r, put_verified c sha256 bucket v s = (s', Some r) →
     ∃ v', py_eq v' v = true ∧
       ∀ s'', grown c s' s'' → get_payload c sha256 bucket r s'' = Some v').
Proof.
  intros Hdig Hbucket Hok. split.
  - intros St c s Hh. unfold put_verified.
    destruct (Hh bucket (rf_key (ref_for sha256 bucket v)) (encode_payload v) s) as (s' & -> & Hget).
    assert (get_payload c sha256 bucket (ref_for sha256 bucket v) s' = Some (sort_keys v)) as Hr.
    { rewrite get_ref_for by done. by apply read_encoded. }
    cbn [negb]. rewrite Hr.
    assert (py_eq (sort_keys v) v = true) as He
      by (unfold py_eq; rewrite bool_decide_eq_true_2; [done|by apply eq_form_sort_keys]).
    rewrite He. eauto.
  - intros St c s s' r. unfold put_verified. destruct (cl_put _ _ _ _ _) as [s1 [|]]; [|done].
    cbn [negb]. destruct (get_payload _ _ _ _ s1) as [v'|] eqn:Eg; [|done].
    destruct (py_eq v' v) eqn:Ee; [|done]. intros [= <- <-]. exists v'. split; [done|].
    intros s'' Hg. rewrite get_ref_for in * by done. by apply (read_grown _ _ _ _ _ _ _ s1).
Qed.

Lemma demo_digest_ok x : is_digest (demo_digest x) = true.
Proof.
  unfold is_digest, demo_digest, len_of. set (n := Nat.min _ 64).
  assert (n ≤ 64)%nat as Hn by (unfold n; lia).
  rewrite <- length_chars, chars_of_chars, length_app, !length_replicate.
  replace (Z.of_nat (n + (64 - n)) =? 64) with true by (symmetry; apply Z.eqb_eq; lia).
  apply forallb_forall. intros c Hc%list_elem_of_In.
  by apply elem_of_app in Hc as [[-> _]%elem_of_replicate|[-> _]%elem_of_replicate].
Qed.

Lemma demo_value_ok : json_ok demo_value.
Proof. constructor; [by apply (bool_decide_unpack _); vm_compute|]. repeat constructor. Qed.

Lemma payload_roundtrip_witness :
  ∃ s' r, put_verified demo_store demo_digest "b" demo_value ∅ = (s', Some r) ∧
    get_payload demo_store demo_digest "b" r s' = Some (sort_keys demo_value) ∧
    py_eq (sort_keys demo_value) demo_value = true.
Proof.
  apply (payload_roundtrip demo_digest "b" demo_value demo_digest_ok); [done|apply demo_value_ok|].
  - intros b k raw s. exists (<[(b, k) := raw]> s). split; [done|]. simpl. apply lookup_insert_eq.
Defined.

(** the two kinds of reference are read apart. What either parser accepts it
    accepts again unchanged from the reference's own columns, and neither accepts
    what the other does, so a reader of whole payloads never takes a bundle for
    one. *)
Theorem reference_kinds :
  (∀ v r, parse_ref v = Some r →
     parse_ref (ref_dict r) = Some r ∧ rf_key r = payload_key (rf_sha256 r) ∧
     parse_member v = None ∧ parse_member (ref_dict r) = None) ∧
  (∀ v r, parse_member v = Some r →
     parse_member (member_dict r) = Some r ∧ bm_key r = bundle_key (bm_sha256 r) ∧
     parse_ref v = None ∧ parse_ref (member_dict r) = None).
Proof.
  split; intros v r H.
  - pose proof (parse_ref_ok _ _ H) as Hok.
    assert (parse_ref (ref_dict r) = Some r) as Hself by by rewrite parse_ref_dict, Hok.
    unfold ref_ok in Hok. breflect. split_and!; [done|by apply String.eqb_eq| |].
    + destruct (parse_member v) eqn:E; [|done]. by destruct (kinds_apart _ _ _ H E).
    + destruct (parse_member (ref_dict r)) eqn:E; [|done]. by destruct (kinds_apart _ _ _ Hself E).
  - pose proof (parse_member_ok _ _ H) as Hok.
    assert (parse_member (member_dict r) = Some r) as Hself by by rewrite parse_member_dict, Hok.
    unfold member_ok in Hok. breflect. split_and!; [done|by apply String.eqb_eq| |].
    + destruct (parse_ref v) eqn:E; [|done]. by destruct (kinds_apart _ _ _ E H).
    + destruct (parse_ref (member_dict r)) eqn:E; [|done]. by destruct (kinds_apart _ _ _ E Hself).
Qed.

(** a bundle's members are the values it was made of. An honest client stores
    it, and then each member reads back through its own reference, alone or
    through a cache other reads have filled; a reader that names the member by
    its digest gets the same value. *)
Theorem bundle_roundtrip {St} (c : client St) sha256 bucket members s :
  honest c → (∀ x, is_digest (sha256 x) = true) → bucket ≠ ""%string →
  members ≠ [] → existsb (λ p, String.eqb p.1 "") members = false → json_ok (JObj members) →
  ∃ s' refs, put_bundle c sha256 bucket members s = (s', Some refs) ∧
    ∀ name v, (name, v) ∈ members → ∃ r, (name, r) ∈ refs ∧
      ∀ s'' cache, grown c s' s'' → coherent c sha256 bucket s'' cache →
        snd <$> get_member c sha256 bucket r cache s'' = Some (sort_keys v) ∧
        (sha256 (encode_payload v) = name →
           snd <$> get_digest_member c sha256 bucket (bm_sha256 r) (bm_size r) name cache s''
             = Some (sort_keys v)).
Proof.
  intros Hh Hdig Hbucket Hne Hnames Hok.
  destruct (put_bundle_honest c sha256 bucket Hdig Hbucket members s Hh Hne Hnames Hok)
    as (s' & Hput & Hread).
  exists s', (map (λ p, (p.1, member_for sha256 bucket members p)) members). split; [done|].
  intros name v Hin. exists (member_for sha256 bucket members (name, v)).
  split; [apply list_elem_of_fmap; by exists (name, v)|]. intros s'' cache Hg Hcoh.
  inversion Hok as [| | | | |? Hnd Hall]; subst. rewrite Forall_forall in Hall.
  pose proof (Hall _ Hin) as Hvok. simpl in Hvok.
  destruct (sort_keys_get members name v Hnd Hin) as (m & Hm & Hv).
  rewrite Hm in Hread. apply (read_grown _ _ _ _ _ _ _ _ _ _ Hg) in Hread.
  destruct (bundle_read _ _ _ _ _ cache _ _ Hcoh Hread) as (cache' & Hb & _).
  assert (sha256 (encode_payload (sort_keys v)) = sha256 (encode_payload v)) as Hsame
    by (unfold encode_payload; by rewrite dumps_sort_keys).
  split.
  - unfold get_member. rewrite member_for_bundle by done.
    rewrite (named_member members) by done. rewrite Hb. cbn [mbind option_bind].
    cbn [bm_member member_for fst]. rewrite Hv. cbn [mbind option_bind bm_member_size bm_member_sha256 member_for snd].
    rewrite Hsame. unfold encode_payload. by rewrite dumps_sort_keys, Z.eqb_refl, String.eqb_refl.
  - intros Hname. unfold get_digest_member. cbn [bm_sha256 bm_size member_for].
    rewrite <- Hname at 1. rewrite !Hdig. cbn [negb orb].
    rewrite (proj2 (Z.ltb_ge _ 0)) by apply len_of_nonneg. rewrite Hb. cbn [mbind option_bind].
    rewrite Hv. cbn [mbind option_bind]. by rewrite Hsame, Hname, String.eqb_refl.
Qed.

Lemma bundle_roundtrip_witness :
  ∃ s' refs, put_bundle demo_store demo_digest "b" demo_members ∅ = (s', Some refs) ∧
    ∀ name v, (name, v) ∈ demo_members → ∃ r, (name, r) ∈ refs ∧
      ∀ s'' cache, grown demo_store s' s'' → coherent demo_store demo_digest "b" s'' cache →
        snd <$> get_member demo_store demo_digest "b" r cache s'' = Some (sort_keys v) ∧
        (demo_digest (encode_payload v) = name →
           snd <$> get_digest_member demo_store demo_digest "b" (bm_sha256 r) (bm_size r) name cache s''
             = Some (sort_keys v)).
Proof.
  apply (bundle_roundtrip demo_store demo_digest "b" demo_members ∅);
    [|apply demo_digest_ok|done|done|done|].
  - intros b k raw s. exists (<[(b, k) := raw]> s). split; [done|]. simpl. apply lookup_insert_eq.
  - constructor; [by apply (bool_decide_unpack _); vm_compute|].
    constructor; [constructor|constructor; [apply demo_value_ok|constructor]].
Defined.
