(* ===== verification/Tasks.v ===== *)
(** * The tasks table

    [api.orm.platform.Task] as a record, the world the queue's statements act on,
    and the claim that proves a run still holds its row
    ([tasks.runtime.lifecycle.TaskClaim], [claim_guard]). Instants are integers
    on one clock; the current time is an argument of each operation. *)

From S2P Require Import Prelude Sql.

(** ** Rows *)

Inductive status : Type :=
| Pending
| Waiting
| Running
| AwaitingBatch
| Done
| Failed
| Cancelled.

#[export] Instance status_eq_dec : EqDecision status.
Proof. solve_decision. Defined.

Record task : Type := mkTask {
  t_kind : string;
  t_payload : jobject;
  t_dedupe_key : option string;
  t_parent_id : option Z;
  t_status : status;
  t_attempts : Z;
  t_batch_resumes : Z;
  t_worker : option string;
  t_last_heartbeat : option Z;
  t_progress : option jobject;
  t_not_before : option Z;
  t_progress_at : option Z;
  t_error : option string;
  t_created_at : Z;
  t_started_at : option Z;
  t_finished_at : option Z;
}.

#[export] Instance task_eq_dec : EqDecision task.
Proof. solve_decision. Defined.

(** One assignment of a SET list each. *)
Definition put_payload (v : jobject) (r : task) : task :=
  mkTask (t_kind r) v (t_dedupe_key r) (t_parent_id r) (t_status r) (t_attempts r)
    (t_batch_resumes r) (t_worker r) (t_last_heartbeat r) (t_progress r) (t_not_before
    r) (t_progress_at r) (t_error r) (t_created_at r) (t_started_at r) (t_finished_at r).

Definition put_status (v : status) (r : task) : task :=
  mkTask (t_kind r) (t_payload r) (t_dedupe_key r) (t_parent_id r) v (t_attempts r)
    (t_batch_resumes r) (t_worker r) (t_last_heartbeat r) (t_progress r) (t_not_before
    r) (t_progress_at r) (t_error r) (t_created_at r) (t_started_at r) (t_finished_at r).

Definition put_attempts (v : Z) (r : task) : task :=
  mkTask (t_kind r) (t_payload r) (t_dedupe_key r) (t_parent_id r) (t_status r) v
    (t_batch_resumes r) (t_worker r) (t_last_heartbeat r) (t_progress r) (t_not_before
    r) (t_progress_at r) (t_error r) (t_created_at r) (t_started_at r) (t_finished_at r).

Definition put_batch_resumes (v : Z) (r : task) : task :=
  mkTask (t_kind r) (t_payload r) (t_dedupe_key r) (t_parent_id r) (t_status r)
    (t_attempts r) v (t_worker r) (t_last_heartbeat r) (t_progress r) (t_not_before r)
    (t_progress_at r) (t_error r) (t_created_at r) (t_started_at r) (t_finished_at r).

Definition put_worker (v : option string) (r : task) : task :=
  mkTask (t_kind r) (t_payload r) (t_dedupe_key r) (t_parent_id r) (t_status r)
    (t_attempts r) (t_batch_resumes r) v (t_last_heartbeat r) (t_progress r)
    (t_not_before r) (t_progress_at r) (t_error r) (t_created_at r) (t_started_at r)
    (t_finished_at r).

Definition put_last_heartbeat (v : option Z) (r : task) : task :=
  mkTask (t_kind r) (t_payload r) (t_dedupe_key r) (t_parent_id r) (t_status r)
    (t_attempts r) (t_batch_resumes r) (t_worker r) v (t_progress r) (t_not_before r)
    (t_progress_at r) (t_error r) (t_created_at r) (t_started_at r) (t_finished_at r).

Definition put_progress (v : option jobject) (r : task) : task :=
  mkTask (t_kind r) (t_payload r) (t_dedupe_key r) (t_parent_id r) (t_status r)
    (t_attempts r) (t_batch_resumes r) (t_worker r) (t_last_heartbeat r) v (t_not_before
    r) (t_progress_at r) (t_error r) (t_created_at r) (t_started_at r) (t_finished_at r).

Definition put_not_before (v : option Z) (r : task) : task :=
  mkTask (t_kind r) (t_payload r) (t_dedupe_key r) (t_parent_id r) (t_status r)
    (t_attempts r) (t_batch_resumes r) (t_worker r) (t_last_heartbeat r) (t_progress r)
    v (t_progress_at r) (t_error r) (t_created_at r) (t_started_at r) (t_finished_at r).

Definition put_progress_at (v : option Z) (r : task) : task :=
  mkTask (t_kind r) (t_payload r) (t_dedupe_key r) (t_parent_id r) (t_status r)
    (t_attempts r) (t_batch_resumes r) (t_worker r) (t_last_heartbeat r) (t_progress r)
    (t_not_before r) v (t_error r) (t_created_at r) (t_started_at r) (t_finished_at r).

Definition put_error (v : option string) (r : task) : task :=
  mkTask (t_kind r) (t_payload r) (t_dedupe_key r) (t_parent_id r) (t_status r)
    (t_attempts r) (t_batch_resumes r) (t_worker r) (t_last_heartbeat r) (t_progress r)
    (t_not_before r) (t_progress_at r) v (t_created_at r) (t_started_at r)
    (t_finished_at r).

Definition put_started_at (v : option Z) (r : task) : task :=
  mkTask (t_kind r) (t_payload r) (t_dedupe_key r) (t_parent_id r) (t_status r)
    (t_attempts r) (t_batch_resumes r) (t_worker r) (t_last_heartbeat r) (t_progress r)
    (t_not_before r) (t_progress_at r) (t_error r) (t_created_at r) v (t_finished_at r).

Definition put_finished_at (v : option Z) (r : task) : task :=
  mkTask (t_kind r) (t_payload r) (t_dedupe_key r) (t_parent_id r) (t_status r)
    (t_attempts r) (t_batch_resumes r) (t_worker r) (t_last_heartbeat r) (t_progress r)
    (t_not_before r) (t_progress_at r) (t_error r) (t_created_at r) (t_started_at r) v.

(** ** The world: the table, its identity sequence, and what was announced

    [outbox] lists, newest first, the calls the queue makes on components this
    library does not model: the event published for a task and the two board
    sweeps a finished parent starts. *)
Inductive effect : Type :=
| PublishTask (id : Z)
| DemoteClosed
| MaterializePassing (user_id : json).

Record world : Type := mkWorld {
  tasks : gmap Z task;
  next_id : Z;
  outbox : list effect;
}.

Definition set_tasks (m : gmap Z task) (w : world) : world := mkWorld m (next_id w) (outbox w).

Definition emit (e : effect) (w : world) : world := mkWorld (tasks w) (next_id w) (e :: outbox w).

Definition publish_task (id : Z) (w : world) : world := emit (PublishTask id) w.

(** [db.execute("UPDATE tasks SET ... WHERE ...")]. *)
Definition exec_update (P : Z → task → bool) (f : task → task) (w : world) : world :=
  set_tasks (update_where P f (tasks w)) w.

(** ** Claims *)

Record TaskClaim : Type := mkClaim {
  c_task_id : Z;
  c_worker : string;
  c_attempts : Z;
}.

#[export] Instance claim_eq_dec : EqDecision TaskClaim.
Proof. solve_decision. Defined.

(** [worker = c.worker AND attempts = c.attempts]. *)
Definition stamp_matches (c : TaskClaim) (r : task) : bool :=
  bool_decide (t_worker r = Some (c_worker c)) && (t_attempts r =? c_attempts c).

(** The SQL tail that restricts a lifecycle write to the worker that still owns
    the task; empty (always true) outside the worker loop and for any task other
    than the claimed one. *)
Definition claim_guard (current : option TaskClaim) (task_id : Z) (r : task) : bool :=
  match current with
  | None => true
  | Some c => if c_task_id c =? task_id then stamp_matches c r else true
  end.

Definition is_status (s : status) (r : task) : bool := bool_decide (t_status r = s).

Definition status_in (l : list status) (r : task) : bool := bool_decide (t_status r ∈ l).

(** ** Admission's status lists ([api.task_admission]) *)

Definition ACTIVE_STATUSES : list status := [Pending; Running; AwaitingBatch; Waiting].
Definition TASK_STATUSES : list status :=
  [Pending; Waiting; Running; AwaitingBatch; Done; Failed; Cancelled].

(** ** Lemmas *)

Lemma exec_update_lookup P f w i :
  tasks (exec_update P f w) !! i = (λ r, if P i r then f r else r) <$> tasks w !! i.
Proof. apply lookup_update_where. Qed.

Lemma stamp_matches_true c r :
  stamp_matches c r = true ↔ t_worker r = Some (c_worker c) ∧ t_attempts r = c_attempts c.
Proof.
  unfold stamp_matches. rewrite andb_true_iff, bool_decide_eq_true, Z.eqb_eq. done.
Qed.

Lemma claim_guard_own c r : claim_guard (Some c) (c_task_id c) r = stamp_matches c r.
Proof. simpl. by rewrite Z.eqb_refl. Qed.

Lemma is_status_true s r : is_status s r = true ↔ t_status r = s.
Proof. apply bool_decide_eq_true. Qed.

#[export] Hint Rewrite exec_update_lookup claim_guard_own : js.
