(* ===== verification/Lifecycle.v ===== *)
(** * A task's life ([tasks.runtime.lifecycle])

    The guarded writes that end a task, report its progress or park it, and the
    parent that its chunks finalize. [cur] is the claim of the run executing the
    call ([_current_claim]); [now] is the database clock. *)

From S2P Require Import Prelude Sql Tasks.

Definition CHUNK_KINDS : list string :=
  ["run_filter_chunk"; "reverify_chunk"; "run_filter_batch_chunk"]%string.

(** ** Ending a task *)

Definition finished_row (now : Z) (st : status) (err : option string) (r : task) : task :=
  put_payload (if bool_decide (st = Done) then delete "batch_ids"%string (t_payload r)
               else t_payload r)
    (put_finished_at (Some now) (put_error err (put_status st r))).

Definition finish (cur : option TaskClaim) (now tid : Z) (st : status) (err : option string)
    (w : world) : world :=
  publish_task tid
    (exec_update
       (λ i r, (i =? tid) && is_status Running r && claim_guard cur tid r)
       (finished_row now st err) w).

Definition MARKER : string := "payload_recovery".

Definition MARKER_VALUE : json := JObj [("reason"%string, JStr "payload_unavailable")].

Definition unavailable_row (now : Z) (err : string) (r : task) : task :=
  put_payload (jsonb_concat (t_payload r) {[ MARKER := MARKER_VALUE ]})
    (put_attempts (Z.max (t_attempts r - 1) 0)
       (put_finished_at (Some now) (put_error (Some err) (put_status Failed r)))).

Definition fail_unavailable_payload (cur : option TaskClaim) (now tid : Z) (err : string)
    (w : world) : world :=
  publish_task tid
    (exec_update
       (λ i r, (i =? tid) && is_status Running r && claim_guard cur tid r)
       (unavailable_row now err) w).

(** ** Cancellation checks *)

Definition cancelled (tid : Z) (w : world) : bool :=
  match tasks w !! tid with
  | None => true
  | Some r => negb (is_status Running r)
  end.

Definition parent_cancelled (pid : Z) (w : world) : bool :=
  match tasks w !! pid with
  | None => true
  | Some r => is_status Cancelled r
  end.

(** ** Progress *)

(** [COALESCE(SUM((progress->>'done')::int), 0)] over the parent's chunks. *)
Definition progress_done (r : task) : option Z :=
  match t_progress r with
  | Some p => obj_int p "done"
  | None => None
  end.

Definition is_chunk_of (pid : Z) (r : task) : bool :=
  mem (t_kind r) CHUNK_KINDS && bool_decide (t_parent_id r = Some pid).

Definition chunks_done (pid : Z) (m : gmap Z task) : Z :=
  list_sum_Z
    (omap (λ i, match m !! i with Some r => progress_done r | None => None end)
       (ids_where (λ _ r, is_chunk_of pid r) m)).

Definition progressed_row (now pid : Z) (m : gmap Z task) (r : task) : task :=
  put_last_heartbeat (Some now)
    (put_progress
       (Some (<["done"%string := JInt (chunks_done pid m)]> (default ∅ (t_progress r)))) r).

Definition update_parent_progress (now pid : Z) (w : world) : world :=
  publish_task pid
    (exec_update (λ i r, (i =? pid) && is_status Waiting r) (progressed_row now pid (tasks w)) w).

(** The shared statement of [set_progress] and [checkpoint]; the answer is its
    row count. [progress_at] moves only when the value differs. *)
Definition write_progress_where (cur : option TaskClaim) (tid : Z) (running_only : bool)
    (i : Z) (r : task) : bool :=
  (i =? tid) && (if running_only then is_status Running r else true) && claim_guard cur tid r.

Definition _write_progress (cur : option TaskClaim) (now tid : Z) (progress : jobject)
    (running_only : bool) (payload : option jobject) (w : world) : world * nat :=
  let P := write_progress_where cur tid running_only in
  let merge (r : task) :=
    match payload with
    | Some p => if bool_decide (p = ∅) then t_payload r else jsonb_concat (t_payload r) p
    | None => t_payload r
    end in
  (exec_update P
     (λ r,
        put_payload (merge r)
          (put_progress_at
             (if bool_decide (t_progress r = Some progress) then t_progress_at r else Some now)
             (put_last_heartbeat (Some now) (put_progress (Some progress) r))))
     w,
   count_where P (tasks w)).

(** [{"done": done, "total": total, "label": label, **(extra or {})}]. *)
Definition progress_value (done total : Z) (label : string) (extra : jobject) : jobject :=
  extra ∪ {[ "done"%string := JInt done; "total"%string := JInt total;
             "label"%string := JStr label ]}.

Definition set_progress (cur : option TaskClaim) (now tid done total : Z) (label : string)
    (extra : jobject) (w : world) : world :=
  publish_task tid
    (fst (_write_progress cur now tid (progress_value done total label extra) false None w)).

Definition checkpoint (cur : option TaskClaim) (now tid done total : Z) (label : string)
    (extra : jobject) (payload : option jobject) (w : world) : world * bool :=
  let '(w', n) :=
    _write_progress cur now tid (progress_value done total label extra) true payload w in
  (w', bool_decide (n = 1%nat)).

Definition park_waiting (cur : option TaskClaim) (tid total : Z) (label : string) (w : world)
    : world :=
  publish_task tid
    (exec_update
       (λ i r, (i =? tid) && is_status Running r && claim_guard cur tid r)
       (λ r,
          put_progress (Some (progress_value 0 total label ∅)) (put_status Waiting r))
       w).

(** ** The parent *)

Definition live_chunk (pid : Z) (r : task) : bool :=
  is_chunk_of pid r && status_in [Pending; Running; AwaitingBatch] r.

Definition failed_chunk (pid : Z) (r : task) : bool := is_chunk_of pid r && is_status Failed r.

Definition chunks_failed_error (n : nat) : string :=
  (pretty.pretty (Z.of_nat n) ++ " chunk(s) failed")%string.

(** What [maybe_finalize_parent] starts once the parent has ended. *)
Definition after_finalize (parent : task) (w : world) : world :=
  if String.eqb (t_kind parent) "reverify_open" then emit DemoteClosed w
  else match t_payload parent !! "user_id"%string with
       | Some u => if truthy u then emit (MaterializePassing u) w else w
       | None => w
       end.

Definition ended_row (now : Z) (n : nat) (r : task) : task :=
  put_finished_at (Some now)
    (put_error (if (n =? 0)%nat then None else Some (chunks_failed_error n))
       (put_status (if (n =? 0)%nat then Done else Failed) r)).

Definition maybe_finalize_parent (now pid : Z) (w : world) : world :=
  let w := update_parent_progress now pid w in
  match tasks w !! pid with
  | None => w
  | Some parent =>
      if negb (is_status Waiting parent) then w
      else if negb (count_where (λ _ r, live_chunk pid r) (tasks w) =? 0)%nat then w
      else
        let n := count_where (λ _ r, failed_chunk pid r) (tasks w) in
        let w := exec_update (λ i r, (i =? pid) && is_status Waiting r) (ended_row now n) w in
        publish_task pid (after_finalize parent w)
  end.

Definition orphan_chunk (m : gmap Z task) (r : task) : bool :=
  mem (t_kind r) CHUNK_KINDS && is_status Pending r &&
  match t_parent_id r with
  | Some p => match m !! p with Some q => is_status Cancelled q | None => false end
  | None => false
  end.

Definition childless_waiting (m : gmap Z task) (i : Z) (r : task) : bool :=
  is_status Waiting r && negb (exists_where (λ _ c, live_chunk i c) m).

Definition reconcile_chunks (now : Z) (w : world) : world :=
  let w := exec_update (λ _ r, orphan_chunk (tasks w) r)
    (λ r, put_finished_at (Some now)
            (put_error (Some "parent cancelled"%string) (put_status Cancelled r))) w in
  foldl (λ w pid, maybe_finalize_parent now pid w) w
    (ids_where (childless_waiting (tasks w)) (tasks w)).

(** ** Lemmas: what finalizing a parent leaves alone *)

(** A row change that neither starts nor ends a live chunk and never makes a row
    wait. *)
Definition calm (r r' : task) : Prop :=
  (∀ p, live_chunk p r' = live_chunk p r) ∧ (t_status r' = Waiting → t_status r = Waiting).

Definition calm_world (w w' : world) : Prop :=
  ∀ i, option_Forall2 calm (tasks w !! i) (tasks w' !! i).

Definition childless (i : Z) (w : world) : Prop :=
  ∀ j c, tasks w !! j = Some c → live_chunk i c = false.

#[export] Instance calm_preorder : PreOrder calm.
Proof.
  split; [by split|]. intros r1 r2 r3 [A1 B1] [A2 B2]. split; [|by auto].
  intros p. by rewrite A2.
Qed.

#[export] Instance calm_world_preorder : PreOrder calm_world.
Proof.
  split.
  - intros w i. destruct (tasks w !! i); by constructor.
  - intros w1 w2 w3 H1 H2 i. specialize (H1 i). specialize (H2 i).
    inversion H1 as [r1 r2 H12 E1 E2|E1 E2]; rewrite <- E2 in H2; inversion H2; subst; constructor.
    by etrans.
Qed.

Lemma calm_exec P f w :
  (∀ i r, P i r = true → calm r (f r)) → calm_world w (exec_update P f w).
Proof.
  intros H i. rewrite exec_update_lookup. destruct (tasks w !! i) as [r|]; constructor.
  destruct (P i r) eqn:E; [by eapply H|done].
Qed.

Lemma calm_same_tasks w w' : tasks w' = tasks w → calm_world w w'.
Proof. intros H i. rewrite H. destruct (tasks w !! i); by constructor. Qed.

Lemma calm_childless w w' i : calm_world w w' → childless i w' ↔ childless i w.
Proof.
  intros H. split; intros Hc j c Hj; specialize (H j); rewrite Hj in H; inversion H as [? ? [Hl _]|];
    subst; [rewrite <- Hl|rewrite Hl]; by eapply Hc.
Qed.

Lemma calm_update_progress now pid w : calm_world w (update_parent_progress now pid w).
Proof. apply (calm_exec _ _ w). by intros. Qed.

(** A waiting row that ends was no live chunk and is none afterwards. *)
Lemma calm_end r r' :
  t_status r = Waiting → t_status r' = Done ∨ t_status r' = Failed → calm r r'.
Proof.
  intros Hs Hs'. split; [|by intros _].
  intros p. unfold live_chunk, status_in. rewrite Hs.
  destruct Hs' as [->| ->]; by rewrite !andb_false_r.
Qed.

Lemma after_finalize_tasks p w : tasks (after_finalize p w) = tasks w.
Proof.
  unfold after_finalize. destruct (String.eqb _ _); [done|].
  destruct (_ !! _); [|done]. by destruct (truthy _).
Qed.

Lemma finalize_calm now pid w : calm_world w (maybe_finalize_parent now pid w).
Proof.
  unfold maybe_finalize_parent. etrans; [apply (calm_update_progress now pid)|].
  set (w1 := update_parent_progress _ _ _). destruct (tasks w1 !! pid) as [p|]; [|done].
  destruct (negb (is_status Waiting p)); [done|]. destruct (negb _); [done|].
  etrans; [|apply calm_same_tasks; simpl; apply after_finalize_tasks].
  apply calm_exec. intros i r H. breflect. apply is_status_true in H0.
  apply calm_end; [done|]. simpl. destruct (_ =? 0)%nat; auto.
Qed.

(** Progress writes change no column the chunk predicates read. *)
Lemma count_progressed P now pid w :
  (∀ i m r, P i (progressed_row now pid m r) = P i r) →
  count_where P (tasks (update_parent_progress now pid w)) = count_where P (tasks w).
Proof.
  intros HP. unfold count_where. apply Permutation_length.
  apply NoDup_Permutation; [apply NoDup_ids_where..|].
  intros j. rewrite !elem_of_ids_where. simpl. setoid_rewrite lookup_update_where. split.
  - intros (c & (c0 & Hj & ->)%fmap_Some & Hf). exists c0. split; [done|].
    revert Hf. destruct (_ && _); [by rewrite HP|done].
  - intros (c & Hj & Hf). rewrite Hj. eexists; split; [done|].
    destruct (_ && _); [by rewrite HP|done].
Qed.

(** The row of a waiting parent after one call. *)
Lemma finalize_row now pid w p :
  tasks w !! pid = Some p → t_status p = Waiting →
  tasks (maybe_finalize_parent now pid w) !! pid =
  Some (let p1 := progressed_row now pid (tasks w) p in
        if (count_where (λ _ c, live_chunk pid c) (tasks w) =? 0)%nat
        then ended_row now (count_where (λ _ c, failed_chunk pid c) (tasks w)) p1 else p1).
Proof.
  intros Hp Hs. unfold maybe_finalize_parent. cbv zeta. rewrite !count_progressed by done.
  set (w1 := update_parent_progress _ _ _). set (p1 := progressed_row now pid (tasks w) p).
  assert (tasks w1 !! pid = Some p1) as Hp1.
  { simpl. rewrite lookup_update_where, Hp. simpl.
    by rewrite Z.eqb_refl, (proj2 (is_status_true Waiting p) Hs). }
  assert (is_status Waiting p1 = true) as Hs1 by (by apply is_status_true).
  clearbody w1. rewrite Hp1, Hs1. simpl negb. cbv iota.
  destruct (count_where _ _ =? 0)%nat; [|done]. simpl. rewrite after_finalize_tasks. simpl.
  by rewrite lookup_update_where, Hp1; simpl; rewrite Z.eqb_refl, Hs1.
Qed.

(** A parent with no live chunk is ended by one call. *)
Lemma finalize_ends now pid w r :
  tasks w !! pid = Some r → t_status r = Waiting → childless pid w →
  ∃ r', tasks (maybe_finalize_parent now pid w) !! pid = Some r' ∧ t_status r' ≠ Waiting.
Proof.
  intros Hr Hs Hc. rewrite (finalize_row now pid w r) by done.
  rewrite (proj2 (count_where_zero _ _)) by (intros j c Hj; by apply (Hc j)).
  eexists; split; [done|]. simpl. by destruct (_ =? 0)%nat.
Qed.

Lemma fold_finalize_calm now l w :
  calm_world w (foldl (λ w pid, maybe_finalize_parent now pid w) w l).
Proof.
  revert w. induction l as [|p l IH]; intros w; simpl; [done|].
  etrans; [apply finalize_calm|apply IH].
Qed.

Lemma fold_finalize_ends now l w i r' :
  i ∈ l → childless i w →
  tasks (foldl (λ w pid, maybe_finalize_parent now pid w) w l) !! i = Some r' →
  t_status r' ≠ Waiting.
Proof.
  revert w. induction l as [|p l IH]; intros w; [by intros ?%elem_of_nil|].
  intros [<-|Hi]%elem_of_cons Hc Hr'.
  - pose proof (fold_finalize_calm now l (maybe_finalize_parent now i w) i) as Hcalm.
    simpl in Hr'. rewrite Hr' in Hcalm. inversion Hcalm as [r0 ? [_ Hw] E|]; subst.
    intros Hs. specialize (Hw Hs). symmetry in E.
    pose proof (finalize_calm now i w i) as Hc0. rewrite E in Hc0.
    inversion Hc0 as [r1 ? [_ Hw1] E1|]; subst. specialize (Hw1 Hw). symmetry in E1.
    destruct (finalize_ends now i w r1 E1 Hw1 Hc) as (r2 & Hr2 & Hs2). simplify_eq.
  - apply (IH (maybe_finalize_parent now p w)); [done| |done].
    apply (calm_childless w); [apply finalize_calm|done].
Qed.
