(* ===== verification/Queue.v ===== *)
(** * The task queue's public writes and the pull back-off ([api.queue]) *)

From S2P Require Import Prelude Sql Tasks.

(** [(attempts - batch_resumes)]. *)
Definition RETRIES_SPENT (r : task) : Z := t_attempts r - t_batch_resumes r.

(** ** Writes *)

(** A row as the INSERT leaves it: the named columns, and the table's defaults. *)
Definition new_task (now : Z) (kind : string) (payload : jobject) (dedupe : option string)
    (parent : option Z) : task :=
  mkTask kind payload dedupe parent Pending 0 0 None None None None None None now None None.

(** [payload.get("parent_id")], a bigint column. *)
Definition payload_parent (payload : jobject) : option Z := obj_int payload "parent_id".

Definition dedupe_taken (key : option string) (m : gmap Z task) : bool :=
  match key with
  | None => false
  | Some k => exists_where (λ _ r, bool_decide (t_dedupe_key r = Some k)) m
  end.

(** [ON CONFLICT (dedupe_key) DO NOTHING]: a conflict consumes an identity value
    and writes no row. *)
Definition enqueue (now : Z) (kind : string) (payload : jobject) (dedupe : option string)
    (w : world) : world * option Z :=
  let i := next_id w in
  let w' := mkWorld (tasks w) (i + 1) (outbox w) in
  if dedupe_taken dedupe (tasks w) then (w', None)
  else
    (publish_task i
       (set_tasks (<[i := new_task now kind payload dedupe (payload_parent payload)]> (tasks w)) w'),
     Some i).

(** [payload - keys]. *)
Definition drop_keys (ks : list string) (p : jobject) : jobject := foldr delete p ks.

Definition merge_payload (tid : Z) (data : jobject) (drop : list string) (w : world) : world :=
  exec_update (λ i _, i =? tid)
    (λ r, put_payload (jsonb_concat (drop_keys drop (t_payload r)) data) r) w.

Definition opt_filter {A} (o : option A) (p : A → bool) : bool :=
  match o with
  | Some a => p a
  | None => true
  end.

Definition cancel_where (cancellable : list status) (ids : option (list Z)) (kind : option string)
    (st : option status) (source : option string) (i : Z) (r : task) : bool :=
  status_in cancellable r &&
  opt_filter ids (λ l, mem i l) &&
  opt_filter kind (λ k, String.eqb (t_kind r) k) &&
  opt_filter st (λ s, is_status s r) &&
  opt_filter source (λ s, bool_decide (obj_text (t_payload r) "source" = Some s)).

Definition cancel (now : Z) (cancellable : list status) (ids : option (list Z))
    (kind : option string) (st : option status) (source : option string) (w : world)
    : world * list Z :=
  let P := cancel_where cancellable ids kind st source in
  let hit := ids_where P (tasks w) in
  let w' := exec_update P
    (λ r, put_finished_at (Some now)
            (put_error (Some "cancelled by admin"%string) (put_status Cancelled r))) w in
  (foldl (λ w i, publish_task i w) w' hit, hit).

(** ** Runs of failed pulls *)

Record source : Type := mkSource {
  s_active : bool;
  s_ingest_interval_hours : Z;
  s_listings_url : string;
  s_company : option string;
  s_title_pattern : option string;
}.

Record failure_run : Type := mkFailureRun {
  fr_failures : Z;
  fr_last_failed : option Z;
  fr_last_error : option string;
}.

Definition INACTIVE_SOURCE_ERROR : string := "unknown or inactive source".

Definition pull_of (name : string) (r : task) : bool :=
  String.eqb (t_kind r) "ingest_source" &&
  bool_decide (obj_text (t_payload r) "source" = Some name).

(** The newest successful pull of the source, 0 when there is none. *)
Definition last_done (name : string) (m : gmap Z task) : Z :=
  match last (ids_where (λ _ r, pull_of name r && is_status Done r) m) with
  | Some i => i
  | None => 0
  end.

Definition failed_pull (name : string) (since : Z) (i : Z) (r : task) : bool :=
  pull_of name r && is_status Failed r &&
  negb (bool_decide (t_error r = Some INACTIVE_SOURCE_ERROR)) && (since <? i).

Definition _FAILURE_RUN (name : string) (m : gmap Z task) : failure_run :=
  let hit := ids_where (failed_pull name (last_done name m)) m in
  mkFailureRun (Z.of_nat (length hit))
    (foldr (λ i acc, match m !! i, acc with
                     | Some r, Some a => Some (Z.max (t_created_at r) a)
                     | Some r, None => Some (t_created_at r)
                     | None, _ => acc
                     end) None hit)
    (match last hit with
     | Some i => match m !! i with Some r => t_error r | None => None end
     | None => None
     end).

Definition failure_runs (names : option (list string)) (at_least : Z) (sources : gmap string source)
    (m : gmap Z task) : gmap string (source * failure_run) :=
  map_imap
    (λ n s,
       let run := _FAILURE_RUN n m in
       if opt_filter names (λ l, mem n l) && (at_least <=? fr_failures run)
       then Some (s, run) else None)
    sources.

(** ** Cadence *)

Definition HOUR : Z := 3600 * 1000000.
Definition DAY : Z := 24 * HOUR.

(** The wall-clock anchor for a wall-clock reading in [DAILY_PULL_ZONE], both in
    microseconds: conversion to and from instants is the time-zone database's. *)
Definition daily_pull_anchor (hour local : Z) : Z :=
  let anchor := local - local `mod` DAY + hour * HOUR in
  if local <? anchor then anchor - DAY else anchor.

(** For a run of at least one failure. *)
Definition pull_wait_hours (cap interval_hours failures : Z) : Z :=
  Z.max interval_hours (Z.min (interval_hours * 2 ^ (failures - 1)) cap).

Definition waits (give_up_after cap now : Z) (sr : source * failure_run) : bool :=
  (fr_failures sr.2 <? give_up_after) &&
  sql_lt
    (Some (now - pull_wait_hours cap (s_ingest_interval_hours sr.1) (fr_failures sr.2) * HOUR))
    (fr_last_failed sr.2).

Definition backing_off (give_up_after cap now : Z) (names : list string) (sources : gmap string source)
    (m : gmap Z task) : gset string :=
  match names with
  | [] => ∅
  | _ => dom (filter (λ kv, waits give_up_after cap now kv.2 = true)
                (failure_runs (Some names) 1 sources m))
  end.

(** ** Lemmas *)

Lemma retries_spent_eq r : RETRIES_SPENT r = t_attempts r - t_batch_resumes r.
Proof. done. Qed.

Lemma pull_wait_bounds cap interval failures :
  interval ≤ pull_wait_hours cap interval failures ∧
  (interval ≤ cap → pull_wait_hours cap interval failures ≤ cap).
Proof. unfold pull_wait_hours. lia. Qed.

Lemma pull_wait_mono cap interval f1 f2 :
  0 ≤ interval → 1 ≤ f1 → f1 ≤ f2 →
  pull_wait_hours cap interval f1 ≤ pull_wait_hours cap interval f2.
Proof.
  intros. unfold pull_wait_hours.
  assert (2 ^ (f1 - 1) ≤ 2 ^ (f2 - 1)) by (apply Z.pow_le_mono_r; lia).
  assert (interval * 2 ^ (f1 - 1) ≤ interval * 2 ^ (f2 - 1)) by nia. lia.
Qed.

Lemma anchor_window hour local :
  0 ≤ hour < 24 →
  daily_pull_anchor hour local ≤ local < daily_pull_anchor hour local + DAY ∧
  daily_pull_anchor hour local `mod` DAY = hour * HOUR.
Proof.
  intros Hh. unfold daily_pull_anchor.
  pose proof (Z.mod_pos_bound local DAY ltac:(reflexivity)).
  pose proof (Z.div_mod local DAY ltac:(discriminate)).
  assert (∀ q, (DAY * q + hour * HOUR) `mod` DAY = hour * HOUR) as Hmod.
  { intros q. rewrite Z.add_comm, (Z.mul_comm DAY q), Z.mod_add by discriminate.
    apply Z.mod_small. unfold DAY, HOUR in *. lia. }
  destruct (local <? _) eqn:E; breflect.
  - split; [unfold DAY, HOUR in *; lia|].
    replace (local - local `mod` DAY + hour * HOUR - DAY)
      with (DAY * (local `div` DAY - 1) + hour * HOUR) by lia. apply Hmod.
  - split; [unfold DAY, HOUR in *; lia|].
    replace (local - local `mod` DAY + hour * HOUR)
      with (DAY * (local `div` DAY) + hour * HOUR) by lia. apply Hmod.
Qed.
