(* ===== verification/Claims.v ===== *)
(** * Claiming tasks and recovering lost ones ([api.worker_lifecycle.claims],
    the exit path of [api.worker]) *)

From S2P Require Import Prelude Sql Tasks Queue.

(** ** What a worker may claim *)

(** The WHERE fragment, as the predicate it denotes on a row's kind. *)
Definition _kinds_clause (kinds exclude : list string) (kind : string) : bool :=
  (match kinds with [] => true | _ => mem kind kinds end) &&
  (match exclude with [] => true | _ => negb (mem kind exclude) end).

(** [host_budget]: the next slot of each host for each egress address. *)
Abbreviation host_budget := (gmap (string * string) Z).

Definition host_closed (budget : host_budget) (egress : string) (now : Z) (r : task) : bool :=
  match obj_text (t_payload r) "host" with
  | Some h => sql_lt (Some now) (budget !! (h, egress))
  | None => false
  end.

(** What one claim reads besides the tasks table. *)
Record claim_env : Type := mkEnv {
  e_known : list string;                (** kinds this image has a handler for *)
  e_kinds : list string;                (** JOBTRACKER_WORKER_KINDS *)
  e_exclude : list string;              (** JOBTRACKER_WORKER_EXCLUDE_KINDS *)
  e_egress : string;
  e_budget : host_budget;
  e_sources : gmap string source;
  e_locked : gset Z;                    (** rows another transaction holds: SKIP LOCKED *)
}.

Definition claimable (env : claim_env) (too_heavy : list string) (now : Z) (i : Z) (r : task)
    : bool :=
  is_status Pending r && mem (t_kind r) (e_known env) &&
  _kinds_clause (e_kinds env) (e_exclude env ++ too_heavy) (t_kind r) &&
  (match t_not_before r with None => true | Some t => t <=? now end) &&
  negb (host_closed (e_budget env) (e_egress env) now r) &&
  negb (bool_decide (i ∈ e_locked env)).

(** ** The order of claims *)

Definition pull_shift (sources : gmap string source) (r : task) : Z :=
  match t_payload r !! "host"%string with
  | None => 0
  | Some _ =>
      match obj_text (t_payload r) "source" with
      | Some n => match sources !! n with
                  | Some s => s_ingest_interval_hours s * HOUR
                  | None => 0
                  end
      | None => 0
      end
  end.

(** [created_at + shift, id], compared lexicographically. *)
Definition CLAIM_ORDER (sources : gmap string source) (ir : Z * task) : Z * Z :=
  (t_created_at ir.2 + pull_shift sources ir.2, ir.1).

Definition key_ltb (a b : Z * Z) : bool :=
  (a.1 <? b.1) || ((a.1 =? b.1) && (a.2 <? b.2)).

Definition claim_ltb (sources : gmap string source) (a b : Z * task) : bool :=
  key_ltb (CLAIM_ORDER sources a) (CLAIM_ORDER sources b).

Definition candidates (env : claim_env) (too_heavy : list string) (now : Z) (m : gmap Z task)
    : list (Z * task) :=
  filter (λ ir, claimable env too_heavy now ir.1 ir.2 = true) (map_to_list m).

Definition claimed_row (worker : string) (now : Z) (r : task) : task :=
  put_worker (Some worker)
    (put_attempts (t_attempts r + 1)
       (put_last_heartbeat (Some now) (put_started_at (Some now) (put_status Running r)))).

(** The claimed row as RETURNING gives it, with its id. *)
Definition claim_task (env : claim_env) (worker : string) (too_heavy : list string) (now : Z)
    (w : world) : world * option (Z * task) :=
  match min_by (claim_ltb (e_sources env)) (candidates env too_heavy now (tasks w)) with
  | None => (w, None)
  | Some (i, r) =>
      (exec_update (λ j _, j =? i) (claimed_row worker now) w, Some (i, claimed_row worker now r))
  end.

(** ** Recovery *)

Definition MINUTE : Z := 60 * 1000000.

Definition beat_before (limit : Z) (r : task) : bool :=
  sql_lt (coalesce (t_last_heartbeat r) (t_started_at r)) (Some limit).

Definition reap_requeue_where (attempts minutes now : Z) (_ : Z) (r : task) : bool :=
  is_status Running r && (RETRIES_SPENT r <? attempts) && beat_before (now - minutes * MINUTE) r.

Definition reap_fail_where (attempts minutes now : Z) (_ : Z) (r : task) : bool :=
  is_status Running r && (attempts <=? RETRIES_SPENT r) && beat_before (now - minutes * MINUTE) r.

Definition worker_lost_error (r : task) : string :=
  ("worker lost (heartbeat timeout after " ++ pretty.pretty (RETRIES_SPENT r) ++ " attempts)")%string.

Definition reap_requeue (attempts minutes now : Z) (w : world) : world :=
  exec_update (reap_requeue_where attempts minutes now)
    (λ r, put_last_heartbeat None (put_started_at None (put_status Pending r))) w.

Definition reap_fail (attempts minutes now : Z) (w : world) : world :=
  exec_update (reap_fail_where attempts minutes now)
    (λ r, put_error (Some (worker_lost_error r))
            (put_finished_at (Some now) (put_status Failed r))) w.

(** Two statements, each at its own time. *)
Definition reap_stale_tasks (attempts minutes now1 now2 : Z) (w : world) : world :=
  reap_fail attempts minutes now2 (reap_requeue attempts minutes now1 w).

(** [_REQUEUE_ON_EXIT_SQL] for one claim, and [_release_all] for every claim the
    exiting process holds. *)
Definition requeue_on_exit (c : TaskClaim) (w : world) : world :=
  exec_update
    (λ i r, (i =? c_task_id c) && is_status Running r && stamp_matches c r)
    (λ r, put_last_heartbeat None
            (put_started_at None
               (put_attempts (Z.max (t_attempts r - 1) 0) (put_status Pending r)))) w.

Definition _release_all (in_flight : list TaskClaim) (w : world) : world :=
  foldl (λ w c, requeue_on_exit c w) w in_flight.

(** ** Lemmas *)

Lemma key_ltb_lt a b : key_ltb a b = true ↔ a.1 < b.1 ∨ a.1 = b.1 ∧ a.2 < b.2.
Proof.
  unfold key_ltb. rewrite orb_true_iff, andb_true_iff, !Z.ltb_lt, Z.eqb_eq. done.
Qed.

Lemma key_ltb_false a b : key_ltb a b = false ↔ b.1 < a.1 ∨ a.1 = b.1 ∧ b.2 ≤ a.2.
Proof.
  rewrite <- not_true_iff_false, key_ltb_lt. lia.
Qed.

#[export] Instance claim_ltb_weak sources : StrictWeak (claim_ltb sources).
Proof.
  unfold claim_ltb. split; intros.
  - apply key_ltb_false. lia.
  - rewrite key_ltb_lt in *. lia.
  - rewrite key_ltb_false in *. lia.
Qed.

Lemma elem_of_candidates env h now m i r :
  (i, r) ∈ candidates env h now m ↔ m !! i = Some r ∧ claimable env h now i r = true.
Proof.
  unfold candidates. rewrite list_elem_of_filter, elem_of_map_to_list. simpl. tauto.
Qed.

(** What a claim returns, in both cases. *)
Lemma claim_task_None env worker h now w w' :
  claim_task env worker h now w = (w', None) →
  w' = w ∧ ∀ i r, tasks w !! i = Some r → claimable env h now i r = false.
Proof.
  unfold claim_task. destruct (min_by _ _) as [[i r]|] eqn:E; [done|]. intros [= <-].
  split; [done|]. intros i r Hi.
  destruct (claimable env h now i r) eqn:Hc; [|done].
  apply min_by_None in E. assert ((i, r) ∈ candidates env h now (tasks w)) as Hin
    by (by apply elem_of_candidates). rewrite E in Hin. by apply elem_of_nil in Hin.
Qed.

Lemma claim_task_Some env worker h now w w' i r' :
  claim_task env worker h now w = (w', Some (i, r')) →
  ∃ r, tasks w !! i = Some r ∧ claimable env h now i r = true ∧
    r' = claimed_row worker now r ∧
    w' = exec_update (λ j _, j =? i) (claimed_row worker now) w ∧
    ∀ j q, tasks w !! j = Some q → claimable env h now j q = true →
      key_ltb (CLAIM_ORDER (e_sources env) (j, q)) (CLAIM_ORDER (e_sources env) (i, r)) = false.
Proof.
  unfold claim_task. destruct (min_by _ _) as [[k r]|] eqn:E; [|done]. intros [= <- <- <-].
  pose proof (min_by_elem _ _ _ E) as [Hi Hc]%elem_of_candidates.
  exists r. split_and!; try done.
  intros j q Hj Hq. apply (min_by_le _ _ _ (j, q) E). by apply elem_of_candidates.
Qed.

Lemma claimable_pending env h now i r : claimable env h now i r = true → t_status r = Pending.
Proof. unfold claimable. intros H. breflect. by apply is_status_true. Qed.
