(* ===== verification/Parking.v ===== *)
(** * Parking a task on its provider batches ([tasks.runtime.batching])

    The payload's [batch_ids] are what a resumed run reattaches to: recording
    them, releasing the worker, resuming, and parking again on what is left. *)

From S2P Require Import Prelude Sql Tasks.

(** ** [payload->'batch_ids'] *)

(** A jsonb value as the left operand of an array concatenation. *)
Definition as_array (j : option json) : list json :=
  match j with
  | None => []
  | Some (JArr l) => l
  | Some x => [x]
  end.

(** [COALESCE(payload->'batch_ids', '[]') ? v]. *)
Definition json_has (j : option json) (v : string) : bool :=
  match j with
  | Some (JArr l) => mem (JStr v) l
  | Some (JStr s) => String.eqb s v
  | Some (JObj l) => mem v (l.*1)
  | _ => false
  end.

Definition record_ids (ids : list string) (p : jobject) : jobject :=
  let old := p !! "batch_ids"%string in
  <["batch_ids"%string :=
      JArr (as_array old ++ map JStr (filter (λ v, json_has old v = false) ids))]> p.

(** Recorded whoever holds the claim: an id that reaches no row is paid work
    nothing points at. *)
Definition _record_batch_ids (tid : Z) (batch_ids : list string) (w : world) : world :=
  exec_update (λ i _, i =? tid) (λ r, put_payload (record_ids batch_ids (t_payload r)) r) w.

Definition payload_batch_ids (p : jobject) : list string :=
  match p !! "batch_ids"%string with
  | Some j => json_strings j
  | None => []
  end.

Definition pending_batch_ids (tid : Z) (w : world) : list string :=
  match tasks w !! tid with
  | Some r => payload_batch_ids (t_payload r)
  | None => []
  end.

(** ** Park and resume *)

Definition park_where (cur : option TaskClaim) (tid : Z) (i : Z) (r : task) : bool :=
  (i =? tid) && is_status Running r && claim_guard cur tid r.

Definition parked_row (r : task) : task :=
  put_last_heartbeat None (put_started_at None (put_status AwaitingBatch r)).

Definition park_awaiting_batch (cur : option TaskClaim) (tid : Z) (batch_ids : list string)
    (w : world) : world * bool :=
  let w := _record_batch_ids tid batch_ids w in
  let parked := negb (count_where (park_where cur tid) (tasks w) =? 0)%nat in
  let w := exec_update (park_where cur tid) parked_row w in
  (if parked then publish_task tid w else w, parked).

Definition resume_parked (tid : Z) (w : world) : world :=
  publish_task tid
    (exec_update
       (λ i r, (i =? tid) && is_status AwaitingBatch r)
       (λ r, put_batch_resumes (t_batch_resumes r + 1)
               (put_last_heartbeat None (put_started_at None (put_status Pending r))))
       w).

Definition repark_if_unfinished (cur : option TaskClaim) (tid : Z) (w : world) : world * bool :=
  match pending_batch_ids tid w with
  | [] => (w, false)
  | remaining => park_awaiting_batch cur tid remaining w
  end.

(** [has_results] is the receipts table's answer for the task. *)
Definition has_batch_work (has_results : bool) (tid : Z) (w : world) : bool :=
  match tasks w !! tid with
  | Some r =>
      (match t_payload r !! "batch_ids"%string with Some j => truthy j | None => false end)
      || bool_decide (t_payload r !! "batch_collection_checkpointed"%string = Some (JBool true))
  | None => false
  end || has_results.

(** The ids column as the code leaves it: an array, or nothing. *)
Definition ids_array (r : task) : Prop :=
  match t_payload r !! "batch_ids"%string with
  | None | Some (JArr _) => True
  | Some _ => False
  end.

(** ** Lemmas *)

Lemma json_strings_app l1 l2 :
  json_strings (JArr (l1 ++ l2)) = json_strings (JArr l1) ++ json_strings (JArr l2).
Proof. apply omap_app. Qed.

Lemma json_strings_JStr l : json_strings (JArr (map JStr l)) = l.
Proof. induction l as [|x l IH]; [done|]. by apply (f_equal (cons x)) in IH. Qed.

Lemma elem_of_json_strings v l : v ∈ json_strings (JArr l) ↔ JStr v ∈ l.
Proof.
  simpl. rewrite list_elem_of_omap. split.
  - intros ([] & ? & ?); simplify_eq. done.
  - intros ?. by exists (JStr v).
Qed.

Lemma record_ids_lookup ids p :
  payload_batch_ids (record_ids ids p) =
  json_strings (JArr (as_array (p !! "batch_ids"%string))) ++
  filter (λ v, json_has (p !! "batch_ids"%string) v = false) ids.
Proof.
  unfold payload_batch_ids, record_ids. rewrite lookup_insert_eq, json_strings_app.
  by rewrite json_strings_JStr.
Qed.

Lemma as_array_strings p :
  payload_batch_ids p ⊆ json_strings (JArr (as_array (p !! "batch_ids"%string))).
Proof. unfold payload_batch_ids. destruct (p !! _) as [[]|]; set_solver. Qed.

(** Every recorded id is readable afterwards, and none is lost, as long as the
    column holds an array or nothing. *)
Lemma record_ids_elem ids p v :
  (∀ l, p !! "batch_ids"%string ≠ Some (JObj l)) →
  v ∈ payload_batch_ids (record_ids ids p) ↔
  v ∈ ids ∨ v ∈ json_strings (JArr (as_array (p !! "batch_ids"%string))).
Proof.
  intros Hobj. rewrite record_ids_lookup, elem_of_app, list_elem_of_filter.
  destruct (p !! "batch_ids"%string) as [j|] eqn:E; simpl; [|set_solver].
  destruct j; simpl; try set_solver.
  - rewrite elem_of_cons, elem_of_nil. destruct (String.eqb_spec s v); naive_solver.
  - change (omap _ l) with (json_strings (JArr l)). rewrite elem_of_json_strings.
    unfold mem. destruct (decide (JStr v ∈ l)).
    + rewrite bool_decide_eq_true_2 by done. naive_solver.
    + rewrite bool_decide_eq_false_2 by done. naive_solver.
Qed.

Lemma ids_array_iff ids r v :
  ids_array r →
  v ∈ payload_batch_ids (record_ids ids (t_payload r)) ↔
  v ∈ ids ∨ v ∈ payload_batch_ids (t_payload r).
Proof.
  unfold ids_array. intros Ha. rewrite record_ids_elem.
  - unfold payload_batch_ids. by destruct (t_payload r !! "batch_ids"%string) as [[]|].
  - intros l E. by rewrite E in Ha.
Qed.

Lemma ids_array_recorded ids r : ids_array (put_payload (record_ids ids (t_payload r)) r).
Proof. unfold ids_array, record_ids. simpl. by rewrite lookup_insert_eq. Qed.

Lemma record_lookup tid ids w r :
  tasks w !! tid = Some r →
  tasks (_record_batch_ids tid ids w) !! tid = Some (put_payload (record_ids ids (t_payload r)) r).
Proof.
  intros Hr. unfold _record_batch_ids. rewrite exec_update_lookup, Hr. simpl. by rewrite Z.eqb_refl.
Qed.
