(* ===== verification/Execution.v ===== *)
(** * Running a held task, settling its end, and recovering it
    ([api.worker_lifecycle.execution], [tasks.runtime.payload_recovery])

    The heartbeat of a run and what each way a handler can end writes; then the
    operator's [retry] of a task whose payload was unavailable, which reads the task,
    its parent and its paid evidence outside any transaction ([w0]), checks that the
    evidence can be read back, and commits only if nothing it read has changed ([w]).
    The requests and receipts are a type of evidence compared by equality, as the code
    compares their rows. *)

From S2P Require Import Prelude PyStr Sql Tasks Lifecycle Queue Claims Parking.



(** ** Exceptions a handler raises *)

(** The classes [execution] tells apart: the database exceptions of
    [_TRANSIENT_EXCEPTIONS] (and their subclasses), MemoryError, any other. *)
Inductive exn_class : Type :=
| DbTransient
| MemoryError
| OtherError.

Record exn : Type := mkExn {
  x_class : exn_class;
  x_text : string;                      (** [str(exc)] *)
}.

Definition _TRANSIENT_MARKERS : list string :=
  ["can't start new thread"; "cannot allocate memory"; "resource temporarily unavailable";
   "out of memory"; "no space left on device"]%string.

Definition marked (e : exn) : bool :=
  existsb (λ m, contains m (lower (x_text e))) _TRANSIENT_MARKERS.

Definition _exhausted (e : exn) : bool :=
  match x_class e with
  | MemoryError => true
  | _ => marked e
  end.

Definition _is_transient (e : exn) : bool :=
  match x_class e with
  | DbTransient => true
  | _ => marked e
  end.

(** How a handler ended. *)
Inductive outcome : Type :=
| Returned
| RaisedAIPaused (msg : string)
| RaisedAwaitingBatch
| RaisedDeferred (not_before : Z)
| RaisedPayloadUnavailable (msg : string)
| Raised (e : exn).

(** ** The claim's own writes *)

(** A live claim's WHERE clause: [id = %s AND status = 'running' AND worker = %s
    AND attempts = %s]. *)
Definition held_where (c : TaskClaim) (i : Z) (r : task) : bool :=
  (i =? c_task_id c) && is_status Running r && stamp_matches c r.

(** One beat of the liveness thread; [false] stops it. *)
Definition heartbeat (c : TaskClaim) (now : Z) (w : world) : world * bool :=
  (exec_update (held_where c) (put_last_heartbeat (Some now)) w,
   negb (count_where (held_where c) (tasks w) =? 0)%nat).

Definition defer (c : TaskClaim) (not_before : Z) (w : world) : world :=
  exec_update (held_where c)
    (λ r, put_not_before (Some not_before)
            (put_attempts (Z.max (t_attempts r - 1) 0)
               (put_worker None
                  (put_last_heartbeat None (put_started_at None (put_status Pending r))))))
    w.

Definition transient_error_text (e : exn) : string :=
  ("retrying after transient error: " ++ str_take 200 (x_text e))%string.

Definition requeue_transient (c : TaskClaim) (e : exn) (w : world) : world :=
  publish_task (c_task_id c)
    (exec_update (held_where c)
       (λ r, put_error (Some (transient_error_text e))
               (put_last_heartbeat None (put_started_at None (put_status Pending r))))
       w).

(** ** Settling a run

    [row] is the claimed row as the claim returned it; the claim's stamp is its
    id, worker and attempts. *)

Definition settle (now max_attempts : Z) (c : TaskClaim) (row : task) (o : outcome) (w : world)
    : world * bool :=
  let tid := c_task_id c in
  let cur := Some c in
  match o with
  | Returned =>
      let '(w, parked) := repark_if_unfinished cur tid w in
      (if parked then w else finish cur now tid Done None w, false)
  | RaisedAIPaused msg => (finish cur now tid Done (Some msg) w, false)
  | RaisedAwaitingBatch => (w, false)
  | RaisedDeferred nb => (defer c nb w, false)
  | RaisedPayloadUnavailable msg => (fail_unavailable_payload cur now tid msg w, false)
  | Raised e =>
      (if _is_transient e && (RETRIES_SPENT row <? max_attempts)
       then requeue_transient c e w
       else finish cur now tid Failed (Some (x_text e)) w,
       _exhausted e)
  end.

(** [task["payload"]["parent_id"]], whose absence is logged and swallowed. *)
Definition finalize_after (now : Z) (row : task) (w : world) : world :=
  if mem (t_kind row) CHUNK_KINDS then
    match obj_int (t_payload row) "parent_id" with
    | Some pid => maybe_finalize_parent now pid w
    | None => w
    end
  else w.

Definition run_held (now max_attempts : Z) (c : TaskClaim) (row : task)
    (handler : option (world → world * outcome)) (w : world) : world * bool :=
  let w := publish_task (c_task_id c) w in
  match handler with
  | None =>
      (finish (Some c) now (c_task_id c) Failed
         (Some ("unknown task kind: " ++ t_kind row)%string) w, false)
  | Some h =>
      let '(w, o) := h w in
      let '(w, exhausted) := settle now max_attempts c row o w in
      (finalize_after now row w, exhausted)
  end.

Inductive verdict : Type :=
| RConflict
| RUnavailable
| RPending.

(** [re.fullmatch(r"[1-9][0-9]* chunk\(s\) failed", error or "")]. *)
Definition chunks_failed_shape (error : option string) : bool :=
  match error with
  | None => false
  | Some s =>
      match chars s with
      | [] => false
      | c :: l =>
          is_digit c && negb (bool_decide ([c] = chars "0")) &&
          bool_decide (drop_while is_digit l = chars " chunk(s) failed")
      end
  end.

Definition _recoverable_parent (p : task) : bool :=
  is_status Waiting p || (is_status Failed p && chunks_failed_shape (t_error p)).

(** [source["parent_id"] or payload.get("parent_id")]. *)
Definition recovery_parent (r : task) : option Z :=
  match t_parent_id r with
  | Some 0 | None => obj_int (t_payload r) "parent_id"
  | Some p => Some p
  end.

Definition has_marker (r : task) : bool :=
  bool_decide (t_payload r !! MARKER = Some MARKER_VALUE).

(** The task and parent [retry] goes on with, or [None] for "conflict". *)
Definition recovery_source (w0 : world) (tid : Z) : option (task * option (Z * task)) :=
  match tasks w0 !! tid with
  | None => None
  | Some src =>
      if negb (is_status Failed src) || negb (has_marker src) then None
      else match recovery_parent src with
           | None => Some (src, None)
           | Some pid =>
               if negb (mem (t_kind src) CHUNK_KINDS) then None
               else match tasks w0 !! pid with
                    | Some p => if _recoverable_parent p then Some (src, Some (pid, p)) else None
                    | None => None
                    end
           end
  end.

Definition replayable (has_results : bool) (r : task) : bool :=
  (match t_payload r !! "batch_ids"%string with Some j => truthy j | None => false end) ||
  bool_decide (t_payload r !! "batch_collection_checkpointed"%string = Some (JBool true)) ||
  has_results.

Definition recovered_row (r : task) : task :=
  put_worker None
    (put_last_heartbeat None
       (put_started_at None
          (put_finished_at None
             (put_error None
                (put_payload (delete MARKER (t_payload r)) (put_status Pending r)))))).

Definition reopen_parent (p : option (Z * task)) (w : world) : world :=
  match p with
  | Some (pid, q) =>
      if is_status Failed q then
        exec_update (λ i _, i =? pid)
          (λ r, put_finished_at None (put_error None (put_status Waiting r))) w
      else w
  | None => w
  end.

Definition parent_unchanged (p : option (Z * task)) (w : world) : bool :=
  match p with
  | Some (pid, q) => bool_decide (tasks w !! pid = Some q)
  | None => true
  end.

Section retry.
Context {E : Type} `{EqDecision E}.

(** [evidence0] was read with [w0], [evidence] with [w]; [readable] says the
    object store gave every required payload back; [accepted] that a provider
    batch row names the task. *)
Definition retry (tid : Z) (w0 : world) (evidence0 : E) (readable : bool) (w : world)
    (evidence : E) (accepted has_results : bool) : world * verdict :=
  match recovery_source w0 tid with
  | None => (w, RConflict)
  | Some (src, parent) =>
      if negb readable then (w, RUnavailable)
      else if negb (parent_unchanged parent w) then (w, RConflict)
      else if negb (bool_decide (tasks w !! tid = Some src)) then (w, RConflict)
      else if negb (bool_decide (evidence = evidence0)) then (w, RConflict)
      else if accepted && negb (replayable has_results src) then (w, RConflict)
      else
        let w := reopen_parent parent w in
        let w := exec_update (λ i _, i =? tid) recovered_row w in
        let w := publish_task tid w in
        (match parent with Some (pid, _) => publish_task pid w | None => w end, RPending)
  end.
End retry.

(** ** Lemmas *)

Lemma recovery_source_spec w0 tid src parent :
  recovery_source w0 tid = Some (src, parent) →
  tasks w0 !! tid = Some src ∧ t_status src = Failed ∧ has_marker src = true ∧
  match parent with
  | None => recovery_parent src = None
  | Some (pid, p) =>
      recovery_parent src = Some pid ∧ t_kind src ∈ CHUNK_KINDS ∧
      tasks w0 !! pid = Some p ∧ _recoverable_parent p = true
  end.
Proof.
  unfold recovery_source. destruct (tasks w0 !! tid) as [r|] eqn:E; [|done].
  destruct (is_status Failed r) eqn:Es; [|done]. destruct (has_marker r) eqn:Em; [|done].
  simpl. apply is_status_true in Es.
  destruct (recovery_parent r) as [pid|] eqn:Ep; [|naive_solver].
  destruct (mem (t_kind r) CHUNK_KINDS) eqn:Ek; simpl; [|done].
  apply bool_decide_eq_true in Ek.
  destruct (tasks w0 !! pid) as [p|] eqn:Eq; [|done].
  destruct (_recoverable_parent p) eqn:Er; [|done]. naive_solver.
Qed.
