(* ===== verification/Machine.v ===== *)
(** * The abstract task machine

    What the queue promises about one row, without the SQL: the moves a row may
    make, each labelled by what it does to the claim's stamp ([Quiet] leaves it,
    [Claim] issues a new one, [Back] gives an attempt back), and the invariant
    every move keeps. [M] is [task_max_attempts]. *)

From S2P Require Import Prelude Sql Tasks Lifecycle Queue.

Inductive label : Type :=
| Quiet
| Claim
| Back.

Definition marker_in (r : task) : Prop := is_Some (t_payload r !! MARKER).

(** The columns no statement ever assigns. *)
Definition same_identity (r r' : task) : Prop :=
  t_kind r' = t_kind r ∧ t_dedupe_key r' = t_dedupe_key r ∧
  t_parent_id r' = t_parent_id r ∧ t_created_at r' = t_created_at r.

Definition same_counts (r r' : task) : Prop :=
  t_attempts r' = t_attempts r ∧ t_batch_resumes r' = t_batch_resumes r.

Definition given_back (r r' : task) : Prop :=
  t_attempts r' = Z.max (t_attempts r - 1) 0 ∧ t_batch_resumes r' = t_batch_resumes r.

(** A statement that never adds the recovery marker. *)
Definition marker_kept (r r' : task) : Prop := marker_in r' → marker_in r.

Inductive move_kind (M : Z) : label → task → task → Prop :=
| m_note r r' :
    t_status r' = t_status r → same_counts r r' → t_worker r' = t_worker r →
    marker_kept r r' → move_kind M Quiet r r'
| m_claim r r' :
    t_status r = Pending → t_status r' = Running → t_attempts r' = t_attempts r + 1 →
    t_batch_resumes r' = t_batch_resumes r → marker_kept r r' → move_kind M Claim r r'
| m_requeue r r' :
    t_status r = Running → t_status r' = Pending → same_counts r r' →
    RETRIES_SPENT r < M → marker_kept r r' → move_kind M Quiet r r'
| m_give_back r r' :
    t_status r = Running → t_status r' = Pending → given_back r r' →
    marker_kept r r' → move_kind M Back r r'
| m_park r r' :
    t_status r = Running → t_status r' = AwaitingBatch ∨ t_status r' = Waiting →
    same_counts r r' → marker_kept r r' → move_kind M Quiet r r'
| m_resume r r' :
    t_status r = AwaitingBatch → t_status r' = Pending → t_attempts r' = t_attempts r →
    t_batch_resumes r' = t_batch_resumes r + 1 → marker_kept r r' → move_kind M Quiet r r'
| m_end r r' :
    t_status r = Running ∨ t_status r = Waiting → t_status r' = Done ∨ t_status r' = Failed →
    same_counts r r' → marker_kept r r' → move_kind M Quiet r r'
| m_fail_back r r' :
    t_status r = Running → t_status r' = Failed → given_back r r' → move_kind M Back r r'
| m_cancel r r' :
    t_status r ∈ ACTIVE_STATUSES → t_status r' = Cancelled → same_counts r r' →
    marker_kept r r' → move_kind M Quiet r r'
| m_recover r r' :
    t_status r = Failed → marker_in r → t_status r' = Pending → same_counts r r' →
    ¬ marker_in r' → move_kind M Quiet r r'
| m_reopen r r' :
    t_status r = Failed → t_status r' = Waiting → same_counts r r' → marker_kept r r' →
    move_kind M Quiet r r'.

Definition move (M : Z) (l : label) (r r' : task) : Prop :=
  same_identity r r' ∧ move_kind M l r r'.

(** The edges of the status diagram those moves draw. *)
Definition status_edge (a b : status) : bool :=
  match a, b with
  | Pending, (Running | Cancelled) => true
  | Running, (Pending | AwaitingBatch | Waiting | Done | Failed | Cancelled) => true
  | AwaitingBatch, (Pending | Cancelled) => true
  | Waiting, (Done | Failed | Cancelled) => true
  | Failed, (Pending | Waiting) => true
  | _, _ => bool_decide (a = b)
  end.

Definition row_ok (M : Z) (r : task) : Prop :=
  0 ≤ t_batch_resumes r ≤ t_attempts r ∧
  (t_status r = Running ∨ t_status r = AwaitingBatch → t_batch_resumes r < t_attempts r) ∧
  RETRIES_SPENT r ≤ M ∧
  (t_status r = Pending → RETRIES_SPENT r < M) ∧
  (marker_in r → RETRIES_SPENT r < M ∧
     t_status r ∈ [Failed; Waiting; Done; Cancelled]).

(** What a move that issues no stamp does to any claim held on the row: it can
    only leave it or invalidate it. *)
Definition quiet (r r' : task) : Prop :=
  t_attempts r ≤ t_attempts r' ∧
  (t_status r' = Running →
     t_status r = Running ∧ t_attempts r' = t_attempts r ∧ t_worker r' = t_worker r ∧
     t_batch_resumes r' = t_batch_resumes r).

(** ** Worlds whose rows only make quiet moves *)

Definition quiet_world (M : Z) (w w' : world) : Prop :=
  next_id w' = next_id w ∧
  ∀ i, option_Forall2 (rtc (move M Quiet)) (tasks w !! i) (tasks w' !! i).

(** ** Lemmas *)

#[export] Instance same_identity_trans : Transitive same_identity.
Proof. unfold same_identity. intros r1 r2 r3. naive_solver congruence. Qed.

(** Case analysis on a move, with the statuses it fixes substituted. *)
Ltac move_cases Hm :=
  destruct Hm;
  unfold same_counts, given_back, RETRIES_SPENT, ACTIVE_STATUSES in *;
  repeat match goal with
  | H : _ ∈ _ :: _ |- _ => apply elem_of_cons in H
  | H : _ ∈ [] |- _ => by apply elem_of_nil in H
  | H : _ ∧ _ |- _ => destruct H
  | H : _ ∨ _ |- _ => destruct H
  end;
  repeat match goal with
  | H : t_status ?r = _, H' : context [t_status ?r] |- _ =>
      lazymatch H' with H => fail | _ => rewrite H in H' end
  | H : t_status ?r = _ |- context [t_status ?r] => rewrite H
  end.

Lemma move_status M l r r' : move M l r r' → status_edge (t_status r) (t_status r') = true.
Proof. intros [_ H]; move_cases H; try done. by destruct (t_status r). Qed.

(** The claim counters stay in range. *)
Lemma move_counts M l r r' :
  0 < M → row_ok M r → move M l r r' →
  0 ≤ t_batch_resumes r' ≤ t_attempts r' ∧
  (t_status r' = Running ∨ t_status r' = AwaitingBatch → t_batch_resumes r' < t_attempts r') ∧
  RETRIES_SPENT r' ≤ M ∧ (t_status r' = Pending → RETRIES_SPENT r' < M).
Proof.
  intros HM (H1 & H2 & H3 & H4 & H5) [_ Hm]. unfold RETRIES_SPENT in *.
  move_cases Hm;
    try (destruct H5 as [H5 _]; [done|]);
    try specialize (H4 eq_refl);
    try (specialize (H2 ltac:(auto)));
    split_and!; try lia; intros Hs;
    first [by destruct Hs|discriminate Hs|lia|apply H2 in Hs; lia|apply H4 in Hs; lia].
Qed.

(** The recovery marker is only ever on rows that no worker can claim. *)
Lemma move_marker M l r r' :
  row_ok M r → move M l r r' →
  marker_in r' → RETRIES_SPENT r' < M ∧ t_status r' ∈ [Failed; Waiting; Done; Cancelled].
Proof.
  intros (H1 & H2 & H3 & H4 & H5) [_ Hm] Hmk. unfold RETRIES_SPENT in *.
  assert (t_status r = Pending ∨ t_status r = Running ∨ t_status r = AwaitingBatch →
    ¬ marker_in r) as Hno.
  { intros Hs Hr. destruct (H5 Hr) as [_ Hin].
    rewrite !elem_of_cons, elem_of_nil in Hin. destruct_or!; congruence. }
  move_cases Hm;
    try (match goal with Hk : marker_kept _ _ |- _ => specialize (Hk Hmk) end);
    rewrite ?elem_of_cons, ?elem_of_nil in *;
    first [tauto|split; [lia|tauto]|destruct (H5 ltac:(assumption)); split; [lia|tauto]
      |specialize (H2 ltac:(auto)); split; [lia|tauto]].
Qed.

Lemma move_ok M l r r' : 0 < M → row_ok M r → move M l r r' → row_ok M r'.
Proof.
  intros HM Hok Hm. destruct (move_counts M l r r' HM Hok Hm) as (? & ? & ? & ?).
  pose proof (move_marker M l r r' Hok Hm). split_and!; tauto || lia.
Qed.

Lemma move_identity M l r r' : move M l r r' → same_identity r r'.
Proof. by intros []. Qed.

Lemma move_quiet M r r' : move M Quiet r r' → quiet r r'.
Proof.
  intros [_ Hm]. unfold quiet. remember Quiet as l eqn:El.
  move_cases Hm; try done; (split; [lia|intros; try done; split_and!; congruence]).
Qed.

#[export] Instance quiet_preorder : PreOrder quiet.
Proof.
  split; unfold quiet; [intros r; split_and!; naive_solver lia|].
  intros r1 r2 r3 [A1 B1] [A2 B2]. split; [lia|]. intros Hs.
  destruct (B2 Hs) as (Hs2 & ? & ? & ?). destruct (B1 Hs2) as (? & ? & ? & ?).
  split_and!; congruence.
Qed.

Lemma quiets M r r' : rtc (move M Quiet) r r' → quiet r r'.
Proof.
  induction 1 as [r|r1 r2 r3 H12 _ IH]; [done|].
  etrans; [by eapply move_quiet|done].
Qed.

Lemma moves_ok M l r r' : 0 < M → row_ok M r → rtc (move M l) r r' → row_ok M r'.
Proof. intros HM Hok H. induction H; [done|]. eauto using move_ok. Qed.

Lemma moves_identity M l r r' : rtc (move M l) r r' → same_identity r r'.
Proof.
  induction 1 as [r|r1 r2 r3 H12 _ IH]; [done|].
  etrans; [by eapply move_identity|done].
Qed.

(** *** Quiet worlds *)

#[export] Instance quiet_world_preorder M : PreOrder (quiet_world M).
Proof.
  split.
  - intros w. split; [done|]. intros i. destruct (tasks w !! i); constructor. done.
  - intros w1 w2 w3 [N1 H1] [N2 H2]. split; [congruence|]. intros i.
    specialize (H1 i). specialize (H2 i).
    inversion H1 as [r1 r2 H12 E1 E2|E1 E2]; rewrite <- E2 in H2; inversion H2; subst; constructor.
    by etrans.
Qed.

Lemma quiet_exec M P f w :
  (∀ i r, tasks w !! i = Some r → P i r = true → move M Quiet r (f r)) →
  quiet_world M w (exec_update P f w).
Proof.
  intros H. split; [done|]. intros i. rewrite exec_update_lookup.
  destruct (tasks w !! i) as [r|] eqn:E; simpl; constructor.
  destruct (P i r) eqn:EP; [|done]. apply rtc_once. by apply (H i).
Qed.

Lemma quiet_publish M i w : quiet_world M w (publish_task i w).
Proof. split; [done|]. intros j. simpl. destruct (tasks w !! j); by constructor. Qed.

Lemma quiet_emit M e w : quiet_world M w (emit e w).
Proof. split; [done|]. intros j. simpl. destruct (tasks w !! j); by constructor. Qed.

Lemma quiet_foldl {A} M (f : world → A → world) l w :
  (∀ w a, quiet_world M w (f w a)) → quiet_world M w (foldl f w l).
Proof.
  intros H. revert w. induction l as [|a l IH]; intros w; simpl; [done|].
  etrans; [apply H|apply IH].
Qed.

Lemma quiet_lookup M w w' i r :
  quiet_world M w w' → tasks w !! i = Some r →
  ∃ r', tasks w' !! i = Some r' ∧ rtc (move M Quiet) r r'.
Proof.
  intros [_ H] Hi. specialize (H i). rewrite Hi in H. inversion H; subst. eauto.
Qed.

Lemma quiet_lookup_inv M w w' i r' :
  quiet_world M w w' → tasks w' !! i = Some r' →
  ∃ r, tasks w !! i = Some r ∧ rtc (move M Quiet) r r'.
Proof.
  intros [_ H] Hi. specialize (H i). rewrite Hi in H. inversion H; subst. eauto.
Qed.

#[export] Hint Resolve quiet_publish quiet_emit : js.
