(* ===== verification/Moves.v ===== *)
(** * Every statement of the queue is a move of the abstract machine

    For each operation of the task runtime, the queue and the workers: the rows
    it touches make only quiet moves, or, where it gives an attempt back, the one
    row whose claim it holds makes a [Back] move. *)

From S2P Require Import Prelude Sql Tasks Lifecycle Queue Claims Parking Execution Machine.

(** Only the row [c] still holds makes a move, and that move gives an attempt
    back. *)
Definition backed_world (M : Z) (c : TaskClaim) (w w' : world) : Prop :=
  next_id w' = next_id w ∧
  ∀ i, option_Forall2
    (λ r r', r' = r ∨
       i = c_task_id c ∧ t_status r = Running ∧ stamp_matches c r = true ∧ move M Back r r')
    (tasks w !! i) (tasks w' !! i).

(** The claim still holds its row: what every guarded statement tests. *)
Definition holds (c : TaskClaim) (w : world) : bool :=
  match tasks w !! c_task_id c with
  | Some r => is_status Running r && stamp_matches c r
  | None => false
  end.

(** ** Lemmas *)

Lemma is_status_eq s r : is_status s r = true → t_status r = s.
Proof. apply is_status_true. Qed.

Lemma status_in_elem l r : status_in l r = true → t_status r ∈ l.
Proof. apply bool_decide_eq_true_1. Qed.

Ltac statuses :=
  breflect;
  repeat match goal with
  | H : is_status _ _ = true |- _ => apply is_status_eq in H
  | H : status_in _ _ = true |- _ => apply status_in_elem in H
  end.

(** A SET list whose row facts are immediate. *)
Ltac move_by c :=
  split; [done|eapply c; simpl; try done; try (by auto); try (by intros ?)].

Ltac quiet_set c := apply quiet_exec; intros ? ? _ ?; statuses; move_by c.

Section quiet_ops.
Context (M : Z).
Implicit Types w : world.

Lemma marker_concat r p : p !! MARKER = None → is_Some (jsonb_concat r p !! MARKER) → is_Some (r !! MARKER).
Proof. unfold jsonb_concat. rewrite lookup_union. intros ->. by rewrite (left_id_L None _). Qed.

Lemma finish_quiet cur now tid st err w :
  st = Done ∨ st = Failed → quiet_world M w (finish cur now tid st err w).
Proof.
  intros Hst. unfold finish. etrans; [|apply quiet_publish].
  apply quiet_exec; intros i r _ H; statuses. split; [done|].
  apply m_end; simpl; [by left|done|done|].
  unfold marker_kept, marker_in. simpl. case_bool_decide; [|done].
  by rewrite lookup_delete_ne.
Qed.

Lemma update_parent_progress_quiet now pid w :
  quiet_world M w (update_parent_progress now pid w).
Proof. unfold update_parent_progress. etrans; [|apply quiet_publish]. quiet_set m_note. Qed.

Lemma write_progress_quiet cur now tid p b payload w :
  (∀ o, payload = Some o → o !! MARKER = None) →
  quiet_world M w (fst (_write_progress cur now tid p b payload w)).
Proof.
  intros Hp. simpl. apply quiet_exec; intros i r _ _. split; [done|].
  apply m_note; simpl; [done..|]. unfold marker_kept, marker_in; simpl.
  destruct payload as [o|]; [|done]. case_bool_decide; [done|].
  apply marker_concat. by apply Hp.
Qed.

Lemma set_progress_quiet cur now tid d t l e w :
  quiet_world M w (set_progress cur now tid d t l e w).
Proof.
  unfold set_progress. etrans; [|apply quiet_publish]. by apply write_progress_quiet.
Qed.

Lemma checkpoint_quiet cur now tid d t l e payload w :
  (∀ o, payload = Some o → o !! MARKER = None) →
  quiet_world M w (fst (checkpoint cur now tid d t l e payload w)).
Proof. intros Hp. by apply (write_progress_quiet cur now tid _ true). Qed.

Lemma park_waiting_quiet cur tid total l w : quiet_world M w (park_waiting cur tid total l w).
Proof. unfold park_waiting. etrans; [|apply quiet_publish]. quiet_set m_park. Qed.

Lemma after_finalize_quiet p w : quiet_world M w (after_finalize p w).
Proof.
  unfold after_finalize. destruct (String.eqb _ _); [apply quiet_emit|].
  destruct (_ !! _); [|done]. destruct (truthy _); [apply quiet_emit|done].
Qed.

Lemma maybe_finalize_quiet now pid w : quiet_world M w (maybe_finalize_parent now pid w).
Proof.
  unfold maybe_finalize_parent. etrans; [apply (update_parent_progress_quiet now pid w)|].
  set (w1 := update_parent_progress _ _ _). destruct (tasks w1 !! pid) as [p|]; [|done].
  destruct (negb (is_status Waiting p)); [done|]. destruct (negb _); [done|].
  set (n := count_where _ _).
  etrans; [|apply quiet_publish]. etrans; [|apply after_finalize_quiet].
  apply quiet_exec; intros i r _ H; statuses.
  split; [done|]. apply m_end; simpl; [by right| |done|by intros ?]. destruct (n =? 0)%nat; auto.
Qed.

Lemma reconcile_quiet now w : quiet_world M w (reconcile_chunks now w).
Proof.
  unfold reconcile_chunks. etrans; [|apply quiet_foldl; intros; apply maybe_finalize_quiet].
  apply quiet_exec; intros i r _ H. unfold orphan_chunk in H. statuses.
  split; [done|]. apply m_cancel; simpl; [|done|done|by intros ?]. rewrite H1.
  unfold ACTIVE_STATUSES. set_solver.
Qed.

Lemma merge_payload_quiet tid data drop w :
  data !! MARKER = None → quiet_world M w (merge_payload tid data drop w).
Proof.
  intros Hd. apply quiet_exec; intros i r _ _. split; [done|].
  apply m_note; simpl; [done..|]. unfold marker_kept, marker_in; simpl.
  intros Hm. apply marker_concat in Hm; [|done].
  clear Hd. induction drop as [|k ks IH]; simpl in *; [done|]. apply IH.
  destruct Hm as [v Hv]. apply lookup_delete_Some in Hv as [_ Hv]. by exists v.
Qed.

Lemma cancel_quiet now l ids kind st src w :
  (∀ s, s ∈ l → s ∈ ACTIVE_STATUSES) →
  quiet_world M w (fst (cancel now l ids kind st src w)).
Proof.
  intros Hl. unfold cancel. simpl. etrans; [|apply quiet_foldl; intros; apply quiet_publish].
  apply quiet_exec; intros i r _ H. unfold cancel_where in H. statuses.
  split; [done|]. apply m_cancel; simpl; [by apply Hl|done|done|by intros ?].
Qed.

Lemma record_ids_quiet tid ids w : quiet_world M w (_record_batch_ids tid ids w).
Proof.
  apply quiet_exec; intros i r _ _. split; [done|]. apply m_note; simpl; [done..|].
  unfold marker_kept, marker_in, record_ids; simpl. by rewrite lookup_insert_ne.
Qed.

Lemma park_batch_quiet cur tid ids w :
  quiet_world M w (fst (park_awaiting_batch cur tid ids w)).
Proof.
  unfold park_awaiting_batch. simpl. etrans; [apply (record_ids_quiet tid ids)|].
  set (w1 := _record_batch_ids _ _ _). etrans.
  - apply (quiet_exec M (park_where cur tid) parked_row).
    intros i r _ H. unfold park_where in H. statuses. move_by m_park.
  - destruct (negb _); [apply quiet_publish|done].
Qed.

Lemma resume_quiet tid w : quiet_world M w (resume_parked tid w).
Proof. unfold resume_parked. etrans; [|apply quiet_publish]. quiet_set m_resume. Qed.

Lemma repark_quiet cur tid w : quiet_world M w (fst (repark_if_unfinished cur tid w)).
Proof.
  unfold repark_if_unfinished. destruct (pending_batch_ids tid w); [done|]. apply park_batch_quiet.
Qed.

Lemma heartbeat_quiet c now w : quiet_world M w (fst (heartbeat c now w)).
Proof.
  simpl. apply quiet_exec; intros ? ? _ H. unfold held_where in H. statuses. move_by m_note.
Qed.

Lemma reap_requeue_quiet minutes now w : quiet_world M w (reap_requeue M minutes now w).
Proof.
  apply quiet_exec; intros ? ? _ H. unfold reap_requeue_where in H. statuses. move_by m_requeue.
Qed.

Lemma reap_fail_quiet attempts minutes now w : quiet_world M w (reap_fail attempts minutes now w).
Proof.
  apply quiet_exec; intros ? ? _ H. unfold reap_fail_where in H. statuses. move_by m_end.
Qed.

(** A held claim's row, read back through its WHERE clause. *)
Lemma held_where_row c i r :
  held_where c i r = true → i = c_task_id c ∧ t_status r = Running ∧ stamp_matches c r = true.
Proof. unfold held_where. intros H. statuses. done. Qed.

Lemma requeue_transient_quiet c e w :
  (∀ r, tasks w !! c_task_id c = Some r → t_status r = Running → stamp_matches c r = true →
     RETRIES_SPENT r < M) →
  quiet_world M w (requeue_transient c e w).
Proof.
  intros Hr. unfold requeue_transient. etrans; [|apply quiet_publish].
  apply quiet_exec; intros i r Hi (-> & Hs & Hc)%held_where_row.
  pose proof (Hr r Hi Hs Hc). move_by m_requeue.
Qed.

(** *** Operations that give an attempt back *)

Lemma backed_refl c w : backed_world M c w w.
Proof. split; [done|]. intros i. destruct (tasks w !! i); constructor. by left. Qed.

Lemma backed_exec c f w :
  (∀ r, t_status r = Running → move M Back r (f r)) →
  backed_world M c w (exec_update (held_where c) f w).
Proof.
  intros Hf. split; [done|]. intros i. rewrite exec_update_lookup.
  destruct (tasks w !! i) as [r|]; constructor.
  destruct (held_where c i r) eqn:E; [|by left]. right.
  apply held_where_row in E as (-> & Hs & Hc). auto.
Qed.

Lemma defer_backed c nb w : backed_world M c w (defer c nb w).
Proof. apply backed_exec. intros r Hs. move_by m_give_back. Qed.

Lemma requeue_on_exit_backed c w : backed_world M c w (requeue_on_exit c w).
Proof. apply (backed_exec c). intros r Hs. move_by m_give_back. Qed.

Lemma fail_unavailable_backed c now err w :
  backed_world M c w (fail_unavailable_payload (Some c) now (c_task_id c) err w).
Proof.
  unfold fail_unavailable_payload. split; [done|]. intros i. simpl. rewrite lookup_update_where.
  destruct (tasks w !! i) as [r|]; constructor. rewrite Z.eqb_refl.
  destruct (_ && _) eqn:E; [|by left]. right. statuses. subst.
  split_and!; try done. move_by m_fail_back.
Qed.

(** *** Recovery *)

Lemma recovered_move r : t_status r = Failed → marker_in r → move M Quiet r (recovered_row r).
Proof.
  intros Hs Hm. split; [done|]. apply m_recover; try done.
  unfold marker_in. simpl. rewrite lookup_delete_eq. by intros [].
Qed.

Lemma has_marker_in r : has_marker r = true → marker_in r.
Proof. unfold has_marker. intros H. statuses. by exists MARKER_VALUE. Qed.

(** The row of the recovered task, whatever reopening its parent did to it. *)
Lemma reopen_lookup p w i r :
  match p with Some (pid, q) => tasks w !! pid = Some q | None => True end →
  tasks w !! i = Some r →
  ∃ r', tasks (reopen_parent p w) !! i = Some r' ∧
    (r' = r ∨ t_status r = Failed ∧ same_identity r r' ∧ t_status r' = Waiting ∧
       same_counts r r' ∧ t_payload r' = t_payload r).
Proof.
  intros Hp Hi. destruct p as [[pid q]|]; simpl; [|eauto].
  destruct (is_status Failed q) eqn:E; [|eauto]. statuses.
  rewrite exec_update_lookup, Hi. simpl. eexists; split; [done|].
  destruct (i =? pid) eqn:Ei; [|by left]. breflect. subst. simplify_eq. by right.
Qed.

Lemma retry_quiet {E} `{EqDecision E} tid w0 (e0 : E) readable w e acc has :
  quiet_world M w (fst (retry tid w0 e0 readable w e acc has)).
Proof.
  unfold retry. destruct (recovery_source w0 tid) as [[src p]|] eqn:Es; [|done].
  destruct readable; [simpl|done]. destruct (parent_unchanged p w) eqn:Ep; [simpl|done].
  destruct (bool_decide (tasks w !! tid = Some src)) eqn:Et; [simpl|done].
  destruct (bool_decide (e = e0)); [simpl|done]. destruct (_ && _); [done|simpl].
  apply bool_decide_eq_true_1 in Et.
  apply recovery_source_spec in Es as (_ & Hs & Hm & _). apply has_marker_in in Hm.
  assert (match p with Some (pid, q) => tasks w !! pid = Some q | None => True end) as Hp.
  { destruct p as [[pid q]|]; simpl in *; [|done]. by apply bool_decide_eq_true_1 in Ep. }
  etrans; [|destruct p as [[pid q]|]; [apply quiet_publish|done]].
  etrans; [|apply quiet_publish].
  split; [by destruct p as [[pid q]|]; simpl; [destruct (is_status _ _)|]|].
  intros i. rewrite exec_update_lookup. destruct (tasks w !! i) as [r|] eqn:Hi.
  - destruct (reopen_lookup p w i r Hp Hi) as (r' & -> & Hr'). simpl. constructor.
    destruct (i =? tid) eqn:Ei; breflect; subst.
    + simplify_eq. apply rtc_once.
      destruct Hr' as [->|(_ & Hid & _ & Hc & Hpay)];
        (split; [done|apply m_recover; simpl; try done]);
        unfold marker_in; simpl; rewrite lookup_delete_eq; by intros [].
    + destruct Hr' as [->|(Hf & Hid & Hw & Hc & Hpay)]; [done|].
      apply rtc_once. split; [done|]. apply m_reopen; try done.
      unfold marker_kept, marker_in. by rewrite Hpay.
  - destruct p as [[pid q]|]; simpl; [destruct (is_status _ _)|]; simpl;
      rewrite ?lookup_update_where, Hi; constructor.
Qed.
End quiet_ops.

#[export] Hint Resolve finish_quiet set_progress_quiet checkpoint_quiet park_waiting_quiet
  maybe_finalize_quiet reconcile_quiet merge_payload_quiet cancel_quiet record_ids_quiet
  park_batch_quiet resume_quiet repark_quiet heartbeat_quiet reap_requeue_quiet reap_fail_quiet
  retry_quiet : js.
#[export] Hint Resolve defer_backed requeue_on_exit_backed fail_unavailable_backed : js.
