(* ===== verification/Fleet.v ===== *)
(** * The fleet: every worker, the scheduler and the operator on one table

    A step relation over the tasks table and the runs in flight. Each step is
    one statement (or one transaction) of the code, so an execution is any
    interleaving the database can serialise. [M] is [task_max_attempts] and
    [minutes] the heartbeat timeout. *)

From S2P Require Import Prelude Sql Tasks Lifecycle Queue Claims Parking Execution Machine Moves.

(** ** States *)

(** A run in flight: the process that claimed it, its claim, and the row the
    claim returned. *)
Record run : Type := mkRun {
  run_proc : nat;
  run_claim : TaskClaim;
  run_row : task;
}.

Record fleet : Type := mkFleet {
  f_world : world;
  f_runs : list run;
}.

(** The stamp's number on its task: two runs never share it. *)
Definition run_key (x : run) : Z * Z := (c_task_id (run_claim x), c_attempts (run_claim x)).

Definition claim_of (worker : string) (i : Z) (r : task) : TaskClaim :=
  mkClaim i worker (t_attempts r).

Definition init : fleet := mkFleet (mkWorld ∅ 1 []) [].

(** ** Steps *)

Section fleet_steps.
Context (M minutes : Z).

Inductive step : fleet → fleet → Prop :=
| s_enqueue s now kind payload dedupe :
    payload !! MARKER = None →
    step s (mkFleet (fst (enqueue now kind payload dedupe (f_world s))) (f_runs s))
| s_claim s env proc worker too_heavy now w' i r :
    claim_task env worker too_heavy now (f_world s) = (w', Some (i, r)) →
    step s (mkFleet w' (mkRun proc (claim_of worker i r) r :: f_runs s))
| s_heartbeat s x now :
    x ∈ f_runs s →
    step s (mkFleet (fst (heartbeat (run_claim x) now (f_world s))) (f_runs s))
| s_progress s x now d t l e :
    x ∈ f_runs s →
    step s (mkFleet (set_progress (Some (run_claim x)) now (c_task_id (run_claim x)) d t l e
                       (f_world s)) (f_runs s))
| s_checkpoint s x now d t l e payload :
    x ∈ f_runs s → (∀ o, payload = Some o → o !! MARKER = None) →
    step s (mkFleet (fst (checkpoint (Some (run_claim x)) now (c_task_id (run_claim x)) d t l e
                            payload (f_world s))) (f_runs s))
| s_park_waiting s x total l :
    x ∈ f_runs s →
    step s (mkFleet (park_waiting (Some (run_claim x)) (c_task_id (run_claim x)) total l
                       (f_world s)) (f_runs s))
| s_park_batch s x ids :
    x ∈ f_runs s →
    step s (mkFleet (fst (park_awaiting_batch (Some (run_claim x)) (c_task_id (run_claim x)) ids
                            (f_world s))) (f_runs s))
| s_record_ids s tid ids :
    step s (mkFleet (_record_batch_ids tid ids (f_world s)) (f_runs s))
| s_merge s tid data drop :
    data !! MARKER = None →
    step s (mkFleet (merge_payload tid data drop (f_world s)) (f_runs s))
| s_settle s runs1 x runs2 now o :
    f_runs s = runs1 ++ x :: runs2 →
    step s (mkFleet (fst (settle now M (run_claim x) (run_row x) o (f_world s))) (runs1 ++ runs2))
| s_unknown_kind s runs1 x runs2 now msg :
    f_runs s = runs1 ++ x :: runs2 →
    step s (mkFleet (finish (Some (run_claim x)) now (c_task_id (run_claim x)) Failed (Some msg)
                       (f_world s)) (runs1 ++ runs2))
| s_crash s runs1 x runs2 :
    f_runs s = runs1 ++ x :: runs2 →
    step s (mkFleet (f_world s) (runs1 ++ runs2))
| s_release s runs1 x runs2 :
    f_runs s = runs1 ++ x :: runs2 →
    step s (mkFleet (requeue_on_exit (run_claim x) (f_world s)) (runs1 ++ runs2))
| s_reap_requeue s now :
    step s (mkFleet (reap_requeue M minutes now (f_world s)) (f_runs s))
| s_reap_fail s now :
    step s (mkFleet (reap_fail M minutes now (f_world s)) (f_runs s))
| s_cancel s now ids kind st source :
    step s (mkFleet (fst (cancel now ACTIVE_STATUSES ids kind st source (f_world s))) (f_runs s))
| s_resume s tid :
    step s (mkFleet (resume_parked tid (f_world s)) (f_runs s))
| s_finalize s now pid :
    step s (mkFleet (maybe_finalize_parent now pid (f_world s)) (f_runs s))
| s_reconcile s now :
    step s (mkFleet (reconcile_chunks now (f_world s)) (f_runs s))
| s_recover s tid w0 (e0 e : list jobject) readable accepted has_results :
    step s (mkFleet (fst (retry tid w0 e0 readable (f_world s) e accepted has_results)) (f_runs s)).

Definition reachable (s : fleet) : Prop := rtc step init s.

(** ** The invariant *)

Definition run_ok (w : world) (x : run) : Prop :=
  ∃ r, tasks w !! c_task_id (run_claim x) = Some r ∧
    c_attempts (run_claim x) ≤ t_attempts r ∧
    (t_status r = Running → t_attempts r = c_attempts (run_claim x) →
       t_worker r = Some (c_worker (run_claim x)) ∧
       RETRIES_SPENT r = RETRIES_SPENT (run_row x)).

Definition dedupe_unique (m : gmap Z task) : Prop :=
  ∀ i j r q k, m !! i = Some r → m !! j = Some q →
    t_dedupe_key r = Some k → t_dedupe_key q = Some k → i = j.

Definition inv (s : fleet) : Prop :=
  (∀ i r, tasks (f_world s) !! i = Some r → row_ok M r ∧ i < next_id (f_world s)) ∧
  (∀ x, x ∈ f_runs s → run_ok (f_world s) x) ∧
  NoDup (run_key <$> f_runs s) ∧
  dedupe_unique (tasks (f_world s)).

(** A stamp no later state can honour again. *)
Definition stale (c : TaskClaim) (w : world) : Prop :=
  ∃ r, tasks w !! c_task_id c = Some r ∧ c_attempts c ≤ t_attempts r ∧
    (t_status r = Running → c_attempts c < t_attempts r).

(** ** Lemmas *)

Lemma quiet_dedupe w w' :
  quiet_world M w w' → dedupe_unique (tasks w) → dedupe_unique (tasks w').
Proof.
  intros Hq Hd i j r q k Hi Hj Hr Hk.
  apply (quiet_lookup_inv M w) in Hi as (r0 & Hi & Hr0); [|done].
  apply (quiet_lookup_inv M w) in Hj as (q0 & Hj & Hq0); [|done].
  apply moves_identity in Hr0 as (_ & Hr1 & _). apply moves_identity in Hq0 as (_ & Hq1 & _).
  apply (Hd i j r0 q0 k); congruence.
Qed.

Lemma quiet_run_ok w w' x : quiet_world M w w' → run_ok w x → run_ok w' x.
Proof.
  intros Hq (r & Hi & Ha & Hr).
  destruct (quiet_lookup M w w' _ r Hq Hi) as (r' & Hi' & Hm).
  apply quiets in Hm as [Hle Hm]. exists r'. split_and!; [done|lia|].
  intros Hs Ha'. destruct (Hm Hs) as (Hs0 & Ha0 & Hw0 & Hb0).
  destruct (Hr Hs0 ltac:(lia)) as [Hw Hsp]. unfold RETRIES_SPENT in *. split; [congruence|lia].
Qed.

Lemma inv_quiet s w' runs' :
  0 < M → inv s → quiet_world M (f_world s) w' → runs' `sublist_of` f_runs s →
  inv (mkFleet w' runs').
Proof.
  intros HM (Hrows & Hruns & Hnd & Hd) Hq Hsub. split_and!; simpl.
  - intros i r' Hi. apply (quiet_lookup_inv M (f_world s)) in Hi as (r & Hi & Hm); [|done].
    destruct (Hrows i r Hi) as [Hok Hlt]. split; [by eapply moves_ok|].
    by destruct Hq as [-> _].
  - intros x Hx. eapply quiet_run_ok; [done|]. apply Hruns.
    by eapply sublist_elem.
  - eapply sublist_NoDup; [exact Hnd|]. by apply sublist_fmap.
  - by eapply quiet_dedupe.
Qed.

Lemma runs_remove runs1 (x : run) runs2 : (runs1 ++ runs2) `sublist_of` (runs1 ++ x :: runs2).
Proof. apply sublist_app; [done|]. by constructor. Qed.

(** A give-back takes the claim's run with it; every other run on the row holds
    an older stamp. *)
Lemma inv_backed s w' runs1 x runs2 :
  0 < M → inv s → f_runs s = runs1 ++ x :: runs2 →
  backed_world M (run_claim x) (f_world s) w' → inv (mkFleet w' (runs1 ++ runs2)).
Proof.
  intros HM (Hrows & Hruns & Hnd & Hd) Hrs [Hn Hb].
  assert (∀ i r', tasks w' !! i = Some r' → ∃ r, tasks (f_world s) !! i = Some r ∧
    (r' = r ∨ i = c_task_id (run_claim x) ∧ t_status r = Running ∧
       stamp_matches (run_claim x) r = true ∧ move M Back r r')) as Hinv.
  { intros i r' Hi. specialize (Hb i). rewrite Hi in Hb. inversion Hb; subst. eauto. }
  split_and!; simpl.
  - intros i r' Hi. rewrite Hn. destruct (Hinv i r' Hi) as (r & Hr & Hcase).
    destruct (Hrows i r Hr) as [Hok Hlt]. split; [|done].
    destruct Hcase as [->|(_ & _ & _ & Hm)]; [done|by eapply move_ok].
  - intros y Hy. assert (y ∈ f_runs s) as Hy' by (rewrite Hrs; set_solver).
    destruct (Hruns y Hy') as (r & Hi & Ha & Hr). specialize (Hb (c_task_id (run_claim y))).
    rewrite Hi in Hb. inversion Hb as [r0 r' Hcase|]; subst. exists r'.
    destruct Hcase as [->|(Heq & Hs & Hst & Hm)]; [by eauto|].
    apply stamp_matches_true in Hst as [_ Hst].
    assert (c_attempts (run_claim y) ≠ c_attempts (run_claim x)) as Hne.
    { intros Heq'. rewrite Hrs, fmap_app, fmap_cons in Hnd.
      apply NoDup_app in Hnd as (_ & Hdis & Hnd). apply NoDup_cons in Hnd as [Hnin _].
      assert (run_key y = run_key x) as Hk by (unfold run_key; by rewrite Heq, Heq').
      apply elem_of_app in Hy as [Hy|Hy].
      - eapply (Hdis (run_key y)); [by apply list_elem_of_fmap_2|rewrite Hk; by left].
      - apply Hnin. rewrite <- Hk. by apply list_elem_of_fmap_2. }
    destruct Hm as [_ Hm]. remember Back as l eqn:El. split; [done|].
    move_cases Hm; try discriminate; (split; [lia|intros; congruence]).
  - eapply sublist_NoDup; [exact Hnd|]. rewrite Hrs. apply sublist_fmap, runs_remove.
  - intros i j r' q' k Hi Hj Hr Hq.
    destruct (Hinv i r' Hi) as (r & Hi' & Hcr). destruct (Hinv j q' Hj) as (q & Hj' & Hcq).
    assert (t_dedupe_key r = Some k).
    { destruct Hcr as [->|(_ & _ & _ & (_ & Hk & _) & _)]; congruence. }
    assert (t_dedupe_key q = Some k).
    { destruct Hcq as [->|(_ & _ & _ & (_ & Hk & _) & _)]; congruence. }
    by eapply (Hd i j r q k).
Qed.

Lemma inv_enqueue s now kind payload dedupe :
  0 < M → payload !! MARKER = None → inv s →
  inv (mkFleet (fst (enqueue now kind payload dedupe (f_world s))) (f_runs s)).
Proof.
  intros HM Hp (Hrows & Hruns & Hnd & Hd).
  set (w := f_world s) in *. unfold enqueue. destruct (dedupe_taken dedupe (tasks w)) eqn:Et.
  { split_and!; simpl; try done. intros i r Hi. destruct (Hrows i r Hi). split; [done|lia]. }
  assert (tasks w !! next_id w = None) as Hnew.
  { destruct (tasks w !! next_id w) as [r|] eqn:E; [|done]. destruct (Hrows _ _ E). lia. }
  split_and!; simpl; [..|done|].
  - intros i r [[<- <-]|[Hne Hi]]%lookup_insert_Some.
    + split; [|lia]. unfold row_ok, RETRIES_SPENT, marker_in; simpl.
      split_and!; try lia; try (by intros []); rewrite Hp; by intros [].
    + destruct (Hrows i r Hi). split; [done|lia].
  - intros x Hx. destruct (Hruns x Hx) as (r & Hi & H). exists r. split; [|done].
    simpl. rewrite lookup_insert_ne; [done|]. intros Heq. by rewrite <- Heq, Hnew in Hi.
  - assert (∀ j q k, dedupe = Some k → tasks w !! j = Some q → t_dedupe_key q ≠ Some k) as Hfree.
    { intros j q k -> Hj Hq. simpl in Et. apply (proj1 (exists_where_false _ _)) with (i := j) (r := q) in Et; [|done].
      by rewrite bool_decide_eq_true_2 in Et. }
    intros i j r q k [[<- <-]|[Hi Hr]]%lookup_insert_Some [[<- <-]|[Hj Hq]]%lookup_insert_Some;
      simpl; intros Hrk Hqk; [done|by destruct (Hfree j q k)|by destruct (Hfree i r k)|].
    by apply (Hd i j r q k).
Qed.

Lemma claim_move env h worker now i r :
  claimable env h now i r = true → move M Claim r (claimed_row worker now r).
Proof.
  intros Hp%claimable_pending. split; [done|]. apply m_claim; try done. by intros ?.
Qed.

Lemma inv_claim s env proc worker h now w' i r :
  0 < M → claim_task env worker h now (f_world s) = (w', Some (i, r)) → inv s →
  inv (mkFleet w' (mkRun proc (claim_of worker i r) r :: f_runs s)).
Proof.
  intros HM (r0 & Hi & Hc & -> & -> & _)%claim_task_Some (Hrows & Hruns & Hnd & Hd).
  pose proof (claimable_pending _ _ _ _ _ Hc) as Hpend.
  set (w := f_world s) in *.
  split_and!; simpl.
  - intros j q. rewrite lookup_update_where, fmap_Some. intros (q0 & Hj & ->).
    destruct (Hrows j q0 Hj) as [Hok Hlt]. split; [|done].
    destruct (j =? i) eqn:E; [|done]. breflect; subst. simplify_eq.
    eapply move_ok; [done..|by eapply claim_move].
  - intros x [->|Hx]%elem_of_cons.
    + exists (claimed_row worker now r0). simpl. rewrite lookup_update_where, Hi. simpl.
      rewrite Z.eqb_refl. split_and!; [done|simpl; lia|]. done.
    + destruct (Hruns x Hx) as (q & Hq & Ha & Hr). unfold run_ok. simpl.
      rewrite lookup_update_where, Hq. simpl. eexists; split; [done|].
      destruct (_ =? i) eqn:E; [|done]. breflect; subst. rewrite Hi in Hq. simplify_eq.
      simpl. split; [lia|]. intros _ ?. lia.
  - csimpl. apply NoDup_cons. split; [|done].
    intros (x & Hk & Hx)%list_elem_of_fmap. destruct (Hruns x Hx) as (q & Hq & Ha & _).
    unfold run_key in Hk. simpl in Hk. injection Hk as Hk1 Hk2. rewrite <- Hk1, Hi in Hq.
    simplify_eq. lia.
  - intros j k q q' key. rewrite !lookup_update_where, !fmap_Some.
    intros (q0 & Hj & ->) (q1 & Hk & ->) H1 H2. apply (Hd j k q0 q1 key); [done..| |].
    + by destruct (j =? i).
    + by destruct (k =? i).
Qed.

(** How a settled run leaves the table: a quiet move, or its attempt given back. *)
Lemma settle_effect s x now o :
  inv s → x ∈ f_runs s →
  let w' := fst (settle now M (run_claim x) (run_row x) o (f_world s)) in
  quiet_world M (f_world s) w' ∨ backed_world M (run_claim x) (f_world s) w'.
Proof.
  intros (_ & Hruns & _) Hx. destruct o as [|msg| |nb|msg|e]; simpl.
  - left. destruct (repark_if_unfinished _ _ _) as [w1 b] eqn:E. simpl.
    pose proof (repark_quiet M (Some (run_claim x)) (c_task_id (run_claim x)) (f_world s)) as Hq.
    rewrite E in Hq. simpl in Hq. destruct b; [done|]. etrans; [done|].
    apply finish_quiet; auto.
  - left. apply finish_quiet; auto.
  - left. done.
  - right. apply defer_backed.
  - right. apply fail_unavailable_backed.
  - left. destruct (_ && _) eqn:E; [|apply finish_quiet; auto]. breflect.
    apply requeue_transient_quiet. intros r Hr Hs Hst.
    destruct (Hruns x Hx) as (r' & Hr' & _ & Hok). simplify_eq.
    apply stamp_matches_true in Hst as [_ Hst]. destruct (Hok Hs Hst). lia.
Qed.

Lemma inv_step s s' : 0 < M → step s s' → inv s → inv s'.
Proof.
  intros HM Hstep Hinv.
  destruct Hstep as [s now kind payload dedupe Hp|s env proc worker h now w' i r Hc|s x now Hx
    |s x now d t l e Hx|s x now d t l e payload Hx Hp|s x total l Hx|s x ids Hx|s tid ids
    |s tid data drop Hd|s r1 x r2 now o Hr|s r1 x r2 now msg Hr|s r1 x r2 Hr|s r1 x r2 Hr
    |s now|s now|s now ids kind st src|s tid|s now pid|s now|s tid w0 e0 e rd acc has];
    try (apply (inv_quiet s); [done|done|by eauto with js|reflexivity]).
  - by apply inv_enqueue.
  - by eapply inv_claim.
  - destruct (settle_effect s x now o Hinv) as [Hq|Hb]; [rewrite Hr; set_solver|..].
    + apply (inv_quiet s); [done..|]. rewrite Hr. apply runs_remove.
    + by apply (inv_backed s _ r1 x r2).
  - apply (inv_quiet s); [done|done|apply finish_quiet; auto|]. rewrite Hr. apply runs_remove.
  - apply (inv_quiet s); [done..|]. rewrite Hr. apply runs_remove.
  - apply (inv_backed s _ r1 x r2); [done..|]. apply requeue_on_exit_backed.
Qed.

Lemma inv_init : 0 < M → inv init.
Proof.
  intros HM. split_and!; simpl.
  - intros i r. by rewrite lookup_empty.
  - by intros x ?%elem_of_nil.
  - constructor.
  - intros i j r q k. by rewrite lookup_empty.
Qed.

Lemma inv_steps s s' : 0 < M → inv s → rtc step s s' → inv s'.
Proof. intros HM Hi H. induction H; [done|]. eauto using inv_step. Qed.

Lemma reachable_inv s : 0 < M → reachable s → inv s.
Proof. intros HM. apply inv_steps; [done|]. by apply inv_init. Qed.

(** *** Stale stamps *)

Lemma holds_true c w :
  holds c w = true ↔
  ∃ r, tasks w !! c_task_id c = Some r ∧ t_status r = Running ∧ stamp_matches c r = true.
Proof.
  unfold holds. destruct (tasks w !! _) as [r|]; [|split; [done|by intros (?&?&?)]].
  rewrite andb_true_iff, is_status_true. naive_solver.
Qed.

Lemma stale_not_holds c w : stale c w → holds c w = false.
Proof.
  intros (r & Hr & _ & Hlt). apply not_true_iff_false.
  intros (r' & Hr' & Hs & [_ Ha]%stamp_matches_true)%holds_true. simplify_eq.
  specialize (Hlt Hs). lia.
Qed.

Lemma lost_is_stale s x :
  inv s → x ∈ f_runs s → holds (run_claim x) (f_world s) = false →
  stale (run_claim x) (f_world s).
Proof.
  intros (_ & Hruns & _) Hx Hl. destruct (Hruns x Hx) as (r & Hr & Ha & Hok).
  exists r. split_and!; [done..|]. intros Hs.
  destruct (decide (t_attempts r = c_attempts (run_claim x))) as [Heq|]; [|lia].
  destruct (Hok Hs Heq) as [Hw _].
  assert (holds (run_claim x) (f_world s) = true) as Hh; [|congruence].
  apply holds_true. exists r. split_and!; try done. by apply stamp_matches_true.
Qed.

Lemma stale_quiet c w w' : quiet_world M w w' → stale c w → stale c w'.
Proof.
  intros Hq (r & Hr & Ha & Hlt). destruct (quiet_lookup M w w' _ r Hq Hr) as (r' & Hr' & Hm).
  apply quiets in Hm as [Hle Hm]. exists r'. split_and!; [done|lia|].
  intros Hs. destruct (Hm Hs) as (Hs0 & Ha0 & _). specialize (Hlt Hs0). lia.
Qed.

Lemma stale_backed c d w w' : backed_world M d w w' → stale c w → stale c w'.
Proof.
  intros [_ Hb] (r & Hr & Ha & Hlt). specialize (Hb (c_task_id c)). rewrite Hr in Hb.
  inversion Hb as [r0 r' Hcase|]; subst. exists r'.
  destruct Hcase as [->|(_ & Hs & _ & [_ Hm])]; [done|]. specialize (Hlt Hs).
  remember Back as l eqn:El. move_cases Hm; try discriminate; split_and!; (done || lia).
Qed.

Lemma stale_step c s s' : inv s → step s s' → stale c (f_world s) → stale c (f_world s').
Proof.
  intros Hinv Hstep Hst.
  destruct Hstep as [s now kind payload dedupe Hp|s env proc worker h now w' i r Hc|s x now Hx
    |s x now d t l e Hx|s x now d t l e payload Hx Hp|s x total l Hx|s x ids Hx|s tid ids
    |s tid data drop Hd|s r1 x r2 now o Hr|s r1 x r2 now msg Hr|s r1 x r2 Hr|s r1 x r2 Hr
    |s now|s now|s now ids kind st src|s tid|s now pid|s now|s tid w0 e0 e rd acc has];
    try (eapply stale_quiet; [|exact Hst]; by eauto with js).
  - destruct Hst as (r & Hr & Ha & Hlt). exists r. split; [|done].
    simpl. unfold enqueue. destruct (dedupe_taken _ _); [done|]. simpl.
    rewrite lookup_insert_ne; [done|].
    destruct Hinv as (Hrows & _). destruct (Hrows _ _ Hr). lia.
  - apply claim_task_Some in Hc as (r0 & Hi & Hc & -> & -> & _). simpl.
    destruct Hst as (q & Hq & Ha & Hlt). unfold stale. simpl. rewrite lookup_update_where, Hq.
    simpl. eexists; split; [done|]. destruct (_ =? i); simpl; [lia|done].
  - destruct (settle_effect s x now o Hinv) as [Hq|Hb]; [rewrite Hr; set_solver|..].
    + by eapply stale_quiet.
    + by eapply stale_backed.
  - eapply stale_backed; [|exact Hst]. apply requeue_on_exit_backed.
Qed.

Lemma stale_steps c s s' :
  0 < M → inv s → rtc step s s' → stale c (f_world s) → stale c (f_world s').
Proof.
  intros HM Hinv H. induction H as [|s1 s2 s3 H12 _ IH]; [done|]. intros Hst.
  apply IH; [by eapply inv_step|by eapply stale_step].
Qed.

(** *** Every row's history is a path of the abstract machine *)

Lemma step_moves s s' i r :
  inv s → step s s' → tasks (f_world s) !! i = Some r →
  ∃ r', tasks (f_world s') !! i = Some r' ∧ rtc (λ a b, ∃ l, move M l a b) r r'.
Proof.
  intros Hinv Hstep Hi.
  assert (∀ w', quiet_world M (f_world s) w' →
    ∃ r', tasks w' !! i = Some r' ∧ rtc (λ a b, ∃ l, move M l a b) r r') as HQ.
  { intros w' Hq. destruct (quiet_lookup M _ w' _ r Hq Hi) as (r' & ? & Hm). exists r'.
    split; [done|]. eapply rtc_subrel; [|done]. eauto. }
  assert (∀ c w', backed_world M c (f_world s) w' →
    ∃ r', tasks w' !! i = Some r' ∧ rtc (λ a b, ∃ l, move M l a b) r r') as HB.
  { intros c w' [_ Hb]. specialize (Hb i). rewrite Hi in Hb. inversion Hb as [? r' Hc|]; subst.
    exists r'. split; [done|]. destruct Hc as [->|(_ & _ & _ & ?)]; [done|].
    apply rtc_once. eauto. }
  destruct Hstep as [s now kind payload dedupe Hp|s env proc worker h now w' j q Hc|s x now Hx
    |s x now d t l e Hx|s x now d t l e payload Hx Hp|s x total l Hx|s x ids Hx|s tid ids
    |s tid data drop Hd|s r1 x r2 now o Hr|s r1 x r2 now msg Hr|s r1 x r2 Hr|s r1 x r2 Hr
    |s now|s now|s now ids kind st src|s tid|s now pid|s now|s tid w0 e0 e rd acc has];
    try (apply HQ; by eauto with js).
  - exists r. split; [|done]. simpl. unfold enqueue. destruct (dedupe_taken _ _); [done|]. simpl.
    rewrite lookup_insert_ne; [done|]. destruct Hinv as (Hrows & _).
    destruct (Hrows _ _ Hi). lia.
  - apply claim_task_Some in Hc as (r0 & Hj & Hc & -> & -> & _). simpl.
    rewrite lookup_update_where, Hi. simpl. eexists; split; [done|].
    destruct (i =? j) eqn:E; [|done]. breflect; subst. simplify_eq.
    apply rtc_once. exists Claim. by eapply claim_move.
  - destruct (settle_effect s x now o Hinv) as [Hq|Hb]; [rewrite Hr; set_solver|..].
    + by apply HQ.
    + by eapply HB.
  - eapply HB, requeue_on_exit_backed.
Qed.

Lemma steps_moves s s' i r :
  0 < M → inv s → rtc step s s' → tasks (f_world s) !! i = Some r →
  ∃ r', tasks (f_world s') !! i = Some r' ∧ rtc (λ a b, ∃ l, move M l a b) r r'.
Proof.
  intros HM Hs Hss. revert i r. induction Hss as [s|s1 s2 s3 H12 _ IH]; intros i r Hr; [by exists r|].
  destruct (step_moves s1 s2 i r Hs H12 Hr) as (r2 & Hr2 & Hm2).
  destruct (IH ltac:(by eapply inv_step) i r2 Hr2) as (r3 & Hr3 & Hm3).
  exists r3. split; [done|by etrans].
Qed.
End fleet_steps.
