(* ===== verification/QueueProps.v ===== *)
(** * What the task queue guarantees

    The theorems about the queue: claims fence their runs, budgets hold, keys are
    unique, parked work keeps the batches it paid for, and every operation does
    what its caller is told it did. *)

From S2P Require Import Prelude PyStr Sql Tasks Lifecycle Queue Claims Parking Execution Machine Moves Fleet.

(** ** A small fleet the witnesses run

    One task enqueued at 0 and claimed by worker [a] at 5, reaped after an hour,
    and claimed again by worker [b]. *)

Definition demo_env : claim_env := mkEnv ["ingest_source"%string] [] [] "ip" ∅ ∅ ∅.

Definition demo_payload : jobject := {[ "source"%string := JStr "acme" ]}.

Definition demo_row : task := new_task 0 "ingest_source" demo_payload (Some "k"%string) None.

Definition demo1 : fleet :=
  mkFleet (fst (enqueue 0 "ingest_source" demo_payload (Some "k"%string) (f_world init))) [].

Definition demo_run_a : run :=
  mkRun 0 (mkClaim 1 "a" 1) (claimed_row "a" 5 demo_row).

Definition demo2 : fleet :=
  mkFleet (fst (claim_task demo_env "a" [] 5 (f_world demo1))) [demo_run_a].

Definition demo3 : fleet :=
  mkFleet (reap_requeue 3 15 (60 * MINUTE) (f_world demo2)) [demo_run_a].

Definition demo_row3 : task :=
  put_last_heartbeat None (put_started_at None (put_status Pending (claimed_row "a" 5 demo_row))).

Definition demo_run_b : run :=
  mkRun 1 (mkClaim 1 "b" 2) (claimed_row "b" (61 * MINUTE) demo_row3).

Definition demo4 : fleet :=
  mkFleet (fst (claim_task demo_env "b" [] (61 * MINUTE) (f_world demo3))) [demo_run_b; demo_run_a].

(** A parent waiting on one finished chunk. *)
Definition demo_parent : world :=
  mkWorld {[ 1 := put_status Waiting (new_task 0 "reverify_open" ∅ None None);
             2 := put_status Failed (new_task 1 "reverify_chunk" ∅ None (Some 1)) ]} 3 [].

(** A parent still waiting on a pending chunk. *)
Definition demo_waiting_parent : task := put_status Waiting (new_task 0 "reverify_open" ∅ None None).

Definition demo_family : world :=
  mkWorld {[ 1 := demo_waiting_parent;
             2 := new_task 1 "reverify_chunk" ∅ None (Some 1) ]} 3 [].

(** Where a run's end leaves its row. *)
Definition settled_status (M : Z) (row : task) (ids : list string) (o : outcome) : status :=
  match o with
  | Returned => match ids with [] => Done | _ => AwaitingBatch end
  | RaisedAIPaused _ => Done
  | RaisedAwaitingBatch => Running
  | RaisedDeferred _ => Pending
  | RaisedPayloadUnavailable _ => Failed
  | Raised e => if _is_transient e && (RETRIES_SPENT row <? M) then Pending else Failed
  end.

Definition settled_attempts (r : task) (o : outcome) : Z :=
  match o with
  | RaisedDeferred _ | RaisedPayloadUnavailable _ => Z.max (t_attempts r - 1) 0
  | _ => t_attempts r
  end.

(** ** Lemmas *)

Lemma demo1_reachable : reachable 3 15 demo1.
Proof. apply rtc_once. by apply (s_enqueue 3 15 init). Qed.

Lemma demo2_reachable : reachable 3 15 demo2.
Proof.
  eapply rtc_r; [apply demo1_reachable|].
  apply (s_claim 3 15 demo1 demo_env 0 "a" [] 5 _ 1 (claimed_row "a" 5 demo_row)).
  vm_compute. reflexivity.
Qed.

Lemma demo3_reachable : reachable 3 15 demo3.
Proof. eapply rtc_r; [apply demo2_reachable|]. apply s_reap_requeue. Qed.

Lemma demo4_reachable : reachable 3 15 demo4.
Proof.
  eapply rtc_r; [apply demo3_reachable|].
  apply (s_claim 3 15 demo3 demo_env 1 "b" [] (61 * MINUTE) _ 1
           (claimed_row "b" (61 * MINUTE) demo_row3)).
  vm_compute. reflexivity.
Qed.

(** Once a run has lost its claim, a statement that tests the claim and
    'running' selects nothing. *)
Lemma lost_update c f w (P : Z → task → bool) :
  holds c w = false → (∀ i r, P i r = true → held_where c i r = true) →
  update_where P f (tasks w) = tasks w.
Proof.
  intros Hl HP. apply update_where_none.
  intros i r Hi. apply not_true_iff_false. intros (-> & Hs & Hc)%HP%held_where_row.
  assert (holds c w = true) as Hh; [|congruence]. apply holds_true. eauto.
Qed.

Lemma lost_exec c f w (P : Z → task → bool) :
  holds c w = false → (∀ i r, P i r = true → held_where c i r = true) → exec_update P f w = w.
Proof.
  intros Hl HP. unfold exec_update, set_tasks. rewrite (lost_update c) by done. by destruct w.
Qed.

Lemma lost_count c w (P : Z → task → bool) :
  holds c w = false → (∀ i r, P i r = true → held_where c i r = true) →
  count_where P (tasks w) = 0%nat.
Proof.
  intros Hl HP. apply count_where_zero. intros i r Hi. apply not_true_iff_false.
  intros (-> & Hs & Hc)%HP%held_where_row.
  assert (holds c w = true) as Hh; [|congruence]. apply holds_true. eauto.
Qed.

(** The guarded WHERE clause of the runtime's writes is the claim's own. *)
Lemma guarded_held c i r :
  (i =? c_task_id c) && is_status Running r && claim_guard (Some c) (c_task_id c) r =
  held_where c i r.
Proof. by rewrite claim_guard_own. Qed.

Lemma lost_finish c now st err w :
  holds c w = false → tasks (finish (Some c) now (c_task_id c) st err w) = tasks w.
Proof.
  intros Hl. apply (lost_update c); [done|]. intros i r. by rewrite guarded_held.
Qed.

Lemma lost_park c ids w :
  holds c (_record_batch_ids (c_task_id c) ids w) = false →
  park_awaiting_batch (Some c) (c_task_id c) ids w =
  (_record_batch_ids (c_task_id c) ids w, false).
Proof.
  intros Hl. unfold park_awaiting_batch. cbv zeta.
  assert (∀ i r, park_where (Some c) (c_task_id c) i r = true → held_where c i r = true) as HP.
  { intros i r. unfold park_where. by rewrite guarded_held. }
  by rewrite (lost_count c), (lost_exec c) by done.
Qed.

(** Recording ids changes neither status nor stamp. *)
Lemma record_holds c tid ids w : holds c (_record_batch_ids tid ids w) = holds c w.
Proof.
  unfold holds, _record_batch_ids. rewrite exec_update_lookup.
  destruct (tasks w !! _) as [r|]; [|done]. simpl. by destruct (_ =? tid).
Qed.

(** Recording the ids the column already holds writes the same payload back. *)
Lemma record_same tid w r :
  tasks w !! tid = Some r → ids_array r → pending_batch_ids tid w ≠ [] →
  tasks (_record_batch_ids tid (pending_batch_ids tid w) w) = tasks w.
Proof.
  intros Hr Ha. unfold pending_batch_ids. rewrite Hr. intros Hne.
  simpl. apply map_eq; intros i. rewrite lookup_update_where.
  destruct (i =? tid) eqn:E; [|by destruct (tasks w !! i)]. breflect; subst.
  rewrite Hr. simpl. f_equal.
  unfold record_ids, payload_batch_ids, ids_array in *.
  destruct (t_payload r !! "batch_ids"%string) as [j|] eqn:Ej; [|done].
  destruct j as [| | | |l|]; try done.
  assert (filter (λ v, json_has (Some (JArr l)) v = false) (json_strings (JArr l)) = []) as ->.
  { destruct (filter _ _) as [|v fl] eqn:Ef; [done|].
    assert (v ∈ v :: fl) as Hin by (by left). rewrite <- Ef in Hin.
    apply list_elem_of_filter in Hin as [Hv Hin%elem_of_json_strings].
    simpl in Hv. by apply bool_decide_eq_false in Hv. }
  simpl. rewrite app_nil_r, insert_id by done. by destruct r.
Qed.

(** What settling does to a row whose claim it still holds. *)
Lemma settle_held_update c f w r :
  tasks w !! c_task_id c = Some r → holds c w = true →
  tasks (exec_update (held_where c) f w) !! c_task_id c = Some (f r).
Proof.
  intros Hr (r' & Hr' & Hs & Hc)%holds_true. simplify_eq.
  rewrite exec_update_lookup, Hr. simpl. unfold held_where.
  by rewrite Z.eqb_refl, Hc, (proj2 (is_status_true Running r) Hs).
Qed.

(** A guarded write under a claim that still holds. *)
Lemma guarded_update_held c f w r :
  tasks w !! c_task_id c = Some r → holds c w = true →
  update_where (λ i q, (i =? c_task_id c) && is_status Running q && claim_guard (Some c) (c_task_id c) q)
    f (tasks w) !! c_task_id c = Some (f r).
Proof.
  intros Hr (q & Hq & Hs & Hc)%holds_true. simplify_eq.
  rewrite lookup_update_where, Hr. simpl.
  by rewrite !Z.eqb_refl, Hc, (proj2 (is_status_true Running r) Hs).
Qed.

Lemma finish_held c now st err w r :
  tasks w !! c_task_id c = Some r → holds c w = true →
  tasks (finish (Some c) now (c_task_id c) st err w) !! c_task_id c =
  Some (finished_row now st err r).
Proof. intros Hr Hh. by apply (guarded_update_held c (finished_row now st err) w r). Qed.

Lemma park_held c ids w r :
  tasks w !! c_task_id c = Some r → holds c w = true →
  tasks (fst (park_awaiting_batch (Some c) (c_task_id c) ids w)) !! c_task_id c =
    Some (parked_row (put_payload (record_ids ids (t_payload r)) r)) ∧
  snd (park_awaiting_batch (Some c) (c_task_id c) ids w) = true.
Proof.
  intros Hr Hh. apply (record_lookup _ ids) in Hr. rewrite <- (record_holds c (c_task_id c) ids) in Hh.
  unfold park_awaiting_batch. cbv zeta. set (w1 := _record_batch_ids _ _ _) in *.
  assert (count_where (park_where (Some c) (c_task_id c)) (tasks w1) ≠ 0%nat) as Hn.
  { intros Hz. apply (proj1 (count_where_zero _ _)) with (r := put_payload (record_ids ids (t_payload r)) r)
      (i := c_task_id c) in Hz; [|done].
    apply holds_true in Hh as (q & Hq & Hs & Hc). rewrite Hr in Hq. injection Hq as <-.
    unfold park_where in Hz. rewrite guarded_held in Hz. unfold held_where in Hz.
    by rewrite Z.eqb_refl, Hc, (proj2 (is_status_true Running _) Hs) in Hz. }
  apply Nat.eqb_neq in Hn. rewrite Hn. simpl. split; [|done].
  by apply (guarded_update_held c parked_row w1).
Qed.

(** ** Claims fence their runs *)

(** C1: at most one run holds a task. In every state the fleet can reach, of two
    runs on the same task at most one passes the guard the runtime's writes
    test, whatever crashes, reaps, deferrals and re-claims came before. *)
Theorem one_live_claim M minutes s x y :
  0 < M → reachable M minutes s → x ∈ f_runs s → y ∈ f_runs s → x ≠ y →
  c_task_id (run_claim x) = c_task_id (run_claim y) →
  holds (run_claim x) (f_world s) = true → holds (run_claim y) (f_world s) = false.
Proof.
  intros HM Hs%reachable_inv Hx Hy Hne Htid Hh; [|done]. apply not_true_iff_false. intros Hh'.
  apply holds_true in Hh as (r & Hr & _ & [_ Ha]%stamp_matches_true).
  apply holds_true in Hh' as (r' & Hr' & _ & [_ Ha']%stamp_matches_true).
  destruct Hs as (_ & _ & Hnd & _). apply Hne. apply (NoDup_fmap_inj run_key (f_runs s)); try done.
  unfold run_key. congruence.
Qed.

Lemma one_live_claim_witness :
  reachable 3 15 demo4 ∧ holds (run_claim demo_run_a) (f_world demo4) = false.
Proof.
  split; [apply demo4_reachable|].
  apply (one_live_claim 3 15 demo4 demo_run_b demo_run_a);
    [lia|apply demo4_reachable|by left|by right; left|by intros [=]|reflexivity|].
  vm_compute. reflexivity.
Defined.

(** C2: a lost claim stays lost. Once a run in flight no longer holds its row, no
    later step of any process gives it the row back, so every guarded write it
    still attempts is dropped. *)
Theorem lost_claim_stays_lost M minutes s s' x :
  0 < M → reachable M minutes s → x ∈ f_runs s →
  holds (run_claim x) (f_world s) = false → rtc (step M minutes) s s' →
  holds (run_claim x) (f_world s') = false.
Proof.
  intros HM Hs%reachable_inv Hx Hl Hss; [|done]. apply stale_not_holds.
  eapply stale_steps; [done..|]. by eapply lost_is_stale.
Qed.

Lemma lost_claim_stays_lost_witness :
  holds (run_claim demo_run_a) (f_world demo3) = false ∧
  holds (run_claim demo_run_a) (f_world demo4) = false.
Proof.
  assert (holds (run_claim demo_run_a) (f_world demo3) = false) as Hl by (vm_compute; reflexivity).
  split; [exact Hl|].
  apply (lost_claim_stays_lost 3 15 demo3 demo4 demo_run_a);
    [lia|apply demo3_reachable|by left|exact Hl|].
  apply rtc_once.
  apply (s_claim 3 15 demo3 demo_env 1 "b" [] (61 * MINUTE) _ 1
           (claimed_row "b" (61 * MINUTE) demo_row3)).
  vm_compute. reflexivity.
Defined.

(** a run that has lost its claim settles nothing. However its handler ended,
    the settling writes leave the whole table as the new owner has it, and its
    next heartbeat stops the liveness thread. *)
Theorem lost_run_settles_nothing now M c row o w :
  holds c w = false → (∀ r, tasks w !! c_task_id c = Some r → ids_array r) →
  tasks (fst (settle now M c row o w)) = tasks w ∧
  heartbeat c now w = (w, false).
Proof.
  intros Hl Hids. split.
  - destruct o as [|msg| |nb|msg|e]; simpl.
    + unfold repark_if_unfinished. destruct (pending_batch_ids (c_task_id c) w) as [|v l] eqn:Ep.
      { by apply lost_finish. }
      rewrite lost_park by (by rewrite record_holds).
      etrans; [apply lost_finish; by rewrite record_holds|].
      unfold pending_batch_ids in Ep. destruct (tasks w !! c_task_id c) as [r|] eqn:Er; [|done].
      assert (pending_batch_ids (c_task_id c) w = v :: l) as Ep' by (unfold pending_batch_ids; by rewrite Er).
      rewrite <- Ep'. eapply record_same; [done|by apply Hids|by rewrite Ep'].
    + by apply lost_finish.
    + done.
    + by apply (lost_update c).
    + apply (lost_update c); [done|]. intros i r. by rewrite guarded_held.
    + destruct (_ && _); [|by apply lost_finish]. by apply (lost_update c).
  - unfold heartbeat. by rewrite (lost_exec c), (lost_count c) by done.
Qed.

Lemma lost_run_settles_nothing_witness :
  tasks (fst (settle 9 3 (run_claim demo_run_a) (run_row demo_run_a) Returned (f_world demo4))) =
  tasks (f_world demo4).
Proof.
  apply (lost_run_settles_nothing 9 3 (run_claim demo_run_a) (run_row demo_run_a) Returned
           (f_world demo4)).
  - vm_compute. reflexivity.
  - intros r Hr. vm_compute in Hr. injection Hr as <-. vm_compute. exact I.
Defined.

(** ** Rows live in the abstract machine *)

(** C12: every row's history is a path of the abstract task machine. Between any
    two states of an execution a row only makes the machine's moves, so its
    status follows the machine's diagram and its identity never changes. *)
Theorem fleet_refines_machine M minutes s s' i r :
  0 < M → reachable M minutes s → rtc (step M minutes) s s' →
  tasks (f_world s) !! i = Some r →
  ∃ r', tasks (f_world s') !! i = Some r' ∧ rtc (λ a b, ∃ l, move M l a b) r r' ∧
    rtc (λ a b, status_edge a b = true) (t_status r) (t_status r') ∧ same_identity r r'.
Proof.
  intros HM Hs%reachable_inv Hss Hr; [|done].
  destruct (steps_moves M minutes s s' i r HM Hs Hss Hr) as (r' & Hr' & Hm).
  exists r'. split_and!; [done..| |]; clear -Hm.
  - induction Hm as [|a b c [l Hl] _ IH]; [done|]. eapply rtc_l; [by eapply move_status|done].
  - induction Hm as [|a b c [l Hl] _ IH]; [by split_and!|]. etrans; [by eapply move_identity|done].
Qed.

Lemma fleet_refines_machine_witness :
  rtc (λ a b, status_edge a b = true) Running Running ∧
  ∃ r', tasks (f_world demo4) !! 1 = Some r' ∧ t_attempts r' = 2.
Proof.
  destruct (fleet_refines_machine 3 15 demo2 demo4 1 (claimed_row "a" 5 demo_row))
    as (r' & Hr' & _ & Hs & _).
  - lia.
  - apply demo2_reachable.
  - eapply rtc_l; [apply (s_reap_requeue 3 15 demo2 (60 * MINUTE))|]. apply rtc_once.
    apply (s_claim 3 15 demo3 demo_env 1 "b" [] (61 * MINUTE) _ 1
             (claimed_row "b" (61 * MINUTE) demo_row3)).
    vm_compute. reflexivity.
  - vm_compute. reflexivity.
  - vm_compute in Hr'. injection Hr' as <-. split; [exact Hs|].
    eexists. split; [vm_compute; reflexivity|reflexivity].
Defined.

(** C13: the retry budget. In every reachable state each row's batch resumes are
    among its claims, the retries it has spent are within the configured budget,
    and a row waiting to be claimed has budget left: however often a task is
    lost, requeued or resumed, it is never run more than [M] times for failures. *)
Theorem retry_budget M minutes s i r :
  0 < M → reachable M minutes s → tasks (f_world s) !! i = Some r →
  0 ≤ t_batch_resumes r ≤ t_attempts r ∧ 0 ≤ RETRIES_SPENT r ≤ M ∧
  (t_status r = Pending → RETRIES_SPENT r < M).
Proof.
  intros HM Hs%reachable_inv Hr; [|done]. destruct Hs as (Hrows & _).
  destruct (Hrows i r Hr) as [(? & ? & ? & ? & _) _]. unfold RETRIES_SPENT in *.
  split_and!; (done || lia).
Qed.

Lemma retry_budget_witness :
  ∃ r, tasks (f_world demo3) !! 1 = Some r ∧ RETRIES_SPENT r < 3.
Proof.
  exists demo_row3. assert (tasks (f_world demo3) !! 1 = Some demo_row3) as Hr by (vm_compute; reflexivity).
  split; [exact Hr|].
  apply (retry_budget 3 15 demo3 1 demo_row3); [lia|apply demo3_reachable|exact Hr|reflexivity].
Defined.

(** An ended task stays ended. A row that is done or cancelled keeps that
    status, its claim counters and its worker's stamp cannot revive it, in every
    continuation. *)
Theorem ended_stays_ended M minutes s s' i r :
  0 < M → reachable M minutes s → rtc (step M minutes) s s' →
  tasks (f_world s) !! i = Some r → t_status r = Done ∨ t_status r = Cancelled →
  ∃ r', tasks (f_world s') !! i = Some r' ∧ t_status r' = t_status r ∧ same_counts r r'.
Proof.
  intros HM Hs%reachable_inv Hss Hr He; [|done].
  destruct (steps_moves M minutes s s' i r HM Hs Hss Hr) as (r' & Hr' & Hm).
  exists r'. split; [done|]. clear Hr Hr'.
  induction Hm as [r|a b c [l [_ Hl]] _ IH]; [done|].
  assert (t_status b = t_status a ∧ same_counts a b) as [Hs2 Hc].
  { move_cases Hl; try (destruct He; congruence); by split_and!. }
  destruct IH as [Hs3 Hc3]; [by rewrite Hs2|].
  unfold same_counts in *. split; [congruence|]. intuition congruence.
Qed.

Lemma ended_stays_ended_witness :
  ∃ s, reachable 3 15 s ∧ ∃ r', tasks (f_world s) !! 1 = Some r' ∧ t_status r' = Cancelled.
Proof.
  set (s1 := mkFleet (fst (cancel 7 ACTIVE_STATUSES None None None None (f_world demo2))) [demo_run_a]).
  set (s2 := mkFleet (fst (heartbeat (run_claim demo_run_a) 8 (f_world s1))) [demo_run_a]).
  assert (reachable 3 15 s1) as H1
    by (eapply rtc_r; [apply demo2_reachable|apply (s_cancel 3 15 demo2 7 None None None None)]).
  assert (step 3 15 s1 s2) as H2
    by (apply (s_heartbeat 3 15 s1 demo_run_a 8); by left).
  exists s2. split; [by eapply rtc_r|].
  destruct (ended_stays_ended 3 15 s1 s2 1
    (put_finished_at (Some 7) (put_error (Some "cancelled by admin"%string)
      (put_status Cancelled (claimed_row "a" 5 demo_row))))) as (r' & Hr' & Hs' & _).
  - lia.
  - exact H1.
  - by apply rtc_once.
  - vm_compute. reflexivity.
  - by right.
  - exists r'. by split.
Defined.

(** ** Admission *)

(** a dedupe key names one task. In every reachable state two rows with the
    same key are the same row; enqueuing under a taken key writes no row, and
    enqueuing under a free one adds exactly the pending row the caller asked for. *)
Theorem enqueue_once M minutes s now kind payload k :
  0 < M → reachable M minutes s →
  dedupe_unique (tasks (f_world s)) ∧
  match enqueue now kind payload (Some k) (f_world s) with
  | (w', None) =>
      tasks w' = tasks (f_world s) ∧
      ∃ i r, tasks (f_world s) !! i = Some r ∧ t_dedupe_key r = Some k
  | (w', Some i) =>
      tasks (f_world s) !! i = None ∧
      (∀ j r, tasks (f_world s) !! j = Some r → t_dedupe_key r ≠ Some k) ∧
      tasks w' =
        <[i := new_task now kind payload (Some k) (payload_parent payload)]> (tasks (f_world s))
  end.
Proof.
  intros HM (Hrows & _ & _ & Hd)%reachable_inv; [|done]. split; [done|].
  unfold enqueue. destruct (dedupe_taken _ _) eqn:E; simpl in E.
  - split; [done|]. apply exists_where_true in E as (i & r & Hi & Hk). breflect. eauto.
  - split_and!; [|intros j r Hj Hk|done].
    + destruct (tasks (f_world s) !! _) as [r|] eqn:Er; [|done]. destruct (Hrows _ _ Er). lia.
    + apply (proj1 (exists_where_false _ _) E) in Hj. by rewrite bool_decide_eq_true_2 in Hj.
Qed.

Lemma enqueue_once_witness :
  tasks (fst (enqueue 70 "ingest_source" ∅ (Some "k"%string) (f_world demo4))) =
  tasks (f_world demo4).
Proof.
  destruct (enqueue_once 3 15 demo4 70 "ingest_source" ∅ "k" ltac:(lia) demo4_reachable) as [_ H].
  destruct (enqueue 70 "ingest_source" ∅ (Some "k"%string) (f_world demo4)) as [w' [i|]] eqn:E.
  - vm_compute in E. discriminate E.
  - apply H.
Defined.

(** ** Claiming *)

(** a claim takes the first claimable task and nothing else. It answers
    nothing exactly when no task is claimable; otherwise the row it returns was
    pending, due, of a kind this worker runs, on an open host, unlocked and first
    in claim order; that row is now running under the worker's name with one
    attempt more, and every other row is as it was. *)
Theorem claim_takes_first env worker too_heavy now w :
  match claim_task env worker too_heavy now w with
  | (w', None) => w' = w ∧ ∀ i r, tasks w !! i = Some r → claimable env too_heavy now i r = false
  | (w', Some (i, r')) =>
      ∃ r, tasks w !! i = Some r ∧ claimable env too_heavy now i r = true ∧
        (∀ j q, tasks w !! j = Some q → claimable env too_heavy now j q = true → j ≠ i →
           key_ltb (CLAIM_ORDER (e_sources env) (i, r)) (CLAIM_ORDER (e_sources env) (j, q)) = true) ∧
        t_status r' = Running ∧ t_worker r' = Some worker ∧ t_attempts r' = t_attempts r + 1 ∧
        t_payload r' = t_payload r ∧ tasks w' = <[i := r']> (tasks w)
  end.
Proof.
  destruct (claim_task _ _ _ _ _) as [w' [[i r']|]] eqn:E; [|by eapply claim_task_None].
  apply claim_task_Some in E as (r & Hi & Hc & -> & -> & Hmin).
  exists r. split_and!; try done.
  - intros j q Hj Hq Hne. specialize (Hmin j q Hj Hq).
    apply key_ltb_lt. apply key_ltb_false in Hmin. simpl in *. lia.
  - simpl. apply map_eq; intros j. rewrite lookup_update_where.
    destruct (decide (j = i)) as [->|Hne].
    + by rewrite Hi, lookup_insert_eq, Z.eqb_refl.
    + rewrite lookup_insert_ne by done. apply Z.eqb_neq in Hne. rewrite Hne.
      by destruct (tasks w !! j).
Qed.



(** ** Settling *)

(** A run that still holds its claim ends its row as its handler ended. The
    row's status is the one the outcome calls for: done, parked on the batches
    still on its payload, pending again for a deferral or a transient fault with
    budget left, failed otherwise; a deferral or a missing payload gives the
    attempt back, and the worker backs off exactly on exhaustion. *)
Theorem settle_outcome now M c row o w r :
  tasks w !! c_task_id c = Some r → holds c w = true →
  ∃ r', tasks (fst (settle now M c row o w)) !! c_task_id c = Some r' ∧
    t_status r' = settled_status M row (payload_batch_ids (t_payload r)) o ∧
    t_attempts r' = settled_attempts r o ∧
    (o ≠ RaisedAwaitingBatch → holds c (fst (settle now M c row o w)) = false) ∧
    snd (settle now M c row o w) = (match o with Raised e => _exhausted e | _ => false end).
Proof.
  intros Hr Hh.
  assert (∃ r', tasks (fst (settle now M c row o w)) !! c_task_id c = Some r' ∧
    t_status r' = settled_status M row (payload_batch_ids (t_payload r)) o ∧
    t_attempts r' = settled_attempts r o) as (r' & Hr' & Hs & Ha).
  { destruct o as [|msg| |nb|msg|e]; simpl.
    - unfold repark_if_unfinished, pending_batch_ids. rewrite Hr.
      destruct (payload_batch_ids (t_payload r)) as [|v l].
      + eexists. split; [by apply (finish_held c now Done None)|done].
      + destruct (park_held c (v :: l) w r Hr Hh) as [Hp Hb]. revert Hp Hb.
        destruct (park_awaiting_batch _ _ _ _) as [w1 b]. simpl. intros Hp ->. eauto.
    - eexists. split; [by apply (finish_held c now Done (Some msg))|done].
    - apply holds_true in Hh as (q & Hq & Hs & _). simplify_eq. eauto.
    - eexists. split; [by apply settle_held_update|done].
    - eexists. split; [by apply (guarded_update_held c (unavailable_row now msg))|done].
    - destruct (_ && _).
      + eexists. split; [by apply settle_held_update|done].
      + eexists. split; [by apply (finish_held c now Failed (Some (x_text e)))|done]. }
  exists r'. split_and!; [done..| |].
  - intros Hne. apply not_true_iff_false. intros (q & Hq & Hs' & _)%holds_true. simplify_eq.
    rewrite Hs in Hs'. destruct o; simpl in Hs'; try done; by repeat case_match.
  - destruct o; simpl; try done. by destruct (repark_if_unfinished _ _ _).
Qed.

Lemma settle_outcome_witness :
  ∃ r', tasks (fst (settle (62 * MINUTE) 3 (run_claim demo_run_b) (run_row demo_run_b)
                      (RaisedDeferred (90 * MINUTE)) (f_world demo4))) !! 1 = Some r' ∧
    t_status r' = Pending ∧ t_attempts r' = 1.
Proof.
  destruct (settle_outcome (62 * MINUTE) 3 (run_claim demo_run_b) (run_row demo_run_b)
              (RaisedDeferred (90 * MINUTE)) (f_world demo4)
              (claimed_row "b" (61 * MINUTE) demo_row3)) as (r' & Hr' & Hs & Ha & _).
  - vm_compute. reflexivity.
  - vm_compute. reflexivity.
  - exists r'. split; [exact Hr'|]. split; [exact Hs|exact Ha].
Defined.

(** ** Paid work is never lost *)

(** Parking records every batch it is given, whoever holds the claim. After
    the call the row's pending batches are exactly those it had and those just
    submitted; the row is parked, and the caller told so, exactly when the claim
    still held it. *)
Theorem parking_keeps_paid_ids c ids w r :
  tasks w !! c_task_id c = Some r → ids_array r →
  ∃ r', tasks (fst (park_awaiting_batch (Some c) (c_task_id c) ids w)) !! c_task_id c = Some r' ∧
    (∀ v, v ∈ payload_batch_ids (t_payload r') ↔ v ∈ ids ∨ v ∈ payload_batch_ids (t_payload r)) ∧
    t_status r' = (if holds c w then AwaitingBatch else t_status r) ∧
    snd (park_awaiting_batch (Some c) (c_task_id c) ids w) = holds c w.
Proof.
  intros Hr Ha.
  assert (∀ v, v ∈ payload_batch_ids (record_ids ids (t_payload r)) ↔
    v ∈ ids ∨ v ∈ payload_batch_ids (t_payload r)) as Hids.
  { intros v. by apply ids_array_iff. }
  destruct (holds c w) eqn:Hh.
  - destruct (park_held c ids w r Hr Hh) as [-> ->]. eexists. by split_and!.
  - rewrite lost_park by (by rewrite record_holds). simpl fst.
    rewrite (record_lookup _ _ _ r) by done. eexists. by split_and!.
Qed.

Lemma parking_keeps_paid_ids_witness :
  pending_batch_ids 1 (fst (park_awaiting_batch (Some (run_claim demo_run_a)) 1 ["b1"%string]
                              (f_world demo4))) = ["b1"%string] ∧
  snd (park_awaiting_batch (Some (run_claim demo_run_a)) 1 ["b1"%string] (f_world demo4)) = false.
Proof.
  destruct (parking_keeps_paid_ids (run_claim demo_run_a) ["b1"%string] (f_world demo4)
              (claimed_row "b" (61 * MINUTE) demo_row3)) as (r' & Hr' & Hv & Hs & Hb).
  - vm_compute. reflexivity.
  - vm_compute. exact I.
  - split; [vm_compute; reflexivity|]. etrans; [exact Hb|vm_compute; reflexivity].
Defined.

(** ** Lost workers *)

(** One pass of the reaper settles every silent run. A running row whose
    last sign of life is older than the timeout is requeued when it has budget
    left and failed with the reaper's error when it has none, keeping its
    counters; every other row is untouched, so no live run is disturbed. *)
Theorem reap_stale_total attempts minutes now w i :
  tasks (reap_stale_tasks attempts minutes now now w) !! i =
  (λ r, if is_status Running r && beat_before (now - minutes * MINUTE) r
        then if RETRIES_SPENT r <? attempts
             then put_last_heartbeat None (put_started_at None (put_status Pending r))
             else put_error (Some (worker_lost_error r))
                    (put_finished_at (Some now) (put_status Failed r))
        else r) <$> tasks w !! i.
Proof.
  unfold reap_stale_tasks, reap_fail, reap_requeue. rewrite !exec_update_lookup.
  destruct (tasks w !! i) as [r|]; [|done]. simpl. f_equal.
  unfold reap_fail_where, reap_requeue_where.
  destruct (is_status Running r) eqn:Es; simpl; [|by rewrite Es].
  destruct (beat_before _ r) eqn:Eb; simpl.
  - destruct (RETRIES_SPENT r <? attempts) eqn:Er; simpl; [done|].
    rewrite Es, Eb. breflect. by rewrite (proj2 (Z.leb_le attempts (RETRIES_SPENT r)) ltac:(lia)).
  - rewrite andb_false_r. by rewrite Es, Eb, andb_false_r.
Qed.

(** ** Parents and chunks *)

(** C36: reconciling leaves no parent waiting for nothing. After
    [reconcile_chunks] every task still waiting has a chunk that is pending,
    running or parked. *)
Theorem reconcile_no_stuck_parent now w i r :
  tasks (reconcile_chunks now w) !! i = Some r → t_status r = Waiting →
  ∃ j c, tasks (reconcile_chunks now w) !! j = Some c ∧ live_chunk i c = true.
Proof.
  unfold reconcile_chunks. set (w1 := exec_update _ _ w). cbv zeta.
  set (l := ids_where _ _). intros Hr Hs.
  pose proof (fold_finalize_calm now l w1) as Hcalm.
  destruct (exists_where (λ _ c, live_chunk i c) (tasks w1)) eqn:E.
  - apply exists_where_true in E as (j & c & Hj & Hc). specialize (Hcalm j). rewrite Hj in Hcalm.
    inversion Hcalm as [c0 c' [Hl _] E1 Hj'|]; subst. exists j, c'. by rewrite Hl.
  - exfalso. eapply (fold_finalize_ends now l w1 i r); [| |done|done].
    + apply elem_of_ids_where. specialize (Hcalm i). rewrite Hr in Hcalm.
      inversion Hcalm as [r0 r1 [_ Hw] Hi|]; subst. exists r0. split; [done|].
      unfold childless_waiting. by rewrite E, (proj2 (is_status_true Waiting r0) (Hw Hs)).
    + intros j c Hj. by apply (proj1 (exists_where_false _ _) E j c).
Qed.

Lemma reconcile_no_stuck_parent_witness :
  tasks (reconcile_chunks 9 demo_family) !! 1 = Some demo_waiting_parent ∧
  ∃ j c, tasks (reconcile_chunks 9 demo_family) !! j = Some c ∧ live_chunk 1 c = true.
Proof.
  assert (tasks (reconcile_chunks 9 demo_family) !! 1 = Some demo_waiting_parent) as H
    by (vm_compute; reflexivity).
  split; [exact H|]. exact (reconcile_no_stuck_parent 9 demo_family 1 _ H eq_refl).
Defined.

(** A parent ends exactly when its chunks have. Finalizing a waiting parent
    with a live chunk leaves it waiting, with the chunks' progress summed; with
    none it is done without an error when no chunk failed, and failed with their
    count otherwise, so a lost chunk can never read as success. *)
Theorem finalize_outcome now pid w p :
  tasks w !! pid = Some p → t_status p = Waiting →
  ∃ p', tasks (maybe_finalize_parent now pid w) !! pid = Some p' ∧
    (let failed := count_where (λ _ c, failed_chunk pid c) (tasks w) in
     if exists_where (λ _ c, live_chunk pid c) (tasks w)
     then t_status p' = Waiting ∧ t_error p' = t_error p
     else t_status p' = (if (failed =? 0)%nat then Done else Failed) ∧
          t_error p' = (if (failed =? 0)%nat then None else Some (chunks_failed_error failed)) ∧
          t_finished_at p' = Some now) ∧
    t_progress p' =
      Some (<["done"%string := JInt (chunks_done pid (tasks w))]> (default ∅ (t_progress p))).
Proof.
  intros Hp Hs. rewrite (finalize_row now pid w p) by done.
  eexists. split; [done|]. cbv zeta. unfold exists_where, count_where.
  destruct (ids_where (λ _ c, live_chunk pid c) (tasks w)); by split_and!.
Qed.

Lemma finalize_outcome_witness :
  ∃ p', tasks (maybe_finalize_parent 9 1 demo_parent) !! 1 = Some p' ∧
    t_status p' = Failed ∧ t_error p' = Some "1 chunk(s) failed"%string.
Proof.
  destruct (finalize_outcome 9 1 demo_parent (put_status Waiting (new_task 0 "reverify_open" ∅ None None)))
    as (p' & Hp' & H & _).
  - vm_compute. reflexivity.
  - reflexivity.
  - exists p'. split; [exact Hp'|]. vm_compute in Hp'. injection Hp' as <-. by split.
Defined.

(** ** Operator recovery *)

(** Recovering a task changes the table only when nothing it read has moved.
    An answer of pending means the task failed for a missing payload, its
    evidence is unchanged and readable, and any work a provider accepted can be
    replayed rather than paid for twice; then the task is pending with its marker
    gone, its parent waiting, and every other row untouched. Any other answer
    leaves the world as it was. *)
Theorem retry_all_or_nothing {E} `{EqDecision E} tid w0 (e0 : E) readable w e accepted has_results :
  match retry tid w0 e0 readable w e accepted has_results with
  | (w', RPending) =>
      ∃ src, tasks w0 !! tid = Some src ∧ tasks w !! tid = Some src ∧
        t_status src = Failed ∧ has_marker src = true ∧ e = e0 ∧ readable = true ∧
        (accepted = true → replayable has_results src = true) ∧
        tasks w' !! tid = Some (recovered_row src) ∧
        ∀ j, j ≠ tid →
          if decide (recovery_parent src = Some j)
          then ∃ p, tasks w' !! j = Some p ∧ t_status p = Waiting
          else tasks w' !! j = tasks w !! j
  | (w', _) => w' = w
  end.
Proof.
  unfold retry. destruct (recovery_source w0 tid) as [[src parent]|] eqn:Es; [|done].
  destruct readable; [simpl|done]. destruct (parent_unchanged parent w) eqn:Ep; [simpl|done].
  destruct (bool_decide (tasks w !! tid = Some src)) eqn:Et; [simpl|done].
  destruct (bool_decide (e = e0)) eqn:Ee; [simpl|done].
  destruct (accepted && negb _) eqn:Ea; [done|simpl]. breflect.
  apply recovery_source_spec in Es as (Hw0 & Hf & Hm & Hp).
  exists src. split_and!; try done.
  - intros ->. simpl in Ea. by apply negb_false_iff in Ea.
  - destruct parent as [[pid p]|]; simpl in *; unfold reopen_parent; simpl;
      [breflect; destruct (is_status Failed p); simpl|];
      rewrite ?lookup_update_where, Et; simpl; rewrite Z.eqb_refl; try done.
    by destruct (tid =? pid).
  - intros j Hj. destruct parent as [[pid p]|]; simpl in *;
      [breflect|]; apply Z.eqb_neq in Hj.
    + destruct Hp as (Hpar & _ & _ & Hrec).
      destruct (decide (recovery_parent src = Some j)) as [Hpj|Hpj].
      * assert (j = pid) as -> by congruence. unfold _recoverable_parent in Hrec.
        destruct (is_status Failed p) eqn:Ef; simpl;
          rewrite ?lookup_update_where, Ep; simpl; rewrite ?Z.eqb_refl, Hj; eexists; split;
          try reflexivity.
        rewrite orb_false_r in Hrec. by apply is_status_true.
      * assert (j =? pid = false) as Hne by (apply Z.eqb_neq; congruence).
        destruct (is_status Failed p); simpl; rewrite ?lookup_update_where;
          destruct (tasks w !! j); simpl; by rewrite ?Hj, ?Hne.
    + rewrite decide_False by (rewrite Hp; done). rewrite lookup_update_where, Hj.
      by destruct (tasks w !! j).
Qed.

(** ** Back-off between failed pulls *)

(** A source waits after failed pulls, and never longer than the cap. A
    named source backs off exactly while it has failed since its last success,
    has not been given up on, and its newest failure is within the doubling wait;
    that wait never undercuts the source's interval and never exceeds the larger
    of the interval and the cap. A newer success ends the back-off at once. *)
Theorem pull_backoff give_up_after cap now names sources m n :
  (n ∈ backing_off give_up_after cap now names sources m ↔
     n ∈ names ∧ ∃ s last, sources !! n = Some s ∧
       fr_last_failed (_FAILURE_RUN n m) = Some last ∧
       1 ≤ fr_failures (_FAILURE_RUN n m) < give_up_after ∧
       now < last + pull_wait_hours cap (s_ingest_interval_hours s)
                      (fr_failures (_FAILURE_RUN n m)) * HOUR) ∧
  (∀ interval failures,
     interval ≤ pull_wait_hours cap interval failures ∧
     pull_wait_hours cap interval failures ≤ Z.max interval cap) ∧
  ((∀ i r, m !! i = Some r → pull_of n r = true → t_status r = Failed → i ≤ last_done n m) →
   n ∉ backing_off give_up_after cap now names sources m).
Proof.
  assert (n ∈ backing_off give_up_after cap now names sources m ↔
     n ∈ names ∧ ∃ s last, sources !! n = Some s ∧
       fr_last_failed (_FAILURE_RUN n m) = Some last ∧
       1 ≤ fr_failures (_FAILURE_RUN n m) < give_up_after ∧
       now < last + pull_wait_hours cap (s_ingest_interval_hours s)
                      (fr_failures (_FAILURE_RUN n m)) * HOUR) as Hiff.
  { unfold backing_off. destruct names as [|n0 names]; [set_solver|].
    set (l := n0 :: names). rewrite elem_of_dom. unfold is_Some.
    setoid_rewrite map_lookup_filter_Some. unfold failure_runs. setoid_rewrite map_lookup_imap.
    unfold waits, opt_filter, mem. cbv beta zeta. generalize (_FAILURE_RUN n m). intros run.
    simpl. split.
    - intros ([s fr] & Hl & Hw). destruct (sources !! n) as [s'|] eqn:Es; simpl in Hl; [|done].
      destruct (bool_decide (n ∈ l) && _) eqn:E; [|done]. simplify_eq. simpl in Hw. breflect.
      destruct (fr_last_failed _) as [last|] eqn:El; [|done]. simpl in *. breflect.
      split; [done|]. exists s, last. split_and!; (done || lia).
    - intros (Hn & s & last & Hs & Hl & [H1 H2] & Hw). rewrite Hs. simpl.
      rewrite bool_decide_eq_true_2, (proj2 (Z.leb_le _ _) H1) by done. simpl.
      eexists. split; [done|]. simpl. rewrite Hl, (proj2 (Z.ltb_lt _ _) H2). simpl.
      apply Z.ltb_lt. lia. }
  split; [done|]. split.
  - intros interval failures. unfold pull_wait_hours. lia.
  - rewrite Hiff. intros Hnone (_ & s & last & _ & _ & [H1 _] & _).
    assert (count_where (failed_pull n (last_done n m)) m = 0%nat) as Hz.
    { apply count_where_zero. intros i r Hi. apply not_true_iff_false. unfold failed_pull.
      intros ([[Hp Hf%is_status_true]%andb_true_iff _]%andb_true_iff & Hlt)%andb_true_iff.
      specialize (Hnone i r Hi Hp Hf). apply Z.ltb_lt in Hlt. lia. }
    unfold count_where in Hz. unfold _FAILURE_RUN in H1. simpl in H1. rewrite Hz in H1. lia.
Qed.

(** The daily pull anchor is the latest reading of the configured hour. For
    any wall clock, the anchor is at most that clock, less than a day behind it,
    and reads exactly [hour] o'clock: each day has one anchor and no gap. *)
Theorem daily_anchor_latest hour local a :
  0 ≤ hour < 24 → a `mod` DAY = hour * HOUR → a ≤ local →
  daily_pull_anchor hour local `mod` DAY = hour * HOUR ∧
  a ≤ daily_pull_anchor hour local ≤ local ∧ local < daily_pull_anchor hour local + DAY.
Proof.
  intros Hh Ha Hal. destruct (anchor_window hour local Hh) as [Hw Hm].
  set (b := daily_pull_anchor hour local) in *. split_and!; try (done || lia).
  pose proof (Z.div_mod a DAY ltac:(discriminate)). pose proof (Z.div_mod b DAY ltac:(discriminate)).
  rewrite Ha in *. rewrite Hm in *. assert (a `div` DAY ≤ b `div` DAY); [|nia].
  apply Z.lt_succ_r. assert (DAY * (a `div` DAY) < DAY * (b `div` DAY + 1)); [lia|].
  unfold DAY in *. nia.
Qed.

Lemma daily_anchor_latest_witness :
  daily_pull_anchor 6 (30 * HOUR) = 30 * HOUR ∧ 30 * HOUR ≤ daily_pull_anchor 6 (31 * HOUR).
Proof.
  split; [vm_compute; reflexivity|].
  apply (daily_anchor_latest 6 (31 * HOUR) (30 * HOUR)); [lia|vm_compute; reflexivity|].
  vm_compute. discriminate.
Defined.

(** A deferral lets a stamp be issued twice. After a worker claims, defers
    and claims again, its new claim equals the old one: the pair (worker,
    attempts) alone does not tell them apart, and only the end of the deferred
    run keeps two runs from holding it. *)
Theorem stamp_reissued :
  ∃ s1 s2 s3, reachable 3 15 s1 ∧ step 3 15 s1 s2 ∧ step 3 15 s2 s3 ∧
    f_runs s1 = [demo_run_a] ∧ f_runs s2 = [] ∧
    (∃ x, f_runs s3 = [x] ∧ run_claim x = run_claim demo_run_a ∧
       holds (run_claim demo_run_a) (f_world s3) = true).
Proof.
  set (s2 := mkFleet (fst (settle 6 3 (run_claim demo_run_a) (run_row demo_run_a)
                             (RaisedDeferred 7) (f_world demo2))) []).
  set (row := claimed_row "a" 8 (put_not_before (Some 7) (put_worker None
    (put_last_heartbeat None (put_started_at None (put_attempts 0 (put_status Pending demo_row))))))).
  set (s3 := mkFleet (fst (claim_task demo_env "a" [] 8 (f_world s2))) [mkRun 0 (mkClaim 1 "a" 1) row]).
  exists demo2, s2, s3. split_and!; try done.
  - apply demo2_reachable.
  - by apply (s_settle 3 15 demo2 [] demo_run_a [] 6 (RaisedDeferred 7)).
  - apply (s_claim 3 15 s2 demo_env 0 "a" [] 8 _ 1 row). vm_compute. reflexivity.
  - eexists. split; [done|]. split; [done|]. vm_compute. reflexivity.
Qed.
