(* ===== verification/Spec.v ===== *)
(** * Provider and model facts ([core.providers.spec])

    The shapes every provider datasheet fills in. A [Decimal] amount is an exact
    rational. *)

From S2P Require Import Prelude.
From Stdlib Require Export QArith Qcanon.
#[global] Open Scope Z_scope.

(** [Decimal("m * 10^-e")]. *)
Definition dec (m : Z) (e : nat) : Qc := Q2Qc (m # Pos.of_nat (10 ^ e)).

(** [Decimal(n)] of an integer. *)
Definition Decimal (n : Z) : Qc := Q2Qc (inject_Z n).

#[global] Arguments dec : simpl never.
#[global] Arguments Decimal : simpl never.

Inductive StructuredOutput : Type :=
| NONE
| JSON_OBJECT
| JSON_SCHEMA.

#[export] Instance structured_eq_dec : EqDecision StructuredOutput.
Proof. solve_decision. Defined.

Inductive Wire : Type :=
| OPENAI_RESPONSES
| OPENAI_CHAT
| ANTHROPIC_MESSAGES.

(** A calendar date, year, month, day. *)
Definition date : Type := Z * Z * Z.

Record Source : Type := mkSrc {
  src_url : string;
  src_read_on : option date;
  src_vendor : bool;
  src_note : string;
}.

Record Tier : Type := mkTier {
  up_to_prompt_tokens : option Z;
  rate_in : Qc;
  rate_out : Qc;
  rate_cached_in : option Qc;
  rate_cache_write_in : option Qc;
}.

Record PeakWindow : Type := mkPeakWindow {
  isodows : list Z;
  start_hour_utc : Z;
  end_hour_utc : Z;
}.

(** [tiers] is a non-empty tuple in every datasheet; [tiers[-1]] of an empty one
    raises, which [_tier_for] makes visible. *)
Record Rates : Type := mkRates {
  tiers : list Tier;
  batch_rate : option Qc;
  rt_source : Source;
  batch_source : option Source;
  cache_write_source : option Source;
  off_peak_multiplier : option Qc;
  peak_windows : list PeakWindow;
  off_peak_source : option Source;
}.

Record Reasoning : Type := mkReasoning {
  param : option string;
  accepts : list string;
  rejects : list string;
  rs_default : option string;
  rs_source : Source;
}.

Record Output : Type := mkOutput {
  max_output_tokens : option Z;
  default_max_output_tokens : Z;
  truncation_finish_reason : option string;
  truncates_silently : bool;
}.

Record StructuredOutputSpec : Type := mkStructured {
  mode : StructuredOutput;
  requires_literal_json_in_prompt : bool;
  schema_requires_all_fields_required : bool;
  schema_requires_additional_properties_false : bool;
}.

Record Model : Type := mkModel {
  m_name : string;
  m_note : string;
  context_tokens : option Z;
  structured_output : StructuredOutputSpec;
  m_rates : Rates;
  reasoning : Reasoning;
  m_output : Output;
  selectable : bool;
  supports_explicit_prompt_cache : option bool;
  batch_supported : option bool;
  cache_write_5m_per_mtok : option Qc;
  cache_write_1h_per_mtok : option Qc;
}.

Record Provider : Type := mkProvider {
  p_name : string;
  wire : Wire;
  base_url : option string;
  api_key_env : string;
  supports_temperature : bool;
  batch_endpoint : option string;
  models : list Model;
  p_source : Source;
  exhaustion_markers : list string;
}.

(** A model with the dataclass's default trailing fields, and the
    [dataclasses.replace] the datasheets use. *)
Definition with_batch (b : option bool) (m : Model) : Model :=
  mkModel (m_name m) (m_note m) (context_tokens m) (structured_output m) (m_rates m)
    (reasoning m) (m_output m) (selectable m) (supports_explicit_prompt_cache m) b
    (cache_write_5m_per_mtok m) (cache_write_1h_per_mtok m).

Definition with_reasoning (r : Reasoning) (m : Model) : Model :=
  mkModel (m_name m) (m_note m) (context_tokens m) (structured_output m) (m_rates m)
    r (m_output m) (selectable m) (supports_explicit_prompt_cache m) (batch_supported m)
    (cache_write_5m_per_mtok m) (cache_write_1h_per_mtok m).

Definition with_limits (ctx : option Z) (o : Output) (m : Model) : Model :=
  mkModel (m_name m) (m_note m) ctx (structured_output m) (m_rates m)
    (reasoning m) o (selectable m) (supports_explicit_prompt_cache m) (batch_supported m)
    (cache_write_5m_per_mtok m) (cache_write_1h_per_mtok m).

(** ** Comparisons of amounts *)

Definition qltb (a b : Qc) : bool :=
  match Qccompare a b with
  | Lt => true
  | _ => false
  end.

Definition qleb (a b : Qc) : bool := negb (qltb b a).

(** ** Lemmas *)

Lemma qltb_lt a b : qltb a b = true ↔ Qclt a b.
Proof.
  unfold qltb. rewrite Qclt_alt. destruct (Qccompare a b); split; congruence.
Qed.

Lemma qltb_ge a b : qltb a b = false ↔ Qcle b a.
Proof.
  unfold qltb. rewrite <- not_true_iff_false. split.
  - intros H. apply Qcnot_lt_le. intros Hl. apply H. rewrite Qclt_alt in Hl. by rewrite Hl.
  - intros Hle H. destruct (Qccompare a b) eqn:E; try done.
    apply Qclt_alt in E. by apply (Qcle_not_lt _ _ Hle).
Qed.

Lemma qleb_le a b : qleb a b = true ↔ Qcle a b.
Proof. unfold qleb. rewrite negb_true_iff. apply qltb_ge. Qed.

Lemma qltb_irrefl a : qltb a a = false.
Proof. apply qltb_ge, Qcle_refl. Qed.

Lemma Decimal_lt a b : qltb (Decimal a) (Decimal b) = (a <? b).
Proof.
  assert (∀ x y, x ≤ y → Qcle (Decimal x) (Decimal y)) as Hle.
  { intros x y H. unfold Decimal, Qcle, Q2Qc, this. rewrite !Qred_correct. by rewrite <- Zle_Qle. }
  destruct (a <? b) eqn:E; breflect; [|by apply qltb_ge, Hle].
  apply qltb_lt. unfold Decimal, Qclt, Q2Qc, this. rewrite !Qred_correct. by rewrite <- Zlt_Qlt.
Qed.

Lemma Decimal_le a b : a ≤ b → Qcle (Decimal a) (Decimal b).
Proof. intros H. apply qltb_ge. rewrite Decimal_lt. lia. Qed.

Lemma Decimal_sub a b : (Decimal a - Decimal b)%Qc = Decimal (a - b).
Proof.
  apply Qc_is_canon. unfold Decimal, Qcminus, Qcplus, Qcopp, Q2Qc, this. rewrite !Qred_correct.
  unfold Z.sub. by rewrite inject_Z_plus, inject_Z_opp.
Qed.

Lemma Decimal_add a b : (Decimal a + Decimal b)%Qc = Decimal (a + b).
Proof.
  apply Qc_is_canon. unfold Decimal, Qcplus, Q2Qc, this. rewrite !Qred_correct.
  by rewrite inject_Z_plus.
Qed.
