(* ===== verification/Datasheets.v ===== *)
(** * The provider datasheets and their registry ([core.providers])

    The four datasheets as the modules declare them, with the helpers each uses,
    and the index every lookup goes through. *)

From S2P Require Import Prelude Spec.

Local Open Scope string_scope.

(** ** OpenAI ([core.providers.openai]) *)

Module openai.

Definition _PRICES : Source :=
  mkSrc "https://developers.openai.com/api/docs/models" (Some (2026, 9, 23)) true
    "Reviewed the individual GPT-5, GPT-5.6 and embedding model pages".

Definition _PROMPT_CACHING : Source :=
  mkSrc "https://developers.openai.com/api/docs/guides/prompt-caching" (Some (2026, 9, 15)) true
    "GPT-5.6 and later cache writes are 1.25x uncached input; reads are 0.1x".

Definition _BATCH : Source :=
  mkSrc "https://developers.openai.com/api/docs/guides/batch" (Some (2026, 9, 23)) true
    "Batch processing at 50% of standard token pricing".

Definition _EFFORTS_API : Source :=
  mkSrc "https://api.openai.com/v1/responses" (Some (2026, 9, 2)) true
    "quoted from the provider's own 400 error text; see comment above".

Definition _GPT6_PRICES : Source :=
  mkSrc "https://developers.openai.com/api/docs/pricing" (Some (2026, 9, 22)) true
    "short- and long-context rows for gpt-6-luna, gpt-6-sol and gpt-6-astra".

Definition _GPT6_TIER_TOKENS : Z := 272000.

Definition _EARLIER_GEN : Reasoning :=
  mkReasoning (Some "reasoning_effort") ["minimal"; "low"; "medium"; "high"]
    ["none"; "xhigh"; "max"] (Some "low") _EFFORTS_API.

Definition _5_6_GEN : Reasoning :=
  mkReasoning (Some "reasoning_effort") ["none"; "low"; "medium"; "high"; "xhigh"; "max"]
    ["minimal"] (Some "low") _EFFORTS_API.

Definition _EFFORTS_API_GPT6 : Source :=
  mkSrc "https://api.openai.com/v1/responses" (Some (2026, 9, 22)) true
    "per-model 400 text; an invalid value returns the parameter enum instead".

Definition _6_GEN : Reasoning :=
  mkReasoning (Some "reasoning_effort") ["none"; "low"; "medium"; "high"; "xhigh"; "max"]
    ["minimal"] (Some "low") _EFFORTS_API_GPT6.

Definition _6_ASTRA : Reasoning :=
  mkReasoning (Some "reasoning_effort") ["low"; "medium"; "high"; "xhigh"; "max"]
    ["none"; "minimal"] (Some "low") _EFFORTS_API_GPT6.

Definition _OUTPUT : Output := mkOutput (Some 128000) 6000 (Some "length") false.

Definition _OUTPUT_GPT6 : Output := mkOutput (Some 128000) 6000 (Some "length") false.

Definition _SCHEMA : StructuredOutputSpec := mkStructured JSON_SCHEMA false true true.

Definition _rates (rin rout rcached cache_write_multiplier : Qc) : Rates :=
  mkRates [mkTier None rin rout (Some rcached) (Some (rin * cache_write_multiplier)%Qc)]
    (Some (dec 5 1)) _PRICES (Some _BATCH) (Some _PROMPT_CACHING) None [] None.

Definition _gpt6_rates (lo_in lo_out lo_cached hi_in hi_out hi_cached : Qc) : Rates :=
  mkRates
    [mkTier (Some _GPT6_TIER_TOKENS) lo_in lo_out (Some lo_cached) (Some (lo_in * dec 125 2)%Qc);
     mkTier None hi_in hi_out (Some hi_cached) (Some (hi_in * dec 125 2)%Qc)]
    (Some (dec 5 1)) _GPT6_PRICES (Some _GPT6_PRICES) (Some _PROMPT_CACHING) None [] None.

Definition _long_context_rates (name : string) (lo_in lo_out lo_cached hi_in hi_out hi_cached : Qc)
    : Rates :=
  let r := _gpt6_rates lo_in lo_out lo_cached hi_in hi_out hi_cached in
  mkRates (tiers r) (batch_rate r)
    (mkSrc ("https://developers.openai.com/api/docs/models/" ++ name) (Some (2026, 9, 23)) true "")
    (Some _BATCH) (cache_write_source r) (off_peak_multiplier r) (peak_windows r)
    (off_peak_source r).

Definition PROVIDER : Provider :=
  mkProvider "openai" OPENAI_RESPONSES None "OPENAI_API_KEY" false (Some "/v1/responses")
    [mkModel "gpt-5-nano" "Small previous-generation model; check task quality evidence"
       (Some 400000) _SCHEMA (_rates (dec 5 2) (dec 40 2) (dec 5 3) (Decimal 1)) _EARLIER_GEN
       _OUTPUT true None None None None;
     mkModel "gpt-5-mini" "Better judgment on nuanced criteria"
       (Some 400000) _SCHEMA (_rates (dec 25 2) (dec 200 2) (dec 25 3) (Decimal 1)) _EARLIER_GEN
       _OUTPUT true None None None None;
     mkModel "gpt-5" "Strong general model"
       (Some 400000) _SCHEMA (_rates (dec 125 2) (dec 1000 2) (dec 125 3) (Decimal 1)) _EARLIER_GEN
       _OUTPUT true None None None None;
     mkModel "gpt-5.6-luna" "GPT-5.6 small model, fast and cheap"
       (Some 1050000) _SCHEMA
       (_long_context_rates "gpt-5.6-luna" (dec 20 2) (dec 120 2) (dec 20 3)
          (dec 40 2) (dec 180 2) (dec 40 3))
       _5_6_GEN _OUTPUT true (Some true) None None None;
     mkModel "gpt-5.6-terra" "GPT-5.6 mid-tier, strong quality"
       (Some 1050000) _SCHEMA
       (_long_context_rates "gpt-5.6-terra" (dec 200 2) (dec 1200 2) (dec 200 3)
          (dec 400 2) (dec 1800 2) (dec 400 3))
       _5_6_GEN _OUTPUT true None None None None;
     mkModel "text-embedding-3-small" "Embeddings; not a chat model"
       None (mkStructured NONE false false false)
       (_rates (dec 2 2) (dec 0 2) (dec 2 2) (Decimal 1))
       (mkReasoning None [] [] None _PRICES)
       (mkOutput None 0 None false) false None None None None;
     mkModel "gpt-5.6-sol" "GPT-5.6 flagship"
       (Some 1050000) _SCHEMA
       (_long_context_rates "gpt-5.6-sol" (dec 400 2) (dec 2000 2) (dec 400 3)
          (dec 800 2) (dec 3000 2) (dec 800 3))
       _5_6_GEN _OUTPUT true None None None None;
     mkModel "gpt-6-luna" "GPT-6 small: cheapest of the generation"
       (Some 1050000) _SCHEMA
       (_gpt6_rates (dec 10 2) (dec 50 2) (dec 1 2) (dec 20 2) (dec 75 2) (dec 2 2))
       _6_GEN _OUTPUT_GPT6 true (Some true) None None None;
     mkModel "gpt-6-sol" "GPT-6 mid-tier"
       (Some 1050000) _SCHEMA
       (_gpt6_rates (dec 200 2) (dec 1000 2) (dec 20 2) (dec 400 2) (dec 1500 2) (dec 40 2))
       _6_GEN _OUTPUT_GPT6 true (Some true) None None None;
     mkModel "gpt-6-astra" "GPT-6 flagship, highest cost"
       (Some 1050000) _SCHEMA
       (_gpt6_rates (dec 1000 2) (dec 5000 2) (dec 100 2) (dec 2000 2) (dec 7500 2) (dec 200 2))
       _6_ASTRA _OUTPUT_GPT6 true (Some true) None None None]
    (mkSrc "" None false "transport facts are from this codebase's own working integration")
    ["billing hard limit has been reached"; "billing_hard_limit_reached"; "insufficient_quota";
     "exceeded your current quota"; "billing_not_active"; "please check your billing details"].

End openai.

(** ** xAI ([core.providers.xai]) *)

Module xai.

Definition _DOCS : Source :=
  mkSrc "https://docs.x.ai/developers/pricing" (Some (2026, 9, 23)) true
    "vendor model page; the page itself carries no last-updated date".

Definition _MODEL_API : Source :=
  mkSrc "https://api.x.ai/v1/models" (Some (2026, 9, 23)) true
    "Read-only capability enumeration; preserve the application's low-effort default".

Definition _TIER_TOKENS : Z := 199999.

Definition _BATCH : Source :=
  mkSrc "https://docs.x.ai/developers/advanced-api-usage/batch-api" (Some (2026, 9, 23)) true
    "20% discount only for grok-4.3 and the three grok-4.20-0309 variants".

Definition _SCHEMA : StructuredOutputSpec := mkStructured JSON_SCHEMA false false false.

Definition _rates (lo_in lo_out lo_cached hi_in hi_out hi_cached : Qc) (batch : option Qc) : Rates :=
  mkRates
    [mkTier (Some _TIER_TOKENS) lo_in lo_out (Some lo_cached) None;
     mkTier None hi_in hi_out (Some hi_cached) None]
    batch _DOCS (Some _BATCH) None None [] None.

Definition _output : Output := mkOutput None 6000 (Some "length") false.

Definition _EFFORT_4_3 : Reasoning :=
  mkReasoning (Some "reasoning_effort") ["none"; "low"; "medium"; "high"; "xhigh"]
    ["minimal"; "max"] (Some "low") _MODEL_API.

Definition _EFFORT_4_5_AND_4_6 : Reasoning :=
  mkReasoning (Some "reasoning_effort") ["low"; "medium"; "high"; "xhigh"]
    ["none"; "minimal"; "max"] (Some "low") _MODEL_API.

Definition _EFFORT_4_7 : Reasoning :=
  mkReasoning (Some "reasoning_effort") ["low"; "medium"; "high"; "xhigh"]
    ["none"; "minimal"; "max"] (Some "low")
    (mkSrc "https://docs.x.ai/developers/models/grok-4.7" (Some (2026, 9, 23)) true "").

Definition _UNVERIFIED_EFFORT : Reasoning :=
  mkReasoning (Some "reasoning_effort") [] [] None
    (mkSrc "https://docs.x.ai/developers/models/grok-build-0.1" (Some (2026, 9, 23)) true
       "No accepted effort enum is published; omit the parameter").

Definition PROVIDER : Provider :=
  mkProvider "xai" OPENAI_CHAT (Some "https://api.x.ai/v1") "XAI_API_KEY" true (Some "/v1/batches")
    [mkModel "grok-4.3" "Cheapest Grok; 1M context" (Some 1000000) _SCHEMA
       (_rates (dec 125 2) (dec 250 2) (dec 20 2) (dec 250 2) (dec 500 2) (dec 40 2) (Some (dec 8 1)))
       _EFFORT_4_3 _output true None (Some true) None None;
     mkModel "grok-4.5" "Stronger; 500K context" (Some 500000) _SCHEMA
       (_rates (dec 200 2) (dec 600 2) (dec 30 2) (dec 400 2) (dec 1200 2) (dec 60 2) None)
       _EFFORT_4_5_AND_4_6 _output true None (Some false) None None;
     mkModel "grok-4.6" "Previous flagship; 500K context" (Some 500000) _SCHEMA
       (_rates (dec 200 2) (dec 600 2) (dec 50 2) (dec 400 2) (dec 1200 2) (dec 100 2) None)
       _EFFORT_4_5_AND_4_6 _output true None (Some false) None None;
     mkModel "grok-4.7" "Current flagship; no Batch API support" (Some 500000) _SCHEMA
       (_rates (Decimal 2) (Decimal 6) (dec 5 1) (Decimal 4) (Decimal 12) (Decimal 1) None)
       _EFFORT_4_7 _output true None (Some false) None None;
     mkModel "grok-build-0.1" "Coding and workflow model; no Batch API support" (Some 256000) _SCHEMA
       (_rates (Decimal 1) (Decimal 2) (dec 2 1) (Decimal 2) (Decimal 4) (dec 4 1) None)
       _UNVERIFIED_EFFORT _output true None (Some false) None None;
     mkModel "grok-4.20-0309-reasoning" "Pinned Grok 4.20 reasoning; vendor batch discount 20%"
       (Some 1000000) _SCHEMA
       (_rates (dec 125 2) (dec 250 2) (dec 20 2) (dec 250 2) (dec 500 2) (dec 40 2) (Some (dec 8 1)))
       _UNVERIFIED_EFFORT _output true None (Some true) None None;
     mkModel "grok-4.20-0309-non-reasoning"
       "Pinned Grok 4.20 non-reasoning; vendor batch discount 20%" (Some 1000000) _SCHEMA
       (_rates (dec 125 2) (dec 250 2) (dec 20 2) (dec 250 2) (dec 500 2) (dec 40 2) (Some (dec 8 1)))
       (mkReasoning None [] [] None _MODEL_API) _output true None (Some true) None None]
    _DOCS [].

End xai.

(** ** Anthropic ([core.providers.anthropic]) *)

Module anthropic.

Definition _PRICES : Source :=
  mkSrc "https://platform.claude.com/docs/en/about-claude/pricing" (Some (2026, 9, 23)) true
    "Direct global API prices; cache and batch discounts stack".

Definition _BATCH : Source :=
  mkSrc "https://platform.claude.com/docs/en/build-with-claude/batch-processing"
    (Some (2026, 9, 23)) true "Message Batches at 50%; requires a separate collector".

Definition _EFFORT : Reasoning :=
  mkReasoning (Some "effort") ["low"; "medium"; "high"; "xhigh"; "max"] [] None
    (mkSrc "https://platform.claude.com/docs/en/build-with-claude/effort" (Some (2026, 9, 23)) true "").

Definition _OUTPUT : Output := mkOutput (Some 128000) 4000 (Some "max_tokens") false.

Definition _SCHEMA : StructuredOutputSpec := mkStructured JSON_SCHEMA false false false.

Definition _PRICES_1030 : Source :=
  mkSrc (src_url _PRICES) (Some (2026, 10, 30)) (src_vendor _PRICES) (src_note _PRICES).

Definition _WRITE_1H : Qc := Decimal 2.

Definition _rates (rin rout rcached : Qc) (src : Source) : Rates :=
  mkRates [mkTier None rin rout (Some rcached) (Some (rin * _WRITE_1H)%Qc)]
    (Some (dec 5 1)) src (Some _BATCH) None None [] None.

Definition _MODELS : Source :=
  mkSrc "https://platform.claude.com/docs/en/models/overview" (Some (2026, 9, 23)) true "".

Definition _HAIKU_EFFORT : Reasoning := mkReasoning None [] [] None _MODELS.

Definition _HAIKU_OUTPUT : Output := mkOutput (Some 64000) 4000 (Some "max_tokens") false.

Definition _API_MODELS : Source :=
  mkSrc "https://api.anthropic.com/v1/models" (Some (2026, 9, 23)) true
    "Read-only model catalog: limits, effort levels and structured-output support".

Definition _EFFORT_46 : Reasoning :=
  mkReasoning (Some "effort") ["low"; "medium"; "high"; "max"] ["xhigh"] None _API_MODELS.

Definition _EFFORT_45 : Reasoning :=
  mkReasoning (Some "effort") ["low"; "medium"; "high"] ["xhigh"; "max"] None _API_MODELS.

Definition _current (name note : string) (rin rout cached : Qc) (src : Source) : Model :=
  mkModel name note (Some 1000000) _SCHEMA (_rates rin rout cached src) _EFFORT _OUTPUT true None
    (Some true) (Some (rin * dec 125 2)%Qc) (Some (rin * Decimal 2)%Qc).

Definition PROVIDER : Provider :=
  mkProvider "anthropic" ANTHROPIC_MESSAGES None "ANTHROPIC_API_KEY" false
    (Some "/v1/messages/batches")
    [mkModel "claude-opus-5" "Previous Opus generation; existing default preserved"
       (Some 1000000) _SCHEMA (_rates (dec 500 2) (dec 2500 2) (dec 500 3) _PRICES) _EFFORT
       _OUTPUT true None (Some true) (Some (dec 625 2)) (Some (Decimal 10));
     mkModel "claude-sonnet-5" "Strong quality at lower cost"
       (Some 1000000) _SCHEMA (_rates (dec 200 2) (dec 1000 2) (dec 200 3) _PRICES) _EFFORT
       _OUTPUT true None (Some true) (Some (dec 25 1)) (Some (Decimal 4));
     mkModel "claude-haiku-4-5" "Fast and cheap for simple filters"
       (Some 200000) _SCHEMA (_rates (dec 100 2) (dec 500 2) (dec 100 3) _PRICES) _HAIKU_EFFORT
       _HAIKU_OUTPUT true None (Some true) (Some (dec 125 2)) (Some (Decimal 2));
     _current "claude-opus-5-5" "Current Opus; adaptive thinking always on"
       (Decimal 4) (Decimal 20) (dec 2 1) _PRICES;
     _current "claude-sonnet-5-5" "Current Sonnet" (Decimal 2) (Decimal 10) (dec 1 1) _PRICES_1030;
     mkModel "claude-haiku-5-5" "Current Haiku; batched, priced like gpt-6-luna"
       (Some 1000000) _SCHEMA
       (mkRates
          [mkTier (Some 100000) (dec 10 2) (dec 50 2) (Some (dec 1 2)) (Some (dec 20 2));
           mkTier None (dec 50 2) (dec 250 2) (Some (dec 5 2)) (Some (dec 100 2))]
          (Some (dec 5 1)) _PRICES_1030 (Some _BATCH) None None [] None)
       _EFFORT _OUTPUT true None (Some true) (Some (dec 125 3)) (Some (dec 20 2));
     _current "claude-fable-5-1" "Frontier reasoning; adaptive thinking always on"
       (Decimal 10) (Decimal 50) (dec 25 2) _PRICES;
     _current "claude-fable-5" "Previous Fable generation"
       (Decimal 10) (Decimal 50) (Decimal 1) _PRICES;
     _current "claude-opus-4-8" "Legacy Opus 4.8; 1M context"
       (Decimal 5) (Decimal 25) (dec 5 1) _PRICES;
     _current "claude-opus-4-7" "Legacy Opus 4.7; 1M context"
       (Decimal 5) (Decimal 25) (dec 5 1) _PRICES;
     with_reasoning _EFFORT_46
       (_current "claude-opus-4-6" "Legacy Opus 4.6; 1M context"
          (Decimal 5) (Decimal 25) (dec 5 1) _PRICES);
     with_reasoning _EFFORT_46
       (_current "claude-sonnet-4-6" "Legacy Sonnet 4.6; 1M context"
          (Decimal 3) (Decimal 15) (dec 3 1) _PRICES);
     with_reasoning _EFFORT_45 (with_limits (Some 200000) _HAIKU_OUTPUT
       (_current "claude-opus-4-5-20251101" "Pinned legacy Opus 4.5"
          (Decimal 5) (Decimal 25) (dec 5 1) _PRICES));
     with_reasoning _HAIKU_EFFORT (with_limits (Some 200000) _HAIKU_OUTPUT
       (_current "claude-sonnet-4-5-20250929" "Pinned legacy Sonnet 4.5; standard 200K context"
          (Decimal 3) (Decimal 15) (dec 3 1) _PRICES));
     mkModel "claude-haiku-4-5-20251001" "Pinned Haiku 4.5 snapshot; no effort parameter"
       (Some 200000) _SCHEMA (_rates (Decimal 1) (Decimal 5) (dec 1 1) _PRICES) _HAIKU_EFFORT
       _HAIKU_OUTPUT true None (Some true) (Some (dec 125 2)) (Some (Decimal 2))]
    _MODELS ["credit balance is too low"; "billing_error"].

End anthropic.

(** ** DeepSeek ([core.providers.deepseek]) *)

Module deepseek.

Definition _PRICING : Source :=
  mkSrc "https://api-docs.deepseek.com/quick_start/pricing" (Some (2026, 9, 23)) true
    "peak rates; off-peak is exactly half - see PEAK_WINDOWS".

Definition _PROBE : Source :=
  mkSrc "https://api.deepseek.com/chat/completions" (Some (2026, 9, 2)) true
    "established by live probe; provider error text quoted verbatim below".

Definition _WEEKDAYS : list Z := [1; 2; 3; 4; 5].

Definition _PEAK_WINDOWS : list PeakWindow :=
  [mkPeakWindow _WEEKDAYS 1 4; mkPeakWindow _WEEKDAYS 6 10].

Definition _OFF_PEAK : Source :=
  mkSrc "https://api-docs.deepseek.com/quick_start/pricing" (Some (2026, 9, 2)) true
    ("'Off-peak rates are half of the peak rates. Peak hours are 01:00 - 04:00 " ++
     "and 06:00 - 10:00 UTC, Monday through Friday (all other hours are " ++
     "off-peak).' Quoted from the vendor page.").

Definition _SCHEMA : StructuredOutputSpec := mkStructured JSON_OBJECT true false false.

Definition _REASONING : Reasoning :=
  mkReasoning (Some "reasoning_effort") ["minimal"; "low"; "medium"; "high"; "none"] []
    (Some "low") _PROBE.

Definition _OUTPUT : Output := mkOutput (Some 384000) 6000 (Some "length") false.

Definition _rates (rin rout rcached : Qc) : Rates :=
  mkRates [mkTier None rin rout (Some rcached) None] None _PRICING None None (Some (dec 5 1))
    _PEAK_WINDOWS (Some _OFF_PEAK).

Definition PROVIDER : Provider :=
  mkProvider "deepseek" OPENAI_CHAT (Some "https://api.deepseek.com") "DEEPSEEK_API_KEY" true None
    [mkModel "deepseek-v4-flash" "Legacy alias now served and billed as DeepSeek V4.1 Flash"
       (Some 1000000) _SCHEMA (_rates (dec 30 2) (dec 120 2) (dec 6 3)) _REASONING _OUTPUT true
       None None None None;
     mkModel "deepseek-v4-pro" "DeepSeek V4 Pro 0813; off-peak pricing available"
       (Some 1000000) _SCHEMA (_rates (dec 132 2) (dec 396 2) (dec 44 3)) _REASONING _OUTPUT true
       None None None None;
     mkModel "deepseek-v4-flash-vision-exp"
       "Legacy vision alias now served and billed as DeepSeek V4.1 Flash"
       (Some 1000000) _SCHEMA (_rates (dec 30 2) (dec 120 2) (dec 6 3)) _REASONING _OUTPUT true
       None None None None;
     mkModel "deepseek-flash" "Current DeepSeek V4.1 Flash; text and vision, off-peak pricing"
       (Some 1000000) _SCHEMA (_rates (dec 30 2) (dec 120 2) (dec 6 3)) _REASONING _OUTPUT true
       None (Some false) None None]
    _PROBE ["insufficient balance"].

End deepseek.

(** ** The registry ([core.providers.__init__]) *)

Definition PROVIDERS : list Provider :=
  [openai.PROVIDER; anthropic.PROVIDER; xai.PROVIDER; deepseek.PROVIDER].

Abbreviation index := (gmap string (string * Model)).

(** Adding one model to the index; a second declaration of a name raises
    [ValueError]. *)
Definition index_add (provider : string) (out : result string index) (m : Model)
    : result string index :=
  (do i <- out;;
   match i !! m_name m with
   | Some (p, _) =>
       Err ("model '" ++ m_name m ++ "' is declared by both " ++ p ++ " and " ++ provider)
   | None => Ok (<[m_name m := (provider, m)]> i)
   end)%js.

Definition _index (ps : list Provider) : result string index :=
  foldl (λ out p, foldl (index_add (p_name p)) out (models p)) (Ok ∅) ps.

Definition registry : result string index := _index PROVIDERS.

Definition MODELS : index :=
  match registry with
  | Ok i => i
  | Err _ => ∅
  end.

(** [PROVIDERS.get(name)]: provider names are distinct. *)
Definition provider_named (ps : list Provider) (name : string) : option Provider :=
  find (λ p, String.eqb (p_name p) name) ps.

Definition model (i : index) (name : string) : option Model := snd <$> i !! name.

Definition provider_of (i : index) (name : string) : option string := fst <$> i !! name.

(** ** Lemmas *)

(** What the datasheets declare, in order. *)
Definition entries (ps : list Provider) : list (string * Model) :=
  ps ≫= λ p, (λ m, (p_name p, m)) <$> models p.

Definition entry_name (e : string * Model) : string := m_name e.2.

Definition entry_add (out : result string index) (e : string * Model) : result string index :=
  index_add e.1 out e.2.

Lemma index_entries ps : _index ps = foldl entry_add (Ok ∅) (entries ps).
Proof.
  unfold _index, entries. generalize (Ok (E := string) (∅ : index)).
  induction ps as [|p ps IH]; intros out; [done|]. csimpl. rewrite foldl_app, IH. f_equal.
  clear. revert out. induction (models p) as [|m l IH]; intros out; csimpl; [done|by rewrite IH].
Qed.

Lemma index_err e l : foldl entry_add (Err e) l = Err e.
Proof. by induction l. Qed.

Lemma index_fold l i0 :
  match foldl entry_add (Ok i0) l with
  | Ok i =>
      NoDup (entry_name <$> l) ∧ (∀ e, e ∈ l → i0 !! entry_name e = None) ∧
      ∀ n e, i !! n = Some e ↔ i0 !! n = Some e ∨ (e ∈ l ∧ entry_name e = n)
  | Err _ => ¬ NoDup (entry_name <$> l) ∨ ∃ e, e ∈ l ∧ is_Some (i0 !! entry_name e)
  end.
Proof.
  revert i0. induction l as [|e l IH]; intros i0; [simpl; set_solver by constructor|].
  rewrite fmap_cons. change (foldl entry_add (Ok i0) (e :: l))
    with (foldl entry_add (index_add e.1 (Ok i0) e.2) l).
  unfold index_add. simpl rbind.
  destruct (i0 !! m_name e.2) as [[p m]|] eqn:E.
  - rewrite index_err. right. exists e. split; [by left|by eexists].
  - assert (∀ e', <[m_name e.2 := (e.1, e.2)]> i0 !! entry_name e' =
      if decide (entry_name e' = entry_name e) then Some e else i0 !! entry_name e') as Hins.
    { intros e'. unfold entry_name. destruct e as [q m]; simpl. case_decide as Heq.
      - rewrite Heq. apply lookup_insert_eq.
      - by apply lookup_insert_ne. }
    specialize (IH (<[m_name e.2 := (e.1, e.2)]> i0)).
    destruct (foldl entry_add _ l) as [i|err]; cbv beta iota in IH |- *.
    + destruct IH as (Hnd & Hfree & Hi). split_and!.
      * apply NoDup_cons. split; [|done]. intros (e' & Hn & He')%list_elem_of_fmap.
        specialize (Hfree e' He'). rewrite Hins, decide_True in Hfree by done. done.
      * intros e' [->|He']%elem_of_cons; [done|]. specialize (Hfree e' He').
        rewrite Hins in Hfree. by case_decide.
      * intros n e'. rewrite Hi, elem_of_cons, lookup_insert_Some.
        destruct e as [q m]; unfold entry_name in *; simpl in *. split.
        -- intros [[[<- <-]|[_ ?]]|[? ?]]; auto.
        -- intros [Hn|[[->| ?] <-]]; auto.
           destruct (decide (m_name m = n)) as [<-|?]; [congruence|auto].
    + destruct IH as [Hnd|(e' & He' & Hs)]; [left|].
      * intros [_ ?]%NoDup_cons. done.
      * rewrite Hins in Hs. case_decide as Hn.
        -- left. intros [Hnin _]%NoDup_cons. apply Hnin. rewrite <- Hn.
           by apply list_elem_of_fmap_2.
        -- right. exists e'. split; [by right|done].
Qed.

Lemma registry_built : is_ok registry = true → registry = Ok MODELS.
Proof. unfold MODELS. by destruct registry. Qed.

Lemma elem_of_entries ps p m :
  (p, m) ∈ entries ps ↔ ∃ pr, pr ∈ ps ∧ p_name pr = p ∧ m ∈ models pr.
Proof.
  unfold entries. rewrite list_elem_of_bind. split.
  - intros (pr & Hm & Hpr). apply list_elem_of_fmap in Hm as (m' & [= -> ->] & Hm). eauto.
  - intros (pr & Hpr & <- & Hm). exists pr. split; [|done].
    by apply (list_elem_of_fmap_2 (λ m, (p_name pr, m))).
Qed.

Lemma index_lookup ps i n p m :
  _index ps = Ok i →
  i !! n = Some (p, m) ↔ m_name m = n ∧ ∃ pr, pr ∈ ps ∧ p_name pr = p ∧ m ∈ models pr.
Proof.
  rewrite index_entries. intros E. pose proof (index_fold (entries ps) ∅) as H. rewrite E in H.
  destruct H as (_ & _ & Hi). rewrite Hi, lookup_empty, elem_of_entries. unfold entry_name. naive_solver.
Qed.
