(* ===== verification/Pricing.v ===== *)
(** * Pricing model calls ([core.pricing], [core.batch_capabilities])

    One formula in two renderings: [estimate_cost_usd], and [cost_sql] as the SQL
    expression it builds, with SQL's NULLs. Token counts are integers, embedded
    in the decimals by [Decimal]; an instant is microseconds since 1970-01-01
    00:00 UTC. *)

From S2P Require Import Prelude Spec Datasheets.

Definition _PER_MTOK : Qc := Decimal 1000000.

Definition rates_for (i : index) (name : option string) : option Rates :=
  m_rates <$> model i (default ""%string name).

(** The first tier the prompt fits in, else the last. No datasheet has an empty
    tuple of tiers, whose [tiers[-1]] would raise. *)
Definition _tier_for (r : Rates) (prompt_tokens : Z) : option Tier :=
  match find (λ t, match up_to_prompt_tokens t with
                   | None => true
                   | Some up => prompt_tokens <=? up
                   end) (tiers r) with
  | Some t => Some t
  | None => last (tiers r)
  end.

Definition cached_rate (t : Tier) : Qc := default (rate_in t) (rate_cached_in t).

Definition cache_write_rate (t : Tier) : option Qc := rate_cache_write_in t.

(** ** Wall clocks *)

Definition MICROS_PER_HOUR : Z := 3600 * 1000000.
Definition MICROS_PER_DAY : Z := 24 * MICROS_PER_HOUR.

(** [utc.isoweekday()]: 1970-01-01 was a Thursday. *)
Definition isoweekday (at_ : Z) : Z := (at_ / MICROS_PER_DAY + 3) mod 7 + 1.

Definition utc_hour (at_ : Z) : Z := (at_ mod MICROS_PER_DAY) / MICROS_PER_HOUR.

Definition in_window (at_ : Z) (w : PeakWindow) : bool :=
  mem (isoweekday at_) (isodows w) &&
  (start_hour_utc w <=? utc_hour at_) && (utc_hour at_ <? end_hour_utc w).

Definition is_off_peak (r : Rates) (at_ : option Z) : bool :=
  match at_, peak_windows r, off_peak_multiplier r with
  | None, _, _ | _, [], _ | _, _, None => false
  | Some t, ws, Some _ => negb (existsb (in_window t) ws)
  end.

(** ** The estimate *)

(** The argument [cache_write_tokens]: left out, or what a receipt says. *)
Inductive cache_writes : Type :=
| Unspecified
| Receipt (tokens : option Z).

Definition or_zero (o : option Z) : Z := default 0 o.

(** The tokens of a call that are written to the cache, or [None] when the price
    of the call is unknown. *)
Definition cache_write_tokens (t : Tier) (remaining : Z) (cw : cache_writes) : option Z :=
  match cw with
  | Unspecified =>
      Some (match cache_write_rate t with Some _ => remaining | None => 0 end)
  | Receipt None =>
      match cache_write_rate t with
      | Some wr => if bool_decide (wr = rate_in t) then Some 0 else None
      | None => Some 0
      end
  | Receipt (Some n) => Some (Z.min (Z.max n 0) remaining)
  end.

Definition token_cost (t : Tier) (ordinary cached write completion : Z) : Qc :=
  ((Decimal ordinary * rate_in t + Decimal cached * cached_rate t
    + Decimal write * default (rate_in t) (cache_write_rate t)
    + Decimal completion * rate_out t) / _PER_MTOK)%Qc.

Definition discounted (r : Rates) (batched : bool) (at_ : option Z) (cost : Qc) : Qc :=
  let cost := match batched, batch_rate r with
              | true, Some b => (cost * b)%Qc
              | _, _ => cost
              end in
  match is_off_peak r at_, off_peak_multiplier r with
  | true, Some m => (cost * m)%Qc
  | _, _ => cost
  end.

Definition estimate_rates (r : Rates) (prompt_tokens completion_tokens cached_tokens : option Z)
    (batched : bool) (at_ : option Z) (cw : cache_writes) : option Qc :=
  let prompt := Z.max (or_zero prompt_tokens) 0 in
  let completion := Z.max (or_zero completion_tokens) 0 in
  let cached := Z.min (Z.max (or_zero cached_tokens) 0) prompt in
  let remaining := Z.max (prompt - cached) 0 in
  match _tier_for r prompt with
  | None => None
  | Some t =>
      match cache_write_tokens t remaining cw with
      | None => None
      | Some write =>
          match cache_write_rate t with
          | None =>
              if write =? 0 then
                Some (discounted r batched at_ (token_cost t (remaining - write) cached write completion))
              else None
          | Some _ =>
              Some (discounted r batched at_ (token_cost t (remaining - write) cached write completion))
          end
      end
  end.

Definition estimate_cost_usd (i : index) (name : option string)
    (prompt_tokens completion_tokens cached_tokens : option Z) (batched : bool) (at_ : option Z)
    (cw : cache_writes) : option Qc :=
  match rates_for i name with
  | None => None
  | Some r => estimate_rates r prompt_tokens completion_tokens cached_tokens batched at_ cw
  end.

(** ** The same formula as a SQL expression *)

(** The expressions [cost_sql] writes, with the caller's column names and
    placeholders as leaves. *)
Inductive sexp : Type :=
| SRef (name : string)
| SNum (q : Qc)
| SCoalesce (a b : sexp)
| SGreatest (a b : sexp)
| SLeast (a b : sexp)
| SAdd (a b : sexp)
| SSub (a b : sexp)
| SMul (a b : sexp)
| SDiv (a b : sexp)
| SCase (c : scond) (a b : sexp)
| SNull
with scond : Type :=
| CRef (name : string)
| CGt (a b : sexp)
| CNe (a b : sexp)
| CIsNull (a : sexp)
| CNotNull (a : sexp)
| CAnd (a b : scond)
| COr (a b : scond).

Definition strict2 {A} (f : Qc → Qc → A) (a b : option Qc) : option A :=
  match a, b with
  | Some x, Some y => Some (f x y)
  | _, _ => None
  end.

(** GREATEST and LEAST ignore NULLs. *)
Definition extremum (better : Qc → Qc → bool) (a b : option Qc) : option Qc :=
  match a, b with
  | Some x, Some y => Some (if better y x then y else x)
  | Some x, None => Some x
  | None, _ => b
  end.

(** Three-valued conjunction and disjunction. *)
Definition and3 (a b : option bool) : option bool :=
  match a, b with
  | Some false, _ | _, Some false => Some false
  | Some true, Some true => Some true
  | _, _ => None
  end.

Definition or3 (a b : option bool) : option bool :=
  match a, b with
  | Some true, _ | _, Some true => Some true
  | Some false, Some false => Some false
  | _, _ => None
  end.

Record row : Type := mkRow {
  num : string → option Qc;
  flag : string → option bool;
}.

Fixpoint eval (e : row) (x : sexp) : option Qc :=
  match x with
  | SRef n => num e n
  | SNum q => Some q
  | SCoalesce a b => match eval e a with Some v => Some v | None => eval e b end
  | SGreatest a b => extremum (λ y x, qltb x y) (eval e a) (eval e b)
  | SLeast a b => extremum qltb (eval e a) (eval e b)
  | SAdd a b => strict2 Qcplus (eval e a) (eval e b)
  | SSub a b => strict2 Qcminus (eval e a) (eval e b)
  | SMul a b => strict2 Qcmult (eval e a) (eval e b)
  | SDiv a b => strict2 Qcdiv (eval e a) (eval e b)
  | SCase c a b => match ceval e c with Some true => eval e a | _ => eval e b end
  | SNull => None
  end
with ceval (e : row) (c : scond) : option bool :=
  match c with
  | CRef n => flag e n
  | CGt a b => strict2 (λ x y, qltb y x) (eval e a) (eval e b)
  | CNe a b => strict2 (λ x y, negb (bool_decide (x = y))) (eval e a) (eval e b)
  | CIsNull a => Some (match eval e a with None => true | Some _ => false end)
  | CNotNull a => Some (match eval e a with None => false | Some _ => true end)
  | CAnd a b => and3 (ceval e a) (ceval e b)
  | COr a b => or3 (ceval e a) (ceval e b)
  end.

(** GREATEST(COALESCE(x, 0), 0). *)
Definition non_negative (x : sexp) : sexp := SGreatest (SCoalesce x (SNum (Decimal 0))) (SNum (Decimal 0)).

Definition cost_sql (model_rate_in model_rate_out model_rate_cached_in batch_rate : sexp)
    (model_rate_cache_write_in : option sexp) (prompt completion cached : sexp)
    (cache_write : option sexp) (batched : scond) : sexp :=
  let p := non_negative prompt in
  let c := non_negative completion in
  let k := SCoalesce cached (SNum (Decimal 0)) in
  let cached_part := SLeast (SGreatest k (SNum (Decimal 0))) p in
  let remaining := SGreatest (SSub p cached_part) (SNum (Decimal 0)) in
  let '(write_part, write_rate, unknown) :=
    match cache_write with
    | None => (SNum (Decimal 0), model_rate_in, None)
    | Some w =>
        let write_part := SLeast (non_negative w) remaining in
        match model_rate_cache_write_in with
        | None => (write_part, model_rate_in, Some (CGt write_part (SNum (Decimal 0))))
        | Some rate =>
            (write_part, SCoalesce rate model_rate_in,
             Some (COr (CAnd (CIsNull w) (CAnd (CNotNull rate) (CNe rate model_rate_in)))
                       (CAnd (CGt write_part (SNum (Decimal 0))) (CIsNull rate))))
        end
    end in
  let ordinary := SSub remaining write_part in
  let expression :=
    SMul
      (SDiv
         (SAdd (SAdd (SAdd (SMul ordinary model_rate_in) (SMul cached_part model_rate_cached_in))
                  (SMul write_part write_rate))
            (SMul c model_rate_out))
         (SNum _PER_MTOK))
      (SCase batched batch_rate (SNum (Decimal 1))) in
  match unknown with
  | None => expression
  | Some u => SCase u SNull expression
  end.

(** ** Batch availability *)

Definition vendor_support (ps : list Provider) (i : index) (name : string) : option bool :=
  match model i name, provider_of i name with
  | Some declared, Some provider =>
      match batch_supported declared with
      | Some b => Some b
      | None =>
          if String.eqb provider "openai" then
            match provider_named ps provider with
            | Some p => Some (match batch_endpoint p with Some _ => true | None => false end)
            | None => None
            end
          else None
      end
  | _, _ => None
  end.

Definition unavailable_reason (ps : list Provider) (i : index) (name : string) : option string :=
  match provider_of i name with
  | None => Some "model is not declared"%string
  | Some provider =>
      match provider_named ps provider with
      | None => None
      | Some p =>
          match batch_endpoint p with
          | None => Some "provider has no batch endpoint"%string
          | Some _ =>
              match vendor_support ps i name with
              | Some false => Some "provider does not support batching this model"%string
              | None => Some "batch support for this model is unverified"%string
              | Some true =>
                  if mem provider ["openai"; "anthropic"]%string then None
                  else Some
                    "provider batch transport is not implemented in this application"%string
              end
          end
      end
  end.

(** ** Rates a datasheet may declare

    Non-negative rates whose cache reads never cost more than plain input and
    whose cache writes never cost less, and discounts between 0 and 1. *)

Definition tier_sound (t : Tier) : bool :=
  qleb 0%Qc (rate_in t) && qleb 0%Qc (rate_out t) &&
  qleb 0%Qc (cached_rate t) && qleb (cached_rate t) (rate_in t) &&
  match cache_write_rate t with Some w => qleb (rate_in t) w | None => true end.

Definition discount_sound (o : option Qc) : bool :=
  match o with
  | Some d => qleb 0%Qc d && qleb d 1%Qc
  | None => true
  end.

Definition rates_sound (r : Rates) : bool :=
  match tiers r with [] => false | _ => true end &&
  forallb tier_sound (tiers r) && discount_sound (batch_rate r) &&
  discount_sound (off_peak_multiplier r).
