(* ===== verification/PricingProps.v ===== *)
(** * What the prices guarantee

    The two renderings of the formula agree, the registry is sound, and a price
    quoted before a call covers the bill after it. *)

From S2P Require Import Prelude Spec Datasheets Pricing.

#[local] Opaque MODELS registry.

(** What [cost_sql]'s caller binds for one row: the rates of the tier its prompt
    selects, the batch multiplier (1 without a batch lane) and the row's columns. *)
Definition priced_row (r : Rates) (t : Tier) (prompt completion cached cw : option Z)
    (batched : bool) : row :=
  mkRow
    (λ n,
       match n with
       | "rate_in" => Some (rate_in t)
       | "rate_out" => Some (rate_out t)
       | "rate_cached_in" => Some (cached_rate t)
       | "rate_cache_write_in" => cache_write_rate t
       | "batch_rate" => Some (default (Decimal 1) (batch_rate r))
       | "prompt_tokens" => Decimal <$> prompt
       | "completion_tokens" => Decimal <$> completion
       | "cached_tokens" => Decimal <$> cached
       | "cache_write_tokens" => Decimal <$> cw
       | _ => None
       end%string)
    (λ _, Some batched).

(** The call's expression, with and without a bound write rate and write column. *)
Definition priced_sql (write_rate : bool) (write_column : bool) : sexp :=
  cost_sql (SRef "rate_in") (SRef "rate_out") (SRef "rate_cached_in") (SRef "batch_rate")
    (if write_rate then Some (SRef "rate_cache_write_in") else None)
    (SRef "prompt_tokens") (SRef "completion_tokens") (SRef "cached_tokens")
    (if write_column then Some (SRef "cache_write_tokens") else None) (CRef "batched").

(** ** Lemmas *)

Lemma eval_greatest e x y a b :
  eval e x = Some (Decimal a) → eval e y = Some (Decimal b) →
  eval e (SGreatest x y) = Some (Decimal (Z.max a b)).
Proof.
  intros Hx Hy. simpl. rewrite Hx, Hy. simpl. rewrite Decimal_lt.
  do 2 f_equal. destruct (a <? b) eqn:E; breflect; lia || f_equal; lia.
Qed.

Lemma eval_least e x y a b :
  eval e x = Some (Decimal a) → eval e y = Some (Decimal b) →
  eval e (SLeast x y) = Some (Decimal (Z.min a b)).
Proof.
  intros Hx Hy. simpl. rewrite Hx, Hy. simpl. rewrite Decimal_lt.
  do 2 f_equal. destruct (b <? a) eqn:E; breflect; lia || f_equal; lia.
Qed.

Lemma eval_coalesce e x o :
  eval e x = (Decimal <$> o) → eval e (SCoalesce x (SNum (Decimal 0))) = Some (Decimal (or_zero o)).
Proof. intros H. simpl. rewrite H. by destruct o. Qed.

Lemma eval_non_negative e x o :
  eval e x = (Decimal <$> o) → eval e (non_negative x) = Some (Decimal (Z.max (or_zero o) 0)).
Proof. intros H. apply eval_greatest; [by apply eval_coalesce|done]. Qed.

Lemma eval_sub e x y a b :
  eval e x = Some (Decimal a) → eval e y = Some (Decimal b) →
  eval e (SSub x y) = Some (Decimal (a - b)).
Proof. intros Hx Hy. simpl. by rewrite Hx, Hy, <- Decimal_sub. Qed.

(** The priced part of the expression, once the split of the prompt is known. *)
Lemma eval_body r t po co ko wo b c ordinary cached_part write_part write_rate o k w :
  let e := priced_row r t po co ko wo b in
  eval e ordinary = Some (Decimal o) → eval e cached_part = Some (Decimal k) →
  eval e write_part = Some (Decimal w) → eval e c = Some (Decimal (Z.max (or_zero co) 0)) →
  eval e write_rate = Some (default (rate_in t) (cache_write_rate t)) ∨
    (w = 0 ∧ eval e write_rate = Some (rate_in t)) →
  eval e
    (SMul
       (SDiv
          (SAdd (SAdd (SAdd (SMul ordinary (SRef "rate_in")) (SMul cached_part (SRef "rate_cached_in")))
                   (SMul write_part write_rate))
             (SMul c (SRef "rate_out")))
          (SNum _PER_MTOK))
       (SCase (CRef "batched") (SRef "batch_rate") (SNum (Decimal 1)))) =
  Some (discounted r b None (token_cost t o k w (Z.max (or_zero co) 0))).
Proof.
  intros e Ho Hk Hw Hc Hr. cbn [eval ceval]. rewrite Ho, Hk, Hw, Hc.
  assert (strict2 Qcmult (Some (Decimal w)) (eval e write_rate) =
    Some (Decimal w * default (rate_in t) (cache_write_rate t))%Qc) as ->.
  { destruct Hr as [->|[-> ->]]; [done|]. simpl. change (Decimal 0) with 0%Qc.
    by rewrite !Qcmult_0_l. }
  simpl. unfold discounted, token_cost. simpl. destruct b; [|by rewrite Qcmult_1_r].
  destruct (batch_rate r); [done|]. simpl. by rewrite Qcmult_1_r.
Qed.

(** The prompt's split into cached and remaining tokens, in the expression. *)
Definition sql_cached : sexp :=
  SLeast (SGreatest (SCoalesce (SRef "cached_tokens") (SNum (Decimal 0))) (SNum (Decimal 0)))
    (non_negative (SRef "prompt_tokens")).

Definition sql_remaining : sexp :=
  SGreatest (SSub (non_negative (SRef "prompt_tokens")) sql_cached) (SNum (Decimal 0)).

Lemma eval_split r t po co ko wo b :
  let e := priced_row r t po co ko wo b in
  let p := Z.max (or_zero po) 0 in
  let k := Z.min (Z.max (or_zero ko) 0) p in
  eval e sql_cached = Some (Decimal k) ∧ eval e sql_remaining = Some (Decimal (Z.max (p - k) 0)) ∧
  eval e (SLeast (non_negative (SRef "cache_write_tokens")) sql_remaining) =
    Some (Decimal (Z.min (Z.max (or_zero wo) 0) (Z.max (p - k) 0))).
Proof.
  intros e p k.
  assert (eval e (non_negative (SRef "prompt_tokens")) = Some (Decimal p)) as Hp
    by (by apply eval_non_negative).
  assert (eval e sql_cached = Some (Decimal k)) as Hk.
  { apply eval_least; [|done]. apply eval_greatest; [by apply eval_coalesce|done]. }
  assert (eval e sql_remaining = Some (Decimal (Z.max (p - k) 0))) as Hr
    by (apply eval_greatest; [by apply eval_sub|done]).
  split_and!; [done..|]. apply eval_least; [by apply eval_non_negative|done].
Qed.

Lemma eval_case e c x y :
  eval e (SCase c x y) = match ceval e c with Some true => eval e x | _ => eval e y end.
Proof. done. Qed.

Lemma qltb_zero w : qltb (Decimal 0) (Decimal w) = (0 <? w).
Proof. apply Decimal_lt. Qed.

Lemma ceval_positive e W w :
  eval e W = Some (Decimal w) → 0 ≤ w →
  ceval e (CGt W (SNum (Decimal 0))) = Some (negb (w =? 0)).
Proof. intros HW Hw. cbn [ceval eval]. rewrite HW. simpl. rewrite qltb_zero. f_equal. lia. Qed.

(** When the expression is NULL. *)
Lemma ceval_unknown r t po co ko wo b W w :
  let e := priced_row r t po co ko wo b in
  eval e W = Some (Decimal w) → 0 ≤ w → (wo = None → w = 0) →
  ceval e
    (COr (CAnd (CIsNull (SRef "cache_write_tokens"))
            (CAnd (CNotNull (SRef "rate_cache_write_in"))
               (CNe (SRef "rate_cache_write_in") (SRef "rate_in"))))
       (CAnd (CGt W (SNum (Decimal 0))) (CIsNull (SRef "rate_cache_write_in")))) =
  Some (match wo, cache_write_rate t with
        | None, Some wr => negb (bool_decide (wr = rate_in t))
        | Some _, None => negb (w =? 0)
        | _, _ => false
        end).
Proof.
  intros e HW Hw Hn. cbn [ceval]. rewrite HW. cbn [eval strict2]. rewrite qltb_zero.
  assert ((0 <? w) = negb (w =? 0)) as -> by lia.
  destruct wo as [n|]; simpl; destruct (cache_write_rate t) as [wr|]; simpl.
  - by destruct (w =? 0).
  - by destruct (w =? 0).
  - destruct (bool_decide _); simpl; by destruct (w =? 0).
  - by rewrite (Hn eq_refl).
Qed.

(** Apply [eval_body] and discharge what each leaf evaluates to. *)
Ltac priced :=
  apply eval_body;
  first [ done | by apply eval_sub | by left; simpl; match goal with H : cache_write_rate _ = _ |- _ => rewrite H end
        | by right ].

(** ** Two renderings, one price *)

(** C31: the SQL rendering prices every row as the Python one does. For a row whose
    prompt selects the bound tier, the expression with a write rate and a write
    column equals the estimate from the row's receipt, NULL exactly where the
    estimate is unknown; without a write column it equals the estimate of a
    receipt with no writes; without a write rate to bind, where the tier has
    none, it equals the estimate of that tier. *)
Theorem cost_sql_agrees r t po co ko wo b :
  _tier_for r (Z.max (or_zero po) 0) = Some t →
  eval (priced_row r t po co ko wo b) (priced_sql true true) =
    estimate_rates r po co ko b None (Receipt wo) ∧
  eval (priced_row r t po co ko wo b) (priced_sql true false) =
    estimate_rates r po co ko b None (Receipt (Some 0)) ∧
  (cache_write_rate t = None →
   eval (priced_row r t po co ko wo b) (priced_sql false true) =
     estimate_rates r po co ko b None (Receipt wo)).
Proof.
  intros Ht. destruct (eval_split r t po co ko wo b) as (Hk & Hrem & Hw).
  unfold estimate_rates. cbv zeta. rewrite Ht.
  set (p := Z.max (or_zero po) 0) in *. set (k := Z.min (Z.max (or_zero ko) 0) p) in *.
  set (rem := Z.max (p - k) 0) in *.
  assert (eval (priced_row r t po co ko wo b) (non_negative (SRef "completion_tokens")) = Some (Decimal (Z.max (or_zero co) 0))) as Hc
    by (by apply eval_non_negative).
  assert (0 ≤ Z.min (Z.max (or_zero wo) 0) rem) as Hw0 by lia.
  unfold priced_sql, cost_sql. cbv zeta iota beta. fold sql_cached sql_remaining.
  split_and!.
  - rewrite eval_case, (ceval_unknown r t po co ko wo b _ _ Hw Hw0) by (intros ->; simpl; lia).
    unfold cache_write_tokens.
    destruct (cache_write_rate t) as [wr|] eqn:Ewr; [destruct wo as [n|]|destruct wo as [n|]].
    + priced.
    + case_bool_decide; [|done]. simpl negb. cbv iota.
      assert (Z.min (Z.max (or_zero None) 0) rem = 0) as Hz by (simpl; lia).
      rewrite Hz in Hw. priced.
    + destruct (_ =? 0); [|done]. simpl negb. cbv iota. priced.
    + assert (Z.min (Z.max (or_zero None) 0) rem = 0) as Hz by (simpl; lia).
      rewrite Hz in Hw. priced.
  - assert (cache_write_tokens t rem (Receipt (Some 0)) = Some 0) as -> by (simpl; f_equal; lia).
    destruct (cache_write_rate t) as [wr|] eqn:Ewr; [priced|]. change (0 =? 0) with true. priced.
  - intros Hnone. rewrite eval_case, (ceval_positive _ _ _ Hw Hw0).
    assert (cache_write_tokens t rem (Receipt wo) = Some (Z.min (Z.max (or_zero wo) 0) rem)) as ->.
    { destruct wo; simpl; [done|]. rewrite Hnone. f_equal. lia. }
    rewrite Hnone. set (w := Z.min _ rem) in *.
    destruct (w =? 0); [|done]. simpl negb. cbv iota. priced.
Qed.

Lemma cost_sql_agrees_witness :
  eval (priced_row (openai._gpt6_rates (dec 10 2) (dec 50 2) (dec 1 2) (dec 20 2) (dec 75 2) (dec 2 2))
          (mkTier (Some 272000) (dec 10 2) (dec 50 2) (Some (dec 1 2)) (Some (dec 10 2 * dec 125 2)%Qc))
          (Some 1000) (Some 200) (Some 300) (Some 100) true) (priced_sql true true) =
  estimate_rates (openai._gpt6_rates (dec 10 2) (dec 50 2) (dec 1 2) (dec 20 2) (dec 75 2) (dec 2 2))
    (Some 1000) (Some 200) (Some 300) true None (Receipt (Some 100)).
Proof.
  destruct (cost_sql_agrees
    (openai._gpt6_rates (dec 10 2) (dec 50 2) (dec 1 2) (dec 20 2) (dec 75 2) (dec 2 2))
    (mkTier (Some 272000) (dec 10 2) (dec 50 2) (Some (dec 1 2)) (Some (dec 10 2 * dec 125 2)%Qc))
    (Some 1000) (Some 200) (Some 300) (Some 100) true eq_refl) as [H _].
  exact H.
Defined.

(** *** Sound rates *)

Lemma Qc_weighted a b c x y z m :
  Qcle 0 a → Qcle 0 b → Qcle 0 c → Qcle x m → Qcle y m → Qcle z m →
  Qcle (a * x + b * y + c * z)%Qc ((a + b + c) * m)%Qc.
Proof.
  intros Ha Hb Hc Hx Hy Hz.
  replace ((a + b + c) * m)%Qc with (a * m + b * m + c * m)%Qc by ring.
  apply Qcplus_le_compat; [apply Qcplus_le_compat|];
    rewrite ?(Qcmult_comm a), ?(Qcmult_comm b), ?(Qcmult_comm c); by apply Qcmult_le_compat_r.
Qed.

Lemma Qcmult_nonneg a b : Qcle 0 a → Qcle 0 b → Qcle 0 (a * b)%Qc.
Proof. intros Ha Hb. rewrite <- (Qcmult_0_l b). by apply Qcmult_le_compat_r. Qed.

Lemma Decimal_nonneg a : 0 ≤ a → Qcle 0 (Decimal a).
Proof. apply (Decimal_le 0). Qed.

Lemma Qcdiv_mono a b : Qcle a b → Qcle (a / _PER_MTOK)%Qc (b / _PER_MTOK)%Qc.
Proof.
  intros H. unfold Qcdiv. apply Qcmult_le_compat_r; [done|]. apply qleb_le. vm_compute. reflexivity.
Qed.

Lemma discount_shrinks (o : option Qc) (b : bool) x :
  discount_sound o = true → Qcle 0 x →
  Qcle 0 (match b, o with true, Some d => (x * d)%Qc | _, _ => x end) ∧
  Qcle (match b, o with true, Some d => (x * d)%Qc | _, _ => x end) x.
Proof.
  intros Ho Hx. destruct b, o as [d|]; try (split; [done|apply Qcle_refl]).
  simpl in Ho. apply andb_true_iff in Ho as [H0%qleb_le H1%qleb_le]. split; [by apply Qcmult_nonneg|].
  rewrite Qcmult_comm. replace x with (1 * x)%Qc at 2 by ring. by apply Qcmult_le_compat_r.
Qed.

Lemma tier_for_in r p t : _tier_for r p = Some t → t ∈ tiers r.
Proof.
  unfold _tier_for. destruct (find _ _) as [t'|] eqn:E.
  - intros [= <-]. apply find_some in E as [E _]. by apply list_elem_of_In.
  - intros H. by apply last_Some_elem_of.
Qed.

Lemma rates_sound_tier r p :
  rates_sound r = true → ∃ t, _tier_for r p = Some t ∧ tier_sound t = true.
Proof.
  unfold rates_sound. intros H. breflect.
  assert (is_Some (_tier_for r p)) as [t Ht].
  { unfold _tier_for. destruct (find _ _); [by eexists|]. apply last_is_Some.
    intros Hn. by rewrite Hn in *. }
  exists t. split; [done|]. apply tier_for_in in Ht. apply list_elem_of_In in Ht.
  by apply (proj1 (forallb_forall _ _) H2).
Qed.

Lemma rates_for_known i name p m :
  i !! name = Some (p, m) → rates_for i (Some name) = Some (m_rates m).
Proof. intros H. unfold rates_for, model. simpl. by rewrite H. Qed.

(** A boolean fact about every entry, established by evaluating the registry. *)
Lemma registry_forall (f : string * Model → bool) n p m :
  forallb (λ e : string * (string * Model), f e.2) (map_to_list MODELS) = true →
  MODELS !! n = Some (p, m) → f (p, m) = true.
Proof.
  intros Hall H. apply elem_of_map_to_list, list_elem_of_In in H.
  by apply (proj1 (forallb_forall _ _) Hall) in H.
Qed.

Lemma registry_sound n p m : MODELS !! n = Some (p, m) → rates_sound (m_rates m) = true.
Proof.
  apply (registry_forall (λ e, rates_sound (m_rates e.2))). vm_compute. reflexivity.
Qed.

(** The bill of any split of a prompt is at most the price of writing it all. *)
Lemma token_cost_reserve t p k w c cap :
  tier_sound t = true → 0 ≤ k → 0 ≤ w → k + w ≤ p → 0 ≤ c ≤ cap →
  (cache_write_rate t = None → w = 0) →
  Qcle 0 (token_cost t (p - k - w) k w c) ∧
  Qcle (token_cost t (p - k - w) k w c)
    (match cache_write_rate t with
     | Some _ => token_cost t 0 0 p cap
     | None => token_cost t p 0 0 cap
     end).
Proof.
  intros Ht Hk Hw Hp Hc Hn. unfold tier_sound in Ht.
  apply andb_true_iff in Ht as [[[[Hin Hout]%andb_true_iff Hc0]%andb_true_iff Hci]%andb_true_iff Hwr].
  apply qleb_le in Hin, Hout, Hc0, Hci.
  assert (Qcle (rate_in t) (default (rate_in t) (cache_write_rate t))) as Hwr'.
  { destruct (cache_write_rate t); simpl; [by apply qleb_le|apply Qcle_refl]. }
  set (wr := default (rate_in t) (cache_write_rate t)) in *.
  assert (Qcle 0 wr) as Hwr0 by (exact (Qcle_trans _ _ _ Hin Hwr')).
  assert (Qcle (cached_rate t) wr) as Hcw by (exact (Qcle_trans _ _ _ Hci Hwr')).
  assert (Qcle 0 (Decimal (p - k - w)) ∧ Qcle 0 (Decimal k) ∧ Qcle 0 (Decimal w) ∧
    Qcle 0 (Decimal c)) as (D1 & D2 & D3 & D4) by (split_and!; apply Decimal_nonneg; lia).
  assert (Qcle (Decimal c * rate_out t)%Qc (Decimal cap * rate_out t)%Qc) as Hco.
  { apply Qcmult_le_compat_r; [apply Decimal_le; lia|done]. }
  split.
  - unfold token_cost. rewrite <- (Qcmult_0_l (/ _PER_MTOK)%Qc).
    apply Qcdiv_mono. fold wr.
    rewrite <- (Qcplus_0_l 0%Qc). apply Qcplus_le_compat; [|by apply Qcmult_nonneg].
    rewrite <- (Qcplus_0_l 0%Qc). apply Qcplus_le_compat; [|by apply Qcmult_nonneg].
    rewrite <- (Qcplus_0_l 0%Qc). apply Qcplus_le_compat; by apply Qcmult_nonneg.
  - assert (Qcle (Decimal (p - k - w) * rate_in t + Decimal k * cached_rate t + Decimal w * wr)%Qc
      (Decimal p * wr)%Qc) as Hall.
    { replace (Decimal p) with (Decimal (p - k - w) + Decimal k + Decimal w)%Qc
        by (rewrite !Decimal_add; f_equal; lia).
      apply Qc_weighted; (done || apply Qcle_refl). }
    assert (Decimal 0 = 0%Qc) as D0 by done.
    destruct (cache_write_rate t) as [x|] eqn:E; unfold token_cost; rewrite E; simpl; subst wr;
      simpl in *; apply Qcdiv_mono; rewrite D0, ?Qcmult_0_l, ?Qcplus_0_l, ?Qcplus_0_r;
      by apply Qcplus_le_compat.
Qed.

Lemma discounted_reserve r batched lane at_ x y :
  rates_sound r = true → Qcle 0 x → Qcle x y → (lane = true → batched = true) →
  Qcle 0 (discounted r batched at_ x) ∧
  Qcle (discounted r batched at_ x) (discounted r lane None y).
Proof.
  intros Hr Hx Hxy Hl. unfold rates_sound in Hr.
  apply andb_true_iff in Hr as [[_ Hb]%andb_true_iff Ho].
  unfold discounted. cbv zeta. change (is_off_peak r None) with false. cbv iota.
  destruct (discount_shrinks (batch_rate r) batched x Hb Hx) as [Hb0 Hb1].
  set (xb := match batched with true => _ | false => x end) in *.
  assert (Qcle xb (match lane, batch_rate r with true, Some b => (y * b)%Qc | _, _ => y end)) as Hm.
  { assert (Qcle 0 y) as Hy by exact (Qcle_trans _ _ _ Hx Hxy).
    destruct lane; [|exact (Qcle_trans _ _ _ Hb1 Hxy)]. subst xb. rewrite Hl by done.
    destruct (batch_rate r) as [d|]; [|done]. simpl in Hb.
    apply andb_true_iff in Hb as [?%qleb_le _]. by apply Qcmult_le_compat_r. }
  destruct (discount_shrinks (off_peak_multiplier r) (is_off_peak r at_) xb Ho Hb0) as [H0 H1].
  split; [exact H0|]. exact (Qcle_trans _ _ _ H1 Hm).
Qed.

Lemma cache_write_bounds t rem cw w :
  0 ≤ rem → cache_write_tokens t rem cw = Some w → 0 ≤ w ≤ rem.
Proof.
  intros Hr. unfold cache_write_tokens. destruct cw as [|[n|]]; repeat case_match; intros; simplify_eq; lia.
Qed.

(** A sound set of rates reserves enough for any receipt. *)
Lemma estimate_reserve r po co ko batched lane at_ cw cap bill :
  rates_sound r = true → or_zero co ≤ cap → 0 ≤ cap → (lane = true → batched = true) →
  estimate_rates r po co ko batched at_ cw = Some bill →
  ∃ reserve,
    estimate_rates r po (Some cap) None lane None Unspecified = Some reserve ∧
    Qcle 0 bill ∧ Qcle bill reserve.
Proof.
  intros Hs Hcap Hcap0 Hlane.
  unfold estimate_rates. cbv zeta. set (p := Z.max (or_zero po) 0).
  destruct (rates_sound_tier r p Hs) as (t & -> & Ht).
  set (k := Z.min (Z.max (or_zero ko) 0) p). set (c := Z.max (or_zero co) 0).
  assert (0 ≤ k ≤ p) as Hk by lia. assert (0 ≤ c ≤ cap) as Hc by lia.
  rewrite (Z.max_l (p - k)) by lia. simpl.
  rewrite (Z.min_l 0), (Z.max_l (p - 0)), Z.sub_0_r, (Z.max_l cap) by lia.
  destruct (cache_write_tokens t (p - k) cw) as [w|] eqn:Ew; [|done].
  apply cache_write_bounds in Ew; [|lia].
  intros Hbill.
  assert (bill = discounted r batched at_ (token_cost t (p - k - w) k w c) ∧
    (cache_write_rate t = None → w = 0)) as [-> Hw].
  { destruct (cache_write_rate t); [injection Hbill as <-; split; [reflexivity|discriminate]|].
    destruct (w =? 0) eqn:E; [|discriminate Hbill]. injection Hbill as <-.
    split; [reflexivity|]. intros _. lia. }
  clear Hbill.
  destruct (token_cost_reserve t p k w c cap Ht) as [H0 H1]; [lia..|exact Hw|].
  destruct (cache_write_rate t); (eexists; split; [reflexivity|]);
    rewrite ?Z.sub_diag, ?Z.sub_0_r; by apply discounted_reserve.
Qed.

(** Sound rates price any call that carries no receipt. *)
Lemma estimate_priced r po co ko batched at_ :
  rates_sound r = true → ∃ c, estimate_rates r po co ko batched at_ Unspecified = Some c.
Proof.
  intros Hs. unfold estimate_rates. cbv zeta.
  destruct (rates_sound_tier r (Z.max (or_zero po) 0) Hs) as (t & -> & _). simpl.
  destruct (cache_write_rate t); eauto.
Qed.

(** ** Prices quoted in advance *)

(** C32: a reservation covers the bill. For every declared model, the price quoted
    with no receipt, no clock and the output cap is known and at least the price
    of any call with that prompt, whatever it read from or wrote to the cache,
    whenever it ran and however much of the cap it used; no bill is negative. *)
Theorem reservation_covers_bill name e po co ko batched lane at_ cw cap bill :
  MODELS !! name = Some e → or_zero co ≤ cap → 0 ≤ cap → (lane = true → batched = true) →
  estimate_cost_usd MODELS (Some name) po co ko batched at_ cw = Some bill →
  ∃ reserve,
    estimate_cost_usd MODELS (Some name) po (Some cap) None lane None Unspecified = Some reserve ∧
    Qcle 0 bill ∧ Qcle bill reserve.
Proof.
  intros He Hcap Hcap0 Hlane. destruct e as [pr m].
  pose proof (registry_sound name pr m He) as Hs.
  unfold estimate_cost_usd. rewrite (rates_for_known _ _ _ _ He). clear He.
  by apply estimate_reserve.
Qed.

Lemma reservation_covers_bill_witness :
  ∃ bill reserve,
    estimate_cost_usd MODELS (Some "gpt-6-luna"%string) (Some 300000) (Some 100) (Some 5000) true
      None (Receipt (Some 1000)) = Some bill ∧
    estimate_cost_usd MODELS (Some "gpt-6-luna"%string) (Some 300000) (Some 400) None true
      None Unspecified = Some reserve ∧ Qcle bill reserve.
Proof.
  destruct (MODELS !! "gpt-6-luna"%string) as [e|] eqn:He; [|vm_compute in He; discriminate He].
  destruct (estimate_cost_usd MODELS (Some "gpt-6-luna"%string) (Some 300000) (Some 100) (Some 5000)
              true None (Receipt (Some 1000))) as [bill|] eqn:Hb; [|vm_compute in Hb; discriminate Hb].
  destruct (reservation_covers_bill "gpt-6-luna" e (Some 300000) (Some 100) (Some 5000) true true
              None (Receipt (Some 1000)) 400 bill He) as (reserve & Hr & _ & Hle).
  - simpl. lia.
  - lia.
  - exact (λ H, H).
  - exact Hb.
  - exists bill, reserve. split; [reflexivity|]. split; [exact Hr|exact Hle].
Defined.

(** ** The registry *)

(** The index refuses a shared name and otherwise is exactly the datasheets.
    Building it fails precisely when two declarations carry one name; when it
    succeeds, a name resolves to a provider and model exactly when that provider
    declares that model, so no call is priced at another vendor's rates. *)
Theorem index_unambiguous ps :
  match _index ps with
  | Ok i =>
      NoDup (entry_name <$> entries ps) ∧
      ∀ n p m, i !! n = Some (p, m) ↔
        m_name m = n ∧ ∃ pr, pr ∈ ps ∧ p_name pr = p ∧ m ∈ models pr
  | Err _ => ¬ NoDup (entry_name <$> entries ps)
  end.
Proof.
  destruct (_index ps) as [i|err] eqn:E.
  - split; [|intros n p m; by apply index_lookup]. rewrite index_entries in E.
    pose proof (index_fold (entries ps) ∅) as H. rewrite E in H. by destruct H.
  - rewrite index_entries in E. pose proof (index_fold (entries ps) ∅) as H. rewrite E in H.
    destruct H as [?|(e & _ & Hs)]; [done|]. rewrite lookup_empty in Hs. by destruct Hs.
Qed.

(** The declared registry is fit to route and price on. Its index builds; every
    declared model, offered or not, has a priced call of one token each way; its
    rates are sound; and its last tier has no ceiling, so no prompt is priced at a
    tier it does not fit. *)
Theorem registry_fit n p m :
  registry = Ok MODELS ∧
  (MODELS !! n = Some (p, m) →
     (∃ c, estimate_cost_usd MODELS (Some n) (Some 1) (Some 1) None false None Unspecified = Some c) ∧
     rates_sound (m_rates m) = true ∧
     (∃ t, last (tiers (m_rates m)) = Some t ∧ up_to_prompt_tokens t = None) ∧
     (∃ pr, provider_named PROVIDERS p = Some pr ∧
        mem (m_name m) (m_name <$> models pr) = true)).
Proof.
  split.
  { assert (is_ok registry = true) as Hok by (vm_compute; reflexivity).
    by apply registry_built. }
  intros H. pose proof (registry_sound n p m H) as Hs. split_and!; [|done|..].
  - unfold estimate_cost_usd. rewrite (rates_for_known _ _ _ _ H). by apply estimate_priced.
  - apply (registry_forall (λ e, match last (tiers (m_rates e.2)) with
      | Some t => match up_to_prompt_tokens t with None => true | _ => false end
      | None => false end)) in H; [|vm_compute; reflexivity].
    simpl in H. destruct (last _) as [t|]; [|done]. exists t. split; [done|].
    by destruct (up_to_prompt_tokens t).
  - apply (registry_forall (λ e, match provider_named PROVIDERS e.1 with
      | Some pr => mem (m_name e.2) (m_name <$> models pr)
      | None => false end)) in H; [|vm_compute; reflexivity].
    cbn [fst snd] in H. destruct (provider_named PROVIDERS p) as [pr|]; [|discriminate H].
    exists pr. split; [reflexivity|exact H].
Qed.

Lemma registry_fit_witness :
  ∃ p m c, MODELS !! "grok-4.3"%string = Some (p, m) ∧
    estimate_cost_usd MODELS (Some "grok-4.3"%string) (Some 1) (Some 1) None false None Unspecified
    = Some c.
Proof.
  destruct (MODELS !! "grok-4.3"%string) as [[p m]|] eqn:He; [|vm_compute in He; discriminate He].
  destruct (registry_fit "grok-4.3" p m) as [_ H]. destruct (H He) as ((c & Hc) & _).
  exists p, m, c. split; [reflexivity|exact Hc].
Defined.
