(* ===== verification/Routing.v ===== *)
(** * Choosing a model ([core.routing])

    A task's declared needs, the judgement of each model against them, the
    cheapest choice and the configured override. [ps] is the provider list and
    [i] the index built from it ([core.providers]); an instant is microseconds
    since 1970-01-01 00:00 UTC. *)

From S2P Require Import Prelude PyStr Sql Spec Datasheets Pricing.
From stdpp Require Import pretty.

Local Open Scope string_scope.
Local Open Scope Z_scope.

(** ** Declarations *)

Definition _MODE_RANK (m : StructuredOutput) : Z :=
  match m with
  | NONE => 0
  | JSON_OBJECT => 1
  | JSON_SCHEMA => 2
  end.

(** [str(mode)]: the value of the StrEnum. *)
Definition mode_str (m : StructuredOutput) : string :=
  match m with
  | NONE => "none"
  | JSON_OBJECT => "json_object"
  | JSON_SCHEMA => "json_schema"
  end.

Inductive ModelChangeEffect : Type :=
| MIXES
| RERUNS.

Record Evidence : Type := mkEvidence {
  ev_model : string;
  ev_verdict : string;
  ev_finding : string;
  ev_sample_size : Z;
  ev_measured_on : date;
}.

Record TaskShape : Type := mkShape {
  purpose : string;
  structured : StructuredOutput;
  sh_batched : bool;
  sh_max_output_tokens : Z;
  est_prompt_tokens : Z;
  sh_candidates : list string;
  effort : option string;
  effort_preference : list string;
  sh_params : jobject;
  sh_label : string;
  per_cycle : Z;
  notes : string;
  on_model_change : ModelChangeEffect;
  evidence : list Evidence;
}.

Record Choice : Type := mkChoice {
  ch_provider : string;
  ch_model : string;
  ch_params : jobject;
  ch_est_cost_usd : option Qc;
  ch_off_peak : bool;
  ch_reason : string;
  ch_overridden : bool;
  ch_fallback_from : option string;
}.

Record Candidacy : Type := mkCandidacy {
  ca_model : string;
  ca_provider : string;
  ca_eligible : bool;
  ca_rejection : string;
  ca_sanctioned : bool;
  ca_est_cost_usd : option Qc;
  ca_est_cycle_cost_usd : option Qc;
  ca_price_varies_by_time : bool;
}.

Definition with_candidates (l : list string) (s : TaskShape) : TaskShape :=
  mkShape (purpose s) (structured s) (sh_batched s) (sh_max_output_tokens s) (est_prompt_tokens s)
    l (effort s) (effort_preference s) (sh_params s) (sh_label s) (per_cycle s) (notes s)
    (on_model_change s) (evidence s).

Definition with_cycle (per_cycle max_output : Z) (s : TaskShape) : TaskShape :=
  mkShape (purpose s) (structured s) (sh_batched s) max_output (est_prompt_tokens s)
    (sh_candidates s) (effort s) (effort_preference s) (sh_params s) (sh_label s) per_cycle
    (notes s) (on_model_change s) (evidence s).

Definition with_reason (reason : string) (fallback_from : option string) (c : Choice) : Choice :=
  mkChoice (ch_provider c) (ch_model c) (ch_params c) (ch_est_cost_usd c) (ch_off_peak c) reason
    (ch_overridden c) fallback_from.

(** [a or b] on optional strings: the empty string is falsy. *)
Definition str_or (a b : option string) : option string :=
  match a with
  | Some "" | None => b
  | Some s => Some s
  end.

(** [params.setdefault(k, v)]. *)
Definition setdefault (k : string) (v : json) (p : jobject) : jobject :=
  match p !! k with
  | Some _ => p
  | None => <[k := v]> p
  end.

(** Python's [sorted] on strings: ASCII code point order. *)
Definition sorted_strings (l : list string) : list string := merge_sort String.le l.

(** The sort key: ineligible last, then cost with a missing one as infinity, then
    name; compared as Python compares tuples. *)
Definition cost_leb (a b : option Qc) : bool :=
  match a, b with
  | _, None => true
  | None, Some _ => false
  | Some x, Some y => qleb x y
  end.

Definition candidacy_leb (a b : Candidacy) : bool :=
  if negb (ca_eligible a) && ca_eligible b then false
  else if ca_eligible a && negb (ca_eligible b) then true
  else if negb (cost_leb (ca_est_cost_usd b) (ca_est_cost_usd a)) then true
  else if negb (cost_leb (ca_est_cost_usd a) (ca_est_cost_usd b)) then false
  else String.leb (ca_model a) (ca_model b).

Definition candidacy_le (a b : Candidacy) : Prop := candidacy_leb a b = true.

#[export] Instance candidacy_le_dec : RelDecision candidacy_le.
Proof. intros a b. unfold candidacy_le. apply _. Defined.

Section routing.
Context (ps : list Provider) (i : index).

(** The server's key for a provider, from the environment [env]. *)
Definition server_key (env : gmap string string) (provider : string) : string :=
  match provider_named ps provider with
  | Some p => default "" (env !! api_key_env p)
  | None => ""
  end.

(** ** Judging one model *)

(** Why this candidate cannot run this task, or the empty string when it can. *)
Definition _rejection (shape : TaskShape) (name : string) (declared : option Model)
    (provider : option string) (batch_reason : option string) : string :=
  match declared, provider with
  | None, _ | _, None => "not declared in any provider datasheet"
  | Some d, Some _ =>
      if _MODE_RANK (mode (structured_output d)) <? _MODE_RANK (structured shape) then
        "declares " ++ mode_str (mode (structured_output d)) ++ " output, task needs at least "
        ++ mode_str (structured shape)
      else
      match (if sh_batched shape then str_or batch_reason None else None) with
      | Some reason => reason
      | None =>
      let effort_reason :=
        match effort shape with
        | None => ""
        | Some e =>
            match param (reasoning d) with
            | None => "model does not support an effort parameter"
            | Some _ =>
                match accepts (reasoning d) with
                | [] => ""
                | l => if mem e l then ""
                       else "does not accept effort '" ++ e ++ "' (accepts " ++ str_join ", " l ++ ")"
                end
            end
        end in
      if negb (String.eqb effort_reason "") then effort_reason else
      match max_output_tokens (m_output d) with
      | Some cap =>
          if cap <? sh_max_output_tokens shape then
            "caps output at " ++ pretty cap ++ " tokens, task asks for "
            ++ pretty (sh_max_output_tokens shape)
          else
            match estimate_cost_usd i (Some name) (Some 1) (Some 1) None false None Unspecified with
            | None => "has no published rates, so its spend could not be reported"
            | Some _ => ""
            end
      | None =>
          match estimate_cost_usd i (Some name) (Some 1) (Some 1) None false None Unspecified with
          | None => "has no published rates, so its spend could not be reported"
          | Some _ => ""
          end
      end
      end
  end.

(** [_rejection] with what the registry says about the name. *)
Definition rejection (shape : TaskShape) (name : string) : string :=
  _rejection shape name (model i name) (provider_of i name) (unavailable_reason ps i name).

Definition eligible (shape : TaskShape) (name : string) : bool :=
  String.eqb (rejection shape name) "".

(** ** Parameters *)

Definition _preferred_effort (shape : TaskShape) (d : Model) : option string :=
  match find (λ e, mem e (accepts (reasoning d))) (effort_preference shape) with
  | Some e => Some e
  | None => rs_default (reasoning d)
  end.

Definition resolved_effort (shape : TaskShape) : option string :=
  match sh_candidates shape with
  | [] => None
  | c :: _ =>
      match model i c with
      | None => None
      | Some d => str_or (effort shape) (_preferred_effort shape d)
      end
  end.

Definition _params_for (shape : TaskShape) (d : Model) : jobject :=
  let params := sh_params shape in
  let params :=
    match str_or (param (reasoning d)) None with
    | None => params
    | Some p =>
        match str_or (str_or (effort shape) (_preferred_effort shape d)) None with
        | Some e => setdefault p (JStr e) params
        | None => params
        end
    end in
  setdefault "max_output_tokens" (JInt (sh_max_output_tokens shape)) params.

Definition _estimate (shape : TaskShape) (name : string) (at_ : option Z) : option Qc :=
  estimate_cost_usd i (Some name) (Some (est_prompt_tokens shape)) (Some (sh_max_output_tokens shape))
    None (sh_batched shape) at_ Unspecified.

(** ** The catalogue for the configuration screen *)

Definition candidacy (shape : TaskShape) (at_ : option Z) (name provider : string) (d : Model)
    : Candidacy :=
  let why := rejection shape name in
  let per_call := if String.eqb why "" then _estimate shape name at_ else None in
  mkCandidacy name provider (String.eqb why "") why (mem name (sh_candidates shape)) per_call
    (match per_call with
     | Some c => if per_cycle shape =? 0 then None else Some (c * Decimal (per_cycle shape))%Qc
     | None => None
     end)
    (match peak_windows (m_rates d) with [] => false | _ => true end).

Definition candidates_for (shape : TaskShape) (at_ : option Z) : list Candidacy :=
  merge_sort candidacy_le
    (omap (λ n,
       match i !! n with
       | Some (p, d) => if selectable d then Some (candidacy shape at_ n p d) else None
       | None => None
       end)
      (sorted_strings (elements (dom i)))).

(** ** Resolution *)

Record eligible_entry : Type := mkEligible {
  el_cost : Qc;
  el_name : string;
  el_provider : string;
  el_model : Model;
}.

(** What the loop does with one candidate: a reason, an eligible entry, or a
    failed assertion. *)
Inductive judged : Type :=
| Rejected (reason : string)
| Eligible (e : eligible_entry)
| AssertionFailed.

Definition judge (shape : TaskShape) (at_ : option Z) (name : string) : judged :=
  let why := rejection shape name in
  if negb (String.eqb why "") then Rejected (name ++ ": " ++ why)
  else
    match model i name, provider_of i name, _estimate shape name at_ with
    | Some d, Some p, Some cost => Eligible (mkEligible cost name p d)
    | _, _, _ => AssertionFailed
    end.

Definition eligible_of (l : list judged) : list eligible_entry :=
  omap (λ j, match j with Eligible e => Some e | _ => None end) l.

Definition rejected_of (l : list judged) : list string :=
  omap (λ j, match j with Rejected r => Some r | _ => None end) l.

Definition asserts (l : list judged) : bool :=
  forallb (λ j, match j with AssertionFailed => false | _ => true end) l.

Definition cheaper (a b : eligible_entry) : bool := qltb (el_cost a) (el_cost b).

Definition choice_reason (shape : TaskShape) (at_ : option Z) (el : list eligible_entry)
    (best : eligible_entry) (nrejected : nat) : string :=
  (match sh_candidates shape with
   | [_] => "the only model the caller sanctioned"
   | _ =>
       "cheapest of " ++ pretty (Z.of_nat (length el)) ++ " eligible ("
       ++ str_join ", " (filter (λ n, n ≠ el_name best) (map el_name el)) ++ ") at the time of the call"
   end)
  ++ (if is_off_peak (m_rates (el_model best)) at_ then "; off-peak rate applies" else "")
  ++ (if (nrejected =? 0)%nat then "" else "; excluded " ++ pretty (Z.of_nat nrejected)).

Definition _resolve_override (shape : TaskShape) (override : string) (at_ : option Z)
    : result string Choice :=
  let why := rejection shape override in
  if negb (String.eqb why "") then Err (override ++ " cannot run this task - " ++ why)
  else
    match model i override, provider_of i override with
    | Some d, Some p =>
        let sanctioned := mem override (sh_candidates shape) in
        Ok (mkChoice p override (_params_for shape d) (_estimate shape override at_)
              (is_off_peak (m_rates d) at_)
              (if sanctioned then "configured override"
               else "configured override, outside the models this call site sanctioned")
              (negb sanctioned) None)
    | _, _ => Err "AssertionError"
    end.

Definition resolve (shape : TaskShape) (at_ : option Z) (override : option string)
    : result string Choice :=
  match sh_candidates shape with
  | [] => Err "no candidate models were declared for this task"
  | names =>
      match str_or override None with
      | Some o => _resolve_override shape o at_
      | None =>
          let js := map (judge shape at_) names in
          let el := eligible_of js in
          let rejected := rejected_of js in
          if negb (asserts js) then Err "AssertionError"
          else
            match min_by cheaper el with
            | None => Err ("no declared model can run this task - " ++ str_join "; " rejected)
            | Some best =>
                Ok (mkChoice (el_provider best) (el_name best) (_params_for shape (el_model best))
                      (Some (el_cost best)) (is_off_peak (m_rates (el_model best)) at_)
                      (choice_reason shape at_ el best (length rejected)) false None)
            end
      end
  end.
End routing.
