(* ===== verification/Fallback.v ===== *)
(** * Fallback when a provider is out of credit ([core.fallback],
    [core.verdict_equivalence], [api.model_fallback])

    The chain an admin sets for a purpose, the models whose verdicts count as one
    another's, the open alert that marks a provider exhausted, and the routing
    that combines them. *)

From stdpp Require Import pretty.
From S2P Require Import Prelude PyStr Sql Spec Datasheets Pricing Routing.

Local Open Scope string_scope.
Local Open Scope Z_scope.

(** ** Custom filters and chains *)

Definition FILTER_PURPOSE : string := "filter".
Definition MANAGED_BOARD_PURPOSE : string := "managed_board".
Definition FILTER_MAX_OUTPUT_TOKENS : Z := 6000.

(** Another purpose raises [KeyError]. *)
Definition _EST_PROMPT_TOKENS (purpose : string) : option Z :=
  if String.eqb purpose FILTER_PURPOSE then Some 2514
  else if String.eqb purpose MANAGED_BOARD_PURPOSE then Some 1598
  else None.

Definition custom_filter_shape (name : string) (eff : option string) (purpose_ : string)
    : result string TaskShape :=
  match _EST_PROMPT_TOKENS purpose_ with
  | None => Err "KeyError"
  | Some est =>
      Ok (mkShape purpose_ JSON_SCHEMA true FILTER_MAX_OUTPUT_TOKENS est [name] eff [] ∅ "" 0 ""
            MIXES [])
  end.

(** An error as the matcher reads it: its text, and its [code] and [body] as text
    when the SDK keeps them apart. *)
Record provider_error : Type := mkError {
  pe_text : string;
  pe_code : option string;
  pe_body : option string;
}.

Definition haystack (e : provider_error) : string :=
  lower (str_join " "
    (omap (λ p, str_or p None) [Some (pe_text e); pe_code e; pe_body e])).

Definition exhaustion_reason (ps : list Provider) (provider : option string) (e : provider_error)
    : option string :=
  match provider_named ps (default "" provider) with
  | None => None
  | Some known =>
      if existsb (λ m, contains m (haystack e)) (exhaustion_markers known) then
        Some (default (haystack e) (str_or (Some (pe_text e)) None))
      else None
  end.

(** [shapes] are the purposes of [core.shapes.SHAPES]. *)
Definition chain_purposes (shapes : list string) : list string :=
  sorted_strings (filter (λ p, p ≠ "job_profile") shapes) ++ [FILTER_PURPOSE; MANAGED_BOARD_PURPOSE].

(** The validator of one chain; [None] when it raises. *)
Definition chain_known (shapes : list string) (i : index) (purpose_ : string) (ms : list string)
    : bool :=
  mem purpose_ (chain_purposes shapes) && bool_decide (NoDup ms) &&
  forallb (λ n, bool_decide (is_Some (i !! n))) ms.

Definition FallbackChains_known (shapes : list string) (i : index)
    (root : list (string * list string)) : bool :=
  forallb (λ e, chain_known shapes i e.1 e.2) root.

(** ** Models whose verdicts count as one another's *)

Record Group : Type := mkGroup {
  g_kind : string;
  g_models : list string;
}.

(** The validator's loop over one group's names, with the set of names seen. *)
Fixpoint group_names (i : index) (kind : string) (names : list string)
    (seen : gset (string * string)) : option (gset (string * string)) :=
  match names with
  | [] => Some seen
  | n :: rest =>
      if bool_decide (is_Some (i !! n)) && negb (bool_decide ((kind, n) ∈ seen))
      then group_names i kind rest ({[ (kind, n) ]} ∪ seen)
      else None
  end.

Fixpoint known_and_disjoint (i : index) (root : list Group) (seen : gset (string * string))
    : option (gset (string * string)) :=
  match root with
  | [] => Some seen
  | g :: rest =>
      if bool_decide (NoDup (g_models g)) then
        match group_names i (g_kind g) (g_models g) seen with
        | Some seen' => known_and_disjoint i rest seen'
        | None => None
        end
      else None
  end.

(** [ModelEquivalence.model_validate] accepts the setting. *)
Definition equivalence_valid (i : index) (root : list Group) : bool :=
  forallb (λ g, mem (g_kind g) ["custom"; "verify"] && (2 <=? Z.of_nat (length (g_models g)))) root &&
  match known_and_disjoint i root ∅ with
  | Some _ => true
  | None => false
  end.

Definition answering (root : list Group) (kind name : string) : list string :=
  match find (λ g, String.eqb (g_kind g) kind && mem name (g_models g)) root with
  | Some g => sorted_strings (g_models g)
  | None => [name]
  end.

(** ** The next model of a chain *)

Section fallback.
Context (ps : list Provider) (i : index).

Fixpoint next_choice (shape : TaskShape) (chain : list string) (blocked tried : gset string)
    (at_ : option Z) : option Choice :=
  match chain with
  | [] => None
  | name :: rest =>
      if bool_decide (name ∈ tried) ||
         match provider_of i name with Some p => bool_decide (p ∈ blocked) | None => false end
      then next_choice shape rest blocked tried at_
      else
        match resolve ps i (with_candidates [name] shape) at_ None with
        | Err _ => next_choice shape rest blocked tried at_
        | Ok c => Some (with_reason "fallback chain" (ch_fallback_from c) c)
        end
  end.

Definition _VERDICT_KIND (purpose_ : string) : option string :=
  if String.eqb purpose_ FILTER_PURPOSE then Some "custom"
  else if String.eqb purpose_ MANAGED_BOARD_PURPOSE then Some "custom"
  else if String.eqb purpose_ "verify" then Some "verify"
  else None.

(** What one routing decision reads: the two settings, the exhausted providers
    and the host's environment. *)
Record routing_env : Type := mkRoutingEnv {
  re_chains : gmap string (list string);
  re_equivalence : list Group;
  re_blocked : gset string;
  re_environ : gmap string string;
}.

Definition chain (e : routing_env) (purpose_ : string) : list string :=
  default [] (re_chains e !! purpose_).

Definition equivalent (e : routing_env) (purpose_ primary : string) : option (list string) :=
  (λ kind, answering (re_equivalence e) kind primary) <$> _VERDICT_KIND purpose_.

Definition usable (e : routing_env) (purpose_ primary : string) (ms : list string) : list string :=
  match equivalent e purpose_ primary with
  | None => ms
  | Some group => filter (λ m, m ∈ group) ms
  end.

(** Providers this host holds no key for. *)
Definition unkeyed (e : routing_env) : gset string :=
  list_to_set
    (filter (λ n, server_key ps (re_environ e) n = "") (map p_name ps)).

Definition next_for (e : routing_env) (shape : TaskShape) (primary : string)
    (tried blocked : gset string) : option Choice :=
  match usable e (purpose shape) primary (chain e (purpose shape)) with
  | [] => None
  | ms =>
      match next_choice shape ms (blocked ∪ unkeyed e) tried None with
      | None => None
      | Some c =>
          Some (with_reason
                  (default "None" (provider_of i primary) ++ " is out of credit; fallback from "
                   ++ primary) (Some primary) c)
      end
  end.

Definition route (e : routing_env) (shape : TaskShape) (override : option string)
    : result string Choice :=
  (do chosen <- resolve ps i shape None override;;
   if bool_decide (ch_provider chosen ∈ re_blocked e) then
     Ok (default chosen
           (next_for e shape (ch_model chosen) {[ ch_model chosen ]} (re_blocked e)))
   else Ok chosen)%js.
End fallback.

(** ** Exhaustion alerts

    The [health_alerts] rows of kind [provider_exhausted], newest last. The
    partial unique index allows one open row per provider. *)

Record alert : Type := mkAlert {
  al_subject : string;
  al_reason : string;
  al_first_seen : Z;
  al_last_seen : Z;
  al_resolved_at : option Z;
}.

Definition open_for (provider : string) (a : alert) : bool :=
  String.eqb (al_subject a) provider && bool_decide (al_resolved_at a = None).

(** The answer says whether the row is new. *)
Definition mark (now : Z) (provider reason : string) (l : list alert) : list alert * bool :=
  if existsb (open_for provider) l then
    (map (λ a, if open_for provider a
               then mkAlert (al_subject a) (al_reason a) (al_first_seen a) now None else a) l, false)
  else ((l ++ [mkAlert provider reason now now None])%list, true).

Definition clear (now : Z) (provider : string) (l : list alert) : list alert :=
  map (λ a, if open_for provider a
            then mkAlert (al_subject a) (al_reason a) (al_first_seen a) (al_last_seen a) (Some now)
            else a) l.

Definition MICROS_PER_MINUTE : Z := 60 * 1000000.

(** [cycle] is [ingest_interval_minutes]. *)
Definition skipped (cycle now : Z) (a : alert) : bool :=
  now - cycle * MICROS_PER_MINUTE <? al_last_seen a.

(** In row order; the query's ORDER BY does not reach the set built from it. *)
Definition exhausted (cycle now : Z) (l : list alert) : list (alert * bool) :=
  map (λ a, (a, skipped cycle now a)) (filter (λ a, al_resolved_at a = None) l).

Definition blocked_providers (cycle now : Z) (l : list alert) : gset string :=
  list_to_set (map (λ x, al_subject x.1) (filter (λ x, x.2 = true) (exhausted cycle now l))).
