(* ===== verification/Shapes.v ===== *)
(** * The declared tasks and the fleet's weekly ceiling ([core.shapes],
    [api.task_config], [api.budget.fleet])

    [environ] is the process environment, [config] the integer settings of
    app_config. *)

From S2P Require Import Prelude PyStr Sql Spec Datasheets Pricing Routing.

Local Open Scope string_scope.
Local Open Scope Z_scope.

(** ** Declarations *)

Definition BATCH_TOKEN_BUDGET : Z := 1800000.

(** [os.environ.get(k, default)]. *)
Definition getenv (environ : gmap string string) (k d : string) : string := default d (environ !! k).

Definition EXTRACT_COMP_PER_CYCLE : Z := 1100.

Definition COMP_TASK : TaskShape :=
  mkShape "comp" JSON_SCHEMA true 1500 6500 ["gpt-6-luna"] (Some "low") [] ∅
    "Compensation extraction" EXTRACT_COMP_PER_CYCLE
    ("Copies stated compensation from the posting and leaves absent figures unknown. " ++
      "The model upgrade preserves low reasoning, the output cap and batching. " ++
      "Previously extracted results are retained; comparative quality is unmeasured.")
    MIXES [].

Definition REQUIREMENTS_MODEL (environ : gmap string string) : string :=
  getenv environ "JOBTRACKER_REQUIREMENTS_MODEL" "gpt-5.6-luna".

Definition _REQUIREMENTS_EFFORT_PREFERENCE : list string := ["none"; "minimal"; "low"].

Definition REQUIREMENTS_MAX_OUTPUT_TOKENS : Z := 2000.

Definition EXTRACT_REQUIREMENTS_PER_CYCLE : Z := 2179.

Definition NANO_FABRICATES : Evidence :=
  mkEvidence "gpt-5-nano" "excluded"
    ("Invented a clearance level for 12 of 55 postings whose page never mentions " ++
     "clearance, and at minimal effort filled 0 and 'none' wherever the honest answer " ++
     "was 'unstated' - which is the distinction this extraction exists to keep.")
    60 (2026, 9, 2).

Definition REQUIREMENTS_TASK (environ : gmap string string) : TaskShape :=
  mkShape "requirements" JSON_SCHEMA true REQUIREMENTS_MAX_OUTPUT_TOKENS 2270
    [REQUIREMENTS_MODEL environ] None _REQUIREMENTS_EFFORT_PREFERENCE ∅
    "Requirements extraction" EXTRACT_REQUIREMENTS_PER_CYCLE
    ("Not nano, on measured quality: over 60 real postings it invented a clearance " ++
      "level for 12 of 55 that never mention clearance, and at minimal effort filled 0 " ++
      "and 'none' wherever the honest answer was 'unstated' - the one distinction this " ++
      "extraction exists to keep. Not mini, on measured RELIABILITY: 499 of 31,999 " ++
      "batched requests failed against zero on the other two, and a failed line leaves a " ++
      "posting unextracted while looking like a batch that worked. luna is the only " ++
      "model with a clean record at volume, and its extraction quality here has not been " ++
      "audited the way the other two were. This task did NOT move to gpt-6-luna with the " ++
      "rest of the tasks on 2026-09-22: the model here was chosen on a failure rate " ++
      "measured over 60,000 batched requests, and the newer model has no such record. " ++
      "JOBTRACKER_REQUIREMENTS_MODEL moves it once one exists.")
    MIXES
    [NANO_FABRICATES;
     mkEvidence "gpt-5-mini" "excluded"
       ("Extracts well - over the same postings it invented one degree, one " ++
          "years-of-experience figure and no clearances, and truncated nothing. Excluded on " ++
          "RELIABILITY rather than quality: 499 of its 31,999 batched requests failed, " ++
          "against 0 of 19,971 on nano and 0 of 60,000 on luna. A failed line leaves a " ++
          "posting unextracted and looks like a batch that worked, so nothing was watching.")
       31999 (2026, 9, 2);
     mkEvidence "gpt-5.6-luna" "chosen"
       ("Zero failures across 60,000 batched requests, the only model with a clean record " ++
          "at that volume. Chosen for reliability; its extraction quality on this task has " ++
          "NOT been audited the way nano and mini were, and that gap is the reason this " ++
          "entry exists rather than a note.")
       60000 (2026, 9, 2)].

Definition CLASSIFY_LOCATIONS_PER_CYCLE : Z := 10000.

Definition LOCATIONS_TASK : TaskShape :=
  mkShape "locations" JSON_SCHEMA true 2048 260 ["gpt-6-luna"] None ["minimal"; "low"] ∅
    "Location classification" CLASSIFY_LOCATIONS_PER_CYCLE
    ("Naming the country, state and city a short string refers to is a lookup, not a " ++
      "judgment about silence. A string that names no single place is left empty, which " ++
      "excludes nothing, so the cost of a wrong answer is one visible posting.")
    MIXES [].

(** [VERIFICATION_REQUEST.max_output_tokens] of [core.answers]. *)
Definition VERIFY_MAX_OUTPUT_TOKENS : Z := 1000.

Definition VERIFY_TASK : TaskShape :=
  mkShape "verify" JSON_SCHEMA true VERIFY_MAX_OUTPUT_TOKENS 5500 ["gpt-6-luna"] (Some "low") [] ∅
    "Closed and clearance verification" 0
    ("A yes/no read of whether a posting is still open and whether it demands a " ++
      "clearance. The model upgrade preserves low reasoning, batching and the existing " ++
      "eligibility and re-verification schedule. Existing paid batches keep their " ++
      "original model provenance.")
    MIXES [].

Definition BACKFILL_MODEL (environ : gmap string string) : string :=
  getenv environ "JOBTRACKER_MAIL_BACKFILL_MODEL" "gpt-6-luna".

Definition ONGOING_MODEL (environ : gmap string string) : string :=
  getenv environ "JOBTRACKER_MAIL_ONGOING_MODEL" "gpt-6-luna".

Definition _CLASSIFY_EFFORT_PREFERENCE : list string := ["none"; "minimal"; "low"].

Definition CLASSIFY_MAX_TOKENS : Z := 400.

Definition CLASSIFY_SPEC_EST_TOKENS : Z := 2162.

(** [concurrency] is [BATCH_WAVE_CONCURRENCY]. *)
Definition CLASSIFY_PER_CYCLE (concurrency : Z) : Z :=
  concurrency * BATCH_TOKEN_BUDGET / CLASSIFY_SPEC_EST_TOKENS.

Definition _classify_task (concurrency : Z) (name purpose_ label_ : string) : TaskShape :=
  mkShape purpose_ JSON_SCHEMA true CLASSIFY_MAX_TOKENS 2580 [name] None _CLASSIFY_EFFORT_PREFERENCE
    ∅ label_ (CLASSIFY_PER_CYCLE concurrency)
    ("gpt-5-nano is excluded on evidence rather than price: measured on " ++
      "extraction-shaped work it fabricates, inventing 12 clearances across 55 postings " ++
      "and filling 0/'none' wherever the true answer is 'unstated'. The same shape " ++
      "applies here - a deadline that was never stated must not become a guessed date, " ++
      "and silence must not become a fabricated rejection. Backfill and ongoing are " ++
      "priced differently enough to be different models: over the 38,685-message " ++
      "mailbox, batched, luna is $10.44 and mini $14.99, while ongoing at ~80/day is " ++
      "$11.31/yr on mini where per-message quality matters more.")
    MIXES [NANO_FABRICATES].

Definition APPLICATION_TASK : TaskShape :=
  mkShape "application" JSON_SCHEMA true 1200 3500 ["gpt-6-luna"] None ["none"; "minimal"; "low"] ∅
    "Application answers" 0
    ("Prose a recruiter reads, written from a resume the model must not embroider. " ++
      "Measured 2026-09-06 over four live questions: gpt-5.6-luna without reasoning " ++
      "picked the resume facts that fit the role and stayed inside them; gpt-5-nano " ++
      "padded with generic openers and loosened one claim. Both cost under a tenth of a " ++
      "cent an answer, so the better writer is the choice. The default moved to " ++
      "gpt-6-luna on 2026-09-22 for price; that comparison is of its predecessor and has " ++
      "not been repeated.")
    MIXES [].

Definition JOB_PROFILE_TASK : TaskShape :=
  mkShape "job_profile" JSON_SCHEMA true 1000 3200 ["gpt-6-luna"] None ["none"] ∅
    "Job profile shadow classification" 500
    ("A shadow-only compact taxonomy used to compare general job classifications. It " ++
      "does not participate in filtering or visibility.")
    MIXES [].

(** In declaration order, keyed by each shape's own purpose. *)
Definition SHAPES (environ : gmap string string) (concurrency : Z) : list TaskShape :=
  [COMP_TASK; REQUIREMENTS_TASK environ; LOCATIONS_TASK; VERIFY_TASK;
   _classify_task concurrency (BACKFILL_MODEL environ) "mail_classify_backfill"
     "Mail classification (backfill)";
   _classify_task concurrency (ONGOING_MODEL environ) "mail_classify"
     "Mail classification (ongoing)";
   APPLICATION_TASK; JOB_PROFILE_TASK].

(** ** Configured tasks ([api.task_config]) *)

Definition PER_CYCLE_KEYS : list (string * string) :=
  [("comp", "comp_extract_per_cycle"); ("requirements", "requirements_extract_per_cycle");
   ("locations", "classify_locations_per_cycle"); ("mail_classify", "mail_classify_per_cycle");
   ("mail_classify_backfill", "mail_classify_per_cycle"); ("job_profile", "job_profiles_per_cycle")].

(** [config] answers every key: an unset one has its declared default. *)
Definition configured_shape (config : string → Z) (s : TaskShape) : TaskShape :=
  let s :=
    match find (λ kv, String.eqb kv.1 (purpose s)) PER_CYCLE_KEYS with
    | Some (_, key) => with_cycle (config key) (sh_max_output_tokens s) s
    | None => s
    end in
  if String.eqb (purpose s) "locations"
  then with_cycle (per_cycle s) (config "classify_locations_max_output_tokens") s
  else s.

(** The append-only table of overrides, oldest first; [None] when the read fails. *)
Definition configured_model (overrides : option (list (string * option string))) (purpose_ : string)
    : option string :=
  match overrides with
  | None => None
  | Some rows =>
      match last (filter (λ r : string * option string, r.1 = purpose_) rows) with
      | Some (_, m) => str_or m None
      | None => None
      end
  end.

(** ** The ceiling ([api.budget.fleet]) *)

Section fleet_budget.
Context (ps : list Provider) (i : index) (shapes : list TaskShape).
Context (config : string → Z) (overrides : option (list (string * option string))).

(** What one task adds to a cycle: nothing when no model can run it. *)
Definition task_cycle_cost (declared_shape : TaskShape) : Qc :=
  let shape := configured_shape config declared_shape in
  match resolve ps i shape None (configured_model overrides (purpose declared_shape)) with
  | Err _ => Decimal 0
  | Ok chosen =>
      match ch_est_cost_usd chosen with
      | Some c => (c * Decimal (per_cycle shape))%Qc
      | None => Decimal 0
      end
  end.

Definition fleet_cycle_cost_usd : Qc :=
  foldl (λ total s, (total + task_cycle_cost s)%Qc) (Decimal 0) shapes.

Record model_call : Type := mkCall {
  mc_user_id : option Z;
  mc_cost_usd : option Qc;
  mc_created_at : Z;
}.

(** The start of the UTC week: 1970-01-05 was a Monday. *)
Definition week_start (now : Z) : Z := now - (now + 3 * MICROS_PER_DAY) mod (7 * MICROS_PER_DAY).

Definition fleet_spend_this_week (now : Z) (calls : list model_call) : Qc :=
  foldl (λ s c,
    match mc_user_id c, mc_cost_usd c with
    | None, Some cost => if week_start now <=? mc_created_at c then (s + cost)%Qc else s
    | _, _ => s
    end) (Decimal 0) calls.

Record budget_status : Type := mkStatus {
  bs_enabled : bool;
  bs_spent_usd : Qc;
  bs_ceiling_usd : Qc;
  bs_cycles : Z;
  bs_cycle_cost_usd : Qc;
  bs_headroom_usd : option Qc;
  bs_used_fraction : option Qc;
  bs_projected_usd : option Qc;
  bs_projected_exceeds : bool;
}.

Definition fleet_budget_status (now : Z) (calls : list model_call) (projected_usd : option Qc)
    : budget_status :=
  let cycle_cost := fleet_cycle_cost_usd in
  let cycles := config "fleet_weekly_cycles" in
  let ceiling := if 0 <? cycles then (cycle_cost * Decimal cycles)%Qc else Decimal 0 in
  let spent := fleet_spend_this_week now calls in
  let projected := (spent + default (Decimal 0) projected_usd)%Qc in
  let positive := qltb (Decimal 0) ceiling in
  mkStatus ((0 <? cycles) && positive) spent ceiling cycles cycle_cost
    (if positive then Some (ceiling - spent)%Qc else None)
    (if positive then Some (spent / ceiling)%Qc else None)
    (match projected_usd with Some _ => Some projected | None => None end)
    (positive && qltb ceiling projected).

(** [FleetBudgetExceeded], carrying the status its message quotes. *)
Definition check_fleet_budget (now : Z) (calls : list model_call) (projected_usd : option Qc)
    : result budget_status unit :=
  let status := fleet_budget_status now calls projected_usd in
  if negb (bs_enabled status) then Ok tt
  else if bs_projected_exceeds status || qleb (bs_ceiling_usd status) (bs_spent_usd status)
  then Err status
  else Ok tt.
End fleet_budget.
