(* ===== verification/Access.v ===== *)
(** * Who may spend on AI, and with which key ([api.budget], the model lists of
    [api.ai], [core.env])

    [decrypt] is the key store's decryption, a parameter. *)

From stdpp Require Import pretty.
From S2P Require Import Prelude PyStr Sql Spec Datasheets Pricing Routing.

Local Open Scope string_scope.
Local Open Scope Z_scope.

(** ** Model lists *)

(** [value.split(",")], each part stripped, empty parts dropped. *)
Fixpoint split_comma (cur l : list Ascii.ascii) : list string :=
  match l with
  | [] => [of_chars (rev cur)]
  | c :: l' =>
      if bool_decide ([c] = chars ",") then of_chars (rev cur) :: split_comma [] l'
      else split_comma (c :: cur) l'
  end.

Definition comma_list (value : string) : list string :=
  filter (λ v, v ≠ "") (map strip (split_comma [] (chars value))).

Definition env_list (environ : gmap string string) (name default_ : string) : list string :=
  comma_list (default default_ (environ !! name)).

(** The first model of a provider; the key [openai_compatible] has none. *)
Definition DEFAULT_MODELS (ps : list Provider) (provider : string) : option string :=
  match provider_named ps provider with
  | Some p => match models p with m :: _ => Some (m_name m) | [] => None end
  | None => None
  end.

Definition MODEL_CATALOG (p : Provider) : list string :=
  map m_name (filter (λ m, selectable m = true) (models p)).

Definition OWNER_KEY_MODELS (environ : gmap string string) : list string :=
  env_list environ "JOBTRACKER_OWNER_KEY_MODELS" "gpt-5-nano,gpt-5-mini,gpt-6-luna".

Section access.
Context (ps : list Provider) (i : index) (environ : gmap string string).

Definition has_key (provider : string) : bool :=
  negb (String.eqb (server_key ps environ provider) "").

Definition owner_models (unlimited : bool) : list string :=
  sorted_strings
    (ps ≫= λ p,
       if has_key (p_name p)
       then filter (λ m, unlimited || mem m (OWNER_KEY_MODELS environ) = true) (MODEL_CATALOG p)
       else []).

(** ** Entitlements *)

(** A [group_budgets] row: its weekly cap and its allowlist, each nullable. *)
Record group_budget : Type := mkBudget {
  gb_group : string;
  gb_weekly_token_budget : option Z;
  gb_allowed_models : option (list string);
}.

Record Entitlement : Type := mkEntitlement {
  owner_key : bool;
  weekly_token_budget : option Z;
  spent_this_week : Z;
  has_byo_key : bool;
  groups : list string;
}.

Definition budget_exhausted (e : Entitlement) : bool :=
  match weekly_token_budget e with
  | Some cap => cap <=? spent_this_week e
  | None => false
  end.

Definition key_source (e : Entitlement) : option string :=
  if has_byo_key e then Some "byo"
  else if owner_key e && negb (budget_exhausted e) then Some "owner"
  else None.

Definition budget_rows (table : list group_budget) (gs : list string) : list group_budget :=
  filter (λ r, gb_group r ∈ gs) table.

Definition max_budget (l : list group_budget) : Z :=
  match omap gb_weekly_token_budget l with
  | [] => 0
  | b :: bs => foldl Z.max b bs
  end.

Definition owner_budget (table : list group_budget) (gs : list string) : bool * option Z :=
  match gs with
  | [] => (false, None)
  | _ =>
      match budget_rows table gs with
      | [] => (false, None)
      | rows =>
          if existsb (λ r, bool_decide (gb_weekly_token_budget r = None)) rows then (true, None)
          else (true, Some (max_budget rows))
      end
  end.

(** A call's row in [model_calls]: payer, key, tokens and time. *)
Record token_call : Type := mkTokenCall {
  tc_user_id : option Z;
  tc_key_source : string;
  tc_total_tokens : option Z;
  tc_created_at : Z;
}.

Definition spent (now user_id : Z) (calls : list token_call) : Z :=
  list_sum_Z
    (omap (λ c,
       if bool_decide (tc_user_id c = Some user_id) && String.eqb (tc_key_source c) "owner" &&
          (now - 7 * MICROS_PER_DAY <=? tc_created_at c)
       then tc_total_tokens c else None) calls).

Definition get_entitlement (table : list group_budget) (now user_id : Z) (gs : list string)
    (calls : list token_call) (own_key : bool) : Entitlement :=
  let '(owner, weekly) := owner_budget table gs in
  mkEntitlement owner weekly (if owner then spent now user_id calls else 0) own_key gs.

Definition owner_allowed_models (table : list group_budget) (gs : list string) : list string :=
  match gs with
  | [] => []
  | _ =>
      let allowed : gset string :=
        foldr (λ r acc,
          list_to_set
            (match gb_allowed_models r with
             | Some l => l
             | None => owner_models (bool_decide (gb_weekly_token_budget r = None))
             end) ∪ acc) ∅ (budget_rows table gs) in
      let keyed : gset string :=
        list_to_set (ps ≫= λ p, if has_key (p_name p) then MODEL_CATALOG p else []) in
      sorted_strings (elements (allowed ∩ keyed))
  end.

(** ** The effective configuration *)

Record credentials : Type := mkCreds {
  ai_provider : string;
  ai_model : option string;
  ai_base_url : option string;
  ai_params : jobject;
  api_key_enc : option string;
}.

Record AIConfig : Type := mkConfig {
  cf_provider : string;
  cf_api_key : string;
  cf_key_source : string;
  cf_model : string;
  cf_base_url : option string;
  cf_params : jobject;
  cf_substituted_from : option string;
  cf_substitution_reason : option string;
  cf_fallback_from : option string;
}.

Inductive refusal : Type :=
| NO_API_KEY
| NO_MODEL
| BUDGET_EXCEEDED.

(** The model the server's key runs, given the allowlist. *)
Definition owner_model (chosen : option string) (allowed : list string) : option string :=
  match chosen with
  | Some c => if mem c allowed then Some c else
      match DEFAULT_MODELS ps "openai" with
      | Some d => if mem d allowed then Some d else head allowed
      | None => head allowed
      end
  | None =>
      match DEFAULT_MODELS ps "openai" with
      | Some d => if mem d allowed then Some d else head allowed
      | None => head allowed
      end
  end.

Definition owner_config (table : list group_budget) (creds : credentials) (e : Entitlement)
    : result refusal AIConfig :=
  if negb (owner_key e) then Err NO_API_KEY
  else if budget_exhausted e then Err BUDGET_EXCEEDED
  else
    let allowed := owner_allowed_models table (groups e) in
    let chosen := ai_model creds in
    let in_allowed := match chosen with Some c => mem c allowed | None => false end in
    let substituted := if in_allowed then None else str_or chosen None in
    match str_or (owner_model chosen allowed) None with
    | None => Err NO_API_KEY
    | Some m =>
        let provider := default "openai" (str_or (provider_of i m) None) in
        Ok (mkConfig provider (server_key ps environ provider) "owner" m None
              (delete "temperature" (ai_params creds)) substituted
              ((λ c, c ++ " is not available on shared credits; " ++ m
                     ++ " was used instead. Add your own API key to choose freely.")
                 <$> substituted) None)
    end.

Definition resolve_ai_config (decrypt : string → string) (table : list group_budget)
    (creds : credentials) (e : Entitlement) : result refusal AIConfig :=
  match has_byo_key e, str_or (api_key_enc creds) None with
  | true, Some enc =>
      match str_or (str_or (ai_model creds) (DEFAULT_MODELS ps (ai_provider creds))) None with
      | None => Err NO_MODEL
      | Some m =>
          Ok (mkConfig (ai_provider creds) (decrypt enc) "byo" m (ai_base_url creds)
                (ai_params creds) None None None)
      end
  | _, _ => owner_config table creds e
  end.

(** [load_config]'s cap lift for one task. *)
Definition lift_cap (ignore_budget : bool) (e : Entitlement) : Entitlement :=
  if ignore_budget && owner_key e
  then mkEntitlement (owner_key e) None (spent_this_week e) (has_byo_key e) (groups e)
  else e.
End access.
