(* ===== verification/RoutingProps.v ===== *)
(** * What routing guarantees

    The model chosen can do the work, is the cheapest that can, and moves to a
    fallback only when it must. *)

From S2P Require Import Prelude PyStr Sql Spec Datasheets Pricing Routing Fallback.

#[local] Opaque MODELS registry PROVIDERS.

(** A choice that can do the work: declared, judged eligible, priced, and sent with
    the parameters the task implies for that model. *)
Definition fits (ps : list Provider) (i : index) (shape : TaskShape) (at_ : option Z) (c : Choice)
    : Prop :=
  eligible ps i shape (ch_model c) = true ∧
  ∃ d cost, i !! ch_model c = Some (ch_provider c, d) ∧
    ch_est_cost_usd c = Some cost ∧ _estimate i shape (ch_model c) at_ = Some cost ∧
    ch_params c = _params_for shape d.

(** What makes a chain entry runnable now. *)
Definition runnable (ps : list Provider) (i : index) (shape : TaskShape)
    (blocked tried : gset string) (n : string) : Prop :=
  n ∉ tried ∧ eligible ps i shape n = true ∧
  ∀ p, provider_of i n = Some p → p ∉ blocked.

(** The entries of a purpose's chain whose answer stands for the primary's. *)
Definition may_answer (e : routing_env) (purpose_ primary n : string) : Prop :=
  n ∈ chain e purpose_ ∧
  ∀ kind, _VERDICT_KIND purpose_ = Some kind → n ∈ answering (re_equivalence e) kind primary.

(** A provider that cannot take work now: out of credit, or without a key here. *)
Definition avoided (ps : list Provider) (e : routing_env) (p : string) : Prop :=
  p ∈ re_blocked e ∨ p ∈ map p_name ps ∧ server_key ps (re_environ e) p = ""%string.

Definition can_take (ps : list Provider) (i : index) (e : routing_env) (shape : TaskShape)
    (primary n : string) : Prop :=
  n ≠ primary ∧ eligible ps i shape n = true ∧
  ∀ p, provider_of i n = Some p → ¬ avoided ps e p.

(** At most one open alert per provider, as the partial unique index demands. *)
Definition open_unique (l : list alert) : Prop :=
  ∀ p, (length (filter (λ a, open_for p a = true) l) ≤ 1)%nat.


(** A task the witnesses route. *)
Definition demo_shape : TaskShape :=
  mkShape "comp" JSON_SCHEMA true 1500 6500 ["gpt-6-luna"; "gpt-5-nano"]%string
    (Some "low"%string) [] ∅ "" 1100 "" MIXES [].

(** ** Lemmas *)

#[export] Instance cheaper_weak : StrictWeak cheaper.
Proof.
  unfold cheaper. split.
  - intros x. apply qltb_irrefl.
  - intros x y z. rewrite !qltb_lt. apply Qclt_trans.
  - intros x y z. rewrite !qltb_ge. intros H1 H2. exact (Qcle_trans _ _ _ H2 H1).
Qed.

Section lemmas.
Context (ps : list Provider) (i : index).

Lemma eligible_true shape n :
  eligible ps i shape n = true ↔ rejection ps i shape n = ""%string.
Proof. unfold eligible. by rewrite String.eqb_eq. Qed.

(** Judging never trips the assertions: what is not rejected is declared and
    priced, at the sizes the task asks for as well as at one token. *)
Lemma estimate_same_coverage r po co po' co' b b' at_ :
  estimate_rates r po co None b at_ Unspecified = None →
  estimate_rates r po' co' None b' None Unspecified = None.
Proof.
  unfold estimate_rates. cbv zeta.
  assert (∀ p p', _tier_for r p = None → _tier_for r p' = None) as Ht.
  { unfold _tier_for. intros p p'. destruct (find _ _); [done|].
    intros Hl. apply last_None in Hl. by rewrite Hl. }
  destruct (_tier_for r (Z.max (or_zero po) 0)) as [t|] eqn:E.
  - simpl. by destruct (cache_write_rate t).
  - by rewrite (Ht _ _ E).
Qed.

Lemma rejection_covers shape n :
  rejection ps i shape n = ""%string →
  ∃ p d, i !! n = Some (p, d) ∧ ∀ at_, is_Some (_estimate i shape n at_).
Proof.
  unfold rejection, _rejection, model, provider_of. intros H.
  destruct (i !! n) as [[p d]|] eqn:E; simpl in H; [|done].
  exists p, d. split; [done|]. intros at_.
  assert (estimate_cost_usd i (Some n) (Some 1) (Some 1) None false None Unspecified ≠ None) as Hp.
  { intros Hn. rewrite Hn in H.
    destruct (_ <? _); [done|]. destruct (if sh_batched shape then _ else _) as [r|] eqn:Er.
    - subst r. destruct (sh_batched shape); [|done]. unfold str_or in Er.
      by destruct (unavailable_reason ps i n) as [[]|].
    - destruct (negb _) eqn:Ee; [apply negb_true_iff, String.eqb_neq in Ee; by rewrite H in Ee|].
      destruct (max_output_tokens _); [|done]. by destruct (_ <? _). }
  unfold _estimate, estimate_cost_usd in *.
  destruct (rates_for i (Some n)) as [r|]; [|done].
  destruct (estimate_rates r _ _ None _ at_ Unspecified) eqn:Ee; [by eexists|].
  destruct Hp. eapply estimate_same_coverage. exact Ee.
Qed.

Lemma judge_eligible shape at_ n :
  rejection ps i shape n = ""%string →
  ∃ e, judge ps i shape at_ n = Eligible e ∧ el_name e = n ∧
    i !! n = Some (el_provider e, el_model e) ∧ _estimate i shape n at_ = Some (el_cost e).
Proof.
  intros H. destruct (rejection_covers shape n H) as (p & d & E & Hc).
  destruct (Hc at_) as [c Hest]. exists (mkEligible c n p d). unfold judge. rewrite H. simpl.
  unfold model, provider_of. rewrite E, Hest. by split_and!.
Qed.

Lemma judge_rejected shape at_ n :
  rejection ps i shape n ≠ ""%string →
  judge ps i shape at_ n = Rejected (n ++ ": " ++ rejection ps i shape n)%string.
Proof. intros H. unfold judge. by rewrite (proj2 (String.eqb_neq _ _) H). Qed.

Lemma judged_asserts shape at_ names : asserts (map (judge ps i shape at_) names) = true.
Proof.
  unfold asserts. apply forallb_forall. intros j Hj. apply in_map_iff in Hj as (n & <- & _).
  destruct (decide (rejection ps i shape n = ""%string)) as [H|H].
  - by destruct (judge_eligible shape at_ n H) as (e & -> & _).
  - by rewrite judge_rejected.
Qed.

Lemma elem_of_eligible shape at_ names e :
  e ∈ eligible_of (map (judge ps i shape at_) names) ↔
  el_name e ∈ names ∧ judge ps i shape at_ (el_name e) = Eligible e.
Proof.
  unfold eligible_of. rewrite list_elem_of_omap. split.
  - intros (j & Hj & He). apply list_elem_of_fmap in Hj as (n & -> & Hn).
    destruct (decide (rejection ps i shape n = ""%string)) as [H|H].
    + destruct (judge_eligible shape at_ n H) as (e' & E & <- & _). rewrite E in He. simplify_eq.
      done.
    + by rewrite judge_rejected in He.
  - intros [Hn He]. exists (Eligible e). split; [|done]. rewrite <- He.
    by apply (list_elem_of_fmap_2 (judge ps i shape at_)).
Qed.

Lemma eligible_split shape at_ names el1 e el2 :
  eligible_of (map (judge ps i shape at_) names) = el1 ++ e :: el2 →
  ∃ l1 l2, names = l1 ++ el_name e :: l2 ∧ eligible_of (map (judge ps i shape at_) l1) = el1.
Proof.
  revert el1. induction names as [|n names IH]; intros el1 H; [by destruct el1|].
  simpl in H. destruct (decide (rejection ps i shape n = ""%string)) as [Hr|Hr].
  - destruct (judge_eligible shape at_ n Hr) as (e' & E & Hn & _). rewrite E in H. simpl in H.
    destruct el1 as [|e1 el1]; simpl in H; injection H as <- H.
    + exists [], names. by rewrite Hn.
    + destruct (IH el1 H) as (l1 & l2 & -> & Hl). exists (n :: l1), l2. split; [done|].
      simpl. by rewrite E, <- Hl.
  - rewrite judge_rejected in H by done. destruct (IH el1 H) as (l1 & l2 & -> & Hl).
    exists (n :: l1), l2. split; [done|]. simpl. by rewrite judge_rejected, <- Hl.
Qed.

End lemmas.

(** ** Resolution *)

(** C20: routing chooses the cheapest model that can do the work. Without an
    override the chosen model is one the caller named, passes every declared need
    and costs no more than any other eligible candidate; ties keep the caller's
    order, every eligible candidate named before it being strictly dearer; and
    routing refuses exactly when no candidate is eligible. *)
Theorem resolve_cheapest ps i shape at_ :
  match resolve ps i shape at_ None with
  | Ok c =>
      fits ps i shape at_ c ∧ ch_overridden c = false ∧
      ∃ l1 l2, sh_candidates shape = l1 ++ ch_model c :: l2 ∧
        ∀ n, n ∈ sh_candidates shape → eligible ps i shape n = true →
          ∃ x y, ch_est_cost_usd c = Some x ∧ _estimate i shape n at_ = Some y ∧ Qcle x y ∧
            (n ∈ l1 → Qclt x y)
  | Err _ => ∀ n, n ∈ sh_candidates shape → eligible ps i shape n = false
  end.
Proof.
  unfold resolve. destruct (sh_candidates shape) as [|n0 ns] eqn:En; [by intros n ?%elem_of_nil|].
  rewrite <- En. simpl str_or. cbv iota zeta. rewrite judged_asserts. simpl negb. cbv iota.
  set (names := sh_candidates shape) in *. set (el := eligible_of _).
  assert (∀ n, n ∈ names → eligible ps i shape n = true → ∃ e, e ∈ el ∧ el_name e = n ∧
    _estimate i shape n at_ = Some (el_cost e)) as Hin.
  { intros n Hn Hr%eligible_true. destruct (judge_eligible ps i shape at_ n Hr) as (e & E & Hname & _ & Hc).
    exists e. split_and!; [|done..]. apply elem_of_eligible. by rewrite Hname. }
  destruct (min_by cheaper el) as [best|] eqn:Em.
  - pose proof (min_by_elem _ _ _ Em) as [Hbn Hbj]%elem_of_eligible.
    assert (rejection ps i shape (el_name best) = ""%string) as Hr.
    { destruct (decide (rejection ps i shape (el_name best) = ""%string)); [done|].
      by rewrite judge_rejected in Hbj. }
    destruct (judge_eligible ps i shape at_ _ Hr) as (e & E & _ & Hi & Hc).
    rewrite E in Hbj. injection Hbj as ->.
    destruct (min_by_first _ _ _ Em) as (el1 & el2 & Hel & Hfirst).
    destruct (eligible_split ps i shape at_ names el1 best el2 Hel) as (l1 & l2 & Hnames & Hl1).
    split; [|split; [done|]].
    + split; [by apply eligible_true|]. by exists (el_model best), (el_cost best).
    + exists l1, l2. split; [done|]. intros n Hn He.
      destruct (Hin n Hn He) as (e & Hee & Hne & Hce).
      exists (el_cost best), (el_cost e). split_and!; [done..| |].
      * apply qltb_ge. exact (min_by_le _ _ _ e Em Hee).
      * intros Hn1. apply qltb_lt. apply (Hfirst e). rewrite <- Hl1. apply elem_of_eligible.
        rewrite Hne. split; [done|].
        apply elem_of_eligible in Hee as [_ Hj]. by rewrite Hne in Hj.
  - intros n Hn. apply not_true_iff_false. intros He. apply min_by_None in Em.
    destruct (Hin n Hn He) as (e & Hee & _). rewrite Em in Hee. by apply elem_of_nil in Hee.
Qed.

(** An override replaces the caller's judgement and nothing else. A configured
    model is chosen exactly when it passes the task's declared needs, marked as
    overridden exactly when the caller had not named it; otherwise routing
    refuses rather than fall back to another model. *)
Theorem override_keeps_capability ps i shape at_ o :
  sh_candidates shape ≠ [] → o ≠ ""%string →
  match resolve ps i shape at_ (Some o) with
  | Ok c =>
      ch_model c = o ∧ fits ps i shape at_ c ∧
      ch_overridden c = negb (mem o (sh_candidates shape))
  | Err _ => eligible ps i shape o = false
  end.
Proof.
  intros Hne Ho. unfold resolve. destruct (sh_candidates shape) as [|n0 ns] eqn:En; [done|].
  rewrite <- En. assert (str_or (Some o) None = Some o) as -> by (by destruct o).
  unfold _resolve_override. cbv zeta. fold (eligible ps i shape o).
  destruct (eligible ps i shape o) eqn:E; simpl negb; cbv iota; [|done].
  apply eligible_true in E.
  destruct (rejection_covers ps i shape o E) as (p & d & Hi & Hc). destruct (Hc at_) as [cost Hcost].
  unfold model, provider_of. rewrite Hi. simpl. split_and!; [done| |done].
  split; [by apply eligible_true|]. by exists d, cost.
Qed.

Lemma override_keeps_capability_witness :
  ∃ c, resolve PROVIDERS MODELS demo_shape None (Some "gpt-6-sol"%string) = Ok c ∧
    ch_model c = "gpt-6-sol"%string ∧ ch_overridden c = true.
Proof.
  pose proof (override_keeps_capability PROVIDERS MODELS demo_shape None "gpt-6-sol"
                ltac:(discriminate) ltac:(discriminate)) as H.
  destruct (resolve PROVIDERS MODELS demo_shape None (Some "gpt-6-sol"%string)) as [c|e] eqn:E.
  - destruct H as (H1 & _ & H2). exists c. split; [reflexivity|]. split; [exact H1|].
    rewrite H2. vm_compute. reflexivity.
  - vm_compute in H. discriminate H.
Defined.

(** *** The catalogue's order *)

Lemma cost_leb_total a b : cost_leb a b = true ∨ cost_leb b a = true.
Proof.
  destruct a as [a|], b as [b|]; simpl; auto. rewrite !qleb_le.
  destruct (Qclt_le_dec a b) as [H|H]; [left; by apply Qclt_le_weak|by right].
Qed.

Lemma cost_leb_trans a b c : cost_leb a b = true → cost_leb b c = true → cost_leb a c = true.
Proof. destruct a, b, c; simpl; try done. rewrite !qleb_le. apply Qcle_trans. Qed.

Lemma candidacy_leb_spec a b :
  candidacy_leb a b = true ↔
  (ca_eligible a = true ∧ ca_eligible b = false) ∨
  (ca_eligible a = ca_eligible b ∧
     ((cost_leb (ca_est_cost_usd a) (ca_est_cost_usd b) = true ∧
       cost_leb (ca_est_cost_usd b) (ca_est_cost_usd a) = false) ∨
      (cost_leb (ca_est_cost_usd a) (ca_est_cost_usd b) = true ∧
       cost_leb (ca_est_cost_usd b) (ca_est_cost_usd a) = true ∧
       String.le (ca_model a) (ca_model b)))).
Proof.
  unfold candidacy_leb, String.le. rewrite Is_true_true.
  pose proof (cost_leb_total (ca_est_cost_usd a) (ca_est_cost_usd b)) as Ht.
  destruct (ca_eligible a), (ca_eligible b), (cost_leb (ca_est_cost_usd a) (ca_est_cost_usd b)),
    (cost_leb (ca_est_cost_usd b) (ca_est_cost_usd a)); simpl; intuition congruence.
Qed.

#[export] Instance candidacy_le_total : Total candidacy_le.
Proof.
  intros a b. unfold candidacy_le. rewrite !candidacy_leb_spec.
  pose proof (cost_leb_total (ca_est_cost_usd a) (ca_est_cost_usd b)) as Ht.
  pose proof (total String.le (ca_model a) (ca_model b)) as Hs.
  destruct (ca_eligible a), (ca_eligible b), (cost_leb (ca_est_cost_usd a) (ca_est_cost_usd b)),
    (cost_leb (ca_est_cost_usd b) (ca_est_cost_usd a)); intuition congruence.
Qed.

#[export] Instance candidacy_le_trans : Transitive candidacy_le.
Proof.
  intros a b c. unfold candidacy_le. rewrite !candidacy_leb_spec.
  pose proof (cost_leb_trans (ca_est_cost_usd a) (ca_est_cost_usd b) (ca_est_cost_usd c)) as T1.
  pose proof (cost_leb_trans (ca_est_cost_usd c) (ca_est_cost_usd b) (ca_est_cost_usd a)) as T2.
  pose proof (cost_leb_trans (ca_est_cost_usd b) (ca_est_cost_usd c) (ca_est_cost_usd a)) as T3.
  pose proof (cost_leb_trans (ca_est_cost_usd c) (ca_est_cost_usd a) (ca_est_cost_usd b)) as T4.
  pose proof (λ H1 H2, transitivity (R := String.le) (x := ca_model a) (y := ca_model b)
    (z := ca_model c) H1 H2) as Hs.
  destruct (ca_eligible a), (ca_eligible b), (ca_eligible c);
    destruct (cost_leb (ca_est_cost_usd a) (ca_est_cost_usd b)),
      (cost_leb (ca_est_cost_usd b) (ca_est_cost_usd a)),
      (cost_leb (ca_est_cost_usd b) (ca_est_cost_usd c)),
      (cost_leb (ca_est_cost_usd c) (ca_est_cost_usd b)),
      (cost_leb (ca_est_cost_usd a) (ca_est_cost_usd c)),
      (cost_leb (ca_est_cost_usd c) (ca_est_cost_usd a)); intuition congruence.
Qed.

Lemma elem_of_catalogue ps i shape at_ c :
  c ∈ candidates_for ps i shape at_ ↔
  ∃ p d, i !! ca_model c = Some (p, d) ∧ selectable d = true ∧
    c = candidacy ps i shape at_ (ca_model c) p d.
Proof.
  unfold candidates_for. rewrite merge_sort_Permutation, list_elem_of_omap. split.
  - intros (n & _ & Hn). destruct (i !! n) as [[p d]|] eqn:E; [|done].
    destruct (selectable d) eqn:Es; [|done]. simplify_eq. simpl. eauto.
  - intros (p & d & Hi & Hs & ->). exists (ca_model c). split.
    + unfold sorted_strings. rewrite merge_sort_Permutation, elem_of_elements, elem_of_dom. eauto.
    + rewrite Hi, Hs. done.
Qed.

(** The configuration screen lists every offered model once, best first. The
    list holds exactly one judgement for each selectable model of the registry,
    and is sorted: eligible before ineligible, cheaper before dearer, then by
    name; what is marked eligible is what routing would accept as an override. *)
Theorem catalogue_complete_sorted ps i shape at_ :
  StronglySorted candidacy_le (candidates_for ps i shape at_) ∧
  NoDup (ca_model <$> candidates_for ps i shape at_) ∧
  (∀ n, n ∈ ca_model <$> candidates_for ps i shape at_ ↔
     ∃ p d, i !! n = Some (p, d) ∧ selectable d = true) ∧
  (∀ c, c ∈ candidates_for ps i shape at_ →
     ca_eligible c = eligible ps i shape (ca_model c) ∧
     (ca_eligible c = true ↔ is_Some (ca_est_cost_usd c))).
Proof.
  split; [apply StronglySorted_merge_sort; apply _|]. split_and!.
  - unfold candidates_for. rewrite merge_sort_Permutation.
    eapply sublist_NoDup; [|apply omap_key_sublist].
    + unfold sorted_strings. rewrite merge_sort_Permutation. apply NoDup_elements.
    + intros n c. destruct (i !! n) as [[p d]|]; [|done]. destruct (selectable d); [|done].
      by intros [= <-].
  - intros n. rewrite list_elem_of_fmap. split.
    + intros (c & -> & (p & d & ? & ? & _)%elem_of_catalogue). eauto.
    + intros (p & d & Hi & Hs). exists (candidacy ps i shape at_ n p d). split; [done|].
      apply elem_of_catalogue. simpl. eauto.
  - intros c (p & d & Hi & Hs & Hc)%elem_of_catalogue. rewrite Hc. simpl.
    split; [done|]. destruct (String.eqb _ _) eqn:E.
    + apply String.eqb_eq in E. destruct (rejection_covers ps i shape _ E) as (? & ? & _ & H).
      split; intros; [apply H|done].
    + split; [done|by intros []].
Qed.

(** *** Chains *)

Section chains.
Context (ps : list Provider) (i : index).

Lemma resolve_single shape n at_ :
  match resolve ps i (with_candidates [n] shape) at_ None with
  | Ok c => eligible ps i shape n = true ∧ ch_model c = n ∧ provider_of i n = Some (ch_provider c)
  | Err _ => eligible ps i shape n = false
  end.
Proof.
  unfold resolve. simpl sh_candidates. simpl str_or. cbv iota zeta. rewrite judged_asserts.
  simpl negb. cbv iota. simpl map.
  destruct (decide (rejection ps i (with_candidates [n] shape) n = ""%string)) as [H|H].
  - destruct (judge_eligible ps i _ at_ n H) as (e & -> & <- & Hi & _). simpl.
    split_and!; [by apply eligible_true|done|]. unfold provider_of. by rewrite Hi.
  - rewrite judge_rejected by done. simpl. unfold eligible. by apply String.eqb_neq.
Qed.

Lemma next_choice_spec shape chain_ blocked tried at_ :
  match next_choice ps i shape chain_ blocked tried at_ with
  | Some c =>
      runnable ps i shape blocked tried (ch_model c) ∧
      provider_of i (ch_model c) = Some (ch_provider c) ∧
      ∃ l1 l2, chain_ = l1 ++ ch_model c :: l2 ∧ ∀ n, n ∈ l1 → ¬ runnable ps i shape blocked tried n
  | None => ∀ n, n ∈ chain_ → ¬ runnable ps i shape blocked tried n
  end.
Proof.
  induction chain_ as [|n rest IH]; simpl; [by intros n ?%elem_of_nil|].
  assert (¬ runnable ps i shape blocked tried n →
    match next_choice ps i shape rest blocked tried at_ with
    | Some c =>
        runnable ps i shape blocked tried (ch_model c) ∧
        provider_of i (ch_model c) = Some (ch_provider c) ∧
        ∃ l1 l2, n :: rest = l1 ++ ch_model c :: l2 ∧ ∀ n, n ∈ l1 → ¬ runnable ps i shape blocked tried n
    | None => ∀ n', n' ∈ n :: rest → ¬ runnable ps i shape blocked tried n'
    end) as Hskip.
  { intros Hn. destruct (next_choice ps i shape rest blocked tried at_) as [c|].
    - destruct IH as (H1 & H2 & l1 & l2 & -> & H3). split_and!; [done..|].
      exists (n :: l1), l2. split; [done|]. by intros n' [->|?]%elem_of_cons; auto.
    - intros n' [->|?]%elem_of_cons; auto. }
  destruct (_ || _) eqn:Eskip.
  { apply Hskip. intros (Ht & _ & Hb). apply orb_true_iff in Eskip as [H|H]; [by breflect|].
    destruct (provider_of i n) as [p|] eqn:Ep; [|done]. breflect. by apply (Hb p). }
  pose proof (resolve_single shape n at_) as Hres.
  destruct (resolve ps i (with_candidates [n] shape) at_ None) as [c|err].
  - destruct Hres as (He & Hm & Hp). simpl. rewrite Hm. split_and!; [|done|].
    + breflect. split_and!; [done..|]. intros p Hp'. by rewrite Hp' in *; breflect.
    + exists [], rest. split; [done|]. by intros n' ?%elem_of_nil.
  - apply Hskip. intros (_ & He & _). congruence.
Qed.
End chains.

(** a chain is walked in order and skips only what cannot run. The fallback
    chosen is the first entry that is untried, whose provider is not blocked and
    that passes the task's declared needs; there is none exactly when no entry
    is. *)
Theorem next_choice_first ps i shape chain_ blocked tried at_ :
  match next_choice ps i shape chain_ blocked tried at_ with
  | Some c =>
      runnable ps i shape blocked tried (ch_model c) ∧
      ∃ l1 l2, chain_ = l1 ++ ch_model c :: l2 ∧
        ∀ n, n ∈ l1 → ¬ runnable ps i shape blocked tried n
  | None => ∀ n, n ∈ chain_ → ¬ runnable ps i shape blocked tried n
  end.
Proof.
  pose proof (next_choice_spec ps i shape chain_ blocked tried at_) as H.
  by destruct (next_choice _ _ _ _ _ _ _) as [c|]; [destruct H as (? & _ & ?)|].
Qed.

Lemma elem_of_usable e purpose_ primary n :
  n ∈ usable e purpose_ primary (chain e purpose_) ↔ may_answer e purpose_ primary n.
Proof.
  unfold usable, equivalent, may_answer. destruct (_VERDICT_KIND purpose_) as [k|]; simpl.
  - rewrite list_elem_of_filter. naive_solver.
  - naive_solver.
Qed.

Lemma avoided_spec ps e p : p ∈ re_blocked e ∪ unkeyed ps e ↔ avoided ps e p.
Proof.
  unfold avoided, unkeyed. rewrite elem_of_union, elem_of_list_to_set, list_elem_of_filter.
  naive_solver.
Qed.

Lemma runnable_can_take ps i e shape primary n :
  runnable ps i shape (re_blocked e ∪ unkeyed ps e) {[ primary ]} n ↔
  can_take ps i e shape primary n.
Proof.
  unfold runnable, can_take. rewrite not_elem_of_singleton.
  split; intros (H1 & H2 & H3); split_and!; auto; intros p Hp.
  - intros Ha. by apply (H3 p Hp), avoided_spec.
  - intros Ha. by apply (H3 p Hp), avoided_spec.
Qed.

(** work moves only off an exhausted provider, and only to a model it may use.
    Routing answers what resolution chose unless that model's provider is
    blocked. Then it answers an entry of the purpose's chain, recorded as a
    fallback from the chosen model, that is another model, fits the task, is on a
    provider neither blocked nor without a key, and for a verdict purpose gives
    verdicts that count as the chosen model's; or the chosen model itself, when
    no such entry of the chain can run. *)
Theorem route_moves_only_when_blocked ps i e shape override :
  match route ps i e shape override with
  | Err m => resolve ps i shape None override = Err m
  | Ok c =>
      ∃ chosen, resolve ps i shape None override = Ok chosen ∧
        let primary := ch_model chosen in
        if decide (ch_provider chosen ∈ re_blocked e)
        then (c = chosen ∧
                ∀ n, may_answer e (purpose shape) primary n → ¬ can_take ps i e shape primary n) ∨
             (ch_fallback_from c = Some primary ∧
                provider_of i (ch_model c) = Some (ch_provider c) ∧
                may_answer e (purpose shape) primary (ch_model c) ∧
                can_take ps i e shape primary (ch_model c))
        else c = chosen
  end.
Proof.
  unfold route. destruct (resolve ps i shape None override) as [chosen|err]; simpl; [|done].
  case_bool_decide as Hb; [|exists chosen; split; [done|]; by rewrite decide_False].
  exists chosen. split; [done|]. rewrite decide_True by done. unfold next_for.
  setoid_rewrite <- elem_of_usable. setoid_rewrite <- runnable_can_take.
  set (ms := usable _ _ _ _). set (avoid := re_blocked e ∪ unkeyed ps e).
  destruct ms as [|m0 ms'] eqn:Ems; [left; split; [done|]; by intros n ?%elem_of_nil|].
  rewrite <- Ems. clear Ems.
  pose proof (next_choice_spec ps i shape ms avoid {[ ch_model chosen ]} None) as Hn.
  destruct (next_choice ps i shape ms avoid {[ ch_model chosen ]} None) as [c|]; simpl.
  - right. destruct Hn as (Hrun & Hpr & l1 & l2 & Hms & _).
    split_and!; [done|done|rewrite Hms; set_solver|done].
  - by left.
Qed.

(** *** Alerts *)

Lemma filter_map_open p f l :
  (∀ a, open_for p (f a) = open_for p a) →
  length (filter (λ a, open_for p a = true) (map f l)) =
  length (filter (λ a, open_for p a = true) l).
Proof.
  intros H. induction l as [|a l IH]; [done|]. simpl. rewrite !filter_cons, H.
  case_decide; simpl; congruence.
Qed.

Lemma blocked_spec cycle now l p :
  p ∈ blocked_providers cycle now l ↔
  ∃ a, a ∈ l ∧ open_for p a = true ∧ skipped cycle now a = true.
Proof.
  unfold blocked_providers, exhausted. rewrite elem_of_list_to_set, list_elem_of_fmap.
  setoid_rewrite list_elem_of_filter. setoid_rewrite list_elem_of_fmap.
  setoid_rewrite list_elem_of_filter. unfold open_for. split.
  - intros ([a s] & -> & Hs & a' & [= -> ->] & Ho & Hin). simpl in *. exists a'.
    by rewrite String.eqb_refl, bool_decide_eq_true_2.
  - intros (a & Hin & [<-%String.eqb_eq Ho%bool_decide_eq_true]%andb_true_iff & Hs).
    exists (a, true). split_and!; [done..|]. exists a. by rewrite Hs.
Qed.

(** What [mark] and [clear] do to each open row. *)
Lemma mark_rows now p r l a :
  a ∈ fst (mark now p r l) → open_for p a = true → al_last_seen a = now.
Proof.
  unfold mark. destruct (existsb _ l) eqn:E; simpl.
  - intros (a0 & -> & Ha)%list_elem_of_fmap. destruct (open_for p a0) eqn:Ho; [done|congruence].
  - rewrite elem_of_app, list_elem_of_singleton. intros [Ha| ->]; [|done]. intros Ho.
    rewrite <- not_true_iff_false, existsb_exists in E. destruct E. exists a.
    split; [by apply list_elem_of_In|done].
Qed.

Lemma mark_opens now p r l : ∃ a, a ∈ fst (mark now p r l) ∧ open_for p a = true.
Proof.
  unfold mark. destruct (existsb _ l) eqn:E; simpl.
  - apply existsb_exists in E as (a & Ha%list_elem_of_In & Ho).
    exists (mkAlert (al_subject a) (al_reason a) (al_first_seen a) now None). split.
    + apply list_elem_of_fmap. exists a. by rewrite Ho.
    + unfold open_for in *. simpl. by apply andb_true_iff in Ho as [-> _].
  - exists (mkAlert p r now now None). split; [set_solver|].
    unfold open_for. simpl. by rewrite String.eqb_refl.
Qed.

Lemma open_for_other p q a : p ≠ q → open_for p a = true → open_for q a = false.
Proof.
  unfold open_for. intros Hne [->%String.eqb_eq _]%andb_true_iff.
  by rewrite (proj2 (String.eqb_neq _ _) Hne).
Qed.

(** [mark] and [clear] leave the other providers' rows alone. *)
Lemma mark_other now p r l q a :
  p ≠ q → open_for q a = true → a ∈ fst (mark now p r l) ↔ a ∈ l.
Proof.
  intros Hne Ho. unfold mark. destruct (existsb _ l); simpl.
  - rewrite list_elem_of_fmap. split.
    + intros (a0 & -> & Ha). destruct (open_for p a0) eqn:E; [|done].
      exfalso. apply andb_true_iff in E as [E _]. apply andb_true_iff in Ho as [Ho _]. simpl in Ho.
      apply String.eqb_eq in E, Ho. congruence.
    + intros Ha. exists a. by rewrite (open_for_other q p a).
  - rewrite elem_of_app, list_elem_of_singleton. split; [|by left]. intros [Ha| ->]; [done|].
    exfalso. apply andb_true_iff in Ho as [Ho%String.eqb_eq _]. done.
Qed.

(** A provider is skipped for one cycle after its last refusal, and no longer.
    There is never more than one open alert for it; a refusal blocks it until one
    cycle later and no further, so it is tried again; a submission it accepts
    unblocks it at once; and neither touches another provider. *)
Theorem exhaustion_window cycle t now p q r l :
  open_unique l → p ≠ q →
  open_unique (fst (mark t p r l)) ∧ open_unique (clear t p l) ∧
  (p ∈ blocked_providers cycle now (fst (mark t p r l)) ↔ now < t + cycle * MICROS_PER_MINUTE) ∧
  p ∉ blocked_providers cycle now (clear t p l) ∧
  (q ∈ blocked_providers cycle now (fst (mark t p r l)) ↔ q ∈ blocked_providers cycle now l).
Proof.
  intros Hu Hne. split_and!.
  - intros p'. specialize (Hu p'). unfold mark. destruct (existsb (open_for p) l) eqn:E; simpl.
    + rewrite filter_map_open; [done|]. intros a. destruct (open_for p a) eqn:Ea; [|done].
      unfold open_for in *. simpl. apply andb_true_iff in Ea as [_ Ea]. by rewrite Ea.
    + rewrite filter_app, length_app, filter_cons. case_decide as Hp; simpl; [|lia].
      assert (p' = p) as ->.
      { unfold open_for in Hp. simpl in Hp. apply andb_true_iff in Hp as [Hp%String.eqb_eq _]. done. }
      assert (filter (λ a, open_for p a = true) l = []) as ->; [|simpl; lia].
      destruct (filter _ l) as [|a fl] eqn:Ef; [done|].
      assert (a ∈ a :: fl) as Ha by (by left). rewrite <- Ef in Ha.
      apply list_elem_of_filter in Ha as [Ho Ha%list_elem_of_In].
      rewrite <- not_true_iff_false, existsb_exists in E. destruct E. eauto.
  - intros p'. specialize (Hu p'). etrans; [|exact Hu]. clear Hu. unfold clear.
    induction l as [|a l IH]; simpl; [done|]. rewrite !filter_cons.
    destruct (open_for p a) eqn:Ea.
    + rewrite decide_False; [case_decide; simpl; lia|].
      unfold open_for. simpl. rewrite andb_false_r. done.
    + case_decide; simpl; lia.
  - rewrite blocked_spec. unfold skipped. split.
    + intros (a & Ha & Ho & Hs). rewrite (mark_rows _ _ _ _ _ Ha Ho) in Hs. breflect. lia.
    + intros Hlt. destruct (mark_opens t p r l) as (a & Ha & Ho). exists a. split_and!; [done..|].
      rewrite (mark_rows _ _ _ _ _ Ha Ho). apply Z.ltb_lt. lia.
  - rewrite blocked_spec. intros (a & Ha & Ho & _). unfold clear in Ha.
    apply list_elem_of_fmap in Ha as (a0 & -> & Ha). destruct (open_for p a0) eqn:E; [|congruence].
    unfold open_for in Ho. simpl in Ho. by rewrite andb_false_r in Ho.
  - rewrite !blocked_spec. split; intros (a & Ha & Ho & Hs); exists a; (split; [|done]);
      by apply (mark_other t p r l q a).
Qed.

Lemma exhaustion_window_witness :
  "openai"%string ∈ blocked_providers 60 (5 * MICROS_PER_MINUTE)
    (fst (mark 0 "openai" "quota" [])) ∧
  "openai"%string ∉ blocked_providers 60 (60 * MICROS_PER_MINUTE)
    (fst (mark 0 "openai" "quota" [])).
Proof.
  assert (open_unique []) as Hu by (intros p; simpl; lia).
  assert ("openai" ≠ "xai")%string as Hne by discriminate.
  split.
  - apply (exhaustion_window 60 0 (5 * MICROS_PER_MINUTE) "openai" "xai" "quota" [] Hu Hne). reflexivity.
  - rewrite (proj1 (proj2 (proj2 (exhaustion_window 60 0 (60 * MICROS_PER_MINUTE) "openai" "xai"
      "quota" [] Hu Hne)))). discriminate.
Defined.
