(* ===== verification/BudgetProps.v ===== *)
(** * What the budget and access rules guarantee

    The weekly ceiling, the key a person's call is sent with, the equivalence of
    verdicts, and the declared tasks against the declared registry. *)

From S2P Require Import Prelude PyStr Sql Spec Datasheets Pricing Routing Fallback Shapes Access.

#[local] Opaque MODELS registry PROVIDERS.

(** Fleet calls of one week, each submitted after the check admitted its projected
    cost and billed no more than that. *)
Inductive week_run (ps : list Provider) (i : index) (shapes : list TaskShape)
    (config : string → Z) (overrides : option (list (string * option string))) (week : Z)
    : list model_call → Prop :=
| wr_start calls now :
    week_start now = week →
    Qcle (fleet_spend_this_week now calls)
      (bs_ceiling_usd (fleet_budget_status ps i shapes config overrides now calls None)) →
    week_run ps i shapes config overrides week calls
| wr_submit calls now projected c x :
    week_run ps i shapes config overrides week calls →
    week_start now = week →
    check_fleet_budget ps i shapes config overrides now calls (Some projected) = Ok tt →
    mc_cost_usd c = Some x → Qcle x projected → Qcle 0 x →
    week_run ps i shapes config overrides week (calls ++ [c]).

(** A name kept together with its kind. *)
Definition grouped (root : list Group) : list (string * string) :=
  root ≫= λ g, (λ n, (g_kind g, n)) <$> g_models g.

(** What running a task as declared means: its one candidate is chosen and the
    effort sent is one that model accepts. *)
Definition runs_as_declared (ps : list Provider) (i : index) (s : TaskShape) : bool :=
  match resolve ps i s None None with
  | Ok c =>
      bool_decide (sh_candidates s = [ch_model c]) &&
      match model i (ch_model c) with
      | Some d =>
          match param (reasoning d) with
          | Some p =>
              match ch_params c !! p with
              | Some (JStr e) => mem e (accepts (reasoning d))
              | _ => false
              end
          | None => false
          end
      | None => false
      end
  | Err _ => false
  end.

(** No provider and no model has an empty name. *)
Definition well_named (ps : list Provider) : Prop :=
  ∀ p, p ∈ ps → p_name p ≠ ""%string ∧ ∀ d, d ∈ models p → m_name d ≠ ""%string.

(** ** Lemmas *)

Lemma spend_app now calls c :
  fleet_spend_this_week now (calls ++ [c]) =
  match mc_user_id c, mc_cost_usd c with
  | None, Some cost =>
      if week_start now <=? mc_created_at c
      then (fleet_spend_this_week now calls + cost)%Qc else fleet_spend_this_week now calls
  | _, _ => fleet_spend_this_week now calls
  end.
Proof. unfold fleet_spend_this_week. by rewrite foldl_app. Qed.

Lemma spend_same_week now now' calls :
  week_start now = week_start now' →
  fleet_spend_this_week now calls = fleet_spend_this_week now' calls.
Proof. intros H. unfold fleet_spend_this_week. by rewrite H. Qed.

Section ceiling.
Context (ps : list Provider) (i : index) (shapes : list TaskShape)
  (config : string → Z) (overrides : option (list (string * option string))).

Notation status := (fleet_budget_status ps i shapes config overrides).

(** The ceiling depends on the configuration alone. *)
Lemma ceiling_fixed now now' calls calls' p p' :
  bs_ceiling_usd (status now calls p) = bs_ceiling_usd (status now' calls' p').
Proof. done. Qed.

Lemma check_ok now calls projected :
  check_fleet_budget ps i shapes config overrides now calls (Some projected) = Ok tt ↔
  bs_enabled (status now calls None) = false ∨
  (Qclt (fleet_spend_this_week now calls) (bs_ceiling_usd (status now calls None)) ∧
   Qcle (fleet_spend_this_week now calls + projected)%Qc
     (bs_ceiling_usd (status now calls None))).
Proof.
  unfold check_fleet_budget. cbv zeta.
  change (bs_enabled (status now calls (Some projected))) with (bs_enabled (status now calls None)).
  destruct (bs_enabled (status now calls None)) eqn:E; simpl negb; cbv iota; [|by split; auto].
  change (bs_ceiling_usd (status now calls (Some projected)))
    with (bs_ceiling_usd (status now calls None)).
  change (bs_spent_usd (status now calls (Some projected))) with (fleet_spend_this_week now calls).
  assert (bs_projected_exceeds (status now calls (Some projected)) =
    qltb (bs_ceiling_usd (status now calls None)) (fleet_spend_this_week now calls + projected)%Qc) as ->.
  { unfold bs_projected_exceeds, fleet_budget_status. simpl in E |- *.
    apply andb_true_iff in E as [_ E]. by rewrite E. }
  unfold qleb. generalize (bs_ceiling_usd (status now calls None)) as C.
  generalize (fleet_spend_this_week now calls) as S. intros S C.
  destruct (qltb C (S + projected)%Qc) eqn:E1; simpl; [|destruct (qltb S C) eqn:E2; simpl].
  - split; [done|]. intros [?|[_ Hle]]; [done|]. apply qltb_lt in E1. by apply Qcle_not_lt in Hle.
  - split; [|done]. intros _. right. split; [by apply qltb_lt|by apply qltb_ge].
  - split; [done|]. intros [?|[Hlt _]]; [done|]. apply qltb_lt in Hlt. congruence.
Qed.
End ceiling.

(** ** The weekly ceiling *)



(** *** Equivalence groups *)

Lemma group_names_spec i kind names seen seen' :
  group_names i kind names seen = Some seen' →
  (∀ n, n ∈ names → (kind, n) ∉ seen ∧ is_Some (i !! n)) ∧ NoDup names ∧
  ∀ x, x ∈ seen' ↔ x ∈ seen ∨ ∃ n, n ∈ names ∧ x = (kind, n).
Proof.
  revert seen. induction names as [|n names IH]; intros seen; simpl.
  - intros [= <-]. split_and!; [by intros n ?%elem_of_nil|constructor|]. set_solver.
  - destruct (bool_decide (is_Some (i !! n))) eqn:Ei; [|done].
    destruct (bool_decide ((kind, n) ∈ seen)) eqn:Es; [done|]. simpl. breflect.
    intros (Hall & Hnd & Hseen)%IH. split_and!.
    + intros n' [->|Hn']%elem_of_cons; [done|]. destruct (Hall n' Hn') as [Hn ?]. set_solver.
    + apply NoDup_cons. split; [|done]. intros Hn. destruct (Hall n Hn) as [Hns _]. set_solver.
    + intros x. rewrite Hseen. set_solver.
Qed.

Lemma known_disjoint_spec i root seen seen' :
  known_and_disjoint i root seen = Some seen' →
  NoDup (grouped root) ∧ (∀ x, x ∈ grouped root → x ∉ seen).
Proof.
  revert seen. induction root as [|g root IH]; intros seen; simpl.
  - intros _. split; [constructor|by intros x ?%elem_of_nil].
  - case_bool_decide as Hnd; [|done].
    destruct (group_names i (g_kind g) (g_models g) seen) as [seen1|] eqn:Eg; [|done].
    intros [Hr Hrs]%IH. apply group_names_spec in Eg as (Hall & _ & Hseen).
    unfold grouped. csimpl. fold (grouped root). split.
    + apply NoDup_app. split_and!; [|intros x Hx Hx'|done].
      * apply NoDup_fmap_2; [|done]. by intros ?? [=].
      * apply list_elem_of_fmap in Hx as (n & -> & Hn). apply (Hrs _ Hx'), Hseen. eauto.
    + intros x [(n & -> & Hn)%list_elem_of_fmap|Hx]%elem_of_app; [by apply Hall|].
      intros Hxs. apply (Hrs x Hx), Hseen. by left.
Qed.

Lemma elem_of_answering root kind a b :
  b ∈ answering root kind a ↔
  (∃ g, find (λ g, String.eqb (g_kind g) kind && mem a (g_models g)) root = Some g ∧ b ∈ g_models g)
  ∨ (find (λ g, String.eqb (g_kind g) kind && mem a (g_models g)) root = None ∧ b = a).
Proof.
  unfold answering. destruct (find _ root) as [g|]; simpl.
  - unfold sorted_strings. rewrite merge_sort_Permutation. naive_solver.
  - rewrite list_elem_of_singleton. naive_solver.
Qed.

(** Disjoint groups: a name finds its group through any member. *)
Lemma find_group root kind a b g :
  NoDup (grouped root) →
  find (λ g, String.eqb (g_kind g) kind && mem a (g_models g)) root = Some g → b ∈ g_models g →
  find (λ g, String.eqb (g_kind g) kind && mem b (g_models g)) root = Some g.
Proof.
  induction root as [|g0 root IH]; simpl; [done|]. unfold grouped. csimpl. fold (grouped root).
  intros (_ & Hdis & Hnd)%NoDup_app.
  destruct (String.eqb (g_kind g0) kind && mem a (g_models g0)) eqn:Ea.
  - intros [= ->] Hb. apply andb_true_iff in Ea as [-> _]. unfold mem.
    by rewrite bool_decide_eq_true_2.
  - intros Hf Hb. destruct (String.eqb (g_kind g0) kind && mem b (g_models g0)) eqn:Eb; [|by apply IH].
    exfalso. apply andb_true_iff in Eb as [Ek%String.eqb_eq Eb%bool_decide_eq_true].
    apply find_some in Hf as [Hin [Hk%String.eqb_eq _]%andb_true_iff].
    apply (Hdis (g_kind g0, b)); [by apply (list_elem_of_fmap_2 (λ n, (g_kind g0, n)))|].
    apply list_elem_of_bind. exists g. split; [|by apply list_elem_of_In].
    rewrite Ek, <- Hk. by apply (list_elem_of_fmap_2 (λ n, (g_kind g, n))).
Qed.

(** ** Verdict equivalence *)

(** An accepted setting is an equivalence. Within one kind, a model's verdicts
    count as its own; if one model's count as another's then so do the other's as
    the first's; and counting is transitive: readers and the fallback agree
    whichever model they start from. *)
Theorem answering_equivalence i root kind a b c :
  equivalence_valid i root = true →
  a ∈ answering root kind a ∧
  (b ∈ answering root kind a → a ∈ answering root kind b) ∧
  (b ∈ answering root kind a → c ∈ answering root kind b → c ∈ answering root kind a).
Proof.
  unfold equivalence_valid. intros [_ Hk]%andb_true_iff.
  destruct (known_and_disjoint i root ∅) as [s|] eqn:E; [|done].
  apply known_disjoint_spec in E as [Hnd _]. clear Hk.
  assert (∀ x g, find (λ g, String.eqb (g_kind g) kind && mem x (g_models g)) root = Some g →
    x ∈ g_models g) as Hself.
  { intros x g [_ [_ H]%andb_true_iff]%find_some. by apply bool_decide_eq_true in H. }
  rewrite !elem_of_answering. split_and!.
  - destruct (find _ root) as [g|] eqn:Ef; [left|by right]. exists g. split; [done|]. by apply Hself.
  - intros [(g & Hg & Hb)|[Hn ->]]; [left|by right]. exists g. split; [|by apply Hself].
    by apply (find_group root kind a).
  - intros [(g & Hg & Hb)|[Hn ->]]; [|done]. rewrite (find_group root kind a b g) by done.
    intros [(g' & [= <-] & Hc)|[? _]]; [|done]. left. eauto.
Qed.

Lemma answering_equivalence_witness :
  let root := [mkGroup "custom" ["gpt-6-luna"; "claude-haiku-5-5"]%string] in
  "claude-haiku-5-5"%string ∈ answering root "custom" "gpt-6-luna" ∧
  "gpt-6-luna"%string ∈ answering root "custom" "claude-haiku-5-5".
Proof.
  assert ("claude-haiku-5-5"%string ∈
    answering [mkGroup "custom" ["gpt-6-luna"; "claude-haiku-5-5"]%string] "custom" "gpt-6-luna") as Hb.
  { apply elem_of_answering. left. eexists. split; [vm_compute; reflexivity|]. right. left. }
  split; [exact Hb|].
  destruct (answering_equivalence MODELS [mkGroup "custom" ["gpt-6-luna"; "claude-haiku-5-5"]%string]
              "custom" "gpt-6-luna" "claude-haiku-5-5" "gpt-6-luna") as (_ & H & _);
    [vm_compute; reflexivity|]. exact (H Hb).
Defined.

(** *** Access *)

Lemma elem_of_sorted_strings x l : x ∈ sorted_strings l ↔ x ∈ l.
Proof. unfold sorted_strings. by rewrite merge_sort_Permutation. Qed.

Lemma str_or_Some a b x : str_or a b = Some x → a = Some x ∨ b = Some x.
Proof. destruct a as [[|? ?]|]; simpl; auto. Qed.

Lemma str_or_truthy a x : str_or a None = Some x ↔ a = Some x ∧ x ≠ ""%string.
Proof. destruct a as [[|? ?]|]; simpl; naive_solver. Qed.

(** An allowed model is offered by a provider the host holds a key for. *)
Lemma allowed_keyed ps environ table gs m :
  m ∈ owner_allowed_models ps environ table gs →
  ∃ p d, p ∈ ps ∧ has_key ps environ (p_name p) = true ∧ d ∈ models p ∧ m_name d = m ∧
    selectable d = true.
Proof.
  unfold owner_allowed_models. destruct gs as [|g gs]; [by intros ?%elem_of_nil|].
  rewrite elem_of_sorted_strings, elem_of_elements, elem_of_intersection, (elem_of_list_to_set m).
  intros [_ (p & Hm & Hp)%list_elem_of_bind]. destruct (has_key ps environ (p_name p)) eqn:Ek.
  - unfold MODEL_CATALOG in Hm. apply list_elem_of_fmap in Hm as (d & -> & [Hs Hd]%list_elem_of_filter).
    exists p, d. split_and!; done.
  - by apply elem_of_nil in Hm.
Qed.

Lemma owner_model_allowed ps chosen allowed m :
  owner_model ps chosen allowed = Some m → m ∈ allowed.
Proof.
  unfold owner_model, mem. intros H.
  repeat (case_match || case_bool_decide); simplify_eq; try done;
    by apply head_Some_elem_of.
Qed.

Lemma owner_model_none ps chosen allowed : owner_model ps chosen allowed = None → allowed = [].
Proof.
  unfold owner_model, mem. intros H.
  repeat (case_match || case_bool_decide); simplify_eq; by apply head_None.
Qed.

Lemma owner_config_correct ps i environ table creds e :
  _index ps = Ok i → well_named ps →
  match owner_config ps i environ table creds e with
  | Ok cf =>
      let allowed := owner_allowed_models ps environ table (groups e) in
      String.eqb (cf_key_source cf) "byo" = false ∧
      owner_key e = true ∧ budget_exhausted e = false ∧ cf_model cf ∈ allowed ∧
      (∃ pr d, pr ∈ ps ∧ p_name pr = cf_provider cf ∧ d ∈ models pr ∧ m_name d = cf_model cf) ∧
      cf_api_key cf = server_key ps environ (cf_provider cf) ∧ cf_api_key cf ≠ ""%string ∧
      cf_params cf !! "temperature"%string = None ∧
      (∀ c, ai_model creds = Some c → c ≠ ""%string →
         if decide (c ∈ allowed) then cf_model cf = c ∧ cf_substituted_from cf = None
         else cf_substituted_from cf = Some c)
  | Err NO_MODEL => False
  | Err BUDGET_EXCEEDED => owner_key e = true ∧ budget_exhausted e = true
  | Err NO_API_KEY =>
      owner_key e = false ∨ owner_allowed_models ps environ table (groups e) = []
  end.
Proof.
  intros Hi Hw. unfold owner_config. destruct (owner_key e); simpl; [|by left].
  destruct (budget_exhausted e); [done|]. set (allowed := owner_allowed_models _ _ _ _).
  destruct (owner_model ps (ai_model creds) allowed) as [m|] eqn:Em.
  2:{ right. by eapply owner_model_none. }
  pose proof (owner_model_allowed _ _ _ _ Em) as Hm.
  destruct (allowed_keyed _ _ _ _ _ Hm) as (p & d & Hp & Hk & Hd & Hname & _).
  destruct (Hw p Hp) as [Hpn Hmn]. specialize (Hmn d Hd).
  assert (str_or (Some m) None = Some m) as -> by (apply str_or_truthy; split; congruence).
  assert (provider_of i m = Some (p_name p)) as Hpo.
  { unfold provider_of. rewrite (proj2 (index_lookup ps i m (p_name p) d Hi)); [done|]. eauto. }
  rewrite Hpo. assert (str_or (Some (p_name p)) None = Some (p_name p)) as ->
    by (by apply str_or_truthy). simpl. split_and!; try done.
  - exists p, d. by split_and!.
  - unfold has_key in Hk. intros He. by rewrite He in Hk.
  - by rewrite lookup_delete_eq.
  - intros c Hc Hne. rewrite Hc in *. unfold owner_model, mem in *. case_decide as Hin.
    + rewrite bool_decide_eq_true_2 in * by done. by simplify_eq.
    + rewrite bool_decide_eq_false_2 by done. by apply str_or_truthy.
Qed.

(** ** Whose key a person's call uses *)

(** A person's call is paid by the right key or refused with the right reason.
    A configuration on the server's key is given only to a person entitled to it
    with budget left, names a model their groups allow, runs it on the provider
    that declares it with that provider's key, which the host holds, drops the
    temperature, keeps the person's choice when it is allowed and says what it
    replaced when it is not; one on their own key uses exactly their provider and
    key. A refusal names a missing model, a missing key or a spent budget only
    when that is so. *)
Theorem ai_config_correct ps i environ decrypt table creds e :
  _index ps = Ok i → well_named ps →
  match resolve_ai_config ps i environ decrypt table creds e with
  | Ok cf =>
      let allowed := owner_allowed_models ps environ table (groups e) in
      if String.eqb (cf_key_source cf) "byo" then
        has_byo_key e = true ∧ cf_provider cf = ai_provider creds ∧
        cf_api_key cf = decrypt (default "" (api_key_enc creds))%string
      else
        owner_key e = true ∧ budget_exhausted e = false ∧ cf_model cf ∈ allowed ∧
        (∃ pr d, pr ∈ ps ∧ p_name pr = cf_provider cf ∧ d ∈ models pr ∧ m_name d = cf_model cf) ∧
        cf_api_key cf = server_key ps environ (cf_provider cf) ∧ cf_api_key cf ≠ ""%string ∧
        cf_params cf !! "temperature"%string = None ∧
        (∀ c, ai_model creds = Some c → c ≠ ""%string →
           if decide (c ∈ allowed) then cf_model cf = c ∧ cf_substituted_from cf = None
           else cf_substituted_from cf = Some c)
  | Err NO_MODEL => has_byo_key e = true
  | Err BUDGET_EXCEEDED => owner_key e = true ∧ budget_exhausted e = true
  | Err NO_API_KEY =>
      owner_key e = false ∨ owner_allowed_models ps environ table (groups e) = []
  end.
Proof.
  intros Hi Hw. pose proof (owner_config_correct ps i environ table creds e Hi Hw) as Ho.
  unfold resolve_ai_config.
  destruct (has_byo_key e) eqn:Eb; [destruct (str_or (api_key_enc creds) None) as [enc|] eqn:Ek|].
  - apply str_or_truthy in Ek as [-> _].
    destruct (str_or (str_or _ _) None); simpl; [by split_and!|done].
  - destruct (owner_config _ _ _ _ _ _) as [cf|[]]; [|done..].
    destruct Ho as [Hk Ho]. rewrite Hk. exact Ho.
  - destruct (owner_config _ _ _ _ _ _) as [cf|[]]; [|done..].
    destruct Ho as [Hk Ho]. rewrite Hk. exact Ho.
Qed.

Lemma PROVIDERS_named : well_named PROVIDERS.
Proof.
  assert (forallb (λ p, negb (String.eqb (p_name p) "") &&
    forallb (λ d, negb (String.eqb (m_name d) "")) (models p)) PROVIDERS = true) as H
    by (vm_compute; reflexivity).
  intros p Hp%list_elem_of_In. apply (proj1 (forallb_forall _ _) H) in Hp.
  apply andb_true_iff in Hp as [Hn Hm]. apply negb_true_iff, String.eqb_neq in Hn.
  split; [exact Hn|]. intros d Hd%list_elem_of_In.
  apply (proj1 (forallb_forall _ _) Hm), negb_true_iff, String.eqb_neq in Hd. exact Hd.
Qed.

Lemma PROVIDERS_index : _index PROVIDERS = Ok MODELS.
Proof. apply registry_built. vm_compute. reflexivity. Qed.

Lemma ai_config_correct_witness :
  let environ := {[ "OPENAI_API_KEY" := "k" ]}%string in
  let table := [mkBudget "staff" (Some 1000) None] in
  let creds := mkCreds "openai" (Some "gpt-6-sol"%string) None ∅ None in
  let e := mkEntitlement true (Some 1000) 0 false ["staff"%string] in
  ∃ cf, resolve_ai_config PROVIDERS MODELS environ (λ s, s) table creds e = Ok cf ∧
    cf_substituted_from cf = Some "gpt-6-sol"%string ∧ cf_api_key cf ≠ ""%string.
Proof.
  intros environ table creds e.
  pose proof (ai_config_correct PROVIDERS MODELS environ (λ s, s) table creds e
                PROVIDERS_index PROVIDERS_named) as H.
  destruct (resolve_ai_config PROVIDERS MODELS environ (λ s, s) table creds e) as [cf|r] eqn:E.
  - exists cf. split; [reflexivity|].
    assert (String.eqb (cf_key_source cf) "byo" = false) as Hb.
    { vm_compute in E. injection E as <-. reflexivity. }
    assert (cf_substituted_from cf = Some "gpt-6-sol"%string) as Hs.
    { vm_compute in E. injection E as <-. reflexivity. }
    cbv zeta in H. rewrite Hb in H. split; [exact Hs|].
    exact (proj1 (proj2 (proj2 (proj2 (proj2 (proj2 H)))))).
  - vm_compute in E. discriminate E.
Defined.

(** ** Declared tasks *)

Lemma runs_as_declared_spec ps i s :
  runs_as_declared ps i s = true →
  ∃ c d p e, resolve ps i s None None = Ok c ∧ sh_candidates s = [ch_model c] ∧
    model i (ch_model c) = Some d ∧ param (reasoning d) = Some p ∧
    ch_params c !! p = Some (JStr e) ∧ e ∈ accepts (reasoning d).
Proof.
  unfold runs_as_declared. destruct (resolve ps i s None None) as [c|]; [|done].
  intros [Hc Hs]%andb_true_iff. apply bool_decide_eq_true in Hc.
  destruct (model i (ch_model c)) as [d|] eqn:Ed; [|done].
  destruct (param (reasoning d)) as [p|] eqn:Epar; [|done].
  destruct (ch_params c !! p) as [[| | |e| |]|] eqn:Ep; try done. apply bool_decide_eq_true in Hs.
  exists c, d, p, e. by split_and!.
Qed.

(** Every declared task runs on the registry as declared. With no model moved
    by the environment, each task of the registry of shapes resolves to the one
    model it names, with an effort that model accepts; and their purposes are
    distinct, so none shadows another. *)
Theorem shapes_run_as_declared concurrency :
  NoDup (purpose <$> SHAPES ∅ concurrency) ∧
  ∀ s, s ∈ SHAPES ∅ concurrency →
    ∃ c d p e, resolve PROVIDERS MODELS s None None = Ok c ∧ sh_candidates s = [ch_model c] ∧
      model MODELS (ch_model c) = Some d ∧ param (reasoning d) = Some p ∧
      ch_params c !! p = Some (JStr e) ∧ e ∈ accepts (reasoning d).
Proof.
  split.
  { assert (bool_decide (NoDup (purpose <$> SHAPES ∅ concurrency)) = true) as H
      by (vm_compute; reflexivity). by apply bool_decide_eq_true in H. }
  assert (forallb (runs_as_declared PROVIDERS MODELS) (SHAPES ∅ concurrency) = true) as H
    by (vm_compute; reflexivity).
  intros s Hs%list_elem_of_In. apply (proj1 (forallb_forall _ _) H) in Hs.
  exact (runs_as_declared_spec _ _ _ Hs).
Qed.

Lemma shapes_run_as_declared_witness :
  ∃ c d p e, resolve PROVIDERS MODELS COMP_TASK None None = Ok c ∧
    sh_candidates COMP_TASK = [ch_model c] ∧
    model MODELS (ch_model c) = Some d ∧ param (reasoning d) = Some p ∧
    ch_params c !! p = Some (JStr e) ∧ e ∈ accepts (reasoning d).
Proof. exact (proj2 (shapes_run_as_declared 8) COMP_TASK (list_elem_of_here _ _)). Defined.
