(* ===== verification/Batches.v ===== *)
(** * Submitting provider batches ([core.batch], [core.batch.specs],
    [core.batch.transport], [core.batch.anthropic_batches] and the submission
    side of [tasks.runtime.batching])

    Requests are cut into waves, each wave is offered to a provider, and what a
    provider refuses for want of credit moves along the purpose's fallback chain.
    The provider is a parameter: [vendor n model wave] is what the [n]-th request
    to any provider is answered, so a theorem about every [vendor] holds of every
    sequence of acceptances and refusals. [sb_accepted] records, beside the
    program's own state, what providers accepted and will bill. *)

From S2P Require Import Prelude PyStr Sql Tasks Parking Spec Datasheets Pricing Routing Fallback Shapes.

Local Open Scope string_scope.
Local Open Scope Z_scope.

(** ** Requests ([core.batch.specs]) *)

Inductive BatchEndpoint : Type :=
| Responses
| Embeddings.

#[export] Instance endpoint_eq_dec : EqDecision BatchEndpoint.
Proof. solve_decision. Defined.

Record BatchSpec : Type := mkSpec {
  custom_id : string;
  instructions : string;
  sp_input : string;
  schema_name : string;
  sp_schema : jobject;
  sp_context : option jobject;
  endpoint : BatchEndpoint;
  sp_inputs : option (list string);
}.

#[export] Instance spec_eq_dec : EqDecision BatchSpec.
Proof. solve_decision. Defined.

Definition BATCH_MAX_REQUESTS : Z := 50000.
Definition BATCH_CHARS_PER_TOKEN : Z := 4.

Definition len (s : string) : Z := Z.of_nat (String.length s).

Definition input_chars (s : BatchSpec) : Z :=
  match sp_inputs s with
  | Some l => list_sum_Z (map len l)
  | None => len (sp_input s)
  end.

Definition _estimate_tokens (max_output_tokens : Z) (s : BatchSpec) : Z :=
  (len (instructions s) + input_chars s) / BATCH_CHARS_PER_TOKEN +
  (match endpoint s with Responses => max_output_tokens | Embeddings => 0 end).

(** ** Waves ([core.batch._chunk_specs]) *)

Definition input_count (s : BatchSpec) : Z :=
  match sp_inputs s with
  | Some l => Z.of_nat (length l)
  | None => 1
  end.

Record chunking : Type := mkChunking {
  ck_chunks : list (list BatchSpec);
  ck_current : list BatchSpec;
  ck_running : Z;
  ck_inputs : Z;
}.

Definition wave_full (max_output_tokens : Z) (k : chunking) (s : BatchSpec) : bool :=
  negb (bool_decide (ck_current k = [])) &&
  ((BATCH_TOKEN_BUDGET <? ck_running k + _estimate_tokens max_output_tokens s) ||
   (BATCH_MAX_REQUESTS <=? Z.of_nat (length (ck_current k))) ||
   (BATCH_MAX_REQUESTS <? ck_inputs k + input_count s)).

Definition chunk_step (max_output_tokens : Z) (k : chunking) (s : BatchSpec)
    : result string chunking :=
  if BATCH_MAX_REQUESTS <? input_count s
  then Err "one request exceeds the provider embedding input limit"
  else
    let k := if wave_full max_output_tokens k s
             then mkChunking (ck_chunks k ++ [ck_current k]) [] 0 0 else k in
    Ok (mkChunking (ck_chunks k) (ck_current k ++ [s])
          (ck_running k + _estimate_tokens max_output_tokens s)
          (ck_inputs k + input_count s)).

Fixpoint chunk_loop (max_output_tokens : Z) (k : chunking) (specs : list BatchSpec)
    : result string chunking :=
  match specs with
  | [] => Ok k
  | s :: rest => (do k <- chunk_step max_output_tokens k s;; chunk_loop max_output_tokens k rest)%js
  end.

Definition _chunk_specs (max_output_tokens : Z) (specs : list BatchSpec)
    : result string (list (list BatchSpec)) :=
  (do k <- chunk_loop max_output_tokens (mkChunking [] [] 0 0) specs;;
   Ok (match ck_current k with
       | [] => ck_chunks k
       | c => (ck_chunks k ++ [c])%list
       end))%js.

(** ** The batch ledger ([ai_batches]) and its event hook *)

(** [payer.kind] and [payer.id]. *)
Inductive Payer : Type :=
| FLEET
| UserPayer (user_id : Z)
| BoardPayer (managed_board_id : Z).

#[export] Instance payer_eq_dec : EqDecision Payer.
Proof. solve_decision. Defined.

Record ai_batch : Type := mkAiBatch {
  ab_task_id : Z;
  ab_purpose : string;
  ab_model : option string;
  ab_requests : Z;
  ab_completed : Z;
  ab_failed_count : Z;
  ab_status : string;
  ab_est_tokens : Z;
  ab_submitted_at : Z;
  ab_completed_at : option Z;
  ab_payer : option Payer;
  ab_fallback_from : option string;
}.

(** What a provider says of a batch ([BatchProgress], with its id). *)
Record provider_batch : Type := mkBatch {
  pb_id : string;
  pb_status : string;
  pb_total : Z;
  pb_completed : Z;
  pb_failed : Z;
}.

Definition TERMINAL_STATES : list string := ["completed"; "failed"; "expired"; "cancelled"].

Definition is_terminal (state : string) : bool := mem state TERMINAL_STATES.

Record BatchEventCounts : Type := mkCounts {
  ct_requests : Z;
  ct_completed : Z;
  ct_failed : Z;
  ct_est_tokens : Z;
}.

Record accepted_wave : Type := mkAccepted {
  aw_id : string;
  aw_model : string;
  aw_specs : list BatchSpec;
}.

Record submission : Type := mkSub {
  sb_world : world;
  sb_batches : gmap string ai_batch;
  sb_alerts : list alert;
  sb_calls : nat;
  sb_accepted : list accepted_wave;
}.

(** What [batch_event_hook] closes over. [hk_resumed] maps the batches the task
    already held to the model their row names. *)
Record event_hook : Type := mkHook {
  hk_task : Z;
  hk_purpose : string;
  hk_model : option string;
  hk_payer : Payer;
  hk_fallback_from : option string;
  hk_resumed : gmap string (option string);
}.

Definition completed_stamp (now : Z) (status : string) (old : option Z) : option Z :=
  if is_terminal status then Some (default now old) else None.

(** The upsert of [record_event]. *)
Definition event_row (h : event_hook) (now : Z) (bid status : string) (c : BatchEventCounts)
    (old : option ai_batch) : ai_batch :=
  match old with
  | None =>
      mkAiBatch (hk_task h) (hk_purpose h)
        (match hk_resumed h !! bid with Some m => m | None => hk_model h end)
        (ct_requests c) (ct_completed c) (ct_failed c) status (ct_est_tokens c) now None
        (Some (hk_payer h))
        (match hk_resumed h !! bid with Some _ => None | None => hk_fallback_from h end)
  | Some r =>
      mkAiBatch (ab_task_id r) (ab_purpose r) (ab_model r)
        (Z.max (ab_requests r) (ct_requests c)) (ct_completed c) (ct_failed c) status
        (Z.max (ab_est_tokens r) (ct_est_tokens c)) (ab_submitted_at r)
        (completed_stamp now status (ab_completed_at r))
        (Some (default (hk_payer h) (ab_payer r))) (ab_fallback_from r)
  end.

Definition on_event (h : event_hook) (now : Z) (bid status : string) (c : BatchEventCounts)
    (s : submission) : submission :=
  mkSub
    (publish_task (hk_task h) (_record_batch_ids (hk_task h) [bid] (sb_world s)))
    (<[bid := event_row h now bid status c (sb_batches s !! bid)]> (sb_batches s))
    (sb_alerts s) (sb_calls s) (sb_accepted s).

Definition emit_progress (h : event_hook) (now : Z) (b : provider_batch) (s : submission)
    : submission :=
  on_event h now (pb_id b) (pb_status b)
    (mkCounts (pb_total b) (pb_completed b) (pb_failed b) 0) s.

Definition emit_submitted (h : event_hook) (now max_output_tokens : Z) (b : provider_batch)
    (specs : list BatchSpec) (s : submission) : submission :=
  on_event h now (pb_id b) (pb_status b)
    (mkCounts (Z.of_nat (length specs)) 0 0
       (list_sum_Z (map (_estimate_tokens max_output_tokens) specs))) s.

(** ** Submitting waves ([core.batch.submit_batches]) *)

Inductive answer : Type :=
| Accepted (b : provider_batch)
| Refused (e : provider_error).

Inductive submit_exn : Type :=
| ValueError (msg : string)
| NoneAccepted (e : provider_error)   (** RuntimeError: no batches were accepted by the provider *)
| Exhausted (provider reason : string) (accepted : list string) (unsubmitted : list BatchSpec).

(** [^[a-zA-Z0-9_-]{1,64}$], where [$] also matches before a final newline. *)
Definition wire_char (c : Ascii.ascii) : bool := is_word c || (code c =? 45)%nat.

Definition sendable_id (s : string) : bool :=
  let body := match last (chars s) with
              | Some c => if (code c =? 10)%nat then removelast (chars s) else chars s
              | None => []
              end in
  (1 <=? length body)%nat && (length body <=? 64)%nat && forallb wire_char body.

Section submitting.
Context (ps : list Provider) (i : index) (environ : gmap string string).
Context (digest : string → string).
Context (vendor : nat → string → list BatchSpec → answer).
Context (clock : nat → Z).

(** [digest] is the first forty hexadecimal digits of the id's SHA-256. *)
Definition wire_id (cid : string) : string :=
  if sendable_id cid then cid else "h-" ++ digest cid.

Definition is_anthropic (model : string) : bool :=
  bool_decide (provider_of i model = Some "anthropic").

Definition request_params (model effort : string) (s : BatchSpec) : result string unit :=
  if negb (bool_decide (endpoint s = Responses)) then Err (model ++ " has no batch transport")
  else if String.eqb (sp_input s) "" then Err "a Messages request needs input text"
  else
    match Datasheets.model i model with
    | None => Err (model ++ " is not declared")
    | Some d =>
        if String.eqb effort "" then Ok tt
        else if bool_decide (param (reasoning d) = Some "effort") &&
                mem effort (accepts (reasoning d))
        then Ok tt
        else Err (model ++ " does not accept effort")
    end.

(** The server holds a client for the vendor when its key is set; every model
    that is not Anthropic's is sent with OpenAI's client. *)
Definition has_client (model : string) : bool :=
  negb (String.eqb (server_key ps environ (if is_anthropic model then "anthropic" else "openai")) "").

(** One wave: [_submit_chunk] or [anthropic.submit_chunk]. *)
Definition send (h : event_hook) (max_output_tokens : Z) (model : string) (wave : list BatchSpec)
    (s : submission) : submission * (provider_error + string) :=
  if is_anthropic model && negb (bool_decide (NoDup (map (λ x, wire_id (custom_id x)) wave)))
  then (s, inl (mkError "two requests in one batch share a custom_id" None None))
  else
    let now := clock (sb_calls s) in
    let called := mkSub (sb_world s) (sb_batches s) (sb_alerts s) (S (sb_calls s)) in
    match vendor (sb_calls s) model wave with
    | Refused e => (called (sb_accepted s), inl e)
    | Accepted b =>
        (emit_submitted h now max_output_tokens b wave
           (emit_progress h now b
              (called (sb_accepted s ++ [mkAccepted (pb_id b) model wave])%list)),
         inr (pb_id b))
    end.

Fixpoint submit_waves (h : event_hook) (max_output_tokens : Z) (model : string)
    (waves : list (list BatchSpec)) (ids : list string) (refusal : option provider_error)
    (s : submission) : submission * result submit_exn (list string) :=
  match waves with
  | [] =>
      (s, match ids, refusal with
          | [], Some e => Err (NoneAccepted e)
          | _, _ => Ok ids
          end)
  | wave :: later =>
      match send h max_output_tokens model wave s with
      | (s', inr id) => submit_waves h max_output_tokens model later (ids ++ [id]) refusal s'
      | (s', inl e) =>
          match exhaustion_reason ps (provider_of i model) e with
          | Some reason =>
              (s', Err (Exhausted (default "" (provider_of i model)) reason ids
                          (concat (wave :: later))))
          | None => submit_waves h max_output_tokens model later ids (Some e) s'
          end
      end
  end.

Definition bad_param (model effort : string) (specs : list BatchSpec) : option string :=
  foldr (λ x acc, match request_params model effort x with Err m => Some m | Ok _ => acc end)
    None specs.

Definition submit_batches (h : event_hook) (specs : list BatchSpec) (model effort : string)
    (max_output_tokens : Z) (s : submission) : submission * result submit_exn (list string) :=
  match unavailable_reason ps i model with
  | Some reason => (s, Err (ValueError ("BATCH_UNSUPPORTED: " ++ model ++ ": " ++ reason)))
  | None =>
      if negb (has_client model) || bool_decide (specs = []) then (s, Ok [])
      else if negb (bool_decide (Forall (λ x, Some (endpoint x) = endpoint <$> head specs) specs))
      then (s, Err (ValueError "a provider submission must contain exactly one endpoint"))
      else
        match (if is_anthropic model then bad_param model effort specs else None) with
        | Some m => (s, Err (ValueError m))
        | None =>
            match _chunk_specs max_output_tokens specs with
            | Err m => (s, Err (ValueError m))
            | Ok waves => submit_waves h max_output_tokens model waves [] None s
            end
        end
  end.

(** ** Submitting with the fallback chain ([tasks.runtime.batching._submit])

    [shapes], [config], [overrides] and [calls] are what the fleet's ceiling
    reads; [cycle] is [ingest_interval_minutes]. *)

Context (shapes : list TaskShape) (config : string → Z).
Context (overrides : option (list (string * option string))) (calls : list model_call).
Context (e : routing_env) (cycle : Z).

(** The hook closes over the batches the task holds and the model of each. *)
Definition batch_event_hook (tid : Z) (purpose_ : string) (model : option string) (payer : Payer)
    (fallback_from : option string) (s : submission) : event_hook :=
  mkHook tid purpose_ model payer fallback_from
    (list_to_map
       (map (λ b, (b, match sb_batches s !! b with
                      | Some r => if ab_task_id r =? tid then ab_model r else None
                      | None => None
                      end)) (pending_batch_ids tid (sb_world s)))).

Definition _per_call (shape : option TaskShape) (model : string) : Qc :=
  match shape with
  | None => Decimal 0
  | Some sh =>
      default (Decimal 0)
        (estimate_cost_usd i (Some model) (Some (est_prompt_tokens sh))
           (Some (sh_max_output_tokens sh)) None (sh_batched sh) None Unspecified)
  end.

Definition with_alerts (l : list alert) (s : submission) : submission :=
  mkSub (sb_world s) (sb_batches s) l (sb_calls s) (sb_accepted s).

Inductive run_exn : Type :=
| SubmitFailed (x : submit_exn)
| OverCeiling (status : budget_status).

(** [str(choice.params.get(param) or "")]. *)
Definition effort_of (c : Choice) : string :=
  match Datasheets.model i (ch_model c) with
  | Some d =>
      match param (reasoning d) with
      | Some p =>
          match ch_params c !! p with
          | Some j => if truthy j then default "" (json_text j) else ""
          | None => ""
          end
      | None => ""
      end
  | None => ""
  end.

(** What one turn of the loop leaves: the ids held and either the answer or the
    next submission. *)
Inductive turn : Type :=
| Return (r : result run_exn (list string))
| Resubmit (unsent : list BatchSpec) (c : Choice) (ids : list string) (committed : Qc).

Definition _submit_turn (specs : list BatchSpec) (model eff : string) (max_output_tokens : Z)
    (h : event_hook) (shape : option TaskShape) (payer : Payer) (primary : string)
    (ids : list string) (tried : gset string) (committed : Qc) (s : submission)
    : submission * turn :=
  match submit_batches h specs model eff max_output_tokens s with
  | (s', Ok accepted) =>
      let s' :=
        match accepted, provider_of i model with
        | _ :: _, Some p => with_alerts (clear (clock (sb_calls s')) p (sb_alerts s')) s'
        | _, _ => s'
        end in
      (s', Return (Ok (ids ++ accepted)%list))
  | (s', Err (Exhausted p reason accepted unsent as x)) =>
      let now := clock (sb_calls s') in
      let s' := with_alerts (fst (mark now p reason (sb_alerts s'))) s' in
      let sent := Z.of_nat (length specs) - Z.of_nat (length unsent) in
      let committed :=
        match accepted with
        | [] => committed
        | _ => (committed + _per_call shape model * Decimal sent)%Qc
        end in
      let ids := (ids ++ accepted)%list in
      let blocked := blocked_providers cycle now (sb_alerts s') ∪ {[ p ]} in
      let keep (r : result run_exn (list string)) :=
        match ids with [] => Return r | _ => Return (Ok ids) end in
      match shape ≫= λ sh, next_for ps i e sh primary tried blocked with
      | None => (s', keep (Err (SubmitFailed x)))
      | Some c =>
          let projected :=
            (committed + _per_call shape (ch_model c) * Decimal (Z.of_nat (length unsent)))%Qc in
          match (if bool_decide (payer = FLEET)
                 then check_fleet_budget ps i shapes config overrides now calls (Some projected)
                 else Ok tt) with
          | Err status => (s', keep (Err (OverCeiling status)))
          | Ok _ => (s', Resubmit unsent c ids committed)
          end
      end
  | (s', Err x) => (s', Return (Err (SubmitFailed x)))
  end.

Fixpoint _submit (fuel : nat) (tid : Z) (specs : list BatchSpec) (model eff : string)
    (max_output_tokens : Z) (h : event_hook) (shape : option TaskShape)
    (purpose_ : option string) (payer : Payer) (primary : string)
    (ids : list string) (tried : gset string) (committed : Qc) (s : submission)
    : option (submission * result run_exn (list string)) :=
  match fuel with
  | O => None
  | S fuel =>
      match _submit_turn specs model eff max_output_tokens h shape payer primary ids tried
              committed s with
      | (s', Return r) => Some (s', r)
      | (s', Resubmit unsent c ids committed) =>
          _submit fuel tid unsent (ch_model c) (effort_of c) max_output_tokens
            (batch_event_hook tid (default "" purpose_) (Some (ch_model c)) payer (Some primary) s')
            shape purpose_ payer primary ids (tried ∪ {[ ch_model c ]}) committed s'
      end
  end.
End submitting.
