(* ===== verification/Poll.v ===== *)
(** * Polling provider batches ([tasks.batches])

    The half that makes parking safe. [ask tid b] is what the provider says of
    batch [b] when the poll asks on behalf of task [tid], [None] when it cannot be
    read; [window] is [completion_window_seconds()] and [straggler] the setting
    [batch_straggler_hours] in seconds. Times are microseconds. *)

From S2P Require Import Prelude PyStr Sql Tasks Lifecycle Queue Parking Spec Datasheets Pricing Routing Fallback Shapes Batches.

Local Open Scope string_scope.
Local Open Scope Z_scope.

Definition SECOND : Z := 1000000.

(** A batch row's update from one status answer. *)
Definition progress_row (now : Z) (b : provider_batch) (r : ai_batch) : ai_batch :=
  mkAiBatch (ab_task_id r) (ab_purpose r) (ab_model r)
    (Z.max (ab_requests r) (pb_total b)) (Z.max (ab_completed r) (pb_completed b))
    (Z.max (ab_failed_count r) (pb_failed b)) (pb_status b) (ab_est_tokens r) (ab_submitted_at r)
    (completed_stamp now (pb_status b) (ab_completed_at r)) (ab_payer r) (ab_fallback_from r).

Definition _record_progress (now : Z) (progress : list (string * provider_batch))
    (m : gmap string ai_batch) : gmap string ai_batch :=
  foldl (λ m p, if String.eqb (pb_status p.2) "" then m else alter (progress_row now p.2) p.1 m)
    m progress.

(** [SELECT 1 FROM ai_batches WHERE provider_batch_id = ANY(ids) AND ...]. *)
Definition any_batch (P : ai_batch → bool) (ids : list string) (m : gmap string ai_batch) : bool :=
  existsb (λ b, match m !! b with Some r => P r | None => false end) ids.

Definition _younger_than (now : Z) (ids : list string) (seconds : Z) (m : gmap string ai_batch)
    : bool :=
  any_batch (λ r, now - seconds * SECOND <? ab_submitted_at r) ids m.

Definition past_window (now window : Z) (ids : list string) (m : gmap string ai_batch) : bool :=
  any_batch (λ r, ab_submitted_at r <? now - window * SECOND) ids m.

Record polled : Type := mkPolled {
  po_world : world;
  po_batches : gmap string ai_batch;
  po_resumed : Z;
  po_partial : Z;
  po_expired : Z;
}.

Section poll.
Context (ask : Z → string → option provider_batch) (now window straggler : Z).

Definition batch_progress (tid : Z) (ids : list string) : list (string * provider_batch) :=
  omap (λ b, pair b <$> ask tid b) (remove_dups ids).

Definition batch_finished (tid : Z) (b : string) : bool :=
  is_terminal (match ask tid b with Some p => pb_status p | None => "" end).

(** One parked task, as the loop's body reads it. *)
Definition poll_one (s : polled) (t : Z * list string) : polled :=
  let '(tid, ids) := t in
  match ids with
  | [] =>
      mkPolled (resume_parked tid (po_world s)) (po_batches s) (po_resumed s + 1) (po_partial s)
        (po_expired s)
  | _ =>
      let m := _record_progress now (batch_progress tid ids) (po_batches s) in
      let finished := filter (λ b, batch_finished tid b = true) ids in
      if (length finished =? length ids)%nat then
        mkPolled (resume_parked tid (po_world s)) m (po_resumed s + 1) (po_partial s) (po_expired s)
      else
        let overdue := past_window now window ids m in
        match finished with
        | [] =>
            mkPolled (po_world s) m (po_resumed s) (po_partial s)
              (if overdue then po_expired s + 1 else po_expired s)
        | _ =>
            if overdue ||
               negb (_younger_than now (filter (λ b, b ∉ finished) ids) straggler m)
            then mkPolled (resume_parked tid (po_world s)) m (po_resumed s) (po_partial s + 1)
                   (po_expired s)
            else mkPolled (po_world s) m (po_resumed s) (po_partial s) (po_expired s)
        end
  end.

Definition parked (w : world) : list (Z * list string) :=
  map (λ i, (i, pending_batch_ids i w)) (ids_where (λ _ r, is_status AwaitingBatch r) (tasks w)).

(** A row nothing will collect: its task is neither parked nor on its way back. *)
Definition orphan_batch (m : gmap Z task) (r : ai_batch) : bool :=
  negb (is_terminal (ab_status r)) && (ab_submitted_at r <? now - window * SECOND) &&
  negb (match m !! ab_task_id r with
        | Some t => status_in [AwaitingBatch; Pending; Running; Waiting] t
        | None => false
        end).

Definition expired_row (r : ai_batch) : ai_batch :=
  mkAiBatch (ab_task_id r) (ab_purpose r) (ab_model r) (ab_requests r) (ab_completed r)
    (ab_failed_count r) "expired" (ab_est_tokens r) (ab_submitted_at r)
    (Some (default now (ab_completed_at r))) (ab_payer r) (ab_fallback_from r).

Definition _expire_orphans (w : world) (m : gmap string ai_batch) : gmap string ai_batch * Z :=
  ((λ r, if orphan_batch (tasks w) r then expired_row r else r) <$> m,
   Z.of_nat (size (filter (λ kr, orphan_batch (tasks w) kr.2 = true) m))).

Definition poll_label (s : polled) (orphaned : Z) : string :=
  pretty.pretty (po_resumed s) ++ " resumed, " ++ pretty.pretty (po_partial s) ++
  " resumed on stragglers, " ++ pretty.pretty (po_expired s) ++
  " past the completion window with nothing finished, " ++ pretty.pretty orphaned ++
  " orphaned batch row(s) expired".

Definition handle_poll_batches (cur : option TaskClaim) (task_id : Z) (w : world)
    (m : gmap string ai_batch) : world * gmap string ai_batch :=
  match parked w with
  | [] => (set_progress cur now task_id 0 0 "nothing awaiting batches" ∅ w, m)
  | l =>
      let s := foldl poll_one (mkPolled w m 0 0 0) l in
      let '(m', orphaned) := _expire_orphans (po_world s) (po_batches s) in
      (set_progress cur now task_id (po_resumed s + po_partial s) (Z.of_nat (length l))
         (poll_label s orphaned) ∅ (po_world s), m')
  end.
End poll.

(** ** Lemmas *)

(** Whether the loop resumes a task, from the batches its payload names. *)
Definition resumed_row (r : task) : task :=
  put_batch_resumes (t_batch_resumes r + 1)
    (put_last_heartbeat None (put_started_at None (put_status Pending r))).

Section poll_lemmas.
Context (ask : Z → string → option provider_batch) (now window straggler : Z).

Definition wakes (m : gmap string ai_batch) (t : Z * list string) : bool :=
  let '(tid, ids) := t in
  let finished := filter (λ b, batch_finished ask tid b = true) ids in
  bool_decide (ids = []) || (length finished =? length ids)%nat ||
  negb (bool_decide (finished = [])) &&
  (past_window now window ids m ||
   negb (_younger_than now (filter (λ b, b ∉ finished) ids) straggler m)).

(** Status answers never move the time a batch was submitted. *)
Definition same_times (m m' : gmap string ai_batch) : Prop :=
  ∀ b, ab_submitted_at <$> m !! b = ab_submitted_at <$> m' !! b.

Lemma record_progress_times progress m : same_times (_record_progress now progress m) m.
Proof.
  unfold _record_progress. revert m.
  induction progress as [|[b p] l IH]; intros m x; simpl; [done|]. rewrite (IH _ x).
  destruct (String.eqb _ _); [done|]. destruct (decide (b = x)) as [->|Hne].
  - rewrite lookup_alter_eq. by destruct (m !! x).
  - by rewrite lookup_alter_ne.
Qed.

Lemma any_batch_times (f : Z → bool) ids m m' :
  same_times m m' →
  any_batch (λ r, f (ab_submitted_at r)) ids m = any_batch (λ r, f (ab_submitted_at r)) ids m'.
Proof.
  intros H. unfold any_batch. induction ids as [|b l IH]; [done|]. cbn. rewrite IH. f_equal.
  specialize (H b). destruct (m !! b), (m' !! b); simpl in *; congruence.
Qed.

Lemma wakes_times m m' t : same_times m m' → wakes m t = wakes m' t.
Proof.
  intros H. destruct t as [tid ids]. unfold wakes, past_window, _younger_than.
  rewrite (any_batch_times (λ z, z <? now - window * SECOND) ids m m' H).
  by rewrite (any_batch_times (λ z, now - straggler * SECOND <? z) _ m m' H).
Qed.

Lemma poll_one_spec s t :
  po_world (poll_one ask now window straggler s t) =
    (if wakes (po_batches s) t then resume_parked t.1 (po_world s) else po_world s) ∧
  same_times (po_batches (poll_one ask now window straggler s t)) (po_batches s).
Proof.
  destruct t as [tid ids]. unfold poll_one. destruct ids as [|b0 l]; [split; [done|by intros ?]|].
  set (ids := b0 :: l). set (m := _record_progress _ _ _).
  assert (same_times m (po_batches s)) as Hm by apply record_progress_times.
  rewrite <- (wakes_times _ _ _ Hm). unfold wakes.
  rewrite (bool_decide_eq_false_2 (ids = [])) by done. rewrite orb_false_l.
  set (finished := filter _ ids). destruct (length finished =? length ids)%nat; [done|].
  rewrite orb_false_l. destruct finished as [|x f] eqn:Ef; [done|].
  rewrite bool_decide_eq_false_2 by done. simpl negb. rewrite andb_true_l.
  by destruct (_ || _).
Qed.

Lemma poll_loop_spec l s i :
  tasks (po_world (foldl (poll_one ask now window straggler) s l)) !! i =
    (λ r, if is_status AwaitingBatch r &&
             existsb (λ t, (t.1 =? i) && wakes (po_batches s) t) l
          then resumed_row r else r) <$> tasks (po_world s) !! i ∧
  same_times (po_batches (foldl (poll_one ask now window straggler) s l)) (po_batches s).
Proof.
  revert s. induction l as [|t l IH]; intros s; simpl.
  { split; [|by intros ?]. destruct (tasks _ !! i) as [r|]; [|done]. simpl. by rewrite andb_false_r. }
  destruct (IH (poll_one ask now window straggler s t)) as [-> Ht2].
  destruct (poll_one_spec s t) as [-> Ht1]. split; [|intros b; by rewrite Ht2, Ht1].
  assert (existsb (λ u, (u.1 =? i) && wakes (po_batches (poll_one ask now window straggler s t)) u) l =
          existsb (λ u, (u.1 =? i) && wakes (po_batches s) u) l) as ->.
  { clear IH Ht2. induction l as [|u l IHl]; [done|]. cbn. by rewrite IHl, (wakes_times _ _ _ Ht1). }
  destruct (wakes (po_batches s) t); [|by rewrite andb_false_r].
  unfold resume_parked, publish_task, emit. simpl tasks. rewrite lookup_update_where.
  destruct (tasks (po_world s) !! i) as [r|]; [|done]. simpl. f_equal.
  rewrite andb_true_r, (Z.eqb_sym t.1 i).
  destruct (i =? t.1), (is_status AwaitingBatch r) eqn:Er; simpl; rewrite ?Er; done.
Qed.

Lemma elem_of_parked w i r :
  tasks w !! i = Some r → t_status r = AwaitingBatch →
  (i, payload_batch_ids (t_payload r)) ∈ parked w.
Proof.
  intros Hr Hs. unfold parked. apply list_elem_of_fmap. exists i. split.
  - unfold pending_batch_ids. by rewrite Hr.
  - apply elem_of_ids_where. exists r. split; [done|]. by apply is_status_true.
Qed.

Lemma wakes_parked w m i r :
  tasks w !! i = Some r → t_status r = AwaitingBatch →
  existsb (λ t, (t.1 =? i) && wakes m t) (parked w) = wakes m (i, payload_batch_ids (t_payload r)).
Proof.
  intros Hr Hs.
  pose proof (elem_of_parked w i r Hr Hs) as Hin.
  apply Bool.eq_iff_eq_true. rewrite existsb_exists. split.
  - intros (t & Ht & Hw). apply list_elem_of_In in Ht. unfold parked in Ht.
    apply list_elem_of_fmap in Ht as (j & -> & _). simpl in Hw.
    apply andb_true_iff in Hw as [Hj Hw]. apply Z.eqb_eq in Hj. subst j.
    unfold pending_batch_ids in Hw. by rewrite Hr in Hw.
  - intros Hw. eexists. split; [by apply list_elem_of_In|]. simpl. by rewrite Z.eqb_refl.
Qed.

(** A wake-up means there is something to collect, and everything collectable wakes. *)
Lemma wakes_spec m i ids :
  (wakes m (i, ids) = true → ids = [] ∨ ∃ b, b ∈ ids ∧ batch_finished ask i b = true) ∧
  ((∀ b, b ∈ ids → batch_finished ask i b = true) → wakes m (i, ids) = true) ∧
  ((∃ b, b ∈ ids ∧ batch_finished ask i b = true) → past_window now window ids m = true →
   wakes m (i, ids) = true).
Proof.
  unfold wakes. set (finished := filter _ ids).
  assert (∀ b, b ∈ finished ↔ batch_finished ask i b = true ∧ b ∈ ids) as Hf
    by (intros b; unfold finished; by rewrite list_elem_of_filter).
  destruct (decide (ids = [])) as [E|Hne].
  { rewrite (bool_decide_eq_true_2 _ E). auto. }
  rewrite (bool_decide_eq_false_2 _ Hne). split_and!.
  - intros H. right. destruct finished as [|b l] eqn:El.
    + destruct ids; [done|]. discriminate H.
    + exists b. assert (b ∈ b :: l) as Hb by (by left). apply Hf in Hb as [? ?]. done.
  - intros Hall. assert (finished = ids) as ->.
    { unfold finished. clear -Hall. induction ids as [|b l IH]; [done|].
      rewrite filter_cons, decide_True by (apply Hall; by left). f_equal. apply IH.
      intros c Hc. apply Hall. by right. }
    by rewrite Nat.eqb_refl.
  - intros (b & Hb & Hd) ->. destruct finished as [|x l] eqn:El.
    + assert (b ∈ []) as Hin by (by apply Hf). by apply elem_of_nil in Hin.
    + by rewrite !orb_true_r.
Qed.

Lemma expire_orphans_none w m b x :
  fst (_expire_orphans now window w m) !! b = Some x →
  orphan_batch now window (tasks w) x = false.
Proof.
  simpl. rewrite lookup_fmap. destruct (m !! b) as [y|]; [|done]. intros [= <-].
  destruct (orphan_batch now window (tasks w) y) eqn:E; [|done]. done.
Qed.
End poll_lemmas.

(** A progress write moves no status, payload or count. *)
Lemma set_progress_row cur now tid d n l e w i :
  ∃ f, tasks (set_progress cur now tid d n l e w) !! i = f <$> tasks w !! i ∧
    ∀ r, t_status (f r) = t_status r ∧ t_payload (f r) = t_payload r ∧
         t_batch_resumes (f r) = t_batch_resumes r.
Proof.
  eexists. split; [apply exec_update_lookup|]. intros r. simpl. by destruct (write_progress_where _ _ _ _ _).
Qed.

Lemma orphan_statuses now window (m m' : gmap Z task) x :
  (∀ j, t_status <$> m !! j = t_status <$> m' !! j) →
  orphan_batch now window m x = orphan_batch now window m' x.
Proof.
  intros H. unfold orphan_batch. f_equal. f_equal. specialize (H (ab_task_id x)).
  destruct (m !! ab_task_id x), (m' !! ab_task_id x); simpl in *; try done.
  injection H as H. unfold status_in. by rewrite H.
Qed.

(** With nothing parked the poll returns before the sweep of orphan rows. *)
Lemma idle_poll_keeps_orphans ask now window straggler cur tid w m :
  parked w = [] → snd (handle_poll_batches ask now window straggler cur tid w m) = m.
Proof. unfold handle_poll_batches. by intros ->. Qed.
