(* ===== verification/BatchProps.v ===== *)
(** * What batch submission guarantees

    Waves keep the requests and the provider's limits; whatever providers answer,
    submission ends, buys no request twice and leaves every batch it was billed
    for on the task. *)

From S2P Require Import Prelude PyStr Sql Tasks Lifecycle Queue Parking Spec Datasheets Pricing Routing Fallback Shapes Batches Poll.
From S2P Require Import Execution RoutingProps.

Local Open Scope Z_scope.

(** ** What a wave may hold *)

Definition wave_tokens (max_output_tokens : Z) (wave : list BatchSpec) : Z :=
  list_sum_Z (map (_estimate_tokens max_output_tokens) wave).

Definition wave_inputs (wave : list BatchSpec) : Z := list_sum_Z (map input_count wave).

(** The provider's limits, and the token budget unless the wave is one request. *)
Definition fits_wave (max_output_tokens : Z) (wave : list BatchSpec) : Prop :=
  Z.of_nat (length wave) ≤ BATCH_MAX_REQUESTS ∧ wave_inputs wave ≤ BATCH_MAX_REQUESTS ∧
  (wave_tokens max_output_tokens wave ≤ BATCH_TOKEN_BUDGET ∨ length wave = 1%nat).

(** No two neighbouring waves could have shared the second one's first request. *)
Definition no_waste (max_output_tokens : Z) (waves : list (list BatchSpec)) : Prop :=
  ∀ l1 c x d l2, waves = l1 ++ c :: (x :: d) :: l2 → ¬ fits_wave max_output_tokens (c ++ [x]).

(** The waves a chunking state stands for. *)
Definition waves_of (k : chunking) : list (list BatchSpec) :=
  match ck_current k with
  | [] => ck_chunks k
  | c => (ck_chunks k ++ [c])%list
  end.

Definition chunk_inv (m : Z) (k : chunking) (seen : list BatchSpec) : Prop :=
  concat (waves_of k) = seen ∧
  Forall (λ c, c ≠ [] ∧ fits_wave m c) (waves_of k) ∧
  ck_running k = wave_tokens m (ck_current k) ∧ ck_inputs k = wave_inputs (ck_current k) ∧
  no_waste m (waves_of k) ∧ (ck_current k = [] → ck_chunks k = []).

(** From [s] to [s'] providers accepted [waves], the task's row kept every batch it
    held, and each accepted one is on it. *)
Definition grew (tid : Z) (s s' : submission) (waves : list accepted_wave) : Prop :=
  sb_accepted s' = (sb_accepted s ++ waves)%list ∧
  ∀ r, tasks (sb_world s) !! tid = Some r → ids_array r →
    ∃ r', tasks (sb_world s') !! tid = Some r' ∧ ids_array r' ∧
      ∀ v, v ∈ payload_batch_ids (t_payload r) ∨ v ∈ map aw_id waves →
        v ∈ payload_batch_ids (t_payload r').

(** The requests the waves carry. *)
Definition bought (waves : list accepted_wave) : list BatchSpec := concat (map aw_specs waves).

(** The failures that are not the account's: a request the model cannot take, or
    every wave refused for another reason. *)
Definition not_credit (x : run_exn) : Prop :=
  match x with
  | SubmitFailed (ValueError _) | SubmitFailed (NoneAccepted _) => True
  | SubmitFailed (Exhausted _ _ _ _) | OverCeiling _ => False
  end.

(** The entries of the chain not tried yet. *)
Definition untried (e : routing_env) (shape : option TaskShape) (tried : gset string) : list string :=
  match shape with
  | Some sh => filter (λ n, n ∉ tried) (chain e (purpose sh))
  | None => []
  end.

(** ** A submission that falls back

    Fifteen requests of 128,000 output tokens make two waves. OpenAI accepts the
    first and refuses the second for credit; the chain's next model is
    Anthropic's, which is overloaded. *)

Definition demo_shape : TaskShape :=
  mkShape "requirements" JSON_SCHEMA true 128000 500 ["gpt-6-luna"%string] None [] ∅ "" 0 "" MIXES [].

Definition demo_specs : list BatchSpec :=
  map (λ n, mkSpec (pretty.pretty n) "classify" "text" "Answer" ∅ None Responses None)
    (seq 0 15).

Definition demo_vendor (n : nat) (model : string) (wave : list BatchSpec) : answer :=
  match n with
  | O => Accepted (mkBatch "b1" "validating" 0 0 0)
  | S O => Refused (mkError "insufficient_quota" None None)
  | _ => Refused (mkError "overloaded" None None)
  end.

Definition demo_environ : gmap string string :=
  {[ "OPENAI_API_KEY"%string := "k"%string; "ANTHROPIC_API_KEY"%string := "k"%string ]}.

Definition demo_routing : routing_env :=
  mkRoutingEnv {[ "requirements"%string := ["claude-sonnet-5-5"%string] ]} [] ∅ demo_environ.

Definition demo_task : task :=
  put_worker (Some "a"%string)
    (put_attempts 1 (put_status Running (new_task 0 "extract_requirements" ∅ None None))).

Definition demo_claim : TaskClaim := mkClaim 1 "a" 1.

Definition demo_sub : submission := mkSub (mkWorld {[ 1 := demo_task ]} 2 []) ∅ [] 0 [].

Definition demo_hook : event_hook := mkHook 1 "requirements" (Some "gpt-6-luna"%string) FLEET None ∅.

Definition demo_submit (fuel : nat) : option (submission * result run_exn (list string)) :=
  _submit PROVIDERS MODELS demo_environ (λ s, s) demo_vendor (λ _, 1000) [] (λ _, 0) None []
    demo_routing 60 fuel 1 demo_specs "gpt-6-luna" "low" 128000 demo_hook (Some demo_shape)
    (Some "requirements"%string) FLEET "gpt-6-luna" [] {[ "gpt-6-luna"%string ]} (Decimal 0) demo_sub.

(** ** Waves *)

Lemma list_sum_Z_app l1 l2 : list_sum_Z (l1 ++ l2) = list_sum_Z l1 + list_sum_Z l2.
Proof. induction l1 as [|x l1 IH]; simpl; [done|]. rewrite IH. lia. Qed.

Lemma wave_tokens_snoc m c s :
  wave_tokens m (c ++ [s]) = wave_tokens m c + _estimate_tokens m s.
Proof. unfold wave_tokens. rewrite map_app, list_sum_Z_app. simpl. lia. Qed.

Lemma wave_inputs_snoc c s : wave_inputs (c ++ [s]) = wave_inputs c + input_count s.
Proof. unfold wave_inputs. rewrite map_app, list_sum_Z_app. simpl. lia. Qed.

(** Whether one more request fits is what the code tests. *)
Lemma wave_full_spec m k s :
  ck_running k = wave_tokens m (ck_current k) → ck_inputs k = wave_inputs (ck_current k) →
  ck_current k ≠ [] →
  wave_full m k s = true ↔ ¬ fits_wave m (ck_current k ++ [s]).
Proof.
  intros Hr Hi Hne. unfold wave_full, fits_wave.
  rewrite bool_decide_eq_false_2 by done. simpl negb. simpl andb.
  rewrite Hr, Hi, wave_tokens_snoc, wave_inputs_snoc, !length_app. simpl length.
  rewrite !orb_true_iff, !Z.ltb_lt, Z.leb_le.
  assert (1 ≤ length (ck_current k))%nat by (destruct (ck_current k); [done|simpl; lia]).
  lia.
Qed.

Lemma single_fits m s : input_count s ≤ BATCH_MAX_REQUESTS → fits_wave m [s].
Proof. unfold fits_wave, wave_inputs, BATCH_MAX_REQUESTS. simpl. lia. Qed.

Lemma no_waste_snoc m waves c x :
  no_waste m (waves ++ [c]) → ¬ fits_wave m (c ++ [x]) → no_waste m ((waves ++ [c]) ++ [[x]]).
Proof.
  intros Hw Hx l1 c' y d l2 E.
  destruct l2 as [|z l2 _] using rev_ind.
  - replace (l1 ++ [c'; y :: d]) with ((l1 ++ [c']) ++ [y :: d]) in E by (by rewrite <- app_assoc).
    apply app_inj_tail in E as [E Ed]. apply app_inj_tail in E as [_ ->].
    injection Ed as -> _. done.
  - rewrite !app_comm_cons, !app_assoc in E. apply app_inj_tail in E as [E _].
    apply (Hw _ _ _ _ _ E).
Qed.

Lemma no_waste_extend m waves c s :
  c ≠ [] → no_waste m (waves ++ [c]) → no_waste m (waves ++ [c ++ [s]]).
Proof.
  intros Hc Hw l1 c' y d l2 E.
  destruct l2 as [|z l2 _] using rev_ind.
  - replace (l1 ++ [c'; y :: d]) with ((l1 ++ [c']) ++ [y :: d]) in E by (by rewrite <- app_assoc).
    apply app_inj_tail in E as [-> Ed]. destruct c as [|a c]; [done|].
    injection Ed as -> _. apply (Hw l1 c' y c []). by rewrite <- app_assoc.
  - rewrite !app_comm_cons, !app_assoc in E. apply app_inj_tail in E as [-> _].
    apply (Hw l1 c' y d (l2 ++ [c])). by rewrite <- app_assoc.
Qed.

Lemma waves_of_snoc k s r i :
  waves_of (mkChunking (ck_chunks k) (ck_current k ++ [s]) r i) =
  ck_chunks k ++ [ck_current k ++ [s]].
Proof. unfold waves_of. simpl. by destruct (ck_current k). Qed.

Lemma waves_of_current k : ck_current k ≠ [] → waves_of k = ck_chunks k ++ [ck_current k].
Proof. unfold waves_of. by destruct (ck_current k). Qed.

Lemma chunk_step_inv m k seen s :
  chunk_inv m k seen →
  match chunk_step m k s with
  | Ok k' => chunk_inv m k' (seen ++ [s])
  | Err _ => BATCH_MAX_REQUESTS < input_count s
  end.
Proof.
  intros (Hc & Hf & Hr & Hi & Hw & He). unfold chunk_step.
  destruct (Z.ltb_spec BATCH_MAX_REQUESTS (input_count s)) as [|Hn]; [done|].
  destruct (wave_full m k s) eqn:Hfull; simpl.
  - assert (ck_current k ≠ []) as Hne.
    { intros E. unfold wave_full in Hfull. by rewrite bool_decide_eq_true_2 in Hfull. }
    rewrite wave_full_spec in Hfull by done. rewrite waves_of_current in * by done.
    unfold chunk_inv, waves_of. simpl. split_and!.
    + rewrite concat_app, Hc. simpl. done.
    + apply Forall_app. split; [done|]. apply Forall_singleton. split; [done|]. by apply single_fits.
    + unfold wave_tokens. simpl. lia.
    + unfold wave_inputs. simpl. lia.
    + by apply no_waste_snoc.
    + done.
  - unfold chunk_inv. rewrite waves_of_snoc. simpl ck_current. simpl ck_running. simpl ck_inputs.
    rewrite wave_tokens_snoc, wave_inputs_snoc, Hr, Hi.
    destruct (decide (ck_current k = [])) as [E|Hne].
    + specialize (He E). unfold waves_of in Hc. rewrite E, He in *. simpl in *. subst seen.
      split_and!; [done|..|done|done| |done].
      * apply Forall_singleton. split; [done|]. by apply single_fits.
      * intros l1 c x d l2 El. by destruct l1 as [|? [|]].
    + assert (fits_wave m (ck_current k ++ [s])) as Hfit.
      { apply dec_stable. intros Hx. apply wave_full_spec in Hx; [congruence|done..]. }
      rewrite waves_of_current in * by done. split_and!; [|..|done|done| |].
      * rewrite concat_app. simpl. rewrite app_nil_r, app_assoc. f_equal. rewrite <- Hc, concat_app.
        simpl. by rewrite app_nil_r.
      * apply Forall_app in Hf as [Hf _]. apply Forall_app. split; [done|].
        apply Forall_singleton. split; [by destruct (ck_current k)|done].
      * by apply no_waste_extend.
      * by destruct (ck_current k).
Qed.

Lemma chunk_loop_inv m specs k seen :
  chunk_inv m k seen →
  match chunk_loop m k specs with
  | Ok k' => chunk_inv m k' (seen ++ specs)
  | Err _ => ∃ s, s ∈ specs ∧ BATCH_MAX_REQUESTS < input_count s
  end.
Proof.
  revert k seen. induction specs as [|s specs IH]; intros k seen Hk; simpl.
  { by rewrite app_nil_r. }
  pose proof (chunk_step_inv m k seen s Hk) as Hs.
  destruct (chunk_step m k s) as [k'|x]; simpl; [|exists s; split; [by left|done]].
  pose proof (IH k' (seen ++ [s])%list Hs) as Hl. rewrite <- app_assoc in Hl.
  destruct (chunk_loop m k' specs) as [|x]; [done|].
  destruct Hl as (y & Hy & ?). exists y. split; [by right|done].
Qed.

Lemma chunk_loop_counts m specs k k' :
  chunk_loop m k specs = Ok k' → Forall (λ s, input_count s ≤ BATCH_MAX_REQUESTS) specs.
Proof.
  revert k. induction specs as [|s specs IH]; intros k; simpl; [by constructor|].
  unfold chunk_step at 1. destruct (Z.ltb_spec BATCH_MAX_REQUESTS (input_count s)); simpl; [done|].
  intros H'. constructor; [lia|]. by eapply IH.
Qed.

Lemma chunk_inv_start m : chunk_inv m (mkChunking [] [] 0 0) [].
Proof. repeat split; try done. intros l1 c x d l2 E. by destruct l1. Qed.

(** Waves hold every request once, in order, within the provider's limits.
    Cutting fails exactly when a request alone is over the input limit.
    Otherwise the waves are the requests in order; each is non-empty, within the
    request and input limits, and within the token budget unless it is a single
    request; and none could have taken the next request, so no wave is wasted. *)
Theorem waves_partition m specs :
  match _chunk_specs m specs with
  | Ok waves =>
      concat waves = specs ∧ Forall (λ c, c ≠ [] ∧ fits_wave m c) waves ∧ no_waste m waves ∧
      Forall (λ s, input_count s ≤ BATCH_MAX_REQUESTS) specs
  | Err _ => ∃ s, s ∈ specs ∧ BATCH_MAX_REQUESTS < input_count s
  end.
Proof.
  unfold _chunk_specs.
  pose proof (chunk_loop_inv m specs _ _ (chunk_inv_start m)) as H.
  destruct (chunk_loop m _ specs) as [k|x] eqn:E; simpl; [|done].
  destruct H as (Hc & Hf & _ & _ & Hw & _). fold (waves_of k).
  split_and!; [done..|]. by eapply chunk_loop_counts.
Qed.

Lemma waves_concat m specs waves : _chunk_specs m specs = Ok waves → concat waves = specs.
Proof.
  unfold _chunk_specs. pose proof (chunk_loop_inv m specs _ _ (chunk_inv_start m)) as H.
  destruct (chunk_loop m _ specs) as [k|x]; simpl; [|done]. intros [= <-]. by destruct H.
Qed.

(** ** Accepted batches *)

Lemma grew_refl tid s s' :
  sb_world s' = sb_world s → sb_accepted s' = sb_accepted s → grew tid s s' [].
Proof.
  intros Hw Ha. split; [by rewrite app_nil_r|]. rewrite Hw. intros r Hr Hids.
  exists r. split_and!; [done..|]. intros v [?|?%elem_of_nil]; done.
Qed.

Lemma grew_trans tid s1 s2 s3 w1 w2 :
  grew tid s1 s2 w1 → grew tid s2 s3 w2 → grew tid s1 s3 (w1 ++ w2).
Proof.
  intros [Ha1 Hr1] [Ha2 Hr2]. split; [by rewrite Ha2, Ha1, app_assoc|].
  intros r Hr Hids. destruct (Hr1 r Hr Hids) as (r' & Hr' & Hids' & H1).
  destruct (Hr2 r' Hr' Hids') as (r'' & Hr'' & Hids'' & H2). exists r''. split_and!; [done..|].
  intros v. rewrite map_app, elem_of_app. intros [Hv|[Hv|Hv]]; apply H2; auto.
Qed.

Lemma bought_app w1 w2 : bought (w1 ++ w2) = (bought w1 ++ bought w2)%list.
Proof. unfold bought. by rewrite map_app, concat_app. Qed.

(** An event keeps the row's batches and adds its own. *)
Lemma on_event_row h now bid st c s r :
  tasks (sb_world s) !! hk_task h = Some r → ids_array r →
  ∃ r', tasks (sb_world (on_event h now bid st c s)) !! hk_task h = Some r' ∧ ids_array r' ∧
    ∀ v, v ∈ payload_batch_ids (t_payload r) ∨ v = bid → v ∈ payload_batch_ids (t_payload r').
Proof.
  intros Hr Hids. eexists. split; [by apply record_lookup|]. split; [apply ids_array_recorded|].
  intros v Hv. apply ids_array_iff; [done|]. rewrite list_elem_of_singleton. tauto.
Qed.

Section submission_lemmas.
Context (ps : list Provider) (i : index) (environ : gmap string string).
Context (digest : string → string) (vendor : nat → string → list BatchSpec → answer).
Context (clock : nat → Z).

Lemma send_spec h m model wave s :
  match send i digest vendor clock h m model wave s with
  | (s', inr id) => grew (hk_task h) s s' [mkAccepted id model wave]
  | (s', inl _) => grew (hk_task h) s s' []
  end.
Proof.
  unfold send. destruct (_ && _); [by apply grew_refl|]. cbv zeta.
  destruct (vendor _ _ _) as [b|e]; [|by apply grew_refl]. split; [done|].
  intros r Hr Hids. unfold emit_submitted, emit_progress.
  match goal with |- context [on_event h ?n ?b ?st ?c (on_event h ?n' ?b' ?st' ?c' ?s0)] =>
    destruct (on_event_row h n' b' st' c' s0 r Hr Hids) as (r1 & H1 & Hi1 & Hv1);
    destruct (on_event_row h n b st c _ r1 H1 Hi1) as (r2 & H2 & Hi2 & Hv2) end.
  exists r2. split_and!; [done..|]. intros v. simpl. rewrite list_elem_of_singleton.
  intros [?|?]; apply Hv2; left; apply Hv1; auto.
Qed.

Lemma submit_waves_spec h m model waves ids refusal s :
  match submit_waves ps i digest vendor clock h m model waves ids refusal s with
  | (s', r) =>
      ∃ new, grew (hk_task h) s s' new ∧
        match r with
        | Ok all => all = (ids ++ map aw_id new)%list ∧ sublist (bought new) (concat waves)
        | Err (Exhausted _ _ accepted unsent) =>
            accepted = (ids ++ map aw_id new)%list ∧
            sublist (bought new ++ unsent) (concat waves)
        | Err (NoneAccepted _) => ids = [] ∧ new = []
        | Err (ValueError _) => False
        end
  end.
Proof.
  revert ids refusal s. induction waves as [|wave later IH]; intros ids refusal s; simpl.
  { exists []. split; [by apply grew_refl|]. destruct ids, refusal; simpl; rewrite ?app_nil_r; done. }
  pose proof (send_spec h m model wave s) as Hs.
  destruct (send _ _ _ _ _ _ _ _ _) as [s1 [e|id]].
  - destruct (exhaustion_reason _ _ _) as [reason|].
    + exists []. split; [done|]. simpl. by rewrite app_nil_r.
    + specialize (IH ids (Some e) s1). destruct (submit_waves _ _ _ _ _ _ _ _ _ _ _ _) as [s2 r].
      destruct IH as (new & Hg & Hr). exists new. split; [by apply (grew_trans _ _ _ _ [] new Hs)|].
      destruct r as [all|[?|?|p q acc un]]; [|done|by destruct Hr as [? ->]|].
      * destruct Hr as [-> Hsub]. split; [done|]. by apply sublist_inserts_l.
      * destruct Hr as [-> Hsub]. split; [done|]. by apply sublist_inserts_l.
  - specialize (IH (ids ++ [id]) refusal s1).
    destruct (submit_waves _ _ _ _ _ _ _ _ _ _ _ _) as [s2 r].
    destruct IH as (new & Hg & Hr). exists (mkAccepted id model wave :: new).
    split; [by apply (grew_trans _ _ _ _ [_] new Hs)|].
    destruct r as [all|[?|?|p q acc un]]; [|done| |].
    + destruct Hr as [-> Hsub]. split; [by rewrite <- app_assoc|].
      unfold bought. simpl. by apply sublist_app.
    + destruct Hr as [Hnil _]. by destruct ids.
    + destruct Hr as [-> Hsub]. split; [by rewrite <- app_assoc|].
      unfold bought. simpl. rewrite <- app_assoc. by apply sublist_app.
Qed.

Lemma submit_batches_spec h specs model eff m s :
  match submit_batches ps i environ digest vendor clock h specs model eff m s with
  | (s', r) =>
      ∃ new, grew (hk_task h) s s' new ∧
        match r with
        | Ok all => all = map aw_id new ∧ sublist (bought new) specs
        | Err (Exhausted _ _ accepted unsent) =>
            accepted = map aw_id new ∧ sublist (bought new ++ unsent) specs
        | Err _ => new = []
        end
  end.
Proof.
  assert (∀ s, ∃ new, grew (hk_task h) s s new ∧ new = []) as Hnone.
  { intros s0. exists []. split; [by apply grew_refl|done]. }
  unfold submit_batches. destruct (unavailable_reason _ _ _); [apply Hnone|].
  destruct (_ || _); [exists []; split; [by apply grew_refl|split; [done|apply sublist_nil_l]]|].
  destruct (negb _); [apply Hnone|].
  destruct (if is_anthropic _ _ then _ else _); [apply Hnone|].
  destruct (_chunk_specs m specs) as [waves|msg] eqn:Hw; [|apply Hnone].
  apply waves_concat in Hw. subst specs.
  pose proof (submit_waves_spec h m model waves [] None s) as H.
  destruct (submit_waves _ _ _ _ _ _ _ _ _ _ _ _) as [s' r]. destruct H as (new & Hg & H).
  exists new. split; [done|]. destruct r as [all|[?|?|p q acc un]]; naive_solver.
Qed.

Context (shapes : list TaskShape) (config : string → Z).
Context (overrides : option (list (string * option string))) (calls : list model_call).
Context (e : routing_env) (cycle : Z).

Lemma next_for_untried sh primary tried blocked c :
  next_for ps i e sh primary tried blocked = Some c → ch_model c ∈ untried e (Some sh) tried.
Proof.
  unfold next_for. destruct (usable e _ _ _) as [|m0 ms] eqn:Eu; [done|].
  pose proof (next_choice_spec ps i sh (m0 :: ms) (blocked ∪ unkeyed ps e) tried None) as Hn.
  destruct (next_choice _ _ _ _ _ _ _) as [c'|]; [|done]. intros [= <-]. simpl.
  destruct Hn as ((Ht & _) & _ & l1 & l2 & Hms & _). rewrite list_elem_of_filter.
  split; [done|]. assert (ch_model c' ∈ m0 :: ms) as Hin by (rewrite Hms; set_solver).
  rewrite <- Eu in Hin. by apply elem_of_usable in Hin as [Hin _].
Qed.

Lemma submit_turn_spec specs model eff m h shape payer primary ids tried committed s :
  match _submit_turn ps i environ digest vendor clock shapes config overrides calls e cycle
          specs model eff m h shape payer primary ids tried committed s with
  | (s', t) =>
      ∃ new, grew (hk_task h) s s' new ∧
        match t with
        | Return (Ok all) => all = (ids ++ map aw_id new)%list ∧ sublist (bought new) specs
        | Return (Err x) => new = [] ∧ (ids = [] ∨ not_credit x)
        | Resubmit unsent c ids' _ =>
            ids' = (ids ++ map aw_id new)%list ∧ sublist (bought new ++ unsent) specs ∧
            ch_model c ∈ untried e shape tried
        end
  end.
Proof.
  unfold _submit_turn. pose proof (submit_batches_spec h specs model eff m s) as H.
  destruct (submit_batches _ _ _ _ _ _ _ _ _ _ _ _) as [s' r]. destruct H as (new & Hg & H).
  destruct r as [all|[msg|er|p reason accepted unsent]].
  - destruct H as [-> Hs]. exists new. split; [|done].
    destruct (map aw_id new), (provider_of i model); done.
  - exists new. simpl. auto.
  - exists new. simpl. auto.
  - destruct H as [-> Hs]. cbv zeta.
    set (s2 := with_alerts _ s'). assert (grew (hk_task h) s s2 new) as Hg2 by done. clearbody s2.
    assert (∀ x, match (match (ids ++ map aw_id new)%list with
                        | [] => Return (Err x) | l => Return (Ok l) end) with
                 | Return (Ok all) => all = (ids ++ map aw_id new)%list ∧ sublist (bought new) specs
                 | Return (Err x) => new = [] ∧ (ids = [] ∨ not_credit x)
                 | Resubmit _ _ _ _ => False end) as Hkeep.
    { intros x. assert (sublist (bought new) specs) as Hb.
      { etrans; [|exact Hs]. by apply sublist_inserts_r. }
      destruct (ids ++ map aw_id new)%list eqn:Eids; [|done].
      apply app_nil in Eids as [-> Hm]. destruct new; [|done]. split; [done|by left]. }
    destruct (shape ≫= _) as [c|] eqn:Ec.
    + apply bind_Some in Ec as (sh & -> & Hc%next_for_untried).
      destruct (if bool_decide _ then _ else _) as [u|st].
      { exists new. by split_and!. }
      exists new. split; [done|].
      specialize (Hkeep (OverCeiling st)). by destruct (ids ++ map aw_id new)%list.
    + exists new. split; [done|].
      specialize (Hkeep (SubmitFailed (Exhausted p reason (map aw_id new) unsent))).
      by destruct (ids ++ map aw_id new)%list.
Qed.

(** Every fallback leaves fewer entries to try, so fuel above their number is enough. *)
Lemma untried_shrinks shape tried n :
  n ∈ untried e shape tried →
  (length (untried e shape (tried ∪ {[ n ]})) < length (untried e shape tried))%nat.
Proof.
  unfold untried. destruct shape as [sh|]; [|by intros ?%elem_of_nil].
  induction (chain e (purpose sh)) as [|x l IH]; [by intros ?%elem_of_nil|].
  assert (length (filter (λ m, m ∉ tried ∪ {[ n ]}) l) ≤ length (filter (λ m, m ∉ tried) l))%nat as Hle.
  { clear. induction l as [|y l IH]; [done|]. rewrite !filter_cons.
    repeat case_decide; simpl; try lia. set_solver. }
  rewrite !filter_cons. repeat case_decide; simpl; intros Hn.
  - apply IH in Hn || apply elem_of_cons in Hn as [->|Hn]; [set_solver|]. apply IH in Hn. lia.
  - lia.
  - set_solver.
  - by apply IH.
Qed.

Lemma submit_spec fuel tid specs model eff m h shape purpose_ payer primary ids tried committed s :
  hk_task h = tid → (length (untried e shape tried) < fuel)%nat →
  ∃ s' res new,
    _submit ps i environ digest vendor clock shapes config overrides calls e cycle
      fuel tid specs model eff m h shape purpose_ payer primary ids tried committed s = Some (s', res) ∧
    grew tid s s' new ∧
    match res with
    | Ok all => all = (ids ++ map aw_id new)%list ∧ sublist (bought new) specs
    | Err x => sublist (bought new) specs ∧ (ids = [] ∧ new = [] ∨ not_credit x)
    end.
Proof.
  revert specs model eff h ids tried committed s.
  induction fuel as [|fuel IH]; intros specs model eff h ids tried committed s Htid Hf; [lia|]. simpl.
  pose proof (submit_turn_spec specs model eff m h shape payer primary ids tried committed s) as H.
  rewrite Htid in H.
  destruct (_submit_turn _ _ _ _ _ _ _ _ _ _ _ _ _ _ _ _ _ _ _ _ _ _ _ _) as [s1 t].
  destruct H as (new & Hg & H). destruct t as [[all|x]|unsent c ids' committed'].
  - exists s1, (Ok all), new. done.
  - exists s1, (Err x), new. destruct H as [-> H]. split_and!; [done..|apply sublist_nil_l|tauto].
  - destruct H as (-> & Hs & Hc). apply untried_shrinks in Hc as Hlt.
    edestruct (IH unsent (ch_model c) (effort_of i c)
      (batch_event_hook tid (default ""%string purpose_) (Some (ch_model c)) payer
         (Some primary) s1) (ids ++ map aw_id new)%list (tried ∪ {[ch_model c]}) committed' s1)
      as (s2 & res & new2 & -> & Hg2 & Hres); [done|lia|].
    exists s2, res, (new ++ new2)%list. split; [done|]. split; [by eapply grew_trans|].
    assert (∀ l, sublist l unsent → sublist (bought new ++ l) specs) as Hsub.
    { intros l Hl. etrans; [|exact Hs]. by apply sublist_app. }
    rewrite bought_app, map_app. destruct res as [all|x].
    + destruct Hres as [-> Hb]. split; [by rewrite app_assoc|by apply Hsub].
    + destruct Hres as [Hb Hx]. split; [by apply Hsub|].
      destruct Hx as [[Hnil ->]|Hx]; [left|by right].
      apply app_nil in Hnil as [-> Hm]. destruct new; [done|done].
Qed.
End submission_lemmas.

(** C6: submission ends, and whatever providers answer no paid batch is lost.
    With fuel above the length of the fallback chain the loop returns. Across all
    models tried, the requests of the waves providers accepted are a subsequence
    of the requests asked for, so none is bought twice; every accepted batch is on
    the task's row, beside the batches it held; the ids returned are exactly the
    accepted ones; and a failure means nothing was accepted, unless the model
    could not take the request or refused every wave for a reason other than
    credit. *)
Theorem submit_keeps_paid ps i environ digest vendor clock shapes config overrides calls e cycle
    fuel h specs model eff m shape purpose_ payer primary s r :
  tasks (sb_world s) !! hk_task h = Some r → ids_array r →
  (match shape with Some sh => length (chain e (purpose sh)) | None => 0 end < fuel)%nat →
  ∃ s' res new r',
    _submit ps i environ digest vendor clock shapes config overrides calls e cycle
      fuel (hk_task h) specs model eff m h shape purpose_ payer primary [] {[ model ]} (Decimal 0) s =
      Some (s', res) ∧
    sb_accepted s' = (sb_accepted s ++ new)%list ∧ sublist (bought new) specs ∧
    tasks (sb_world s') !! hk_task h = Some r' ∧
    (∀ v, v ∈ payload_batch_ids (t_payload r) ∨ v ∈ map aw_id new →
       v ∈ payload_batch_ids (t_payload r')) ∧
    match res with
    | Ok ids => ids = map aw_id new
    | Err x => new = [] ∨ not_credit x
    end.
Proof.
  intros Hr Hids Hfuel.
  destruct (submit_spec ps i environ digest vendor clock shapes config overrides calls e cycle
    fuel (hk_task h) specs model eff m h shape purpose_ payer primary [] {[ model ]} (Decimal 0) s)
    as (s' & res & new & Hs & [Ha Hg] & Hres).
  { done. }
  { eapply Nat.le_lt_trans; [|exact Hfuel]. destruct shape; [apply length_filter|done]. }
  destruct (Hg r Hr Hids) as (r' & Hr' & _ & Hv). exists s', res, new, r'. split_and!; try done.
  - by destruct res as [all|x]; destruct Hres.
  - destruct res as [all|x]; [by destruct Hres|]. destruct Hres as [_ [[_ ?]|?]]; auto.
Qed.

Lemma submit_keeps_paid_witness :
  ∃ s' res, demo_submit 2 = Some (s', res) ∧ sublist (bought (sb_accepted s')) demo_specs.
Proof.
  destruct (submit_keeps_paid PROVIDERS MODELS demo_environ (λ s, s) demo_vendor (λ _, 1000) []
    (λ _, 0) None [] demo_routing 60 2 demo_hook demo_specs "gpt-6-luna" "low" 128000
    (Some demo_shape) (Some "requirements"%string) FLEET "gpt-6-luna" demo_sub demo_task)
    as (s' & res & new & r' & H & Ha & Hs & _).
  - reflexivity.
  - vm_compute. exact I.
  - vm_compute. lia.
  - exists s', res. split; [exact H|]. rewrite Ha. exact Hs.
Defined.


(** the poll wakes a parked task exactly when there is something to collect.
    A task it wakes had no batch to wait for or one the provider has ended; a task
    whose batches have all ended, or that has an ended batch and is past the
    provider's window, is woken; waking is counted as a resume, so it costs no
    retry, and keeps the payload; and no batch row past the window is left open
    unless its task can still collect it. *)
Theorem poll_wakes ask now window straggler cur tid w m i r :
  tasks w !! i = Some r → t_status r = AwaitingBatch →
  match handle_poll_batches ask now window straggler cur tid w m with
  | (w', m') =>
      let ids := payload_batch_ids (t_payload r) in
      ∃ r', tasks w' !! i = Some r' ∧ t_payload r' = t_payload r ∧
        (t_status r' = AwaitingBatch ∧ t_batch_resumes r' = t_batch_resumes r ∨
         t_status r' = Pending ∧ t_batch_resumes r' = t_batch_resumes r + 1) ∧
        (t_status r' = Pending → ids = [] ∨ ∃ b, b ∈ ids ∧ batch_finished ask i b = true) ∧
        ((∀ b, b ∈ ids → batch_finished ask i b = true) → t_status r' = Pending) ∧
        ((∃ b, b ∈ ids ∧ batch_finished ask i b = true) → past_window now window ids m = true →
         t_status r' = Pending) ∧
        ∀ b x, m' !! b = Some x → orphan_batch now window (tasks w') x = false
  end.
Proof.
  intros Hr Hs. unfold handle_poll_batches.
  pose proof (wakes_parked ask now window straggler w m i r Hr Hs) as Hp.
  pose proof (elem_of_parked w i r Hr Hs) as Hin.
  destruct (parked w) as [|t0 l0]; [by apply elem_of_nil in Hin|].
  generalize dependent (t0 :: l0). clear t0 l0. intros l Hp Hin. set (s := foldl _ _ l). cbv zeta.
  destruct (poll_loop_spec ask now window straggler l (mkPolled w m 0 0 0) i) as [Hi _].
  fold s in Hi. simpl in Hi. rewrite Hr in Hi. simpl in Hi.
  rewrite (proj2 (is_status_true _ _) Hs), Hp in Hi.
  destruct (_expire_orphans now window (po_world s) (po_batches s)) as [m' orphaned] eqn:Eo.
  set (n := po_resumed s + po_partial s).
  pose proof (λ j, set_progress_row cur now tid n (Z.of_nat (length l)) (poll_label s orphaned) ∅
    (po_world s) j) as Hprog.
  assert (∀ b x, m' !! b = Some x → orphan_batch now window
    (tasks (set_progress cur now tid n (Z.of_nat (length l)) (poll_label s orphaned) ∅ (po_world s))) x
    = false) as Ho.
  { intros b x Hx. rewrite (orphan_statuses now window _ (tasks (po_world s))).
    - apply (expire_orphans_none now window (po_world s) (po_batches s) b). by rewrite Eo.
    - intros j. destruct (Hprog j) as (f & -> & Hf). destruct (tasks (po_world s) !! j) as [q|]; [|done].
      simpl. by destruct (Hf q) as [-> _]. }
  destruct (wakes_spec ask now window straggler m i (payload_batch_ids (t_payload r)))
    as (Hw1 & Hw2 & Hw3).
  destruct (Hprog i) as (f & Hf & Hfr). rewrite Hi in Hf. eexists. split; [exact Hf|].
  edestruct Hfr as (-> & -> & ->). destruct (wakes _ _ _ _ _ _) eqn:Ew; simpl.
  - split_and!; auto.
  - rewrite Hs. split_and!; auto; [done|by intros ?%Hw2|by intros ? ?%Hw3].
Qed.

Lemma poll_wakes_witness :
  let r := put_status AwaitingBatch (put_payload (record_ids ["b1"%string] ∅) demo_task) in
  let ask (tid : Z) (b : string) := Some (mkBatch b "completed" 1 1 0) in
  ∃ r', tasks (fst (handle_poll_batches ask 0 86400 3600 None 2 (mkWorld {[ 1 := r ]} 3 []) ∅)) !! 1 =
      Some r' ∧ t_status r' = Pending.
Proof.
  intros r ask.
  pose proof (poll_wakes ask 0 86400 3600 None 2 (mkWorld {[ 1 := r ]} 3 []) ∅ 1 r eq_refl eq_refl) as H.
  destruct (handle_poll_batches _ _ _ _ _ _ _ _) as [w' m'].
  destruct H as (r' & Hr & _ & _ & _ & Hall & _). exists r'. split; [exact Hr|].
  apply Hall. intros b _. reflexivity.
Defined.
