(* ===== verification/Collect.v ===== *)
(** * Collecting provider batches ([core.batch.collection],
    [core.batch.anthropic_batches], [core.batch.collect_finished_batches])

    What a provider returns for a finished batch is read into one result per
    request. The providers are parameters: what a batch reads as, what its files
    and its result stream hold, and whether reading them fails. *)

From S2P Require Import Prelude PyStr Sql Tasks Parking Spec Datasheets Pricing Routing Fallback Shapes Batches.

Local Open Scope string_scope.
Local Open Scope Z_scope.

(** ** Decoded JSON as Python reads it *)

(** [j.get(k, d)]; anything but an object has no [get]. *)
Definition py_get (d : json) (k : string) (j : json) : result string json :=
  match j with
  | JObj o => Ok (default d (alist_get k o))
  | _ => Err "AttributeError"
  end.

(** [for x in j]. *)
Definition py_iter (j : json) : result string (list json) :=
  match j with
  | JArr l => Ok l
  | JObj o => Ok (map (λ p, JStr p.1) o)
  | JStr s => Ok (map (λ c, JStr (of_chars [c])) (chars s))
  | _ => Err "TypeError"
  end.

(** [x or y]. *)
Definition py_or (x y : json) : json := if truthy x then x else y.

(** [s or None]: the empty string is falsy. *)
Definition nonempty_opt (o : option string) : option string :=
  match o with
  | Some s => if String.eqb s "" then None else Some s
  | None => None
  end.

Definition hex_digit (n : nat) : Ascii.ascii :=
  Ascii.ascii_of_nat (if (n <? 10)%nat then 48 + n else 87 + n).

(** One character of [repr(s)] between quotes [q]. *)
Definition repr_char (q c : Ascii.ascii) : list Ascii.ascii :=
  let n := code c in
  if Ascii.eqb c q || (n =? 92)%nat then [Ascii.ascii_of_nat 92; c]
  else if (n =? 10)%nat then chars "\n"
  else if (n =? 13)%nat then chars "\r"
  else if (n =? 9)%nat then chars "\t"
  else if (n <? 32)%nat || (n =? 127)%nat then
    (chars "\x" ++ [hex_digit (n / 16); hex_digit (n mod 16)])%list
  else [c].

(** [repr] of an ASCII string: double quotes when it holds only single ones. *)
Definition repr_str (s : string) : string :=
  let q := if contains "'" s && negb (existsb (λ c, (code c =? 34)%nat) (chars s))
           then Ascii.ascii_of_nat 34 else Ascii.ascii_of_nat 39 in
  of_chars (q :: concat (map (repr_char q) (chars s)) ++ [q])%list.

Fixpoint py_repr (j : json) : string :=
  match j with
  | JNull => "None"
  | JBool true => "True"
  | JBool false => "False"
  | JInt z => pretty.pretty z
  | JStr s => repr_str s
  | JArr l => "[" ++ str_join ", " (map py_repr l) ++ "]"
  | JObj l => "{" ++ str_join ", " (map (λ p, repr_str p.1 ++ ": " ++ py_repr p.2) l) ++ "}"
  end.

Definition py_str (j : json) : string :=
  match j with
  | JStr s => s
  | _ => py_repr j
  end.

(** ** Results *)

(** [text], [usage] and [finish_reason] are kept as the provider sent them;
    [JNull] is None. *)
Record BatchResult : Type := mkResult {
  br_custom_id : string;
  br_text : json;
  br_usage : json;
  br_error : option string;
  br_batch_id : option string;
  br_model : option string;
  br_finish_reason : json;
  br_embedding_vectors : option (list json);
}.

Definition new_result (cid : string) : BatchResult :=
  mkResult cid JNull JNull None None None JNull None.

Definition set_error (e : option string) (r : BatchResult) : BatchResult :=
  mkResult (br_custom_id r) (br_text r) (br_usage r) e (br_batch_id r) (br_model r)
    (br_finish_reason r) (br_embedding_vectors r).
Definition set_usage (u : json) (r : BatchResult) : BatchResult :=
  mkResult (br_custom_id r) (br_text r) u (br_error r) (br_batch_id r) (br_model r)
    (br_finish_reason r) (br_embedding_vectors r).
Definition set_answer (text finish : json) (r : BatchResult) : BatchResult :=
  mkResult (br_custom_id r) text (br_usage r) (br_error r) (br_batch_id r) (br_model r)
    finish (br_embedding_vectors r).
Definition set_vectors (v : option (list json)) (r : BatchResult) : BatchResult :=
  mkResult (br_custom_id r) (br_text r) (br_usage r) (br_error r) (br_batch_id r) (br_model r)
    (br_finish_reason r) v.
Definition set_batch_id (b : option string) (r : BatchResult) : BatchResult :=
  mkResult (br_custom_id r) (br_text r) (br_usage r) (br_error r) b (br_model r)
    (br_finish_reason r) (br_embedding_vectors r).
Definition set_model (m : option string) (r : BatchResult) : BatchResult :=
  mkResult (br_custom_id r) (br_text r) (br_usage r) (br_error r) (br_batch_id r) m
    (br_finish_reason r) (br_embedding_vectors r).

Definition is_null (j : json) : bool := bool_decide (j = JNull).

Definition _unanswered (r : BatchResult) : bool :=
  is_null (br_text r) && bool_decide (br_embedding_vectors r = None).

(** The results of one batch: a dict by request id, in insertion order. *)
Abbreviation results := (list (string * BatchResult)).

(** ** OpenAI result files *)

(** The three members the code reads of a decoded line; absent and null read the
    same. *)
Record result_line : Type := mkLine {
  ln_custom_id : option string;
  ln_error : json;
  ln_response : json;
}.

Definition _extract_output_text (body : json) : result string json :=
  (do output <- py_get (JArr []) "output" body ;;
   do items <- py_iter output ;;
   (fix over_items (items : list json) : result string json :=
     match items with
     | [] => Ok JNull
     | item :: items =>
         do ty <- py_get JNull "type" item ;;
         if negb (bool_decide (ty = JStr "message")) then over_items items
         else
           do content <- py_get (JArr []) "content" item ;;
           do contents <- py_iter content ;;
           (fix over_contents (l : list json) : result string json :=
             match l with
             | [] => over_items items
             | c :: l =>
                 do ty <- py_get JNull "type" c ;;
                 if bool_decide (ty = JStr "output_text") then py_get JNull "text" c
                 else over_contents l
             end) contents
     end) items)%js.

(** The reason for a failed line, wherever the provider put it. *)
Definition _line_error (l : result_line) : result string (option string) :=
  if truthy (ln_error l) then Ok (Some (py_str (ln_error l)))
  else
    (let resp := py_or (ln_response l) (JObj []) in
     do status <- py_get JNull "status_code" resp ;;
     if bool_decide (status = JInt 200) then Ok None
     else
       do body <- py_get JNull "body" resp ;;
       let detail := match body with JObj o => default JNull (alist_get "error" o) | _ => JNull end in
       let message :=
         match detail with JObj o => default JNull (alist_get "message" o) | _ => detail end in
       Ok (if truthy message then
             Some (if truthy status then py_str status ++ ": " ++ py_str message else py_str message)
           else if truthy status then Some (py_str status) else None))%js.

(** The result a line answers; one for an unknown request only when the caller
    asked for unknown ids to be created. *)
Definition _result_for (rs : results) (cid : option string) (create_missing : bool)
    : option (results * BatchResult) :=
  match cid with
  | None => None
  | Some c =>
      match alist_get c rs with
      | Some r => Some (rs, r)
      | None =>
          if create_missing && negb (String.eqb c "")
          then Some (alist_set c (new_result c) rs, new_result c)
          else None
      end
  end.

Definition vector_index (item : json) : option (Z * json) :=
  match item with
  | JObj o =>
      match alist_get "index" o with
      | Some (JInt n) => Some (n, default JNull (alist_get "embedding" o))
      | _ => None
      end
  | _ => None
  end.

Definition by_index (a b : Z * json) : Prop := a.1 <= b.1.
#[export] Instance by_index_dec a b : Decision (by_index a b).
Proof. unfold by_index. apply _. Defined.

(** The vectors in index order, or None unless the indices are exactly 0..n-1
    and every vector is a list. *)
Definition _ordered_vectors (data : json) : option (list json) :=
  match data with
  | JArr ((_ :: _) as l) =>
      items ← mapM vector_index l;
      if forallb (λ k, mem k (items.*1)) (seqZ 0 (Z.of_nat (length l))) &&
         forallb (λ k, mem k (seqZ 0 (Z.of_nat (length l)))) (items.*1)
      then
        let vectors := (merge_sort by_index items).*2 in
        if forallb (λ v, match v with JArr _ => true | _ => false end) vectors
        then Some vectors else None
      else None
  | _ => None
  end.

Definition _read_embedding (r : BatchResult) (body : json) : result string BatchResult :=
  (do usage <- py_get JNull "usage" body ;;
   do usage <-
     (if is_null usage then Ok JNull
      else
        do prompt <- py_get (JInt 0) "prompt_tokens" usage ;;
        do total <- py_get (JInt 0) "total_tokens" usage ;;
        Ok (JObj [("input_tokens", prompt); ("output_tokens", JInt 0); ("total_tokens", total)])) ;;
   do data <- py_get JNull "data" body ;;
   let r := set_usage usage r in
   let r := match _ordered_vectors (py_or data (JArr [])) with
            | Some v => set_vectors (Some v) r
            | None => r
            end in
   Ok (match br_embedding_vectors r with
       | None => set_error (Some "invalid embedding vector indices") r
       | Some _ => r
       end))%js.

Definition _read_response (r : BatchResult) (body : json) : result string BatchResult :=
  (do usage <- py_get JNull "usage" body ;;
   do text <- _extract_output_text body ;;
   do incomplete <- py_get JNull "incomplete_details" body ;;
   do reason <- py_get JNull "reason" (py_or incomplete (JObj [])) ;;
   do state <- py_get JNull "status" body ;;
   let r := set_answer text (py_or reason state) (set_usage usage r) in
   Ok (if is_null text then set_error (Some "no output text") r else r))%js.

(** One line of the output file. *)
Definition read_line (embeddings create_missing : bool) (rs : results) (l : result_line)
    : result string results :=
  match _result_for rs (ln_custom_id l) create_missing with
  | None => Ok rs
  | Some (rs, r) =>
      (let failed :=
         do e <- _line_error l ;;
         Ok (alist_set (br_custom_id r) (set_error (Some (default "unknown" (nonempty_opt e))) r) rs) in
       if truthy (ln_error l) || negb (truthy (ln_response l)) then failed
       else
         do status <- py_get JNull "status_code" (ln_response l) ;;
         if negb (bool_decide (status = JInt 200)) then failed
         else
           do body <- py_get (JObj []) "body" (ln_response l) ;;
           do r <- (if embeddings then _read_embedding r body else _read_response r body) ;;
           Ok (alist_set (br_custom_id r) r rs))%js
  end.

(** A file's lines; [None] is a line [json.loads] or the reader refuses. *)
Fixpoint read_output (embeddings create_missing : bool) (rs : results)
    (lines : list (option result_line)) : result string results :=
  match lines with
  | [] => Ok rs
  | None :: _ => Err "JSONDecodeError"
  | Some l :: lines =>
      (do rs <- read_line embeddings create_missing rs l ;;
       read_output embeddings create_missing rs lines)%js
  end.

(** The error file is read inside a [try]: what was read before a line that
    raises is kept. *)
Fixpoint read_errors (create_missing : bool) (rs : results) (lines : list (option result_line))
    : results :=
  match lines with
  | [] | None :: _ => rs
  | Some l :: lines =>
      match _result_for rs (ln_custom_id l) create_missing with
      | None => read_errors create_missing rs lines
      | Some (rs, r) =>
          if _unanswered r then
            match _line_error l with
            | Err _ => rs
            | Ok e =>
                read_errors create_missing
                  (alist_set (br_custom_id r)
                     (set_error (Some (default "batch error" (nonempty_opt e))) r) rs) lines
            end
          else read_errors create_missing rs lines
      end
  end.

(** What the SDK's Batch holds, beside its progress. [ob_errors] are the
    messages of [errors.data]. *)
Record openai_batch : Type := mkOpenAI {
  ob_batch : provider_batch;
  ob_output_file : option string;
  ob_error_file : option string;
  ob_endpoint : string;
  ob_errors : list string;
}.

Definition on_values (f : BatchResult → BatchResult) (rs : results) : results :=
  map (λ p, (p.1, f p.2)) rs.

Definition own_batch (bid : string) (r : BatchResult) : BatchResult :=
  match br_batch_id r with
  | None => set_batch_id (Some bid) r
  | Some _ => r
  end.

(** [{cid: r.error ... if r.error and r.batch_id == batch.id}]. *)
Definition errors_of (bid : string) (rs : results) : list (string * string) :=
  omap (λ p : string * BatchResult,
    match br_error p.2 with
    | Some e => if negb (String.eqb e "") && bool_decide (br_batch_id p.2 = Some bid)
                then Some (p.1, e) else None
    | None => None
    end) rs.

(** The rows of [ai_batch_errors] one collection writes. *)
Abbreviation error_rows := (list (string * string * string)).

Definition _record_errors (b : openai_batch) (rs : results) : results * error_rows :=
  let bid := pb_id (ob_batch b) in
  let messages := str_join "; " (ob_errors b) in
  let placeholder := "batch " ++ pb_status (ob_batch b) in
  let rs :=
    on_values (λ r,
      if _unanswered r && negb (bool_decide (ob_errors b = [])) &&
         mem (br_error r) [None; Some ""; Some placeholder]
      then set_error (Some messages) r else r) rs in
  let errors := errors_of bid rs in
  let errors :=
    if negb (bool_decide (ob_errors b = [])) && bool_decide (errors = [])
    then [("", messages)] else errors in
  (rs, map (λ e, (bid, e.1, e.2)) (filter (λ e, e.2 ≠ "") errors)).

(** An expired or cancelled batch still returns the requests it finished, so
    only a request with neither answer nor error is marked. *)
Definition mark_unfinished (b : openai_batch) (rs : results) : results :=
  if String.eqb (pb_status (ob_batch b)) "completed" then rs
  else on_values (λ r,
         if _unanswered r && bool_decide (br_error r = None)
         then set_error (Some ("batch " ++ pb_status (ob_batch b))) r else r) rs.

(** [content file] is what the provider returns for a file, [None] when the
    download raises. *)
Definition _collect_batch (content : string → option (list (option result_line)))
    (b : openai_batch) (rs : results) (create_missing : bool)
    : result string (results * error_rows) :=
  let embeddings := String.eqb (ob_endpoint b) "/v1/embeddings" in
  (do rs <-
     match ob_output_file b with
     | Some f =>
         if String.eqb f "" then Ok rs
         else match content f with
              | None => Err "download failed"
              | Some lines => read_output embeddings create_missing rs lines
              end
     | None => Ok rs
     end ;;
   let rs :=
     match ob_error_file b with
     | Some f =>
         if String.eqb f "" then rs
         else match content f with
              | None => rs
              | Some lines => read_errors create_missing rs lines
              end
     | None => rs
     end in
   Ok (_record_errors b
         (on_values (own_batch (pb_id (ob_batch b))) (mark_unfinished b rs))))%js.

(** ** Anthropic result streams *)

Record message_usage : Type := mkUsage {
  mu_input_tokens : option Z;
  mu_output_tokens : option Z;
  mu_cache_read : option Z;
  mu_cache_creation : option Z;
}.

Inductive outcome : Type :=
| Succeeded (usage : message_usage) (stop_reason : option string) (content : list (string * string))
| NotSucceeded (type : string) (kind message : option string).

Record message_line : Type := mkMessageLine {
  ml_custom_id : string;
  ml_result : outcome;
}.

(** A MessageBatch; [mb_results] is its stream, [None] a read that raises. *)
Record message_batch : Type := mkMessageBatch {
  mb_id : string;
  mb_processing_status : string;
  mb_processing : Z;
  mb_succeeded : Z;
  mb_errored : Z;
  mb_canceled : Z;
  mb_expired : Z;
  mb_results : list (option message_line);
}.

Definition BATCH_ID_PREFIX : string := "msgbatch_".

Definition holds (batch_id : string) : bool := starts_with (chars BATCH_ID_PREFIX) (chars batch_id).

Definition _status (b : message_batch) : string :=
  if String.eqb (mb_processing_status b) "ended" then "completed"
  else if String.eqb (mb_processing_status b) "canceling" then "cancelling"
  else "in_progress".

Definition progress (b : message_batch) : provider_batch :=
  mkBatch (mb_id b) (_status b)
    (mb_processing b + mb_succeeded b + mb_errored b + mb_canceled b + mb_expired b)
    (mb_succeeded b) (mb_errored b + mb_canceled b + mb_expired b).

(** Cache reads and writes counted inside [input_tokens], as OpenAI reports
    them. *)
Definition receipt_usage (u : message_usage) : json :=
  let read := default 0 (mu_cache_read u) in
  let written := default 0 (mu_cache_creation u) in
  let prompt := default 0 (mu_input_tokens u) + read + written in
  let out := default 0 (mu_output_tokens u) in
  JObj [("input_tokens", JInt prompt); ("output_tokens", JInt out);
        ("total_tokens", JInt (prompt + out));
        ("input_tokens_details",
           JObj [("cached_tokens", JInt read); ("cache_write_tokens", JInt written)])].

Definition outcome_error (type : string) (kind message : option string) : string :=
  default ("request " ++ type)
    (match nonempty_opt kind, nonempty_opt message with
     | Some k, Some m => Some (k ++ ": " ++ m)
     | _, m => m
     end).

Definition read_message (r : BatchResult) (o : outcome) : BatchResult :=
  match o with
  | NotSucceeded type kind message => set_error (Some (outcome_error type kind message)) r
  | Succeeded usage stop content =>
      let texts := (filter (λ p, p.1 = "text") content).*2 in
      let text := match texts with [] => JNull | _ => JStr (str_join "" texts) end in
      let finish := match stop with Some s => JStr s | None => JNull end in
      let r := set_answer text finish (set_usage (receipt_usage usage) r) in
      if is_null text then set_error (Some "no output text") r else r
  end.

Definition message_step (known : list (string * string)) (create_missing : bool)
    (rs : results) (l : message_line) : results :=
  let cid := nonempty_opt (alist_get (ml_custom_id l) known) in
  match cid ≫= λ c, alist_get c rs with
  | Some r => alist_set (br_custom_id r) (read_message r (ml_result l)) rs
  | None =>
      if negb create_missing then rs
      else
        let key := default (ml_custom_id l) cid in
        let r := default (new_result key) (alist_get key rs) in
        match alist_get (ml_custom_id l) known with
        | None => alist_set key (set_error (Some "result names no submitted request") r) rs
        | Some _ => alist_set key (read_message r (ml_result l)) rs
        end
  end.

Fixpoint read_messages (known : list (string * string)) (create_missing : bool) (rs : results)
    (lines : list (option message_line)) : option results :=
  match lines with
  | [] => Some rs
  | None :: _ => None
  | Some l :: lines => read_messages known create_missing (message_step known create_missing rs l) lines
  end.

Definition collect (b : message_batch) (rs : results) (known : list (string * string))
    (create_missing : bool) : option (results * error_rows) :=
  match read_messages known create_missing rs (mb_results b) with
  | None => None
  | Some rs =>
      let rs := on_values (own_batch (mb_id b)) rs in
      Some (rs, map (λ e, (mb_id b, e.1, e.2)) (errors_of (mb_id b) rs))
  end.

(** ** [collect_finished_batches] *)

(** [wire_ids]: the sent id of each request, mapped to the id the caller knows
    it by. *)
Definition wire_ids (digest : string → string) (custom_ids : list string)
    : list (string * string) :=
  foldl (λ d c, alist_set (wire_id digest c) c d) [] custom_ids.

(** The frozen requests of the task that submitted a batch: [batch_requests] as
    (task id, custom id) pairs. *)
Definition submitted_custom_ids (m : gmap string ai_batch) (requests : list (Z * string))
    (bid : string) : list string :=
  match m !! bid with
  | Some b => (filter (λ q, q.1 = ab_task_id b) requests).*2
  | None => []
  end.

(** What a collection has read so far. *)
Record collection : Type := mkCollection {
  co_state : submission;
  co_results : list BatchResult;
  co_unfinished : list string;
  co_errors : error_rows;
}.

Definition unfinish (bid : string) (c : collection) : collection :=
  mkCollection (co_state c) (co_results c) (co_unfinished c ++ [bid])%list (co_errors c).

Definition observe (h : event_hook) (now : Z) (b : provider_batch) (c : collection) : collection :=
  mkCollection (emit_progress h now b (co_state c)) (co_results c) (co_unfinished c) (co_errors c).

Definition gather (rs : results) (errors : error_rows) (c : collection) : collection :=
  mkCollection (co_state c) (co_results c ++ rs.*2)%list (co_unfinished c) (co_errors c ++ errors)%list.

Section collecting.
Context (ps : list Provider) (environ : gmap string string) (digest : string → string).
Context (retrieve : string → option openai_batch).
Context (content : string → option (list (option result_line))).
Context (retrieve_message : string → option message_batch).
Context (requests : list (Z * string)) (h : event_hook) (now : Z).

Definition _collect_anthropic (batch_ids : list string) (c : collection) : collection :=
  if String.eqb (server_key ps environ "anthropic") "" then
    mkCollection (co_state c) (co_results c) (co_unfinished c ++ batch_ids)%list (co_errors c)
  else
    foldl (λ c bid,
      match retrieve_message bid with
      | None => unfinish bid c
      | Some b =>
          let c := observe h now (progress b) c in
          if negb (String.eqb (mb_processing_status b) "ended") then unfinish bid c
          else
            let known :=
              wire_ids digest (submitted_custom_ids (sb_batches (co_state c)) requests bid) in
            match collect b [] known true with
            | None => unfinish bid c
            | Some (rs, errors) => gather rs errors c
            end
      end) c batch_ids.

(** Unreadable is unfinished; a finished batch whose files cannot be read
    raises. *)
Fixpoint collect_openai (batch_ids : list string) (c : collection)
    : collection * option string :=
  match batch_ids with
  | [] => (c, None)
  | bid :: batch_ids =>
      match retrieve bid with
      | None => collect_openai batch_ids (unfinish bid c)
      | Some b =>
          let c := observe h now (ob_batch b) c in
          if negb (is_terminal (pb_status (ob_batch b))) then collect_openai batch_ids (unfinish bid c)
          else
            match _collect_batch content b [] true with
            | Err e => (c, Some e)
            | Ok (rs, errors) => collect_openai batch_ids (gather rs errors c)
            end
      end
  end.

Definition collect_finished_batches (batch_ids : list string) (s : submission)
    : collection * option string :=
  let c := mkCollection s [] [] [] in
  let theirs := filter (λ b, holds b = true) batch_ids in
  let c := match theirs with [] => c | _ => _collect_anthropic theirs c end in
  let batch_ids := filter (λ b, holds b = false) batch_ids in
  match batch_ids with
  | [] => (c, None)
  | _ =>
      if String.eqb (default "" (environ !! "OPENAI_API_KEY")) "" then
        (mkCollection (co_state c) (co_results c) (co_unfinished c ++ batch_ids)%list (co_errors c),
         None)
      else collect_openai batch_ids c
  end.
End collecting.
