(* ===== verification/Receipts.v ===== *)
(** * Result receipts and the ledger of paid calls ([api.ai.batch_results],
    [api.model_calls] and the collection side of [tasks.runtime.batching])

    A collected result becomes a receipt row, the ledger row it was billed as,
    and only then stops being pending on the task. Receipts are consumed by the
    task's handler, one transaction per result or per chunk. *)

From S2P Require Import Prelude PyStr Sql Tasks Queue Parking Spec Datasheets Pricing Routing Fallback Shapes Batches Collect.

Local Open Scope string_scope.
Local Open Scope Z_scope.

(** ** The ledger ([model_calls]) *)

(** [payer.kind] and [payer.id] are the constructor and its argument. *)
Definition key_source_of (p : Payer) : string :=
  if bool_decide (p = FLEET) then "server" else "owner".

(** The normalised usage [batch_usage] answers. *)
Record usage_counts : Type := mkUsageCounts {
  us_prompt : Z;
  us_completion : Z;
  us_total : Z;
  us_cached : Z;
  us_cache_write : option Z;
  us_reasoning : Z;
}.

(** Counts are integers or null. *)
Definition int_or_zero (j : option json) : Z :=
  match j with
  | Some (JInt z) => z
  | _ => 0
  end.

Definition opt_int (j : option json) : option Z :=
  match j with
  | Some (JInt z) => Some z
  | _ => None
  end.

Definition members (j : option json) : list (string * json) :=
  match j with
  | Some (JObj l) => l
  | _ => []
  end.

Definition _usage_tuple (prompt completion total cached : Z) (cache_write : option Z)
    (reasoning : Z) : usage_counts :=
  mkUsageCounts prompt completion (if total =? 0 then prompt + completion else total)
    cached cache_write reasoning.

(** [None] is the empty dict. *)
Definition batch_usage (usage : json) : option usage_counts :=
  if negb (truthy usage) then None
  else
    let values := members (Some usage) in
    let details := members (alist_get "input_tokens_details" values) in
    Some (_usage_tuple
      (int_or_zero (alist_get "input_tokens" values))
      (int_or_zero (alist_get "output_tokens" values))
      (int_or_zero (alist_get "total_tokens" values))
      (int_or_zero (alist_get "cached_tokens" details))
      (opt_int (alist_get "cache_write_tokens" details))
      (int_or_zero (alist_get "reasoning_tokens"
         (members (alist_get "output_tokens_details" values))))).

(** A call as it is recorded when it runs: the backfill's [created_at] and
    [source] keep their defaults. *)
Record Call : Type := mkCall {
  cl_purpose : string;
  cl_model : option string;
  cl_payer : Payer;
  cl_key_source : string;
  cl_usage : option usage_counts;
  cl_task_id : option Z;
  cl_provider_batch_id : option string;
  cl_custom_id : option string;
  cl_duration_ms : option Z;
}.

Record call_row : Type := mkCallRow {
  cr_call : Call;
  cr_batched : bool;
  cr_prompt_tokens : Z;
  cr_completion_tokens : Z;
  cr_total_tokens : Z;
  cr_cached_tokens : Z;
  cr_cache_write_tokens : option Z;
  cr_reasoning_tokens : Z;
  cr_cost_usd : option Qc;
}.

(** ** Receipts ([batch_result_receipts]) *)

(** The [response] column; vectors are held by reference. *)
Record response : Type := mkResponse {
  rs_text : json;
  rs_usage : json;
  rs_error : option string;
  rs_finish_reason : json;
  rs_vectors_ref : option string;
}.

Record receipt : Type := mkReceipt {
  rc_task_id : Z;
  rc_response : response;
  rc_model : option string;
  rc_outcome : option string;
  rc_consumed_at : option Z;
}.

(** [(provider_batch_id, custom_id)], the primary key. *)
Abbreviation receipt_key := (string * string)%type.

(** Every table a collection or a consumption writes. *)
Record books : Type := mkBooks {
  bk_state : submission;
  bk_receipts : gmap receipt_key receipt;
  bk_calls : list call_row;
  bk_errors : error_rows;
}.

Inductive books_exn : Type :=
| NoBatchId                    (** a collected result must identify its provider batch *)
| PayloadUnavailable
| OtherTask                    (** batch result receipt belongs to another task *)
| NotCheckpointed              (** result must be checkpointed before consumption *)
| CollectFailed (e : string)
| ConsumerRaised.

Definition with_receipts (m : gmap receipt_key receipt) (b : books) : books :=
  mkBooks (bk_state b) m (bk_calls b) (bk_errors b).
Definition with_calls (l : list call_row) (b : books) : books :=
  mkBooks (bk_state b) (bk_receipts b) l (bk_errors b).
Definition with_state (s : submission) (b : books) : books :=
  mkBooks s (bk_receipts b) (bk_calls b) (bk_errors b).
Definition with_world (w : world) (b : books) : books :=
  with_state (mkSub w (sb_batches (bk_state b)) (sb_alerts (bk_state b)) (sb_calls (bk_state b))
                (sb_accepted (bk_state b))) b.

Section ledger.
Context (i : index).

(** The row a call is written as, [None] when its provider reported no tokens. *)
Definition _row (c : Call) : option call_row :=
  match cl_usage c with
  | None => None
  | Some u =>
      if us_total u =? 0 then None
      else
        let batched := bool_decide (is_Some (cl_provider_batch_id c)) in
        Some (mkCallRow c batched (us_prompt u) (us_completion u) (us_total u) (us_cached u)
                (us_cache_write u) (us_reasoning u)
                (estimate_cost_usd i (cl_model c) (Some (us_prompt u)) (Some (us_completion u))
                   (Some (us_cached u)) batched None (Pricing.Receipt (us_cache_write u))))
  end.

(** [UNIQUE (provider_batch_id, custom_id)]: null keys never conflict. *)
Definition same_item (c c' : Call) : bool :=
  bool_decide (is_Some (cl_provider_batch_id c) ∧ is_Some (cl_custom_id c)) &&
  bool_decide (cl_provider_batch_id c = cl_provider_batch_id c') &&
  bool_decide (cl_custom_id c = cl_custom_id c').

(** [INSERT ... ON CONFLICT DO NOTHING]. *)
Definition insert_call (l : list call_row) (r : call_row) : list call_row :=
  if existsb (λ r', same_item (cr_call r) (cr_call r')) l then l else (l ++ [r])%list.

Definition record (calls : list Call) (l : list call_row) : list call_row :=
  foldl insert_call l (omap _row calls).

Inductive live_exn : Type :=
| BatchItem.                   (** a batch item is recorded by the receipt checkpoint *)

(** The row number stands for the id. *)
Definition record_live (c : Call) (l : list call_row) : list call_row * result live_exn (option nat) :=
  match cl_provider_batch_id c with
  | Some _ => (l, Err BatchItem)
  | None =>
      match _row c with
      | None => (l, Ok None)
      | Some r => ((l ++ [r])%list, Ok (Some (length l)))
      end
  end.

(** A batch whose payer was never recorded writes nothing: its calls are not a
    guess at who paid. *)
Definition batch_call (m : gmap string ai_batch) (r : BatchResult) : option Call :=
  bid ← nonempty_opt (br_batch_id r);
  if negb (truthy (br_usage r)) then None
  else
    b ← m !! bid;
    payer ← ab_payer b;
    Some (mkCall (ab_purpose b) (ab_model b) payer (key_source_of payer)
            (batch_usage (br_usage r)) (Some (ab_task_id b)) (Some bid) (Some (br_custom_id r)) None).

Definition record_batch_items (results : list BatchResult) (b : books) : books :=
  with_calls (record (omap (batch_call (sb_batches (bk_state b))) results) (bk_calls b)) b.

(** ** Checkpoint *)

(** The payload store: [put_verified] uploads vectors and reads them back, [get]
    reads them by reference; [None] is PayloadUnavailable. *)
Context (put_verified : list json → option string) (get : string → option (list json)).

Definition stored_response (r : BatchResult) (ref : option string) : response :=
  mkResponse (br_text r) (br_usage r) (br_error r) (br_finish_reason r) ref.

(** The references of the results that hold vectors. *)
Definition upload (r : BatchResult) : result books_exn (BatchResult * option string) :=
  match br_embedding_vectors r with
  | None => Ok (r, None)
  | Some v =>
      match put_verified v with
      | Some ref => Ok (r, Some ref)
      | None => Err PayloadUnavailable
      end
  end.

Fixpoint upload_all (results : list BatchResult)
    : result books_exn (list (BatchResult * option string)) :=
  match results with
  | [] => Ok []
  | r :: results => (do x <- upload r ;; do l <- upload_all results ;; Ok (x :: l))%js
  end.

(** The insert and the ownership read that follows it. *)
Definition write_receipt (tid : Z) (m : gmap receipt_key receipt) (x : BatchResult * option string)
    : result books_exn (gmap receipt_key receipt) :=
  let k := (default "" (br_batch_id x.1), br_custom_id x.1) in
  match m !! k with
  | Some r => if rc_task_id r =? tid then Ok m else Err OtherTask
  | None =>
      Ok (<[k := mkReceipt tid (stored_response x.1 x.2) (br_model x.1) None None]> m)
  end.

Fixpoint write_receipts (tid : Z) (m : gmap receipt_key receipt)
    (l : list (BatchResult * option string)) : result books_exn (gmap receipt_key receipt) :=
  match l with
  | [] => Ok m
  | x :: l => (do m <- write_receipt tid m x ;; write_receipts tid m l)%js
  end.

Definition collected_payload (unfinished : list string) : jobject :=
  <["batch_ids" := JArr (map JStr unfinished)]>
  {[ "batch_collection_checkpointed" := JBool true ]}.

(** One transaction after the uploads: any error leaves every table as it was. *)
Definition checkpoint (tid : Z) (results : list BatchResult) (unfinished : list string) (b : books)
    : books * result books_exn unit :=
  if existsb (λ r, bool_decide (nonempty_opt (br_batch_id r) = None)) results then (b, Err NoBatchId)
  else
    match upload_all results with
    | Err e => (b, Err e)
    | Ok uploaded =>
        match write_receipts tid (bk_receipts b) uploaded with
        | Err e => (b, Err e)
        | Ok m =>
            let b := record_batch_items results (with_receipts m b) in
            (with_world
               (merge_payload tid (collected_payload unfinished) [] (sb_world (bk_state b))) b,
             Ok tt)
        end
    end.

(** ** Reading receipts back *)

Definition key_leb (a b : receipt_key) : bool :=
  match String.compare a.1 b.1 with
  | Lt => true
  | Gt => false
  | Eq => String.leb a.2 b.2
  end.

Definition key_le (a b : receipt_key * receipt) : Prop := key_leb a.1 b.1 = true.

#[export] Instance key_le_dec : RelDecision key_le.
Proof. intros a b. unfold key_le. apply _. Defined.

(** [response_payload]: the vectors are read from the store. *)
Definition response_payload (k : receipt_key) (r : receipt) : result books_exn BatchResult :=
  let x := rc_response r in
  let base :=
    mkResult k.2 (rs_text x) (rs_usage x) (rs_error x) (Some k.1) (rc_model r) (rs_finish_reason x) in
  match rs_vectors_ref x with
  | None => Ok (base None)
  | Some ref =>
      match get ref with
      | Some v => Ok (base (Some v))
      | None => Err PayloadUnavailable
      end
  end.

Fixpoint response_payloads (l : list (receipt_key * receipt)) : result books_exn (list BatchResult) :=
  match l with
  | [] => Ok []
  | (k, r) :: l => (do x <- response_payload k r ;; do xs <- response_payloads l ;; Ok (x :: xs))%js
  end.

Definition unconsumed_rows (tid : Z) (m : gmap receipt_key receipt) : list (receipt_key * receipt) :=
  merge_sort key_le
    (filter (λ x : receipt_key * receipt, rc_task_id x.2 = tid ∧ rc_consumed_at x.2 = None)
       (map_to_list m)).

(** The frozen requests the results carry are left out: they are read-only
    evidence beside the answer. *)
Definition unconsumed (tid : Z) (b : books) : result books_exn (list BatchResult) :=
  response_payloads (unconsumed_rows tid (bk_receipts b)).

Definition has_results (tid : Z) (b : books) : bool :=
  existsb (λ x : receipt_key * receipt, rc_task_id x.2 =? tid) (map_to_list (bk_receipts b)).
End ledger.

(** ** Consuming *)

(** What a consumer's transaction is handed for one result. *)
Record Receipt : Type := mkPending {
  rcp_pending : bool;
  rcp_outcome : string;
}.

(** A consumer runs inside the receipts' transaction. It writes its own tables
    [D] and leaves an outcome on each receipt, or raises. *)
Definition consumer (D : Type) : Type := list Receipt → D → option (D * list string).

Section consume.
Context {D : Type} (now : Z).

Definition owned_receipt (tid : Z) (k : receipt_key) (b : books) : option receipt :=
  match bk_receipts b !! k with
  | Some r => if rc_task_id r =? tid then Some r else None
  | None => None
  end.

Definition acknowledge (outcome : string) (r : receipt) : receipt :=
  mkReceipt (rc_task_id r) (rc_response r) (rc_model r) (Some outcome) (Some now).

(** [consume_result]: the keys acknowledged are answered beside the state. *)
Definition consume_result (tid : Z) (k : receipt_key) (body : consumer D) (b : books) (d : D)
    : books * D * result books_exn (list receipt_key) :=
  match owned_receipt tid k b with
  | None => (b, d, Err NotCheckpointed)
  | Some r =>
      let pending := bool_decide (rc_outcome r = None) in
      match body [mkPending pending (default "processed" (nonempty_opt (rc_outcome r)))] d with
      | None => (b, d, Err ConsumerRaised)
      | Some (d', outcomes) =>
          if pending then
            (with_receipts
               (<[k := acknowledge (default "processed" (head outcomes)) r]> (bk_receipts b)) b,
             d', Ok [k])
          else (b, d', Ok [])
      end
  end.

(** Receipts in line with the keys; a key met twice is pending the first time. *)
Fixpoint receipts_for (tid : Z) (keys seen : list receipt_key) (b : books)
    : option (list Receipt) :=
  match keys with
  | [] => Some []
  | k :: keys =>
      r ← owned_receipt tid k b;
      rest ← receipts_for tid keys (seen ++ [k]) b;
      Some (mkPending (bool_decide (rc_outcome r = None) && negb (mem k seen))
              (default "processed" (nonempty_opt (rc_outcome r))) :: rest)
  end.

Definition acknowledged (keys : list receipt_key) (receipts : list Receipt) (outcomes : list string)
    : list (receipt_key * string) :=
  omap (λ x : receipt_key * (Receipt * string),
          if rcp_pending x.2.1 then Some (x.1, x.2.2) else None)
    (zip keys (zip receipts outcomes)).

(** The outcomes a body leaves line up with its receipts: a receipt it does not
    touch keeps the outcome it was handed. *)
Definition outcomes_for (receipts : list Receipt) (outcomes : list string) : list string :=
  outcomes ++ drop (length outcomes) (map rcp_outcome receipts).

Definition consume_results (tid : Z) (keys : list receipt_key) (body : consumer D) (b : books)
    (d : D) : books * D * result books_exn (list receipt_key) :=
  match receipts_for tid keys [] b with
  | None => (b, d, Err NotCheckpointed)
  | Some receipts =>
      match body receipts d with
      | None => (b, d, Err ConsumerRaised)
      | Some (d', outcomes) =>
          let acks := acknowledged keys receipts (outcomes_for receipts outcomes) in
          (with_receipts
             (foldl (λ m a, alter (acknowledge a.2) a.1 m) (bk_receipts b) acks) b,
           d', Ok (acks.*1))
      end
  end.
End consume.

Definition outcome_counts (tid : Z) (b : books) : gmap string Z :=
  foldr (λ (x : receipt_key * receipt) m,
      match rc_outcome x.2 with
      | Some o =>
          if (rc_task_id x.2 =? tid) && bool_decide (is_Some (rc_consumed_at x.2))
          then <[o := default 0 (m !! o) + 1]> m else m
      | None => m
      end) ∅ (map_to_list (bk_receipts b)).

(** [submitted] is the task's count of frozen requests. *)
Definition progress_counts (tid : Z) (successful : list string) (submitted : Z) (b : books)
    : Z * Z :=
  let counts := outcome_counts tid b in
  (list_sum_Z (map (λ o, default 0 (counts !! o)) successful),
   Z.max (list_sum_Z (map_to_list counts).*2) submitted).
