(* ===== verification/Runs.v ===== *)
(** * One batched run, from requests to receipts ([tasks.runtime.batching],
    [api.ai.batch_results.snapshot_specs])

    A run of a batched task either collects what the task already paid for or
    freezes its requests, routes them, submits them and parks. The providers, the
    object store and the settings are parameters, as in [Batches] and
    [Collect]. *)

From S2P Require Import Prelude PyStr Sql Json Objects Tasks Queue Parking Spec Datasheets Pricing Routing Fallback Shapes Batches Collect Receipts.

Local Open Scope string_scope.
Local Open Scope Z_scope.

(** ** Request snapshots *)

(** [batch_requests]: the frozen request of each (task, custom id). *)
Abbreviation request_table := (gmap (Z * string) BatchSpec).

(** First occurrence of each custom id the table does not hold. *)
Fixpoint fresh_specs (tid : Z) (m : request_table) (seen : gset string) (specs : list BatchSpec)
    : list BatchSpec :=
  match specs with
  | [] => []
  | s :: specs =>
      let c := custom_id s in
      if bool_decide (is_Some (m !! (tid, c))) || bool_decide (c ∈ seen)
      then fresh_specs tid m seen specs
      else s :: fresh_specs tid m ({[ c ]} ∪ seen) specs
  end.

Definition freeze (tid : Z) (m : request_table) (s : BatchSpec) : request_table :=
  match m !! (tid, custom_id s) with
  | Some _ => m
  | None => <[(tid, custom_id s) := s]> m
  end.

Section snapshots.
(** [put_bundle] uploads a bundle and reads every member back, [load] reads a
    stored request; failure is PayloadUnavailable. [size] is a request's encoded
    length. *)
Context (size : BatchSpec → Z) (put_bundle : list BatchSpec → bool) (load : Z → string → bool).

(** A bundle's members are named. *)
Definition bundle_stored (g : list BatchSpec) : bool :=
  forallb (λ s, negb (String.eqb (custom_id s) "")) g && put_bundle g.

(** The requests to submit: an existing request always wins. Nothing is written
    unless every new one is stored. *)
Definition snapshot_specs (tid : Z) (specs : list BatchSpec) (m : request_table)
    : request_table * option (list BatchSpec) :=
  let fresh := fresh_specs tid m ∅ specs in
  if negb (forallb bundle_stored (bundle_groups fresh size)) then (m, None)
  else
    let m' := foldl (freeze tid) m fresh in
    (m', mapM (λ s,
           let c := custom_id s in
           frozen ← m' !! (tid, c);
           if bool_decide (is_Some (m !! (tid, c))) && negb (load tid c) then None
           else Some frozen) specs).
End snapshots.

(** ** Collecting *)

Definition with_alerts_b (l : list alert) (b : books) : books :=
  with_state (with_alerts l (bk_state b)) b.

(** A refused request of an accepted batch marks its provider, once each. *)
Definition mark_result (ps : list Provider) (i : index) (now : Z)
    (k : gset string * list alert) (r : BatchResult) : gset string * list alert :=
  match nonempty_opt (br_error r), br_model r ≫= provider_of i with
  | Some e, Some p =>
      if bool_decide (p ∈ k.1) then k
      else
        match exhaustion_reason ps (Some p) (mkError e None None) with
        | Some reason =>
            if String.eqb reason "" then k
            else ({[ p ]} ∪ k.1, fst (mark now p reason k.2))
        | None => k
        end
  | _, _ => k
  end.

Definition _mark_exhausted_results (ps : list Provider) (i : index) (now : Z)
    (results : list BatchResult) (b : books) : books :=
  with_alerts_b
    (snd (foldl (mark_result ps i now) (∅, sb_alerts (bk_state b)) results)) b.

(** The model [ai_batches] names for each of the task's batches. *)
Definition _batch_metadata (tid : Z) (m : gmap string ai_batch) (bid : string) : option string :=
  match m !! bid with
  | Some r => if ab_task_id r =? tid then ab_model r else None
  | None => None
  end.

Section runs.
Context (ps : list Provider) (i : index) (environ : gmap string string) (digest : string → string).
Context (vendor : nat → string → list BatchSpec → answer) (clock : nat → Z).
Context (retrieve : string → option openai_batch).
Context (content : string → option (list (option result_line))).
Context (retrieve_message : string → option message_batch).
Context (put_verified : list json → option string) (get : string → option (list json)).
Context (size : BatchSpec → Z) (put_bundle : list BatchSpec → bool) (load : Z → string → bool).
Context (shapes : list TaskShape) (config : string → Z) (paused : bool).
Context (overrides : option (list (string * option string))) (calls : list model_call).
Context (e : routing_env) (cycle : Z).

Definition collect_pending (tid : Z) (h : event_hook) (m : request_table) (b : books)
    : books * result books_exn (list BatchResult) :=
  let s := bk_state b in
  let now := clock (sb_calls s) in
  match pending_batch_ids tid (sb_world s) with
  | [] => (b, unconsumed get tid b)
  | existing =>
      let models := _batch_metadata tid (sb_batches s) in
      let requests := map fst (map_to_list m) in
      let '(c, err) :=
        collect_finished_batches ps environ digest retrieve content retrieve_message requests h now
          existing s in
      let b := mkBooks (co_state c) (bk_receipts b) (bk_calls b) (bk_errors b ++ co_errors c)%list in
      match err with
      | Some x => (b, Err (CollectFailed x))
      | None =>
          let results := map (λ r, set_model (nonempty_opt (br_batch_id r) ≫= models) r) (co_results c) in
          match checkpoint i put_verified tid results (co_unfinished c) b with
          | (b, Err x) => (b, Err x)
          | (b, Ok _) =>
              let b := _mark_exhausted_results ps i now results b in
              (b, unconsumed get tid b)
          end
      end
  end.

(** ** Submitting *)

Inductive run_failure : Type :=
| CannotRoute (reason : string)
| FleetBudgetExceeded (status : budget_status)
| AIPaused
| SnapshotUnavailable
| CollectionFailed (x : books_exn)
| SubmissionFailed (x : run_exn)
| NothingAccepted              (** no batches were accepted by the provider *)
| NoLongerClaimable (ids : list string).

(** How a run ends: results for the handler, the [AwaitingBatch] exception, or a
    failure. *)
Inductive run_end : Type :=
| Results (l : list BatchResult)
| AwaitingBatch
| Failed (x : run_failure).

(** Everything a run reads and writes. *)
Record desk : Type := mkDesk {
  dk_books : books;
  dk_requests : request_table;
}.

Definition desk_state (d : desk) : submission := bk_state (dk_books d).

Definition collect_run (tid : Z) (h : event_hook) (d : desk) : desk * run_end :=
  match collect_pending tid h (dk_requests d) (dk_books d) with
  | (b, Ok l) => (mkDesk b (dk_requests d), Results l)
  | (b, Err x) => (mkDesk b (dk_requests d), Failed (CollectionFailed x))
  end.

Definition chain_fuel (fallback : option TaskShape) : nat :=
  S match fallback with Some sh => length (chain e (purpose sh)) | None => 0 end.

Definition submit_or_collect (cur : option TaskClaim) (tid : Z) (specs : list BatchSpec)
    (model reasoning_effort : string) (max_output_tokens : Z) (h : event_hook)
    (fallback : option TaskShape) (purpose_ : option string) (payer : Payer)
    (routed : option string) (d : desk) : desk * run_end :=
  let s := desk_state d in
  if has_batch_work (has_results tid (dk_books d)) tid (sb_world s) then collect_run tid h d
  else if paused then (d, Failed AIPaused)
  else
    match snapshot_specs size put_bundle load tid specs (dk_requests d) with
    | (m, None) => (mkDesk (dk_books d) m, Failed SnapshotUnavailable)
    | (m, Some []) => (mkDesk (dk_books d) m, Results [])
    | (m, Some specs) =>
        let d := mkDesk (dk_books d) m in
        let purpose_ :=
          match purpose_, fallback with
          | Some p, _ => Some p
          | None, Some sh => Some (purpose sh)
          | None, None => None
          end in
        match _submit ps i environ digest vendor clock shapes config overrides calls e cycle
                (chain_fuel fallback) tid specs model reasoning_effort max_output_tokens h fallback
                purpose_ payer (default model routed) [] {[ model ]} (Decimal 0) s with
        | None => (d, Failed NothingAccepted) (* [chain_fuel] is enough: [submit_keeps_paid] *)
        | Some (s, r) =>
            let d := mkDesk (with_state s (dk_books d)) m in
            match r with
            | Err x => (d, Failed (SubmissionFailed x))
            | Ok [] => (d, Failed NothingAccepted)
            | Ok ids =>
                let '(w, parked) := park_awaiting_batch cur tid ids (sb_world s) in
                (mkDesk (with_world w (dk_books d)) m,
                 if parked then AwaitingBatch else Failed (NoLongerClaimable ids))
            end
        end
    end.

(** [routing_env] as routing reads it now. *)
Definition route_env (s : submission) : routing_env :=
  mkRoutingEnv (re_chains e) (re_equivalence e)
    (blocked_providers cycle (clock (sb_calls s)) (sb_alerts s)) (re_environ e).

Definition effort_param (c : Choice) (sh : TaskShape) : string :=
  let fall := default "" (resolved_effort i sh) in
  match ch_params c !! "reasoning_effort" with
  | Some j => if truthy j then default "" (json_text j) else fall
  | None => fall
  end.

Definition run_batched (cur : option TaskClaim) (tid : Z) (sh : TaskShape)
    (specs : list BatchSpec) (payer : Payer) (allow_configured_override : bool) (d : desk)
    : desk * run_end :=
  let s := desk_state d in
  let purpose_ := purpose sh in
  if has_batch_work (has_results tid (dk_books d)) tid (sb_world s) then
    collect_run tid (batch_event_hook tid purpose_ None payer None s) d
  else
    match snapshot_specs size put_bundle load tid specs (dk_requests d) with
    | (m, None) => (mkDesk (dk_books d) m, Failed SnapshotUnavailable)
    | (m, Some specs) =>
        let d := mkDesk (dk_books d) m in
        let sh := configured_shape config sh in
        match (if allow_configured_override
               then route ps i (route_env s) sh (configured_model overrides purpose_)
               else resolve ps i sh None None) with
        | Err reason => (d, Failed (CannotRoute reason))
        | Ok chosen =>
            let cost :=
              (default (Decimal 0) (ch_est_cost_usd chosen) * Decimal (Z.of_nat (length specs)))%Qc in
            match (if bool_decide (payer = FLEET)
                   then check_fleet_budget ps i shapes config overrides (clock (sb_calls s)) calls
                          (Some cost)
                   else Ok tt) with
            | Err status => (d, Failed (FleetBudgetExceeded status))
            | Ok _ =>
                submit_or_collect cur tid specs (ch_model chosen) (effort_param chosen sh)
                  (sh_max_output_tokens sh)
                  (batch_event_hook tid purpose_ (Some (ch_model chosen)) payer
                     (ch_fallback_from chosen) s)
                  (if allow_configured_override then Some sh else None) (Some purpose_) payer
                  (ch_fallback_from chosen) d
            end
        end
    end.
End runs.
