(* ===== verification/CollectProps.v ===== *)
(** * What collection and consumption keep

    Every paid answer a provider returned becomes one receipt of its task before
    its batch stops being pending, and each receipt is consumed once. *)

From S2P Require Import Prelude PyStr Sql Tasks Queue Parking Spec Datasheets Pricing Routing Fallback Shapes Batches BatchProps Collect Receipts Runs.

Local Open Scope Z_scope.

(** ** What a provider returned for a batch *)

(** The task whose frozen requests name a batch's results: its row's, or the
    hook's for a batch first seen now. *)
Definition requests_of (tid : Z) (m : gmap string ai_batch) (requests : list (Z * string))
    (bid : string) : list string :=
  (filter (λ q, q.1 = default tid (ab_task_id <$> m !! bid)) requests).*2.

(** The results of a batch its provider has ended, [None] while it runs or when
    it cannot be read. *)
Definition returned (digest : string → string) (retrieve : string → option openai_batch)
    (content : string → option (list (option result_line)))
    (retrieve_message : string → option message_batch) (requests : list (Z * string))
    (tid : Z) (m : gmap string ai_batch) (bid : string) : option results :=
  if holds bid then
    b ← retrieve_message bid;
    if String.eqb (mb_processing_status b) "ended"
    then fst <$> collect b [] (wire_ids digest (requests_of tid m requests bid)) true
    else None
  else
    b ← retrieve bid;
    if is_terminal (pb_status (ob_batch b))
    then match _collect_batch content b [] true with
         | Ok (rs, _) => Some rs
         | Err _ => None
         end
    else None.

(** Keyed by their own request, with batch id [b]. *)
Definition keyed (b : option string) (rs : results) : Prop :=
  NoDup rs.*1 ∧ ∀ k r, (k, r) ∈ rs → br_custom_id r = k ∧ br_batch_id r = b.

Definition same_id (r r' : BatchResult) : Prop :=
  br_custom_id r' = br_custom_id r ∧ br_batch_id r' = br_batch_id r.

(** After reading the batches [done]: each is unfinished or has its results in
    the collection, which holds nothing else. *)
Definition accounted (ret : string → option results) (done : list string) (c : collection) : Prop :=
  (∀ bid, bid ∈ done → bid ∈ co_unfinished c ∨ ∃ rs, ret bid = Some rs ∧ rs.*2 ⊆ co_results c) ∧
  (∀ x, x ∈ co_results c → ∃ bid rs, bid ∈ done ∧ ret bid = Some rs ∧ x ∈ rs.*2) ∧
  (∀ bid, bid ∈ co_unfinished c → bid ∈ done).

(** A status event changes neither the tasks nor the task a batch belongs to. *)
Definition steady (tid : Z) (s0 s : submission) : Prop :=
  tasks (sb_world s) = tasks (sb_world s0) ∧
  ∀ bid, default tid (ab_task_id <$> sb_batches s !! bid) =
         default tid (ab_task_id <$> sb_batches s0 !! bid).

Definition key_of (x : BatchResult) : receipt_key := (default ""%string (br_batch_id x), br_custom_id x).

(** A receipt that holds the answer [x]. *)
Definition holds_answer (x : BatchResult) (rc : receipt) : Prop :=
  ∃ ref, rc = mkReceipt (rc_task_id rc) (stored_response x ref) (rc_model rc) None None.

(** ** A concrete collection: one finished batch, one still running *)

Definition demo_answer_line : result_line :=
  mkLine (Some "u1"%string) JNull
    (JObj [("status_code", JInt 200);
           ("body", JObj [("status", JStr "completed");
                          ("usage", JObj [("input_tokens", JInt 900); ("output_tokens", JInt 40);
                                          ("total_tokens", JInt 940)]);
                          ("output", JArr [JObj [("type", JStr "message");
                             ("content", JArr [JObj [("type", JStr "output_text"); ("text", JStr "yes")]])]])])])%string.

Definition demo_retrieve (bid : string) : option openai_batch :=
  if String.eqb bid "b1" then
    Some (mkOpenAI (mkBatch bid "completed" 1 1 0) (Some "f1"%string) None "/v1/responses" [])
  else Some (mkOpenAI (mkBatch bid "in_progress" 1 0 0) None None "/v1/responses" []).

Definition demo_content (f : string) : option (list (option result_line)) := Some [Some demo_answer_line].

Definition demo_held : task :=
  put_payload {[ "batch_ids"%string := JArr [JStr "b1"; JStr "b2"] ]} demo_task.

Definition demo_batch : ai_batch :=
  mkAiBatch 1 "requirements" (Some "gpt-6-luna"%string) 1 0 0 "in_progress" 0 0 None (Some FLEET) None.

Definition demo_holding : books :=
  mkBooks (mkSub (mkWorld {[ 1 := demo_held ]} 2 []) {[ "b1"%string := demo_batch ]} [] 0 []) ∅ [] [].

Definition demo_collect : books * result books_exn (list BatchResult) :=
  collect_pending PROVIDERS MODELS demo_environ (λ s, s) (λ _, 1000) demo_retrieve demo_content
    (λ _, None) (λ _, None) (λ _, None) 1 demo_hook ∅ demo_holding.

(** ** Lemmas: results of one batch *)

Lemma keyed_set b k r rs :
  keyed b rs → br_custom_id r = k → br_batch_id r = b → keyed b (alist_set k r rs).
Proof.
  intros [Hn Hk] ? ?. split; [by apply alist_set_NoDup|].
  intros k' r' [[= -> ->]|?]%alist_set_elem; auto.
Qed.

Lemma keyed_nil b : keyed b [].
Proof. split; [constructor|]. by intros ?? ?%elem_of_nil. Qed.

Lemma keyed_map b b' f rs :
  keyed b rs → (∀ r, br_batch_id r = b → br_custom_id (f r) = br_custom_id r ∧ br_batch_id (f r) = b') →
  keyed b' (on_values f rs).
Proof.
  intros [Hn Hk] Hf. unfold on_values. split.
  - rewrite map_map. by rewrite (map_ext _ fst).
  - intros k r ([k0 r0] & [= -> ->] & [? ?]%Hk)%list_elem_of_fmap. simpl. destruct (Hf r0); [done|].
    split; congruence.
Qed.

(** Results of fallible reads: split a bind known to answer. *)
Ltac rinv H :=
  repeat match type of H with
  | rbind ?m _ = Ok _ =>
      let E := fresh "E" in destruct m eqn:E; cbn [rbind] in H; [|discriminate H]
  end.

Lemma read_response_same r body r' : _read_response r body = Ok r' → same_id r r'.
Proof. unfold _read_response. intros H. rinv H. injection H as <-. by destruct (is_null _). Qed.

Lemma read_embedding_same r body r' : _read_embedding r body = Ok r' → same_id r r'.
Proof.
  unfold _read_embedding. intros H. rinv H. injection H as <-.
  destruct (_ordered_vectors _); simpl; [done|]. by destruct (br_embedding_vectors r).
Qed.

Lemma result_for_keyed rs cid cm rs' r :
  keyed None rs → _result_for rs cid cm = Some (rs', r) →
  keyed None rs' ∧ br_batch_id r = None ∧ cid = Some (br_custom_id r).
Proof.
  intros Hk. unfold _result_for. destruct cid as [c|]; [|done].
  destruct (alist_get c rs) as [r0|] eqn:E.
  - intros [= <- <-]. apply alist_get_elem in E. destruct (proj2 Hk _ _ E). split_and!; congruence.
  - destruct (cm && _); [|done]. intros [= <- <-]. split_and!; try done. by apply keyed_set.
Qed.

Lemma read_line_keyed emb cm rs l rs' :
  keyed None rs → read_line emb cm rs l = Ok rs' → keyed None rs'.
Proof.
  intros Hk. unfold read_line.
  destruct (_result_for rs (ln_custom_id l) cm) as [[rs0 r]|] eqn:E; [|by intros [= <-]].
  destruct (result_for_keyed _ _ _ _ _ Hk E) as (Hk0 & Hb & _).
  assert (∀ rs', (do e <- _line_error l ;;
         Ok (alist_set (br_custom_id r) (set_error (Some (default "unknown"%string (nonempty_opt e))) r) rs0))%js
         = Ok rs' → keyed None rs') as Hf.
  { intros rs1 H. rinv H. injection H as <-. by apply keyed_set. }
  destruct (_ || _); [apply Hf|]. intros H. rinv H. destruct (negb _); [by apply Hf|]. rinv H.
  injection H as <-. apply keyed_set; [done| |];
    (destruct emb; [apply read_embedding_same in E2|apply read_response_same in E2]); destruct E2; congruence.
Qed.

Lemma read_output_keyed emb cm rs ls rs' :
  keyed None rs → read_output emb cm rs ls = Ok rs' → keyed None rs'.
Proof.
  revert rs. induction ls as [|[l|] ls IH]; intros rs Hk; simpl; [by intros [= <-]| |done].
  intros H. rinv H. eapply IH; [|done]. by eapply read_line_keyed.
Qed.

Lemma read_errors_keyed cm rs ls : keyed None rs → keyed None (read_errors cm rs ls).
Proof.
  revert rs. induction ls as [|[l|] ls IH]; intros rs Hk; simpl; [done| |done].
  destruct (_result_for rs (ln_custom_id l) cm) as [[rs0 r]|] eqn:E; [|by apply IH].
  destruct (result_for_keyed _ _ _ _ _ Hk E) as (Hk0 & Hb & _).
  destruct (_unanswered r); [|by apply IH]. destruct (_line_error l); [|done].
  apply IH. by apply keyed_set.
Qed.

Lemma collect_batch_keyed content b cm rs er :
  _collect_batch content b [] cm = Ok (rs, er) → keyed (Some (pb_id (ob_batch b))) rs.
Proof.
  unfold _collect_batch. set (emb := String.eqb _ _). intros H. rinv H. cbn zeta in H.
  assert (keyed None a) as Ha.
  { destruct (ob_output_file b) as [f|]; [|injection E as <-; apply keyed_nil].
    destruct (String.eqb f ""); [injection E as <-; apply keyed_nil|].
    destruct (content f); [|done]. eapply read_output_keyed, E. apply keyed_nil. }
  set (a' := match ob_error_file b with Some _ => _ | None => _ end) in H.
  assert (keyed None a') as Ha'.
  { subst a'. destruct (ob_error_file b) as [f|]; [|done]. destruct (String.eqb f ""); [done|].
    destruct (content f); [|done]. by apply read_errors_keyed. }
  clearbody a'. injection H as <- _. apply (keyed_map (Some (pb_id (ob_batch b)))).
  - apply (keyed_map None).
    + unfold mark_unfinished. destruct (String.eqb (pb_status _) _); [done|]. apply (keyed_map None); [done|].
      intros r ?. by destruct (_ && _).
    + intros r Hr. unfold own_batch. by rewrite Hr.
  - intros r ?. by destruct (_ && _).
Qed.

Lemma message_step_keyed known cm rs l : keyed None rs → keyed None (message_step known cm rs l).
Proof.
  intros Hk. unfold message_step.
  assert (∀ r o, same_id r (read_message r o)) as Hr.
  { intros r []; simpl; [|done]. by destruct (is_null _). }
  set (cid := nonempty_opt _).
  destruct (cid ≫= λ c, alist_get c rs) as [r|] eqn:E.
  - apply bind_Some in E as (c & _ & E%alist_get_elem). destruct (proj2 Hk _ _ E).
    destruct (Hr r (ml_result l)). apply keyed_set; congruence.
  - destruct (negb cm); [done|]. set (key := default (ml_custom_id l) cid).
    assert (same_id (new_result key) (default (new_result key) (alist_get key rs))) as [Hc Hb].
    { destruct (alist_get key rs) eqn:E'; [|done]. apply alist_get_elem in E'.
      by destruct (proj2 Hk _ _ E'). }
    destruct (alist_get (ml_custom_id l) known); apply keyed_set; try done.
    + destruct (Hr (default (new_result key) (alist_get key rs)) (ml_result l)). simpl in Hc. congruence.
    + destruct (Hr (default (new_result key) (alist_get key rs)) (ml_result l)). simpl in Hb. congruence.
Qed.

Lemma collect_keyed b known cm rs er :
  collect b [] known cm = Some (rs, er) → keyed (Some (mb_id b)) rs.
Proof.
  unfold collect. destruct (read_messages _ _ _ _) as [rs0|] eqn:E; [|done]. intros [= <- _].
  apply (keyed_map None); [|intros r Hr; unfold own_batch; by rewrite Hr].
  revert E. generalize (keyed_nil None). generalize ([] : results) as a.
  induction (mb_results b) as [|[l|] ls IH]; intros a Ha; simpl; [by intros [= <-]| |done].
  apply IH. by apply message_step_keyed.
Qed.

(** ** Lemmas: the loops over a task's batches *)

Lemma record_known v p l :
  p !! "batch_ids"%string = Some (JArr l) → v ∈ payload_batch_ids p → record_ids [v] p = p.
Proof.
  intros E Hv. unfold record_ids, payload_batch_ids in *. rewrite E in *.
  rewrite filter_cons_False; [by rewrite filter_nil, app_nil_r, insert_id|].
  apply elem_of_json_strings in Hv. simpl. unfold mem. by rewrite bool_decide_eq_true_2.
Qed.

Lemma record_known_world tid v w r :
  tasks w !! tid = Some r → ids_array r → v ∈ payload_batch_ids (t_payload r) →
  tasks (_record_batch_ids tid [v] w) = tasks w.
Proof.
  intros Hr Ha Hv. apply map_eq. intros j. destruct (decide (j = tid)) as [->|Hj].
  - rewrite (record_lookup _ _ _ r Hr), Hr. f_equal. unfold ids_array in Ha.
    unfold payload_batch_ids in Hv.
    destruct (t_payload r !! "batch_ids"%string) as [[]|] eqn:E; try done; [|set_solver].
    rewrite (record_known v _ _ E) by (unfold payload_batch_ids; by rewrite E). by destruct r.
  - unfold _record_batch_ids. rewrite exec_update_lookup. destruct (tasks w !! j); [|done].
    simpl. by destruct (Z.eqb_spec j tid).
Qed.

Lemma accounted_unfinish ret done c bid :
  accounted ret done c → accounted ret (done ++ [bid]) (unfinish bid c).
Proof.
  intros (H1 & H2 & H3). split_and!; simpl.
  - intros b [Hb|Hb]%elem_of_app; [destruct (H1 b Hb) as [?|?]|]; [left; set_solver|by right|left; set_solver].
  - intros x (b & rs & ? & ? & ?)%H2. exists b, rs. set_solver.
  - set_solver.
Qed.

Lemma accounted_gather ret done c bid rs er :
  accounted ret done c → ret bid = Some rs → accounted ret (done ++ [bid]) (gather rs er c).
Proof.
  intros (H1 & H2 & H3) Hr. split_and!; simpl.
  - intros b [Hb|Hb]%elem_of_app; [destruct (H1 b Hb) as [?|(rs' & ? & ?)]|].
    + by left.
    + right. exists rs'. set_solver.
    + apply list_elem_of_singleton in Hb as ->. right. exists rs. set_solver.
  - intros x [(b & rs' & ? & ? & ?)%H2|Hx]%elem_of_app; [exists b, rs'|exists bid, rs]; set_solver.
  - set_solver.
Qed.

Lemma steady_trans tid s0 s1 s2 : steady tid s0 s1 → steady tid s1 s2 → steady tid s0 s2.
Proof. intros [? H1] [? H2]. split; [congruence|]. intros. by rewrite H2, H1. Qed.

Section loops.
Context (ps : list Provider) (environ : gmap string string) (digest : string → string).
Context (retrieve : string → option openai_batch).
Context (content : string → option (list (option result_line))).
Context (retrieve_message : string → option message_batch).
Context (requests : list (Z * string)) (h : event_hook) (now : Z).
Context (s0 : submission) (r : task).
Hypothesis Hrow : tasks (sb_world s0) !! hk_task h = Some r.
Hypothesis Hids : ids_array r.
Hypothesis Hopenai : ∀ bid b, retrieve bid = Some b → pb_id (ob_batch b) = bid.
Hypothesis Hanthropic : ∀ bid b, retrieve_message bid = Some b → mb_id b = bid.

Local Abbreviation ret :=
  (returned digest retrieve content retrieve_message requests (hk_task h) (sb_batches s0)).

Lemma observe_steady b c :
  pb_id b ∈ payload_batch_ids (t_payload r) → steady (hk_task h) s0 (co_state c) →
  steady (hk_task h) s0 (co_state (observe h now b c)) ∧
  is_Some (sb_batches (co_state (observe h now b c)) !! pb_id b).
Proof.
  intros Hb [Ht Hs]. split; [split|]; simpl.
  - unfold publish_task, emit. simpl. rewrite <- Ht.
    apply (record_known_world _ _ _ r); [by rewrite Ht|done|done].
  - intros bid. rewrite <- Hs. destruct (decide (bid = pb_id b)) as [->|].
    + rewrite lookup_insert_eq. by destruct (sb_batches (co_state c) !! pb_id b).
    + by rewrite lookup_insert_ne.
  - rewrite lookup_insert_eq. eauto.
Qed.

Lemma anthropic_accounted ids done c :
  (∀ b, b ∈ ids → holds b = true ∧ b ∈ payload_batch_ids (t_payload r)) →
  steady (hk_task h) s0 (co_state c) → accounted ret done c →
  let c' := _collect_anthropic ps environ digest retrieve_message requests h now ids c in
  steady (hk_task h) s0 (co_state c') ∧ accounted ret (done ++ ids) c'.
Proof.
  unfold _collect_anthropic. destruct (String.eqb _ _).
  - intros _ Hs (H1 & H2 & H3). split; [done|]. split_and!; simpl.
    + intros b [Hb|Hb]%elem_of_app; [destruct (H1 b Hb)|]; [left; set_solver|by right|left; set_solver].
    + intros x (b & rs & ? & ? & ?)%H2. exists b, rs. set_solver.
    + set_solver.
  - cbn zeta. revert done c. induction ids as [|bid ids IH]; intros done c Hids' Hs Ha;
      [by rewrite app_nil_r|].
    rewrite cons_middle, app_assoc. simpl.
    destruct (Hids' bid ltac:(by left)) as [Hh Hbid].
    assert (∀ b, b ∈ ids → holds b = true ∧ b ∈ payload_batch_ids (t_payload r)) as Hrest
      by (intros; apply Hids'; by right).
    destruct (retrieve_message bid) as [b|] eqn:E;
      [|by apply IH; [done|done|apply accounted_unfinish]].
    assert (pb_id (progress b) = bid) as Hid by (by apply Hanthropic).
    destruct (observe_steady (progress b) c) as [Hs' [ab Hab]]; [by rewrite Hid|done|].
    rewrite Hid in Hab.
    destruct (String.eqb (mb_processing_status b) "ended") eqn:Hend; simpl;
      [|by apply IH; [done|done|apply accounted_unfinish]].
    unfold submitted_custom_ids. unfold observe in Hab. simpl in Hab. rewrite Hab.
    set (q := filter _ requests).
    destruct (collect b [] (wire_ids digest q.*2) true) as [[rs er]|] eqn:Ec;
      [|by apply IH; [done|done|apply accounted_unfinish]].
    apply IH; [done|done|]. apply accounted_gather; [done|]. unfold returned.
    rewrite Hh, E. simpl. rewrite Hend. unfold requests_of.
    rewrite <- (proj2 Hs'). simpl. rewrite Hab. simpl. fold q. by rewrite Ec.
Qed.

Lemma openai_accounted ids done c c' err :
  (∀ b, b ∈ ids → holds b = false ∧ b ∈ payload_batch_ids (t_payload r)) →
  steady (hk_task h) s0 (co_state c) → accounted ret done c →
  collect_openai retrieve content h now ids c = (c', err) →
  steady (hk_task h) s0 (co_state c') ∧ (err = None → accounted ret (done ++ ids) c').
Proof.
  revert done c. induction ids as [|bid ids IH]; intros done c Hids' Hs Ha.
  { intros [= <- <-]. by rewrite app_nil_r. }
  rewrite cons_middle, app_assoc. simpl.
  destruct (Hids' bid ltac:(by left)) as [Hh Hbid].
  assert (∀ b, b ∈ ids → holds b = false ∧ b ∈ payload_batch_ids (t_payload r)) as Hrest
    by (intros; apply Hids'; by right).
  destruct (retrieve bid) as [b|] eqn:E; [|by apply IH; [done|done|apply accounted_unfinish]].
  pose proof (Hopenai _ _ E) as Hid.
  destruct (observe_steady (ob_batch b) c) as [Hs' _]; [by rewrite Hid|done|].
  destruct (is_terminal (pb_status (ob_batch b))) eqn:Ht; simpl;
    [|by apply IH; [done|done|apply accounted_unfinish]].
  destruct (_collect_batch content b [] true) as [[rs er]|x] eqn:Ec; [|by intros [= <- <-]].
  apply IH; [done|done|]. apply accounted_gather; [done|]. unfold returned.
  rewrite Hh, E. simpl. by rewrite Ht, Ec.
Qed.

Lemma finished_accounted ids c err :
  (∀ b, b ∈ ids → b ∈ payload_batch_ids (t_payload r)) →
  collect_finished_batches ps environ digest retrieve content retrieve_message requests h now ids s0 =
    (c, err) →
  steady (hk_task h) s0 (co_state c) ∧
  (err = None → ∃ done, (∀ b, b ∈ done ↔ b ∈ ids) ∧ accounted ret done c).
Proof.
  intros Hall. unfold collect_finished_batches.
  set (theirs := filter (λ b, holds b = true) ids). set (ours := filter (λ b, holds b = false) ids).
  set (c0 := mkCollection s0 [] [] []).
  set (c1 := match theirs with
             | [] => c0
             | _ => _collect_anthropic ps environ digest retrieve_message requests h now theirs c0
             end).
  assert (steady (hk_task h) s0 (co_state c1) ∧ accounted ret theirs c1) as [Hs1 Ha1].
  { assert (accounted ret [] c0) as H0 by (split_and!; simpl; set_solver).
    destruct theirs as [|b l] eqn:E; [done|]. subst c1. rewrite <- E.
    apply (anthropic_accounted theirs []); [|done|done].
    intros b' Hb'. unfold theirs in Hb'. apply list_elem_of_filter in Hb' as [??]. auto. }
  clearbody c1.
  assert (∀ b, b ∈ theirs ++ ours ↔ b ∈ ids) as Hset.
  { intros b. rewrite elem_of_app. unfold theirs, ours. rewrite !list_elem_of_filter.
    destruct (holds b); naive_solver. }
  assert (∀ b, b ∈ ours → holds b = false ∧ b ∈ payload_batch_ids (t_payload r)) as Hours.
  { intros b Hb. unfold ours in Hb. apply list_elem_of_filter in Hb as [??]. auto. }
  destruct ours as [|o l] eqn:Eo.
  { intros [= <- <-]. split; [done|]. intros _. exists theirs. split; [|done].
    intros b. by rewrite <- Hset, app_nil_r. }
  rewrite <- Eo in *. destruct (String.eqb _ _).
  - intros [= <- <-]. split; [done|]. intros _. exists (theirs ++ ours)%list. split; [done|].
    destruct Ha1 as (H1 & H2 & H3). split_and!; simpl.
    + intros b [Hb|Hb]%elem_of_app; [destruct (H1 b Hb)|]; [left; set_solver|by right|left; set_solver].
    + intros x (b & rs & ? & ? & ?)%H2. exists b, rs. set_solver.
    + set_solver.
  - intros Hc. destruct (openai_accounted _ _ _ _ _ Hours Hs1 Ha1 Hc) as [? Ha]. split; [done|].
    intros He. exists (theirs ++ ours)%list. split; [done|]. by apply Ha.
Qed.
End loops.

(** ** Lemmas: the checkpoint *)

Section checkpoint_lemmas.
Context (i : index) (put_verified : list json → option string).

Lemma upload_all_fst results up : upload_all put_verified results = Ok up → up.*1 = results.
Proof.
  revert up. induction results as [|x xs IH]; intros up; simpl; [by intros [= <-]|].
  intros H. rinv H. injection H as <-. csimpl. rewrite (IH _ eq_refl). f_equal.
  unfold upload in E. destruct (br_embedding_vectors x); [|by injection E as <-].
  destruct (put_verified l); [by injection E as <-|done].
Qed.

Lemma write_receipts_spec tid m l m' :
  write_receipts tid m l = Ok m' →
  (∀ k rc, m !! k = Some rc → m' !! k = Some rc) ∧
  (∀ x, x ∈ l.*1 → ∃ rc, m' !! key_of x = Some rc ∧ rc_task_id rc = tid ∧
     (m !! key_of x = Some rc ∨ ∃ y, y ∈ l.*1 ∧ key_of y = key_of x ∧ holds_answer y rc)).
Proof.
  revert m. induction l as [|[y ref] l IH]; intros m; simpl; [intros [= <-]; split; set_solver|].
  intros H. rinv H. destruct (IH _ H) as [Hmono Hrec].
  assert ((∀ k rc, m !! k = Some rc → a !! k = Some rc) ∧
    ∃ rc, a !! key_of y = Some rc ∧ rc_task_id rc = tid ∧
      (m !! key_of y = Some rc ∨ holds_answer y rc) ∧
      ∀ k, k ≠ key_of y → a !! k = m !! k) as (Hm & rc & Hrc & Ht & Hor & Hne).
  { unfold write_receipt in E. simpl in E. fold (key_of y) in E.
    destruct (m !! key_of y) as [r0|] eqn:Em.
    - destruct (Z.eqb_spec (rc_task_id r0) tid); [|done]. injection E as <-. split; [done|].
      exists r0. auto.
    - injection E as <-. split.
      + intros k rc Hk. rewrite lookup_insert_ne; [done|]. congruence.
      + eexists. rewrite lookup_insert_eq. split_and!; [done|done|right; by eexists|].
        intros k Hk. by rewrite lookup_insert_ne. }
  split; [auto|]. intros x [->|Hx]%elem_of_cons.
  - exists rc. split_and!; auto. destruct Hor; [by left|right; exists y; split_and!; [by left|done|done]].
  - destruct (Hrec x Hx) as (rc' & Hrc' & Ht' & [Ha|(z & ? & ? & ?)]).
    + exists rc'. split_and!; auto. destruct (decide (key_of x = key_of y)) as [Ek|Hk].
      * rewrite Ek, Hrc in *. injection Ha as <-.
        destruct Hor; [by left|right; exists y; split_and!; [by left|done|done]].
      * left. by rewrite <- (Hne _ Hk).
    + exists rc'. split_and!; auto. right. exists z. split_and!; [by right|done|done].
Qed.

Lemma same_item_refl c c' :
  same_item c c' = true → same_item c c = true.
Proof. unfold same_item. intros. breflect. rewrite !bool_decide_eq_true_2 by done. done. Qed.

Lemma insert_call_spec l row :
  (∃ t, insert_call l row = (l ++ t)%list) ∧
  (same_item (cr_call row) (cr_call row) = true →
   ∃ row', row' ∈ insert_call l row ∧ same_item (cr_call row) (cr_call row') = true).
Proof.
  unfold insert_call. destruct (existsb _ l) eqn:E.
  - split; [exists []; by rewrite app_nil_r|]. intros _.
    apply existsb_exists in E as (row' & ? & ?). exists row'. split; [by apply list_elem_of_In|done].
  - split; [by eexists|]. intros. exists row. split; [|done]. apply elem_of_app. right. by left.
Qed.

Lemma record_spec calls l :
  (∃ t, record i calls l = (l ++ t)%list) ∧
  ∀ c row, c ∈ calls → _row i c = Some row → same_item c c = true →
    ∃ row', row' ∈ record i calls l ∧ same_item c (cr_call row') = true.
Proof.
  unfold record.
  assert (∀ rows l, (∃ t, foldl insert_call l rows = (l ++ t)%list) ∧
    ∀ row, row ∈ rows → same_item (cr_call row) (cr_call row) = true →
    ∃ row', row' ∈ foldl insert_call l rows ∧ same_item (cr_call row) (cr_call row') = true) as H.
  { induction rows as [|row rows IH]; intros l0; simpl.
    - split; [exists []; by rewrite app_nil_r|set_solver].
    - destruct (insert_call_spec l0 row) as [[t Ht] Hs]. destruct (IH (insert_call l0 row)) as [[t' Ht'] Hs'].
      split; [exists (t ++ t')%list; by rewrite Ht', Ht, app_assoc|].
      intros row0 [->|H0]%elem_of_cons Hsame; [|by apply Hs'].
      destruct (Hs Hsame) as (row' & ? & ?). exists row'. rewrite Ht', elem_of_app. auto. }
  destruct (H (omap (_row i) calls) l) as [Hp Hr]. split; [done|].
  intros c row Hc Hrow Hsame.
  assert (cr_call row = c) as <-.
  { unfold _row in Hrow. destruct (cl_usage c); [|done]. destruct (_ =? 0); [done|]. by injection Hrow as <-. }
  apply Hr; [|done]. apply list_elem_of_omap. eauto.
Qed.

Lemma batch_call_item m x c : batch_call m x = Some c → same_item c c = true.
Proof.
  unfold batch_call. destruct (nonempty_opt _) as [bid|]; [|done]. cbn.
  destruct (negb _); [done|]. destruct (m !! bid) as [ab|]; [|done]. cbn.
  destruct (ab_payer ab); [|done]. intros [= <-].
  unfold same_item. cbn [cl_provider_batch_id cl_custom_id].
  by rewrite !bool_decide_eq_true_2 by (repeat split; eauto).
Qed.

Lemma payload_collected p unfinished :
  payload_batch_ids (jsonb_concat p (collected_payload unfinished)) = unfinished.
Proof.
  unfold payload_batch_ids, jsonb_concat, collected_payload.
  rewrite (lookup_union_Some_l _ _ _ (JArr (map JStr unfinished))) by (by rewrite lookup_insert_eq).
  apply json_strings_JStr.
Qed.

(** What a checkpoint that succeeds writes; one that fails writes nothing. *)
Lemma checkpoint_spec tid results unfinished b b' res :
  checkpoint i put_verified tid results unfinished b = (b', res) →
  match res with
  | Err _ => b' = b
  | Ok _ =>
      (∀ k rc, bk_receipts b !! k = Some rc → bk_receipts b' !! k = Some rc) ∧
      (∀ x, x ∈ results → ∃ rc, bk_receipts b' !! key_of x = Some rc ∧ rc_task_id rc = tid ∧
         (bk_receipts b !! key_of x = Some rc ∨
          ∃ y, y ∈ results ∧ key_of y = key_of x ∧ holds_answer y rc)) ∧
      (∀ x c row, x ∈ results → batch_call (sb_batches (bk_state b)) x = Some c → _row i c = Some row →
         ∃ row', row' ∈ bk_calls b' ∧ same_item c (cr_call row') = true) ∧
      sb_batches (bk_state b') = sb_batches (bk_state b) ∧
      (∃ t, bk_calls b' = (bk_calls b ++ t)%list) ∧
      tasks (sb_world (bk_state b')) =
        tasks (merge_payload tid (collected_payload unfinished) [] (sb_world (bk_state b)))
  end.
Proof.
  unfold checkpoint. destruct (existsb _ _); [by intros [= <- <-]|].
  destruct (upload_all put_verified results) as [up|] eqn:Eu; [|by intros [= <- <-]].
  destruct (write_receipts tid (bk_receipts b) up) as [m|] eqn:Ew; [|by intros [= <- <-]].
  intros [= <- <-]. apply upload_all_fst in Eu. destruct (write_receipts_spec _ _ _ _ Ew) as [Hm Hr].
  rewrite Eu in Hr. cbn.
  destruct (record_spec (omap (batch_call (sb_batches (bk_state b))) results) (bk_calls b)) as [Hp Hc].
  split_and!; try done. intros x c row Hx Hbc Hrow. eapply Hc; [|done|by eapply batch_call_item].
  apply list_elem_of_omap. eauto.
Qed.
End checkpoint_lemmas.

(** ** Collecting keeps what was paid for *)

Lemma keyed_unique b rs x y :
  keyed b rs → x ∈ rs.*2 → y ∈ rs.*2 → br_custom_id x = br_custom_id y → x = y.
Proof.
  intros [Hn Hk] ([k1 x'] & -> & Hx)%list_elem_of_fmap ([k2 y'] & -> & Hy)%list_elem_of_fmap Hc.
  simpl in *. destruct (Hk _ _ Hx), (Hk _ _ Hy).
  assert ((k1, x') = (k2, y')) as [= _ ->]; [|done].
  eapply (NoDup_fmap_inj fst rs); [done|done|done|]. simpl. congruence.
Qed.

Lemma keyed_elem b rs x : keyed b rs → x ∈ rs.*2 → br_batch_id x = b.
Proof. intros [_ Hk] ([k x'] & -> & Hx)%list_elem_of_fmap. by destruct (Hk _ _ Hx). Qed.

Lemma returned_keyed digest retrieve content retrieve_message requests tid m bid rs :
  (∀ bid b, retrieve bid = Some b → pb_id (ob_batch b) = bid) →
  (∀ bid b, retrieve_message bid = Some b → mb_id b = bid) →
  returned digest retrieve content retrieve_message requests tid m bid = Some rs →
  keyed (Some bid) rs.
Proof.
  intros Ho Ha. unfold returned. destruct (holds bid).
  - destruct (retrieve_message bid) as [b|] eqn:E; [|done]. simpl. destruct (String.eqb _ _); [|done].
    destruct (collect b [] _ true) as [[rs' er]|] eqn:Ec; [|done]. intros [= <-].
    rewrite <- (Ha _ _ E). by eapply collect_keyed.
  - destruct (retrieve bid) as [b|] eqn:E; [|done]. simpl. destruct (is_terminal _); [|done].
    destruct (_collect_batch content b [] true) as [[rs' er]|] eqn:Ec; [|done]. intros [= <-].
    rewrite <- (Ho _ _ E). by eapply collect_batch_keyed.
Qed.

Lemma mark_exhausted_keeps ps i now l b :
  let b' := _mark_exhausted_results ps i now l b in
  tasks (sb_world (bk_state b')) = tasks (sb_world (bk_state b)) ∧
  sb_batches (bk_state b') = sb_batches (bk_state b) ∧
  bk_receipts b' = bk_receipts b ∧ bk_calls b' = bk_calls b.
Proof. done. Qed.

Lemma batch_call_model m o x : batch_call m (set_model o x) = batch_call m x.
Proof. by destruct x. Qed.


