(* ===== verification/RunProps.v ===== *)
(** * Receipts are consumed once, and a run spends once

    The receipts table under any sequence of checkpoints and consumptions, by any
    tasks, with any handlers, in any order; and what one run of a batched task may buy,
    and where what it bought ends up. *)

From S2P Require Import Prelude PyStr Sql Tasks Queue Parking Spec Datasheets Pricing Routing Fallback Shapes Batches BatchProps Collect Receipts Runs CollectProps.

Local Open Scope Z_scope.

(** ** Sequences of operations on the receipts *)

(** One committed or failed transaction. [D] is what consumers write beside the
    acknowledgement. *)
Inductive op (D : Type) : Type :=
| Checkpoint (tid : Z) (results : list BatchResult) (unfinished : list string)
| ConsumeOne (now tid : Z) (k : receipt_key) (body : consumer D)
| ConsumeMany (now tid : Z) (keys : list receipt_key) (body : consumer D).
Arguments Checkpoint {D}.
Arguments ConsumeOne {D}.
Arguments ConsumeMany {D}.

(** The keys acknowledged by a consumption that ran its body to the end. *)
Definition acks_of (res : result books_exn (list receipt_key)) : list receipt_key :=
  match res with
  | Ok l => l
  | Err _ => []
  end.

Definition run_op {D} (i : index) (put_verified : list json → option string)
    (o : op D) (b : books) (d : D) : books * D * list receipt_key :=
  match o with
  | Checkpoint tid results unfinished => (fst (checkpoint i put_verified tid results unfinished b), d, [])
  | ConsumeOne now tid k body =>
      let '(b, d, res) := consume_result now tid k body b d in (b, d, acks_of res)
  | ConsumeMany now tid keys body =>
      let '(b, d, res) := consume_results now tid keys body b d in (b, d, acks_of res)
  end.

(** The receipts acknowledged along the way, oldest first. *)
Fixpoint run_ops {D} (i : index) (put_verified : list json → option string)
    (ops : list (op D)) (b : books) (d : D) : books * D * list receipt_key :=
  match ops with
  | [] => (b, d, [])
  | o :: ops =>
      let '(b, d, acks) := run_op i put_verified o b d in
      let '(b, d, more) := run_ops i put_verified ops b d in
      (b, d, (acks ++ more)%list)
  end.

Definition consumed (b : books) (k : receipt_key) : Prop :=
  ∃ rc, bk_receipts b !! k = Some rc ∧ rc_outcome rc ≠ None.

(** What one operation does to the receipts, given the keys it acknowledges. *)
Definition op_effect (b b' : books) (acks : list receipt_key) : Prop :=
  NoDup acks ∧
  (∀ k, k ∈ acks → ¬ consumed b k ∧ consumed b' k) ∧
  (∀ k rc, k ∉ acks → bk_receipts b !! k = Some rc → bk_receipts b' !! k = Some rc) ∧
  (∀ k, k ∉ acks → consumed b' k → consumed b k).

(** ** A concrete run *)

Definition demo_answer : BatchResult :=
  mkResult "u1" (JStr "yes") JNull None (Some "b1"%string) None JNull None.

(** A consumer that writes one row for each pending receipt. *)
Definition demo_consumer : consumer nat :=
  λ rs n, Some ((n + length (filter (λ r, rcp_pending r = true) rs))%nat, map (λ _, "written"%string) rs).

Definition demo_books : books := mkBooks demo_sub ∅ [] [].

(** The same answer collected twice, consumed in a chunk that names it twice, by
    a handler that raises, and by a retry. *)
Definition demo_ops : list (op nat) :=
  [Checkpoint 1 [demo_answer] []; ConsumeOne 5 1 ("b1", "u1")%string (λ _ _, None);
   ConsumeMany 6 1 [("b1", "u1"); ("b1", "u1")]%string demo_consumer;
   Checkpoint 1 [demo_answer] []; ConsumeOne 7 1 ("b1", "u1")%string demo_consumer].

(** Run [a] lost its claim while its second wave was being accepted; the next run
    is collecting. *)
Definition demo_read : collection * option string :=
  collect_finished_batches PROVIDERS demo_environ (λ s, s) demo_retrieve demo_content (λ _, None) []
    demo_hook 1000 (pending_batch_ids 1 (sb_world (bk_state demo_holding))) (bk_state demo_holding).

Definition demo_late : submission :=
  on_event demo_hook 1001 "b9" "in_progress" (mkCounts 1 0 0 0) (co_state (fst demo_read)).

Definition demo_checkpointed : books * result books_exn unit :=
  checkpoint MODELS (λ _, None) 1 (co_results (fst demo_read)) (co_unfinished (fst demo_read))
    (with_state demo_late demo_holding).

(** ** Lemmas *)

Lemma triple_eta {A B C} (x : A * B * C) : x = (fst (fst x), snd (fst x), snd x).
Proof. by destruct x as [[]]. Qed.

Lemma op_effect_refl b : op_effect b b [].
Proof. split_and!; try done; [constructor|set_solver]. Qed.

Lemma op_effect_trans b b1 b2 l1 l2 :
  op_effect b b1 l1 → op_effect b1 b2 l2 → op_effect b b2 (l1 ++ l2)%list.
Proof.
  intros (N1 & A1 & K1 & C1) (N2 & A2 & K2 & C2).
  assert (∀ k, k ∈ l1 → k ∉ l2) as Hdis by (intros k ?%A1 ?%A2; naive_solver).
  assert (∀ k, k ∈ l1 → consumed b2 k) as Hkeep.
  { intros k Hk. destruct (proj2 (A1 k Hk)) as (rc & Hrc & ?). exists rc. split; [|done].
    by apply K2; [apply Hdis|]. }
  split_and!.
  - by apply NoDup_app.
  - intros k [Hk|Hk]%elem_of_app; [by split; [apply A1|apply Hkeep]|]. destruct (A2 k Hk) as [Hn ?].
    split; [|done]. intros (rc & Hrc & ?). apply Hn. exists rc. split; [|done].
    apply K1; [|done]. intros Hk1. by apply (Hdis k).
  - intros k rc Hk Hrc. rewrite elem_of_app in Hk. apply K2; [tauto|]. apply K1; [tauto|done].
  - intros k Hk Hc. rewrite elem_of_app in Hk. apply C1; [tauto|]. apply C2; [tauto|done].
Qed.

Section effects.
Context {D : Type} (i : index) (put_verified : list json → option string).

Lemma write_receipts_pending tid m l m' k rc :
  write_receipts tid m l = Ok m' → m' !! k = Some rc → m !! k = Some rc ∨ rc_outcome rc = None.
Proof.
  revert m. induction l as [|x l IH]; intros m; simpl; [intros [= <-]; auto|]. intros H. rinv H.
  intros Hk. destruct (IH _ H Hk) as [Ha|?]; [|by right]. unfold write_receipt in E.
  destruct (m !! _) as [r0|]; [destruct (_ =? _); [injection E as <-; by left|done]|].
  injection E as <-.
  destruct (decide (k = (default ""%string (br_batch_id x.1), br_custom_id x.1))) as [->|].
  - rewrite lookup_insert_eq in Ha. injection Ha as <-. by right.
  - rewrite lookup_insert_ne in Ha by done. by left.
Qed.

Lemma checkpoint_effect tid results unfinished b :
  op_effect b (fst (checkpoint i put_verified tid results unfinished b)) [].
Proof.
  unfold checkpoint. destruct (existsb _ _); [apply op_effect_refl|].
  destruct (upload_all _ _) as [up|]; [|apply op_effect_refl].
  destruct (write_receipts _ _ _) as [m|] eqn:E; [|apply op_effect_refl].
  split_and!; simpl; [constructor|set_solver| |].
  - intros k rc _. by apply (write_receipts_spec tid _ up m).
  - intros k _ (rc & Hrc & Hout). simpl in Hrc.
    destruct (write_receipts_pending _ _ _ _ _ _ E Hrc); [by exists rc|done].
Qed.

(** Acknowledging distinct pending receipts. *)
Lemma acknowledge_effect now b (acks : list (receipt_key * string)) :
  NoDup acks.*1 →
  (∀ k, k ∈ acks.*1 → ∃ rc, bk_receipts b !! k = Some rc ∧ rc_outcome rc = None) →
  op_effect b
    (with_receipts (foldl (λ m a, alter (acknowledge now a.2) a.1 m) (bk_receipts b) acks) b) acks.*1.
Proof.
  intros Hn Hp. set (m := bk_receipts b) in *.
  assert (∀ (acks : list (receipt_key * string)) (m : gmap receipt_key receipt) k, k ∉ acks.*1 →
    foldl (λ m a, alter (acknowledge now a.2) a.1 m) m acks !! k = m !! k) as Hother.
  { clear. induction acks as [|[k0 o] acks IH]; intros m k; csimpl; [done|]. intros Hk.
    rewrite IH by set_solver. rewrite lookup_alter_ne; [done|set_solver]. }
  assert (∀ (acks : list (receipt_key * string)) (m : gmap receipt_key receipt) k,
    NoDup acks.*1 → k ∈ acks.*1 → ∃ o,
    foldl (λ m a, alter (acknowledge now a.2) a.1 m) m acks !! k = acknowledge now o <$> (m !! k)) as Hack.
  { clear -Hother. induction acks as [|[k0 o] acks IH]; intros m k; csimpl; [set_solver|].
    intros [Hk0 Hn]%NoDup_cons [->|Hk]%elem_of_cons.
    - exists o. rewrite Hother by done. by rewrite lookup_alter_eq.
    - destruct (IH (alter (acknowledge now o) k0 m) k) as [o' Ho']; [done|done|].
      exists o'. rewrite Ho'. rewrite lookup_alter_ne; [done|]. by intros <-. }
  split_and!; simpl.
  - done.
  - intros k Hk. destruct (Hp k Hk) as (rc & Hrc & Hnone). split.
    + intros (rc' & Hrc' & ?). fold m in Hrc'. congruence.
    + destruct (Hack acks m k Hn Hk) as [o Ho]. rewrite Hrc in Ho. by eexists.
  - intros k rc Hk Hrc. by rewrite Hother.
  - intros k Hk (rc & Hrc & ?). simpl in Hrc. rewrite Hother in Hrc by done. by exists rc.
Qed.

Lemma consume_result_effect now tid k body b (d : D) b' d' res :
  consume_result now tid k body b d = (b', d', res) → op_effect b b' (acks_of res).
Proof.
  unfold consume_result, owned_receipt.
  destruct (bk_receipts b !! k) as [rc|] eqn:E; [|intros [= <- <- <-]; apply op_effect_refl].
  destruct (rc_task_id rc =? tid); [|intros [= <- <- <-]; apply op_effect_refl].
  destruct (body _ d) as [[d1 outs]|]; [|intros [= <- <- <-]; apply op_effect_refl].
  case_bool_decide as Hp; intros [= <- <- <-]; [|apply op_effect_refl].
  set (o := default _ (head outs)).
  replace (<[k:=_]> (bk_receipts b)) with
    (foldl (λ m a, alter (acknowledge now a.2) a.1 m) (bk_receipts b) [(k, o)]).
  { apply (acknowledge_effect now b [(k, o)]); [by apply NoDup_singleton|].
    intros k' ->%list_elem_of_singleton. by exists rc. }
  simpl. apply map_eq. intros j. destruct (decide (j = k)) as [->|].
  - by rewrite lookup_alter_eq, lookup_insert_eq, E.
  - by rewrite lookup_alter_ne, lookup_insert_ne.
Qed.

Lemma receipts_for_acks tid keys seen b rs outs :
  receipts_for tid keys seen b = Some rs →
  let acks := (acknowledged keys rs outs).*1 in
  NoDup acks ∧ ∀ k, k ∈ acks → k ∉ seen ∧ ∃ rc, bk_receipts b !! k = Some rc ∧ rc_outcome rc = None.
Proof.
  revert seen rs outs. induction keys as [|k keys IH]; intros seen rs outs; simpl.
  { intros _. split; [constructor|set_solver]. }
  unfold owned_receipt. destruct (bk_receipts b !! k) as [rc|] eqn:E; [|done].
  destruct (rc_task_id rc =? tid); [|done]. simpl.
  destruct (receipts_for tid keys (seen ++ [k])%list b) as [rest|] eqn:Er; [|done]. intros [= <-].
  destruct outs as [|o outs]; [split; [constructor|set_solver]|].
  destruct (IH _ _ outs Er) as [Hn Hk]. unfold acknowledged in *. simpl.
  case_bool_decide as Hp; simpl; [|split; [done|intros k' Hk'; destruct (Hk k' Hk'); set_solver]].
  unfold mem. case_bool_decide as Hs; simpl; csimpl.
  - split; [done|]. intros k' Hk'. destruct (Hk k' Hk'). set_solver.
  - split; [constructor; [|done]|].
    + intros Hin. destruct (Hk k Hin) as [Hn' _]. apply Hn'. apply elem_of_app. right. by left.
    + intros k' [->|Hk']%elem_of_cons; [by eauto|]. destruct (Hk k' Hk'). set_solver.
Qed.

Lemma consume_results_effect now tid keys body b (d : D) b' d' res :
  consume_results now tid keys body b d = (b', d', res) → op_effect b b' (acks_of res).
Proof.
  unfold consume_results.
  destruct (receipts_for tid keys [] b) as [rs|] eqn:E; [|intros [= <- <- <-]; apply op_effect_refl].
  destruct (body rs d) as [[d1 outs]|]; [|intros [= <- <- <-]; apply op_effect_refl].
  intros [= <- <- <-]. destruct (receipts_for_acks _ _ _ _ _ (outcomes_for rs outs) E) as [Hn Hk].
  apply acknowledge_effect; [done|]. intros k Hin. by destruct (Hk k Hin).
Qed.

Lemma run_op_effect (o : op D) b d b' d' acks :
  run_op i put_verified o b d = (b', d', acks) → op_effect b b' acks.
Proof.
  destruct o; simpl.
  - intros [= <- <- <-]. apply checkpoint_effect.
  - destruct (consume_result _ _ _ _ _ _) as [[b1 d1] res] eqn:E. intros [= <- <- <-].
    by eapply consume_result_effect.
  - destruct (consume_results _ _ _ _ _ _) as [[b1 d1] res] eqn:E. intros [= <- <- <-].
    by eapply consume_results_effect.
Qed.

Lemma run_ops_effect (ops : list (op D)) b d b' d' acks :
  run_ops i put_verified ops b d = (b', d', acks) → op_effect b b' acks.
Proof.
  revert b d acks. induction ops as [|o ops IH]; intros b d acks; simpl.
  { intros [= <- <- <-]. apply op_effect_refl. }
  destruct (run_op _ _ _ _ _) as [[b1 d1] l1] eqn:E1.
  destruct (run_ops _ _ _ _ _) as [[b2 d2] l2] eqn:E2. intros [= <- <- <-].
  eapply op_effect_trans; [by eapply run_op_effect|by eapply IH].
Qed.
End effects.

(** ** Each receipt is consumed once *)

(** C5: every paid answer is handed out once. Along any sequence of checkpoints and
    consumptions, by any tasks and with any handlers, single or in chunks that
    name a result twice, no receipt is acknowledged twice; the receipts
    acknowledged are exactly those that became consumed; and a consumed receipt
    never changes again, whatever is collected later. *)
Theorem results_consumed_once {D} i put_verified (ops : list (op D)) b d b' d' acks :
  run_ops i put_verified ops b d = (b', d', acks) →
  NoDup acks ∧
  (∀ k, k ∈ acks ↔ consumed b' k ∧ ¬ consumed b k) ∧
  (∀ k rc, bk_receipts b !! k = Some rc → consumed b k → bk_receipts b' !! k = Some rc).
Proof.
  intros H. destruct (run_ops_effect i put_verified ops b d b' d' acks H) as (Hn & Ha & Hk & Hc).
  split_and!; [done| |].
  - intros k. split; [by intros [? ?]%Ha|]. intros [Hc' Hnc].
    destruct (decide (k ∈ acks)); [done|]. by destruct Hnc; apply Hc.
  - intros k rc Hrc Hcon. apply Hk; [|done]. by intros [? _]%Ha.
Qed.

Lemma results_consumed_once_witness :
  snd (fst (run_ops MODELS (λ _, None) demo_ops demo_books 0%nat)) = 1%nat ∧
  NoDup (snd (run_ops MODELS (λ _, None) demo_ops demo_books 0%nat)).
Proof.
  split; [vm_compute; reflexivity|].
  apply (results_consumed_once MODELS (λ _, None) demo_ops demo_books 0%nat
    (fst (fst (run_ops MODELS (λ _, None) demo_ops demo_books 0%nat)))
    (snd (fst (run_ops MODELS (λ _, None) demo_ops demo_books 0%nat)))).
  exact (triple_eta _).
Defined.

(** ** A batch accepted while another run collects *)

(** C38: a collection drops a batch id recorded after it read the task's ids. A run
    that lost its claim may still have a wave accepted, and its event hook
    records the id on the task whoever holds it; when that happens between
    another run's read of the ids and its checkpoint, the checkpoint writes the
    ids it read back over the row, and a batch that was paid for is on no task. *)
Theorem checkpoint_drops_late_batch ps i environ digest retrieve content retrieve_message requests
    put_verified h h' now n c b v counts results b' r :
  tasks (sb_world (bk_state b)) !! hk_task h = Some r → ids_array r → hk_task h' = hk_task h →
  (∀ bid x, retrieve bid = Some x → pb_id (ob_batch x) = bid) →
  (∀ bid x, retrieve_message bid = Some x → mb_id x = bid) →
  collect_finished_batches ps environ digest retrieve content retrieve_message requests h now
    (pending_batch_ids (hk_task h) (sb_world (bk_state b))) (bk_state b) = (c, None) →
  v ∉ pending_batch_ids (hk_task h) (sb_world (bk_state b)) →
  let late := on_event h' n v "in_progress" counts (co_state c) in
  checkpoint i put_verified (hk_task h) results (co_unfinished c) (with_state late b) = (b', Ok tt) →
  v ∈ pending_batch_ids (hk_task h) (sb_world late) ∧
  v ∉ pending_batch_ids (hk_task h) (sb_world (bk_state b')).
Proof.
  intros Hr Ha Hh Ho Han Hc Hv. cbn zeta. intros Hk.
  assert (pending_batch_ids (hk_task h) (sb_world (bk_state b)) = payload_batch_ids (t_payload r)) as Hp
    by (unfold pending_batch_ids; by rewrite Hr).
  rewrite Hp in *.
  eapply finished_accounted in Hc as [[Ht _] Hacc]; [|done..].
  destruct (Hacc eq_refl) as (done & Hdone & _ & _ & Hsub).
  assert (tasks (sb_world (on_event h' n v "in_progress" counts (co_state c))) !! hk_task h =
    Some (put_payload (record_ids [v] (t_payload r)) r)) as Hlate.
  { simpl. rewrite Hh. apply record_lookup. by rewrite Ht. }
  split.
  - unfold pending_batch_ids. rewrite Hlate. apply (ids_array_iff [v] r); [done|]. left. by left.
  - apply checkpoint_spec in Hk as (_ & _ & _ & _ & _ & Hw). unfold pending_batch_ids.
    rewrite Hw. unfold merge_payload. rewrite exec_update_lookup. simpl in Hlate |- *. rewrite Hlate.
    simpl. rewrite Z.eqb_refl. simpl. rewrite payload_collected. intros Hin%Hsub%Hdone. done.
Qed.

Lemma checkpoint_drops_late_batch_witness :
  "b9"%string ∈ pending_batch_ids 1 (sb_world demo_late) ∧
  "b9"%string ∉ pending_batch_ids 1 (sb_world (bk_state (fst demo_checkpointed))).
Proof.
  apply (checkpoint_drops_late_batch PROVIDERS MODELS demo_environ (λ s, s) demo_retrieve demo_content
    (λ _, None) [] (λ _, None) demo_hook demo_hook 1000 1001 (fst demo_read) demo_holding "b9"
    (mkCounts 1 0 0 0) (co_results (fst demo_read)) (fst demo_checkpointed) demo_held).
  - reflexivity.
  - exact I.
  - reflexivity.
  - intros bid x. unfold demo_retrieve. destruct (String.eqb bid "b1"); intros [= <-]; reflexivity.
  - intros bid x [=].
  - vm_compute. reflexivity.
  - vm_compute. intros H. inversion_clear H as [|? ? ? H']. inversion_clear H' as [|? ? ? H'']. inversion H''.
  - vm_compute. reflexivity.
Defined.

(** Each stored request is filed under its own id. *)
Definition filed (m : request_table) : Prop := ∀ k s, m !! k = Some s → custom_id s = k.2.

(** ** A concrete run: two waves, both accepted *)

Definition demo_accept (n : nat) (model : string) (wave : list BatchSpec) : answer :=
  Accepted (mkBatch (String.append "b" (pretty.pretty n)) "validating" 0 0 0).

Definition demo_desk : desk := mkDesk (mkBooks demo_sub ∅ [] []) ∅.

Definition demo_run : desk * run_end :=
  run_batched PROVIDERS MODELS demo_environ (λ s, s) demo_accept (λ _, 1000) (λ _, None) (λ _, None)
    (λ _, None) (λ _, None) (λ _, None) (λ _, 1) (λ _, true) (λ _ _, true) [] (λ _, 0) false None []
    demo_routing 60 (Some demo_claim) 1 demo_shape demo_specs FLEET true demo_desk.

(** ** Lemmas: snapshots *)

Lemma freeze_keeps tid l m k s :
  m !! k = Some s → foldl (freeze tid) m l !! k = Some s.
Proof.
  revert m. induction l as [|x l IH]; intros m Hk; simpl; [done|]. apply IH. unfold freeze.
  destruct (m !! (tid, custom_id x)) eqn:E; [done|]. rewrite lookup_insert_ne; [done|congruence].
Qed.

Lemma freeze_filed tid l m : filed m → filed (foldl (freeze tid) m l).
Proof.
  revert m. induction l as [|x l IH]; intros m Hm; simpl; [done|]. apply IH. unfold freeze.
  destruct (m !! (tid, custom_id x)) eqn:E; [done|]. intros k s.
  destruct (decide (k = (tid, custom_id x))) as [->|]; [rewrite lookup_insert_eq; by intros [= <-]|].
  rewrite lookup_insert_ne by done. apply Hm.
Qed.

Lemma freeze_has tid l m x :
  x ∈ l → is_Some (foldl (freeze tid) m l !! (tid, custom_id x)).
Proof.
  revert m. induction l as [|y l IH]; intros m; [set_solver|]. intros [->|Hx]%elem_of_cons; [|by apply IH].
  simpl. unfold freeze at 2. destruct (m !! (tid, custom_id y)) eqn:E; [|set (s := y)];
    eexists; apply freeze_keeps; [done|apply lookup_insert_eq].
Qed.

Lemma fresh_specs_cover tid m seen specs x :
  x ∈ specs → is_Some (m !! (tid, custom_id x)) ∨ custom_id x ∈ seen ∨
    ∃ y, y ∈ fresh_specs tid m seen specs ∧ custom_id y = custom_id x.
Proof.
  revert seen. induction specs as [|s specs IH]; intros seen; [set_solver|].
  intros [->|Hx]%elem_of_cons; simpl.
  - destruct (bool_decide (is_Some _)) eqn:E1; breflect; [by left|].
    case_bool_decide; simpl; [by right; left|]. right. right. exists s. split; [by left|done].
  - destruct (_ || _).
    + by apply IH.
    + destruct (IH ({[custom_id s]} ∪ seen) Hx) as [?|[Hs|(y & ? & ?)]]; [by left| |].
      * apply elem_of_union in Hs as [->%elem_of_singleton|?]; [|by right; left].
        right. right. exists s. split; [by left|done].
      * right. right. exists y. split; [by right|done].
Qed.

Lemma fresh_specs_known tid m seen specs :
  (∀ x, x ∈ specs → is_Some (m !! (tid, custom_id x))) → fresh_specs tid m seen specs = [].
Proof.
  revert seen. induction specs as [|s specs IH]; intros seen Hs; simpl; [done|].
  rewrite bool_decide_eq_true_2 by (apply Hs; by left). simpl. apply IH. intros. apply Hs. by right.
Qed.

Section snapshot_lemmas.
Context (size : BatchSpec → Z) (put_bundle : list BatchSpec → bool) (load : Z → string → bool).

Lemma snapshot_spec tid specs m m' frozen :
  filed m → snapshot_specs size put_bundle load tid specs m = (m', Some frozen) →
  filed m' ∧ (∀ k s, m !! k = Some s → m' !! k = Some s) ∧
  Forall2 (λ s f, m' !! (tid, custom_id s) = Some f) specs frozen.
Proof.
  intros Hm. unfold snapshot_specs. destruct (forallb _ _); [simpl|done]. intros [= <- H].
  split; [by apply freeze_filed|]. split; [intros; by apply freeze_keeps|].
  apply mapM_Some in H. eapply Forall2_impl; [exact H|]. intros s f (x & Hx & Hf)%bind_Some.
  destruct (bool_decide _ && _); [done|]. by injection Hf as <-.
Qed.

(** Requests already frozen are read back as they are. *)
Lemma snapshot_again tid specs m m' frozen frozen' :
  filed m → Forall2 (λ s f, m !! (tid, custom_id s) = Some f) specs frozen →
  snapshot_specs size put_bundle load tid frozen m = (m', Some frozen') →
  m' = m ∧ frozen' = frozen.
Proof.
  intros Hm Hf. assert (Forall (λ f, m !! (tid, custom_id f) = Some f) frozen) as Hff.
  { clear -Hm Hf. induction Hf as [|s f l l' H]; constructor; [|done]. by rewrite (Hm _ _ H). }
  unfold snapshot_specs. rewrite (fresh_specs_known tid m ∅ frozen).
  2: { intros x Hx. rewrite Forall_forall in Hff. eexists. by apply Hff. }
  simpl. intros [= <- H]. split; [done|]. apply mapM_Some in H.
  clear -Hff H. revert frozen' H. induction Hff as [|f l Hx _ IH]; intros fr H; inversion H; subst; [done|].
  f_equal; [|by apply IH]. rewrite Hx in H2. simpl in H2. destruct (negb _); [done|].
  by injection H2.
Qed.
End snapshot_lemmas.

(** ** Lemmas: collecting buys nothing *)

Section accepted.
Context (ps : list Provider) (i : index) (environ : gmap string string) (digest : string → string).
Context (retrieve : string → option openai_batch).
Context (content : string → option (list (option result_line))).
Context (retrieve_message : string → option message_batch).
Context (h : event_hook).

Lemma anthropic_accepted requests now ids c :
  sb_accepted (co_state (_collect_anthropic ps environ digest retrieve_message requests h now ids c)) =
  sb_accepted (co_state c).
Proof.
  unfold _collect_anthropic. destruct (String.eqb _ _); [done|].
  revert c. induction ids as [|bid ids IH]; intros c; simpl; [done|]. rewrite IH.
  destruct (retrieve_message bid); [|done]. destruct (negb _); [done|].
  by destruct (collect _ _ _ _) as [[]|].
Qed.

Lemma openai_accepted now ids c :
  sb_accepted (co_state (fst (collect_openai retrieve content h now ids c))) =
  sb_accepted (co_state c).
Proof.
  revert c. induction ids as [|bid ids IH]; intros c; simpl; [done|].
  destruct (retrieve bid); [|by rewrite IH]. destruct (negb _); [by rewrite IH|].
  destruct (_collect_batch _ _ _ _) as [[]|]; [by rewrite IH|done].
Qed.

Lemma collect_finished_accepted requests now ids s :
  sb_accepted (co_state (fst (collect_finished_batches ps environ digest retrieve content
    retrieve_message requests h now ids s))) = sb_accepted s.
Proof.
  unfold collect_finished_batches.
  set (c := match filter (λ b, holds b = true) ids with [] => mkCollection s [] [] [] | _ => _ end).
  assert (sb_accepted (co_state c) = sb_accepted s) as Hc.
  { subst c. destruct (filter _ ids); [done|]. by rewrite anthropic_accepted. }
  clearbody c. destruct (filter _ ids); [done|]. destruct (String.eqb _ _); [done|].
  by rewrite openai_accepted.
Qed.

Lemma checkpoint_accepted put_verified tid results unfinished b :
  sb_accepted (bk_state (fst (checkpoint i put_verified tid results unfinished b))) =
  sb_accepted (bk_state b).
Proof.
  unfold checkpoint. destruct (existsb _ _); [done|]. destruct (upload_all _ _); [|done].
  by destruct (write_receipts _ _ _).
Qed.

Lemma collect_pending_accepted clock put_verified get tid m b :
  sb_accepted (bk_state (fst (collect_pending ps i environ digest clock retrieve content
    retrieve_message put_verified get tid h m b))) = sb_accepted (bk_state b).
Proof.
  unfold collect_pending. destruct (pending_batch_ids _ _) as [|x l]; [done|]. cbv zeta.
  pose proof (collect_finished_accepted (map fst (map_to_list m)) (clock (sb_calls (bk_state b)))
    (x :: l) (bk_state b)) as Hf.
  destruct (collect_finished_batches _ _ _ _ _ _ _ _ _ _ _) as [c [e|]]; [done|].
  pose proof (checkpoint_accepted put_verified tid
    (map (λ r, set_model (nonempty_opt (br_batch_id r) ≫=
       _batch_metadata tid (sb_batches (bk_state b))) r) (co_results c)) (co_unfinished c)
    (mkBooks (co_state c) (bk_receipts b) (bk_calls b) (bk_errors b ++ co_errors c))) as Hk.
  simpl in Hf. rewrite <- Hf. destruct (checkpoint _ _ _ _ _ _) as [b1 []]; exact Hk.
Qed.
End accepted.

Lemma park_result cur tid ids w w' p r :
  tasks w !! tid = Some r → park_awaiting_batch cur tid ids w = (w', p) →
  let r1 := put_payload (record_ids ids (t_payload r)) r in
  tasks w' !! tid = Some (if p then parked_row r1 else r1).
Proof.
  intros Hr. unfold park_awaiting_batch. apply (record_lookup _ ids) in Hr. cbv zeta.
  set (w1 := _record_batch_ids _ _ _) in *. set (r1 := put_payload _ _) in *. intros [= <- <-].
  transitivity (tasks (exec_update (park_where cur tid) parked_row w1) !! tid).
  { by destruct (negb _). }
  rewrite exec_update_lookup, Hr. simpl. f_equal.
  destruct (park_where cur tid tid r1) eqn:Ep.
  - rewrite (proj2 (Nat.eqb_neq _ _)); [done|]. intros Hz.
    rewrite (proj1 (count_where_zero _ _) Hz _ _ Hr) in Ep. done.
  - rewrite (proj2 (Nat.eqb_eq _ _)); [done|]. apply count_where_zero. intros j q Hq.
    destruct (decide (j = tid)) as [->|Hn].
    + change (tasks w1 !! tid = Some q) in Hq. rewrite Hr in Hq. by injection Hq as <-.
    + unfold park_where. by rewrite (proj2 (Z.eqb_neq _ _) Hn).
Qed.

(** ** What a run buys *)

(** C3: a run buys each request at most once and keeps what it buys. A task that
    holds batches or receipts, or a site whose AI is paused, buys nothing,
    whatever the models, budget and settings say. Otherwise the requests of the
    waves accepted are a subsequence of the frozen requests of the task. A run
    that ends waiting has bought something and left its row parked on every
    batch it held or bought; a run that lost its claim still names them; and any
    other ending has bought nothing, unless a provider refused for a reason other
    than credit. *)
Theorem run_spends_once ps i environ digest vendor clock retrieve content retrieve_message
    put_verified get size put_bundle load shapes config paused overrides calls e cycle
    cur tid sh specs payer ovr d d' fin r :
  let work := has_batch_work (has_results tid (dk_books d)) tid (sb_world (desk_state d)) in
  tasks (sb_world (desk_state d)) !! tid = Some r → ids_array r → filed (dk_requests d) →
  run_batched ps i environ digest vendor clock retrieve content retrieve_message put_verified get
    size put_bundle load shapes config paused overrides calls e cycle cur tid sh specs payer ovr d =
    (d', fin) →
  ∃ new, sb_accepted (desk_state d') = (sb_accepted (desk_state d) ++ new)%list ∧
    (work = true ∨ paused = true → new = []) ∧
    (new = [] ∨ ∃ frozen, sublist (bought new) frozen ∧
       Forall2 (λ s f, dk_requests d' !! (tid, custom_id s) = Some f) specs frozen) ∧
    match fin with
    | AwaitingBatch | Failed (NoLongerClaimable _) =>
        new ≠ [] ∧ ∃ r', tasks (sb_world (desk_state d')) !! tid = Some r' ∧
          (fin = AwaitingBatch → t_status r' = Tasks.AwaitingBatch) ∧
          ∀ v, v ∈ payload_batch_ids (t_payload r) ∨ v ∈ map aw_id new →
            v ∈ payload_batch_ids (t_payload r')
    | Failed (SubmissionFailed x) => new = [] ∨ not_credit x
    | _ => new = []
    end.
Proof.
  cbv zeta. intros Hr Hids Hm. unfold run_batched. cbv zeta.
  destruct (has_batch_work _ _ _) eqn:Hw.
  { unfold collect_run. set (h := batch_event_hook _ _ _ _ _ _).
    pose proof (collect_pending_accepted ps i environ digest retrieve content retrieve_message h
      clock put_verified get tid (dk_requests d) (dk_books d)) as Ha.
    destruct (collect_pending _ _ _ _ _ _ _ _ _ _ _ _ _ _) as [b1 res]. intros H. exists [].
    rewrite app_nil_r. destruct res; injection H as <- <-; auto. }
  destruct (snapshot_specs size put_bundle load tid specs (dk_requests d)) as [m [frozen|]] eqn:Es.
  2: { intros [= <- <-]. exists []. rewrite app_nil_r. auto. }
  destruct (snapshot_spec _ _ _ _ _ _ _ _ Hm Es) as (Hm' & _ & Hfrozen).
  destruct (if ovr then _ else _) as [chosen|reason].
  2: { intros [= <- <-]. exists []. rewrite app_nil_r. auto. }
  destruct (if bool_decide (payer = FLEET) then _ else _) as [u|st].
  2: { intros [= <- <-]. exists []. rewrite app_nil_r. auto. }
  set (h := batch_event_hook _ _ _ _ _ _). unfold submit_or_collect. cbv zeta.
  change (desk_state (mkDesk (dk_books d) m)) with (desk_state d). cbn [dk_books dk_requests].
  rewrite Hw.
  destruct paused; [intros [= <- <-]; exists []; rewrite app_nil_r; auto|].
  destruct (snapshot_specs size put_bundle load tid frozen m) as [m2 [frozen2|]] eqn:Es2.
  2: { intros [= <- <-]. exists []. rewrite app_nil_r. auto. }
  destruct (snapshot_again _ _ _ _ _ _ _ _ _ Hm' Hfrozen Es2) as [-> ->].
  destruct frozen as [|f0 frozen]; [intros [= <- <-]; exists []; rewrite app_nil_r; auto|].
  set (fr := (f0 :: frozen)%list) in *. set (fb := if ovr then Some _ else None).
  edestruct (submit_spec ps i environ digest vendor clock shapes config overrides calls e cycle
    (chain_fuel e fb) tid fr (ch_model chosen)) as (s1 & res & new & -> & [Ha Hg] & Hres);
    [done| |]. { unfold chain_fuel. destruct fb; simpl; [|lia]. apply Nat.lt_succ_r, length_filter. }
  destruct (Hg r Hr Hids) as (r1 & Hr1 & Hi1 & Hv).
  destruct res as [ids|x].
  2: { intros [= <- <-]. exists new. destruct Hres as [Hb Hx]. split_and!; [done|by intros []| |].
       - right. by exists fr.
       - destruct Hx as [[_ ?]|?]; auto. }
  destruct Hres as [-> Hb]. cbn [app]. destruct new as [|n0 new]; [intros [= <- <-]; exists []; auto|].
  cbn [map]. set (ids := (aw_id n0 :: map aw_id new)%list).
  destruct (park_awaiting_batch cur tid ids (sb_world s1)) as [w p] eqn:Ep. intros [= <- <-].
  apply (park_result _ _ _ _ _ _ _ Hr1) in Ep. cbv zeta in Ep.
  exists (n0 :: new)%list. split_and!; [done|by intros []|right; by exists fr|].
  assert (∀ v, v ∈ payload_batch_ids (t_payload r) ∨ v ∈ ids →
    v ∈ payload_batch_ids (record_ids ids (t_payload r1))) as Hall.
  { intros v Hin. apply ids_array_iff; [done|]. right. by apply Hv. }
  destruct p; (split; [done|]); eexists; (split; [exact Ep|]); (split; [done|exact Hall]).
Qed.

Lemma run_spends_once_witness :
  snd demo_run = AwaitingBatch ∧
  ∃ new r', sb_accepted (desk_state (fst demo_run)) = new ∧ new ≠ [] ∧
    tasks (sb_world (desk_state (fst demo_run))) !! 1 = Some r' ∧
    t_status r' = Tasks.AwaitingBatch ∧ ∀ v, v ∈ map aw_id new → v ∈ payload_batch_ids (t_payload r').
Proof.
  assert (snd demo_run = AwaitingBatch) as Hfin by (vm_compute; reflexivity).
  split; [exact Hfin|].
  destruct (run_spends_once PROVIDERS MODELS demo_environ (λ s, s) demo_accept (λ _, 1000) (λ _, None)
    (λ _, None) (λ _, None) (λ _, None) (λ _, None) (λ _, 1) (λ _, true) (λ _ _, true) [] (λ _, 0) false
    None [] demo_routing 60 (Some demo_claim) 1 demo_shape demo_specs FLEET true demo_desk
    (fst demo_run) (snd demo_run) demo_task) as (new & Ha & _ & _ & Hend).
  - reflexivity.
  - exact I.
  - intros k s Hk. change ((∅ : request_table) !! k = Some s) in Hk.
    rewrite lookup_empty in Hk. discriminate Hk.
  - apply surjective_pairing.
  - rewrite Hfin in Hend. destruct Hend as (Hn & r' & Hr' & Hs & Hv).
    exists new, r'. split; [exact Ha|]. split; [exact Hn|]. split; [exact Hr'|].
    split; [exact (Hs eq_refl)|]. intros v Hin. apply Hv. right. exact Hin.
Defined.
