(* ===== verification/Listings.v ===== *)
(** * Listings: values held inline or by reference ([core.payloads.listings],
    [core.catalog.listings])

    The description and the raw record of a posting a board listed, the writer
    that stores them by reference, and the migration between the two shapes. A
    digest or an object name is its hexadecimal text. *)

From S2P Require Import Prelude PyStr Sql Json Objects.

Local Open Scope string_scope.
Local Open Scope Z_scope.

(** A bundle and its length. *)
Abbreviation link := (string * Z)%type.

(** The three reference columns of a field, set together: the value's digest, the
    bundle's, and the bundle's length. *)
Abbreviation reference := (string * link)%type.

(** [listings]: the columns of the payloads, and the others as the upsert's check
    compares them. *)
Record listing : Type := mkListing {
  li_description : string;
  li_description_ref : option reference;
  li_raw : json;
  li_raw_ref : option reference;
  li_facts : string;
  li_date_posted : option Z;
  li_last_seen_at : Z;
}.

Section listings.
Context {St : Type} (c : client St) (sha256 : string → string) (bucket : string).

(** [_digest]. *)
Definition _digest (v : json) : string := sha256 (encode_payload v).

(** One field of [resolve]: [None] is PayloadUnavailable. *)
Definition resolve_ref (r : reference) (ok : json → bool) (cache : bundle_cache) (s : St)
    : option (bundle_cache * json) :=
  '(cache, v) ← get_digest_member c sha256 bucket r.2.1 r.2.2 r.1 cache s;
  if ok v then Some (cache, v) else None.

Definition is_str (v : json) : bool := match v with JStr _ => true | _ => false end.
Definition is_dict (v : json) : bool := match v with JObj _ => true | _ => false end.

(** [resolve] of one row: its description and raw record as written. *)
Definition resolve_row (r : listing) (cache : bundle_cache) (s : St)
    : option (bundle_cache * (json * json)) :=
  '(cache, d) ←
    match li_description_ref r with
    | None => Some (cache, JStr (li_description r))
    | Some ref => resolve_ref ref is_str cache s
    end;
  '(cache, raw) ←
    match li_raw_ref r with
    | None => Some (cache, li_raw r)
    | Some ref => resolve_ref ref is_dict cache s
    end;
  Some (cache, (d, raw)).

(** [resolve]: one cache for all rows; the first failure ends it. *)
Fixpoint resolve (rows : list listing) (cache : bundle_cache) (s : St) : option (list (json * json)) :=
  match rows with
  | [] => Some []
  | r :: rows =>
      '(cache, v) ← resolve_row r cache s;
      vs ← resolve rows cache s;
      Some (v :: vs)
  end.

(** ** Writing *)

(** The uploads of [put_values]. The executor runs them side by side, so one that
    fails need not keep the others from being stored; any failure fails them all. *)
Fixpoint put_groups (groups : list (list (string * json))) (s : St)
    : St * option (list (string * BundleMemberRef)) :=
  match groups with
  | [] => (s, Some [])
  | g :: groups =>
      let '(s, refs) := put_bundle c sha256 bucket g s in
      let '(s, rest) := put_groups groups s in
      (s, refs ← refs; rest ← rest; Some (refs ++ rest)%list)
  end.

(** [put_values]: values under their own digests; each digest's link. *)
Definition put_values (values : list (string * json)) (s : St) : St * option (list (string * link)) :=
  let '(s, refs) := put_groups (bundle_groups values (λ p, len_of (encode_payload p.2))) s in
  (s, map (λ p, (p.1, (bm_sha256 p.2, bm_size p.2))) <$> refs).

(** [missing[digest] = value] and the links already known, later ones winning. *)
Definition dict_from {A} (l : list (string * A)) : list (string * A) :=
  foldl (λ d p, alist_set p.1 p.2 d) [] l.

(** The values of one listed posting, with the digest each would be stored under. *)
Definition digests_of (d : string) (raw : json) : option string * string :=
  (if String.eqb d "" then None else Some (_digest (JStr d)), _digest raw).

Definition missing_of (links : list (string * link)) (listed : list (string * json))
    : list (string * json) :=
  dict_from
    (concat (map (λ p : string * json,
       let '(dd, rd) := digests_of p.1 p.2 in
       (match dd with
        | Some k => match alist_get k links with Some _ => [] | None => [(k, JStr p.1)] end
        | None => []
        end ++
        match alist_get rd links with Some _ => [] | None => [(rd, p.2)] end)%list) listed)).

(** The payload columns of one posting. *)
Definition columns_of (links : list (string * link)) (d : string) (raw : json)
    : (string * option reference) * (json * option reference) :=
  let '(dd, rd) := digests_of d raw in
  (match dd with
   | Some k => match alist_get k links with Some l => ("", Some (k, l)) | None => (d, None) end
   | None => ("", None)
   end,
   match alist_get rd links with Some l => (JObj [], Some (rd, l)) | None => (raw, None) end).

(** The references the stored rows of this pull hold, in the order selected. *)
Definition known_links (rows : list listing) : list (string * link) :=
  dict_from
    (concat (map (λ r,
       (match li_description_ref r with Some x => [x] | None => [] end ++
        match li_raw_ref r with Some x => [x] | None => [] end)%list) rows)).

(** [reference_columns]: [rows] are the stored rows of this pull's urls. A failed
    upload leaves the missing values inline. *)
Definition reference_columns (rows : list listing) (listed : list (string * json)) (s : St)
    : St * list ((string * option reference) * (json * option reference)) :=
  let known := known_links rows in
  let missing := missing_of known listed in
  let '(s, links) :=
    match missing with
    | [] => (s, known)
    | _ =>
        let '(s, uploaded) := put_values missing s in
        match uploaded with
        | Some l => (s, dict_from (known ++ l)%list)
        | None => (s, known)
        end
    end in
  (s, map (λ p, columns_of links p.1 p.2) listed).

(** [_KEPT]: the incoming value equals what the stored row holds. SQL's NULL is
    not true. *)
Definition kept_description (e l : string * option reference) : bool :=
  match e.2, l.2 with
  | Some x, Some y => String.eqb x.1 y.1
  | None, None => String.eqb e.1 "" || String.eqb e.1 l.1
  | None, Some _ => String.eqb e.1 ""
  | Some _, None => false
  end.

(** [jsonb] equality is without regard to key order. *)
Definition kept_raw (e l : json * option reference) : bool :=
  match e.2, l.2 with
  | Some x, Some y => String.eqb x.1 y.1
  | None, None => bool_decide (sort_keys e.1 = sort_keys l.1)
  | _, _ => false
  end.

Definition description_of (r : listing) : string * option reference :=
  (li_description r, li_description_ref r).
Definition raw_of (r : listing) : json * option reference := (li_raw r, li_raw_ref r).

(** [_RECORD_LISTINGS]: one incoming row [e] over the stored one, if any. *)
Definition record_listing (now refresh_hours : Z) (e : listing) (stored : option listing) : listing :=
  match stored with
  | None => e
  | Some l =>
      let kd := kept_description (description_of e) (description_of l) in
      let kr := kept_raw (raw_of e) (raw_of l) in
      if String.eqb (li_facts l) (li_facts e)
         && (bool_decide (is_Some (li_date_posted l)) || bool_decide (li_date_posted e = None))
         && kd && kr && (now - refresh_hours * 3600 * 1000000 <=? li_last_seen_at l)
      then l
      else
        let d := if kd then description_of l else description_of e in
        let r := if kr then raw_of l else raw_of e in
        mkListing d.1 d.2 r.1 r.2 (li_facts e) (coalesce (li_date_posted l) (li_date_posted e)) now
  end.

(** One posting as a board lists it; [po_facts] are the columns compared as one. *)
Record posting : Type := mkPosting {
  po_url : string;
  po_description : string;
  po_raw : json;
  po_facts : string;
  po_date_posted : option Z;
}.

Definition incoming (now : Z) (p : posting)
    (cols : (string * option reference) * (json * option reference)) : string * listing :=
  (po_url p, mkListing cols.1.1 cols.1.2 cols.2.1 cols.2.2 (po_facts p) (po_date_posted p) now).

Definition by_url {A} (a b : string * A) : Prop := String.le a.1 b.1.
#[export] Instance by_url_dec {A} : RelDecision (@by_url A).
Proof. intros a b. unfold by_url. apply _. Defined.

Definition upsert_listing (now refresh_hours : Z) (t : gmap string listing) (e : string * listing)
    : gmap string listing :=
  <[e.1 := record_listing now refresh_hours e.2 (t !! e.1)]> t.

(** [record_listings]: [rows] are the stored rows its upload looked at, [t] the
    table when it writes. *)
Definition record_listings (now refresh_hours : Z) (postings : list posting) (rows : list listing)
    (t : gmap string listing) (s : St) : St * gmap string listing :=
  let listed := filter (λ p, po_url p ≠ "") postings in
  let '(s, cols) := reference_columns rows (map (λ p, (po_description p, po_raw p)) listed) s in
  (s, foldl (upsert_listing now refresh_hours) t
        (merge_sort by_url (zip_with (incoming now) listed cols))).

(** ** Migrating *)

Inductive outcome : Type :=
| Gone | Inline | Referenced | Unavailable | Changed | Externalized | Restored.

(** [_inline] of each field. *)
Definition inline_description (r : listing) : bool :=
  bool_decide (li_description_ref r = None) && negb (String.eqb (li_description r) "").
Definition inline_raw (r : listing) : bool := bool_decide (li_raw_ref r = None).

(** [_state]: what a page decided from. *)
Definition state_of (r : listing) : string * option reference * (string * option reference) :=
  (encode_payload (JStr (li_description r)), li_description_ref r,
   (encode_payload (li_raw r), li_raw_ref r)).

Definition set_payloads (d : string * option reference) (raw : json * option reference) (r : listing)
    : listing :=
  mkListing d.1 d.2 raw.1 raw.2 (li_facts r) (li_date_posted r) (li_last_seen_at r).

(** Swap each inline value for its reference. *)
Definition externalize_row (links : list (string * link)) (r now_row : listing) : option listing :=
  d ← if inline_description r
      then l ← alist_get (_digest (JStr (li_description r))) links;
           Some ("", Some (_digest (JStr (li_description r)), l))
      else Some (description_of now_row);
  raw ← if inline_raw r
        then l ← alist_get (_digest (li_raw r)) links; Some (JObj [], Some (_digest (li_raw r), l))
        else Some (raw_of now_row);
  Some (set_payloads d raw now_row).

(** The values of a page's inline fields under their digests. *)
Definition page_values (rows : gmap string listing) (urls : list string) : list (string * json) :=
  dict_from
    (concat (map (λ url,
       match rows !! url with
       | Some r =>
           ((if inline_description r
             then [(_digest (JStr (li_description r)), JStr (li_description r))] else []) ++
            (if inline_raw r then [(_digest (li_raw r), li_raw r)] else []))%list
       | None => []
       end) urls)).

Definition has_inline (r : listing) : bool := inline_description r || inline_raw r.

(** [_count]. *)
Definition _count (urls : list string) (t : gmap string listing) : list outcome :=
  map (λ url, match t !! url with
              | None => Gone
              | Some r => if has_inline r then Inline else Referenced
              end) urls.

(** One url of a page: [rows] as read, [locked] as the lock found them (a row a
    pull holds is skipped); [swap] is the write. *)
Definition migrate_url (todo : listing → bool) (done : outcome) (skipped : outcome)
    (swap : string → listing → listing → option listing)
    (rows locked : gmap string listing) (t : gmap string listing) (url : string)
    : gmap string listing * outcome :=
  match rows !! url with
  | None => (t, Gone)
  | Some r =>
      if negb (todo r) then (t, skipped)
      else
        match locked !! url with
        | Some l =>
            if bool_decide (state_of l = state_of r) then
              match swap url r l with
              | Some l' => (<[url := l']> t, done)
              | None => (t, Changed) (* never: [page_linked] *)
              end
            else (t, Changed)
        | None => (t, Changed)
        end
  end.

Fixpoint migrate_page (todo : listing → bool) (done skipped : outcome)
    (swap : string → listing → listing → option listing)
    (rows locked : gmap string listing) (urls : list string) (t : gmap string listing)
    : gmap string listing * list outcome :=
  match urls with
  | [] => (t, [])
  | url :: urls =>
      let '(t, o) := migrate_url todo done skipped swap rows locked t url in
      let '(t, os) := migrate_page todo done skipped swap rows locked urls t in
      (t, o :: os)
  end.

(** [_externalize]: [t] is the table when the rows are locked. *)
Definition _externalize (urls : list string) (rows locked t : gmap string listing) (s : St)
    : St * gmap string listing * list outcome :=
  let '(s, links) := put_values (page_values rows urls) s in
  match links with
  | None =>
      (s, t, map (λ url, match rows !! url with
                         | None => Gone
                         | Some r => if has_inline r then Unavailable else Referenced
                         end) urls)
  | Some links =>
      let '(t, os) :=
        migrate_page has_inline Externalized Referenced (λ _ r l, externalize_row links r l)
          rows locked urls t in
      (s, t, os)
  end.

Definition held (r : listing) : bool :=
  negb (bool_decide (li_description_ref r = None)) || negb (bool_decide (li_raw_ref r = None)).

(** Put the resolved values back inline. *)
Definition restore_row (values : gmap string (json * json)) (url : string) (r l : listing)
    : option listing :=
  v ← values !! url;
  d ← match li_description_ref r with
      | None => Some (description_of l)
      | Some _ => match v.1 with JStr d => Some (d, None) | _ => None end
      end;
  raw ← match li_raw_ref r with None => Some (raw_of l) | Some _ => Some (v.2, None) end;
  Some (set_payloads d raw l).

(** [_restore]: one cache over the page's held rows. *)
Definition _restore (urls : list string) (rows locked t : gmap string listing) (s : St)
    : gmap string listing * list outcome :=
  let held_rows := filter (λ url, match rows !! url with Some r => held r | None => false end = true) urls in
  match resolve (omap (λ url, rows !! url) held_rows) ∅ s with
  | None =>
      (t, map (λ url, match rows !! url with
                      | None => Gone
                      | Some r => if held r then Unavailable else Inline
                      end) urls)
  | Some vs =>
      migrate_page held Restored Inline (restore_row (list_to_map (zip held_rows vs)))
        rows locked urls t
  end.

End listings.
