(* ===== verification/ListingProps.v ===== *)
(** * A listing keeps its text and its raw record

    The table of inline values and references refines a table of values: moving a
    value in or out of object storage changes nothing a reader sees, and a pull
    changes exactly what it lists. *)

From S2P Require Import Prelude PyStr Sql Json Objects ObjectProps Listings.
From Stdlib Require Import Ascii.

Local Open Scope Z_scope.

(** ** The specification: a table of values *)

(** The description and the raw record last written for each url. *)
Abbreviation values := (gmap string (string * json)).

(** A pull lists a posting; an empty description says nothing. *)
Definition list_posting (a : values) (p : posting) : values :=
  <[po_url p :=
      ((if String.eqb (po_description p) "" then default ""%string (fst <$> a !! po_url p)
        else po_description p), po_raw p)]> a.

(** What happens to the table: a pull, a page moved either way, or an upload. *)
Inductive listing_op : Type :=
| Pull (postings : list posting)
| Move
| Upload.

Definition spec_step (o : listing_op) (a : values) : values :=
  match o with
  | Pull postings =>
      foldl (λ a e, list_posting a e.2) a
        (merge_sort by_url
           (map (λ p, (po_url p, p)) (filter (λ p, po_url p ≠ ""%string) postings)))
  | Move | Upload => a
  end.

(** ** The refinement relation *)

Section holds.
Context {St : Type} (c : client St) (sha256 : string → string) (bucket : string).

(** Same value, as far as its digest tells. *)
Definition same_value (v w : json) : Prop := _digest sha256 v = _digest sha256 w.

(** A field's columns read as [v]. *)
Definition reads (s : St) (inline : json) (ref : option reference) (v : json) : Prop :=
  match ref with
  | None => v = inline
  | Some r => digest_member c sha256 bucket r.2.1 r.2.2 r.1 s = Some v
  end.

Definition text_held (s : St) (x : string * option reference) (d : string) : Prop :=
  ∃ v, reads s (JStr x.1) x.2 v ∧ is_str v = true ∧ same_value v (JStr d).

Definition raw_held (s : St) (x : json * option reference) (w : json) : Prop :=
  ∃ v, reads s x.1 x.2 v ∧ is_dict v = true ∧ same_value v w.

Definition row_held (s : St) (r : listing) (x : string * json) : Prop :=
  text_held s (description_of r) x.1 ∧ raw_held s (raw_of r) x.2.

(** The row reads as some text and some record: what every row of the table does. *)
Definition readable (s : St) (r : listing) : Prop := ∃ x, row_held s r x.

Definition table_held (s : St) (t : gmap string listing) (a : values) : Prop :=
  ∀ url, match t !! url, a !! url with
         | Some r, Some x => row_held s r x
         | None, None => True
         | _, _ => False
         end.

(** One step of the program. A pull may have looked up its references in rows the
    table held earlier; a page may have been planned from rows long gone; only the
    rows a step locks are the table's now. *)
Inductive table_step : listing_op → St * gmap string listing → St * gmap string listing → Prop :=
| step_pull now hours postings rows t s :
    Forall (readable s) rows → Forall (λ p, is_dict (po_raw p) = true) postings →
    table_step (Pull postings) (s, t)
      (record_listings c sha256 bucket now hours postings rows t s)
| step_externalize urls rows locked t s :
    map_Forall (λ _, readable s) rows → locked ⊆ t →
    table_step Move (s, t) (let '(s', t', _) := _externalize c sha256 bucket urls rows locked t s in (s', t'))
| step_restore urls rows locked t s :
    locked ⊆ t →
    table_step Move (s, t) (s, fst (_restore c sha256 bucket urls rows locked t s))
| step_upload b k raw t s :
    table_step Upload (s, t) (fst (cl_put c b k raw s), t).
End holds.

(** A digest that tells texts from records, and one listed posting. *)
Definition demo_kind (x : string) : string :=
  of_chars ((match x with
             | String ch _ => if bool_decide (ch = quote) then "1"%char else "0"%char
             | EmptyString => "0"%char
             end) :: replicate 63 "0"%char).

Definition demo_posting : posting :=
  mkPosting "https://b.example/1" "Write proofs." (JObj [("id", JInt 1)])%string "b" None.

Definition demo_pulled : gmap (string * string) string * gmap string listing :=
  record_listings demo_client demo_kind "bucket" 0 24 [demo_posting] [] ∅ ∅.

(** ** Lemmas: values and links *)

Lemma alist_set_in {A} k (v : A) k' v' l : (k', v') ∈ alist_set k v l → (k', v') = (k, v) ∨ (k', v') ∈ l.
Proof.
  induction l as [|[k1 v1] l IH]; simpl.
  - intros H%list_elem_of_singleton. by left.
  - destruct (String.eqb_spec k1 k) as [->|].
    + intros [H|H]%elem_of_cons; [by left|by right; right].
    + intros [H|H]%elem_of_cons; [right; rewrite H; by left|].
      destruct (IH H) as [?|?]; [by left|by right; right].
Qed.

Lemma dict_from_in {A} k (v : A) l : (k, v) ∈ dict_from l → (k, v) ∈ l.
Proof.
  unfold dict_from.
  assert (∀ d, (k, v) ∈ foldl (λ d (p : string * A), alist_set p.1 p.2 d) d l → (k, v) ∈ d ∨ (k, v) ∈ l) as H.
  { induction l as [|[k1 v1] l IH]; intros d; simpl; [by left|]. intros Hin.
    destruct (IH _ Hin) as [[Heq|?]%alist_set_in|?]; [right; simpl in Heq; rewrite Heq; by left|by left|].
    right. by right. }
  intros Hin. destruct (H [] Hin) as [?%elem_of_nil|?]; done.
Qed.

Lemma bundle_step_elem {A} (size : A → Z) k item g x :
  g ∈ (bundle_step size k item).1 → x ∈ g → (∃ g', g' ∈ k.1 ∧ x ∈ g') ∨ x = item.
Proof.
  destruct k as [[|g0 gs] total]; simpl.
  - intros ->%list_elem_of_singleton ->%list_elem_of_singleton. by right.
  - destruct (_ <? _); simpl; (intros [->|Hg]%elem_of_cons Hx; [|left; exists g; split; [set_solver|done]]).
    + apply list_elem_of_singleton in Hx. by right.
    + apply elem_of_app in Hx as [Hx|Hx%list_elem_of_singleton]; [|by right].
      left. exists g0. split; [by left|done].
Qed.

Lemma bundle_groups_elem {A} (size : A → Z) items g x : g ∈ bundle_groups items size → x ∈ g → x ∈ items.
Proof.
  unfold bundle_groups. intros Hg%list_elem_of_In Hx. apply in_rev, list_elem_of_In in Hg.
  assert (∀ k, g ∈ (foldl (bundle_step size) k items).1 → (∃ g', g' ∈ k.1 ∧ x ∈ g') ∨ x ∈ items) as H.
  { clear Hg. induction items as [|item items IH]; intros k; simpl.
    - intros Hg. left. by exists g.
    - intros Hg. destruct (IH _ Hg) as [(g' & Hg' & Hx')|?]; [|right; by right].
      destruct (bundle_step_elem size k item g' x Hg' Hx') as [?| ->]; [by left|right; by left]. }
  destruct (H ([], 0) Hg) as [(g' & Hg' & _)|?]; [by apply elem_of_nil in Hg'|done].
Qed.

(** ** Lemmas: uploads *)

Section upload.
Context {St : Type} (c : client St) (sha256 : string → string) (bucket : string).
Context (Hdigest : ∀ x, is_digest (sha256 x) = true) (Hbucket : bucket ≠ ""%string) (Hkeeps : keeps c).

Abbreviation member := (digest_member c sha256 bucket).

Lemma grown_refl s : grown c s s.
Proof. by intros b k x. Qed.

Lemma grown_trans s1 s2 s3 : grown c s1 s2 → grown c s2 s3 → grown c s1 s3.
Proof. intros H1 H2 b k x Hx. by apply H2, H1. Qed.

Lemma put_bundle_grown g s s' refs : put_bundle c sha256 bucket g s = (s', refs) → grown c s s'.
Proof.
  unfold put_bundle. destruct (_ || _); [by intros [= <- <-]; apply grown_refl|].
  set (raw := encode_payload (JObj g)). pose proof (Hkeeps bucket (bundle_key (sha256 raw)) raw s) as Hk.
  destruct (cl_put c bucket (bundle_key (sha256 raw)) raw s) as [s1 up]. simpl in Hk.
  destruct (up && _); by intros [= <- <-].
Qed.

(** A value under its digest, readable through the link it was given. *)
Definition linked (s : St) (values : list (string * json)) (k : string) (l : link) : Prop :=
  ∃ v v', (k, v) ∈ values ∧ member l.1 l.2 k s = Some v' ∧ py_eq v' v = true.

Lemma linked_grown s s' values k l : grown c s s' → linked s values k l → linked s' values k l.
Proof.
  intros Hg (v & v' & Hin & Hm & He). exists v, v'. split; [done|]. split; [|done].
  by apply (digest_member_grown _ _ _ _ _ _ s).
Qed.

Lemma put_bundle_linked g s s' refs name r :
  Forall (λ p, p.1 = _digest sha256 p.2) g →
  put_bundle c sha256 bucket g s = (s', Some refs) → (name, r) ∈ refs →
  linked s' g name (bm_sha256 r, bm_size r).
Proof.
  intros Hnames Hput Hin. rewrite Forall_forall in Hnames.
  destruct (put_bundle_held _ _ _ Hdigest Hbucket _ _ _ _ Hput) as [Hheld ->].
  apply list_elem_of_fmap in Hin as (p & [= -> ->] & Hp). pose proof (Hnames p Hp) as Hname.
  rewrite Forall_forall in Hheld. destruct (Hheld p Hp) as (m & v & Hr & Hv & Hpy & Hd).
  exists p.2, v. split; [by destruct p|]. split; [|done].
  apply (digest_member_spec c sha256 bucket). split_and!.
  - apply Hdigest.
  - rewrite Hname. apply Hdigest.
  - apply len_of_nonneg.
  - exists m. split; [done|]. split; [done|]. by rewrite Hd, Hname.
Qed.

Lemma put_groups_linked groups s s' refs :
  Forall (Forall (λ p, p.1 = _digest sha256 p.2)) groups →
  put_groups c sha256 bucket groups s = (s', refs) →
  grown c s s' ∧ ∀ l name r, refs = Some l → (name, r) ∈ l →
    ∃ g, g ∈ groups ∧ linked s' g name (bm_sha256 r, bm_size r).
Proof.
  intros Hg. revert s s' refs. induction Hg as [|g groups Hnames _ IH]; intros s s' refs; simpl.
  - intros [= <- <-]. split; [apply grown_refl|]. by intros l name r [= <-] ?%elem_of_nil.
  - destruct (put_bundle c sha256 bucket g s) as [s1 r1] eqn:E1.
    destruct (put_groups c sha256 bucket groups s1) as [s2 r2] eqn:E2. intros [= <- <-].
    destruct (IH _ _ _ E2) as [Hg2 Hl2]. pose proof (put_bundle_grown _ _ _ _ E1) as Hg1.
    split; [by apply (grown_trans _ s1)|]. intros l name r Hl Hin.
    destruct r1 as [r1|]; [|done]. destruct r2 as [r2|]; [|done]. simpl in Hl. injection Hl as <-.
    apply elem_of_app in Hin as [Hin|Hin].
    + exists g. split; [by left|]. apply (linked_grown s1); [done|]. by apply (put_bundle_linked _ s _ r1).
    + destruct (Hl2 r2 name r eq_refl Hin) as (g' & Hg' & ?). exists g'. split; [by right|done].
Qed.

Lemma put_values_linked vs s s' links :
  Forall (λ p, p.1 = _digest sha256 p.2) vs →
  put_values c sha256 bucket vs s = (s', links) →
  grown c s s' ∧ ∀ ls k l, links = Some ls → (k, l) ∈ ls → linked s' vs k l.
Proof.
  intros Hvs. unfold put_values. set (groups := bundle_groups vs _).
  destruct (put_groups c sha256 bucket groups s) as [s1 refs] eqn:E. intros [= <- <-].
  assert (∀ g, g ∈ groups → ∀ p, p ∈ g → p ∈ vs) as Hsub
    by (intros g Hg p; apply (bundle_groups_elem _ _ _ _ Hg)).
  assert (Forall (Forall (λ p, p.1 = _digest sha256 p.2)) groups) as Hall.
  { rewrite Forall_forall in Hvs. apply Forall_forall. intros g Hg. apply Forall_forall. intros p Hp.
    apply Hvs, (Hsub g Hg p Hp). }
  destruct (put_groups_linked _ _ _ _ Hall E) as [Hgrown Hlinked]. split; [done|].
  intros ls k l Hls Hin. destruct refs as [refs|]; [|done]. simpl in Hls. injection Hls as <-.
  apply list_elem_of_fmap in Hin as ((name & r) & [= -> ->] & Hin). simpl.
  destruct (Hlinked refs name r eq_refl Hin) as (g & Hg & v & v' & Hv & ? & ?).
  exists v, v'. split; [by apply (Hsub g)|done].
Qed.
End upload.

(** ** Lemmas: sorting a mapped list *)

Section sort_map.
Context {A B : Type} (R : relation A) (S : relation B) (f : A → B).
Context `{∀ x y, Decision (R x y), ∀ x y, Decision (S x y)} (Hf : ∀ x y, R x y ↔ S (f x) (f y)).

Lemma list_merge_map l1 l2 :
  list_merge S (map f l1) (map f l2) = map f (list_merge R l1 l2).
Proof.
  revert l2. induction l1 as [|x1 l1 IH1]; intros l2; [by destruct l2|].
  induction l2 as [|x2 l2 IH2]; [done|]. simpl.
  destruct (decide (R x1 x2)) as [Hr|Hr], (decide (S (f x1) (f x2))) as [Hs|Hs];
    try (by exfalso; first [apply Hs, Hf, Hr|apply Hr, Hf, Hs]).
  - simpl. f_equal. exact (IH1 (x2 :: l2)).
  - simpl. f_equal. exact IH2.
Qed.

Lemma merge_stack_map st : merge_stack S (map (fmap (map f)) st) = map f (merge_stack R st).
Proof.
  induction st as [|[l|] st IH]; simpl; [done| |done]. rewrite IH. apply list_merge_map.
Qed.

Lemma merge_list_to_stack_map st l :
  merge_list_to_stack S (map (fmap (map f)) st) (map f l) = map (fmap (map f)) (merge_list_to_stack R st l).
Proof.
  revert l. induction st as [|[l'|] st IH]; intros l; simpl; [done| |done].
  f_equal. by rewrite list_merge_map, IH.
Qed.

Lemma merge_sort_map l : merge_sort S (map f l) = map f (merge_sort R l).
Proof.
  unfold merge_sort. change (@nil (option (list B))) with (map (fmap (M:=option) (map f)) []).
  generalize (@nil (option (list A))). induction l as [|x l IH]; intros st; simpl.
  - apply merge_stack_map.
  - rewrite <- IH. f_equal. apply (merge_list_to_stack_map st [x]).
Qed.
End sort_map.

(** ** Lemmas: the values columns hold *)

Section columns.
Context {St : Type} (c : client St) (sha256 : string → string) (bucket : string).
Context (Hdigest : ∀ x, is_digest (sha256 x) = true) (Hbucket : bucket ≠ ""%string) (Hkeeps : keeps c).
Context (Hapart : ∀ d l, _digest sha256 (JStr d) ≠ _digest sha256 (JObj l)).

Abbreviation member := (digest_member c sha256 bucket).
Abbreviation same := (same_value sha256).
Abbreviation text_held := (text_held c sha256 bucket).
Abbreviation raw_held := (raw_held c sha256 bucket).
Abbreviation row_held := (row_held c sha256 bucket).

Lemma member_digest o n k s v : member o n k s = Some v → _digest sha256 v = k.
Proof. intros (_ & _ & _ & m & _ & _ & ?)%digest_member_spec. done. Qed.

Lemma py_eq_kind v w : py_eq v w = true → is_str v = is_str w ∧ is_dict v = is_dict w.
Proof. unfold py_eq. intros H%bool_decide_eq_true_1. by destruct v, w. Qed.

Lemma py_eq_str v d : py_eq v (JStr d) = true → v = JStr d.
Proof. unfold py_eq. intros H%bool_decide_eq_true_1. destruct v; simpl in H; congruence. Qed.

(** A link some text or some record was stored under. *)
Definition good_link (s : St) (k : string) (l : link) : Prop :=
  ∃ v, member l.1 l.2 k s = Some v ∧ (is_str v = true ∨ is_dict v = true).

Lemma good_text s k l d : good_link s k l → k = _digest sha256 (JStr d) → text_held s (""%string, Some (k, l)) d.
Proof.
  intros (v & Hm & Hkind) ->. exists v. pose proof (member_digest _ _ _ _ _ Hm) as Hd.
  split; [done|]. split; [|done]. destruct Hkind as [?|Hdict]; [done|].
  destruct v; try done. by destruct (Hapart d l0).
Qed.

Lemma good_raw s k l w :
  good_link s k l → is_dict w = true → k = _digest sha256 w → raw_held s (JObj [], Some (k, l)) w.
Proof.
  intros (v & Hm & Hkind) Hw ->. exists v. pose proof (member_digest _ _ _ _ _ Hm) as Hd.
  split; [done|]. split; [|done]. destruct Hkind as [Hstr|?]; [|done].
  destruct v; try done. destruct w; try done. by destruct (Hapart s0 l0).
Qed.

Lemma linked_good s vs k l :
  Forall (λ p, is_str p.2 = true ∨ is_dict p.2 = true) vs → linked c sha256 bucket s vs k l → good_link s k l.
Proof.
  intros Hvs (v & v' & Hin & Hm & Hpy). exists v'. split; [done|].
  destruct (py_eq_kind _ _ Hpy) as [-> ->]. rewrite Forall_forall in Hvs. apply (Hvs _ Hin).
Qed.

Lemma good_link_grown s s' k l : grown c s s' → good_link s k l → good_link s' k l.
Proof. intros Hg (v & Hm & ?). exists v. split; [by apply (digest_member_grown _ _ _ _ _ _ s)|done]. Qed.

Lemma text_held_grown s s' x d : grown c s s' → text_held s x d → text_held s' x d.
Proof.
  intros Hg (v & Hr & ? & ?). exists v. split; [|done]. unfold reads in *. destruct x.2; [|done].
  by apply (digest_member_grown _ _ _ _ _ _ s).
Qed.

Lemma raw_held_grown s s' x d : grown c s s' → raw_held s x d → raw_held s' x d.
Proof.
  intros Hg (v & Hr & ? & ?). exists v. split; [|done]. unfold reads in *. destruct x.2; [|done].
  by apply (digest_member_grown _ _ _ _ _ _ s).
Qed.

Lemma table_held_grown s s' t a :
  grown c s s' → table_held c sha256 bucket s t a → table_held c sha256 bucket s' t a.
Proof.
  intros Hg Ht url. specialize (Ht url). destruct (t !! url), (a !! url); try done.
  destruct Ht. split; [by apply (text_held_grown s)|by apply (raw_held_grown s)].
Qed.

Lemma held_good s x v : reads c sha256 bucket s (JObj []) (Some x) v →
  is_str v = true ∨ is_dict v = true → good_link s x.1 x.2.
Proof. intros Hr Hk. by exists v. Qed.

Lemma known_good s rows k l :
  Forall (readable c sha256 bucket s) rows → (k, l) ∈ known_links rows → good_link s k l.
Proof.
  intros Hrows (r & Hr & Hin)%dict_from_in%elem_of_concat_map. rewrite Forall_forall in Hrows.
  destruct (Hrows r Hr) as (x & (v & Hv & Hvs & _) & (w & Hw & Hwd & _)).
  apply elem_of_app in Hin as [Hin|Hin].
  - unfold reads, description_of in Hv. simpl in Hv. destruct (li_description_ref r) as [y|];
      [|by apply elem_of_nil in Hin]. apply list_elem_of_singleton in Hin as <-. exists v. by split; [|left].
  - unfold reads, raw_of in Hw. simpl in Hw. destruct (li_raw_ref r) as [y|];
      [|by apply elem_of_nil in Hin]. apply list_elem_of_singleton in Hin as <-. exists w. by split; [|right].
Qed.

(** ** Lemmas: a pull *)

(** The description columns of a text, whichever way it is held. *)
Definition text_columns (d : string) (e : string * option reference) : Prop :=
  (d = ""%string ∧ e = (""%string, None)) ∨
  (d ≠ ""%string ∧ (e = (d, None) ∨ ∃ r, e = (""%string, Some r))).

Lemma columns_held s links d raw :
  (∀ k l, (k, l) ∈ links → good_link s k l) → is_dict raw = true →
  let '(e, f) := columns_of sha256 links d raw in
  text_columns d e ∧ text_held s e d ∧ raw_held s f raw.
Proof.
  intros Hlinks Hraw. unfold columns_of, digests_of. split_and!.
  - destruct (String.eqb_spec d ""); [by left|]. right. split; [done|].
    destruct (alist_get _ links); [right; by eexists|by left].
  - destruct (String.eqb_spec d "") as [->|]; [by exists (JStr "")|].
    destruct (alist_get _ links) as [l|] eqn:E; [|by exists (JStr d)].
    apply good_text; [by apply Hlinks, alist_get_elem|done].
  - destruct (alist_get (_digest sha256 raw) links) as [l|] eqn:E; [|by exists raw].
    apply good_raw; [by apply Hlinks, alist_get_elem|done|done].
Qed.

Lemma missing_values links listed :
  Forall (λ p, is_dict p.2 = true) listed →
  Forall (λ p, p.1 = _digest sha256 p.2) (missing_of sha256 links listed) ∧
  Forall (λ p, is_str p.2 = true ∨ is_dict p.2 = true) (missing_of sha256 links listed).
Proof.
  intros Hl. rewrite Forall_forall in Hl.
  assert (∀ p, p ∈ missing_of sha256 links listed →
    p.1 = _digest sha256 p.2 ∧ (is_str p.2 = true ∨ is_dict p.2 = true)) as H.
  { intros [k v] ([d raw] & Hin & Hp)%dict_from_in%elem_of_concat_map. specialize (Hl _ Hin).
    unfold digests_of in Hp. simpl in *. apply elem_of_app in Hp as [Hp|Hp].
    - destruct (String.eqb d ""); [by apply elem_of_nil in Hp|].
      destruct (alist_get _ links); [by apply elem_of_nil in Hp|].
      apply list_elem_of_singleton in Hp as [= -> ->]. by split; [|left].
    - destruct (alist_get _ links); [by apply elem_of_nil in Hp|].
      apply list_elem_of_singleton in Hp as [= -> ->]. by split; [|right]. }
  split; apply Forall_forall; intros p Hp; by apply H.
Qed.

Lemma reference_columns_held s rows listed s' cols :
  Forall (readable c sha256 bucket s) rows → Forall (λ p, is_dict p.2 = true) listed →
  reference_columns c sha256 bucket rows listed s = (s', cols) →
  grown c s s' ∧ ∃ links, cols = map (λ p, columns_of sha256 links p.1 p.2) listed ∧
    ∀ k l, (k, l) ∈ links → good_link s' k l.
Proof.
  intros Hrows Hl. unfold reference_columns.
  destruct (missing_values (known_links rows) listed Hl) as [Hm1 Hm2].
  destruct (missing_of sha256 (known_links rows) listed) as [|m ms] eqn:Em.
  - intros [= <- <-]. split; [apply grown_refl|]. eexists. split; [done|]. intros k l. by apply known_good.
  - destruct (put_values c sha256 bucket (m :: ms) s) as [s1 links] eqn:Ep.
    destruct (put_values_linked c sha256 bucket Hdigest Hbucket Hkeeps _ _ _ _ Hm1 Ep) as [Hg Hlinked].
    destruct links as [ls|]; intros [= <- <-]; (split; [done|]); eexists; (split; [done|]).
    + intros k l Hin%dict_from_in. apply elem_of_app in Hin as [Hin|Hin].
      * by apply (good_link_grown s), (known_good s rows).
      * apply (linked_good _ (m :: ms)); [done|]. by apply (Hlinked ls).
    + intros k l Hin. by apply (good_link_grown s), (known_good s rows).
Qed.

Lemma same_digest v w k : _digest sha256 v = k → _digest sha256 w = k → same v w.
Proof. unfold same_value. congruence. Qed.

Lemma kept_text_held s e l d old :
  text_columns d e → text_held s e d → text_held s l old → kept_description e l = true →
  text_held s l (if String.eqb d "" then old else d).
Proof.
  intros Hc He Hl Hk. destruct (String.eqb_spec d "") as [Hd|Hd]; [done|].
  destruct Hc as [[? _]|[_ Hc]]; [done|]. destruct Hl as (v & Hv & Hs & Hsame). exists v.
  split; [done|]. split; [done|]. destruct He as (w & Hw & _ & Hwd). destruct Hc as [->|[r ->]].
  - unfold kept_description in Hk. simpl in Hk. destruct l as [l1 [y|]]; simpl in *.
    + by apply String.eqb_eq in Hk.
    + rewrite (proj2 (String.eqb_neq _ _) Hd) in Hk. apply String.eqb_eq in Hk as <-.
      by rewrite Hv.
  - unfold kept_description in Hk. simpl in *. destruct l as [l1 [y|]]; simpl in *; [|done].
    apply String.eqb_eq in Hk. apply member_digest in Hw, Hv. unfold same_value in *. congruence.
Qed.

Lemma kept_raw_held s e l raw old :
  raw_held s e raw → raw_held s l old → kept_raw e l = true → raw_held s l raw.
Proof.
  intros (w & Hw & _ & Hwr) (v & Hv & Hd & _) Hk. exists v. split; [done|]. split; [done|].
  unfold kept_raw in Hk. destruct e as [e1 [x|]], l as [l1 [y|]]; simpl in *; try done.
  - apply String.eqb_eq in Hk. apply member_digest in Hw, Hv. unfold same_value in *. congruence.
  - apply bool_decide_eq_true_1 in Hk. subst. unfold same_value, _digest, encode_payload, dumps in *.
    by rewrite <- Hwr, Hk.
Qed.

(** The row an upsert leaves holds what the pull listed. *)
Lemma record_held s now hours e stored d raw old :
  text_columns d (description_of e) → text_held s (description_of e) d → raw_held s (raw_of e) raw →
  match stored with Some l => row_held s l old | None => old.1 = ""%string end →
  row_held s (record_listing now hours e stored) (if String.eqb d "" then old.1 else d, raw).
Proof.
  intros Hc He Hr Hl. unfold record_listing. destruct stored as [l|].
  - destruct Hl as [Hl1 Hl2].
    destruct (kept_description (description_of e) (description_of l)) eqn:Ed;
    destruct (kept_raw (raw_of e) (raw_of l)) eqn:Er; rewrite ?andb_true_r, ?andb_false_r;
    [destruct (_ && _)|..]; split; simpl;
      try (by apply (kept_text_held _ (description_of e))); try (by apply (kept_raw_held _ (raw_of e) _ _ old.2));
      try done.
    all: destruct (String.eqb_spec d "") as [->|]; [|done].
    all: exfalso; destruct Hc as [[_ Hc]|[? _]]; [|done]; rewrite Hc in Ed; unfold kept_description in Ed;
      simpl in Ed; by destruct (li_description_ref l).
  - split; simpl; [|done]. destruct (String.eqb_spec d "") as [->|]; [|done].
    by rewrite Hl.
Qed.

Definition url_le (p q : posting) : Prop := String.le (po_url p) (po_url q).
#[local] Instance url_le_dec p q : Decision (url_le p q).
Proof. unfold url_le. apply _. Defined.

Lemma pull_held now hours ps rows t s s' t' a :
  Forall (readable c sha256 bucket s) rows → Forall (λ p, is_dict (po_raw p) = true) ps →
  record_listings c sha256 bucket now hours ps rows t s = (s', t') →
  table_held c sha256 bucket s t a → table_held c sha256 bucket s' t' (spec_step (Pull ps) a).
Proof.
  intros Hrows Hps. unfold record_listings.
  set (listed := filter (λ p, po_url p ≠ ""%string) ps).
  destruct (reference_columns _ _ _ _ _ _) as [s1 cols] eqn:E. intros [= <- <-] Ht.
  assert (Forall (λ p, is_dict (po_raw p) = true) listed) as Hl.
  { apply Forall_forall. intros p [_ Hp]%list_elem_of_filter. rewrite Forall_forall in Hps. by apply Hps. }
  assert (Forall (λ p : string * json, is_dict p.2 = true)
    (map (λ p, (po_description p, po_raw p)) listed)) as Hl'.
  { apply Forall_forall. intros p (q & -> & Hq)%list_elem_of_fmap. rewrite Forall_forall in Hl. by apply Hl. }
  destruct (reference_columns_held _ _ _ _ _ Hrows Hl' E) as [Hg (links & -> & Hlinks)].
  apply (table_held_grown s s1) in Ht; [|done]. rewrite map_map.
  set (f := λ p : posting, incoming now p (columns_of sha256 links (po_description p) (po_raw p))).
  assert (∀ l : list posting, zip_with (incoming now) l
    (map (λ p, columns_of sha256 links (po_description p) (po_raw p)) l) = map f l) as Hzip.
  { induction l as [|p l IH]; [done|]. simpl. by rewrite IH. }
  cbn [fst snd]. rewrite Hzip. cbn [spec_step]. fold listed.
  rewrite (merge_sort_map url_le by_url f) by done.
  rewrite (merge_sort_map url_le by_url (λ p, (po_url p, p))) by done.
  assert (Forall (λ p, is_dict (po_raw p) = true) (merge_sort url_le listed)) as Hsorted
    by by rewrite merge_sort_Permutation.
  clear -Hsorted Ht Hlinks Hdigest Hapart. revert t a Ht.
  induction Hsorted as [|p l Hp _ IH]; intros t a Ht; [done|].
  cbn [map foldl]. apply IH. intros url.
  unfold upsert_listing, list_posting, f, incoming. cbn [fst snd].
  destruct (decide (po_url p = url)) as [<-|Hne]; [|rewrite !lookup_insert_ne by done; apply Ht].
  rewrite !lookup_insert_eq.
  pose proof (columns_held s1 links (po_description p) (po_raw p) Hlinks Hp) as Hc.
  destruct (columns_of sha256 links (po_description p) (po_raw p)) as [[e1 e2] [f1 f2]].
  destruct Hc as (Hc & He & Hf). specialize (Ht (po_url p)).
  pose proof (record_held s1 now hours (mkListing e1 e2 f1 f2 (po_facts p) (po_date_posted p) now)
    (t !! po_url p) (po_description p) (po_raw p) (default ""%string (fst <$> a !! po_url p),
      default JNull (snd <$> a !! po_url p)) Hc He Hf) as Hrow. cbn [fst] in Hrow. apply Hrow.
  destruct (t !! po_url p), (a !! po_url p) as [[]|]; done.
Qed.

(** ** Lemmas: a page *)

Lemma migrate_page_held todo fin skipped swap rows locked urls t s a :
  (∀ url r l l' x, rows !! url = Some r → todo r = true → state_of l = state_of r →
     swap url r l = Some l' → row_held s l x → row_held s l' x) →
  (∀ url l, locked !! url = Some l → ∃ x, a !! url = Some x ∧ row_held s l x) →
  table_held c sha256 bucket s t a →
  table_held c sha256 bucket s (fst (migrate_page todo fin skipped swap rows locked urls t)) a.
Proof.
  intros Hswap Hlocked. revert t. induction urls as [|url urls IH]; intros t Ht; [done|]. simpl.
  assert (table_held c sha256 bucket s (fst (migrate_url todo fin skipped swap rows locked t url)) a) as H1.
  { unfold migrate_url. destruct (rows !! url) as [r|] eqn:Er; [|done].
    destruct (todo r) eqn:Etodo; [|done]. simpl. destruct (locked !! url) as [l|] eqn:El; [|done].
    case_bool_decide as Hst; [|done]. destruct (swap url r l) as [l'|] eqn:Esw; [|done].
    destruct (Hlocked url l El) as (x & Hx & Hl). intros u. simpl.
    destruct (decide (url = u)) as [<-|Hne]; [|rewrite lookup_insert_ne by done; apply Ht].
    rewrite lookup_insert_eq, Hx. by apply (Hswap url r l). }
  destruct (migrate_url _ _ _ _ _ _ _ _) as [t1 o]. specialize (IH t1 H1).
  by destruct (migrate_page _ _ _ _ _ _ urls t1).
Qed.

Lemma locked_held s t a locked :
  locked ⊆ t → table_held c sha256 bucket s t a →
  ∀ url l, locked !! url = Some l → ∃ x, a !! url = Some x ∧ row_held s l x.
Proof.
  intros Hsub Ht url l Hl. specialize (Ht url). rewrite (lookup_weaken _ _ _ _ Hl Hsub) in Ht.
  destruct (a !! url) as [x|]; [by exists x|done].
Qed.

Lemma state_same l r : state_of l = state_of r →
  li_description l = li_description r ∧ li_description_ref l = li_description_ref r ∧
  same (li_raw l) (li_raw r) ∧ li_raw_ref l = li_raw_ref r.
Proof.
  unfold state_of. intros H.
  pose proof (f_equal (λ s, s.1.1) H) as Hd. pose proof (f_equal (λ s, s.1.2) H) as Hdr.
  pose proof (f_equal (λ s, s.2.1) H) as Hr. pose proof (f_equal (λ s, s.2.2) H) as Hrr.
  cbn [fst snd] in *. split_and!; [|done| |done].
  - assert (JStr (li_description l) = JStr (li_description r)) as [= ?]; [|done].
    apply (dumps_inj _ _ (ok_str _) (ok_str _)), Hd.
  - unfold same_value, _digest. by rewrite Hr.
Qed.

Lemma page_values_ok s rows urls :
  map_Forall (λ _, readable c sha256 bucket s) rows →
  Forall (λ p, p.1 = _digest sha256 p.2) (page_values sha256 rows urls) ∧
  Forall (λ p, is_str p.2 = true ∨ is_dict p.2 = true) (page_values sha256 rows urls).
Proof.
  intros Hrows.
  assert (∀ p, p ∈ page_values sha256 rows urls →
    p.1 = _digest sha256 p.2 ∧ (is_str p.2 = true ∨ is_dict p.2 = true)) as H.
  { intros [k v] (url & _ & Hin)%dict_from_in%elem_of_concat_map.
    destruct (rows !! url) as [r|] eqn:Er; [|by apply elem_of_nil in Hin].
    apply elem_of_app in Hin as [Hin|Hin].
    - destruct (inline_description r); [|by apply elem_of_nil in Hin].
      apply list_elem_of_singleton in Hin as [= -> ->]. by split; [|left].
    - unfold inline_raw in Hin. case_bool_decide as Hnone; [|by apply elem_of_nil in Hin].
      apply list_elem_of_singleton in Hin as [= -> ->]. split; [done|right].
      destruct (Hrows url r Er) as (x & _ & (w & Hw & Hd & _)). unfold reads, raw_of in Hw.
      simpl in Hw. rewrite Hnone in Hw. by subst. }
  split; apply Forall_forall; intros p Hp; by apply H.
Qed.

Lemma raw_held_same s x w w' : raw_held s x w → same w w' → raw_held s x w'.
Proof. intros (v & ? & ? & Hs) Hw. exists v. split_and!; [done..|]. by unfold same_value in *; rewrite Hs. Qed.

(** Swapping an inline value for a link it was stored under. *)
Lemma swapped_text s l d k :
  text_held s (description_of l) d → li_description_ref l = None →
  good_link s (_digest sha256 (JStr (li_description l))) k →
  text_held s (""%string, Some (_digest sha256 (JStr (li_description l)), k)) d.
Proof.
  intros (v & Hv & _ & Hs) Hn Hk. unfold reads, description_of in Hv. simpl in Hv. rewrite Hn in Hv. subst v.
  apply good_text; [done|exact Hs].
Qed.

Lemma swapped_raw s l w k :
  raw_held s (raw_of l) w → li_raw_ref l = None → good_link s (_digest sha256 (li_raw l)) k →
  raw_held s (JObj [], Some (_digest sha256 (li_raw l), k)) w.
Proof.
  intros (v & Hv & Hd & Hs) Hn Hk. unfold reads, raw_of in Hv. simpl in Hv. rewrite Hn in Hv. subst v.
  by apply (raw_held_same _ _ (li_raw l)); [apply good_raw|].
Qed.

Lemma externalize_row_held s ls r l l' x :
  (∀ k y, alist_get k ls = Some y → good_link s k y) → state_of l = state_of r →
  externalize_row sha256 ls r l = Some l' → row_held s l x → row_held s l' x.
Proof.
  intros Hgood Hst Hsw [Htx Hrx]. destruct (state_same l r Hst) as (Hd & Hdr & Hraw & Hrr).
  unfold externalize_row in Hsw.
  apply bind_Some in Hsw as (d & Hed & Hsw). apply bind_Some in Hsw as (raw & Her & [= <-]).
  split; simpl.
  - unfold description_of. simpl. destruct (inline_description r) eqn:Ei; [|by injection Hed as <-].
    apply bind_Some in Hed as (y & Hy & [= <-]). unfold inline_description in Ei. breflect. rewrite <- Hd in *.
    apply swapped_text; [done|by rewrite Hdr|by apply Hgood].
  - unfold raw_of. simpl. destruct (inline_raw r) eqn:Ei; [|by injection Her as <-].
    apply bind_Some in Her as (y & Hy & [= <-]). unfold inline_raw in Ei. breflect.
    unfold same_value in Hraw. rewrite <- Hraw in *.
    apply swapped_raw; [done|by rewrite Hrr|by apply Hgood].
Qed.

Lemma externalize_held urls rows locked t s a :
  map_Forall (λ _, readable c sha256 bucket s) rows → locked ⊆ t →
  table_held c sha256 bucket s t a →
  let '(s', t', _) := _externalize c sha256 bucket urls rows locked t s in
  table_held c sha256 bucket s' t' a.
Proof.
  intros Hrows Hsub Ht. unfold _externalize.
  destruct (page_values_ok s rows urls Hrows) as [Hv1 Hv2].
  destruct (put_values c sha256 bucket (page_values sha256 rows urls) s) as [s1 links] eqn:Ep.
  destruct (put_values_linked c sha256 bucket Hdigest Hbucket Hkeeps _ _ _ _ Hv1 Ep) as [Hg Hlinked].
  apply (table_held_grown s s1) in Ht; [|done].
  destruct links as [ls|]; [|done].
  assert (∀ k l, alist_get k ls = Some l → good_link s1 k l) as Hgood.
  { intros k l Hl%alist_get_elem. apply (linked_good _ (page_values sha256 rows urls)); [done|].
    by apply (Hlinked ls). }
  match goal with |- context [migrate_page ?a ?b ?c ?d ?e ?f ?g ?h] =>
    destruct (migrate_page a b c d e f g h) as [t1 os] eqn:Em end.
  replace t1 with (t1, os).1 by done. rewrite <- Em.
  apply migrate_page_held; [|by apply (locked_held s1 t)|done].
  intros url r l l' x _ _ Hst Hsw. by apply (externalize_row_held _ ls r).
Qed.

(** Every inline value of a page has its link: the swap of [_externalize] is
    always defined. *)
Lemma dict_from_keys {A} k (l : list (string * A)) : k ∈ l.*1 → k ∈ (dict_from l).*1.
Proof.
  unfold dict_from.
  assert (∀ d, k ∈ d.*1 ∨ k ∈ l.*1 → k ∈ (foldl (λ d (p : string * A), alist_set p.1 p.2 d) d l).*1) as H.
  { induction l as [|[k1 v1] l IH]; intros d; csimpl; [by intros [?|?%elem_of_nil]|].
    intros [Hd|[->|Hl]%elem_of_cons]; apply IH; [left; apply alist_set_keys; by right|
      left; apply alist_set_keys; by left|by right]. }
  intros Hk. apply H. by right.
Qed.

Lemma alist_get_keys {A} k (l : list (string * A)) : k ∈ l.*1 → is_Some (alist_get k l).
Proof.
  induction l as [|[k1 v1] l IH]; csimpl; [by intros ?%elem_of_nil|]. intros [->|Hk]%elem_of_cons.
  - rewrite String.eqb_refl. by eexists.
  - destruct (String.eqb k1 k); [by eexists|by apply IH].
Qed.

Lemma bundle_groups_concat {A} (size : A → Z) items : concat (bundle_groups items size) = items.
Proof.
  unfold bundle_groups.
  assert (∀ k, concat (rev (foldl (bundle_step size) k items).1) = (concat (rev k.1) ++ items)%list) as H.
  { induction items as [|x items IH]; intros k; simpl; [by rewrite List.app_nil_r|]. rewrite IH.
    destruct k as [[|g gs] total]; simpl; [done|].
    destruct (_ <? _); simpl; rewrite !concat_app; simpl; rewrite ?List.app_nil_r, <- ?app_assoc; done. }
  by rewrite H.
Qed.

Lemma put_groups_keys groups s s' refs :
  put_groups c sha256 bucket groups s = (s', Some refs) → refs.*1 = (concat groups).*1.
Proof.
  revert s s' refs. induction groups as [|g groups IH]; intros s s' refs; simpl; [by intros [= <- <-]|].
  destruct (put_bundle c sha256 bucket g s) as [s1 r1] eqn:E1.
  destruct (put_groups c sha256 bucket groups s1) as [s2 r2] eqn:E2. intros [= <- H].
  destruct r1 as [r1|]; [|done]. destruct r2 as [r2|]; [|done]. injection H as <-.
  destruct (put_bundle_held _ _ _ Hdigest Hbucket _ _ _ _ E1) as [_ ->].
  rewrite !fmap_app, (IH _ _ _ E2). f_equal.
  generalize (member_for sha256 bucket g) as h. intros h. clear. induction g as [|p g IH]; [done|].
  csimpl. by rewrite IH.
Qed.

Lemma page_linked rows urls s s' ls url r l :
  put_values c sha256 bucket (page_values sha256 rows urls) s = (s', Some ls) →
  rows !! url = Some r → url ∈ urls → is_Some (externalize_row sha256 ls r l).
Proof.
  unfold put_values. destruct (put_groups _ _ _ _ _) as [s1 [refs|]] eqn:E; [|done].
  intros [= <- <-] Hr Hurl. apply put_groups_keys in E. rewrite bundle_groups_concat in E.
  assert (∀ k, k ∈ (page_values sha256 rows urls).*1 →
    is_Some (alist_get k (map (λ p, (p.1, (bm_sha256 p.2, bm_size p.2))) refs))) as Hlink.
  { intros k Hk. apply alist_get_keys. rewrite <- E in Hk.
    apply list_elem_of_fmap in Hk as (p & -> & Hp). apply list_elem_of_fmap.
    eexists. split; [|apply list_elem_of_fmap; by exists p]. done. }
  assert (∀ p, p ∈ ((if inline_description r
      then [(_digest sha256 (JStr (li_description r)), JStr (li_description r))] else []) ++
      (if inline_raw r then [(_digest sha256 (li_raw r), li_raw r)] else []))%list →
    p.1 ∈ (page_values sha256 rows urls).*1) as Hin.
  { intros p Hp. apply dict_from_keys, list_elem_of_fmap. exists p. split; [done|].
    apply elem_of_concat_map. exists url. by rewrite Hr. }
  assert (∀ k v, (k, v) ∈ ((if inline_description r
      then [(_digest sha256 (JStr (li_description r)), JStr (li_description r))] else []) ++
      (if inline_raw r then [(_digest sha256 (li_raw r), li_raw r)] else []))%list →
    is_Some (alist_get k (map (λ p, (p.1, (bm_sha256 p.2, bm_size p.2))) refs))) as Hget
    by (intros k v Hp; exact (Hlink k (Hin (k, v) Hp))).
  unfold externalize_row. destruct (inline_description r).
  - destruct (Hget _ _ ltac:(by left)) as [y ->]. cbn [mbind option_bind].
    destruct (inline_raw r); [|by eexists].
    destruct (Hget _ _ ltac:(by right; left)) as [z ->]. by eexists.
  - cbn [mbind option_bind]. destruct (inline_raw r); [|by eexists].
    destruct (Hget _ _ ltac:(by left)) as [z ->]. by eexists.
Qed.

(** ** Lemmas: restoring *)

(** What a row reads as, without a cache. *)
Definition row_reads (s : St) (r : listing) (vw : json * json) : Prop :=
  reads c sha256 bucket s (JStr (li_description r)) (li_description_ref r) vw.1 ∧
  reads c sha256 bucket s (li_raw r) (li_raw_ref r) vw.2.

Lemma resolve_ref_reads s r ok cache cache' v inline :
  coherent c sha256 bucket s cache → resolve_ref c sha256 bucket r ok cache s = Some (cache', v) →
  reads c sha256 bucket s inline (Some r) v ∧ coherent c sha256 bucket s cache'.
Proof.
  intros Hcoh. unfold resolve_ref. pose proof (digest_member_cached c sha256 bucket r.2.1 r.2.2 r.1 cache s Hcoh) as H.
  destruct (get_digest_member _ _ _ _ _ _ _ _) as [[cache1 w]|]; [|done]. cbn [mbind option_bind].
  destruct (ok w); [|done]. intros [= <- <-]. done.
Qed.

Lemma resolve_row_reads s r cache cache' vw :
  coherent c sha256 bucket s cache → resolve_row c sha256 bucket r cache s = Some (cache', vw) →
  row_reads s r vw ∧ coherent c sha256 bucket s cache'.
Proof.
  intros Hcoh H. unfold resolve_row in H.
  apply bind_Some in H as ([cache1 d] & Hd & H). apply bind_Some in H as ([cache2 w] & Hw & [= <- <-]).
  assert (reads c sha256 bucket s (JStr (li_description r)) (li_description_ref r) d ∧
    coherent c sha256 bucket s cache1) as [H1 Hcoh1].
  { destruct (li_description_ref r); [by apply (resolve_ref_reads _ _ _ cache) with (1 := Hcoh) (2 := Hd)|by simplify_eq]. }
  assert (reads c sha256 bucket s (li_raw r) (li_raw_ref r) w ∧ coherent c sha256 bucket s cache2) as [H2 Hcoh2].
  { destruct (li_raw_ref r); [by apply (resolve_ref_reads _ _ _ cache1) with (1 := Hcoh1) (2 := Hw)|by simplify_eq]. }
  done.
Qed.

Lemma resolve_reads s (rows : gmap string listing) urls cache vs :
  coherent c sha256 bucket s cache → Forall (λ url, is_Some (rows !! url)) urls →
  resolve c sha256 bucket (omap (λ url, rows !! url) urls) cache s = Some vs →
  ∀ url vw, (url, vw) ∈ zip urls vs → ∃ r, rows !! url = Some r ∧ row_reads s r vw.
Proof.
  intros Hcoh Hall. revert cache vs Hcoh. induction Hall as [|url urls [r Hr] _ IH]; intros cache vs Hcoh H u vw.
  { by intros ?%elem_of_nil. }
  csimpl in H. rewrite Hr in H. cbn [resolve] in H.
  apply bind_Some in H as ([cache1 v] & Hv & H). apply bind_Some in H as (vs' & Hvs & [= <-]).
  destruct (resolve_row_reads _ _ _ _ _ Hcoh Hv) as [Hreads Hcoh1].
  simpl. intros [[= -> ->]|Hin]%elem_of_cons; [by exists r|by apply (IH cache1 vs')].
Qed.

Lemma restore_row_held s values url r l l' x :
  (∀ vw, values !! url = Some vw → row_reads s r vw) → state_of l = state_of r →
  restore_row values url r l = Some l' → row_held s l x → row_held s l' x.
Proof.
  intros Hvals Hst H [(v & Hv & Hvs & Hvd) (w & Hw & Hwd & Hww)].
  destruct (state_same l r Hst) as (Hd & Hdr & _ & Hrr).
  unfold restore_row in H. apply bind_Some in H as (vw & Hvw & H). destruct (Hvals vw Hvw) as [H1 H2].
  apply bind_Some in H as (d & Hed & H). apply bind_Some in H as (raw & Her & [= <-]).
  unfold description_of, raw_of in Hv, Hw. simpl in Hv, Hw. split; simpl.
  - unfold description_of. simpl. destruct (li_description_ref r) as [y|] eqn:E.
    + rewrite Hdr in Hv. unfold reads in Hv, H1. rewrite Hv in H1. injection H1 as H1. rewrite <- H1 in Hed.
      destruct v as [| | |text| |]; try done. injection Hed as <-. by exists (JStr text).
    + injection Hed as <-. by exists v.
  - unfold raw_of. simpl. destruct (li_raw_ref r) as [y|] eqn:E.
    + rewrite Hrr in Hw. unfold reads in Hw, H2. rewrite Hw in H2. injection H2 as H2. rewrite <- H2 in Her.
      injection Her as <-. by exists w.
    + injection Her as <-. by exists w.
Qed.

Lemma restore_held urls rows locked t s a :
  locked ⊆ t → table_held c sha256 bucket s t a →
  table_held c sha256 bucket s (fst (_restore c sha256 bucket urls rows locked t s)) a.
Proof.
  intros Hsub Ht. unfold _restore. set (held_rows := filter _ urls).
  destruct (resolve _ _ _ _ _ _) as [vs|] eqn:E; [|done].
  apply migrate_page_held; [|by apply (locked_held s t)|done].
  intros url r l l' x Hr _ Hst Hsw. apply (restore_row_held s (list_to_map (zip held_rows vs)) url r); [|done|done].
  intros vw Hvw. apply elem_of_list_to_map_2 in Hvw.
  assert (Forall (λ url, is_Some (rows !! url)) held_rows) as Hall.
  { apply Forall_forall. intros u [Hu _]%list_elem_of_filter. by destruct (rows !! u). }
  destruct (resolve_reads s rows held_rows ∅ vs (coherent_empty c sha256 bucket s) Hall E url vw Hvw)
    as (r' & Hr' & ?). by simplify_eq.
Qed.

(** What a row holds is what [resolve] reads. *)
Lemma held_resolves s r x : row_held s r x →
  ∃ cache v w, resolve_row c sha256 bucket r ∅ s = Some (cache, (v, w)) ∧ same v (JStr x.1) ∧ same w x.2.
Proof.
  intros [(v & Hv & Hvs & Hvd) (w & Hw & Hwd & Hww)]. unfold reads, description_of, raw_of in Hv, Hw.
  simpl in Hv, Hw.
  assert (∀ cache ref ok u, coherent c sha256 bucket s cache → ok u = true →
    member ref.2.1 ref.2.2 ref.1 s = Some u →
    ∃ cache', resolve_ref c sha256 bucket ref ok cache s = Some (cache', u) ∧
      coherent c sha256 bucket s cache') as Hone.
  { intros cache ref ok u Hcoh Hok Hu. unfold resolve_ref.
    pose proof (digest_member_cached c sha256 bucket ref.2.1 ref.2.2 ref.1 cache s Hcoh) as H.
    destruct (get_digest_member _ _ _ _ _ _ _ _) as [[cache1 u']|]; [|congruence].
    destruct H as [Hu' Hcoh']. rewrite Hu in Hu'. injection Hu' as <-. exists cache1.
    cbn [mbind option_bind]. by rewrite Hok. }
  assert (∃ cache, match li_description_ref r with
      | None => Some (∅, JStr (li_description r))
      | Some ref => resolve_ref c sha256 bucket ref is_str ∅ s
      end = Some (cache, v) ∧ coherent c sha256 bucket s cache) as (cache1 & E1 & Hcoh1).
  { destruct (li_description_ref r); [apply Hone; [apply coherent_empty|done|done]|].
    subst v. eexists. split; [done|apply coherent_empty]. }
  assert (∃ cache, match li_raw_ref r with
      | None => Some (cache1, li_raw r)
      | Some ref => resolve_ref c sha256 bucket ref is_dict cache1 s
      end = Some (cache, w)) as (cache2 & E2).
  { destruct (li_raw_ref r) as [ref|]; [destruct (Hone cache1 ref is_dict w) as (? & ? & _); by eauto|].
    subst w. by eexists. }
  exists cache2, v, w. split; [|done]. unfold resolve_row. rewrite E1. cbn [mbind option_bind]. by rewrite E2.
Qed.
End columns.

(** ** Properties *)

(** C29: the listings table, whose values are inline or behind references, refines
    a table of plain values. Whatever pulls, migrations either way and uploads
    run, over rows read long before, every url reads as the description and raw
    record last listed for it, an empty description keeping the one before. Values
    are told apart by their digests, an uploaded object is not changed by later
    uploads, and no text shares a digest with a record. *)
Theorem listings_refine_values {St} (c : client St) sha256 bucket o st st' a :
  (∀ x, is_digest (sha256 x) = true) → bucket ≠ ""%string → keeps c →
  (∀ d l, _digest sha256 (JStr d) ≠ _digest sha256 (JObj l)) →
  table_step c sha256 bucket o st st' →
  table_held c sha256 bucket st.1 st.2 a →
  table_held c sha256 bucket st'.1 st'.2 (spec_step o a) ∧
  ∀ url x, spec_step o a !! url = Some x → ∃ r cache v w,
    st'.2 !! url = Some r ∧ resolve_row c sha256 bucket r ∅ st'.1 = Some (cache, (v, w)) ∧
    same_value sha256 v (JStr x.1) ∧ same_value sha256 w x.2.
Proof.
  intros Hdigest Hbucket Hkeeps Hapart Hstep Ht.
  assert (table_held c sha256 bucket st'.1 st'.2 (spec_step o a)) as Hheld.
  2: { split; [done|]. intros url x Hx. specialize (Hheld url). rewrite Hx in Hheld.
       destruct (st'.2 !! url) as [r|]; [|done].
       destruct (held_resolves c sha256 bucket _ _ _ Hheld) as (cache & v & w & ? & ? & ?).
       by exists r, cache, v, w. }
  destruct Hstep; simpl in *.
  - destruct (record_listings _ _ _ _ _ _ _ _ _) as [s' t'] eqn:E.
    by apply (pull_held c sha256 bucket Hdigest Hbucket Hkeeps Hapart now hours postings rows t s).
  - pose proof (externalize_held c sha256 bucket Hdigest Hbucket Hkeeps Hapart urls rows locked t s a) as He.
    destruct (_externalize _ _ _ _ _ _ _ _) as [[s' t'] os]. by apply He.
  - by apply restore_held.
  - by apply (table_held_grown c sha256 bucket s), Ht.
Qed.

Lemma listings_refine_values_witness :
  table_held demo_client demo_kind "bucket" demo_pulled.1 demo_pulled.2
    (spec_step (Pull [demo_posting]) ∅) ∧
  ∀ url x, spec_step (Pull [demo_posting]) ∅ !! url = Some x → ∃ r cache v w,
    demo_pulled.2 !! url = Some r ∧
    resolve_row demo_client demo_kind "bucket" r ∅ demo_pulled.1 = Some (cache, (v, w)) ∧
    same_value demo_kind v (JStr x.1) ∧ same_value demo_kind w x.2.
Proof.
  apply (listings_refine_values demo_client demo_kind "bucket" (Pull [demo_posting]) (∅, ∅) demo_pulled ∅).
  - intros x. by destruct x as [|ch x]; [|unfold demo_kind; destruct (bool_decide _)].
  - done.
  - intros b k raw s b' k' x Hx. simpl in *. destruct (s !! (b, k)) eqn:E; [done|].
    rewrite lookup_insert_ne; [done|]. intros [= <- <-]. by rewrite Hx in E.
  - intros d l. by vm_compute.
  - apply step_pull; [done|]. by constructor.
  - intros url. by rewrite !lookup_empty.
Defined.
