(* ===== verification/Mail.v ===== *)
(** * Mail: messages, events and matches ([api.mail.store], [api.mail.events],
    [api.mail.match_decision], [api.mail.match.record], [api.mail.current])

    The message table, its two append-only logs, and the pointers that name the
    row in force in each. Ids are the identity columns' values: a statement is
    given the fresh id it draws, because two appends may commit in either
    order. Times are microseconds. *)

From S2P Require Import Prelude PyStr Sql.

Local Open Scope string_scope.
Local Open Scope Z_scope.

(** ** Rows *)

Record ImportedMessage : Type := mkImported {
  im_provider_message_id : string;
  im_source : string;
  im_provider_thread_id : option string;
  im_thread_topic : option string;
  im_from_email : option string;
  im_from_name : option string;
  im_to_emails : list string;
  im_subject : option string;
  im_sent_at : option Z;
  im_body_text : option string;
  im_body_html : option string;
  im_headers : option jobject;
}.

(** [email_messages]. *)
Record message : Type := mkMessage {
  ms_user_id : Z;
  ms_imported : ImportedMessage;
  ms_prefilter_hit : bool;
  ms_prefilter_reason : string;
  ms_current_event_id : option Z;
  ms_current_match_id : option Z;
}.

(** [email_events]; the members of [detail] the pipeline reads. *)
Record event : Type := mkEvent {
  ev_message_id : Z;
  ev_kind : string;
  ev_confidence : option string;
  ev_occurred_at : option Z;
  ev_deadline_at : option Z;
  ev_deadline_inferred : bool;
  ev_company : option string;
  ev_role_title : option string;
  ev_model : option string;
  ev_actor_user_id : option Z;
  ev_created_at : Z;
}.

(** [application_matches]. *)
Record match_row : Type := mkMatch {
  am_message_id : Z;
  am_application_id : option Z;
  am_method : string;
  am_confidence : option string;
  am_rationale : option string;
  am_actor_user_id : option Z;
  am_created_at : Z;
}.

Record application : Type := mkApplication {
  ap_user_id : Z;
  ap_job_id : option Z;
  ap_company_name : option string;
  ap_title : option string;
  ap_source_provenance : string;
  ap_applied_at : option Z;
  ap_dismissed_at : option Z;
  ap_created_at : Z;
}.

(** [event_answers], oldest first. *)
Record answer_row : Type := mkAnswer {
  an_event_id : Z;
  an_question : string;
  an_answer : string;
  an_actor_user_id : option Z;
  an_note : option string;
  an_created_at : Z;
}.

(** The mail tables, and [user_jobs.status] by (user id, job id). *)
Record mail : Type := mkMail {
  ml_messages : gmap Z message;
  ml_events : gmap Z event;
  ml_matches : gmap Z match_row;
  ml_applications : gmap Z application;
  ml_answers : list answer_row;
  ml_board : gmap (Z * Z) string;
}.

Definition with_messages (m : gmap Z message) (s : mail) : mail :=
  mkMail m (ml_events s) (ml_matches s) (ml_applications s) (ml_answers s) (ml_board s).
Definition with_events (m : gmap Z event) (s : mail) : mail :=
  mkMail (ml_messages s) m (ml_matches s) (ml_applications s) (ml_answers s) (ml_board s).
Definition with_matches (m : gmap Z match_row) (s : mail) : mail :=
  mkMail (ml_messages s) (ml_events s) m (ml_applications s) (ml_answers s) (ml_board s).
Definition with_applications (m : gmap Z application) (s : mail) : mail :=
  mkMail (ml_messages s) (ml_events s) (ml_matches s) m (ml_answers s) (ml_board s).

Definition point_event (p : option Z) (r : message) : message :=
  mkMessage (ms_user_id r) (ms_imported r) (ms_prefilter_hit r) (ms_prefilter_reason r) p
    (ms_current_match_id r).
Definition point_match (p : option Z) (r : message) : message :=
  mkMessage (ms_user_id r) (ms_imported r) (ms_prefilter_hit r) (ms_prefilter_reason r)
    (ms_current_event_id r) p.

(** [GREATEST], which ignores NULL. *)
Definition greatest (a b : option Z) : option Z :=
  match a, b with
  | Some x, Some y => Some (Z.max x y)
  | Some x, None => Some x
  | None, y => y
  end.

(** ** Storing imported messages *)

(** [ON CONFLICT (user_id, provider_message_id) DO UPDATE]: the new copy may
    improve body, markup, subject, date and headers; thread, topic and sender name
    are only filled in; the rest is the first import's. *)
Definition improve (old new : ImportedMessage) : ImportedMessage :=
  mkImported (im_provider_message_id old) (im_source old)
    (coalesce (im_provider_thread_id old) (im_provider_thread_id new))
    (coalesce (im_thread_topic old) (im_thread_topic new))
    (im_from_email old) (coalesce (im_from_name old) (im_from_name new)) (im_to_emails old)
    (coalesce (im_subject new) (im_subject old)) (coalesce (im_sent_at new) (im_sent_at old))
    (coalesce (im_body_text new) (im_body_text old)) (coalesce (im_body_html new) (im_body_html old))
    (coalesce (im_headers new) (im_headers old)).

Definition same_message (user_id : Z) (pid : string) (r : message) : bool :=
  (ms_user_id r =? user_id) && String.eqb (im_provider_message_id (ms_imported r)) pid.

(** An empty header dict is stored as NULL. *)
Definition as_stored (m : ImportedMessage) : ImportedMessage :=
  mkImported (im_provider_message_id m) (im_source m) (im_provider_thread_id m) (im_thread_topic m)
    (im_from_email m) (im_from_name m) (im_to_emails m) (im_subject m) (im_sent_at m)
    (im_body_text m) (im_body_html m)
    (match im_headers m with
     | Some h => if bool_decide (h = ∅) then None else Some h
     | None => None
     end).

Definition fresh_id {A} (m : gmap Z A) : Z := 1 + foldr Z.max 0 (map fst (map_to_list m)).

Section store.
(** [looks_job_related], the prefilter over sender, subject and body. *)
Context (looks_job_related : option string → option string → option string → bool * string).

Definition store_one (user_id : Z) (t : gmap Z message) (m : ImportedMessage) : gmap Z message :=
  let '(hit, reason) := looks_job_related (im_from_email m) (im_subject m) (im_body_text m) in
  let m := as_stored m in
  match ids_where (λ _, same_message user_id (im_provider_message_id m)) t with
  | [] => <[fresh_id t := mkMessage user_id m hit reason None None]> t
  | _ =>
      update_where (λ _, same_message user_id (im_provider_message_id m))
        (λ r, mkMessage (ms_user_id r) (improve (ms_imported r) m) hit reason
                (ms_current_event_id r) (ms_current_match_id r)) t
  end.

(** The chunks are statements of one loop: the rows end the same. *)
Definition store_messages (user_id : Z) (ms : list ImportedMessage) (t : gmap Z message)
    : gmap Z message * Z :=
  (foldl (store_one user_id) t ms, Z.of_nat (length ms)).
End store.

(** ** The logs and their pointers *)

(** [events.append]: the row and the pointer in one statement. *)
Definition append_event (id : Z) (e : event) (s : mail) : mail :=
  with_messages
    (alter (λ r, point_event (greatest (ms_current_event_id r) (Some id)) r) (ev_message_id e)
       (ml_messages s))
    (with_events (<[id := e]> (ml_events s)) s).

Definition append_match (id : Z) (a : match_row) (s : mail) : mail :=
  with_messages
    (alter (λ r, point_match (greatest (ms_current_match_id r) (Some id)) r) (am_message_id a)
       (ml_messages s))
    (with_matches (<[id := a]> (ml_matches s)) s).

(** [max(id) ... WHERE message_id = m.id]. *)
Definition newest {A} (message_of : A → Z) (mid : Z) (log : gmap Z A) : option Z :=
  last (ids_where (λ _ r, message_of r =? mid) log).

(** [current.NEWEST_IDS] for one message. *)
Definition NEWEST_IDS (mid : Z) (s : mail) : option Z * option Z :=
  (newest ev_message_id mid (ml_events s), newest am_message_id mid (ml_matches s)).

Definition stale_pointer (s : mail) (mid : Z) (r : message) : bool :=
  negb (bool_decide ((ms_current_event_id r, ms_current_match_id r) = NEWEST_IDS mid s)).

Definition stale_pointers (s : mail) : Z := Z.of_nat (count_where (stale_pointer s) (ml_messages s)).

(** [pointers.fill_batch] over the messages of one chunk. The newest ids are those
    of the statement's snapshot [seen]; the rows it updates may have moved on. *)
Definition fill_batch (chunk : list Z) (seen s : mail) : mail :=
  with_messages
    (map_imap (λ mid r, Some
       (let n := NEWEST_IDS mid seen in
        if mem mid chunk &&
           negb (bool_decide ((ms_current_event_id r, ms_current_match_id r) = n))
        then point_match (greatest (ms_current_match_id r) n.2)
               (point_event (greatest (ms_current_event_id r) n.1) r)
        else r)) (ml_messages s)) s.

(** ** Decisions *)

Definition EXACT_LINK : string := "exact_link".
Definition ATS_COMPANY : string := "ats_company".
Definition COMPANY_TITLE : string := "company_title".
Definition ADJUDICATED : string := "adjudicated".
Definition DERIVED : string := "derived".
Definition MANUAL : string := "manual".
Definition UNMATCHED : string := "unmatched".
Definition NOT_AN_APPLICATION : string := "not_an_application".
Definition DETACHED : string := "detached".
Definition HUMAN_METHODS : list string := [MANUAL; DETACHED].
Definition _NULL_METHODS : list string := [UNMATCHED; NOT_AN_APPLICATION; DETACHED; MANUAL].
Definition _ATTACHED_FORBIDDEN_METHODS : list string := [UNMATCHED; NOT_AN_APPLICATION; DETACHED].

Record MatchDecision : Type := mkDecision {
  md_application_id : option Z;
  md_method : string;
  md_confidence : option string;
  md_rationale : string;
}.

(** [__post_init__]; [None] is ValueError. *)
Definition decision_of (app : option Z) (method : string) (confidence : option string)
    (rationale : string) : option MatchDecision :=
  if bool_decide (app = None) && negb (mem method _NULL_METHODS) then None
  else if negb (bool_decide (app = None)) && mem method _ATTACHED_FORBIDDEN_METHODS then None
  else Some (mkDecision app method confidence rationale).

Definition unmatched (rationale : string) : MatchDecision :=
  mkDecision None UNMATCHED (Some "none") rationale.
Definition not_an_application (rationale confidence : string) : MatchDecision :=
  mkDecision None NOT_AN_APPLICATION (Some confidence) rationale.
Definition detached (rationale : string) : MatchDecision :=
  mkDecision None DETACHED (Some "none") rationale.

(** Rationale is only prose. *)
Definition repeats (d : MatchDecision) (app : option Z) (method : string) (confidence : option string)
    : bool :=
  bool_decide (md_application_id d = app) && String.eqb (md_method d) method &&
  bool_decide (md_confidence d = confidence).

(** [latest]: the newest match row of a message. *)
Definition latest (mid : Z) (s : mail) : option match_row :=
  newest am_message_id mid (ml_matches s) ≫= λ i, ml_matches s !! i.

(** The first half of [record]: does this decision append? *)
Definition stands (mid : Z) (d : MatchDecision) (actor : option Z) (s : mail) : bool :=
  match actor, latest mid s with
  | None, Some cur =>
      negb (bool_decide (is_Some (am_actor_user_id cur))) &&
      negb (repeats d (am_application_id cur) (am_method cur) (am_confidence cur))
  | _, _ => true
  end.

Definition decision_row (now mid : Z) (d : MatchDecision) (actor : option Z) : match_row :=
  mkMatch mid (md_application_id d) (md_method d) (md_confidence d) (Some (md_rationale d))
    actor now.

(** [record]: the check and the append are two statements; this is a run with
    nothing between them. *)
Definition record (id now mid : Z) (d : MatchDecision) (actor : option Z) (s : mail) : mail :=
  if stands mid d actor s then append_match id (decision_row now mid d actor) s else s.

(** A person confirms the attachment [cur]; method and confidence are kept. The
    decision's own check refuses what the column could not have held. *)
Definition confirm (id now mid : Z) (cur : match_row) (actor : Z) (note : option string) (s : mail)
    : option mail :=
  d ← decision_of (am_application_id cur) (am_method cur) (am_confidence cur)
        (match note with Some n => if String.eqb n "" then "confirmed by a person" else n
                       | None => "confirmed by a person" end);
  Some (record id now mid d (Some actor) s).

Definition reject (id now mid actor : Z) (note : option string) (s : mail) : mail :=
  record id now mid
    (detached (match note with Some n => if String.eqb n "" then "rejected by a person" else n
                             | None => "rejected by a person" end)) (Some actor) s.
