(* ===== verification/Pipeline.v ===== *)
(** * What mail says about applications ([api.mail.pipeline])

    Stages, asks and board proposals are derived from the current event and the
    current match of each message when they are read; only a person's answers
    are stored. *)

From S2P Require Import Prelude PyStr Sql Mail.

Local Open Scope string_scope.
Local Open Scope Z_scope.

(** ** Current rows *)

(** The row a message's pointer names, with its id. *)
Definition current_event (s : mail) (r : message) : option (Z * event) :=
  i ← ms_current_event_id r; pair i <$> ml_events s !! i.

Definition current_match (s : mail) (r : message) : option (Z * match_row) :=
  i ← ms_current_match_id r; pair i <$> ml_matches s !! i.

Definition by_id {A} (a b : Z * A) : Prop := a.1 <= b.1.
#[export] Instance by_id_dec {A} : RelDecision (@by_id A).
Proof. intros a b. unfold by_id. apply _. Defined.

(** The event of a message attached to [app]. *)
Definition event_for (s : mail) (app : Z) (r : message) : option (Z * event) :=
  a ← current_match s r;
  if bool_decide (am_application_id a.2 = Some app) then current_event s r else None.

(** [events_for]: newest event per message, by event id. *)
Definition events_for (s : mail) (app : Z) : list (Z * event) :=
  merge_sort by_id (omap (λ x : Z * message, event_for s app x.2) (map_to_list (ml_messages s))).

(** ** Stages *)

Definition STAGE_ORDER : list string :=
  ["applied"; "acknowledged"; "assessment"; "interviewing"; "offer"].

Definition TERMINAL : list string := ["rejected"; "withdrawn"; "closed"].

Definition _EVENT_TO_STAGE (kind : string) : option string :=
  if String.eqb kind "acknowledgement" then Some "acknowledged"
  else if String.eqb kind "assessment_invite" then Some "assessment"
  else if String.eqb kind "interview_invite" then Some "interviewing"
  else if String.eqb kind "interview_scheduled" then Some "interviewing"
  else if String.eqb kind "info_request" then Some "interviewing"
  else if String.eqb kind "offer" then Some "offer"
  else if String.eqb kind "rejection" then Some "rejected"
  else if String.eqb kind "position_closed" then Some "closed"
  else None.

Definition WITHDRAWN_STATUSES : list string := ["No Longer Interested"; "Withdrawn"].

(** [l.index(x)]. *)
Fixpoint index_of (x : string) (l : list string) : nat :=
  match l with
  | [] => 0
  | y :: l => if String.eqb y x then 0 else S (index_of x l)
  end.

Definition is_terminal_event (e : Z * string) : bool :=
  match _EVENT_TO_STAGE e.2 with
  | Some s => mem s TERMINAL
  | None => false
  end.

(** [max(l, key=lambda e: e.id)]: the first of the largest. *)
Fixpoint newest_of (best : Z * string) (l : list (Z * string)) : Z * string :=
  match l with
  | [] => best
  | e :: l => newest_of (if best.1 <? e.1 then e else best) l
  end.

Definition advance (best : string) (e : Z * string) : string :=
  match _EVENT_TO_STAGE e.2 with
  | Some stage =>
      if mem stage STAGE_ORDER && (index_of best STAGE_ORDER <? index_of stage STAGE_ORDER)%nat
      then stage else best
  | None => best
  end.

(** [stage_for], over (event id, kind). *)
Definition stage_for (events : list (Z * string)) (board_status : option string) : string :=
  if match board_status with Some b => mem b WITHDRAWN_STATUSES | None => false end
  then "withdrawn"
  else
    match filter (λ e, is_terminal_event e = true) events with
    | e :: terminal => default "" (_EVENT_TO_STAGE (newest_of e terminal).2)
    | [] => foldl advance "applied" events
    end.

Definition board_status (s : mail) (a : application) : option string :=
  j ← ap_job_id a; ml_board s !! (ap_user_id a, j).

(** [state_of(...).stage]. *)
Definition stage_of (s : mail) (app : Z) : string :=
  stage_for (map (λ e, (e.1, ev_kind e.2)) (events_for s app))
    (ml_applications s !! app ≫= board_status s).

(** ** Asks *)

Definition _EVENT_TO_ACTION (kind : string) : option string :=
  if String.eqb kind "assessment_invite" then Some "complete_assessment"
  else if String.eqb kind "interview_invite" then Some "schedule_interview"
  else if String.eqb kind "info_request" then Some "send_information"
  else if String.eqb kind "offer" then Some "respond_to_offer"
  else None.

Definition _RESOLVING_EVENTS (action : string) : list string :=
  if String.eqb action "complete_assessment"
  then ["acknowledgement"; "interview_invite"; "rejection"; "position_closed"]
  else if String.eqb action "schedule_interview"
  then ["interview_scheduled"; "rejection"; "position_closed"]
  else if String.eqb action "send_information"
  then ["acknowledgement"; "interview_invite"; "rejection"; "position_closed"]
  else if String.eqb action "respond_to_offer" then ["rejection"]
  else [].

Definition settles_on (kind : string) : list string := _RESOLVING_EVENTS kind.

Definition STATUS_QUESTION : string := "status".
Definition ACTION_QUESTION : string := "action".
Definition DONE : string := "done".
Definition REOPENED : string := "reopened".

(** [answer]. *)
Definition answer (now user_id event_id : Z) (question response : string) (note : option string)
    (s : mail) : mail :=
  mkMail (ml_messages s) (ml_events s) (ml_matches s) (ml_applications s)
    (ml_answers s ++ [mkAnswer event_id question response (Some user_id) note now])%list (ml_board s).

(** [latest_answers] for one event: the newest answer to the question. *)
Definition latest_answer (question : string) (event_id : Z) (s : mail) : option answer_row :=
  last (filter (λ a, an_event_id a = event_id ∧ an_question a = question) (ml_answers s)).

Record ActionItem : Type := mkItem {
  ai_id : Z;
  ai_application_id : Z;
  ai_kind : string;
  ai_due_at : option Z;
  ai_resolved_at : option Z;
  ai_resolution : option string;
  ai_resolved_by_event_id : option Z;
  ai_created_at : Z;
  ai_settles_on : list string;
  ai_message_id : Z;
}.

(** The earliest later event that settles an ask: the events are in id order. *)
Definition settled_by (action : string) (ask : Z) (events : list (Z * event)) : option (Z * event) :=
  head (filter (λ e, ev_kind e.2 ∈ _RESOLVING_EVENTS action ∧ ask < e.1) events).

Definition ask_item (s : mail) (app : Z) (events : list (Z * event)) (ask : Z * event)
    : option ActionItem :=
  kind ← _EVENT_TO_ACTION (ev_kind ask.2);
  let done :=
    match latest_answer ACTION_QUESTION ask.1 s with
    | Some a => if String.eqb (an_answer a) DONE then Some a else None
    | None => None
    end in
  let item at_ res by_ :=
    Some (mkItem ask.1 app kind (ev_deadline_at ask.2) at_ res by_ (ev_created_at ask.2)
            (_RESOLVING_EVENTS kind) (ev_message_id ask.2)) in
  match settled_by kind ask.1 events, done with
  | Some e, _ => item (Some (ev_created_at e.2)) (Some ("superseded by " ++ ev_kind e.2)) (Some e.1)
  | None, Some a =>
      item (Some (an_created_at a))
        (Some (match an_note a with
               | Some n => if String.eqb n "" then "marked done" else n
               | None => "marked done"
               end)) None
  | None, None => item None None None
  end.

(** By due date, undated last by age, then by event. *)
Definition item_key (i : ActionItem) : Z * Z * Z :=
  ((match ai_due_at i with None => 1 | Some _ => 0 end),
   default (ai_created_at i) (ai_due_at i), ai_id i).

Definition item_le (a b : ActionItem) : Prop :=
  let '(x1, x2, x3) := item_key a in
  let '(y1, y2, y3) := item_key b in
  x1 < y1 ∨ x1 = y1 ∧ (x2 < y2 ∨ x2 = y2 ∧ x3 <= y3).

#[export] Instance item_le_dec : RelDecision item_le.
Proof. intros a b. unfold item_le. destruct (item_key a) as [[]], (item_key b) as [[]]. apply _. Defined.

(** [action_items]: the asks on a person's applications, or on one of them. *)
Definition action_items (user_id : Z) (app : option Z) (open_only : bool) (s : mail)
    : list ActionItem :=
  let apps :=
    ids_where (λ i a, (ap_user_id a =? user_id) &&
                      match app with Some x => i =? x | None => true end) (ml_applications s) in
  merge_sort item_le
    (filter (λ i, open_only = false ∨ ai_resolved_at i = None)
       (concat (map (λ a, omap (ask_item s a (events_for s a)) (events_for s a)) apps))).

(** ** Board proposals *)

Definition STATUS_FROM_EVENT (kind : string) : option string :=
  if String.eqb kind "rejection" then Some "Rejected"
  else if String.eqb kind "position_closed" then Some "No Longer Available"
  else if String.eqb kind "offer" then Some "Offer"
  else if String.eqb kind "interview_invite" then Some "Interviewing"
  else if String.eqb kind "interview_scheduled" then Some "Interviewing"
  else None.

Definition UNRESOLVED_BOARD_STATUSES : list string := ["Application Submitted"; "Follow-up"].
Definition NOT_ON_BOARD : string :=
  "This application is not on your board, so there is no status to move.".
Definition ACCEPTED : string := "accepted".
Definition DISMISSED : string := "dismissed".

Record Proposal : Type := mkProposal {
  pr_application_id : Z;
  pr_event_id : Z;
  pr_kind : string;
  pr_message_id : Z;
  pr_board_updatable : bool;
  pr_suggested_status : string;
  pr_board_reason : option string;
}.

Definition answered (question : string) (event_id : Z) (s : mail) : bool :=
  bool_decide (is_Some (latest_answer question event_id s)).

(** The application still waits: not dismissed, and no board row or one that says
    so. *)
Definition awaiting (s : mail) (a : application) : bool :=
  bool_decide (ap_dismissed_at a = None) &&
  match board_status s a with
  | None => true
  | Some b => mem b UNRESOLVED_BOARD_STATUSES
  end.

Definition evidence (s : mail) (e : Z * event) : bool :=
  bool_decide (is_Some (STATUS_FROM_EVENT (ev_kind e.2))) &&
  negb (answered STATUS_QUESTION e.1 s).

(** [DISTINCT ON (a.id, e.kind) ... ORDER BY e.id DESC]: the newest event of each
    kind. *)
Definition newest_of_kind (l : list (Z * event)) (e : Z * event) : bool :=
  forallb (λ x, negb (String.eqb (ev_kind x.2) (ev_kind e.2)) || (x.1 <=? e.1)) l.

Definition proposals_of (s : mail) (app : Z) (a : application) : list Proposal :=
  if negb (awaiting s a) then []
  else
    let l := filter (λ e, evidence s e = true) (events_for s app) in
    map (λ e, mkProposal app e.1 (ev_kind e.2) (ev_message_id e.2)
                (bool_decide (is_Some (board_status s a)))
                (default "" (STATUS_FROM_EVENT (ev_kind e.2)))
                (if bool_decide (is_Some (board_status s a)) then None else Some NOT_ON_BOARD))
      (filter (λ e, newest_of_kind l e = true) l).

(** [proposals_for]. *)
Definition proposals_for (user_id : Z) (s : mail) : list Proposal :=
  concat (map (λ i, match ml_applications s !! i with
                    | Some a => proposals_of s i a
                    | None => []
                    end)
            (ids_where (λ _ a, ap_user_id a =? user_id) (ml_applications s))).

Record ProposalAnswered : Type := mkAnswered {
  pa_response : string;
  pa_board_updated : bool;
  pa_board_status : option string;
  pa_reason : option string;
}.

(** Nothing moved. *)
Definition unmoved (response : string) : ProposalAnswered :=
  mkAnswered response false None
    (Some (if String.eqb response ACCEPTED
           then "Recorded. This application is not on your board, so no status moved."
           else "Recorded. Declining moves nothing, by design.")).

(** The message's current match is [app]; the event is any of that message. *)
Definition answerable (s : mail) (app event_id : Z) : option string :=
  e ← ml_events s !! event_id;
  r ← ml_messages s !! ev_message_id e;
  a ← current_match s r;
  if bool_decide (am_application_id a.2 = Some app) then STATUS_FROM_EVENT (ev_kind e) else None.

(** [answer_proposal]. *)
Definition answer_proposal (now user_id app event_id : Z) (response : string) (s : mail)
    : mail * option ProposalAnswered :=
  match ml_applications s !! app with
  | None => (s, None)
  | Some a =>
      if negb (ap_user_id a =? user_id) then (s, None)
      else
        match answerable s app event_id with
        | None => (s, None)
        | Some status =>
            let s := answer now user_id event_id STATUS_QUESTION response None s in
            match (if String.eqb response ACCEPTED then ap_job_id a else None) with
            | Some j =>
                match ml_board s !! (user_id, j) with
                | Some _ =>
                    (mkMail (ml_messages s) (ml_events s) (ml_matches s) (ml_applications s)
                       (ml_answers s) (<[(user_id, j) := status]> (ml_board s)),
                     Some (mkAnswered response true (Some status) None))
                | None => (s, Some (unmoved response))
                end
            | None => (s, Some (unmoved response))
            end
        end
  end.
