(* ===== verification/MailProps.v ===== *)
(** * The mail logs keep the row in force, and what is read from them

    Pointers name the newest row of their log in every interleaving of appends and
    backfills, and the matcher does not overturn a decision a person made. Then the
    stages, asks and proposals read from the mail. *)

From S2P Require Import Prelude PyStr Sql Mail Pipeline.

Local Open Scope string_scope.
Local Open Scope Z_scope.

(** ** Steps *)

Definition pointers (r : message) : option Z * option Z :=
  (ms_current_event_id r, ms_current_match_id r).

(** The pointers of [mid] are the newest ids of its logs. *)
Definition exact_at (mid : Z) (s : mail) : Prop :=
  ∀ r, ml_messages s !! mid = Some r → pointers r = NEWEST_IDS mid s.

(** No pointer is past its log. *)
Definition never_ahead (s : mail) : Prop :=
  ∀ mid r, ml_messages s !! mid = Some r →
    greatest (ms_current_event_id r) (fst (NEWEST_IDS mid s)) = fst (NEWEST_IDS mid s) ∧
    greatest (ms_current_match_id r) (snd (NEWEST_IDS mid s)) = snd (NEWEST_IDS mid s).

(** The logs' foreign keys. *)
Definition logged (s : mail) : Prop :=
  (∀ i e, ml_events s !! i = Some e → is_Some (ml_messages s !! ev_message_id e)) ∧
  (∀ i a, ml_matches s !! i = Some a → is_Some (ml_messages s !! am_message_id a)).

(** Statements as they commit. An append's id is any value no committed row has,
    whatever order they were drawn in; a backfill's snapshot is any earlier
    state of the logs. *)
Inductive mail_step : mail → mail → Prop :=
| step_event id e s :
    ml_events s !! id = None → is_Some (ml_messages s !! ev_message_id e) →
    mail_step s (append_event id e s)
| step_match id a s :
    ml_matches s !! id = None → is_Some (ml_messages s !! am_message_id a) →
    mail_step s (append_match id a s)
| step_fill chunk seen s :
    ml_events seen ⊆ ml_events s → ml_matches seen ⊆ ml_matches s →
    mail_step s (fill_batch chunk seen s)
| step_store related user ms s :
    mail_step s (with_messages (fst (store_messages related user ms (ml_messages s))) s).

(** A pointer [p] beside its newest id [n], after a statement: both move by the
    row [x] appended, and a backfill moves the pointer by a [y] the log holds. *)
Definition advances (p n p' n' : option Z) : Prop :=
  ∃ x y, p' = greatest (greatest p x) y ∧ n' = greatest n x ∧ greatest n' y = n'.

(** One person or the matcher decides, with nothing in between. *)
Inductive record_step : mail → mail → Prop :=
| step_record now mid d actor s :
    record_step s (record (fresh_id (ml_matches s)) now mid d actor s).

(** A person decided the match in force. *)
Definition decided_by_person (mid : Z) (s : mail) : Prop :=
  ∃ a, latest mid s = Some a ∧ is_Some (am_actor_user_id a).

(** ** A concrete mailbox *)

Definition demo_imported : ImportedMessage :=
  mkImported "<1@x>" "gmail" None None None None [] None (Some 10) None None None.

(** One message; its event was written before pointers were, and the matcher found
    nothing for it. *)
Definition demo_mail : mail :=
  mkMail {[ 1 := mkMessage 7 demo_imported true "no_signal" None (Some 1) ]}
    {[ 1 := mkEvent 1 "rejection" None None None false (Some "Acme"%string) None (Some "m"%string) None 11 ]}
    {[ 1 := mkMatch 1 None UNMATCHED (Some "none"%string) None None 12 ]}
    {[ 5 := mkApplication 7 None (Some "Acme"%string) None "email" (Some 0) None 1 ]} [] ∅.

(** A person attaches it; the matcher's sweep, which had read the row before, does
    not find it. *)
Definition demo_attach : MatchDecision := mkDecision (Some 5) MANUAL (Some "high"%string) "mine".
Definition demo_miss : MatchDecision := mkDecision (Some 5) ATS_COMPANY (Some "medium"%string) "one".

(** ** Lemmas: the newest row of a log *)

Lemma sorted_last l i : StronglySorted (≤) l → last l = Some i → ∀ j, j ∈ l → j ≤ i.
Proof.
  induction l as [|x l IH]; [done|]. intros Hs Hl j Hj. inversion Hs as [|? ? Hs' Hx]; subst.
  destruct l as [|y l].
  - injection Hl as ->. apply list_elem_of_singleton in Hj as ->. lia.
  - apply elem_of_cons in Hj as [->|Hj].
    + etrans; [|by apply (IH Hs' Hl y); left]. rewrite Forall_forall in Hx. apply Hx. by left.
    + by apply IH.
Qed.

Section newest.
Context {A : Type} (mo : A → Z).

Lemma newest_Some mid (log : gmap Z A) i :
  newest mo mid log = Some i ↔
  (∃ a, log !! i = Some a ∧ mo a = mid) ∧ ∀ j a, log !! j = Some a → mo a = mid → j ≤ i.
Proof.
  unfold newest. set (l := ids_where _ log).
  assert (∀ j, j ∈ l ↔ ∃ a, log !! j = Some a ∧ mo a = mid) as Hl.
  { intros j. unfold l. rewrite elem_of_ids_where. by setoid_rewrite Z.eqb_eq. }
  split.
  - intros H. split; [apply Hl; by apply last_Some_elem_of|].
    intros j a Hj Ha. apply (sorted_last l); [unfold l; apply ids_where_sorted|done|]. apply Hl. eauto.
  - intros [Hi Hmax]. apply Hl in Hi. destruct (last l) as [k|] eqn:E.
    + f_equal. apply Z.le_antisymm.
      * apply last_Some_elem_of in E. apply Hl in E as (a & ? & ?). eauto.
      * apply (sorted_last l); [unfold l; apply ids_where_sorted|done|done].
    + apply last_None in E. rewrite E in Hi. by apply elem_of_nil in Hi.
Qed.

Lemma newest_None mid (log : gmap Z A) :
  newest mo mid log = None ↔ ∀ j a, log !! j = Some a → mo a ≠ mid.
Proof.
  unfold newest. rewrite last_None. split.
  - intros H j a Hj Ha. assert (j ∈ ids_where (λ _ r, mo r =? mid) log) as Hin.
    { apply elem_of_ids_where. exists a. by rewrite Z.eqb_eq. }
    rewrite H in Hin. by apply elem_of_nil in Hin.
  - intros H. destruct (ids_where _ log) as [|j l] eqn:E; [done|].
    assert (j ∈ ids_where (λ _ r, mo r =? mid) log) as Hin by (rewrite E; by left).
    apply elem_of_ids_where in Hin as (a & Hj & ?%Z.eqb_eq). by destruct (H j a Hj).
Qed.

Lemma newest_insert mid (log : gmap Z A) id a :
  log !! id = None →
  newest mo mid (<[id := a]> log) =
  if mo a =? mid then greatest (newest mo mid log) (Some id) else newest mo mid log.
Proof.
  intros Hid. destruct (newest mo mid log) as [i|] eqn:E; destruct (Z.eqb_spec (mo a) mid) as [Ha|Ha]; simpl.
  - apply newest_Some in E as [(x & Hx & Hmx) Hmax]. apply newest_Some. split.
    + destruct (Z.max_spec i id) as [[? ->]|[? ->]]; [exists a; by rewrite lookup_insert_eq|].
      exists x. rewrite lookup_insert_ne; [done|]. congruence.
    + intros j y Hj Hy. apply lookup_insert_Some in Hj as [[<- <-]|[? Hj]]; [lia|].
      specialize (Hmax j y Hj Hy). lia.
  - apply newest_Some in E as [(x & Hx & Hmx) Hmax]. apply newest_Some. split.
    + exists x. rewrite lookup_insert_ne; [done|]. congruence.
    + intros j y Hj Hy. apply lookup_insert_Some in Hj as [[<- <-]|[? Hj]]; [done|eauto].
  - rewrite newest_None in E. apply newest_Some. split; [exists a; by rewrite lookup_insert_eq|].
    intros j y Hj Hy. apply lookup_insert_Some in Hj as [[<- <-]|[? Hj]]; [done|]. by destruct (E j y Hj).
  - rewrite newest_None in E. apply newest_None. intros j y Hj.
    apply lookup_insert_Some in Hj as [[<- <-]|[? Hj]]; eauto.
Qed.

(** A snapshot's newest row is not newer. *)
Lemma newest_subseteq mid (log seen : gmap Z A) :
  seen ⊆ log → greatest (newest mo mid log) (newest mo mid seen) = newest mo mid log.
Proof.
  intros Hs. destruct (newest mo mid seen) as [j|] eqn:E; [|by destruct (newest mo mid log)].
  apply newest_Some in E as [(a & Hj & Ha) _]. eapply lookup_weaken in Hj; [|done].
  destruct (newest mo mid log) as [i|] eqn:E'.
  - simpl. apply newest_Some in E' as [_ Hmax]. f_equal. specialize (Hmax j a Hj Ha). lia.
  - rewrite newest_None in E'. by destruct (E' j a Hj).
Qed.
End newest.

Lemma greatest_idem a : greatest a a = a.
Proof. destruct a; simpl; [f_equal; lia|done]. Qed.

Lemma greatest_assoc a b c : greatest a (greatest b c) = greatest (greatest a b) c.
Proof. destruct a, b, c; simpl; f_equal; lia. Qed.

Lemma greatest_comm a b : greatest a b = greatest b a.
Proof. destruct a, b; simpl; f_equal; lia. Qed.

(** ** Lemmas: storing keeps pointers *)

Lemma fresh_id_above {A} (m : gmap Z A) k x : m !! k = Some x → k < fresh_id m.
Proof.
  intros Hx%elem_of_map_to_list. unfold fresh_id. induction (map_to_list m) as [|[k0 x0] l IH].
  - by apply elem_of_nil in Hx.
  - apply elem_of_cons in Hx as [[= <- <-]|Hk]; simpl; [lia|]. specialize (IH Hk). lia.
Qed.

Lemma fresh_id_lookup {A} (m : gmap Z A) : m !! fresh_id m = None.
Proof. destruct (m !! _) eqn:E; [|done]. apply fresh_id_above in E. lia. Qed.

Lemma store_one_keeps related user t m mid r :
  t !! mid = Some r →
  ∃ r', store_one related user t m !! mid = Some r' ∧ pointers r' = pointers r ∧
    ms_user_id r' = ms_user_id r.
Proof.
  intros Hr. unfold store_one. destruct (related _ _ _) as [hit reason].
  destruct (ids_where _ t) as [|i l] eqn:E.
  - exists r. rewrite lookup_insert_ne; [done|]. intros <-. by rewrite fresh_id_lookup in Hr.
  - rewrite lookup_update_where, Hr. simpl. destruct (same_message _ _ _); by eexists.
Qed.

Lemma store_one_new related user t m mid r' :
  t !! mid = None → store_one related user t m !! mid = Some r' → pointers r' = (None, None).
Proof.
  intros Hn. unfold store_one. destruct (related _ _ _) as [hit reason].
  destruct (ids_where _ t) as [|i l] eqn:E.
  - intros [[_ <-]|[? ?]]%lookup_insert_Some; [done|congruence].
  - rewrite lookup_update_where, Hn. done.
Qed.

Lemma store_messages_keeps related user ms t mid :
  match t !! mid with
  | Some r => ∃ r', fst (store_messages related user ms t) !! mid = Some r' ∧
                pointers r' = pointers r ∧ ms_user_id r' = ms_user_id r
  | None => ∀ r', fst (store_messages related user ms t) !! mid = Some r' → pointers r' = (None, None)
  end.
Proof.
  simpl. revert t. induction ms as [|m ms IH]; intros t; simpl.
  { destruct (t !! mid) as [r|] eqn:E; [by exists r|]. congruence. }
  specialize (IH (store_one related user t m)). destruct (t !! mid) as [r|] eqn:E.
  - destruct (store_one_keeps related user t m mid r E) as (r1 & Hr1 & Hp & Hu). rewrite Hr1 in IH.
    destruct IH as (r2 & Hr2 & Hp2 & Hu2). exists r2. split_and!; congruence.
  - destruct (store_one related user t m !! mid) as [r1|] eqn:E1.
    + destruct IH as (r2 & Hr2 & Hp2 & _). intros r' Hr'. rewrite Hr2 in Hr'. injection Hr' as <-.
      rewrite Hp2. by eapply store_one_new.
    + done.
Qed.

(** ** Lemmas: steps *)

Lemma advances_refl p n : advances p n p n.
Proof. exists None, None. destruct p, n; done. Qed.

Lemma advances_append p n id : advances p n (greatest p (Some id)) (greatest n (Some id)).
Proof. exists (Some id), None. by destruct p, n. Qed.

Lemma advances_fill p n y : greatest n y = n → advances p n (greatest p y) n.
Proof. intros H. exists None, y. split_and!; [by destruct p|by destruct n|done]. Qed.

Lemma advances_exact n p' n' : advances n n p' n' → p' = n'.
Proof. intros (x & y & -> & -> & H). done. Qed.

Lemma advances_behind p n p' n' :
  advances p n p' n' → greatest p n = n → greatest p' n' = n'.
Proof.
  intros (x & y & -> & -> & Hy) Hp.
  assert (greatest (greatest p x) (greatest n x) = greatest n x) as Hx.
  { rewrite <- greatest_assoc, (greatest_assoc x n x), (greatest_comm x n), <- (greatest_assoc n x x),
      greatest_idem, greatest_assoc. by rewrite Hp. }
  rewrite <- greatest_assoc, (greatest_comm y), Hy. done.
Qed.

Lemma step_logged s s' : logged s → mail_step s s' → logged s'.
Proof.
  intros [He Hm] Hstep.
  assert (∀ mid, is_Some (ml_messages s !! mid) → is_Some (ml_messages s' !! mid)) as Hkeep.
  { intros mid [r Hr]. destruct Hstep; simpl.
    - rewrite lookup_alter. case_decide; subst; rewrite ?Hr; eauto.
    - rewrite lookup_alter. case_decide; subst; rewrite ?Hr; eauto.
    - rewrite map_lookup_imap, Hr. eauto.
    - pose proof (store_messages_keeps related user ms (ml_messages s) mid) as H. simpl in H.
      rewrite Hr in H. destruct H as (r' & -> & _). eauto. }
  destruct Hstep; simpl in *; split; simpl; intros i x Hx;
    try (apply lookup_insert_Some in Hx as [[_ <-]|[_ Hx]]); apply Hkeep; eauto.
Qed.

Lemma step_advances s s' mid r' :
  logged s → mail_step s s' → ml_messages s' !! mid = Some r' →
  match ml_messages s !! mid with
  | Some r =>
      advances (ms_current_event_id r) (fst (NEWEST_IDS mid s))
        (ms_current_event_id r') (fst (NEWEST_IDS mid s')) ∧
      advances (ms_current_match_id r) (snd (NEWEST_IDS mid s))
        (ms_current_match_id r') (snd (NEWEST_IDS mid s'))
  | None => pointers r' = NEWEST_IDS mid s'
  end.
Proof.
  intros [He Hm]. destruct 1 as [id e s Hid Hmsg|id a s Hid Hmsg|chunk seen s Hse Hsm|related user ms s];
    simpl; intros Hr'.
  - rewrite newest_insert by done. rewrite lookup_alter in Hr'. case_decide as Hd.
    + subst mid. apply fmap_Some in Hr' as (r & Hr & ->). rewrite Hr, Z.eqb_refl. simpl.
      split; [apply advances_append|apply advances_refl].
    + rewrite Hr'. destruct (Z.eqb_spec (ev_message_id e) mid); [done|].
      split; apply advances_refl.
  - rewrite newest_insert by done. rewrite lookup_alter in Hr'. case_decide as Hd.
    + subst mid. apply fmap_Some in Hr' as (r & Hr & ->). rewrite Hr, Z.eqb_refl. simpl.
      split; [apply advances_refl|apply advances_append].
    + rewrite Hr'. destruct (Z.eqb_spec (am_message_id a) mid); [done|].
      split; apply advances_refl.
  - rewrite map_lookup_imap in Hr'. destruct (ml_messages s !! mid) as [r|]; [|done]. simpl in Hr'.
    injection Hr' as <-. destruct (_ && _); [|split; apply advances_refl]. simpl.
    split; apply advances_fill; by apply newest_subseteq.
  - pose proof (store_messages_keeps related user ms (ml_messages s) mid) as H. simpl in H.
    destruct (ml_messages s !! mid) as [r|] eqn:E.
    + destruct H as (r2 & Hr2 & Hp & _). rewrite Hr2 in Hr'. injection Hr' as ->.
      unfold pointers in Hp. injection Hp as -> ->. split; apply advances_refl.
    + rewrite (H r' Hr'). unfold NEWEST_IDS. simpl. f_equal; symmetry; apply newest_None.
      * intros i e Hi <-. destruct (He i e Hi) as [? ?]. congruence.
      * intros i a Hi <-. destruct (Hm i a Hi) as [? ?]. congruence.
Qed.

(** a pointer names the newest row of its log, whatever order appends commit in.
    Along any sequence of appends, backfills from stale snapshots and imports, no
    pointer is ever past its log; a message whose pointers are exact keeps them
    exact; a message stored on the way is exact from the start; and one backfill
    over a message that nothing overtakes leaves it exact, however old it is. *)
Theorem pointers_name_newest s s' :
  logged s → never_ahead s → rtc mail_step s s' →
  never_ahead s' ∧ (∀ mid, exact_at mid s → exact_at mid s') ∧
  (∀ chunk mid, mid ∈ chunk → exact_at mid (fill_batch chunk s' s')).
Proof.
  intros Hl Hn Hsteps.
  assert (logged s' ∧ never_ahead s' ∧ ∀ mid, exact_at mid s → exact_at mid s') as (_ & Hn' & He').
  { induction Hsteps as [s|s s1 s2 H1 _ IH]; [done|].
    assert (logged s1) as Hl1 by (by eapply step_logged).
    destruct IH as (? & ? & IH); [done| |split_and!; [done|done|]].
    - intros mid r' Hr'. pose proof (step_advances _ _ _ _ Hl H1 Hr') as Hs.
      destruct (ml_messages s !! mid) as [r|] eqn:Er.
      + destruct (Hn mid r Er), Hs. by split; eapply advances_behind.
      + unfold pointers in Hs. rewrite <- Hs. split; apply greatest_idem.
    - intros mid Hx. apply IH. intros r' Hr'. pose proof (step_advances _ _ _ _ Hl H1 Hr') as Hs.
      destruct (ml_messages s !! mid) as [r|] eqn:Er; [|done].
      specialize (Hx r Er). unfold pointers in *. destruct (NEWEST_IDS mid s) as [n m].
      injection Hx as <- <-. destruct Hs as [H1'%advances_exact H2'%advances_exact].
      rewrite H1', H2'. reflexivity. }
  split_and!; [done|done|]. intros chunk mid Hin r Hr. unfold fill_batch in Hr. simpl in Hr.
  rewrite map_lookup_imap in Hr. destruct (ml_messages s' !! mid) as [r0|] eqn:Er; [|done].
  simpl in Hr. injection Hr as <-. unfold mem. rewrite bool_decide_eq_true_2 by done. simpl.
  change (NEWEST_IDS mid (fill_batch chunk s' s')) with (NEWEST_IDS mid s').
  destruct (Hn' mid r0 Er) as [H1 H2]. case_bool_decide as Heq; simpl; [done|].
  unfold pointers. simpl in *. rewrite H1, H2. reflexivity.
Qed.

(** ** Decisions of people *)

Lemma fresh_newest {A} (mo : A → Z) mid (log : gmap Z A) a :
  newest mo mid (<[fresh_id log := a]> log) =
  if mo a =? mid then Some (fresh_id log) else newest mo mid log.
Proof.
  rewrite newest_insert by apply fresh_id_lookup. destruct (mo a =? mid); [|done].
  destruct (newest mo mid log) as [i|] eqn:E; [|done]. simpl. f_equal.
  apply newest_Some in E as [(x & Hx%fresh_id_above & _) _]. lia.
Qed.

Lemma latest_append now mid mid' d actor s :
  latest mid' (append_match (fresh_id (ml_matches s)) (decision_row now mid d actor) s) =
  if mid =? mid' then Some (decision_row now mid d actor) else latest mid' s.
Proof.
  unfold latest. simpl. rewrite fresh_newest. simpl. destruct (Z.eqb_spec mid mid'); simpl.
  - by rewrite lookup_insert_eq.
  - destruct (newest am_message_id mid' (ml_matches s)) as [i|] eqn:E; [|done]. simpl.
    rewrite lookup_insert_ne; [done|]. intros <-.
    apply newest_Some in E as [(x & Hx & _) _]. by rewrite fresh_id_lookup in Hx.
Qed.

(** the matcher does not overturn a person. Once a person's decision is the
    match in force it stays a person's, through any decisions on any messages
    each made in one go; and while only the matcher acts on the message, the row
    in force does not change at all. *)
Theorem person_decides s s' mid a :
  latest mid s = Some a → is_Some (am_actor_user_id a) → rtc record_step s s' →
  decided_by_person mid s' ∧
  (∀ now d, latest mid (record (fresh_id (ml_matches s)) now mid d None s) = Some a).
Proof.
  intros Ha Hp Hsteps. split.
  - assert (decided_by_person mid s) as H by (by exists a). clear a Ha Hp. revert H.
    induction Hsteps as [s|s s1 s2 H1 _ IH]; [done|]. intros (a & Ha & Hp). apply IH.
    destruct H1 as [now m d actor s]. unfold record. destruct (stands m d actor s) eqn:Es; [|by exists a].
    unfold decided_by_person. rewrite latest_append. destruct (Z.eqb_spec m mid) as [->|]; [|by exists a].
    destruct actor as [u|]; [by eexists|]. unfold stands in Es. rewrite Ha in Es.
    rewrite bool_decide_eq_true_2 in Es by done. done.
  - intros now d. unfold record, stands. rewrite Ha, bool_decide_eq_true_2 by done. done.
Qed.

(** the check and the append are two statements, and a person can come between
    them. If the matcher's check passes and a person decides before its append,
    the matcher's row is the one in force: the decision is overturned, which is
    the race the write is meant to close. *)
Theorem record_race s mid d person h now now' :
  stands mid d None s = true →
  let decided := record (fresh_id (ml_matches s)) now mid h (Some person) s in
  let after := append_match (fresh_id (ml_matches decided)) (decision_row now' mid d None) decided in
  decided_by_person mid decided ∧ ¬ decided_by_person mid after ∧
  latest mid after = Some (decision_row now' mid d None) ∧
  ∀ id, record id now' mid d None decided = decided.
Proof.
  intros _. cbv zeta. unfold record at 1 2 3 4, stands at 1 2 3 4. split_and!.
  - eexists. rewrite latest_append, Z.eqb_refl. by eauto.
  - intros (a & Ha & Hp). rewrite latest_append, Z.eqb_refl in Ha. injection Ha as <-. by destruct Hp.
  - by rewrite latest_append, Z.eqb_refl.
  - intros id. unfold record, stands. by rewrite latest_append, Z.eqb_refl.
Qed.

Lemma pointers_name_newest_witness :
  never_ahead demo_mail ∧ exact_at 1 (fill_batch [1] demo_mail demo_mail).
Proof.
  assert (never_ahead demo_mail) as Hn.
  { intros mid r Hr. cbn in Hr. apply lookup_singleton_Some in Hr as [<- <-]. vm_compute. split; reflexivity. }
  split; [exact Hn|].
  apply (pointers_name_newest demo_mail demo_mail); [|exact Hn|apply rtc_refl|by left].
  split; intros i x Hx; cbn in Hx; apply lookup_singleton_Some in Hx as [_ <-]; by eexists.
Defined.

Lemma person_decides_witness :
  let s := record 2 20 1 demo_attach (Some 7) demo_mail in
  decided_by_person 1 (record (fresh_id (ml_matches s)) 21 1 demo_miss None s).
Proof.
  cbv zeta. eapply (person_decides (record 2 20 1 demo_attach (Some 7) demo_mail)).
  - vm_compute. reflexivity.
  - eexists. reflexivity.
  - eapply rtc_once. apply (step_record 21 1 demo_miss None).
Defined.

Lemma record_race_witness :
  let decided := record 2 20 1 demo_attach (Some 7) demo_mail in
  ¬ decided_by_person 1 (append_match 3 (decision_row 21 1 demo_miss None) decided).
Proof.
  apply (record_race demo_mail 1 demo_miss 7 demo_attach 20 21). vm_compute. reflexivity.
Defined.

(** How far a stage is: an end beats every step, and withdrawal beats every end. *)
Definition stage_rank (s : string) : nat :=
  if String.eqb s "withdrawn" then 6 else if mem s TERMINAL then 5 else index_of s STAGE_ORDER.

Definition withdrawn (board : option string) : bool :=
  match board with Some b => mem b WITHDRAWN_STATUSES | None => false end.

(** A message's pointer names an event of that message. *)
Definition pointed (s : mail) : Prop :=
  ∀ mid r i e, ml_messages s !! mid = Some r → ms_current_event_id r = Some i →
    ml_events s !! i = Some e → ev_message_id e = mid.

(** ** A concrete mailbox: a rejection later read as an interview *)

Definition demo_event (kind : string) : event :=
  mkEvent 1 kind None None None false (Some "Acme") None (Some "m") None 11.

Definition demo_tracked (current : Z) : mail :=
  mkMail {[ 1 := mkMessage 7 demo_imported true "no_signal" (Some current) (Some 1) ]}
    {[ 1 := demo_event "rejection"; 2 := demo_event "interview_invite" ]}
    {[ 1 := mkMatch 1 (Some 5) ATS_COMPANY (Some "medium") None None 12 ]}
    {[ 5 := mkApplication 7 (Some 9) (Some "Acme") None "tracker" (Some 0) None 1 ]} []
    {[ (7, 9) := "Application Submitted" ]}.

Definition demo_proposal : Proposal := mkProposal 5 1 "rejection" 1 true "Rejected" None.

(** ** Lemmas: stages *)

Lemma newest_of_spec best l :
  (newest_of best l = best ∨ newest_of best l ∈ l) ∧
  ∀ e, e = best ∨ e ∈ l → e.1 ≤ (newest_of best l).1.
Proof.
  revert best. induction l as [|x l IH]; intros best; simpl.
  { split; [by left|]. intros e [->|He]; [done|by apply elem_of_nil in He]. }
  destruct (IH (if best.1 <? x.1 then x else best)) as [Hin Hmax]. split.
  - destruct Hin as [->|?]; [|right; by right]. destruct (_ <? _); [right; by left|by left].
  - assert (best.1 ≤ (newest_of (if best.1 <? x.1 then x else best) l).1 ∧
            x.1 ≤ (newest_of (if best.1 <? x.1 then x else best) l).1) as [? ?].
    { pose proof (Hmax _ (or_introl eq_refl)). destruct (Z.ltb_spec best.1 x.1); lia. }
    intros e [->|[->|He]%elem_of_cons]; [done|done|]. apply Hmax. by right.
Qed.

Lemma index_of_elem x l : x ∈ l → (index_of x l < length l)%nat ∧ l !! index_of x l = Some x.
Proof.
  induction l as [|y l IH]; [by intros ?%elem_of_nil|]. intros Hx. simpl.
  destruct (String.eqb_spec y x) as [->|]; [split; [lia|done]|].
  apply elem_of_cons in Hx as [->|Hx]; [done|]. destruct (IH Hx). simpl. split; [lia|done].
Qed.

#[local] Arguments index_of : simpl never.

Lemma advance_spec best e :
  best ∈ STAGE_ORDER →
  advance best e ∈ STAGE_ORDER ∧
  (index_of best STAGE_ORDER ≤ index_of (advance best e) STAGE_ORDER)%nat ∧
  (advance best e = best ∨ _EVENT_TO_STAGE e.2 = Some (advance best e)) ∧
  (∀ st, _EVENT_TO_STAGE e.2 = Some st → st ∈ STAGE_ORDER →
     (index_of st STAGE_ORDER ≤ index_of (advance best e) STAGE_ORDER)%nat).
Proof.
  intros Hb. unfold advance. destruct (_EVENT_TO_STAGE e.2) as [st|]; [|split_and!; auto; done].
  unfold mem. destruct (bool_decide (st ∈ STAGE_ORDER)) eqn:E1; breflect; simpl.
  - destruct (Nat.ltb_spec (index_of best STAGE_ORDER) (index_of st STAGE_ORDER)).
    + split_and!; [done|lia|by right|by intros ? [= ->]].
    + split_and!; [done|lia|by left|by intros ? [= <-] _].
  - split_and!; [done|lia|by left|by intros ? [= ->]].
Qed.

Lemma furthest_spec best l :
  best ∈ STAGE_ORDER →
  let s := foldl advance best l in
  s ∈ STAGE_ORDER ∧ (index_of best STAGE_ORDER ≤ index_of s STAGE_ORDER)%nat ∧
  (s = best ∨ ∃ e, e ∈ l ∧ _EVENT_TO_STAGE e.2 = Some s) ∧
  (∀ e st, e ∈ l → _EVENT_TO_STAGE e.2 = Some st → st ∈ STAGE_ORDER →
     (index_of st STAGE_ORDER ≤ index_of s STAGE_ORDER)%nat).
Proof.
  revert best. induction l as [|x l IH]; intros best Hb; simpl.
  { split_and!; auto. by intros ? ? ?%elem_of_nil. }
  destruct (advance_spec best x Hb) as (H1 & H2 & H3 & H4). destruct (IH _ H1) as (I1 & I2 & I3 & I4).
  split_and!; [done|lia| |].
  - destruct I3 as [->|(e & ? & ?)]; [|right; exists e; split; [by right|done]].
    destruct H3 as [->|?]; [by left|]. right. exists x. split; [by left|done].
  - intros e st [->|He]%elem_of_cons Hst Hin; [|by eapply I4]. specialize (H4 st Hst Hin). lia.
Qed.

Lemma stage_cases st k : _EVENT_TO_STAGE k = Some st →
  (st ∈ TERMINAL ∧ st ≠ "withdrawn") ∨ st ∈ STAGE_ORDER.
Proof.
  unfold _EVENT_TO_STAGE. intros H.
  repeat match type of H with (if ?b then _ else _) = _ => destruct b end;
    try (injection H as <-); try done;
    first [right; apply (bool_decide_eq_true_1 (_ ∈ STAGE_ORDER)); reflexivity
          |left; split; [apply (bool_decide_eq_true_1 (_ ∈ TERMINAL)); reflexivity|done]].
Qed.

Lemma is_terminal_stage e : is_terminal_event e = true →
  ∃ st, _EVENT_TO_STAGE e.2 = Some st ∧ st ∈ TERMINAL.
Proof.
  unfold is_terminal_event. destruct (_EVENT_TO_STAGE e.2) as [st|]; [|done].
  intros H%bool_decide_eq_true_1. eauto.
Qed.

Lemma rank_terminal st : st ∈ TERMINAL → (5 ≤ stage_rank st)%nat ∧ (st ≠ "withdrawn" → stage_rank st = 5%nat).
Proof.
  intros H. unfold stage_rank. destruct (String.eqb_spec st "withdrawn"); [split; [lia|done]|].
  unfold mem. rewrite bool_decide_eq_true_2 by done. split; [lia|done].
Qed.

Lemma rank_order st : st ∈ STAGE_ORDER → stage_rank st = index_of st STAGE_ORDER ∧ (stage_rank st < 5)%nat.
Proof.
  intros H. assert (st ≠ "withdrawn" ∧ st ∉ TERMINAL) as [Hw Ht].
  { split; [intros ->|intros Ht]; apply (bool_decide_eq_true_2 _) in H; [by vm_compute in H|].
    apply bool_decide_eq_true_1 in H. unfold TERMINAL in Ht.
    rewrite !elem_of_cons, elem_of_nil in Ht. destruct Ht as [->|[->|[->|[]]]];
      apply (bool_decide_eq_true_2 _) in H; by vm_compute in H. }
  unfold stage_rank. destruct (String.eqb_spec st "withdrawn"); [done|].
  unfold mem. rewrite bool_decide_eq_false_2 by done. split; [done|].
  destruct (index_of_elem st STAGE_ORDER H). by change (length STAGE_ORDER) with 5%nat in *.
Qed.

(** The stage of the events of an application that is not withdrawn. *)
Lemma stage_for_cases events board :
  withdrawn board = false →
  (∃ w, w ∈ events ∧ is_terminal_event w = true ∧ _EVENT_TO_STAGE w.2 = Some (stage_for events board) ∧
     ∀ e, e ∈ events → is_terminal_event e = true → e.1 ≤ w.1) ∨
  ((∀ e, e ∈ events → is_terminal_event e = false) ∧ stage_for events board ∈ STAGE_ORDER ∧
   (stage_for events board = "applied" ∨
    ∃ e, e ∈ events ∧ _EVENT_TO_STAGE e.2 = Some (stage_for events board)) ∧
   ∀ e st, e ∈ events → _EVENT_TO_STAGE e.2 = Some st →
     (index_of st STAGE_ORDER ≤ index_of (stage_for events board) STAGE_ORDER)%nat).
Proof.
  intros Hw. unfold stage_for. fold (withdrawn board). rewrite Hw.
  destruct (filter _ events) as [|e0 l] eqn:E.
  - right. assert (∀ e, e ∈ events → is_terminal_event e = false) as Hn.
    { intros e He. apply not_true_iff_false. intros Ht.
      assert (e ∈ filter (λ e, is_terminal_event e = true) events) as Hin by (by apply list_elem_of_filter).
      rewrite E in Hin. by apply elem_of_nil in Hin. }
    destruct (furthest_spec "applied" events) as (H1 & _ & H3 & H4).
    { apply (bool_decide_eq_true_1 (_ ∈ STAGE_ORDER)). reflexivity. }
    split_and!; [done|done|done|]. intros e st He Hst. eapply H4; [done|done|].
    destruct (stage_cases _ _ Hst) as [[Ht _]|?]; [|done]. specialize (Hn e He).
    unfold is_terminal_event in Hn. rewrite Hst in Hn. unfold mem in Hn.
    by rewrite bool_decide_eq_true_2 in Hn.
  - left. destruct (newest_of_spec e0 l) as [Hin Hmax]. set (w := newest_of e0 l) in *.
    assert (∀ e, e ∈ events ∧ is_terminal_event e = true ↔ e = e0 ∨ e ∈ l) as Hl.
    { intros e. rewrite <- elem_of_cons, <- E, list_elem_of_filter. tauto. }
    destruct (proj2 (Hl w) Hin) as [Hwe Hwt]. exists w. split_and!; [done|done| |].
    + destruct (is_terminal_stage _ Hwt) as (st & Hst & _). by rewrite Hst.
    + intros e He Ht. apply Hmax, Hl. done.
Qed.

Lemma stage_for_withdrawn events board : withdrawn board = true → stage_for events board = "withdrawn".
Proof. intros H. unfold stage_for. fold (withdrawn board). by rewrite H. Qed.

Lemma index_of_inj x y : x ∈ STAGE_ORDER → y ∈ STAGE_ORDER →
  index_of x STAGE_ORDER = index_of y STAGE_ORDER → x = y.
Proof.
  intros Hx Hy He. destruct (index_of_elem x _ Hx) as [_ H1], (index_of_elem y _ Hy) as [_ H2].
  rewrite He, H2 in H1. by injection H1.
Qed.

(** the stage is the furthest the mail supports. Withdrawal is the person's own
    and beats everything; otherwise the newest ending decides; otherwise the
    stage is the furthest any event names, "applied" when none does. More mail
    never moves an application back, and the order it arrives in does not
    matter. *)
Theorem stage_for_furthest events board :
  let s := stage_for events board in
  (withdrawn board = true → s = "withdrawn") ∧
  (withdrawn board = false →
   (∃ w, w ∈ events ∧ is_terminal_event w = true ∧ _EVENT_TO_STAGE w.2 = Some s ∧
      ∀ e, e ∈ events → is_terminal_event e = true → e.1 ≤ w.1) ∨
   ((∀ e, e ∈ events → is_terminal_event e = false) ∧
    (s = "applied" ∨ ∃ e, e ∈ events ∧ _EVENT_TO_STAGE e.2 = Some s) ∧
    ∀ e st, e ∈ events → _EVENT_TO_STAGE e.2 = Some st →
      (index_of st STAGE_ORDER ≤ index_of s STAGE_ORDER)%nat)) ∧
  (∀ more, (stage_rank s ≤ stage_rank (stage_for (events ++ more)%list board))%nat) ∧
  (∀ events', NoDup events.*1 → Permutation events events' → stage_for events' board = s).
Proof.
  cbv zeta. destruct (withdrawn board) eqn:Hw.
  { split_and!; [intros _; by apply stage_for_withdrawn|done| |]; intros;
      by rewrite !stage_for_withdrawn. }
  pose proof (λ l, stage_for_cases l board Hw) as Hc. split_and!; [done| | |].
  - intros _. destruct (Hc events) as [?|(? & _ & ?)]; auto.
  - intros more. destruct (Hc (events ++ more)%list) as [(w & _ & Hwt & Hws & _)|(Hn & Ho & _ & Hmax)].
    + destruct (is_terminal_stage w Hwt) as (st & Hst & Hin). rewrite Hws in Hst. injection Hst as <-.
      destruct (rank_terminal _ Hin) as [Hr _].
      destruct (Hc events) as [(v & _ & Hvt & Hvs & _)|(_ & Hv & _)].
      * destruct (stage_cases _ _ Hvs) as [[Ht Hnw]|Ht]; [destruct (rank_terminal _ Ht) as [_ He]; rewrite He by done; lia|].
        destruct (rank_order _ Ht). lia.
      * destruct (rank_order _ Hv). lia.
    + destruct (rank_order _ Ho) as [-> _]. destruct (Hc events) as [(v & Hv & Hvt & _)|(_ & Hv & [Ha|(e & He & Hs)] & _)].
      * rewrite Hn in Hvt; [done|]. apply elem_of_app. by left.
      * rewrite Ha. change (stage_rank "applied") with 0%nat. lia.
      * destruct (rank_order _ Hv) as [-> _]. apply (Hmax e); [|done]. apply elem_of_app. by left.
  - intros events' Hnd Hp. assert (∀ e, e ∈ events ↔ e ∈ events') as Hin by (intros e; by rewrite Hp).
    destruct (Hc events) as [(w & Hw1 & Hw2 & Hw3 & Hw4)|(Hn & Ho & Hs & Hm)],
             (Hc events') as [(v & Hv1 & Hv2 & Hv3 & Hv4)|(Hn' & Ho' & Hs' & Hm')].
    + assert (v = w) as ->.
      { apply (NoDup_fmap_inj fst events); [done|by apply Hin|done|].
        pose proof (Hw4 v (proj2 (Hin v) Hv1) Hv2). pose proof (Hv4 w (proj1 (Hin w) Hw1) Hw2). lia. }
      rewrite Hv3 in Hw3. by injection Hw3.
    + rewrite Hn' in Hw2; [done|by apply Hin].
    + rewrite Hn in Hv2; [done|by apply Hin].
    + assert (∀ x y (l : list (Z * string)), (x = "applied" ∨ ∃ e, e ∈ l ∧ _EVENT_TO_STAGE e.2 = Some x) →
        (∀ e st, e ∈ l → _EVENT_TO_STAGE e.2 = Some st → (index_of st STAGE_ORDER ≤ index_of y STAGE_ORDER)%nat) →
        (index_of x STAGE_ORDER ≤ index_of y STAGE_ORDER)%nat) as Hle.
      { intros x y l [->|(e & He & Hx)] H; [change (index_of "applied" STAGE_ORDER) with 0%nat; lia|eauto]. }
      apply index_of_inj; [done|done|]. apply Nat.le_antisymm.
      * apply (Hle _ _ events); [|done]. destruct Hs' as [?|(e & He & ?)]; [by left|right; exists e; by rewrite Hin].
      * apply (Hle _ _ events'); [|done]. destruct Hs as [?|(e & He & ?)]; [by left|right; exists e; by rewrite <- Hin].
Qed.

(** ** Lemmas: proposals *)

Lemma elem_of_events_for s app i e :
  (i, e) ∈ events_for s app →
  ∃ mid r a, ml_messages s !! mid = Some r ∧ current_match s r = Some a ∧
    am_application_id a.2 = Some app ∧ ms_current_event_id r = Some i ∧ ml_events s !! i = Some e.
Proof.
  unfold events_for. rewrite merge_sort_Permutation, list_elem_of_omap.
  intros ([mid r] & Hr%elem_of_map_to_list & He). simpl in He. unfold event_for in He.
  apply bind_Some in He as (a & Ha & He). case_bool_decide; [|done].
  unfold current_event in He. apply bind_Some in He as (k & Hk & He).
  apply fmap_Some in He as (e' & He' & [= -> ->]). eauto 10.
Qed.

Lemma elem_of_proposals_for user s p :
  p ∈ proposals_for user s ↔
  ∃ i a, ml_applications s !! i = Some a ∧ ap_user_id a = user ∧ p ∈ proposals_of s i a.
Proof.
  unfold proposals_for. rewrite list_elem_of_In, in_concat. split.
  - intros (l & Hl & Hp). apply in_map_iff in Hl as (i & <- & Hi).
    apply list_elem_of_In, elem_of_ids_where in Hi as (a & Ha & Hu%Z.eqb_eq). rewrite Ha in Hp.
    exists i, a. by rewrite list_elem_of_In.
  - intros (i & a & Ha & Hu & Hp). exists (proposals_of s i a). split; [|by apply list_elem_of_In].
    apply in_map_iff. exists i. rewrite Ha. split; [done|]. apply list_elem_of_In, elem_of_ids_where.
    exists a. by rewrite Z.eqb_eq.
Qed.

Lemma elem_of_proposals_of s i a p :
  p ∈ proposals_of s i a →
  ∃ e, (pr_event_id p, e) ∈ events_for s i ∧ evidence s (pr_event_id p, e) = true ∧
    awaiting s a = true ∧ pr_application_id p = i ∧
    pr_board_updatable p = bool_decide (is_Some (board_status s a)) ∧
    Some (pr_suggested_status p) = STATUS_FROM_EVENT (ev_kind e).
Proof.
  unfold proposals_of. destruct (awaiting s a) eqn:Hw; [|by intros ?%elem_of_nil].
  simpl. intros ([k e] & -> & [_ [Hev Hin]%list_elem_of_filter]%list_elem_of_filter)%list_elem_of_fmap.
  exists e. simpl. split_and!; try done. unfold evidence in Hev.
  apply andb_true_iff in Hev as [[st Hst]%bool_decide_eq_true_1 _]. simpl in Hst. by rewrite Hst.
Qed.

Lemma answered_after now user id question response note s :
  answered question id (answer now user id question response note s) = true.
Proof.
  unfold answered, latest_answer, answer. simpl. rewrite filter_app.
  apply bool_decide_eq_true_2. rewrite filter_cons_True by done. rewrite filter_nil, last_snoc. eauto.
Qed.

Lemma answerable_event s app id e r a :
  ml_events s !! id = Some e → ml_messages s !! ev_message_id e = Some r →
  current_match s r = Some a → am_application_id a.2 = Some app →
  answerable s app id = STATUS_FROM_EVENT (ev_kind e).
Proof.
  intros He Hr Ha Happ. unfold answerable. rewrite He. simpl. rewrite Hr. simpl. rewrite Ha. simpl.
  by rewrite bool_decide_eq_true_2.
Qed.

(** a proposal offered can be answered, once, and says what answering does. The
    answer is recorded; the board moves exactly when the person accepts and the
    application is on the board, to the status suggested; no other row of any
    table changes; and the same evidence is not proposed again. *)
Theorem proposal_answerable now user response s p :
  pointed s → p ∈ proposals_for user s →
  ∃ a s' pa, ml_applications s !! pr_application_id p = Some a ∧ ap_user_id a = user ∧
    answer_proposal now user (pr_application_id p) (pr_event_id p) response s = (s', Some pa) ∧
    pa_board_updated pa = String.eqb response ACCEPTED && pr_board_updatable p ∧
    (pa_board_updated pa = true → board_status s' a = Some (pr_suggested_status p)) ∧
    (∀ k, ml_board s' !! k ≠ ml_board s !! k →
       response = ACCEPTED ∧ ap_job_id a = Some k.2 ∧ k.1 = user) ∧
    (ml_messages s', ml_events s', ml_matches s', ml_applications s') =
      (ml_messages s, ml_events s, ml_matches s, ml_applications s) ∧
    (∀ q, q ∈ proposals_for user s' → pr_event_id q ≠ pr_event_id p).
Proof.
  intros Hpt (i & a & Ha & Hu & Hp)%elem_of_proposals_for.
  destruct (elem_of_proposals_of _ _ _ _ Hp) as (e & He & Hev & Hw & Hi & Hup & Hst).
  destruct (elem_of_events_for _ _ _ _ He) as (mid & r & m & Hr & Hm & Happ & Hptr & Hevt).
  assert (ev_message_id e = mid) as Hmid by (by eapply Hpt).
  assert (∀ s', answered STATUS_QUESTION (pr_event_id p) s' = true →
    ∀ q, q ∈ proposals_for user s' → pr_event_id q ≠ pr_event_id p) as Hgone.
  { intros s' Hans q (k & b & _ & _ & Hq)%elem_of_proposals_for Heq.
    destruct (elem_of_proposals_of _ _ _ _ Hq) as (e' & _ & Hev' & _). rewrite Heq in Hev'.
    unfold evidence in Hev'. simpl in Hev'. rewrite Hans in Hev'. by rewrite andb_false_r in Hev'. }
  exists a. rewrite Hi. unfold answer_proposal. rewrite Ha, Hu, Z.eqb_refl. simpl.
  rewrite (answerable_event s i _ e r m) by (by rewrite ?Hmid). rewrite <- Hst.
  set (s1 := answer _ _ _ _ _ _ _). unfold board_status in Hup.
  destruct (String.eqb_spec response ACCEPTED) as [->|Hresp]; simpl.
  - destruct (ap_job_id a) as [j|] eqn:Ej; simpl in Hup.
    + rewrite Hu in Hup. change (ml_board s1) with (ml_board s).
      destruct (ml_board s !! (user, j)) as [old|] eqn:Eb.
      * eexists _, _. split_and!; try done.
        -- intros _. unfold board_status. simpl. rewrite Ej. simpl. by rewrite Hu, lookup_insert_eq.
        -- intros [u k] Hk. simpl in *. destruct (decide ((user, j) = (u, k))) as [[= -> ->]|Hne]; [done|].
           by rewrite lookup_insert_ne in Hk.
        -- apply Hgone. apply answered_after.
      * eexists _, _. split_and!; try done. apply Hgone. apply answered_after.
    + eexists _, _. split_and!; try done. apply Hgone. apply answered_after.
  - eexists _, _. split_and!; try done. apply Hgone. apply answered_after.
Qed.

(** Evidence that was retracted can still be answered. An event a later
    classification replaced is in no proposal, yet an answer naming it is
    accepted while its message is attached to the application, and moves the
    board to a status no current mail supports. *)
Theorem retracted_event_answerable now user app id s a e r m st j old :
  pointed s → ml_applications s !! app = Some a → ap_user_id a = user → ap_job_id a = Some j →
  ml_events s !! id = Some e → ml_messages s !! ev_message_id e = Some r →
  ms_current_event_id r ≠ Some id → current_match s r = Some m → am_application_id m.2 = Some app →
  STATUS_FROM_EVENT (ev_kind e) = Some st → ml_board s !! (user, j) = Some old →
  (∀ p, p ∈ proposals_for user s → pr_event_id p ≠ id) ∧
  ml_board (fst (answer_proposal now user app id ACCEPTED s)) !! (user, j) = Some st.
Proof.
  intros Hpt Ha Hu Hj He Hr Hold Hm Happ Hst Hb. split.
  - intros p (i & b & _ & _ & Hp)%elem_of_proposals_for Heq.
    destruct (elem_of_proposals_of _ _ _ _ Hp) as (e' & He' & _). rewrite Heq in He'.
    destruct (elem_of_events_for _ _ _ _ He') as (mid & r' & m' & Hr' & _ & _ & Hptr & Hevt).
    rewrite He in Hevt. injection Hevt as <-. pose proof (Hpt _ _ _ _ Hr' Hptr He) as <-.
    rewrite Hr in Hr'. by injection Hr' as <-.
  - unfold answer_proposal. rewrite Ha, Hu, Z.eqb_refl. simpl.
    rewrite (answerable_event s app id e r m) by done. rewrite Hst, Hj.
    change (ml_board (answer _ _ _ _ _ _ s)) with (ml_board s). rewrite Hb. simpl.
    by rewrite lookup_insert_eq.
Qed.

Lemma proposal_answerable_witness :
  demo_proposal ∈ proposals_for 7 (demo_tracked 1) ∧
  ∃ s' pa, answer_proposal 20 7 5 1 ACCEPTED (demo_tracked 1) = (s', Some pa) ∧
    pa_board_updated pa = true.
Proof.
  assert (demo_proposal ∈ proposals_for 7 (demo_tracked 1)) as Hp.
  { assert (proposals_for 7 (demo_tracked 1) = [demo_proposal]) as -> by (vm_compute; reflexivity).
    by left. }
  split; [exact Hp|].
  destruct (proposal_answerable 20 7 ACCEPTED (demo_tracked 1) demo_proposal)
    as (a & s' & pa & _ & _ & H & Hb & _).
  - intros mid r i e Hr Hi He. cbn in Hr. apply lookup_singleton_Some in Hr as [<- <-].
    injection Hi as <-. vm_compute in He. injection He as <-. reflexivity.
  - exact Hp.
  - exists s', pa. split; [exact H|]. rewrite Hb. reflexivity.
Defined.

Lemma retracted_event_answerable_witness :
  proposals_for 7 (demo_tracked 2) ≠ [] ∧
  ml_board (fst (answer_proposal 20 7 5 1 ACCEPTED (demo_tracked 2))) !! (7, 9) = Some "Rejected".
Proof.
  split; [vm_compute; discriminate|].
  eapply (retracted_event_answerable 20 7 5 1 (demo_tracked 2)).
  - intros mid r i e Hr Hi He. cbn in Hr. apply lookup_singleton_Some in Hr as [<- <-].
    injection Hi as <-. vm_compute in He. injection He as <-. reflexivity.
  - vm_compute. reflexivity.
  - reflexivity.
  - reflexivity.
  - vm_compute. reflexivity.
  - vm_compute. reflexivity.
  - discriminate.
  - vm_compute. reflexivity.
  - reflexivity.
  - reflexivity.
  - vm_compute. reflexivity.
Defined.
