(* ===== verification/MailSync.v ===== *)
(** * Reading a mailbox ([tasks.mail.sync])

    The quick recent search and the full-mailbox reconciliation, which scans date
    ranges and splits one whose answer is longer than a page. Gmail is a
    parameter: [gmail_list query token] is one page, [None] a call that raises,
    and [fetch] one message. *)

From S2P Require Import Prelude PyStr Sql Mail.

Local Open Scope string_scope.
Local Open Scope Z_scope.

Definition PAGE_SIZE : Z := 500.
Definition SYNC_OVERLAP_DAYS : Z := 2.
Definition MICROS_PER_DAY : Z := 86400 * 1000000.

(** The search a page is asked for: everything, mail on or after a day, or mail
    after one second and before another. *)
Inductive gmail_query : Type :=
| Everything
| SinceDay (day : Z)
| Epochs (after before : option Z).

Abbreviation range := (option Z * option Z)%type.

(** [after:] is one second early: the range's first second is inside it. *)
Definition range_query (r : range) : gmail_query :=
  match r with
  | (None, None) => Everything
  | (s, e) => Epochs ((λ x, x - 1) <$> s) e
  end.

(** One search range is split at a whole-second boundary. *)
Definition _split_epoch (now : Z) (r : range) : option Z :=
  match r with
  | (None, None) => Some now
  | (None, Some e) => Some (e - Z.max 1 (Z.abs e))
  | (Some s, None) => Some (s + Z.max 1 (Z.abs s))
  | (Some s, Some e) => if e - s <=? 1 then None else Some ((s + e) / 2)
  end.

(** [gmail_scan_cursors]. *)
Record cursor : Type := mkCursor {
  cu_pending_ids : list string;
  cu_ranges : list range;
  cu_completed_at : option Z;
}.

(** What a traversal starts from. *)
Definition WHOLE : list range := [(None, None)].

Record mailbox_state : Type := mkSync {
  sy_messages : gmap Z message;
  sy_cursors : gmap Z cursor;
}.

Definition set_cursor (user : Z) (c : cursor) (st : mailbox_state) : mailbox_state :=
  mkSync (sy_messages st) (<[user := c]> (sy_cursors st)).

(** [UPDATE ... WHERE pending_ids = c0's AND ranges = c0's], with its row count. *)
Definition compare_and_set (user : Z) (c0 : cursor) (f : cursor → cursor) (st : mailbox_state)
    : mailbox_state * bool :=
  match sy_cursors st !! user with
  | Some c =>
      if bool_decide ((cu_pending_ids c, cu_ranges c) = (cu_pending_ids c0, cu_ranges c0))
      then (set_cursor user (f c) st, true) else (st, false)
  | None => (st, false)
  end.

Definition _finish_reconciliation (now user : Z) (st : mailbox_state) : mailbox_state :=
  match sy_cursors st !! user with
  | Some c =>
      if bool_decide (cu_pending_ids c = [] ∧ cu_ranges c = [])
      then set_cursor user (mkCursor [] [] (Some now)) st else st
  | None => st
  end.

Section sync.
Context (related : option string → option string → option string → bool * string).
Context (gmail_list : gmail_query → option string → option (list string * option string)).
Context (fetch : string → option ImportedMessage).

(** The first message of each id not stored yet. *)
Fixpoint unseen (user : Z) (t : gmap Z message) (seen : gset string) (ms : list ImportedMessage)
    : list ImportedMessage :=
  match ms with
  | [] => []
  | m :: ms =>
      let pid := im_provider_message_id m in
      if exists_where (λ _, same_message user pid) t || bool_decide (pid ∈ seen)
      then unseen user t seen ms
      else m :: unseen user t ({[ pid ]} ∪ seen) ms
  end.

Definition _store_unseen (user : Z) (ms : list ImportedMessage) (limit : Z) (t : gmap Z message)
    : gmap Z message * Z :=
  let new := unseen user t ∅ ms in
  (fst (store_messages related user (take (Z.to_nat limit) new) t),
   Z.min limit (Z.of_nat (length new))).

(** ** The recent search *)

(** [_since]: the day of the newest stored message, less the overlap. *)
Definition _since (user : Z) (t : gmap Z message) : option Z :=
  match omap (λ x : Z * message,
           if ms_user_id x.2 =? user then im_sent_at (ms_imported x.2) else None) (map_to_list t) with
  | [] => None
  | x :: l => Some ((foldl Z.max x l - SYNC_OVERLAP_DAYS * MICROS_PER_DAY) / MICROS_PER_DAY)
  end.

Definition recent_query (after : option Z) : gmail_query :=
  match after with
  | Some d => SinceDay d
  | None => Everything
  end.

(** The paging loop of [_sync_one]; [None] when a call raised, with what was
    stored before it. *)
Fixpoint recent_pages (pages_left : nat) (user : Z) (q : gmail_query) (token : option string)
    (limit stored : Z) (t : gmap Z message) : gmap Z message * option Z :=
  match pages_left with
  | O => (t, Some stored)
  | S pages_left =>
      if negb (stored <? limit) then (t, Some stored)
      else
        match gmail_list q token with
        | None => (t, None)
        | Some (ids, next) =>
            match mapM fetch ids with
            | None => (t, None)
            | Some ms =>
                let '(t, n) := _store_unseen user ms (limit - stored) t in
                match next with
                | Some tok =>
                    if String.eqb tok "" then (t, Some (stored + n))
                    else recent_pages pages_left user q (Some tok) limit (stored + n) t
                | None => (t, Some (stored + n))
                end
            end
        end
  end.

(** ** The reconciliation *)

(** What one turn of the loop decides from the cursor it read. *)
Inductive turn_plan : Type :=
| Advance (batch remaining : list string)   (** fetch and store, then drop from pending *)
| RestartScan
| Split (ranges : list range)
| Leaf (ids : list string) (ranges : list range)
| OutOfRanges
| Raise.

Definition reconcile_plan (now : Z) (ranges_left messages_left : nat) (c : cursor) : turn_plan :=
  match cu_pending_ids c, last (cu_ranges c) with
  | (_ :: _) as pending, _ => Advance (take messages_left pending) (drop messages_left pending)
  | [], None => RestartScan
  | [], Some r =>
      match ranges_left with
      | O => OutOfRanges
      | S _ =>
          match gmail_list (range_query r) None with
          | None => Raise
          | Some (ids, next) =>
              let more := match next with Some tok => negb (String.eqb tok "") | None => false end in
              if more then
                match _split_epoch now r with
                | None => Raise
                | Some m =>
                    Split (removelast (cu_ranges c) ++ [(r.1, Some m); (Some m, r.2)])%list
                end
              else Leaf ids (removelast (cu_ranges c))
          end
      end
  end.

(** How a turn ends: on with these budgets, out of the loop, or an exception. *)
Inductive turn_end : Type :=
| Continue (ranges_left messages_left : nat)
| Break
| Raised.

(** One turn: the plan made from the cursor [c0] it read, then its writes against
    the cursor as it is now. *)
Definition reconcile_turn (now user : Z) (ranges_left messages_left : nat) (c0 : cursor)
    (st : mailbox_state) : mailbox_state * turn_end :=
  match reconcile_plan now ranges_left messages_left c0 with
  | Raise => (st, Raised)
  | OutOfRanges => (st, Break)
  | Advance batch remaining =>
      match mapM fetch batch with
      | None => (st, Raised)
      | Some ms =>
          let t := fst (_store_unseen user ms (Z.of_nat (length ms)) (sy_messages st)) in
          let '(st, advanced) :=
            compare_and_set user c0
              (λ c, mkCursor remaining (cu_ranges c) (cu_completed_at c)) (mkSync t (sy_cursors st)) in
          if advanced && bool_decide (remaining = []) && bool_decide (cu_ranges c0 = [])
          then (_finish_reconciliation now user st, Break)
          else (st, Continue ranges_left (messages_left - length batch))
      end
  | RestartScan =>
      (fst (compare_and_set user c0 (λ _, mkCursor [] WHOLE None) st),
       Continue ranges_left messages_left)
  | Split ranges =>
      (fst (compare_and_set user c0 (λ c, mkCursor [] ranges (cu_completed_at c)) st),
       Continue (pred ranges_left) messages_left)
  | Leaf ids ranges =>
      let '(st, claimed) := compare_and_set user c0 (λ _, mkCursor ids ranges None) st in
      if claimed && bool_decide (ids = []) && bool_decide (ranges = [])
      then (_finish_reconciliation now user st, Break)
      else (st, Continue (pred ranges_left) messages_left)
  end.

(** The loop of [_reconcile_one] with no other writer between a turn's read and
    its writes. [None] only when out of fuel. *)
Fixpoint reconcile_loop (fuel : nat) (now user : Z) (ranges_left messages_left : nat)
    (st : mailbox_state) : option (mailbox_state * bool) :=
  match fuel with
  | O => None
  | S fuel =>
      match messages_left, sy_cursors st !! user with
      | O, _ | _, None => Some (st, true)
      | _, Some c =>
          match reconcile_turn now user ranges_left messages_left c st with
          | (st, Break) => Some (st, true)
          | (st, Raised) => Some (st, false)
          | (st, Continue r m) => reconcile_loop fuel now user r m st
          end
      end
  end.

(** Turns are at most two per range or message, and one restart. *)
Definition reconcile_fuel (ranges_left messages_left : nat) : nat :=
  S (S (2 * (ranges_left + messages_left))).

(** [INSERT ... ON CONFLICT DO NOTHING]: the columns' defaults. *)
Definition ensure_cursor (user : Z) (st : mailbox_state) : mailbox_state :=
  match sy_cursors st !! user with
  | Some _ => st
  | None => set_cursor user (mkCursor [] WHOLE None) st
  end.

Definition _reconcile_one (now user : Z) (ranges_per_cycle messages_per_cycle : nat)
    (st : mailbox_state) : option (mailbox_state * bool) :=
  reconcile_loop (reconcile_fuel ranges_per_cycle messages_per_cycle) now user
    ranges_per_cycle messages_per_cycle (ensure_cursor user st).

(** [_sync_one]: false when a call raised; what was stored before it stays. *)
Definition _sync_one (now user : Z) (limit : Z) (pages ranges_per_cycle messages_per_cycle : nat)
    (st : mailbox_state) : option (mailbox_state * bool) :=
  let q := recent_query (_since user (sy_messages st)) in
  match recent_pages pages user q None limit 0 (sy_messages st) with
  | (t, None) => Some (mkSync t (sy_cursors st), false)
  | (t, Some _) =>
      _reconcile_one now user ranges_per_cycle messages_per_cycle (mkSync t (sy_cursors st))
  end.
End sync.
