(* ===== verification/SyncProps.v ===== *)
(** * The mailbox scan misses nothing and ends

    Coverage holds for any interleaving of workers; completion for one worker
    whose calls succeed. *)

From S2P Require Import Prelude PyStr Sql Mail MailProps MailSync.

Local Open Scope Z_scope.

(** A page token that asks for another page. *)
Definition more (next : option string) : bool :=
  match next with Some tok => negb (String.eqb tok "") | None => false end.

Definition in_range (r : range) (t : Z) : Prop :=
  (∀ s, r.1 = Some s → s ≤ t) ∧ (∀ e, r.2 = Some e → t < e).

(** A search finds at least the mail strictly between its bounds, and at most the
    mail from its [after] second on. *)
Definition surely_found (q : gmail_query) (t : Z) : Prop :=
  match q with
  | Everything => True
  | SinceDay _ => False
  | Epochs a b => (∀ x, a = Some x → x < t) ∧ (∀ y, b = Some y → t < y)
  end.

Definition maybe_found (q : gmail_query) (t : Z) : bool :=
  match q with
  | Everything => true
  | SinceDay _ => true
  | Epochs a b =>
      match a with Some x => x <=? t | None => true end &&
      match b with Some y => t <? y | None => true end
  end.

Definition found (q : gmail_query) (box : list (string * Z)) : nat :=
  length (filter (λ m, maybe_found q m.2 = true) box).

(** The mail [id] is a row of the person's messages. *)
Definition stored (fetch : string → option ImportedMessage) (user : Z) (t : gmap Z message)
    (id : string) : Prop :=
  ∃ im mid r, fetch id = Some im ∧ t !! mid = Some r ∧
    same_message user (im_provider_message_id im) r = true.

(** What a cursor leaves to do still holds the mail not yet stored. *)
Definition covers (fetch : string → option ImportedMessage) (box : list (string * Z)) (user : Z)
    (t : gmap Z message) (c : cursor) : Prop :=
  ∀ id s, (id, s) ∈ box → stored fetch user t id ∨ id ∈ cu_pending_ids c ∨
    ∃ r, r ∈ cu_ranges c ∧ in_range r s.

Definition covered fetch box (user : Z) (st : mailbox_state) : Prop :=
  ∃ c, sy_cursors st !! user = Some c ∧ covers fetch box user (sy_messages st) c.

(** A listing whose last page of a search holds all it surely finds of [box]: the
    mail the mailbox had throughout. Other mail may come and go. *)
Definition lists_all (box : list (string * Z))
    (gmail_list : gmail_query → option string → option (list string * option string)) : Prop :=
  ∀ q ids next id t, gmail_list q None = Some (ids, next) → more next = false →
    (id, t) ∈ box → surely_found q t → id ∈ ids.

(** A worker's turn for anybody, from any cursor it may have read and on any day's
    listing, or anything that stores mail, a recent search included. *)
Inductive sync_step related fetch (box : list (string * Z)) : mailbox_state → mailbox_state → Prop :=
| step_turn gmail_list now who ranges_left messages_left c0 st :
    lists_all box gmail_list →
    sync_step related fetch box st
      (fst (reconcile_turn related gmail_list fetch now who ranges_left messages_left c0 st))
| step_import who ms st :
    sync_step related fetch box st
      (mkSync (fst (store_messages related who ms (sy_messages st))) (sy_cursors st))
| step_ensure who st : sync_step related fetch box st (ensure_cursor who st).

(** The turns a range still takes, with the messages it lists. *)
Inductive drain (gmail_list : gmail_query → option string → option (list string * option string))
    : range → nat → Prop :=
| drain_leaf r ids next :
    gmail_list (range_query r) None = Some (ids, next) → more next = false →
    drain gmail_list r (S (length ids))
| drain_split r ids next m a b :
    gmail_list (range_query r) None = Some (ids, next) → more next = true →
    (∀ now, _split_epoch now r = Some m) →
    drain gmail_list (r.1, Some m) a → drain gmail_list (Some m, r.2) b →
    drain gmail_list r (S (a + b)).

(** A scan in progress that takes [n] more. *)
Definition at_cost gmail_list (user : Z) (n : nat) (st : mailbox_state) : Prop :=
  ∃ c ks, sy_cursors st !! user = Some c ∧ (cu_pending_ids c ≠ [] ∨ cu_ranges c ≠ []) ∧
    Forall2 (drain gmail_list) (cu_ranges c) ks ∧
    n = (length (cu_pending_ids c) + sum_list ks)%nat.

Definition finished (user : Z) (st : mailbox_state) : Prop :=
  ∃ now, sy_cursors st !! user = Some (mkCursor [] [] (Some now)).

(** [n] cycles of the reconciliation, the [k]-th at [clock k]. *)
Fixpoint cycles related gmail_list fetch (clock : nat → Z) (user : Z) (ranges messages : nat)
    (n : nat) (st : mailbox_state) : option mailbox_state :=
  match n with
  | O => Some st
  | S n =>
      st ← cycles related gmail_list fetch clock user ranges messages n st;
      fst <$> _reconcile_one related gmail_list fetch (clock n) user ranges messages st
  end.

(** A mailbox of two messages, listed a page at a time. *)
Definition demo_box : list (string * Z) := [("a"%string, 1000); ("b"%string, 2000)].

Definition demo_list (q : gmail_query) (_ : option string) : option (list string * option string) :=
  Some ((filter (λ m, maybe_found q m.2 = true) demo_box).*1, None).

Definition demo_fetch (id : string) : option ImportedMessage :=
  Some (mkImported id "gmail" None None None None [] None None None None None).

Definition demo_related (_ _ _ : option string) : bool * string := (true, "kept"%string).

Definition demo_start : mailbox_state := mkSync ∅ {[ 7 := mkCursor [] WHOLE None ]}.

Definition demo_turn (c0 : cursor) (st : mailbox_state) : mailbox_state :=
  fst (reconcile_turn demo_related demo_list demo_fetch 5000 7 2 2 c0 st).

(** ** Lemmas: storing *)

Lemma store_one_same related user t m mid r who pid :
  t !! mid = Some r → same_message who pid r = true →
  ∃ r', store_one related user t m !! mid = Some r' ∧ same_message who pid r' = true.
Proof.
  intros Hr Hs. unfold store_one. destruct (related _ _ _) as [hit reason].
  destruct (ids_where _ t) as [|i l].
  - exists r. rewrite lookup_insert_ne; [done|]. intros <-. by rewrite fresh_id_lookup in Hr.
  - rewrite lookup_update_where, Hr. simpl. destruct (same_message user _ r); by eexists.
Qed.

Lemma store_one_has related user t m :
  ∃ mid r, store_one related user t m !! mid = Some r ∧
    same_message user (im_provider_message_id m) r = true.
Proof.
  unfold store_one. destruct (related _ _ _) as [hit reason].
  change (im_provider_message_id (as_stored m)) with (im_provider_message_id m).
  destruct (ids_where _ t) as [|i l] eqn:E.
  - eexists _, _. rewrite lookup_insert_eq. split; [done|]. unfold same_message. simpl.
    by rewrite Z.eqb_refl, String.eqb_refl.
  - assert (i ∈ ids_where (λ _, same_message user (im_provider_message_id m)) t) as Hi
      by (rewrite E; by left).
    apply elem_of_ids_where in Hi as (r & Hr & Hs). eexists i, _.
    rewrite lookup_update_where, Hr. simpl. rewrite Hs. split; [done|]. exact Hs.
Qed.

Lemma store_messages_same related user ms t mid r who pid :
  t !! mid = Some r → same_message who pid r = true →
  ∃ r', fst (store_messages related user ms t) !! mid = Some r' ∧ same_message who pid r' = true.
Proof.
  simpl. revert t r. induction ms as [|m ms IH]; intros t r Hr Hs; simpl; [by exists r|].
  destruct (store_one_same related user t m mid r who pid Hr Hs) as (r1 & Hr1 & Hs1). by apply (IH _ r1).
Qed.

Lemma store_messages_has related user ms t m :
  m ∈ ms → ∃ mid r, fst (store_messages related user ms t) !! mid = Some r ∧
    same_message user (im_provider_message_id m) r = true.
Proof.
  revert t. induction ms as [|x ms IH]; intros t; [by intros ?%elem_of_nil|].
  intros [->|Hm]%elem_of_cons; [|by apply (IH (store_one related user t x))].
  destruct (store_one_has related user t x) as (mid & r & Hr & Hs).
  destruct (store_messages_same related user ms (store_one related user t x) mid r user
    (im_provider_message_id x) Hr Hs) as (r' & Hr' & Hs'). by exists mid, r'.
Qed.

Lemma unseen_cover user t seen ms m :
  m ∈ ms → exists_where (λ _, same_message user (im_provider_message_id m)) t = true ∨
    im_provider_message_id m ∈ seen ∨
    ∃ m', m' ∈ unseen user t seen ms ∧ im_provider_message_id m' = im_provider_message_id m.
Proof.
  revert seen. induction ms as [|x ms IH]; intros seen; [by intros ?%elem_of_nil|].
  intros [->|Hm]%elem_of_cons; simpl.
  - destruct (exists_where _ t) eqn:E; [by left|]. simpl. case_bool_decide; [by right; left|].
    right. right. exists x. split; [by left|done].
  - destruct (_ || _); [by apply IH|].
    destruct (IH ({[im_provider_message_id x]} ∪ seen) Hm) as [?|[Hs|(m' & ? & ?)]]; [by left| |].
    + apply elem_of_union in Hs as [->%elem_of_singleton|?]; [|by right; left].
      right. right. exists x. split; [by left|done].
    + right. right. exists m'. split; [by right|done].
Qed.

Lemma unseen_length user t seen ms : (length (unseen user t seen ms) ≤ length ms)%nat.
Proof.
  revert seen. induction ms as [|x ms IH]; intros seen; simpl; [done|].
  destruct (_ || _); [by apply le_S|]. simpl. apply le_n_S, IH.
Qed.

Section stored.
Context (related : option string → option string → option string → bool * string).
Context (fetch : string → option ImportedMessage) (user : Z).

Lemma stored_mono who ms t id :
  stored fetch user t id → stored fetch user (fst (store_messages related who ms t)) id.
Proof.
  intros (im & mid & r & Hf & Hr & Hs).
  destruct (store_messages_same related who ms t mid r user _ Hr Hs) as (r' & ? & ?).
  by exists im, mid, r'.
Qed.

Lemma store_unseen_mono who ms limit t id :
  stored fetch user t id → stored fetch user (fst (_store_unseen related who ms limit t)) id.
Proof. apply stored_mono. Qed.

(** A whole batch, fetched and stored without a limit, is stored. *)
Lemma store_unseen_stores batch ms t id :
  mapM fetch batch = Some ms → id ∈ batch →
  stored fetch user (fst (_store_unseen related user ms (Z.of_nat (length ms)) t)) id.
Proof.
  intros Hms Hid. apply mapM_Some in Hms. apply list_elem_of_lookup in Hid as [k Hk].
  destruct (Forall2_lookup_l _ _ _ _ _ Hms Hk) as (im & Him & Hf). simpl in Hf.
  apply list_elem_of_lookup_2 in Him. unfold _store_unseen. cbn [fst].
  set (new := unseen user t ∅ ms). rewrite Nat2Z.id, take_ge by apply unseen_length.
  destruct (unseen_cover user t ∅ ms im Him) as [He|[He|(m' & Hm' & Heq)]].
  - apply exists_where_true in He as (mid & r & Hr & Hs). apply stored_mono. by exists im, mid, r.
  - set_solver.
  - destruct (store_messages_has related user new t m' Hm') as (mid & r & Hr & Hs).
    rewrite Heq in Hs. by exists im, mid, r.
Qed.
End stored.

(** ** Lemmas: coverage *)

Section coverage.
Context (related : option string → option string → option string → bool * string).
Context (fetch : string → option ImportedMessage) (box : list (string * Z)) (user : Z).

Lemma compare_and_set_inv who c0 f st :
  let '(st', done) := compare_and_set who c0 f st in
  sy_messages st' = sy_messages st ∧
  ((done = false ∧ st' = st) ∨
   ∃ c, done = true ∧ sy_cursors st !! who = Some c ∧ cu_pending_ids c = cu_pending_ids c0 ∧
     cu_ranges c = cu_ranges c0 ∧ st' = set_cursor who (f c) st).
Proof.
  unfold compare_and_set. destruct (sy_cursors st !! who) as [c|] eqn:E; [|by auto].
  case_bool_decide as Hc; [|by auto]. injection Hc as Hp Hr. split; [done|]. right. by exists c.
Qed.

Lemma compare_and_set_covers who c0 f st :
  (∀ c, cu_pending_ids c = cu_pending_ids c0 → cu_ranges c = cu_ranges c0 →
    who = user → covers fetch box user (sy_messages st) c → covers fetch box user (sy_messages st) (f c)) →
  covered fetch box user st → covered fetch box user (fst (compare_and_set who c0 f st)).
Proof.
  intros Hf (c & Hc & Hcov). pose proof (compare_and_set_inv who c0 f st) as Hi.
  destruct (compare_and_set who c0 f st) as [st' d].
  destruct Hi as [_ [[_ ->]|(c1 & _ & Hc1 & Hp & Hr & ->)]]; [by exists c|].
  destruct (decide (who = user)) as [->|Hne].
  - simplify_eq. exists (f c). split; [by apply lookup_insert_eq|]. by apply Hf.
  - exists c. split; [|done]. simpl. by rewrite lookup_insert_ne.
Qed.

Lemma finish_covers now who st :
  covered fetch box user st → covered fetch box user (_finish_reconciliation now who st).
Proof.
  intros (c & Hc & Hcov). unfold _finish_reconciliation.
  destruct (sy_cursors st !! who) as [c1|] eqn:Hc1; [|by exists c].
  case_bool_decide as He; [|by exists c]. destruct (decide (who = user)) as [->|Hne].
  - simplify_eq. eexists. split; [by apply lookup_insert_eq|]. intros id s Hb.
    destruct He as [Hp Hr]. specialize (Hcov id s Hb). by rewrite Hp, Hr in Hcov.
  - exists c. split; [|done]. simpl. by rewrite lookup_insert_ne.
Qed.

Lemma import_covers who ms st :
  covered fetch box user st →
  covered fetch box user (mkSync (fst (store_messages related who ms (sy_messages st))) (sy_cursors st)).
Proof.
  intros (c & Hc & Hcov). exists c. split; [done|]. intros id s Hb.
  destruct (Hcov id s Hb) as [Hs|Hs]; [|by right]. left. by apply stored_mono.
Qed.

Lemma in_range_found r t : in_range r t → surely_found (range_query r) t.
Proof.
  destruct r as [[s|] [e|]]; intros [Hs He]; simpl in *; try done; (split; [|]);
    intros x Hx; simplify_eq; try (specialize (Hs _ eq_refl)); try (specialize (He _ eq_refl)); lia.
Qed.

Lemma in_range_split r m t : in_range r t → in_range (r.1, Some m) t ∨ in_range (Some m, r.2) t.
Proof.
  intros [Hs He]. destruct (Z.lt_ge_cases t m); [left|right]; (split; simpl; [|]);
    intros; simplify_eq; auto.
Qed.

Lemma removelast_last {A} (l : list A) x : last l = Some x → l = (removelast l ++ [x])%list.
Proof.
  intros Hl. apply last_Some in Hl as [l' ->]. by rewrite removelast_last.
Qed.

Lemma plan_advance gmail_list now rl ml c batch remaining :
  reconcile_plan gmail_list now rl ml c = Advance batch remaining →
  cu_pending_ids c = (batch ++ remaining)%list.
Proof.
  unfold reconcile_plan. destruct (cu_pending_ids c) as [|p ps] eqn:Ep.
  - destruct (last _); [|done]. destruct rl; [done|].
    destruct (gmail_list _ _) as [[ids next]|]; [|done].
    destruct (match next with Some _ => _ | None => _ end); [by destruct (_split_epoch _ _)|done].
  - intros H. injection H as <- <-. symmetry. apply take_drop.
Qed.

Lemma plan_page gmail_list now rl ml c r :
  cu_pending_ids c = [] → last (cu_ranges c) = Some r →
  reconcile_plan gmail_list now (S rl) ml c =
  match gmail_list (range_query r) None with
  | None => Raise
  | Some (ids, next) =>
      if more next then
        match _split_epoch now r with
        | None => Raise
        | Some m => Split (removelast (cu_ranges c) ++ [(r.1, Some m); (Some m, r.2)])%list
        end
      else Leaf ids (removelast (cu_ranges c))
  end.
Proof. unfold reconcile_plan. by intros -> ->. Qed.

(** What a plan other than an advance leaves pending and in range covers what the
    cursor it was made from did. *)
Lemma plan_split gmail_list now rl ml c rs :
  reconcile_plan gmail_list now rl ml c = Split rs →
  cu_pending_ids c = [] ∧ ∃ front r m, cu_ranges c = (front ++ [r])%list ∧
    _split_epoch now r = Some m ∧ rs = (front ++ [(r.1, Some m); (Some m, r.2)])%list.
Proof.
  destruct (cu_pending_ids c) as [|p ps] eqn:Ep;
    [|by unfold reconcile_plan; rewrite Ep].
  destruct (last (cu_ranges c)) as [r|] eqn:El; [|by unfold reconcile_plan; rewrite Ep, El].
  destruct rl as [|rl]; [by unfold reconcile_plan; rewrite Ep, El|].
  rewrite (plan_page _ _ _ _ _ r) by done. destruct (gmail_list _ _) as [[ids next]|]; [|done].
  destruct (more next); [|done]. destruct (_split_epoch now r) as [m|] eqn:Em; [|done].
  intros [= <-]. split; [done|]. exists (removelast (cu_ranges c)), r, m.
  split; [by apply (removelast_last _ _ El)|done].
Qed.

Lemma plan_leaf gmail_list now rl ml c ids rs :
  reconcile_plan gmail_list now rl ml c = Leaf ids rs →
  cu_pending_ids c = [] ∧ ∃ r next, cu_ranges c = (rs ++ [r])%list ∧
    gmail_list (range_query r) None = Some (ids, next) ∧ more next = false.
Proof.
  destruct (cu_pending_ids c) as [|p ps] eqn:Ep;
    [|by unfold reconcile_plan; rewrite Ep].
  destruct (last (cu_ranges c)) as [r|] eqn:El; [|by unfold reconcile_plan; rewrite Ep, El].
  destruct rl as [|rl]; [by unfold reconcile_plan; rewrite Ep, El|].
  rewrite (plan_page _ _ _ _ _ r) by done. destruct (gmail_list _ _) as [[ids' next]|] eqn:Eg; [|done].
  destruct (more next) eqn:Em; [by destruct (_split_epoch now r)|]. intros [= <- <-].
  split; [done|]. exists r, next. split; [by apply (removelast_last _ _ El)|done].
Qed.

Lemma turn_covers gmail_list now who rl ml c0 st :
  lists_all box gmail_list → covered fetch box user st →
  covered fetch box user (fst (reconcile_turn related gmail_list fetch now who rl ml c0 st)).
Proof.
  intros Hlist Hcov. unfold reconcile_turn.
  destruct (reconcile_plan gmail_list now rl ml c0) as [batch remaining| |rs|ids rs| |] eqn:Hplan;
    [| | | |done|done].
  - destruct (mapM fetch batch) as [ms|] eqn:Hms; [|done].
    apply plan_advance in Hplan.
    set (t := fst (_store_unseen related who ms _ _)).
    match goal with |- context [compare_and_set ?w ?c ?f ?s] =>
      assert (covered fetch box user (fst (compare_and_set w c f s))) as Hcas;
        [|destruct (compare_and_set w c f s) as [st' done]] end.
    + apply compare_and_set_covers; [|by apply import_covers].
      intros c Hp Hr -> Hc id s Hb. simpl.
      destruct (Hc id s Hb) as [?|[Hi|?]]; [by left| |by right; right].
      rewrite Hp, Hplan in Hi. apply elem_of_app in Hi as [Hi|?]; [|by right; left].
      left. by apply (store_unseen_stores related fetch user batch).
    + destruct (_ && _ && _); simpl in *; [by apply finish_covers|done].
  - apply compare_and_set_covers; [|done]. intros c Hp Hr _ Hc id s Hb. right. right.
    exists (None, None). split; [by left|done].
  - apply plan_split in Hplan as (Hp0 & front & r & m & Hr0 & _ & ->).
    apply compare_and_set_covers; [|done]. intros c Hp Hr _ Hc id s Hb.
    destruct (Hc id s Hb) as [?|[Hi|(r' & Hr' & Hin)]]; [by left| |].
    + rewrite Hp, Hp0 in Hi. by apply elem_of_nil in Hi.
    + right. right. simpl. rewrite Hr, Hr0 in Hr'. apply elem_of_app in Hr' as [?|Hr'%list_elem_of_singleton].
      * exists r'. split; [by apply elem_of_app; left|done].
      * subst r'. destruct (in_range_split r m s Hin) as [?|?]; eexists; (split; [|done]);
          apply elem_of_app; right; [by left|by right; left].
  - apply plan_leaf in Hplan as (Hp0 & r & next & Hr0 & Hpage & Hmore).
    match goal with |- context [compare_and_set ?w ?c ?f ?s] =>
      assert (covered fetch box user (fst (compare_and_set w c f s))) as Hcas;
        [|destruct (compare_and_set w c f s) as [st' done]] end.
    + apply compare_and_set_covers; [|done]. intros c Hp Hr _ Hc id s Hb.
      destruct (Hc id s Hb) as [?|[Hi|(r' & Hr' & Hin)]]; [by left| |].
      * rewrite Hp, Hp0 in Hi. by apply elem_of_nil in Hi.
      * right. simpl. rewrite Hr, Hr0 in Hr'. apply elem_of_app in Hr' as [?|Hr'%list_elem_of_singleton].
        -- right. by exists r'.
        -- subst r'. left. apply (Hlist _ _ _ id s Hpage Hmore Hb). by apply in_range_found.
    + destruct (_ && _ && _); simpl in *; [by apply finish_covers|done].
Qed.

Lemma step_covers st st' :
  sync_step related fetch box st st' → covered fetch box user st → covered fetch box user st'.
Proof.
  destruct 1 as [gmail_list now who rl ml c0 st Hlist|who ms st|who st].
  - by apply turn_covers.
  - by apply import_covers.
  - intros (c & Hc & Hcov). unfold ensure_cursor. destruct (sy_cursors st !! who) eqn:E; [by exists c|].
    exists c. split; [|done]. simpl. rewrite lookup_insert_ne; [done|]. intros ->. by simplify_eq.
Qed.
End coverage.

(** ** Lemmas: progress *)

Section progress.
Context (related : option string → option string → option string → bool * string).
Context (gmail_list : gmail_query → option string → option (list string * option string)).
Context (fetch : string → option ImportedMessage) (box : list (string * Z)).
Context (Hlist : ∀ q, ∃ ids next, gmail_list q None = Some (ids, next) ∧
  (more next = true → PAGE_SIZE < Z.of_nat (found q box))).
Context (Hfetch : ∀ id, is_Some (fetch id)).
Context (Hseconds : ∀ s, Z.of_nat (found (Epochs (Some s) (Some (s + 2))) box) ≤ PAGE_SIZE).

Lemma found_none q : (∀ m, m ∈ box → maybe_found q m.2 = false) → found q box = 0%nat.
Proof.
  intros Hn. unfold found. destruct (filter _ box) as [|m l] eqn:E; [done|].
  assert (m ∈ filter (λ m, maybe_found q m.2 = true) box) as Hm by (rewrite E; by left).
  apply list_elem_of_filter in Hm as [Hm Hb]. by rewrite Hn in Hm.
Qed.

Lemma drains_between s e : s < e → ∃ k, drain gmail_list (Some s, Some e) k.
Proof.
  remember (Z.to_nat (e - s)) as w eqn:Hw. revert s e Hw.
  induction (lt_wf w) as [w _ IH]. intros s e Hw Hse.
  destruct (Hlist (range_query (Some s, Some e))) as (ids & next & Hl & Hmore).
  destruct (more next) eqn:Em; [|by eexists; apply (drain_leaf _ _ _ _ Hl)].
  specialize (Hmore eq_refl). destruct (Z.leb_spec (e - s) 1) as [H1|H1].
  - exfalso. specialize (Hseconds (s - 1)). replace (s - 1 + 2) with e in Hseconds by lia.
    cbn in Hmore. lia.
  - pose proof (Z.div_mod (s + e) 2 ltac:(lia)). pose proof (Z.mod_pos_bound (s + e) 2 ltac:(lia)).
    destruct (IH (Z.to_nat ((s + e) / 2 - s)) ltac:(lia) s ((s + e) / 2) eq_refl ltac:(lia)) as [a Ha].
    destruct (IH (Z.to_nat (e - (s + e) / 2)) ltac:(lia) ((s + e) / 2) e eq_refl ltac:(lia)) as [b Hb].
    eexists. apply (drain_split _ _ _ _ ((s + e) / 2) a b Hl Em); [|done..].
    intros now. simpl. by destruct (Z.leb_spec (e - s) 1); [lia|].
Qed.

Lemma drains_before e : ∃ k, drain gmail_list (None, Some e) k.
Proof.
  assert (∃ lo, ∀ m, m ∈ box → lo ≤ m.2) as [lo Hlo].
  { clear. induction box as [|m l [lo IH]]; [exists 0; by intros ? ?%elem_of_nil|].
    exists (Z.min lo m.2). intros x [->|Hx%IH]%elem_of_cons; lia. }
  remember (Z.to_nat (e - lo)) as w eqn:Hw. revert e Hw.
  induction (lt_wf w) as [w _ IH]. intros e Hw.
  destruct (Hlist (range_query (None, Some e))) as (ids & next & Hl & Hmore).
  destruct (more next) eqn:Em; [|by eexists; apply (drain_leaf _ _ _ _ Hl)].
  specialize (Hmore eq_refl). destruct (Z.le_gt_cases e lo) as [He|He].
  - rewrite found_none in Hmore; [by vm_compute in Hmore|]. intros m Hm. simpl.
    apply Z.ltb_ge. specialize (Hlo m Hm). lia.
  - destruct (IH (Z.to_nat (e - Z.max 1 (Z.abs e) - lo)) ltac:(lia) (e - Z.max 1 (Z.abs e)) eq_refl)
      as [a Ha].
    destruct (drains_between (e - Z.max 1 (Z.abs e)) e ltac:(lia)) as [b Hb].
    eexists. by apply (drain_split _ _ _ _ (e - Z.max 1 (Z.abs e)) a b Hl Em).
Qed.

Lemma drains_after s : ∃ k, drain gmail_list (Some s, None) k.
Proof.
  assert (∃ hi, ∀ m, m ∈ box → m.2 ≤ hi) as [hi Hhi].
  { clear. induction box as [|m l [hi IH]]; [exists 0; by intros ? ?%elem_of_nil|].
    exists (Z.max hi m.2). intros x [->|Hx%IH]%elem_of_cons; lia. }
  remember (Z.to_nat (hi + 2 - s)) as w eqn:Hw. revert s Hw.
  induction (lt_wf w) as [w _ IH]. intros s Hw.
  destruct (Hlist (range_query (Some s, None))) as (ids & next & Hl & Hmore).
  destruct (more next) eqn:Em; [|by eexists; apply (drain_leaf _ _ _ _ Hl)].
  specialize (Hmore eq_refl). destruct (Z.lt_ge_cases (hi + 1) s) as [He|He].
  - rewrite found_none in Hmore; [by vm_compute in Hmore|]. intros m Hm. simpl.
    apply andb_false_intro1, Z.leb_gt. specialize (Hhi m Hm). lia.
  - destruct (IH (Z.to_nat (hi + 2 - (s + Z.max 1 (Z.abs s)))) ltac:(lia) (s + Z.max 1 (Z.abs s)) eq_refl)
      as [b Hb].
    destruct (drains_between s (s + Z.max 1 (Z.abs s)) ltac:(lia)) as [a Ha].
    eexists. by apply (drain_split _ _ _ _ (s + Z.max 1 (Z.abs s)) a b Hl Em).
Qed.

Lemma fetch_all ids : ∃ ms, mapM fetch ids = Some ms.
Proof. apply mapM_is_Some_2. apply Forall_forall. intros id _. apply Hfetch. Qed.

(** What a turn of a lone worker leaves: a finished scan, or one that takes fewer
    turns with fewer budgets. *)
Definition moved_on (user : Z) (n rl ml : nat) (p : mailbox_state * turn_end) : Prop :=
  (p.2 = Break ∧ finished user p.1) ∨
  (∃ rl' ml' n', p.2 = Continue rl' ml' ∧ (rl' + ml' < rl + ml)%nat ∧ (n' < n)%nat ∧
     at_cost gmail_list user n' p.1).

Lemma sum_list_concat (l k : list nat) : sum_list (l ++ k)%list = (sum_list l + sum_list k)%nat.
Proof. induction l as [|x l IH]; simpl; lia. Qed.

Lemma cas_own user c f st :
  sy_cursors st !! user = Some c → compare_and_set user c f st = (set_cursor user (f c) st, true).
Proof. intros Hc. unfold compare_and_set. rewrite Hc. by rewrite bool_decide_eq_true_2. Qed.

Lemma finish_own now user c t m :
  cu_pending_ids c = [] → cu_ranges c = [] →
  finished user (_finish_reconciliation now user (set_cursor user c (mkSync t m))).
Proof.
  intros Hp Hr. exists now. unfold _finish_reconciliation. simpl. rewrite lookup_insert_eq.
  rewrite bool_decide_eq_true_2 by done. simpl. by rewrite lookup_insert_eq.
Qed.

Lemma advance_moves now user n rl ml c st :
  sy_cursors st !! user = Some c → cu_pending_ids c ≠ [] →
  (∃ ks, Forall2 (drain gmail_list) (cu_ranges c) ks ∧
    n = (length (cu_pending_ids c) + sum_list ks)%nat) →
  moved_on user n rl (S ml) (reconcile_turn related gmail_list fetch now user rl (S ml) c st).
Proof.
  intros Hc Hp (ks & Hks & ->). unfold reconcile_turn, reconcile_plan.
  destruct (cu_pending_ids c) as [|p ps] eqn:Ep; [done|].
  destruct (fetch_all (take (S ml) (p :: ps))) as [ms ->].
  rewrite (cas_own user c) by done. cbn [andb].
  destruct (decide (drop (S ml) (p :: ps) = [])) as [Hd|Hd].
  - rewrite (bool_decide_eq_true_2 _ Hd). destruct (decide (cu_ranges c = [])) as [Hr|Hr].
    + rewrite (bool_decide_eq_true_2 _ Hr). left. split; [done|]. by apply finish_own.
    + rewrite (bool_decide_eq_false_2 _ Hr). right. eexists _, _, _. split; [done|].
      split; [simpl; lia|]. split; [|eexists _, ks; split; [apply lookup_insert_eq|]; simpl; auto].
      simpl. rewrite length_drop. lia.
  - rewrite (bool_decide_eq_false_2 _ Hd). right. eexists _, _, _. split; [done|].
    split; [simpl; lia|]. split; [|eexists _, ks; split; [apply lookup_insert_eq|]; simpl; auto].
    simpl. rewrite length_drop. lia.
Qed.

Lemma page_moves now user n rl ml c st :
  sy_cursors st !! user = Some c → cu_pending_ids c = [] → cu_ranges c ≠ [] →
  (∃ ks, Forall2 (drain gmail_list) (cu_ranges c) ks ∧ n = sum_list ks) →
  moved_on user n (S rl) ml (reconcile_turn related gmail_list fetch now user (S rl) ml c st).
Proof.
  intros Hc Hp Hr (ks & Hks & ->). unfold reconcile_turn.
  destruct (last (cu_ranges c)) as [r|] eqn:El; [|by apply last_None in El].
  rewrite (plan_page _ _ _ _ _ r) by done.
  pose proof (removelast_last _ _ El) as Hsplit. remember (removelast (cu_ranges c)) as front.
  rewrite Hsplit in Hks. apply Forall2_app_inv_l in Hks as (ks1 & ks2 & Hf & Hlast & ->).
  apply list.Forall2_cons_inv_l in Hlast as (k & ks3 & Hk & H3 & ->).
  apply Forall2_nil_inv_l in H3 as ->. rewrite sum_list_concat.
  inversion Hk as [? ids next Hl Hm|? ids next m a b Hl Hm Hse Ha Hb]; subst r0 k; rewrite Hl, Hm.
  - rewrite (cas_own user c) by done. destruct st as [t cs].
    destruct (decide (ids = [] ∧ front = [])) as [[Hi Hfr]|Hne].
    + rewrite !bool_decide_eq_true_2 by done. left. split; [done|]. by apply finish_own.
    + replace (true && bool_decide (ids = []) && bool_decide (front = [])) with false.
      2: { symmetry. repeat case_bool_decide; try done. by destruct Hne. }
      right. eexists _, _, _. split; [done|]. split; [simpl; lia|].
      split; [|eexists _, ks1; split; [apply lookup_insert_eq|]; simpl; split; [|by split]].
      * simpl. lia.
      * destruct ids; [right; intros ->; by apply Hne|by left].
  - rewrite Hse, (cas_own user c) by done. right. eexists _, _, _. split; [done|].
    split; [simpl; lia|].
    split; [|eexists _, (ks1 ++ [a; b])%list; split; [apply lookup_insert_eq|]; simpl; split; [right|split; [|done]]].
    + simpl. rewrite sum_list_concat. simpl. lia.
    + by destruct front.
    + apply Forall2_app; [done|]. by repeat constructor.
Qed.

Lemma turn_moves now user n rl ml st :
  at_cost gmail_list user n st → (rl = 0%nat → ∃ c, sy_cursors st !! user = Some c ∧ cu_pending_ids c ≠ []) →
  ∃ c, sy_cursors st !! user = Some c ∧
    moved_on user n rl (S ml) (reconcile_turn related gmail_list fetch now user rl (S ml) c st).
Proof.
  intros (c & ks & Hc & Hw & Hks & ->) Hrl. exists c. split; [done|].
  destruct (decide (cu_pending_ids c = [])) as [Hp|Hp]; [|by apply advance_moves; [..|by exists ks]].
  destruct rl as [|rl]; [destruct (Hrl eq_refl) as (c' & Hc' & ?); by simplify_eq|].
  apply page_moves; [done..|by destruct Hw|]. exists ks. by rewrite Hp.
Qed.

Lemma loop_moves now user fuel n rl ml st :
  (rl + ml < fuel)%nat → at_cost gmail_list user n st →
  ∃ st', reconcile_loop related gmail_list fetch fuel now user rl ml st = Some (st', true) ∧
    (finished user st' ∨ ∃ n', (n' ≤ n)%nat ∧ (1 ≤ rl → 1 ≤ ml → n' < n)%nat ∧
      at_cost gmail_list user n' st').
Proof.
  revert n rl ml st. induction fuel as [|fuel IH]; intros n rl ml st Hfuel Hn; [lia|].
  assert (∃ n', (n' ≤ n)%nat ∧ at_cost gmail_list user n' st) as Hsame by by exists n.
  destruct ml as [|ml].
  { exists st. split; [done|]. right. exists n. split; [done|]. by split; [lia|]. }
  pose proof Hn as (c & ks & Hc & Hw & Hks & Hcost).
  destruct (decide (rl = 0%nat ∧ cu_pending_ids c = [])) as [[-> Hp]|Hgo].
  { exists st. split; [|right; exists n; split; [done|]; by split; [lia|]].
    cbn [reconcile_loop]. rewrite Hc. unfold reconcile_turn, reconcile_plan. rewrite Hp.
    destruct (last (cu_ranges c)) eqn:El; [done|]. apply last_None in El. by destruct Hw. }
  destruct (turn_moves now user n rl ml st Hn) as (c' & Hc' & Hm).
  { intros ->. exists c. split; [done|]. intros ?. by apply Hgo. }
  simplify_eq. cbn [reconcile_loop]. rewrite Hc.
  destruct Hm as [[He Hf]|(rl' & ml' & n' & He & Hb & Hlt & Hn')];
    destruct (reconcile_turn _ _ _ _ _ _ _ _ _) as [st1 e]; simpl in *; subst e.
  - exists st1. by split; [|left].
  - destruct (IH n' rl' ml' st1 ltac:(lia) Hn') as (st' & -> & [Hf|(n2 & Hle & _ & H2)]);
      exists st'; (split; [done|]); [by left|]. right. exists n2. split; [lia|]. by split; [lia|].
Qed.

Lemma whole_moves now user rl ml st c :
  sy_cursors st !! user = Some c → cu_pending_ids c = [] → cu_ranges c = WHOLE →
  (1 ≤ rl)%nat → (1 ≤ ml)%nat →
  ∃ st', _reconcile_one related gmail_list fetch now user rl ml st = Some (st', true) ∧
    (finished user st' ∨ ∃ n, at_cost gmail_list user n st').
Proof.
  intros Hc Hp Hr Hrl Hml. unfold _reconcile_one, ensure_cursor. rewrite Hc.
  destruct rl as [|rl]; [lia|]. destruct ml as [|ml]; [lia|].
  assert (∀ st1 n, at_cost gmail_list user n st1 → ∃ st',
    reconcile_loop related gmail_list fetch (S (2 * (S rl + S ml))) now user rl (S ml) st1
      = Some (st', true) ∧ (finished user st' ∨ ∃ n, at_cost gmail_list user n st')) as Hrest.
  { intros st1 n Hn. destruct (loop_moves now user (S (2 * (S rl + S ml))) n rl (S ml) st1
      ltac:(lia) Hn) as (st' & -> & [?|(n' & _ & _ & ?)]); exists st'; eauto. }
  unfold reconcile_fuel. cbn [reconcile_loop]. rewrite Hc. unfold reconcile_turn.
  rewrite (plan_page _ _ _ _ _ (None, None)) by (done || by rewrite Hr).
  rewrite Hr. cbn [removelast WHOLE app].
  destruct (Hlist (range_query (None, None))) as (ids & next & -> & _).
  destruct (more next).
  - cbn [_split_epoch]. rewrite (cas_own user c) by done. cbn [fst pred].
    destruct (drains_before now) as [a Ha]. destruct (drains_after now) as [b Hb].
    apply (Hrest _ (a + (b + 0))%nat). eexists _, [a; b]. split; [apply lookup_insert_eq|].
    split; [by right|]. split; [by repeat constructor|done].
  - rewrite (cas_own user c) by done. destruct st as [t cs]. destruct (decide (ids = [])) as [->|Hi].
    + cbn -[_finish_reconciliation]. eexists. split; [done|]. left. by apply finish_own.
    + rewrite (bool_decide_eq_false_2 _ Hi). cbn [andb pred].
      apply (Hrest _ (length ids + 0)%nat). eexists _, []. split; [apply lookup_insert_eq|].
      split; [by left|]. split; [constructor|done].
Qed.

Lemma cost_cycles clock user rl ml st k j st1 :
  (1 ≤ rl)%nat → (1 ≤ ml)%nat →
  cycles related gmail_list fetch clock user rl ml j st = Some st1 →
  at_cost gmail_list user k st1 →
  ∃ n st', cycles related gmail_list fetch clock user rl ml n st = Some st' ∧ finished user st'.
Proof.
  intros Hrl Hml. revert j st1. induction (lt_wf k) as [k _ IH]. intros j st1 Hj Hk.
  destruct (loop_moves (clock j) user (reconcile_fuel rl ml) k rl ml st1) as (st2 & Hloop & Hnext);
    [unfold reconcile_fuel; lia|done|].
  assert (cycles related gmail_list fetch clock user rl ml (S j) st = Some st2) as Hsj.
  { cbn [cycles]. rewrite Hj. cbn [mbind option_bind]. unfold _reconcile_one, ensure_cursor.
    destruct Hk as (c & _ & Hc & _). by rewrite Hc, Hloop. }
  destruct Hnext as [Hf|(n' & _ & Hlt & Hn')]; [by exists (S j), st2|].
  by apply (IH n' (Hlt Hrl Hml) (S j) st2).
Qed.
End progress.

(** ** Properties *)

(** C23: a mailbox scan that starts over the whole mailbox and ends with nothing
    pending and no range left has stored every message the mailbox had
    throughout, whatever workers, imports and other people's scans interleaved
    and whatever stale cursor each turn was planned from, provided a page
    without a next token lists all that its search surely finds. *)
Theorem scan_misses_nothing related fetch box user st st' c c' :
  sy_cursors st !! user = Some c → cu_ranges c = WHOLE →
  rtc (sync_step related fetch box) st st' →
  sy_cursors st' !! user = Some c' → cu_pending_ids c' = [] → cu_ranges c' = [] →
  ∀ id t, (id, t) ∈ box → stored fetch user (sy_messages st') id.
Proof.
  intros Hc Hw Hsteps Hc' Hp Hr id t Hb.
  assert (covered fetch box user st) as Hcov.
  { exists c. split; [done|]. intros i s _. right. right. exists (None, None).
    rewrite Hw. split; [by left|done]. }
  assert (covered fetch box user st') as (c1 & Hc1 & Hcov').
  { clear Hc Hw Hc'. induction Hsteps as [|x y z Hxy _ IH]; [done|].
    by apply IH, (step_covers _ _ _ _ _ _ Hxy). }
  simplify_eq. destruct (Hcov' id t Hb) as [?|[Hi|(r & Hi & _)]]; [done| |].
  - rewrite Hp in Hi. by apply elem_of_nil in Hi.
  - rewrite Hr in Hi. by apply elem_of_nil in Hi.
Qed.

Lemma scan_misses_nothing_witness :
  let c1 := mkCursor ["a"; "b"]%string [] None in
  let st2 := demo_turn c1 (demo_turn (mkCursor [] WHOLE None) demo_start) in
  stored demo_fetch 7 (sy_messages st2) "b".
Proof.
  intros c1 st2.
  apply (scan_misses_nothing demo_related demo_fetch demo_box 7 demo_start st2
    (mkCursor [] WHOLE None) (mkCursor [] [] (Some 5000)) eq_refl eq_refl) with (t := 2000);
    [|by vm_compute|done|done|by right; left].
  assert (lists_all demo_box demo_list) as Hall.
  { intros q ids next id t [= <- <-] _ Hb Hs. apply list_elem_of_fmap. exists (id, t).
    split; [done|]. apply list_elem_of_filter. split; [|done].
    destruct q as [|d|a b]; [done|done|]. destruct Hs as [Ha Hbf]. simpl.
    apply andb_true_intro. split.
    - destruct a as [x|]; [|done]. specialize (Ha x eq_refl). apply Z.leb_le. lia.
    - destruct b as [y|]; [|done]. specialize (Hbf y eq_refl). by apply Z.ltb_lt. }
  eapply rtc_l; [by apply (step_turn _ _ _ demo_list 5000 7 2 2 (mkCursor [] WHOLE None))|].
  eapply rtc_l; [by apply (step_turn _ _ _ demo_list 5000 7 2 2 c1)|]. apply rtc_refl.
Defined.

(** C24: with one worker and calls that succeed, the scan of a person who has none
    ends: after finitely many cycles the cursor is empty and marked complete, so
    no range is split for ever, a range of one second is never too long to list
    and every cycle makes progress. Needed are budgets of at least one range and
    one message, a page that asks for another only when its search holds more
    than a page, and no two adjacent seconds with more mail than a page. *)
Theorem scan_completes related gmail_list fetch box clock user rl ml st :
  (∀ q, ∃ ids next, gmail_list q None = Some (ids, next) ∧
    (more next = true → PAGE_SIZE < Z.of_nat (found q box))) →
  (∀ id, is_Some (fetch id)) →
  (∀ s, Z.of_nat (found (Epochs (Some s) (Some (s + 2))) box) ≤ PAGE_SIZE) →
  (1 ≤ rl)%nat → (1 ≤ ml)%nat → sy_cursors st !! user = None →
  ∃ n st', cycles related gmail_list fetch clock user rl ml n st = Some st' ∧ finished user st'.
Proof.
  intros Hlist Hfetch Hsec Hrl Hml Hnone.
  destruct (whole_moves related gmail_list fetch box Hlist Hfetch Hsec (clock 0%nat) user rl ml
    (ensure_cursor user st) (mkCursor [] WHOLE None)) as (st1 & Hone & Hnext); try done.
  { unfold ensure_cursor. rewrite Hnone. apply lookup_insert_eq. }
  assert (cycles related gmail_list fetch clock user rl ml 1 st = Some st1) as H1.
  { cbn [cycles mbind option_bind]. unfold _reconcile_one in *. replace (ensure_cursor user st)
      with (ensure_cursor user (ensure_cursor user st)); [by rewrite Hone|].
    unfold ensure_cursor at 2. rewrite Hnone. unfold ensure_cursor. rewrite Hnone. simpl.
    by rewrite lookup_insert_eq. }
  destruct Hnext as [Hf|[k Hk]]; [by exists 1%nat, st1|].
  by apply (cost_cycles related gmail_list fetch Hfetch clock user rl ml st k 1 st1).
Qed.

Lemma scan_completes_witness :
  ∃ n st', cycles demo_related demo_list demo_fetch (λ k, 5000 + Z.of_nat k) 7 1 1 n
    (mkSync ∅ ∅) = Some st' ∧ finished 7 st'.
Proof.
  apply (scan_completes demo_related demo_list demo_fetch demo_box); [| | |lia|lia|done].
  - intros q. eexists _, None. by split.
  - intros id. by eexists.
  - intros s. unfold PAGE_SIZE, found.
    pose proof (length_filter (λ m, maybe_found (Epochs (Some s) (Some (s + 2))) m.2 = true) demo_box).
    change (length demo_box) with 2%nat in *. lia.
Defined.
