(* ===== verification/MailSweep.v ===== *)
(** * Tying mail to applications ([api.mail.match], [tasks.mail.matching],
    [api.mail.match_sweeps])

    The tiers of [match_message] over one user's applications, and one user's pass:
    detach, lower the floors, decide the pending messages, then derive applications
    from what stays unmatched. A query without an ORDER BY returns its rows in
    whatever order the database chooses, so a tier is given the rows as a list, and
    [listed] is that order in the sweep. [canonicalize] is a parameter: the model
    depends only on which links it makes equal. A message's statements share a time,
    given by its id; progress writes are left out. *)

From Stdlib Require Import Ascii.
From S2P Require Import Prelude PyStr Sql Tasks Mail Pipeline.

Local Open Scope string_scope.
Local Open Scope Z_scope.

Definition UNATTACHABLE_KINDS : list string := ["recruiter_outreach"].

(** ** Links in a message *)

(** What ends a link: white space, angle brackets, quotes, or a closing bracket. *)
Definition ends_url (c : ascii) : bool :=
  is_space c || mem (code c) [60; 62; 34; 39; 41; 93]%nat.

Fixpoint take_while (p : ascii → bool) (l : list ascii) : list ascii :=
  match l with
  | [] => []
  | c :: l' => if p c then c :: take_while p l' else []
  end.

(** [_URL_RE] at the head of the text: the scheme in any case, then at least one
    character of link. *)
Definition url_at (l : list ascii) : option (list ascii) :=
  let low := map lower_char l in
  n ← (if starts_with (chars "https://") low then Some 8%nat
       else if starts_with (chars "http://") low then Some 7%nat else None);
  match take_while (λ c, negb (ends_url c)) (drop n l) with
  | [] => None
  | rest => Some (take n l ++ rest)%list
  end.

(** [findall]: [skip] characters belong to the match before. *)
Fixpoint scan_urls (skip : nat) (l : list ascii) : list string :=
  match l with
  | [] => []
  | _ :: l' =>
      match skip with
      | S k => scan_urls k l'
      | O =>
          match url_at l with
          | Some u => of_chars u :: scan_urls (length u - 1) l'
          | None => scan_urls 0 l'
          end
      end
  end.

Definition urls_in (body : option string) : list string := scan_urls 0 (chars (default "" body)).

(** ** Names *)

Definition COMPANY_SUFFIXES : list string :=
  ["inc"; "llc"; "ltd"; "limited"; "corp"; "corporation"; "co"; "plc"; "gmbh"; "sa"; "nv"].

(** [norm_company]: lowered, the whole words of the suffix list blanked, and
    everything but [a-z0-9] dropped. *)
Definition norm_company (value : option string) : string :=
  let text := strip (lower (default "" value)) in
  let words := filter (λ w, w ∉ COMPANY_SUFFIXES) (runs is_word text) in
  of_chars (filter (λ c, is_alnum_lower c = true) (concat (map chars words))).

Definition _INTERNSHIP_WORDS : list string :=
  ["intern"; "interns"; "internship"; "internships"; "coop"].

Definition is_internship (title : string) : bool :=
  existsb (λ w, mem w _INTERNSHIP_WORDS) (runs is_alnum_lower (lower title)).

(** [_employment_type_contradicts]: a missing or empty title says nothing. *)
Definition _employment_type_contradicts (mail_title app_title : option string) : bool :=
  match mail_title, app_title with
  | Some m, Some a =>
      negb (String.eqb m "") && negb (String.eqb a "") &&
      negb (Bool.eqb (is_internship m) (is_internship a))
  | _, _ => false
  end.

(** ** The window *)

Definition DAY : Z := 24 * 3600 * 1000000.

(** [_NOT_BEFORE_APPLYING]: a tracker application's date is a day. *)
Definition not_before_applying (sent_at : option Z) (a : application) : bool :=
  match ap_applied_at a, sent_at with
  | Some applied, Some sent =>
      applied - (if String.eqb (ap_source_provenance a) "tracker" then DAY else 0) <=? sent
  | _, _ => true
  end.

(** ** The tiers *)

Section match_message.
Context (canonicalize : string → option string).

(** [canonical_urls]; an empty canonical is dropped. *)
Definition canonical_urls (body : option string) : list string :=
  omap (λ url, match canonicalize (rstrip ".,);" url) with
               | Some c => if String.eqb c "" then None else Some c
               | None => None
               end) (urls_in body).

(** [canonicalize(url) or url]. *)
Definition job_canonical (url : string) : string :=
  match canonicalize url with
  | Some c => if String.eqb c "" then url else c
  | None => url
  end.

(** The url of the posting an application is for. *)
Definition job_url (jobs : gmap Z string) (a : application) : option string :=
  ap_job_id a ≫= λ j, jobs !! j.

Definition links_to (jobs : gmap Z string) (canon : list string) (x : Z * application) : bool :=
  match job_url jobs x.2 with Some url => mem (job_canonical url) canon | None => false end.

(** [_by_exact_link]: the first row whose posting the message links to. *)
Definition _by_exact_link (jobs : gmap Z string) (apps : list (Z * application))
    (body : option string) : option MatchDecision :=
  let canon := canonical_urls body in
  match filter (λ x, links_to jobs canon x = true) apps with
  | [] => None
  | (id, a) :: _ =>
      Some (mkDecision (Some id) EXACT_LINK (Some "high")
              ("message links to " ++ job_canonical (default "" (job_url jobs a))))
  end.

(** The rows of the query, then the list comprehension over them. *)
Definition at_company (key : string) (sent_at : option Z) (x : Z * application) : bool :=
  not_before_applying sent_at x.2 && String.eqb (norm_company (ap_company_name x.2)) key.

Definition at_role (key role : string) (sent_at : option Z) (x : Z * application) : bool :=
  at_company key sent_at x && String.eqb (norm_company (ap_title x.2)) role.

Definition _by_company (apps : list (Z * application)) (company : option string)
    (sent_at : option Z) (title : option string) : option MatchDecision :=
  let key := norm_company company in
  if String.eqb key "" then None
  else
    match filter (λ x, at_company key sent_at x = true) apps with
    | [(id, a)] =>
        if _employment_type_contradicts title (ap_title a) then None
        else Some (mkDecision (Some id) ATS_COMPANY (Some "medium")
                     ("single application at " ++ default "None" (ap_company_name a)))
    | _ => None
    end.

Definition _by_company_and_title (apps : list (Z * application)) (company title : option string)
    (sent_at : option Z) : option MatchDecision :=
  let key := norm_company company in
  let role := norm_company title in
  if String.eqb key "" || String.eqb role "" then None
  else
    match filter (λ x, at_role key role sent_at x = true) apps with
    | [(id, a)] =>
        Some (mkDecision (Some id) COMPANY_TITLE (Some "medium")
                ("company and title match: " ++ default "None" (ap_title a)))
    | _ => None
    end.

Definition match_message (jobs : gmap Z string) (apps : list (Z * application))
    (body company title : option string) (sent_at : option Z) : MatchDecision :=
  match _by_exact_link jobs apps body with
  | Some d => d
  | None =>
      match _by_company apps company sent_at title with
      | Some d => d
      | None =>
          match _by_company_and_title apps company title sent_at with
          | Some d => d
          | None => unmatched "no candidate matched"
          end
      end
  end.
End match_message.

(** ** What is selected *)

(** A message with its current event: what the sweep and the derivation read. *)
Record mail_row : Type := mkRow {
  mr_id : Z;
  mr_body : option string;
  mr_thread : option string;
  mr_sent_at : option Z;
  mr_kind : string;
  mr_company : option string;
  mr_title : option string;
}.

Definition row_of (mid : Z) (r : message) (e : event) : mail_row :=
  mkRow mid (im_body_text (ms_imported r)) (im_provider_thread_id (ms_imported r))
    (im_sent_at (ms_imported r)) (ev_kind e) (ev_company e) (ev_role_title e).

(** [ORDER BY m.sent_at NULLS LAST, m.id]. *)
Definition sent_le (a b : mail_row) : Prop :=
  match mr_sent_at a, mr_sent_at b with
  | Some x, Some y => x < y ∨ x = y ∧ mr_id a <= mr_id b
  | Some _, None => True
  | None, Some _ => False
  | None, None => mr_id a <= mr_id b
  end.
#[export] Instance sent_le_dec : RelDecision sent_le.
Proof. intros a b. unfold sent_le. repeat case_match; apply _. Defined.

(** The rows of a query over a user's messages and their current events. *)
Definition rows_where (P : message → event → bool) (user_id : Z) (s : mail) : list mail_row :=
  merge_sort sent_le
    (omap (λ x : Z * message,
       if ms_user_id x.2 =? user_id then
         match current_event s x.2 with
         | Some (_, e) => if P x.2 e then Some (row_of x.1 x.2 e) else None
         | None => None
         end
       else None) (map_to_list (ml_messages s))).

(** [cm.application_id IS NULL] of a left join. *)
Definition unattached (s : mail) (r : message) : bool :=
  match current_match s r with
  | Some (_, a) => bool_decide (am_application_id a = None)
  | None => true
  end.

(** [GREATEST(cm.created_at, since)]. *)
Definition looked_at (cm : match_row) (since : option Z) : Z :=
  default (am_created_at cm) (greatest (Some (am_created_at cm)) since).

(** Could the answer have moved since the matcher last looked? *)
Definition may_have_moved (user_id : Z) (since : option Z) (s : mail) (r : message) (e : event)
    : bool :=
  match current_match s r with
  | None => true
  | Some (_, cm) =>
      (looked_at cm since <? ev_created_at e) ||
      exists_where (λ _ a, (ap_user_id a =? user_id) && (looked_at cm since <? ap_created_at a))
        (ml_applications s)
  end.

Definition pending (user_id : Z) (since : option Z) (s : mail) : list mail_row :=
  rows_where (λ r e, negb (String.eqb (ev_kind e) "not_job_related") && unattached s r &&
                     may_have_moved user_id since s r e) user_id s.

Definition user_applications (user_id : Z) (s : mail) : list (Z * application) :=
  filter (λ x : Z * application, ap_user_id x.2 = user_id) (map_to_list (ml_applications s)).

(** ** Deciding *)

Definition describes_the_person (kind : string) : string :=
  kind ++ " describes the person, not an application".

Definition APPLIED_KINDS : list string :=
  ["acknowledgement"; "rejection"; "assessment_invite"; "interview_invite"; "interview_scheduled";
   "info_request"; "offer"; "position_closed"].
Definition CAP_FLOOR : Z := 15.

Section sweep.
Context (canonicalize : string → option string).
Context (listed : list (Z * application) → list (Z * application)).
Context (jobs : gmap Z string).

(** One message of [match_pending]; the candidates are read anew. *)
Definition decide_row (user_id : Z) (s : mail) (row : mail_row) : MatchDecision :=
  if mem (mr_kind row) UNATTACHABLE_KINDS
  then not_an_application (describes_the_person (mr_kind row)) "none"
  else match_message canonicalize jobs (listed (user_applications user_id s)) (mr_body row)
         (mr_company row) (mr_title row) (mr_sent_at row).

Definition record_new (clock : Z → Z) (mid : Z) (d : MatchDecision) (s : mail) : mail :=
  record (fresh_id (ml_matches s)) (clock mid) mid d None s.

Definition match_row (clock : Z → Z) (user_id : Z) (k : mail * list (string * Z)) (row : mail_row)
    : mail * list (string * Z) :=
  let d := decide_row user_id k.1 row in
  (record_new clock (mr_id row) d k.1,
   alist_set (md_method d) (default 0 (alist_get (md_method d) k.2) + 1) k.2).

(** [limit] is positive when given. *)
Definition limited (limit : option nat) (l : list mail_row) : list mail_row :=
  match limit with Some n => take n l | None => l end.

Definition match_pending (clock : Z → Z) (user_id : Z) (limit : option nat) (since : option Z)
    (s : mail) : mail * list (string * Z) :=
  foldl (match_row clock user_id) (s, []) (limited limit (pending user_id since s)).

(** [detach_unattachable]: the messages, then a refusal each. *)
Definition detachable (user_id : Z) (s : mail) : list mail_row :=
  rows_where (λ r e, mem (ev_kind e) UNATTACHABLE_KINDS && negb (unattached s r)) user_id s.

Definition detach_unattachable (clock : Z → Z) (user_id : Z) (s : mail) : mail * Z :=
  let rows := detachable user_id s in
  (foldl (λ s row, record_new clock (mr_id row)
                     (not_an_application (describes_the_person (mr_kind row)) "none") s) s rows,
   Z.of_nat (length rows)).

(** ** Deriving applications *)

Definition _unmatched_applied_messages (user_id : Z) (s : mail) : list mail_row :=
  rows_where (λ r e, mem (ev_kind e) APPLIED_KINDS && bool_decide (is_Some (ev_company e)) &&
                     unattached s r) user_id s.

Definition _existing_companies (user_id : Z) (s : mail) : list string :=
  filter (λ c, c ≠ "") (map (λ x, norm_company (ap_company_name x.2)) (user_applications user_id s)).

(** [GROUP BY lower(company_name)]; NULLs are one group. *)
Definition derived_cap (user_id : Z) (s : mail) : Z :=
  let names := map (λ x, lower <$> ap_company_name x.2)
                 (filter (λ x : Z * application, ap_source_provenance x.2 = "tracker")
                    (user_applications user_id s)) in
  Z.max (foldr Z.max 0 (map (λ n, Z.of_nat (length (filter (λ n', n' = n) names))) names)) CAP_FLOOR.

Inductive group_key : Type :=
| InThread (thread : string)
| InCompany (company title : string).
#[export] Instance group_key_dec : EqDecision group_key.
Proof. solve_decision. Defined.

(** [dict.setdefault(key, []).append(msg)] and [company_by_group[key] = company]. *)
Fixpoint group_add (key : group_key) (company : string) (msg : mail_row)
    (groups : list (group_key * (string * list mail_row)))
    : list (group_key * (string * list mail_row)) :=
  match groups with
  | [] => [(key, (company, [msg]))]
  | (k, (c, ms)) :: groups =>
      if bool_decide (k = key) then (k, (company, ms ++ [msg])%list) :: groups
      else (k, (c, ms)) :: group_add key company msg groups
  end.

Definition key_of_row (row : mail_row) : group_key :=
  match mr_thread row with
  | Some thread =>
      if String.eqb thread "" then InCompany (norm_company (mr_company row)) (norm_company (mr_title row))
      else InThread thread
  | None => InCompany (norm_company (mr_company row)) (norm_company (mr_title row))
  end.

(** The evidence at untracked companies. *)
Definition untracked (known : list string) (row : mail_row) : bool :=
  let company := norm_company (mr_company row) in
  negb (String.eqb company "") && negb (mem company known).

Definition titled (row : mail_row) : bool := negb (String.eqb (norm_company (mr_title row)) "").

Definition candidate_groups (known : list string) (rows : list mail_row)
    : list (group_key * (string * list mail_row)) :=
  foldl (λ gs row, group_add (key_of_row row) (norm_company (mr_company row)) row gs) []
    (filter (λ row, untracked known row && titled row = true) rows).

Definition messages_without_title (known : list string) (rows : list mail_row) (company : string)
    : list mail_row :=
  filter (λ row, untracked known row && negb (titled row) &&
                 String.eqb (norm_company (mr_company row)) company = true) rows.

Definition group_count (groups : list (group_key * (string * list mail_row))) (company : string) : Z :=
  Z.of_nat (length (filter (λ g : group_key * (string * list mail_row), g.2.1 = company) groups)).

(** [min(x for x in l if x is not None)]. *)
Definition min_time (l : list (option Z)) : option Z :=
  foldr (λ x m, match x, m with
                | Some a, Some b => Some (Z.min a b)
                | Some a, None => Some a
                | None, m => m
                end) None l.

(** The date of a group: all its evidence, and the title-less messages of its
    company when it is the only group there. No message with a date leaves the
    anchor's, which has none. *)
Definition derived_date (known : list string) (rows : list mail_row)
    (groups : list (group_key * (string * list mail_row))) (company : string) (ms : list mail_row)
    : option Z :=
  let evidence :=
    if group_count groups company =? 1 then (ms ++ messages_without_title known rows company)%list
    else ms in
  min_time (map mr_sent_at evidence).

(** [NOT EXISTS (... id = max(id) AND application_id IS NOT NULL)]. *)
Definition anchor_free (mid : Z) (s : mail) : bool :=
  match latest mid s with
  | Some a => bool_decide (am_application_id a = None)
  | None => true
  end.

(** The conditional insert: one statement. *)
Definition seed_insert (now user_id : Z) (applied_at : option Z) (anchor : mail_row) (s : mail)
    : mail * option Z :=
  if anchor_free (mr_id anchor) s then
    let id := fresh_id (ml_applications s) in
    (with_applications
       (<[id := mkApplication user_id None (mr_company anchor) (mr_title anchor) "email" applied_at
                  None now]> (ml_applications s)) s, Some id)
  else (s, None).

Definition derived_from (app : Z) : MatchDecision :=
  mkDecision (Some app) DERIVED (Some "high") "application derived from this mail".

(** The matches of one created application: a statement or two per message. *)
Definition seed_records (clock : Z → Z) (app : Z) (ms : list mail_row) (s : mail) : mail :=
  foldl (λ s row, record_new clock (mr_id row) (derived_from app) s) s ms.

Definition seed_group (clock : Z → Z) (user_id : Z) (known : list string) (cap : Z)
    (rows : list mail_row) (groups : list (group_key * (string * list mail_row)))
    (k : mail * (Z * Z)) (g : group_key * (string * list mail_row)) : mail * (Z * Z) :=
  let '(_, (company, ms)) := g in
  if cap <? group_count groups company then k
  else
    match ms with
    | [] => k (* a group has a message *)
    | anchor :: _ =>
        match seed_insert (clock (mr_id anchor)) user_id
                (derived_date known rows groups company ms) anchor k.1 with
        | (s, Some app) => (seed_records clock app ms s, (k.2.1 + 1, k.2.2 + Z.of_nat (length ms)))
        | (_, None) => k
        end
    end.

(** [seed_from_mail]: applications created, messages matched. *)
Definition seed_from_mail (clock : Z → Z) (user_id : Z) (s : mail) : mail * (Z * Z) :=
  let known := _existing_companies user_id s in
  let cap := derived_cap user_id s in
  let rows := _unmatched_applied_messages user_id s in
  let groups := candidate_groups known rows in
  foldl (seed_group clock user_id known cap rows groups) (s, (0, 0)) groups.

(** ** Floors *)

Definition derived (user_id : Z) (s : mail) : list (Z * application) :=
  filter (λ x : Z * application, ap_source_provenance x.2 = "email" ∧ is_Some (ap_applied_at x.2))
    (user_applications user_id s).

(** [min(m.sent_at)] over the messages attached to [app]. *)
Definition earliest_attached (user_id : Z) (s : mail) (app : Z) : option Z :=
  min_time
    (map (λ x : Z * message,
       match current_match s x.2 with
       | Some (_, a) =>
           if (ms_user_id x.2 =? user_id) && bool_decide (am_application_id a = Some app)
           then im_sent_at (ms_imported x.2) else None
       | None => None
       end) (map_to_list (ml_messages s))).

Definition earliest_loose (user_id : Z) (s : mail) (company : string) : option Z :=
  if String.eqb company "" then None
  else
    min_time
      (map mr_sent_at
         (filter (λ row, norm_company (mr_company row) = company)
            (_unmatched_applied_messages user_id s))).

(** How many derived applications a company has. *)
Definition derived_at (user_id : Z) (s : mail) (company : string) : Z :=
  Z.of_nat (length (filter (λ x : Z * application, norm_company (ap_company_name x.2) = company)
                      (derived user_id s))).

(** The floor of one derived application, by the evidence of [s]. *)
Definition floor_of (user_id : Z) (s : mail) (id : Z) (a : application) (applied : Z) : Z :=
  let key := norm_company (ap_company_name a) in
  default applied
    (min_time [Some applied; earliest_attached user_id s id;
               if derived_at user_id s key =? 1 then earliest_loose user_id s key else None]).

Definition with_applied_at (t : Z) (a : application) : application :=
  mkApplication (ap_user_id a) (ap_job_id a) (ap_company_name a) (ap_title a)
    (ap_source_provenance a) (Some t) (ap_dismissed_at a) (ap_created_at a).

(** [UPDATE ... WHERE id = %s AND applied_at > %s]. *)
Definition lower_floor (id floor : Z) (s : mail) : mail :=
  with_applications
    (update_where (λ i a, (i =? id) && sql_lt (Some floor) (ap_applied_at a)) (with_applied_at floor)
       (ml_applications s)) s.

Definition floor_turn (user_id : Z) (seen : mail) (k : mail * Z) (x : Z * application) : mail * Z :=
  match ap_applied_at x.2 with
  | Some applied =>
      let floor := floor_of user_id seen x.1 x.2 applied in
      if floor <? applied then (lower_floor x.1 floor k.1, k.2 + 1) else k
  | None => k
  end.

(** [recompute_derived_floors]: everything is read first. *)
Definition recompute_derived_floors (user_id : Z) (s : mail) : mail * Z :=
  foldl (floor_turn user_id s) (s, 0) (listed (derived user_id s)).

(** ** The task *)

(** [last_sweep_start]. *)
Definition finished_sweep (user_id : option Z) (_ : Z) (r : task) : bool :=
  String.eqb (t_kind r) "match_mail" && bool_decide (t_status r = Done) &&
  bool_decide (is_Some (t_started_at r)) &&
  bool_decide (obj_text (t_payload r) "limit" = None) &&
  match obj_text (t_payload r) "user_id" with
  | None => true
  | Some u => match user_id with Some id => String.eqb u (pretty.pretty id) | None => false end
  end.

Definition last_sweep_start (user_id : option Z) (tasks : gmap Z task) : option Z :=
  last (ids_where (finished_sweep user_id) tasks) ≫= λ i, tasks !! i ≫= t_started_at.

(** [changed_since]: the user's applications, events and matches. *)
Definition of_user (user_id : option Z) (owner : Z) : bool :=
  match user_id with Some u => owner =? u | None => true end.

Definition mail_of_user (user_id : option Z) (s : mail) (mid : Z) : bool :=
  match ml_messages s !! mid with Some r => of_user user_id (ms_user_id r) | None => false end.

Definition changed_since (since : option Z) (user_id : option Z) (s : mail) : bool :=
  match since with
  | None => true
  | Some t =>
      exists_where (λ _ a, (t <? ap_created_at a) && of_user user_id (ap_user_id a)) (ml_applications s)
      || exists_where (λ _ e, (t <? ev_created_at e) && mail_of_user user_id s (ev_message_id e))
           (ml_events s)
      || exists_where (λ _ a, (t <? am_created_at a) && mail_of_user user_id s (am_message_id a))
           (ml_matches s)
  end.

Record totals : Type := mkTotals {
  to_derived : Z;
  to_swept : Z;
  to_attached : Z;
  to_detached : Z;
  to_floors_lowered : Z;
}.

(** Messages that came out of a sweep holding an application. *)
Definition attached_in (counts : list (string * Z)) : Z :=
  list_sum_Z (map snd (filter (λ p : string * Z, p.1 ≠ UNMATCHED ∧ p.1 ≠ NOT_AN_APPLICATION) counts)).

(** [handle_match_mail] for one user; [true] is a skip. Each stage has its own
    times. *)
Definition match_user (clock_detach clock_match clock_seed : Z → Z) (user_id : Z)
    (limit : option nat) (tasks : gmap Z task) (k : mail * (totals * Z)) : mail * (totals * Z) :=
  let '(s, (t, skipped)) := k in
  let since := if bool_decide (is_Some limit) then None else last_sweep_start (Some user_id) tasks in
  if negb (changed_since since (Some user_id) s) then (s, (t, skipped + 1))
  else
    let '(s, detached) := detach_unattachable clock_detach user_id s in
    let '(s, lowered) := recompute_derived_floors user_id s in
    let '(s, counts) := match_pending clock_match user_id limit since s in
    let '(s, (created, _)) := seed_from_mail clock_seed user_id s in
    (s, (mkTotals (to_derived t + created) (to_swept t + list_sum_Z (map snd counts))
           (to_attached t + attached_in counts) (to_detached t + detached)
           (to_floors_lowered t + lowered), skipped)).

(** The users of a scheduled run: mail or applications, in order. *)
Definition users_of (s : mail) : list Z :=
  merge_sort (≤)
    (remove_dups (map (λ x : Z * message, ms_user_id x.2) (map_to_list (ml_messages s)) ++
                  map (λ x : Z * application, ap_user_id x.2) (map_to_list (ml_applications s)))).

(** [handle_match_mail]: one user when asked, else everybody, in order. [clocks] gives
    each user's stages their times. *)
Definition handle_match_mail (clocks : Z → (Z → Z) * (Z → Z) * (Z → Z)) (requested : option Z)
    (limit : option nat) (tasks : gmap Z task) (s : mail) : mail * (totals * Z) :=
  foldl (λ k u, let '(detach, decide, seed) := clocks u in match_user detach decide seed u limit tasks k)
    (s, (mkTotals 0 0 0 0 0, 0))
    (match requested with Some u => [u] | None => users_of s end).
End sweep.
