(* ===== verification/MatchProps.v ===== *)
(** * The matcher misses nothing it could have decided

    A sweep passes over the messages whose answer cannot have moved since the last
    one. The invariant behind that, over every interleaving of sweeps with the
    writes of people and other workers, and the writes it does not survive. *)

From S2P Require Import Prelude PyStr Sql Tasks Mail Pipeline MailProps MailSweep.

Local Open Scope Z_scope.

#[export] Instance mail_row_dec : EqDecision mail_row.
Proof. solve_decision. Defined.

(** ** The row in force *)

Definition event_in_force (mid : Z) (s : mail) : option event :=
  newest ev_message_id mid (ml_events s) ≫= λ i, ml_events s !! i.

Definition sound (s : mail) : Prop := logged s ∧ ∀ mid, exact_at mid s.

(** Nothing a verdict on [mid] reads has changed. *)
Definition same_view (mid : Z) (s s' : mail) : Prop :=
  (∀ r', ml_messages s' !! mid = Some r' → ∃ r, ml_messages s !! mid = Some r ∧
     ms_user_id r' = ms_user_id r ∧ ms_imported r' = ms_imported r) ∧
  event_in_force mid s' = event_in_force mid s ∧ latest mid s' = latest mid s.

(** A message of [u] that is job mail and has no application. *)
Record open_mail (u : Z) (s : mail) (mid : Z) (r : message) (e : event) : Prop := mkOpen {
  om_message : ml_messages s !! mid = Some r;
  om_user : ms_user_id r = u;
  om_event : event_in_force mid s = Some e;
  om_job_mail : ev_kind e ≠ "not_job_related"%string;
  om_unattached : ∀ a, latest mid s = Some a → am_application_id a = None;
}.

(** The matcher looked after the event and after every application of [u]. *)
Definition looked_since (u : Z) (since : option Z) (s : mail) (mid : Z) (e : event) : Prop :=
  ∃ cm, latest mid s = Some cm ∧ ev_created_at e ≤ looked_at cm since ∧
    ∀ i a, ml_applications s !! i = Some a → ap_user_id a = u → ap_created_at a ≤ looked_at cm since.

(** ** The reference: decide every message without an application *)

Definition all_open (u : Z) (s : mail) : list mail_row :=
  rows_where (λ r e, negb (String.eqb (ev_kind e) "not_job_related") && unattached s r) u s.

Section sweeps.
Context (canonicalize : string → option string).
Context (listed : list (Z * application) → list (Z * application)).
Context (jobs : gmap Z string) (u : Z).
Hypothesis listed_rows : ∀ l, listed l ≡ₚ l.

Abbreviation verdict := (decide_row canonicalize listed jobs).

Definition decide_all (clock : Z → Z) (rows : list mail_row) (s : mail) : mail :=
  foldl (λ s row, record_new clock (mr_id row) (verdict u s row) s) s rows.

(** A message passed over would get the verdict it has, or a person decided it. *)
Definition settled_at (since : option Z) (s : mail) (mid : Z) : Prop :=
  ∀ r e, open_mail u s mid r e → looked_since u since s mid e →
    stands mid (verdict u s (row_of mid r e)) None s = false.

(** ** The system: the mail tables, the last finished sweep's start, the time, and
    the sweep that runs with the rows it has yet to decide *)

Record sweeping : Type := mkSweeping {
  sw_mail : mail;
  sw_since : option Z;
  sw_now : Z;
  sw_run : option (Z * list mail_row);
}.

Definition decided (t mid : Z) (d : MatchDecision) (actor : option Z) (s : mail) : mail :=
  record (fresh_id (ml_matches s)) t mid d actor s.

(** One statement, or one decision made in one go. An application keeps its
    columns, a message its text and date, and a message a sweep has selected is
    not reclassified before the sweep decides it. *)
Inductive sweep_step : sweeping → sweeping → Prop :=
| step_arrives s since now run t mid r :
    now < t → ml_messages s !! mid = None → pointers r = (None, None) →
    sweep_step (mkSweeping s since now run)
      (mkSweeping (with_messages (<[mid := r]> (ml_messages s)) s) since t run)
| step_applies s since now run t id a :
    now < t → ml_applications s !! id = None → ap_created_at a = t →
    sweep_step (mkSweeping s since now run)
      (mkSweeping (with_applications (<[id := a]> (ml_applications s)) s) since t run)
| step_classified s since now run t e :
    now < t → ev_created_at e = t → is_Some (ml_messages s !! ev_message_id e) →
    (∀ t0 rows, run = Some (t0, rows) → ev_message_id e ∉ map mr_id rows) →
    sweep_step (mkSweeping s since now run)
      (mkSweeping (append_event (fresh_id (ml_events s)) e s) since t run)
| step_person s since now run t mid d person :
    now < t → is_Some (ml_messages s !! mid) →
    sweep_step (mkSweeping s since now run)
      (mkSweeping (decided t mid d (Some person) s) since t run)
| step_worker s since now run t mid r e :
    now < t → ml_messages s !! mid = Some r → event_in_force mid s = Some e →
    sweep_step (mkSweeping s since now run)
      (mkSweeping (decided t mid (verdict (ms_user_id r) s (row_of mid r e)) None s) since t run)
| step_derived s since now run t mid d :
    now < t → is_Some (ml_messages s !! mid) → is_Some (md_application_id d) →
    sweep_step (mkSweeping s since now run) (mkSweeping (decided t mid d None s) since t run)
| step_detached s since now run t mid e why :
    now < t → is_Some (ml_messages s !! mid) → event_in_force mid s = Some e →
    ev_kind e ∈ UNATTACHABLE_KINDS →
    sweep_step (mkSweeping s since now run)
      (mkSweeping (decided t mid (not_an_application why "none") None s) since t run)
| step_starts s since now t :
    now < t →
    sweep_step (mkSweeping s since now None) (mkSweeping s since t (Some (t, pending u since s)))
| step_turn s since now t t0 row rows :
    now < t →
    sweep_step (mkSweeping s since now (Some (t0, row :: rows)))
      (mkSweeping (decided t (mr_id row) (verdict u s row) None s) since t (Some (t0, rows)))
| step_finishes s since now t0 :
    sweep_step (mkSweeping s since now (Some (t0, []))) (mkSweeping s (Some t0) now None).

Definition no_mail : sweeping := mkSweeping (mkMail ∅ ∅ ∅ ∅ [] ∅) None 0 None.

(** A row a sweep has yet to decide is still what it read. *)
Definition still (s : mail) (row : mail_row) : Prop :=
  ∃ r e, ml_messages s !! mr_id row = Some r ∧ ms_user_id r = u ∧
    event_in_force (mr_id row) s = Some e ∧ row = row_of (mr_id row) r e.

Record sweep_inv (y : sweeping) : Prop := mkSweepInv {
  si_sound : sound (sw_mail y);
  si_matches : ∀ i a, ml_matches (sw_mail y) !! i = Some a → am_created_at a ≤ sw_now y;
  si_since : ∀ t, sw_since y = Some t → t ≤ sw_now y;
  si_settled : ∀ mid, settled_at (sw_since y) (sw_mail y) mid;
  si_run : ∀ t0 rows, sw_run y = Some (t0, rows) →
    t0 ≤ sw_now y ∧ Forall (still (sw_mail y)) rows ∧
    ∀ mid, mid ∉ map mr_id rows → settled_at (Some t0) (sw_mail y) mid;
}.
End sweeps.

(** ** Lemmas: verdicts do not depend on the order of rows *)

(** Two permuted filters of a query, by how many rows they kept. *)
Ltac few_rows P l l' Hl :=
  let Hf := fresh "Hf" in
  assert (filter P l ≡ₚ filter P l') as Hf by (by rewrite Hl);
  destruct (filter P l) as [|[??] [|[??] ?]], (filter P l') as [|[??] [|[??] ?]];
  try done; try (apply Permutation_length in Hf; done);
  apply Permutation_singleton_r in Hf; by simplify_eq.

Section verdicts.
Context (canonicalize : string → option string).

Lemma by_company_perm apps apps' company sent title :
  apps ≡ₚ apps' → _by_company apps' company sent title = _by_company apps company sent title.
Proof.
  intros H. unfold _by_company. destruct (String.eqb _ _); [done|].
  few_rows (λ x, at_company (norm_company company) sent x = true) apps apps' H.
Qed.

Lemma by_company_and_title_perm apps apps' company title sent :
  apps ≡ₚ apps' →
  _by_company_and_title apps' company title sent = _by_company_and_title apps company title sent.
Proof.
  intros H. unfold _by_company_and_title. destruct (_ || _); [done|].
  few_rows (λ x, at_role (norm_company company) (norm_company title) sent x = true) apps apps' H.
Qed.

(** A link is the only tier whose answer the order of rows can choose. *)
Lemma match_message_perm jobs apps apps' body company title sent :
  apps ≡ₚ apps' →
  _by_exact_link canonicalize jobs apps body = None →
  match_message canonicalize jobs apps' body company title sent =
  match_message canonicalize jobs apps body company title sent.
Proof.
  intros H Hl. unfold match_message. rewrite Hl, (by_company_perm apps apps'),
    (by_company_and_title_perm apps apps') by done.
  unfold _by_exact_link in *.
  assert (filter (λ x, links_to canonicalize jobs (canonical_urls canonicalize body) x = true) apps ≡ₚ
          filter (λ x, links_to canonicalize jobs (canonical_urls canonicalize body) x = true) apps') as Hf
    by by rewrite H.
  destruct (filter _ apps) as [|[??] ?]; [|done]. apply Permutation_nil_l in Hf as <-. done.
Qed.

Lemma match_message_none jobs apps body company title sent :
  md_application_id (match_message canonicalize jobs apps body company title sent) = None →
  _by_exact_link canonicalize jobs apps body = None.
Proof.
  unfold match_message, _by_exact_link. by destruct (filter _ apps) as [|[??] ?].
Qed.
End verdicts.

(** ** Lemmas: rows in force *)

Lemma fresh_in_force {A} (mo : A → Z) mid (log : gmap Z A) a :
  newest mo mid (<[fresh_id log := a]> log) ≫= (λ i, <[fresh_id log := a]> log !! i) =
  if mo a =? mid then Some a else newest mo mid log ≫= λ i, log !! i.
Proof.
  rewrite fresh_newest. destruct (mo a =? mid); simpl; [by rewrite lookup_insert_eq|].
  destruct (newest mo mid log) as [i|] eqn:E; [|done]. simpl. apply lookup_insert_ne.
  intros <-. apply newest_Some in E as [(x & Hx & _) _]. by rewrite fresh_id_lookup in Hx.
Qed.

Lemma event_in_force_append e s mid :
  event_in_force mid (append_event (fresh_id (ml_events s)) e s) =
  if ev_message_id e =? mid then Some e else event_in_force mid s.
Proof. apply fresh_in_force. Qed.

Lemma sound_step s s' : sound s → mail_step s s' → sound s'.
Proof.
  intros [Hl He] Hstep. split; [by eapply step_logged|]. intros mid r' Hr'.
  pose proof (step_advances _ _ _ _ Hl Hstep Hr') as Hs.
  destruct (ml_messages s !! mid) as [r|] eqn:Er; [|done].
  specialize (He mid r Er). unfold pointers in *. destruct (NEWEST_IDS mid s) as [n m].
  injection He as <- <-. destruct Hs as [H1%advances_exact H2%advances_exact]. by rewrite H1, H2.
Qed.

Lemma current_match_latest s mid r :
  sound s → ml_messages s !! mid = Some r → snd <$> current_match s r = latest mid s.
Proof.
  intros [_ He] Hr. specialize (He mid r Hr). unfold pointers, NEWEST_IDS in He.
  unfold current_match, latest. injection He as _ Hp. rewrite Hp.
  destruct (newest _ mid _) as [i|]; [|done]. simpl. by destruct (ml_matches s !! i).
Qed.

Lemma current_event_in_force s mid r :
  sound s → ml_messages s !! mid = Some r → snd <$> current_event s r = event_in_force mid s.
Proof.
  intros [_ He] Hr. specialize (He mid r Hr). unfold pointers, NEWEST_IDS in He.
  unfold current_event, event_in_force. injection He as Hp _. rewrite Hp.
  destruct (newest _ mid _) as [i|]; [|done]. simpl. by destruct (ml_events s !! i).
Qed.

Lemma unattached_spec s mid r :
  sound s → ml_messages s !! mid = Some r →
  unattached s r = true ↔ ∀ a, latest mid s = Some a → am_application_id a = None.
Proof.
  intros Hs Hr. rewrite <- (current_match_latest s mid r) by done. unfold unattached.
  destruct (current_match s r) as [[i a]|]; simpl; [|by split].
  rewrite bool_decide_eq_true. split; [by intros H ? [= <-]|]. intros H. by apply H.
Qed.

Lemma elem_of_rows_where P u s row :
  row ∈ rows_where P u s ↔
  ∃ r i e, ml_messages s !! mr_id row = Some r ∧ ms_user_id r = u ∧
    current_event s r = Some (i, e) ∧ P r e = true ∧ row = row_of (mr_id row) r e.
Proof.
  unfold rows_where. rewrite merge_sort_Permutation, list_elem_of_omap. split.
  - intros ([mid r] & Hr%elem_of_map_to_list & Hrow). simpl in *.
    destruct (Z.eqb_spec (ms_user_id r) u); [|done].
    destruct (current_event s r) as [[j ev]|] eqn:Ee; [|done]. destruct (P r ev) eqn:Ep; [|done].
    injection Hrow as <-. simpl. by exists r, j, ev.
  - intros (r & i & e & Hr & Hu & He & Hp & Heq). exists (mr_id row, r).
    split; [by apply elem_of_map_to_list|]. simpl. rewrite Hu, Z.eqb_refl, He, Hp. by f_equal.
Qed.

Lemma rows_where_ids P u s : NoDup (mr_id <$> rows_where P u s).
Proof.
  unfold rows_where. rewrite merge_sort_Permutation.
  eapply sublist_NoDup; [apply (NoDup_fst_map_to_list (ml_messages s))|].
  induction (map_to_list (ml_messages s)) as [|[mid r] l IH]; csimpl; [done|].
  destruct (ms_user_id r =? u); [|by constructor].
  destruct (current_event s r) as [[i e]|]; [|by constructor].
  destruct (P r e); csimpl; by constructor.
Qed.

#[export] Instance sent_le_total : Total sent_le.
Proof.
  intros a b. unfold sent_le. destruct (mr_sent_at a), (mr_sent_at b); auto; lia.
Qed.
#[export] Instance sent_le_trans : Transitive sent_le.
Proof.
  intros a b c. unfold sent_le. destruct (mr_sent_at a), (mr_sent_at b), (mr_sent_at c); try done; lia.
Qed.

Lemma rows_where_sorted P u s : StronglySorted sent_le (rows_where P u s).
Proof. apply StronglySorted_merge_sort; apply _. Qed.

(** ** Lemmas: what keeps a message settled *)

Section settled.
Context (canonicalize : string → option string).
Context (listed : list (Z * application) → list (Z * application)).
Context (jobs : gmap Z string) (u : Z).
Hypothesis listed_rows : ∀ l, listed l ≡ₚ l.

Abbreviation verdict := (decide_row canonicalize listed jobs).
Abbreviation settled := (settled_at canonicalize listed jobs u).

Lemma verdict_perm s s' row :
  user_applications u s' ≡ₚ user_applications u s → md_application_id (verdict u s row) = None →
  verdict u s' row = verdict u s row.
Proof.
  intros Ha. unfold decide_row. destruct (mem _ _); [done|]. intros Hn%match_message_none.
  apply match_message_perm; [|done]. by rewrite !listed_rows.
Qed.

Lemma verdict_same s s' row :
  ml_applications s' = ml_applications s → verdict u s' row = verdict u s row.
Proof. intros H. unfold decide_row, user_applications. by rewrite H. Qed.

Lemma elem_of_user_applications s i a :
  (i, a) ∈ user_applications u s ↔ ml_applications s !! i = Some a ∧ ap_user_id a = u.
Proof. unfold user_applications. rewrite list_elem_of_filter, elem_of_map_to_list. naive_solver. Qed.

(** A verdict that does not stand over no application repeats it, or a person's. *)
Lemma stands_transfer s s' mid row :
  latest mid s' = latest mid s → (∀ a, latest mid s = Some a → am_application_id a = None) →
  user_applications u s' ≡ₚ user_applications u s →
  stands mid (verdict u s row) None s = false → stands mid (verdict u s' row) None s' = false.
Proof.
  intros Hl Hn Ha. unfold stands. rewrite Hl. destruct (latest mid s) as [cm|]; [|done].
  destruct (bool_decide (is_Some _)); [done|]. simpl. rewrite !negb_false_iff. intros Hr.
  rewrite (verdict_perm s); [done|done|]. unfold repeats in Hr. breflect.
  by etrans; [|by apply (Hn cm)].
Qed.

Lemma settled_same_view since s s' mid :
  same_view mid s s' → user_applications u s' ≡ₚ user_applications u s →
  settled since s mid → settled since s' mid.
Proof.
  intros (Hmsg & He & Hl) Ha Hs r' e [Hr' Hu Hev Hk Hn] (cm & Hcm & Hle & Happs).
  destruct (Hmsg r' Hr') as (r & Hr & Hu' & Hi). rewrite Hl in Hn, Hcm. rewrite He in Hev.
  assert (row_of mid r' e = row_of mid r e) as -> by (unfold row_of; by rewrite Hi).
  apply (stands_transfer s); [done..|]. apply Hs; [split; try done; congruence|].
  exists cm. split_and!; [done..|]. intros i a Hia Hua.
  assert ((i, a) ∈ user_applications u s) as Hin by by apply elem_of_user_applications.
  rewrite <- Ha in Hin. apply elem_of_user_applications in Hin as [? ?]. by eapply Happs.
Qed.

Lemma same_view_refl mid s : same_view mid s s.
Proof. split_and!; [|done..]. intros r Hr. by exists r. Qed.

Lemma decided_other t mid d actor s mid' : mid' ≠ mid → same_view mid' s (decided t mid d actor s).
Proof.
  intros Hne. unfold decided, record. destruct (stands _ _ _ _); [|apply same_view_refl].
  split_and!; [|done|].
  - simpl. intros r' Hr'. rewrite lookup_alter_ne in Hr' by done. by exists r'.
  - rewrite latest_append. by destruct (Z.eqb_spec mid mid').
Qed.

Lemma decided_applications t mid d actor s :
  ml_applications (decided t mid d actor s) = ml_applications s.
Proof. unfold decided, record. by destruct (stands _ _ _ _). Qed.

(** Having decided a message, the matcher would not decide it again. *)
Lemma decided_repeats t mid d s : stands mid d None (decided t mid d None s) = false.
Proof.
  unfold decided, record. destruct (stands mid d None s) eqn:E; [|done].
  unfold stands. rewrite latest_append, Z.eqb_refl. simpl. unfold repeats. simpl.
  by rewrite !bool_decide_eq_true_2, String.eqb_refl by done.
Qed.

Lemma decided_person_stands t mid d person d' s :
  stands mid d' None (decided t mid d (Some person) s) = false.
Proof.
  unfold decided, record. simpl. unfold stands. rewrite latest_append, Z.eqb_refl. done.
Qed.

Lemma sound_decided t mid d actor s :
  sound s → is_Some (ml_messages s !! mid) → sound (decided t mid d actor s).
Proof.
  intros Hs Hmid. unfold decided, record. destruct (stands _ _ _ _); [|done].
  eapply sound_step; [done|]. apply step_match; [apply fresh_id_lookup|done].
Qed.

(** A decision made on a message, from the row its event in force gives. *)
Lemma settled_decided since t d actor s mid mid' :
  (∀ r' e, open_mail u (decided t mid d actor s) mid r' e →
     stands mid (verdict u s (row_of mid r' e)) None (decided t mid d actor s) = false) →
  (mid' ≠ mid → settled since s mid') → settled since (decided t mid d actor s) mid'.
Proof.
  intros Hd Hs. destruct (decide (mid' = mid)) as [->|Hne].
  - intros r' e Ho _. rewrite (verdict_same s) by apply decided_applications. by apply Hd.
  - apply (settled_same_view since s); [by apply decided_other| |by apply Hs].
    unfold user_applications. by rewrite decided_applications.
Qed.

Lemma decided_message t mid d actor s mid' r' :
  ml_messages (decided t mid d actor s) !! mid' = Some r' →
  ∃ r, ml_messages s !! mid' = Some r ∧ ms_user_id r' = ms_user_id r ∧ ms_imported r' = ms_imported r.
Proof.
  unfold decided, record. destruct (stands _ _ _ _); [|by exists r'].
  simpl. rewrite lookup_alter. case_decide as Hm; [subst mid'|intros; by exists r'].
  destruct (ml_messages s !! mid) as [r|]; [|done]. intros [= <-]. by exists r.
Qed.

Lemma decided_events t mid d actor s mid' :
  event_in_force mid' (decided t mid d actor s) = event_in_force mid' s.
Proof. unfold decided, record. by destruct (stands _ _ _ _). Qed.

Lemma decided_matches t mid d actor s i a :
  ml_matches (decided t mid d actor s) !! i = Some a →
  ml_matches s !! i = Some a ∨ am_created_at a = t.
Proof.
  unfold decided, record. destruct (stands _ _ _ _); [|by left]. simpl.
  intros [[_ <-]|[_ ?]]%lookup_insert_Some; [by right|by left].
Qed.

Lemma looked_at_le cm since now :
  am_created_at cm ≤ now → (∀ t, since = Some t → t ≤ now) → looked_at cm since ≤ now.
Proof. intros Hc Hs. unfold looked_at. destruct since as [t|]; simpl; [specialize (Hs t eq_refl)|]; lia. Qed.

Lemma latest_created mid s now cm :
  (∀ i a, ml_matches s !! i = Some a → am_created_at a ≤ now) → latest mid s = Some cm →
  am_created_at cm ≤ now.
Proof.
  unfold latest. destruct (newest _ _ _) as [i|]; [|done]. simpl. intros H Hi. by apply (H i).
Qed.

Section keeps.
Context (s : mail) (now : Z) (since : option Z).
Hypothesis Hsound : sound s.
Hypothesis Hmatches : ∀ i a, ml_matches s !! i = Some a → am_created_at a ≤ now.
Hypothesis Hsince : ∀ t, since = Some t → t ≤ now.

Lemma not_looked_since mid e s' t :
  latest mid s' = latest mid s → now < t → looked_since u since s' mid e →
  ev_created_at e < t ∧ ∀ i a, ml_applications s' !! i = Some a → ap_user_id a = u → ap_created_at a < t.
Proof.
  intros Hl Ht (cm & Hcm & Hle & Happs). rewrite Hl in Hcm.
  assert (looked_at cm since ≤ now) as Hlook by (apply looked_at_le; [by eapply latest_created|done]).
  split; [lia|]. intros i a Hi Ha. specialize (Happs i a Hi Ha). lia.
Qed.

Lemma settled_classified t e mid :
  now < t → ev_created_at e = t → settled since s mid →
  settled since (append_event (fresh_id (ml_events s)) e s) mid.
Proof.
  intros Ht He Hs. destruct (Z.eqb_spec (ev_message_id e) mid) as [Hm|Hm].
  - intros r' e' [_ _ Hev _ _] Hlook. rewrite event_in_force_append, Hm, Z.eqb_refl in Hev.
    injection Hev as <-. eapply (not_looked_since mid e _ t) in Hlook as [? _]; [lia|done|exact Ht].
  - apply (settled_same_view since s); [|done|done]. split_and!; [|rewrite event_in_force_append|done].
    + simpl. intros r' Hr'. rewrite lookup_alter_ne in Hr' by done. by exists r'.
    + by destruct (Z.eqb_spec (ev_message_id e) mid).
Qed.

Lemma settled_applies t id a mid :
  now < t → ml_applications s !! id = None → ap_created_at a = t → settled since s mid →
  settled since (with_applications (<[id := a]> (ml_applications s)) s) mid.
Proof.
  intros Ht Hid Ha Hs. destruct (decide (ap_user_id a = u)) as [Hu|Hu].
  - intros r' e _ Hlook. eapply (not_looked_since mid e _ t) in Hlook as [_ Happs]; [|done|exact Ht].
    specialize (Happs id a (lookup_insert_eq _ _ _) Hu). lia.
  - apply (settled_same_view since s); [split_and!; [intros r Hr; by exists r|done..]| |done].
    unfold user_applications. simpl. rewrite map_to_list_insert by done.
    rewrite filter_cons_False by done. done.
Qed.

Lemma nothing_logged mid :
  ml_messages s !! mid = None → latest mid s = None ∧ event_in_force mid s = None.
Proof.
  intros Hmid. destruct Hsound as [[He Hm] _]. unfold latest, event_in_force.
  rewrite !(proj2 (newest_None _ _ _)); [done|..].
  - intros i e Hi <-. destruct (He i e Hi). congruence.
  - intros i a Hi <-. destruct (Hm i a Hi). congruence.
Qed.

Lemma settled_arrives mid r mid' :
  ml_messages s !! mid = None → settled since s mid' →
  settled since (with_messages (<[mid := r]> (ml_messages s)) s) mid'.
Proof.
  intros Hmid Hs. destruct (decide (mid' = mid)) as [->|Hne].
  - intros r' e _ (cm & Hcm & _). change (latest mid s = Some cm) in Hcm.
    by rewrite (proj1 (nothing_logged mid Hmid)) in Hcm.
  - apply (settled_same_view since s); [|done|done]. split_and!; [|done|done].
    simpl. intros r' Hr'. rewrite lookup_insert_ne in Hr' by done. by exists r'.
Qed.

Lemma sound_arrives mid r :
  ml_messages s !! mid = None → pointers r = (None, None) →
  sound (with_messages (<[mid := r]> (ml_messages s)) s).
Proof.
  intros Hmid Hp. pose proof Hsound as [[He Hm] Hx].
  assert (∀ k, is_Some (ml_messages s !! k) → is_Some (<[mid := r]> (ml_messages s) !! k)) as Hkeep
    by (intros k ?; apply lookup_insert_is_Some'; by right).
  split; [split; intros i x Hi; apply Hkeep; eauto|]. intros k r' Hr'. simpl in Hr'.
  apply lookup_insert_Some in Hr' as [[<- <-]|[? Hr']]; [|by apply (Hx k)].
  rewrite Hp. unfold NEWEST_IDS. simpl. f_equal; symmetry; apply newest_None.
  - intros i e Hi <-. destruct (He i e Hi). congruence.
  - intros i a Hi <-. destruct (Hm i a Hi). congruence.
Qed.

(** The start of a sweep: what it does not select it need not decide. *)
Lemma not_pending_looked mid r e :
  open_mail u s mid r e → mid ∉ map mr_id (pending u since s) → looked_since u since s mid e.
Proof.
  intros [Hr Hu He Hk Hn] Hout.
  pose proof (current_event_in_force s mid r Hsound Hr) as Hce. rewrite He in Hce.
  destruct (current_event s r) as [[i e']|] eqn:Ece; [|done]. injection Hce as ->.
  destruct (may_have_moved u since s r e) eqn:Emv.
  - destruct Hout. apply (list_elem_of_fmap_2' mr_id _ (row_of mid r e)); [|done].
    apply elem_of_rows_where. exists r, i, e. simpl. split_and!; [done..| |done].
    rewrite Emv, (proj2 (unattached_spec s mid r Hsound Hr) Hn), (proj2 (String.eqb_neq _ _)) by done. done.
  - unfold may_have_moved in Emv. pose proof (current_match_latest s mid r Hsound Hr) as Hcm.
    destruct (current_match s r) as [[j cm]|]; [|done]. breflect. exists cm. split_and!; [done|done|].
    intros k a Hka Hua. rewrite exists_where_false in *. 
    match goal with H : ∀ _ _, _ → _ = false |- _ => specialize (H k a Hka) end.
    rewrite Hua, Z.eqb_refl in *. simpl in *. by breflect.
Qed.
End keeps.
(** ** Lemmas: the invariant *)

Abbreviation inv := (sweep_inv canonicalize listed jobs u).

Lemma still_mono s s' row :
  (∀ r, ml_messages s !! mr_id row = Some r → ∃ r', ml_messages s' !! mr_id row = Some r' ∧
     ms_user_id r' = ms_user_id r ∧ ms_imported r' = ms_imported r) →
  event_in_force (mr_id row) s' = event_in_force (mr_id row) s → still u s row → still u s' row.
Proof.
  intros Hmsg He (r & e & Hr & Hu & Hev & Hrow). destruct (Hmsg r Hr) as (r' & Hr' & Hu' & Hi).
  exists r', e. rewrite He, Hu', Hu. split_and!; [done..|]. rewrite Hrow at 1. unfold row_of. by rewrite Hi.
Qed.

Lemma decided_keeps_message t mid d actor s mid' r :
  ml_messages s !! mid' = Some r →
  ∃ r', ml_messages (decided t mid d actor s) !! mid' = Some r' ∧
    ms_user_id r' = ms_user_id r ∧ ms_imported r' = ms_imported r.
Proof.
  intros Hr. unfold decided, record. destruct (stands _ _ _ _); [|by exists r].
  simpl. rewrite lookup_alter. case_decide as Hm; [subst mid'; rewrite Hr|]; by eexists.
Qed.

Lemma inv_decided s since now run run' t mid d actor :
  inv (mkSweeping s since now run) → now < t → is_Some (ml_messages s !! mid) →
  (∀ r' e, open_mail u (decided t mid d actor s) mid r' e →
     stands mid (verdict u s (row_of mid r' e)) None (decided t mid d actor s) = false) →
  (run' = run ∨ ∃ t0 row rows, run = Some (t0, row :: rows) ∧ run' = Some (t0, rows) ∧ mr_id row = mid) →
  inv (mkSweeping (decided t mid d actor s) since t run').
Proof.
  intros [Hs Hm Hl Hset Hrun] Ht Hmid Hd Hpop.
  cbn [sw_mail sw_since sw_now sw_run] in *. split; cbn [sw_mail sw_since sw_now sw_run].
  - by apply sound_decided.
  - intros i a [Hi|Ha]%decided_matches; [specialize (Hm i a Hi)|]; lia.
  - intros t' Ht'. specialize (Hl t' Ht'). lia.
  - intros mid'. by apply settled_decided.
  - assert (∀ rows, Forall (still u s) rows → Forall (still u (decided t mid d actor s)) rows) as Hstill.
    { intros rows Hf. eapply Forall_impl; [done|]. intros row. apply still_mono; [|apply decided_events].
      intros r. apply decided_keeps_message. }
    intros t0 rows ->. destruct Hpop as [<-|(t1 & row & rows' & -> & [= -> ->] & Hid)].
    + destruct (Hrun t0 rows eq_refl) as (? & ? & Hset'). split_and!; [lia|by apply Hstill|].
      intros mid' Hout. apply settled_decided; [done|]. intros _. by apply Hset'.
    + destruct (Hrun t1 (row :: rows') eq_refl) as (? & Hf & Hset'). split_and!; [lia| |].
      * apply Hstill. by inversion Hf.
      * intros mid' Hout. apply settled_decided; [done|]. intros Hne. apply Hset'. simpl.
        rewrite Hid. intros [?|?]%elem_of_cons; done.
Qed.

(** A verdict recorded on a message is the one it would get again. *)
Lemma decided_verdict t mid d s r' e :
  (∀ r, ml_messages s !! mid = Some r → ms_user_id r = u → event_in_force mid s = Some e →
     d = verdict u s (row_of mid r e) ∨
     ∃ why why', d = not_an_application why "none" ∧
       verdict u s (row_of mid r e) = not_an_application why' "none") →
  open_mail u (decided t mid d None s) mid r' e →
  stands mid (verdict u s (row_of mid r' e)) None (decided t mid d None s) = false.
Proof.
  intros Hd [Hr' Hu He _ _]. destruct (decided_message _ _ _ _ _ _ _ Hr') as (r & Hr & Hu' & Hi).
  rewrite decided_events in He. assert (row_of mid r' e = row_of mid r e) as -> by (unfold row_of; by rewrite Hi).
  destruct (Hd r Hr) as [->|(why & why' & -> & Hv)]; [congruence|done|apply decided_repeats|].
  rewrite Hv. exact (decided_repeats t mid (not_an_application why "none") s).
Qed.

Lemma inv_other s s' since now run t :
  inv (mkSweeping s since now run) → now < t → sound s' → ml_matches s' = ml_matches s →
  (∀ l mid, (∀ t0, l = Some t0 → t0 ≤ now) → settled l s mid → settled l s' mid) →
  (∀ t0 rows row, run = Some (t0, rows) → row ∈ rows → still u s row → still u s' row) →
  inv (mkSweeping s' since t run).
Proof.
  intros [_ Hm Hl Hset Hrun] Ht Hs Heq Hkeep Hstill.
  cbn [sw_mail sw_since sw_now sw_run] in *. split; cbn [sw_mail sw_since sw_now sw_run]; [done|..].
  - intros i a. rewrite Heq. intros Hi. specialize (Hm i a Hi). lia.
  - intros t' Ht'. specialize (Hl t' Ht'). lia.
  - intros mid. by apply Hkeep.
  - intros t0 rows Hr. destruct (Hrun t0 rows Hr) as (Hle & Hf & Hset'). split_and!; [lia| |].
    + rewrite Forall_forall in Hf |- *. intros row Hin. eauto.
    + intros mid Hout. apply Hkeep; [by intros ? [= <-]|by apply Hset'].
Qed.

(** An attachment leaves the message with an application, or with a person's word. *)
Lemma decided_attached t mid d s d' :
  is_Some (md_application_id d) →
  (∀ a, latest mid (decided t mid d None s) = Some a → am_application_id a = None) →
  stands mid d' None (decided t mid d None s) = false.
Proof.
  intros [app Happ]. unfold decided, record. destruct (stands mid d None s) eqn:E.
  - rewrite latest_append, Z.eqb_refl. intros Hn. specialize (Hn _ eq_refl). simpl in Hn. congruence.
  - intros Hn. unfold stands in *. destruct (latest mid s) as [cm|]; [|done].
    destruct (bool_decide (is_Some _)); [done|]. simpl in E. unfold repeats in E.
    breflect. specialize (Hn cm eq_refl). congruence.
Qed.

Lemma inv_starts s since now t :
  inv (mkSweeping s since now None) → now < t →
  inv (mkSweeping s since t (Some (t, pending u since s))).
Proof.
  intros [Hs Hm Hl Hset _] Ht. cbn [sw_mail sw_since sw_now sw_run] in *.
  split; cbn [sw_mail sw_since sw_now sw_run]; [done|..].
  - intros i a Hi. specialize (Hm i a Hi). lia.
  - intros t' Ht'. specialize (Hl t' Ht'). lia.
  - done.
  - intros t0 rows [= <- <-]. split_and!; [lia| |].
    + apply Forall_forall. intros row (r & i & e & Hr & Hu & He & _ & Hrow)%elem_of_rows_where.
      exists r, e. split_and!; [done..| |done].
      by rewrite <- (current_event_in_force s (mr_id row) r), He.
    + intros mid Hout r e Ho _. apply (Hset mid); [done|]. by eapply not_pending_looked.
Qed.

Lemma step_inv y y' : inv y → sweep_step canonicalize listed jobs u y y' → inv y'.
Proof.
  intros Hinv Hstep. pose proof Hinv as [Hs Hm _ _ Hrun].
  destruct Hstep as [s since now run t mid r Ht Hmid Hp|s since now run t id a Ht Hid Ha
    |s since now run t e Ht He Hmsg Hout|s since now run t mid d person Ht Hmid
    |s since now run t mid r e Ht Hr He|s since now run t mid d Ht Hmid Hd
    |s since now run t mid e why Ht Hmid He Hk|s since now t Ht|s since now t t0 row rows Ht|s since now t0];
    cbn [sw_mail sw_since sw_now sw_run] in *.
  - eapply inv_other; [done|done|by apply sound_arrives|done| |].
    + intros. by apply settled_arrives.
    + intros t0 rows row _ _. apply still_mono; [|done]. simpl. intros r0 Hr0.
      rewrite lookup_insert_ne; [by exists r0|]. congruence.
  - eapply inv_other; [done|done|by destruct Hs|done| |].
    + intros. by apply (settled_applies s now l Hm ltac:(done) t).
    + intros t0 rows row _ _. apply still_mono; [|done]. intros r0 Hr0. by exists r0.
  - eapply inv_other; [done|done| |done| |].
    + eapply sound_step; [done|]. by apply step_event; [apply fresh_id_lookup|].
    + intros. by apply (settled_classified s now l Hm ltac:(done) t).
    + intros t0 rows row Hr Hin. assert (ev_message_id e ≠ mr_id row) as Hne.
      { intros Heq. apply (Hout t0 rows Hr). rewrite Heq. by apply list_elem_of_fmap_2. }
      apply still_mono.
      * simpl. intros r0 Hr0. rewrite lookup_alter_ne by done. by exists r0.
      * rewrite event_in_force_append. by destruct (Z.eqb_spec (ev_message_id e) (mr_id row)).
  - eapply inv_decided; [done..| |by left]. intros. apply decided_person_stands.
  - eapply inv_decided; [done|done|by eexists| |by left]. intros r' e'. apply decided_verdict.
    intros r0 Hr0 Hu He'. left. congruence.
  - eapply inv_decided; [done|done|done| |by left]. intros r' e' [_ _ _ _ Hn]. by apply decided_attached.
  - eapply inv_decided; [done|done|done| |by left]. intros r' e'. apply decided_verdict.
    intros r0 Hr0 Hu He'. right. exists why, (describes_the_person (ev_kind e')).
    split; [done|]. unfold decide_row. simpl. unfold mem. rewrite bool_decide_eq_true_2; [done|congruence].
  - by eapply inv_starts.
  - destruct (Hrun t0 (row :: rows) eq_refl) as (_ & Hf & _).
    apply Forall_cons in Hf as [(r & e & Hr & Hu & He & Hrow) _].
    eapply inv_decided; [done|done|by eexists| |right; by exists t0, row, rows].
    intros r' e'. apply decided_verdict. intros r0 Hr0 _ He'. left. rewrite Hrow at 1. congruence.
  - destruct (Hrun t0 [] eq_refl) as (Hle & _ & Hset). split; cbn [sw_mail sw_since sw_now sw_run]; [done|done|..].
    + by intros ? [= <-].
    + intros mid. apply Hset. by intros ?%elem_of_nil.
    + done.
Qed.

Lemma no_mail_inv : inv no_mail.
Proof.
  split; simpl; [|by intros i a; rewrite lookup_empty|done| |done].
  - split; [split|]; intros i x Hx; simpl in Hx; by rewrite lookup_empty in Hx.
  - intros mid r e [Hr _ _ _ _]. simpl in Hr. by rewrite lookup_empty in Hr.
Qed.

Lemma steps_inv y : rtc (sweep_step canonicalize listed jobs u) no_mail y → inv y.
Proof.
  intros Hsteps. pose proof no_mail_inv as H. revert H.
  induction Hsteps as [y|y y1 y2 H1 _ IH]; [done|]. intros H. apply IH. by eapply step_inv.
Qed.

(** ** Lemmas: deciding fewer rows *)

Lemma match_pending_decides clock limit since s :
  fst (match_pending canonicalize listed jobs clock u limit since s) =
  decide_all canonicalize listed jobs u clock (limited limit (pending u since s)) s.
Proof.
  unfold match_pending, decide_all. generalize (limited limit (pending u since s)) as rows.
  generalize (@nil (string * Z)) as counts. intros counts rows. revert s counts.
  induction rows as [|row rows IH]; intros s counts; [done|]. simpl. apply IH.
Qed.

Lemma decide_all_skips clock (keep : mail_row → Prop) `{∀ row, Decision (keep row)} rows s :
  NoDup (mr_id <$> rows) →
  (∀ row, row ∈ rows → ¬ keep row → stands (mr_id row) (verdict u s row) None s = false) →
  decide_all canonicalize listed jobs u clock (filter keep rows) s =
  decide_all canonicalize listed jobs u clock rows s.
Proof.
  revert s. induction rows as [|row rows IH]; intros s Hnd Hq; [done|]. csimpl in Hnd.
  apply NoDup_cons in Hnd as [Hni Hnd]. rewrite filter_cons. case_decide as Hk; simpl.
  - apply IH; [done|]. intros row' Hin Hk'.
    change (record_new clock (mr_id row) (verdict u s row) s) with
      (decided (clock (mr_id row)) (mr_id row) (verdict u s row) None s).
    rewrite (verdict_same s) by apply decided_applications.
    assert (mr_id row' ≠ mr_id row) as Hne.
    { intros Heq. apply Hni. rewrite <- Heq. by apply list_elem_of_fmap_2. }
    destruct (decided_other (clock (mr_id row)) (mr_id row) (verdict u s row) None s _ Hne) as (_ & _ & Hl).
    unfold stands. rewrite Hl. apply (Hq row'); [by right|done].
  - assert (record_new clock (mr_id row) (verdict u s row) s = s) as Hsame
      by (unfold record_new, record; rewrite (Hq row); [done|by left|done]).
    unfold decide_all. simpl. rewrite Hsame. apply IH; [done|].
    intros row' Hin. apply Hq. by right.
Qed.

Lemma pending_open since s row : row ∈ pending u since s → row ∈ all_open u s.
Proof.
  intros (r & i & e & ? & ? & ? & [Hp _]%andb_true_iff & ?)%elem_of_rows_where.
  apply elem_of_rows_where. by exists r, i, e.
Qed.

(** The selection is the reference's rows less those passed over, in order. *)
Lemma pending_filter since s : pending u since s = filter (λ row, row ∈ pending u since s) (all_open u s).
Proof.
  apply (StronglySorted_unique_strong sent_le).
  - intros a b Ha Hb Hab Hba. apply list_elem_of_filter in Hb as [_ Hb].
    apply pending_open in Ha.
    apply (NoDup_fmap_inj mr_id (all_open u s)); [apply rows_where_ids|done|done|].
    unfold sent_le in *. destruct (mr_sent_at a), (mr_sent_at b); try done; lia.
  - apply rows_where_sorted.
  - apply StronglySorted_filter, rows_where_sorted.
  - apply NoDup_Permutation.
    + eapply NoDup_fmap_1, rows_where_ids.
    + apply NoDup_filter. eapply NoDup_fmap_1, rows_where_ids.
    + intros row. rewrite list_elem_of_filter. split; [|by intros [? _]]. intros Hin.
      split; [done|by eapply pending_open].
Qed.
End settled.

Section passed_over.
Context (canonicalize : string → option string).
Context (listed : list (Z * application) → list (Z * application)).
Context (jobs : gmap Z string) (u : Z).

Lemma decide_all_other clock rows s mid :
  mid ∉ mr_id <$> rows →
  latest mid (decide_all canonicalize listed jobs u clock rows s) = latest mid s.
Proof.
  revert s. induction rows as [|row rows IH]; intros s Hout; [done|].
  csimpl in Hout. apply not_elem_of_cons in Hout as [Hne Hout].
  unfold decide_all. simpl. etrans; [by apply IH|].
  by apply (decided_other (clock (mr_id row)) (mr_id row)).
Qed.

(** A message the matcher has looked at since is left alone, whatever it would say
    now. *)
Lemma passed_over clock since s mid e :
  sound s → event_in_force mid s = Some e → looked_since u since s mid e →
  latest mid (fst (match_pending canonicalize listed jobs clock u None since s)) = latest mid s.
Proof.
  intros Hs He (cm & Hcm & Hle & Happs). rewrite match_pending_decides. simpl.
  apply decide_all_other. intros (row & -> & Hin)%list_elem_of_fmap.
  apply elem_of_rows_where in Hin as (r & i & e' & Hr & Hu & He' & Hp & _).
  pose proof (current_event_in_force s _ r Hs Hr) as Hce. rewrite He, He' in Hce. injection Hce as ->.
  apply andb_true_iff in Hp as [_ Hp]. unfold may_have_moved in Hp.
  pose proof (current_match_latest s _ r Hs Hr) as Hcm'. rewrite Hcm in Hcm'.
  destruct (current_match s r) as [[j cm']|]; [|done]. injection Hcm' as ->.
  apply orb_true_iff in Hp as [Hp|(k & a & Ha & Hp)%exists_where_true]; breflect; [lia|].
  specialize (Happs k a Ha ltac:(done)). lia.
Qed.
End passed_over.

(** ** Properties *)


(** a message reclassified while a sweep runs keeps the verdict of what it was.
    The sweep decides from the event it read when it selected the message, and the
    verdict it records is newer than the reclassification: no later sweep selects
    the message again until the user has a new application. *)
Theorem reclassified_mid_sweep canonicalize listed jobs u clock since s mid r old new t :
  sound s → ml_messages s !! mid = Some r →
  ev_message_id new = mid → ev_created_at new ≤ t →
  (∀ i a, ml_applications s !! i = Some a → ap_user_id a = u → ap_created_at a ≤ t) →
  let reclassified := append_event (fresh_id (ml_events s)) new s in
  let stale := decide_row canonicalize listed jobs u reclassified (row_of mid r old) in
  stands mid stale None reclassified = true →
  let swept := record_new (λ _, t) mid stale reclassified in
  event_in_force mid swept = Some new ∧
  latest mid (fst (match_pending canonicalize listed jobs clock u None since swept)) =
    Some (decision_row t mid stale None).
Proof.
  intros Hs Hr Hnew Ht Happs reclassified stale Hst swept.
  assert (sound reclassified) as Hs1.
  { eapply sound_step; [done|]. apply step_event; [apply fresh_id_lookup|]. rewrite Hnew. by eexists. }
  assert (sound swept) as Hs2.
  { apply (sound_decided t); [done|]. unfold reclassified. simpl. rewrite lookup_alter, Hnew.
    case_decide; [|done]. rewrite Hr. by eexists. }
  assert (event_in_force mid swept = Some new) as He.
  { unfold swept. etrans; [apply (decided_events t)|].
    unfold reclassified. by rewrite event_in_force_append, Hnew, Z.eqb_refl. }
  assert (latest mid swept = Some (decision_row t mid stale None)) as Hl.
  { unfold swept, record_new, record. rewrite Hst, latest_append, Z.eqb_refl. done. }
  split; [done|]. rewrite <- Hl. eapply passed_over; [done|exact He|].
  exists (decision_row t mid stale None). split; [done|].
  assert (t ≤ looked_at (decision_row t mid stale None) since) as Hlook.
  { unfold looked_at. simpl. destruct since; simpl; lia. }
  split; [lia|]. intros i a Ha Hu.
  assert (ml_applications swept = ml_applications s) as Hap by exact (decided_applications t _ _ _ _).
  rewrite Hap in Ha. specialize (Happs i a Ha Hu). lia.
Qed.

(** ** Concrete mailboxes *)

Definition demo_links (_ : string) : option string := None.
Definition demo_text : ImportedMessage :=
  mkImported "<1@x>" "gmail" None None None None [] None (Some 60) None None None.
Definition demo_rejection : event :=
  mkEvent 1 "rejection" None None None false (Some "Acme, Inc."%string) (Some "Engineer"%string)
    (Some "m"%string) None 20.

(** A rejection that a finished sweep found nothing for. *)
Definition demo_arrived : mail :=
  mkMail {[ 1 := mkMessage 7 demo_text true "" None None ]} ∅ ∅ ∅ [] ∅.
Definition demo_classified : mail :=
  append_event (fresh_id (ml_events demo_arrived)) demo_rejection demo_arrived.
Definition demo_row : mail_row :=
  mkRow 1 None None (Some 60) "rejection" (Some "Acme, Inc."%string) (Some "Engineer"%string).
Definition demo_decided : mail :=
  decided 40 1 (decide_row demo_links id ∅ 7 demo_classified demo_row) None demo_classified.

Lemma demo_sweeps :
  rtc (sweep_step demo_links id ∅ 7) no_mail (mkSweeping demo_decided (Some 30) 40 None).
Proof.
  apply (rtc_l _ _ (mkSweeping demo_arrived None 10 None)).
  { apply (step_arrives demo_links id ∅ 7 (sw_mail no_mail) None 0 None 10 1
             (mkMessage 7 demo_text true "" None None)); [lia|done|done]. }
  apply (rtc_l _ _ (mkSweeping demo_classified None 20 None)).
  { apply step_classified; [lia|done|by eexists|done]. }
  apply (rtc_l _ _ (mkSweeping demo_classified None 30 (Some (30, [demo_row])))).
  { replace [demo_row] with (pending 7 None demo_classified) by (vm_compute; reflexivity).
    by apply step_starts. }
  apply (rtc_l _ _ (mkSweeping demo_decided None 40 (Some (30, [])))); [by apply step_turn|].
  apply rtc_once, step_finishes.
Qed.


(** The sweep selects a recruiter's approach; it is reclassified as a rejection from
    the one employer the user applied to; the sweep records its refusal. *)
Definition demo_outreach : event :=
  mkEvent 1 "recruiter_outreach" None None None false (Some "Acme"%string) None (Some "m"%string) None 20.
Definition demo_approached : mail :=
  mkMail {[ 1 := mkMessage 7 demo_text true "" (Some 1) None ]} {[ 1 := demo_outreach ]} ∅
    {[ 5 := mkApplication 7 None (Some "Acme"%string) (Some "Engineer"%string) "tracker" (Some 0) None 1 ]} [] ∅.
Definition demo_reclassified : event :=
  mkEvent 1 "rejection" None None None false (Some "Acme, Inc."%string) None (Some "m"%string) None 35.

Lemma reclassified_mid_sweep_witness :
  let stale := decide_row demo_links id ∅ 7 demo_approached (row_of 1 (mkMessage 7 demo_text true "" (Some 1) None) demo_outreach) in
  let swept := record_new (λ _, 40) 1 stale (append_event 2 demo_reclassified demo_approached) in
  md_application_id (decide_row demo_links id ∅ 7 swept (row_of 1 (mkMessage 7 demo_text true "" (Some 2) (Some 1)) demo_reclassified)) = Some 5 ∧
  latest 1 (fst (match_pending demo_links id ∅ (λ _, 60) 7 None (Some 30) swept)) =
    Some (decision_row 40 1 stale None).
Proof.
  split; [vm_compute; reflexivity|].
  eapply (reclassified_mid_sweep demo_links id ∅ 7 (λ _, 60) (Some 30) demo_approached 1
    (mkMessage 7 demo_text true "" (Some 1) None) demo_outreach demo_reclassified 40).
  - split; [split; intros i x Hx; simpl in Hx|].
    + apply lookup_singleton_Some in Hx as [<- <-]. by eexists.
    + by rewrite lookup_empty in Hx.
    + intros mid r Hr. simpl in Hr. apply lookup_singleton_Some in Hr as [<- <-]. vm_compute. reflexivity.
  - done.
  - done.
  - done.
  - intros i a Ha _. simpl in Ha. apply lookup_singleton_Some in Ha as [<- <-]. done.
  - vm_compute. reflexivity.
Defined.
