(* ===== verification/DeriveProps.v ===== *)
(** * Derived applications and their dates

    The floors of derived applications only ever fall, to the earliest evidence,
    and a second pass finds nothing to lower; what a lowered floor does not
    release; and what an application is derived from. *)

From S2P Require Import Prelude PyStr Sql Tasks Mail Pipeline MailProps MailSweep MatchProps.

Local Open Scope Z_scope.

(** ** Lemmas: counts and minima *)

Lemma elem_of_selected {R} (P : Z * R → Prop) `{∀ x, Decision (P x)} (m : gmap Z R) i :
  i ∈ fst <$> filter P (map_to_list m) ↔ ∃ r, m !! i = Some r ∧ P (i, r).
Proof.
  rewrite list_elem_of_fmap. split.
  - intros ([j r] & -> & [Hp Hin%elem_of_map_to_list]%list_elem_of_filter). by exists r.
  - intros (r & Hr & Hp). exists (i, r). split; [done|]. apply list_elem_of_filter.
    split; [done|by apply elem_of_map_to_list].
Qed.

Lemma NoDup_selected {R} (P : Z * R → Prop) `{∀ x, Decision (P x)} (m : gmap Z R) :
  NoDup (fst <$> filter P (map_to_list m)).
Proof.
  eapply sublist_NoDup; [apply (NoDup_fst_map_to_list m)|]. apply sublist_fmap, sublist_filter.
Qed.

(** How many rows a query selects depends only on which keys it selects. *)
Lemma selected_count {R} (P Q : Z * R → Prop) `{∀ x, Decision (P x)} `{∀ x, Decision (Q x)}
    (m m' : gmap Z R) :
  (∀ i, (∃ r, m !! i = Some r ∧ P (i, r)) ↔ ∃ r, m' !! i = Some r ∧ Q (i, r)) →
  length (filter P (map_to_list m)) = length (filter Q (map_to_list m')).
Proof.
  intros Hiff. rewrite <- (length_fmap fst), <- (length_fmap fst (filter Q _)).
  apply Permutation_length, NoDup_Permutation; [apply NoDup_selected..|].
  intros i. rewrite !elem_of_selected. apply Hiff.
Qed.

Lemma min_time_cons t l :
  min_time (t :: l) = match t, min_time l with
                      | Some a, Some b => Some (Z.min a b) | Some a, None => Some a | None, m => m
                      end.
Proof. done. Qed.

Lemma min_time_spec l :
  match min_time l with
  | Some m => Some m ∈ l ∧ ∀ x, Some x ∈ l → m ≤ x
  | None => ∀ x, Some x ∉ l
  end.
Proof.
  induction l as [|t l IH]; [intros x; apply not_elem_of_nil|]. rewrite min_time_cons.
  destruct t as [a|], (min_time l) as [b|].
  - destruct IH as [Hb Hle]. split.
    + destruct (Z.min_spec a b) as [[_ ->]|[_ ->]]; [by left|by right].
    + intros x [[= ->]|Hx]%elem_of_cons; [lia|]. specialize (Hle x Hx). lia.
  - split; [by left|]. intros x [[= ->]|Hx]%elem_of_cons; [lia|by destruct (IH x)].
  - destruct IH as [Hb Hle]. split; [by right|]. intros x [?|Hx]%elem_of_cons; [done|by apply Hle].
  - intros x [?|Hx]%elem_of_cons; [done|by destruct (IH x)].
Qed.

Lemma min_time_below l x : Some x ∈ l → ∃ m, min_time l = Some m ∧ m ≤ x.
Proof.
  intros Hx. pose proof (min_time_spec l) as Hm. destruct (min_time l) as [m|]; [|by destruct (Hm x)].
  exists m. split; [done|by apply Hm].
Qed.

Lemma earliest_attached_below u s i mid r cm sent :
  ml_messages s !! mid = Some r → ms_user_id r = u → current_match s r = Some cm →
  am_application_id cm.2 = Some i → im_sent_at (ms_imported r) = Some sent →
  ∃ m, earliest_attached u s i = Some m ∧ m ≤ sent.
Proof.
  intros Hr Hu Hcm Happ Hsent. apply min_time_below. apply list_elem_of_fmap. exists (mid, r).
  split; [|by apply elem_of_map_to_list]. simpl. rewrite Hcm. destruct cm as [j cm]. simpl in *.
  by rewrite Hu, Z.eqb_refl, bool_decide_eq_true_2.
Qed.

Lemma earliest_loose_below u s row sent :
  row ∈ _unmatched_applied_messages u s → norm_company (mr_company row) ≠ ""%string →
  mr_sent_at row = Some sent →
  ∃ m, earliest_loose u s (norm_company (mr_company row)) = Some m ∧ m ≤ sent.
Proof.
  intros Hin Hc Hsent. unfold earliest_loose. rewrite (proj2 (String.eqb_neq _ _)) by done.
  apply min_time_below. rewrite <- Hsent. apply list_elem_of_fmap_2. by apply list_elem_of_filter.
Qed.

(** ** Lemmas: one floor *)

Lemma floor_of_spec u s id a applied :
  let floor := floor_of u s id a applied in
  floor ≤ applied ∧ (∀ t, earliest_attached u s id = Some t → floor ≤ t) ∧
  (derived_at u s (norm_company (ap_company_name a)) = 1 →
   ∀ t, earliest_loose u s (norm_company (ap_company_name a)) = Some t → floor ≤ t) ∧
  (floor = applied ∨ earliest_attached u s id = Some floor ∨
   derived_at u s (norm_company (ap_company_name a)) = 1 ∧
   earliest_loose u s (norm_company (ap_company_name a)) = Some floor).
Proof.
  unfold floor_of. cbv zeta. set (l := [Some applied; _; _]).
  pose proof (min_time_spec l) as Hm. destruct (min_time l) as [m|]; [|by destruct (Hm applied); left].
  destruct Hm as [Hin Hle]. simpl. split_and!.
  - apply Hle. by left.
  - intros t Ht. apply Hle. unfold l. rewrite Ht. right. by left.
  - intros Hone t Ht. apply Hle. unfold l. rewrite Hone, Ht. do 2 right. by left.
  - unfold l in Hin. rewrite !elem_of_cons in Hin. destruct Hin as [[= ->]|[Hin|[Hin|Hin]]]; [by left|by auto| |].
    + destruct (Z.eqb_spec (derived_at u s (norm_company (ap_company_name a))) 1); [by auto|done].
    + by apply elem_of_nil in Hin.
Qed.

Lemma with_applied_same a t : ap_applied_at a = Some t → with_applied_at t a = a.
Proof. destruct a. simpl. by intros ->. Qed.

(** A derived application. *)
Definition is_derived (u : Z) (a : application) : Prop :=
  ap_user_id a = u ∧ ap_source_provenance a = "email"%string ∧ is_Some (ap_applied_at a).

Lemma elem_of_derived u s i a : (i, a) ∈ derived u s ↔ ml_applications s !! i = Some a ∧ is_derived u a.
Proof.
  unfold derived, user_applications, is_derived. rewrite !list_elem_of_filter, elem_of_map_to_list. naive_solver.
Qed.

Lemma derived_ids u s : NoDup (fst <$> derived u s).
Proof.
  unfold derived, user_applications. eapply sublist_NoDup; [apply (NoDup_fst_map_to_list (ml_applications s))|].
  apply sublist_fmap. etrans; apply sublist_filter.
Qed.

(** The application with the floor its evidence gives. *)
Definition floored (u : Z) (s : mail) (i : Z) (a : application) : application :=
  match ap_applied_at a with
  | Some t => with_applied_at (floor_of u s i a t) a
  | None => a
  end.

(** ** Lemmas: a pass *)

Section pass.
Context (u : Z) (seen : mail).

Lemma floor_turn_apps k i a :
  ml_applications k.1 !! i = Some a →
  ml_applications (fst (floor_turn u seen k (i, a))) = <[i := floored u seen i a]> (ml_applications k.1).
Proof.
  intros Hi. unfold floor_turn, floored. simpl. destruct (ap_applied_at a) as [t|] eqn:Et.
  - destruct (floor_of_spec u seen i a t) as (Hle & _). destruct (Z.ltb_spec (floor_of u seen i a t) t) as [Hlt|Hge].
    + simpl. apply map_eq. intros j. rewrite lookup_update_where. destruct (decide (j = i)) as [->|Hne].
      * rewrite lookup_insert_eq, Hi. simpl. rewrite Z.eqb_refl, Et. simpl.
        by rewrite (proj2 (Z.ltb_lt _ _) Hlt).
      * rewrite lookup_insert_ne by done. rewrite (proj2 (Z.eqb_neq j i) Hne). simpl.
        by destruct (ml_applications k.1 !! j).
    + assert (floor_of u seen i a t = t) as -> by lia. rewrite with_applied_same by done.
      symmetry. by apply insert_id.
  - symmetry. by apply insert_id.
Qed.

(** A pass writes applications only. *)
Definition same_evidence (s s' : mail) : Prop :=
  ml_messages s' = ml_messages s ∧ ml_events s' = ml_events s ∧ ml_matches s' = ml_matches s.

Lemma floor_turn_evidence k x : same_evidence k.1 (fst (floor_turn u seen k x)).
Proof.
  unfold floor_turn. destruct (ap_applied_at x.2); [|done]. by case_match.
Qed.

Lemma pass_evidence l k : same_evidence k.1 (fst (foldl (floor_turn u seen) k l)).
Proof.
  revert k. induction l as [|x l IH]; intros k; [done|]. simpl.
  destruct (IH (floor_turn u seen k x)) as (? & ? & ?), (floor_turn_evidence k x) as (? & ? & ?).
  split_and!; congruence.
Qed.

Lemma pass_apps l k :
  NoDup (fst <$> l) → (∀ i a, (i, a) ∈ l → ml_applications k.1 !! i = Some a) →
  let after := ml_applications (fst (foldl (floor_turn u seen) k l)) in
  (∀ i a, (i, a) ∈ l → after !! i = Some (floored u seen i a)) ∧
  (∀ i, i ∉ fst <$> l → after !! i = ml_applications k.1 !! i).
Proof.
  revert k. induction l as [|[i a] l IH]; intros k Hnd Hl; [split; [by intros ? ? ?%elem_of_nil|done]|].
  csimpl in Hnd. apply NoDup_cons in Hnd as [Hni Hnd].
  assert (ml_applications k.1 !! i = Some a) as Hi by (apply Hl; by left).
  pose proof (floor_turn_apps k i a Hi) as Hturn.
  destruct (IH (floor_turn u seen k (i, a)) Hnd) as [Hin Hout].
  { intros j b Hj. rewrite Hturn, lookup_insert_ne; [apply Hl; by right|].
    intros ->. apply Hni. by apply (list_elem_of_fmap_2 fst l (j, b)). }
  simpl. split.
  - intros j b [[= -> ->]|Hj]%elem_of_cons; [|by apply Hin].
    rewrite Hout by done. by rewrite Hturn, lookup_insert_eq.
  - intros j Hj. csimpl in Hj. apply not_elem_of_cons in Hj as [Hne Hj].
    rewrite Hout by done. by rewrite Hturn, lookup_insert_ne.
Qed.

Lemma pass_idle l k :
  (∀ i a t, (i, a) ∈ l → ap_applied_at a = Some t → t ≤ floor_of u seen i a t) →
  foldl (floor_turn u seen) k l = k.
Proof.
  intros Hl. induction l as [|[i a] l IH]; [done|]. simpl.
  assert (floor_turn u seen k (i, a) = k) as ->.
  { unfold floor_turn. simpl. destruct (ap_applied_at a) as [t|] eqn:Et; [|done].
    rewrite (proj2 (Z.ltb_ge _ _)); [done|]. apply Hl; [by left|done]. }
  apply IH. intros j b t Hj. apply Hl. by right.
Qed.
End pass.

(** ** Lemmas: the evidence a pass reads is not what it writes *)

Section evidence.
Context (u : Z) (s s' : mail).
Hypothesis Hev : same_evidence s s'.

Lemma same_current_match r : current_match s' r = current_match s r.
Proof. destruct Hev as (_ & _ & Hm). unfold current_match. by rewrite Hm. Qed.

Lemma same_current_event r : current_event s' r = current_event s r.
Proof. destruct Hev as (_ & He & _). unfold current_event. by rewrite He. Qed.

Lemma same_rows_where P Q :
  (∀ r e, P r e = Q r e) → rows_where P u s' = rows_where Q u s.
Proof.
  intros HP. pose proof Hev as (Hmsg & _ & _). unfold rows_where. rewrite Hmsg. f_equal.
  induction (map_to_list (ml_messages s)) as [|[mid r] l IH]; csimpl; [done|].
  rewrite same_current_event, IH. destruct (current_event s r) as [[i e]|]; [|done]. by rewrite HP.
Qed.

Lemma same_unmatched_applied : _unmatched_applied_messages u s' = _unmatched_applied_messages u s.
Proof.
  apply same_rows_where. intros r e. unfold unattached. by rewrite same_current_match.
Qed.

Lemma same_earliest_loose company : earliest_loose u s' company = earliest_loose u s company.
Proof. unfold earliest_loose. by rewrite same_unmatched_applied. Qed.

Lemma same_earliest_attached id : earliest_attached u s' id = earliest_attached u s id.
Proof.
  pose proof Hev as (Hmsg & _ & _). unfold earliest_attached. rewrite Hmsg. f_equal.
  apply map_ext. intros [mid r]. simpl. by rewrite same_current_match.
Qed.

(** Applications that differ by their dates alone. *)
Hypothesis Hdates : ∀ i, match ml_applications s !! i, ml_applications s' !! i with
  | Some a, Some a' => ∃ t, ap_applied_at a = None ∧ a' = a ∨ is_Some (ap_applied_at a) ∧ a' = with_applied_at t a
  | None, None => True
  | _, _ => False
  end.

Lemma same_derived_at company : derived_at u s' company = derived_at u s company.
Proof.
  unfold derived_at, derived, user_applications. rewrite !list_filter_filter. f_equal.
  apply selected_count. intros i. specialize (Hdates i).
  destruct (ml_applications s !! i) as [a|], (ml_applications s' !! i) as [a'|]; try done;
    try (by split; intros (? & ? & _)).
  destruct Hdates as [t [[Hn ->]|[Hs ->]]]; [done|].
  split; intros (b & [= <-] & (? & ? & ?) & ?); eexists; (split; [done|]); simpl in *; eauto 10.
Qed.
End evidence.

(** ** Properties *)

Section properties.
Context (listed : list (Z * application) → list (Z * application)) (u : Z).
Hypothesis listed_rows : ∀ l, listed l ≡ₚ l.

Lemma listed_derived s i a : (i, a) ∈ listed (derived u s) ↔ ml_applications s !! i = Some a ∧ is_derived u a.
Proof. by rewrite listed_rows, elem_of_derived. Qed.

Lemma floors_apps s i a :
  ml_applications s !! i = Some a →
  ml_applications (fst (recompute_derived_floors listed u s)) !! i =
  Some (if bool_decide (i ∈ fst <$> listed (derived u s)) then floored u s i a else a).
Proof.
  intros Hi. unfold recompute_derived_floors.
  destruct (pass_apps u s (listed (derived u s)) (s, 0)) as [Hin Hout].
  - rewrite listed_rows. apply derived_ids.
  - intros j b [Hj _]%listed_derived. done.
  - case_bool_decide as Hd; [|by rewrite Hout].
    apply list_elem_of_fmap in Hd as ([j b] & Hij & Hj). cbn in Hij. subst j.
    rewrite (Hin i b Hj). apply listed_derived in Hj as [Hj _]. congruence.
Qed.

Lemma floors_derived s i a :
  ml_applications s !! i = Some a → is_derived u a →
  ml_applications (fst (recompute_derived_floors listed u s)) !! i = Some (floored u s i a).
Proof.
  intros Hi Hd. rewrite (floors_apps s i a Hi), bool_decide_eq_true_2; [done|].
  apply (list_elem_of_fmap_2' fst _ (i, a)); [by apply listed_derived|done].
Qed.

Lemma floors_other s i :
  (∀ a, ml_applications s !! i = Some a → ¬ is_derived u a) →
  ml_applications (fst (recompute_derived_floors listed u s)) !! i = ml_applications s !! i.
Proof.
  intros Hn. unfold recompute_derived_floors.
  destruct (pass_apps u s (listed (derived u s)) (s, 0)) as [_ Hout].
  - rewrite listed_rows. apply derived_ids.
  - intros j b [Hj _]%listed_derived. done.
  - apply Hout. intros ([j b] & Hij & [Hj Hd]%listed_derived)%list_elem_of_fmap. cbn in Hij. subst j.
    by apply (Hn b).
Qed.

Lemma is_derived_dec a : Decision (is_derived u a).
Proof. unfold is_derived. apply _. Defined.

Lemma floors_dates s i :
  match ml_applications s !! i, ml_applications (fst (recompute_derived_floors listed u s)) !! i with
  | Some a, Some a' => ∃ t, ap_applied_at a = None ∧ a' = a ∨ is_Some (ap_applied_at a) ∧ a' = with_applied_at t a
  | None, None => True
  | _, _ => False
  end.
Proof.
  destruct (ml_applications s !! i) as [a|] eqn:Hi.
  - destruct (is_derived_dec a) as [Hd|Hd].
    + rewrite (floors_derived s i a Hi Hd). unfold floored. destruct Hd as (_ & _ & t & Ht).
      rewrite Ht. eexists. right. split; [done|reflexivity].
    + rewrite floors_other, Hi by (intros b; congruence).
      destruct (ap_applied_at a) as [t|] eqn:Ht; [|exists 0; by left].
      exists t. right. split; [done|]. by rewrite with_applied_same.
  - by rewrite floors_other, Hi by (intros b; congruence).
Qed.

Lemma floors_evidence s : same_evidence s (fst (recompute_derived_floors listed u s)).
Proof. apply (pass_evidence u s (listed (derived u s)) (s, 0)). Qed.

(** A second pass sees the same evidence, and dates that already meet it. *)
Lemma floors_again s :
  let s' := fst (recompute_derived_floors listed u s) in recompute_derived_floors listed u s' = (s', 0).
Proof.
  intros s'. unfold recompute_derived_floors at 1. apply pass_idle.
  intros i a' t' [Hi' Hd']%listed_derived Ht'.
  pose proof (floors_evidence s) as Hev. pose proof (floors_dates s) as Hdates. fold s' in Hev, Hdates.
  pose proof (Hdates i) as Hdi. rewrite Hi' in Hdi.
  destruct (ml_applications s !! i) as [a|] eqn:Hi; [|done].
  assert (is_derived u a ∧ ap_company_name a' = ap_company_name a) as [Hd Hc].
  { destruct Hdi as [t [[Hn ->]|[Hs ->]]]; [done|]. by destruct Hd' as (? & ? & _). }
  pose proof (floors_derived s i a Hi Hd) as Hf. fold s' in Hf. rewrite Hi' in Hf.
  destruct Hd as (_ & _ & t & Ht). unfold floored in Hf. rewrite Ht in Hf. injection Hf as Hf.
  assert (t' = floor_of u s i a t) as -> by (rewrite Hf in Ht'; simpl in Ht'; congruence).
  destruct (floor_of_spec u s i a t) as (_ & Hatt & Hloose & _).
  destruct (floor_of_spec u s' i a' (floor_of u s i a t)) as (_ & _ & _ & Hwhich).
  rewrite (same_earliest_attached u s s' Hev), Hc, (same_derived_at u s s' Hdates),
    (same_earliest_loose u s s' Hev) in Hwhich.
  destruct Hwhich as [Hw|[Hw|[Hone Hw]]]; [lia|by apply Hatt|by apply Hloose].
Qed.
End properties.

(** the dates of derived applications are their earliest evidence and stay so.
    One pass leaves every other application as it was; it never raises a date, a
    date is no later than any message attached to its application, nor than
    unattached mail from its company when that is its only derived application,
    and is one of these dates or the one it had; and a second pass moves nothing. *)
Theorem floors_settle listed u s :
  (∀ l, listed l ≡ₚ l) →
  let s' := fst (recompute_derived_floors listed u s) in
  (∀ i a, ml_applications s !! i = Some a → ¬ is_derived u a → ml_applications s' !! i = Some a) ∧
  (∀ i a t, ml_applications s !! i = Some a → is_derived u a → ap_applied_at a = Some t →
     ∃ floor, ml_applications s' !! i = Some (with_applied_at floor a) ∧ floor ≤ t ∧
       (∀ mid r cm sent, ml_messages s !! mid = Some r → ms_user_id r = u →
          current_match s r = Some cm → am_application_id cm.2 = Some i →
          im_sent_at (ms_imported r) = Some sent → floor ≤ sent) ∧
       (derived_at u s (norm_company (ap_company_name a)) = 1 →
        ∀ row sent, row ∈ _unmatched_applied_messages u s → norm_company (mr_company row) ≠ ""%string →
          norm_company (mr_company row) = norm_company (ap_company_name a) →
          mr_sent_at row = Some sent → floor ≤ sent) ∧
       (floor = t ∨ earliest_attached u s i = Some floor ∨
        earliest_loose u s (norm_company (ap_company_name a)) = Some floor)) ∧
  recompute_derived_floors listed u s' = (s', 0).
Proof.
  intros Hl s'. split_and!; [..|by apply floors_again].
  - intros i a Hi Hn. unfold s'. rewrite floors_other; [done|done|]. intros b. congruence.
  - intros i a t Hi Hd Ht. exists (floor_of u s i a t).
    destruct (floor_of_spec u s i a t) as (Hle & Hatt & Hloose & Hwhich).
    split_and!; [|done|..|naive_solver].
    + unfold s'. rewrite (floors_derived listed u Hl s i a Hi Hd). unfold floored. by rewrite Ht.
    + intros mid r cm sent Hr Hu Hcm Happ Hsent.
      destruct (earliest_attached_below u s i mid r cm sent) as (m & Hm & ?); [done..|].
      specialize (Hatt m Hm). lia.
    + intros Hone row sent Hin Hne Hc Hsent. rewrite <- Hc in Hloose, Hone.
      destruct (earliest_loose_below u s row sent) as (m & Hm & ?); [done..|].
      specialize (Hloose Hone m Hm). lia.
Qed.

(** a lowered floor releases no message the matcher has looked at. The pass
    lowers floors before it matches, so that their messages match in the same
    sweep; but a message without an application that was looked at since its event
    and since every application of the user is passed over whatever the floors now
    say, in this sweep and in every later one that starts before anything new. *)
Theorem lowered_floor_not_released canonicalize listed jobs u clock since s mid e :
  (∀ l, listed l ≡ₚ l) → sound s →
  event_in_force mid s = Some e → looked_since u since s mid e →
  let lowered := fst (recompute_derived_floors listed u s) in
  latest mid (fst (match_pending canonicalize listed jobs clock u None since lowered)) = latest mid s.
Proof.
  intros Hl Hs He (cm & Hcm & Hle & Happs) lowered.
  pose proof (floors_evidence listed u s) as (Hmsg & Hevs & Hms). fold lowered in Hmsg, Hevs, Hms.
  assert (latest mid lowered = latest mid s) as Hlat by (unfold latest; by rewrite Hms).
  rewrite <- Hlat. apply (passed_over _ _ _ _ _ _ _ _ e).
  - destruct Hs as [[H1 H2] H3]. unfold sound, logged, exact_at, NEWEST_IDS in *.
    by rewrite Hmsg, Hevs, Hms.
  - unfold event_in_force in *. by rewrite Hevs.
  - exists cm. rewrite Hlat. split_and!; [done..|]. intros i a' Hi Hu.
    pose proof (floors_dates listed u Hl s i) as Hd. fold lowered in Hd. rewrite Hi in Hd.
    destruct (ml_applications s !! i) as [a|] eqn:Ha; [|done].
    destruct Hd as [t [[_ ->]|[_ ->]]]; by apply (Happs i a).
Qed.

(** ** Lemmas: candidate groups *)

Section groups.
Context (known : list string).

Definition good_row (row : mail_row) : Prop := untracked known row = true ∧ titled row = true.

(** Groups hold the rows they were given, at least one each, and a group's company
    is one of its rows'. *)
Definition good_group (g : group_key * (string * list mail_row)) : Prop :=
  g.2.2 ≠ [] ∧ (∀ row, row ∈ g.2.2 → good_row row) ∧
  ∃ row, row ∈ g.2.2 ∧ norm_company (mr_company row) = g.2.1.

Lemma group_add_good key msg gs :
  good_row msg → Forall good_group gs →
  Forall good_group (group_add key (norm_company (mr_company msg)) msg gs).
Proof.
  intros Hm. induction 1 as [|[k [c ms]] gs [Hne [Hg Hc]] Hgs IH]; simpl.
  - constructor; [|constructor]. split_and!; [done|..]; simpl.
    + by intros row ->%list_elem_of_singleton.
    + exists msg. split; [by left|done].
  - case_bool_decide.
    + constructor; [|done]. split_and!; simpl in *.
      * by destruct ms.
      * intros row [Hr|Hr%list_elem_of_singleton]%elem_of_app; [by apply Hg|by subst].
      * exists msg. split; [|done]. apply elem_of_app. right. by left.
    + constructor; [by split_and!|done].
Qed.

Lemma candidate_groups_good rows : Forall good_group (candidate_groups known rows).
Proof.
  unfold candidate_groups.
  assert (Forall good_row (filter (λ row, untracked known row && titled row = true) rows)) as Hf.
  { apply Forall_forall. intros row [Hr _]%list_elem_of_filter. apply andb_true_iff in Hr. by destruct Hr. }
  revert Hf. generalize (filter (λ row, untracked known row && titled row = true) rows) as l.
  assert (Forall good_group []) as H0 by constructor. revert H0.
  generalize (@nil (group_key * (string * list mail_row))) as gs.
  intros gs H0 l Hl. revert gs H0. induction Hl as [|row l Hr _ IH]; intros gs H0; [done|].
  simpl. apply IH. by apply group_add_good.
Qed.
End groups.

(** A date computed from evidence is no later than any of it. *)
Lemma derived_date_admits known rows groups company ms row :
  row ∈ ms ∨ group_count groups company = 1 ∧ row ∈ messages_without_title known rows company →
  ∀ a, ap_applied_at a = derived_date known rows groups company ms →
    ap_source_provenance a = "email"%string → not_before_applying (mr_sent_at row) a = true.
Proof.
  intros Hrow a Ha Hp. unfold not_before_applying. rewrite Ha, Hp.
  destruct (mr_sent_at row) as [sent|] eqn:Hs; [|by case_match]. unfold derived_date.
  match goal with |- context [map mr_sent_at ?l] => set (ev := l) end.
  assert (row ∈ ev) as Hin.
  { unfold ev. destruct (Z.eqb_spec (group_count groups company) 1); destruct Hrow as [?|[? ?]];
      try done; apply elem_of_app; auto. }
  destruct (min_time_below (map mr_sent_at ev) sent) as (m & -> & Hm).
  { rewrite <- Hs. by apply list_elem_of_fmap_2. }
  apply Z.leb_le. change (m - 0 ≤ sent). lia.
Qed.

(** ** Lemmas: seeding *)

Section seeding.
Context (clock : Z → Z) (u : Z).

Lemma record_new_applications mid d s : ml_applications (record_new clock mid d s) = ml_applications s.
Proof. exact (decided_applications (clock mid) mid d None s). Qed.

Lemma seed_records_applications app ms s :
  ml_applications (seed_records clock app ms s) = ml_applications s.
Proof.
  unfold seed_records. revert s. induction ms as [|row ms IH]; intros s; [done|]. simpl.
  by rewrite IH, record_new_applications.
Qed.

(** One group: at most one application more, of its first row and its date. *)
Lemma seed_group_applications known cap rows groups k g i a :
  ml_applications (fst (seed_group clock u known cap rows groups k g)) !! i = Some a →
  ml_applications k.1 !! i = Some a ∨
  ml_applications k.1 !! i = None ∧ group_count groups g.2.1 ≤ cap ∧
  ∃ anchor ms, g.2.2 = anchor :: ms ∧
    a = mkApplication u None (mr_company anchor) (mr_title anchor) "email"
          (derived_date known rows groups g.2.1 (anchor :: ms)) None (clock (mr_id anchor)).
Proof.
  destruct g as [key [company ms]]. unfold seed_group. simpl.
  destruct (Z.ltb_spec cap (group_count groups company)); [by left|].
  destruct ms as [|anchor ms]; [by left|]. unfold seed_insert.
  destruct (anchor_free _ _); [|by left]. cbn [fst]. rewrite seed_records_applications. simpl.
  intros [[<- <-]|[_ ?]]%lookup_insert_Some; [|by left]. right.
  split_and!; [apply fresh_id_lookup|done|by exists anchor, ms].
Qed.

Lemma seed_group_keeps known cap rows groups k g i a :
  ml_applications k.1 !! i = Some a →
  ml_applications (fst (seed_group clock u known cap rows groups k g)) !! i = Some a.
Proof.
  intros Hi. destruct g as [key [company ms]]. unfold seed_group.
  destruct (Z.ltb_spec cap (group_count groups company)); [done|].
  destruct ms as [|anchor ms]; [done|]. unfold seed_insert.
  destruct (anchor_free _ _); [|done]. cbn [fst]. rewrite seed_records_applications. simpl.
  rewrite lookup_insert_ne; [done|]. intros <-. by rewrite fresh_id_lookup in Hi.
Qed.
End seeding.

(** ** Properties: what an application is derived from *)

(** an application is derived from unmatched mail at an employer that has none,
    and its date admits that mail. Every application a run creates is the user's,
    names an employer the user had no application at, comes from one group of the
    run's candidates at a company with no more groups than the cap, and is dated so
    that no message of its group - nor, for a company's only group, any title-less
    message of that company - falls before it. The others are untouched. *)
Theorem derived_applications clock u s :
  let known := _existing_companies u s in
  let rows := _unmatched_applied_messages u s in
  let groups := candidate_groups known rows in
  let s' := fst (seed_from_mail clock u s) in
  (∀ i a, ml_applications s !! i = Some a → ml_applications s' !! i = Some a) ∧
  (∀ i a, ml_applications s' !! i = Some a → ml_applications s !! i = None →
     ∃ key company ms, (key, (company, ms)) ∈ groups ∧ group_count groups company ≤ derived_cap u s ∧
       ap_user_id a = u ∧ ap_source_provenance a = "email"%string ∧
       norm_company (ap_company_name a) ∉ known ∧ norm_company (ap_company_name a) ≠ ""%string ∧
       norm_company (ap_title a) ≠ ""%string ∧
       (∀ row, row ∈ ms → not_before_applying (mr_sent_at row) a = true) ∧
       (group_count groups company = 1 → ∀ row, row ∈ messages_without_title known rows company →
          not_before_applying (mr_sent_at row) a = true)).
Proof.
  intros known rows groups s'.
  pose proof (candidate_groups_good known rows) as Hgood. fold groups in Hgood.
  unfold s', seed_from_mail. fold known rows groups.
  assert (∀ l k, l ⊆ groups →
    let k' := foldl (seed_group clock u known (derived_cap u s) rows groups) k l in
    (∀ i a, ml_applications k.1 !! i = Some a → ml_applications k'.1 !! i = Some a) ∧
    (∀ i a, ml_applications k'.1 !! i = Some a → ml_applications k.1 !! i = Some a ∨
       ∃ g anchor ms, g ∈ groups ∧ group_count groups g.2.1 ≤ derived_cap u s ∧ g.2.2 = anchor :: ms ∧
         a = mkApplication u None (mr_company anchor) (mr_title anchor) "email"
               (derived_date known rows groups g.2.1 (anchor :: ms)) None (clock (mr_id anchor)))) as H.
  { induction l as [|g l IH]; intros k Hsub; [split; [done|by left]|]. simpl.
    destruct (IH (seed_group clock u known (derived_cap u s) rows groups k g)) as [Hkeep Hnew];
      [set_solver|]. split.
    - intros i a Hi. apply Hkeep. by apply seed_group_keeps.
    - intros i a Hi. destruct (Hnew i a Hi) as [Hi'|?]; [|by right].
      apply seed_group_applications in Hi' as [?|(_ & Hcap & anchor & ms & Hms & Ha)]; [by left|].
      right. exists g, anchor, ms. split_and!; [set_solver|done..]. }
  destruct (H groups (s, (0, 0)) ltac:(done)) as [Hkeep Hnew]. split; [done|].
  intros i a Hi Hn. destruct (Hnew i a Hi) as [Hi'|([key [company ms0]] & anchor & ms & Hg & Hcap & Hms & Ha)].
  { simpl in Hi'. congruence. }
  simpl in Hms, Hcap, Ha. subst ms0. exists key, company, (anchor :: ms).
  rewrite Forall_forall in Hgood. destruct (Hgood _ Hg) as (_ & Hrows & _).
  destruct (Hrows anchor) as [Hu Ht]; [by left|]. unfold untracked in Hu. unfold titled in Ht.
  breflect. rewrite Ha. simpl. split_and!; try done.
  - unfold mem in *. by breflect.
  - by apply String.eqb_neq.
  - by apply String.eqb_neq.
  - intros row Hr. eapply derived_date_admits; [by left|simpl; reflexivity|done].
  - intros Hone row Hr. eapply derived_date_admits; [by right|simpl; reflexivity|done].
Qed.

(** A person said the message belongs to no application. *)
Definition refused_by_person (s : mail) (mid : Z) : Prop :=
  ∃ a, latest mid s = Some a ∧ is_Some (am_actor_user_id a) ∧ am_application_id a = None.

(** an application is derived from mail a person refused. The selection reads
    whether a message has an application, not who decided so: when the only
    candidate group is mail a person said belongs to no application, a run creates
    an application from it, the matcher then stands down from attaching it, and
    the application is left with no message at all. *)
Theorem seed_derives_from_refused clock u s key company anchor ms :
  candidate_groups (_existing_companies u s) (_unmatched_applied_messages u s) =
    [(key, (company, anchor :: ms))] →
  (∀ row, row ∈ anchor :: ms → refused_by_person s (mr_id row)) →
  (∀ i a app, ml_matches s !! i = Some a → am_application_id a = Some app →
     is_Some (ml_applications s !! app)) →
  let app := fresh_id (ml_applications s) in
  let s' := fst (seed_from_mail clock u s) in
  ml_applications s !! app = None ∧ is_Some (ml_applications s' !! app) ∧
  ml_matches s' = ml_matches s ∧
  ∀ i a, ml_matches s' !! i = Some a → am_application_id a ≠ Some app.
Proof.
  intros Hgroups Hrefused Hfk app s'.
  assert (∀ s0 l, ml_matches s0 = ml_matches s → (∀ row, row ∈ l → refused_by_person s (mr_id row)) →
    seed_records clock app l s0 = s0) as Hrec.
  { intros s0 l Hm. unfold seed_records. induction l as [|row l IH]; intros Hl; [done|]. simpl.
    assert (record_new clock (mr_id row) (derived_from app) s0 = s0) as ->.
    { destruct (Hl row) as (a & Ha & Hp & _); [by left|]. unfold record_new, record, stands, latest in *.
      rewrite Hm, Ha, bool_decide_eq_true_2 by done. done. }
    apply IH. intros row' Hr. apply Hl. by right. }
  assert (group_count [(key, (company, anchor :: ms))] company = 1) as Hone.
  { unfold group_count. rewrite filter_cons_True by done. done. }
  assert (anchor_free (mr_id anchor) s = true) as Hfree.
  { destruct (Hrefused anchor) as (a & Ha & _ & Hn); [by left|]. unfold anchor_free. rewrite Ha.
    by apply bool_decide_eq_true_2. }
  assert (∃ row, s' = with_applications (<[app := row]> (ml_applications s)) s) as [row Hs'].
  { unfold s', seed_from_mail. rewrite Hgroups. cbn [foldl]. unfold seed_group. rewrite Hone.
    destruct (Z.ltb_spec (derived_cap u s) 1) as [Hc|_].
    { unfold derived_cap, CAP_FLOOR in Hc. lia. }
    unfold seed_insert. cbn [fst]. rewrite Hfree. cbn [fst]. fold app. rewrite Hrec; [by eexists|done|done]. }
  rewrite Hs'. split_and!; [apply fresh_id_lookup|simpl; rewrite lookup_insert_eq; by eexists|done|].
  simpl. intros i a Hi Ha. destruct (Hfk i a app Hi Ha) as [x Hx].
  unfold app in Hx. by rewrite fresh_id_lookup in Hx.
Qed.

(** Two applications at a company are no match at all. *)
Lemma by_company_two apps company sent title x y :
  x ∈ apps → y ∈ apps → x ≠ y → at_company (norm_company company) sent x = true →
  at_company (norm_company company) sent y = true → _by_company apps company sent title = None.
Proof.
  intros Hx Hy Hne Hax Hay. unfold _by_company. destruct (String.eqb _ _); [done|].
  assert (∀ z, z ∈ apps → at_company (norm_company company) sent z = true →
    z ∈ filter (λ x, at_company (norm_company company) sent x = true) apps) as Hin
    by (intros z Hz Haz; by apply list_elem_of_filter).
  specialize (Hin x Hx Hax) as Hix. specialize (Hin y Hy Hay) as Hiy.
  destruct (filter _ apps) as [|[i a] [|? ?]]; [done| |done].
  apply list_elem_of_singleton in Hix as ->. by apply list_elem_of_singleton in Hiy as ->.
Qed.

(** Two workers can derive the same application twice. The insert is conditional
    on its first message having no application, but the match that would stop a
    second insert is a later statement: two inserts before either match both
    succeed, and from then on no mail that names only the employer is matched
    there, since the company has two candidates. *)
Theorem seed_race now now' u date date' anchor s company sent title :
  anchor_free (mr_id anchor) s = true →
  norm_company company = norm_company (mr_company anchor) →
  (∀ t, date = Some t ∨ date' = Some t → ∃ x, sent = Some x ∧ t ≤ x) →
  ∃ s1 s2 id id', seed_insert now u date anchor s = (s1, Some id) ∧
    seed_insert now' u date' anchor s1 = (s2, Some id') ∧ id ≠ id' ∧
    ∀ listed, (∀ l, listed l ≡ₚ l) →
      _by_company (listed (user_applications u s2)) company sent title = None.
Proof.
  intros Hfree Hc Hdates. unfold seed_insert. rewrite Hfree.
  set (id := fresh_id (ml_applications s)). set (row := mkApplication _ _ _ _ _ date _ _).
  set (s1 := with_applications (<[id := row]> (ml_applications s)) s).
  set (id' := fresh_id (ml_applications s1)). set (row' := mkApplication _ _ _ _ _ date' _ _).
  exists s1, (with_applications (<[id' := row']> (ml_applications s1)) s1), id, id'.
  assert (ml_applications s1 !! id = Some row) as Hid by apply lookup_insert_eq.
  assert (id ≠ id') as Hne by (intros Heq; unfold id' in Heq; by rewrite Heq, fresh_id_lookup in Hid).
  assert (anchor_free (mr_id anchor) s1 = true) as Hfree1 by exact Hfree.
  split_and!; [done|by rewrite Hfree1|done|]. intros listed Hl.
  assert (∀ d a, d = date ∨ d = date' → ap_applied_at a = d → ap_company_name a = mr_company anchor →
    ap_source_provenance a = "email"%string → ∀ i, at_company (norm_company company) sent (i, a) = true) as Hat.
  { intros d a Hd Ha Hcn Hp i. unfold at_company. simpl. rewrite Hcn, Hc, String.eqb_refl, andb_true_r.
    unfold not_before_applying. rewrite Ha, Hp. simpl. destruct d as [t|]; [|done].
    destruct (Hdates t) as (x & -> & Hx); [by destruct Hd; [left|right]|]. apply Z.leb_le. lia. }
  apply (by_company_two _ _ _ _ (id, row) (id', row')).
  - rewrite Hl. apply elem_of_user_applications. simpl. by rewrite lookup_insert_ne.
  - rewrite Hl. apply elem_of_user_applications. simpl. by rewrite lookup_insert_eq.
  - congruence.
  - by apply (Hat date); [left|..].
  - by apply (Hat date'); [right|..].
Qed.

(** ** Concrete mailboxes *)

Definition demo_at (sent : Z) : ImportedMessage :=
  mkImported "<1@x>" "gmail" None None None None [] None (Some sent) None None None.
Definition demo_said (mid : Z) (kind title : string) : event :=
  mkEvent mid kind None None None false (Some "Acme"%string) (Some title) (Some "m"%string) None 20.
Definition demo_applied (title : string) (t : Z) : application :=
  mkApplication 7 None (Some "Acme"%string) (Some title) "email" (Some t) None 1.

(** Two derived applications at one employer. The sweep found no match for a
    rejection dated before the first; then a person attached an older message to
    it. *)
Definition demo_floors : mail :=
  mkMail {[ 1 := mkMessage 7 (demo_at 60) true "" (Some 1) (Some 1);
            2 := mkMessage 7 (demo_at 50) true "" (Some 2) (Some 2) ]}
    {[ 1 := demo_said 1 "rejection" "Engineer"; 2 := demo_said 2 "acknowledgement" "Engineer" ]}
    {[ 1 := mkMatch 1 None UNMATCHED (Some "none"%string) None None 40;
       2 := mkMatch 2 (Some 5) MANUAL (Some "high"%string) None (Some 7) 45 ]}
    {[ 5 := demo_applied "Engineer" 100; 6 := demo_applied "Analyst" 200 ]} [] ∅.

(** The rows of a concrete table of two. *)
Lemma two_rows {A} (i j k : Z) (x y z : A) :
  ({[ i := x; j := y ]} : gmap Z A) !! k = Some z → k = i ∧ z = x ∨ k = j ∧ z = y.
Proof. intros [[<- <-]|[_ [<- <-]%lookup_singleton_Some]]%lookup_insert_Some; auto. Qed.

Lemma demo_floors_sound : sound demo_floors.
Proof.
  split; [split; intros i x [[-> ->]|[-> ->]]%two_rows; by eexists|].
  intros mid r [[-> ->]|[-> ->]]%two_rows; vm_compute; reflexivity.
Qed.

Lemma floors_settle_witness :
  recompute_derived_floors id 7 (fst (recompute_derived_floors id 7 demo_floors)) =
  (fst (recompute_derived_floors id 7 demo_floors), 0).
Proof. apply (floors_settle id 7 demo_floors). done. Defined.

Lemma lowered_floor_not_released_witness :
  let lowered := fst (recompute_derived_floors id 7 demo_floors) in
  md_application_id (decide_row demo_links id ∅ 7 lowered
    (row_of 1 (mkMessage 7 (demo_at 60) true "" (Some 1) (Some 1)) (demo_said 1 "rejection" "Engineer"))) = Some 5 ∧
  latest 1 (fst (match_pending demo_links id ∅ (λ _, 60) 7 None (Some 30) lowered)) =
    Some (mkMatch 1 None UNMATCHED (Some "none"%string) None None 40).
Proof.
  split; [vm_compute; reflexivity|].
  apply (lowered_floor_not_released demo_links id ∅ 7 (λ _, 60) (Some 30) demo_floors 1
    (demo_said 1 "rejection" "Engineer")); [done|apply demo_floors_sound|vm_compute; reflexivity|].
  exists (mkMatch 1 None UNMATCHED (Some "none"%string) None None 40).
  split_and!; [vm_compute; reflexivity|done|].
  intros i a [[-> ->]|[-> ->]]%two_rows _; vm_compute; discriminate.
Defined.

(** A rejection a person said belongs to no application. *)
Definition demo_refused : mail :=
  mkMail {[ 1 := mkMessage 7 (demo_at 60) true "" (Some 1) (Some 1) ]}
    {[ 1 := demo_said 1 "rejection" "Engineer" ]}
    {[ 1 := mkMatch 1 None NOT_AN_APPLICATION (Some "high"%string) None (Some 7) 40 ]} ∅ [] ∅.
Definition demo_refused_row : mail_row :=
  mkRow 1 None None (Some 60) "rejection" (Some "Acme"%string) (Some "Engineer"%string).

Lemma seed_derives_from_refused_witness :
  ml_matches (fst (seed_from_mail (λ _, 50) 7 demo_refused)) = ml_matches demo_refused.
Proof.
  apply (seed_derives_from_refused (λ _, 50) 7 demo_refused (InCompany "acme" "engineer") "acme"
    demo_refused_row []).
  - vm_compute. reflexivity.
  - intros row ->%list_elem_of_singleton. eexists. split; [vm_compute; reflexivity|].
    split; [by eexists|done].
  - intros i a app Hi. simpl in Hi. by apply lookup_singleton_Some in Hi as [<- <-].
Defined.

Lemma seed_race_witness :
  ∃ s1 s2 id id', seed_insert 50 7 (Some 60) demo_refused_row demo_refused = (s1, Some id) ∧
    seed_insert 51 7 (Some 60) demo_refused_row s1 = (s2, Some id') ∧ id ≠ id' ∧
    ∀ listed, (∀ l, listed l ≡ₚ l) →
      _by_company (listed (user_applications 7 s2)) (Some "ACME Inc"%string) (Some 60) None = None.
Proof.
  apply (seed_race 50 51 7 (Some 60) (Some 60) demo_refused_row demo_refused).
  - vm_compute. reflexivity.
  - vm_compute. reflexivity.
  - intros t [[= <-]|[= <-]]; by exists 60.
Defined.
