(* ===== verification/Hosts.v ===== *)
(** * Pacing requests to a host ([api.hosts])

    One row per host and egress address: the gap between requests and when the
    next slot opens. Each statement is a step, because workers that share an
    address interleave between them. Times are microseconds; a gap is a rational
    number of seconds, and the rounding of a floating-point product is left out. *)

From S2P Require Import Prelude Spec.

Local Open Scope Z_scope.

(** [host_budget]. *)
Record host_budget : Type := mkBudget {
  hb_pace_seconds : Qc;
  hb_next_allowed_at : Z;
  hb_ok : Z;
  hb_refused : Z;
}.

(** By host and egress group. *)
Abbreviation budgets := (gmap (string * string) host_budget).

Definition REFUSED_MIN_SECONDS : Qc := Decimal 30.
Definition CAP_SECONDS : Qc := Decimal 900.
Definition DECAY : Qc := dec 9 1.
Definition BLOCKED_AFTER : Z := 3.
Definition REQUEUE_SECONDS : Qc := Decimal 5.

Definition qmax (a b : Qc) : Qc := if qltb a b then b else a.
Definition qmin (a b : Qc) : Qc := if qltb b a then b else a.

(** [make_interval(secs => s)]: whole microseconds, a tie to the even one. *)
Definition interval (s : Qc) : Z :=
  let x := this (s * Decimal 1000000)%Qc in
  let f := (Qnum x / Zpos (Qden x))%Z in
  let twice := (2 * (Qnum x mod Zpos (Qden x)))%Z in
  if twice <? Zpos (Qden x) then f
  else if Zpos (Qden x) <? twice then f + 1
  else if Z.even f then f else f + 1.

(** [floor_for] over the configured limits; a value [float] refuses is as if absent. *)
Definition floor_for (limits : gmap string Qc) (host : string) : Qc :=
  default (Decimal 0) (limits !! host).

(** ** The statements of [take] *)

Definition open_budget (floor : Qc) (now : Z) (k : string * string) (t : budgets) : budgets :=
  <[k := match t !! k with
         | None => mkBudget floor now 0 0
         | Some b => mkBudget (qmax (hb_pace_seconds b) floor) (hb_next_allowed_at b) (hb_ok b)
                       (hb_refused b)
         end]> t.

Definition take_slot (now : Z) (k : string * string) (t : budgets) : budgets * bool :=
  match t !! k with
  | Some b =>
      if hb_next_allowed_at b <=? now
      then (<[k := mkBudget (hb_pace_seconds b) (now + interval (hb_pace_seconds b)) (hb_ok b)
                     (hb_refused b)]> t, true)
      else (t, false)
  | None => (t, false)
  end.

(** [take], with nothing between its statements: [None] when the slot is taken. *)
Definition take (limits : gmap string Qc) (now : Z) (k : string * string) (t : budgets)
    : budgets * option Z :=
  let t := open_budget (floor_for limits k.1) now k t in
  let '(t, taken) := take_slot now k t in
  (t, if taken then None else hb_next_allowed_at <$> t !! k).

(** ** Answers of a host *)

Definition refused_pace (b : host_budget) : Qc :=
  qmin CAP_SECONDS (qmax (hb_pace_seconds b * Decimal 2)%Qc REFUSED_MIN_SECONDS).

Definition refused (now : Z) (k : string * string) (t : budgets) : budgets * Z :=
  match t !! k with
  | Some b =>
      let next := now + interval (refused_pace b) in
      (<[k := mkBudget (refused_pace b) next (hb_ok b) (hb_refused b + 1)]> t, next)
  | None => (t, now + interval REFUSED_MIN_SECONDS)
  end.

Definition succeeded (limits : gmap string Qc) (k : string * string) (t : budgets) : budgets :=
  match t !! k with
  | Some b =>
      <[k := mkBudget (qmax (floor_for limits k.1) (hb_pace_seconds b * DECAY)%Qc)
               (hb_next_allowed_at b) (hb_ok b + 1) (hb_refused b)]> t
  | None => t
  end.

Definition soon (now : Z) : Z := now + interval REQUEUE_SECONDS.

Definition blocked (ok refusals : Z) : bool := (ok =? 0) && (BLOCKED_AFTER <=? refusals).

(** ** Lemmas *)

(** The nearest integer to [n/d]. *)
Lemma interval_near s :
  let x := this (s * Decimal 1000000)%Qc in
  -(Zpos (Qden x)) ≤ 2 * (Qnum x - interval s * Zpos (Qden x)) ≤ Zpos (Qden x).
Proof.
  cbv zeta. unfold interval. set (x := this _). set (d := Zpos (Qden x)).
  assert (0 < d) as Hd by reflexivity.
  pose proof (Z.div_mod (Qnum x) d ltac:(lia)) as Hdm. pose proof (Z.mod_pos_bound (Qnum x) d Hd) as Hb.
  set (f := (Qnum x / d)%Z) in *. set (r := (Qnum x mod d)%Z) in *.
  destruct (Z.ltb_spec (2 * r) d); [nia|]. destruct (Z.ltb_spec d (2 * r)); [nia|].
  destruct (Z.even f); nia.
Qed.

Lemma interval_mono a b : (a <= b)%Qc → interval a ≤ interval b.
Proof.
  intros Hle. destruct (Qc_eq_dec a b) as [->|Hne]; [lia|].
  assert (a < b)%Qc as Hlt by (apply Qcle_lt_or_eq in Hle as [?|?]; done).
  apply (Qcmult_lt_compat_r _ _ (Decimal 1000000)) in Hlt; [|done].
  pose proof (interval_near a) as Ha. pose proof (interval_near b) as Hb. cbv zeta in Ha, Hb.
  unfold Qclt, Qlt in Hlt. set (x := this (a * Decimal 1000000)%Qc) in *.
  set (y := this (b * Decimal 1000000)%Qc) in *.
  destruct (Z_le_gt_dec (interval a) (interval b)) as [?|Hgt]; [done|exfalso].
  assert (0 < Zpos (Qden x)) by reflexivity. assert (0 < Zpos (Qden y)) by reflexivity.
  generalize dependent (interval a). generalize dependent (interval b). intros j Hb i Ha Hgt.
  set (n := Qnum x) in *. set (m := Qnum y) in *. set (d := Zpos (Qden x)) in *. set (e := Zpos (Qden y)) in *.
  assert ((2 * i - 1) * d * e ≤ 2 * n * e) by nia.
  assert (2 * m * d ≤ (2 * j + 1) * e * d) by nia.
  assert ((2 * j + 1) * (e * d) ≤ (2 * i - 1) * (e * d)) by nia.
  nia.
Qed.

Lemma qmax_spec a b : (a <= qmax a b)%Qc ∧ (b <= qmax a b)%Qc.
Proof.
  unfold qmax. destruct (qltb a b) eqn:E.
  - apply qltb_lt in E. split; [by apply Qclt_le_weak|apply Qcle_refl].
  - apply qltb_ge in E. split; [apply Qcle_refl|done].
Qed.

Lemma qmin_glb a b c : (c <= a)%Qc → (c <= b)%Qc → (c <= qmin a b)%Qc.
Proof. unfold qmin. by destruct (qltb b a). Qed.

Lemma qmin_le a b : (qmin a b <= a)%Qc.
Proof.
  unfold qmin. destruct (qltb b a) eqn:E; [|apply Qcle_refl]. by apply Qclt_le_weak, qltb_lt.
Qed.

(** ** Workers on one address *)

(** What happened to the slot of one host and address. *)
Inductive slot_event : Type :=
| Took (t : Z)
| Refused (t : Z).

Record pacing : Type := mkPacing {
  pc_budgets : budgets;
  pc_now : Z;
  pc_log : list slot_event;   (** newest first *)
}.

(** A statement on the row [k], under limits whose floor for the host is at least
    [floor], or any statement on other rows. *)
Inductive pace_step (k : string * string) (floor : Qc) : pacing → pacing → Prop :=
| pace_opens t now now' log f :
    now ≤ now' → (floor <= f)%Qc →
    pace_step k floor (mkPacing t now log) (mkPacing (open_budget f now' k t) now' log)
| pace_takes t now now' log t' :
    now ≤ now' → take_slot now' k t = (t', true) →
    pace_step k floor (mkPacing t now log) (mkPacing t' now' (Took now' :: log))
| pace_refused t now now' log :
    now ≤ now' → is_Some (t !! k) →
    pace_step k floor (mkPacing t now log)
      (mkPacing (fst (refused now' k t)) now' (Refused now' :: log))
| pace_succeeded t now now' log limits :
    now ≤ now' → (floor <= floor_for limits k.1)%Qc →
    pace_step k floor (mkPacing t now log) (mkPacing (succeeded limits k t) now' log)
| pace_elsewhere t now now' log t' :
    now ≤ now' → t' !! k = t !! k →
    pace_step k floor (mkPacing t now log) (mkPacing t' now' log).

(** Each slot taken is clear of every earlier one and of every earlier refusal. *)
Fixpoint spaced (floor : Qc) (log : list slot_event) : Prop :=
  match log with
  | [] => True
  | Took t :: log =>
      (∀ t1, Took t1 ∈ log → t1 + interval floor ≤ t) ∧
      (∀ t1, Refused t1 ∈ log → t1 + interval REFUSED_MIN_SECONDS ≤ t) ∧ spaced floor log
  | Refused _ :: log => spaced floor log
  end.

Definition slot_time (e : slot_event) : Z := match e with Took t | Refused t => t end.

(** What an event rules out until when. *)
Definition holds_off (floor : Qc) (e : slot_event) : Z :=
  match e with
  | Took t => t + interval floor
  | Refused t => t + interval REFUSED_MIN_SECONDS
  end.

Record pace_inv (k : string * string) (floor : Qc) (p : pacing) : Prop := mkPaceInv {
  pi_spaced : spaced floor (pc_log p);
  pi_past : ∀ e, e ∈ pc_log p → slot_time e ≤ pc_now p;
  pi_row : ∀ b, pc_budgets p !! k = Some b → (floor <= hb_pace_seconds b)%Qc ∧
    ∀ e, e ∈ pc_log p → holds_off floor e ≤ hb_next_allowed_at b;
  pi_there : pc_log p ≠ [] → is_Some (pc_budgets p !! k);
}.

Section invariant.
Context (k : string * string) (floor : Qc).
Hypothesis floor_nonneg : (Decimal 0 <= floor)%Qc.
Hypothesis floor_capped : (floor <= CAP_SECONDS)%Qc.

Lemma refused_pace_bounds b :
  (floor <= hb_pace_seconds b)%Qc →
  (floor <= refused_pace b)%Qc ∧ (REFUSED_MIN_SECONDS <= refused_pace b)%Qc ∧ (refused_pace b <= CAP_SECONDS)%Qc.
Proof.
  intros Hb. unfold refused_pace.
  destruct (qmax_spec (hb_pace_seconds b * Decimal 2) REFUSED_MIN_SECONDS) as [H1 H2]. split_and!.
  - apply qmin_glb; [done|]. eapply Qcle_trans; [exact Hb|]. eapply Qcle_trans; [|exact H1].
    assert (Decimal 2 = (1 + 1)%Qc) as -> by (apply Qc_is_canon; reflexivity).
    rewrite Qcmult_plus_distr_r, Qcmult_1_r. rewrite <- (Qcplus_0_r (hb_pace_seconds b)) at 1.
    apply Qcplus_le_compat; [apply Qcle_refl|]. eapply Qcle_trans; [|exact Hb]. exact floor_nonneg.
  - apply qmin_glb; [done|exact H2].
  - apply qmin_le.
Qed.

Lemma pace_step_inv p p' : pace_inv k floor p → pace_step k floor p p' → pace_inv k floor p'.
Proof.
  intros [Hsp Hpast Hrow Hthere] Hstep.
  destruct Hstep as [t now now' log f Hn Hf|t now now' log t' Hn Ht|t now now' log Hn [b Hb]
    |t now now' log limits Hn Hf|t now now' log t' Hn Ht];
    cbn [pc_log pc_now pc_budgets] in *;
    assert (∀ e, e ∈ log → slot_time e ≤ now') as Hpast' by (intros e He; specialize (Hpast e He); lia).
  - split; cbn [pc_log pc_now pc_budgets]; [done|done| |].
    + intros b Hb. unfold open_budget in Hb. rewrite lookup_insert_eq in Hb. injection Hb as <-.
      destruct (t !! k) as [b|] eqn:E; simpl.
      * destruct (Hrow b eq_refl) as [Hp He]. split; [|done].
        eapply Qcle_trans; [exact Hf|apply qmax_spec].
      * split; [done|]. intros e He. destruct Hthere as [? ?]; [by intros ->; apply elem_of_nil in He|done].
    + intros _. unfold open_budget. rewrite lookup_insert_eq. by eexists.
  - unfold take_slot in Ht. destruct (t !! k) as [b|] eqn:E; [|done].
    destruct (Z.leb_spec (hb_next_allowed_at b) now') as [Hle|]; [|done]. injection Ht as <-.
    destruct (Hrow b eq_refl) as [Hp He].
    split; cbn [pc_log pc_now pc_budgets].
    + simpl. split_and!; [..|done]; intros t1 H1; specialize (He _ H1); simpl in He; lia.
    + intros e [->|H1]%elem_of_cons; [simpl; lia|by apply Hpast'].
    + intros b'. rewrite lookup_insert_eq. intros [= <-]. simpl. split; [done|].
      intros e [->|H1]%elem_of_cons; simpl.
      * apply interval_mono in Hp. lia.
      * specialize (He e H1). assert (0 ≤ interval (hb_pace_seconds b)); [|lia].
        change 0 with (interval (Decimal 0)). apply interval_mono. by eapply Qcle_trans.
    + intros _. rewrite lookup_insert_eq. by eexists.
  - unfold refused. rewrite Hb. cbn [fst]. destruct (Hrow b Hb) as [Hp He].
    destruct (refused_pace_bounds b Hp) as (Hf & Hm & _). apply interval_mono in Hf as Hf', Hm as Hm'.
    split; cbn [pc_log pc_now pc_budgets].
    + done.
    + intros e [->|H1]%elem_of_cons; [simpl; lia|by apply Hpast'].
    + intros b'. rewrite lookup_insert_eq. intros [= <-]. simpl. split; [done|].
      intros e [->|H1]%elem_of_cons; simpl; [lia|].
      specialize (Hpast' e H1). destruct e; simpl in *; lia.
    + intros _. rewrite lookup_insert_eq. by eexists.
  - unfold succeeded. destruct (t !! k) as [b|] eqn:E.
    + destruct (Hrow b eq_refl) as [Hp He]. split; cbn [pc_log pc_now pc_budgets]; [done|done| |].
      * intros b'. rewrite lookup_insert_eq. intros [= <-]. simpl. split; [|done].
        eapply Qcle_trans; [exact Hf|apply qmax_spec].
      * intros _. rewrite lookup_insert_eq. by eexists.
    + split; cbn [pc_log pc_now pc_budgets]; [done|done| |]; rewrite E; done.
  - split; cbn [pc_log pc_now pc_budgets]; [done|done| |]; by rewrite Ht.
Qed.
End invariant.

(** ** Properties *)


Definition demo_key : string * string := ("boards.acme.com", "home")%string.

(** A slot taken, refused, and taken again when it reopens. *)
Definition demo_opened : budgets := open_budget (Decimal 2) 0 demo_key ∅.
Definition demo_taken : budgets := fst (take_slot 0 demo_key demo_opened).
Definition demo_held_off : budgets := fst (refused 1 demo_key demo_taken).
Definition demo_reopened : budgets := fst (take_slot 30000001 demo_key demo_held_off).

Lemma demo_pacing :
  rtc (pace_step demo_key (Decimal 2)) (mkPacing ∅ 0 [])
    (mkPacing demo_reopened 30000001 [Took 30000001; Refused 1; Took 0]).
Proof.
  eapply rtc_l; [apply (pace_opens _ _ ∅ 0 0 [] (Decimal 2)); [lia|apply Qcle_refl]|].
  eapply rtc_l; [apply (pace_takes _ _ demo_opened 0 0 [] demo_taken); [lia|vm_compute; reflexivity]|].
  eapply rtc_l; [apply (pace_refused _ _ demo_taken 0 1); [lia|by eexists]|].
  eapply rtc_l; [apply (pace_takes _ _ demo_held_off 1 30000001 _ demo_reopened); [lia|vm_compute; reflexivity]|].
  apply rtc_refl.
Qed.

