(* ===== verification/Catalog.v ===== *)
(** * The catalog: postings, uploads and what sources say of them ([core.catalog])

    [jobs], [posting_uploads] and [source_observations], with the writes of ingest,
    of administrators and of people's own postings. A statement, or a transaction,
    is one function; [observe] reads in one and writes in others, and the model has
    each. The log of observations is kept newest first, so that [ORDER BY id DESC
    LIMIT 1] is the first row that matches; ids are taken in commit order. *)

From S2P Require Import Prelude PyStr Sql Tasks Queue Listings.

Local Open Scope string_scope.
Local Open Scope Z_scope.

(** ** Rows *)

(** A posting as a board's fetcher returns it; times are seconds. *)
Record JobPosting : Type := mkJobPosting {
  jp_company : string;
  jp_locations : list string;
  jp_title : string;
  jp_url : string;
  jp_terms : list string;
  jp_active : bool;
  jp_date_posted : Z;
  jp_raw_url : string;
  jp_description : string;
  jp_raw : option json;
}.

Inductive kind : Type := Appeared | Reappeared | FilteredOut | Unlisted | NotListed.

#[export] Instance kind_eq_dec : EqDecision kind.
Proof. solve_decision. Defined.

Record observation : Type := mkObservation {
  o_job_id : Z;
  o_source : string;
  o_kind : kind;
  o_run_id : option Z;
}.

(** [jobs], less the frozen [extraction_status], which nothing reads or writes. *)
Record job : Type := mkJob {
  j_url : string;
  j_raw_url : string;
  j_company : string;
  j_title : string;
  j_locations : list string;
  j_terms : list string;
  j_source : string;
  j_near_copy_key : option string;
  j_active : bool;
  j_available : option bool;
  j_date_posted : option Z;
  j_created_at : Z;
}.

Inductive upload_status : Type := UploadPending | UploadDone | UploadFailed.

#[export] Instance upload_status_eq_dec : EqDecision upload_status.
Proof. solve_decision. Defined.

Record upload : Type := mkUpload {
  u_uploaded_by : Z;
  u_status : upload_status;
}.

(** [c_patterns] is the value of [source_title_patterns_enabled] in [app_config], as
    text. *)
Record catalog : Type := mkCatalog {
  c_jobs : gmap Z job;
  c_next_job : Z;
  c_uploads : gmap Z upload;
  c_observations : list observation;
  c_sources : gmap string source;
  c_patterns : option string;
}.

Definition set_jobs (m : gmap Z job) (c : catalog) : catalog :=
  mkCatalog m (c_next_job c) (c_uploads c) (c_observations c) (c_sources c) (c_patterns c).
Definition set_uploads (m : gmap Z upload) (c : catalog) : catalog :=
  mkCatalog (c_jobs c) (c_next_job c) m (c_observations c) (c_sources c) (c_patterns c).
Definition append_observations (l : list observation) (c : catalog) : catalog :=
  mkCatalog (c_jobs c) (c_next_job c) (c_uploads c) (rev l ++ c_observations c)%list (c_sources c)
    (c_patterns c).

Definition put_available (a : option bool) (j : job) : job :=
  mkJob (j_url j) (j_raw_url j) (j_company j) (j_title j) (j_locations j) (j_terms j) (j_source j)
    (j_near_copy_key j) (j_active j) a (j_date_posted j) (j_created_at j).
Definition put_text (company title : string) (locations terms : list string) (j : job) : job :=
  mkJob (j_url j) (j_raw_url j) company title locations terms (j_source j)
    (j_near_copy_key j) (j_active j) (j_available j) (j_date_posted j) (j_created_at j).
Definition put_date_posted (d : option Z) (j : job) : job :=
  mkJob (j_url j) (j_raw_url j) (j_company j) (j_title j) (j_locations j) (j_terms j) (j_source j)
    (j_near_copy_key j) (j_active j) (j_available j) d (j_created_at j).
Definition put_near_copy_key (k : option string) (j : job) : job :=
  mkJob (j_url j) (j_raw_url j) (j_company j) (j_title j) (j_locations j) (j_terms j) (j_source j)
    k (j_active j) (j_available j) (j_date_posted j) (j_created_at j).
Definition put_source (s : string) (j : job) : job :=
  mkJob (j_url j) (j_raw_url j) (j_company j) (j_title j) (j_locations j) (j_terms j) s
    (j_near_copy_key j) (j_active j) (j_available j) (j_date_posted j) (j_created_at j).

(** The row of a url, by the unique index on [jobs.url]. *)
Definition id_of_url (url : string) (m : gmap Z job) : option Z :=
  head (ids_where (λ _ j, String.eqb (j_url j) url) m).

(** ** Availability *)

Definition _ADMITTED (k : kind) : bool :=
  match k with
  | Appeared | Reappeared => true
  | FilteredOut | Unlisted | NotListed => false
  end.

Definition CORRECTION_SOURCE : string := "admin".

Definition PATTERNS_ENFORCED (c : catalog) : bool := String.eqb (default "true" (c_patterns c)) "true".

Definition of_job (i : Z) (o : observation) : bool := o_job_id o =? i.

Definition from_source (s : string) (o : observation) : bool := String.eqb (o_source o) s.

Definition latest (P : observation → bool) (c : catalog) : option observation :=
  find P (c_observations c).

(** The latest observation of job [i] by source [s]. *)
Definition latest_of (i : Z) (s : string) (c : catalog) : option observation :=
  latest (λ o, of_job i o && from_source s o) c.

(** The names of the sources that have observed job [i]. *)
Definition observers (i : Z) (c : catalog) : list string :=
  map o_source (List.filter (of_job i) (c_observations c)).

Definition source_on (s : string) (c : catalog) : bool :=
  match c_sources c !! s with
  | Some r => s_active r
  | None => false
  end.

Definition source_off (s : string) (c : catalog) : bool :=
  match c_sources c !! s with
  | Some r => negb (s_active r)
  | None => false
  end.

(** Whether an observation of a source that is switched on admits the posting. *)
Definition admits (c : catalog) (k : kind) : bool :=
  match k with
  | Appeared | Reappeared | NotListed => true
  | FilteredOut => negb (PATTERNS_ENFORCED c)
  | Unlisted => false
  end.

(** The administrator's correction, while it is the latest observation. *)
Definition correction (i : Z) (c : catalog) : option bool :=
  match latest (of_job i) c with
  | Some o => if from_source CORRECTION_SOURCE o then Some (bool_decide (o_kind o = Reappeared))
              else None
  | None => None
  end.

(** The EXISTS over the latest observation of each source. *)
Definition listed_by_some (i : Z) (c : catalog) : bool :=
  existsb
    (λ s, source_on s c &&
          match latest_of i s c with
          | Some o => admits c (o_kind o)
          | None => false
          end)
    (observers i c).

Definition AVAILABLE (i : Z) (j : job) (c : catalog) : option bool :=
  coalesce (correction i c)
    (if listed_by_some i c then Some true
     else if existsb (of_job i) (c_observations c) then Some false
     else if source_off (j_source j) c then Some false
     else if String.eqb (j_source j) "sheet_import" then Some false
     else None).

Definition IS_AVAILABLE (j : job) : bool := default false (j_available j).

Definition _STORED (i : Z) (j : job) (c : catalog) : bool := default (j_active j) (AVAILABLE i j c).

(** [available IS DISTINCT FROM _STORED]. *)
Definition stale (c : catalog) (i : Z) (j : job) : bool :=
  negb (bool_decide (j_available j = Some (_STORED i j c))).

(** [_refresh_available]'s second statement, over the rows the first has locked. *)
Definition store_available (locked : list Z) (c : catalog) : catalog :=
  set_jobs (map_imap
    (λ i j, Some (if mem i locked && stale c i j then put_available (Some (_STORED i j c)) j else j))
    (c_jobs c)) c.

(** The first statement: with [skip_locked] the rows others hold are left out, and
    otherwise the statement waits until none is. *)
Definition lock_rows (skip_locked : bool) (held ids : list Z) (c : catalog) : list Z :=
  List.filter (λ i, bool_decide (is_Some (c_jobs c !! i)) && negb (skip_locked && mem i held)) ids.

Definition _refresh_available (ids : list Z) (skip_locked : bool) (held : list Z) (c : catalog)
    : catalog * nat :=
  let locked := lock_rows skip_locked held ids c in
  (store_available locked c, count_where (λ i j, mem i locked && stale c i j) (c_jobs c)).

Definition _BATCH : nat := 500.
Definition _RECONCILE_CHUNK : Z := 20000.

(** [l[0:n], l[n:2n], ...]. *)
Fixpoint chunks_from {A} (fuel n : nat) (l : list A) : list (list A) :=
  match fuel, l with
  | _, [] => []
  | O, _ => [l]
  | S k, _ => take n l :: chunks_from k n (drop n l)
  end.

Definition chunks {A} (n : nat) (l : list A) : list (list A) := chunks_from (length l) n l.

Definition refresh_available (ids : list Z) (c : catalog) : catalog * nat :=
  foldl (λ cn b, let r := _refresh_available b false [] cn.1 in (r.1, cn.2 + r.2)%nat)
    (c, O) (chunks _BATCH ids).

(** One chunk of [reconcile_available]: the rows that differ when it reads, less
    those others hold when it locks. *)
Definition reconcile_chunk (held : list Z) (lo : Z) (c : catalog) : catalog * nat :=
  _refresh_available
    (ids_where (λ i j, (lo <=? i) && (i <? lo + _RECONCILE_CHUNK) && stale c i j) (c_jobs c))
    true held c.

(** [range(lo, hi + 1, step)]. *)
Definition bounds_from (lo hi : Z) : list Z :=
  map (λ k, lo + Z.of_nat k * _RECONCILE_CHUNK)
    (seq 0 (Z.to_nat ((hi - lo) / _RECONCILE_CHUNK + 1))).

Definition reconcile_available (held : list Z) (c : catalog) : catalog * nat :=
  match ids_where (λ _ _, true) (c_jobs c) with
  | [] => (c, O)
  | lo :: rest =>
      foldl (λ cn b, let r := reconcile_chunk held b cn.1 in (r.1, cn.2 + r.2)%nat) (c, O)
        (bounds_from lo (List.last rest lo))
  end.

(** ** An administrator's correction *)

Definition set_active (job_id : Z) (active : bool) (c : catalog) : catalog * bool :=
  match c_jobs c !! job_id with
  | None => (c, false)
  | Some _ =>
      let o := mkObservation job_id CORRECTION_SOURCE (if active then Reappeared else Unlisted) None in
      ((_refresh_available [job_id] false [] (append_observations [o] c)).1, true)
  end.

(** The fields of a PATCH, and the names of those no correction covers. *)
Record correction_fields : Type := mkFields {
  cf_active : option bool;
  cf_company : option string;
  cf_title : option string;
  cf_locations : option (list string);
  cf_terms : option (list string);
  cf_unknown : list string;
}.

Inductive catalog_error : Type :=
| NotCorrectable (unknown : list string)
| CompanyRequired
| SubjectGone
| DeadlockDetected.

Definition correct_text (f : correction_fields) (j : job) : job :=
  put_text (default (j_company j) (cf_company f)) (default (j_title j) (cf_title f))
    (default (j_locations j) (cf_locations f)) (default (j_terms j) (cf_terms f)) j.

(** The row as it is left, with [IS_AVAILABLE]; [None] when no such job. *)
Definition correct_posting (job_id : Z) (f : correction_fields) (c : catalog)
    : catalog * result catalog_error (option (job * bool)) :=
  match cf_unknown f with
  | _ :: _ => (c, Err (NotCorrectable (cf_unknown f)))
  | [] =>
      let '(c1, found) :=
        match cf_active f with
        | Some a => set_active job_id a c
        | None => (c, true)
        end in
      if found then
        let c2 := set_jobs (alter (correct_text f) job_id (c_jobs c1)) c1 in
        (c2, Ok ((λ j, (j, IS_AVAILABLE j)) <$> c_jobs c2 !! job_id))
      else (c1, Ok None)
  end.

(** ** What a pull writes *)

(** A row of the VALUES list. *)
Record posting_row : Type := mkRow {
  v_url : string;
  v_raw_url : string;
  v_company : string;
  v_title : string;
  v_locations : list string;
  v_terms : list string;
  v_source : string;
  v_date_posted : option Z;
}.

Definition posting_row_of (source : string) (p : JobPosting) : posting_row :=
  mkRow (jp_url p) (if String.eqb (jp_raw_url p) "" then jp_url p else jp_raw_url p)
    (jp_company p) (jp_title p) (jp_locations p) (jp_terms p) source
    (if jp_date_posted p =? 0 then None else Some (jp_date_posted p)).

Definition is_upload (j : job) : bool := String.eqb (j_source j) "upload".

Definition merged_company (v : posting_row) (j : job) : string :=
  if is_upload j || String.eqb (j_company j) "" then v_company v else j_company j.
Definition merged_title (v : posting_row) (j : job) : string :=
  if is_upload j || String.eqb (j_title j) "" then v_title v else j_title j.
Definition merged_source (v : posting_row) (j : job) : string :=
  if is_upload j then v_source v else j_source j.

(** The SET of ON CONFLICT DO UPDATE. *)
Definition merge_row (v : posting_row) (j : job) : job :=
  put_source (merged_source v j)
    (put_date_posted (coalesce (j_date_posted j) (v_date_posted v))
       (put_text (merged_company v j) (merged_title v j) (v_locations v) (v_terms v) j)).

(** The NOT EXISTS: the columns the SET writes, against the stored row's. *)
Definition would_not_change (v : posting_row) (j : job) : bool :=
  bool_decide
    ((merged_company v j, merged_title v j, v_locations v, v_terms v,
      coalesce (j_date_posted j) (v_date_posted v), merged_source v j) =
     (j_company j, j_title j, j_locations j, j_terms j, j_date_posted j, j_source j)).

Definition inserted_row (now : Z) (v : posting_row) : job :=
  mkJob (v_url v) (v_raw_url v) (v_company v) (v_title v) (v_locations v) (v_terms v) (v_source v)
    None true (Some true) (v_date_posted v) now.

Definition insert_job (j : job) (c : catalog) : catalog :=
  mkCatalog (<[c_next_job c := j]> (c_jobs c)) (c_next_job c + 1) (c_uploads c) (c_observations c)
    (c_sources c) (c_patterns c).

Definition upsert_row (now : Z) (c : catalog) (v : posting_row) : catalog :=
  match id_of_url (v_url v) (c_jobs c) with
  | None => insert_job (inserted_row now v) c
  | Some i =>
      match c_jobs c !! i with
      | Some j => if would_not_change v j then c
                  else set_jobs (<[i := merge_row v j]> (c_jobs c)) c
      | None => c
      end
  end.

(** The uploads a batch takes over, read before the upsert. *)
Definition taken_over (batch : list posting_row) (c : catalog) : list Z :=
  ids_where
    (λ i u, negb (bool_decide (u_status u = UploadDone)) &&
            match c_jobs c !! i with
            | Some j => is_upload j && mem (j_url j) (map v_url batch)
            | None => false
            end)
    (c_uploads c).

Definition put_status_of (s : upload_status) (u : upload) : upload := mkUpload (u_uploaded_by u) s.

Definition finish_uploads (taken : list Z) (c : catalog) : catalog :=
  set_uploads (update_where (λ i u, mem i taken && negb (bool_decide (u_status u = UploadDone)))
                 (put_status_of UploadDone) (c_uploads c)) c.

(** One transaction of [_upsert_batch]. *)
Definition upsert_transaction (now : Z) (batch : list posting_row) (c : catalog) : catalog :=
  finish_uploads (taken_over batch c) (foldl (upsert_row now) c batch).

(** [_upsert_batch]: [deadlocks] says which attempts the database rolls back. *)
Fixpoint _upsert_batch (retries : nat) (deadlocks : list bool) (now : Z) (batch : list posting_row)
    (c : catalog) : catalog * result catalog_error unit :=
  match retries with
  | O => (c, Ok tt)
  | S k =>
      match deadlocks with
      | true :: ds =>
          match k with
          | O => (c, Err DeadlockDetected)
          | S _ => _upsert_batch k ds now batch c
          end
      | _ => (upsert_transaction now batch c, Ok tt)
      end
  end.

(** Rows are written in code point order of their urls. *)
Definition row_le (a b : posting_row) : Prop := String.le (v_url a) (v_url b).
#[export] Instance row_le_dec : RelDecision row_le.
Proof. intros a b. unfold row_le. apply _. Defined.

Definition posting_rows (source : string) (postings : list JobPosting) : list posting_row :=
  merge_sort row_le
    (map (posting_row_of source) (List.filter (λ p, negb (String.eqb (jp_url p) "")) postings)).

(** [upsert_postings] when no batch is rolled back for good. *)
Definition upsert_postings (now : Z) (postings : list JobPosting) (source : string) (c : catalog)
    : catalog * nat :=
  let rows := posting_rows source postings in
  (foldl (λ c b, upsert_transaction now b c) c (chunks _BATCH rows), length rows).

(** ** Other writes *)

(** [set_near_copy_keys]: keys by url. *)
Definition near_copy_keyed (keys : list (string * string)) (m : gmap Z job) : gmap Z job :=
  map_imap
    (λ _ j, Some match alist_get (j_url j) keys with
                 | Some k => if bool_decide (j_near_copy_key j = Some k) then j
                             else put_near_copy_key (Some k) j
                 | None => j
                 end) m.

Definition set_near_copy_keys (keys : list (string * string)) (c : catalog) : catalog :=
  set_jobs (near_copy_keyed keys (c_jobs c)) c.

Definition nameless (source : string) (j : job) : bool :=
  String.eqb (j_source j) source && String.eqb (j_company j) "".

(** [ORDER BY url COLLATE "C"] of the ids selected. *)
Definition id_by_url (c : catalog) (a b : Z) : Prop :=
  match c_jobs c !! a, c_jobs c !! b with
  | Some x, Some y => String.le (j_url x) (j_url y)
  | _, _ => True
  end.
#[export] Instance id_by_url_dec c : RelDecision (id_by_url c).
Proof. intros a b. unfold id_by_url. destruct (c_jobs c !! a), (c_jobs c !! b); apply _. Defined.

(** One statement of [fill_source_company]: at most [limit] rows, and how many. *)
Definition fill_chunk (source company : string) (limit : nat) (c : catalog) : catalog * nat :=
  let locked := take limit (merge_sort (id_by_url c) (ids_where (λ _ j, nameless source j) (c_jobs c))) in
  (set_jobs (update_where (λ i _, mem i locked)
               (λ j, put_text company (j_title j) (j_locations j) (j_terms j) j) (c_jobs c)) c,
   length locked).

Fixpoint fill_loop (fuel : nat) (source company : string) (named : nat) (c : catalog)
    : option (catalog * nat) :=
  match fuel with
  | O => None
  | S k =>
      let '(c, written) := fill_chunk source company _BATCH c in
      if (written <? _BATCH)%nat then Some (c, named + written)%nat
      else fill_loop k source company (named + written) c
  end.

(** [fill_source_company]; [None] is a loop still running. *)
Definition fill_source_company (fuel : nat) (source company : string) (c : catalog)
    : option (result catalog_error (catalog * nat)) :=
  let company := strip company in
  if String.eqb company "" then Some (Err CompanyRequired)
  else Ok <$> fill_loop fuel source company 0 c.

Definition fill_date_posted (url : string) (posted : Z) (c : catalog) : catalog :=
  set_jobs (update_where (λ _ j, String.eqb (j_url j) url && bool_decide (j_date_posted j = None))
              (put_date_posted (Some posted)) (c_jobs c)) c.

(** ** People's own postings *)

Record uploaded : Type := mkUploaded {
  up_id : Z;
  up_extraction_status : option upload_status;
  up_uploaded_by : option Z;
}.

Definition uploaded_row (now : Z) (url raw_url : string) : job :=
  mkJob url raw_url "" "" [] [] "upload" None true (Some true) None now.

Definition put_upload (i : Z) (u : upload) (c : catalog) : catalog :=
  set_uploads (<[i := u]> (c_uploads c)) c.

(** A failed extraction goes back to pending. *)
Definition retried (u : upload) : upload :=
  if bool_decide (u_status u = UploadFailed) then put_status_of UploadPending u else u.

Definition add_upload (now : Z) (url raw_url : string) (user_id : Z) (c : catalog) : catalog * uploaded :=
  match id_of_url url (c_jobs c) with
  | None =>
      let i := c_next_job c in
      (put_upload i (mkUpload user_id UploadPending) (insert_job (uploaded_row now url raw_url) c),
       mkUploaded i (Some UploadPending) (Some user_id))
  | Some i =>
      match c_uploads c !! i with
      | Some u => (put_upload i (retried u) c,
                   mkUploaded i (Some (u_status (retried u))) (Some (u_uploaded_by u)))
      | None => (c, mkUploaded i None None)
      end
  end.

Definition set_extraction_status (job_id : Z) (s : upload_status) (c : catalog) : catalog :=
  set_uploads (alter (put_status_of s) job_id (c_uploads c)) c.

Definition record_extraction (job_id : Z) (company title : string) (locations terms : list string)
    (c : catalog) : catalog :=
  set_uploads (alter (put_status_of UploadDone) job_id (c_uploads c))
    (set_jobs (alter (put_text company title locations terms) job_id (c_jobs c)) c).

(** ** What a pull says *)

(** [{posting.url: posting for posting in postings if posting.url}]: the last of a url. *)
Definition posting_by_url (postings : list JobPosting) (url : string) : option JobPosting :=
  if String.eqb url "" then None
  else last (List.filter (λ p, String.eqb (jp_url p) url) postings).

Definition latest_kind (i : Z) (source : string) (c : catalog) : option kind :=
  o_kind <$> latest_of i source c.

(** What the pull says of a listed posting, given what it said before; [None] when
    that stands. *)
Definition observed_kind (p : JobPosting) (kept : list string) (previous : option kind) : option kind :=
  let said :=
    if negb (jp_active p) then Some Unlisted
    else if negb (mem (jp_url p) kept) then Some FilteredOut
    else match previous with
         | None => Some Appeared
         | Some k => if _ADMITTED k then None else Some Reappeared
         end in
  if bool_decide (said = previous) then None else said.

(** What it says of a posting it left out. *)
Definition absent_kind (source : string) (absence : option kind) (j : job) (previous : option kind)
    : option kind :=
  match absence, previous with
  | None, _ => None
  | Some a, Some k => if _ADMITTED k || bool_decide (k = FilteredOut) then Some a else None
  | Some Unlisted, None =>
      if String.eqb (j_source j) source && IS_AVAILABLE j then Some Unlisted else None
  | Some _, None => None
  end.

Definition pull_says (source : string) (postings : list JobPosting) (kept : list string)
    (absence : option kind) (c : catalog) (i : Z) (j : job) : option kind :=
  match posting_by_url postings (j_url j) with
  | Some p => observed_kind p kept (latest_kind i source c)
  | None => absent_kind source absence j (latest_kind i source c)
  end.

(** The rows to record, in url order: (url, job, kind). *)
Definition url_le (a b : string * (Z * kind)) : Prop := String.le a.1 b.1.
#[export] Instance url_le_dec : RelDecision url_le.
Proof. intros a b. unfold url_le. apply _. Defined.

Definition observation_rows (source : string) (postings : list JobPosting) (kept : list string)
    (absence : option kind) (c : catalog) : list (string * (Z * kind)) :=
  merge_sort url_le
    (omap (λ ij : Z * job, (λ k, (j_url ij.2, (ij.1, k))) <$>
             pull_says source postings kept absence c ij.1 ij.2)
       (map_to_list (c_jobs c))).

Definition observations_of (source : string) (run_id : option Z) (rows : list (string * (Z * kind)))
    : list observation :=
  map (λ r, mkObservation r.2.1 source r.2.2 run_id) rows.

(** [sorted({job_id ...})]. *)
Definition observed_ids (rows : list (string * (Z * kind))) : list Z :=
  merge_sort (≤) (elements (list_to_set (map (λ r, r.2.1) rows) : gset Z)).

Definition kind_count (k : kind) (rows : list (string * (Z * kind))) : nat :=
  length (List.filter (λ r, bool_decide (r.2.2 = k)) rows).

(** [observe] with nothing between its reads, its insert and its refresh; the rows it
    recorded are returned, which [kind_count] counts. *)
Definition observe (source : string) (run_id : option Z) (postings : list JobPosting)
    (kept : list string) (absence : option kind) (c : catalog)
    : catalog * list (string * (Z * kind)) :=
  let rows := observation_rows source postings kept absence c in
  match rows with
  | [] => (c, [])
  | _ :: _ =>
      ((refresh_available (observed_ids rows)
          (append_observations (observations_of source run_id rows) c)).1, rows)
  end.
