(* ===== verification/CatalogProps.v ===== *)
(** * What the catalog promises ([Catalog])

    Ids and urls name one row; a pull's rows are written as an unconditional upsert
    would write them, once; a pull's word is the latest observation; stored
    availability is the projection of the observations wherever no refresh is owed. *)

From S2P Require Import Prelude PyStr Sql Tasks Queue Listings Catalog.

Local Open Scope string_scope.
Local Open Scope Z_scope.

(** ** Well-formed catalogs *)

Record catalog_ok (c : catalog) : Prop := mkCatalogOk {
  ok_urls : ∀ i i' j j', c_jobs c !! i = Some j → c_jobs c !! i' = Some j' → j_url j = j_url j' → i = i';
  ok_ids : ∀ i j, c_jobs c !! i = Some j → i < c_next_job c;
  ok_observed : ∀ o, o ∈ c_observations c → is_Some (c_jobs c !! o_job_id o);
  ok_uploads : ∀ i u, c_uploads c !! i = Some u → is_Some (c_jobs c !! i);
}.

Lemma head_elem {A} (l : list A) x : head l = Some x → x ∈ l.
Proof. destruct l; [done|]. intros [= ->]. constructor. Qed.

Lemma id_of_url_Some c u i :
  catalog_ok c → id_of_url u (c_jobs c) = Some i ↔ ∃ j, c_jobs c !! i = Some j ∧ j_url j = u.
Proof.
  intros Hok. unfold id_of_url. split.
  - intros H%head_elem. apply elem_of_ids_where in H as (j & Hj & Hu). exists j.
    by apply String.eqb_eq in Hu.
  - intros (j & Hj & <-).
    destruct (head _) as [i'|] eqn:E.
    + apply head_elem, elem_of_ids_where in E as (j' & Hj' & Hu). apply String.eqb_eq in Hu.
      f_equal. by eapply (ok_urls _ Hok).
    + apply head_None in E.
      assert (i ∈ ids_where (λ _ x, String.eqb (j_url x) (j_url j)) (c_jobs c)) as Hi
        by (apply elem_of_ids_where; exists j; by rewrite String.eqb_refl).
      rewrite E in Hi. by apply elem_of_nil in Hi.
Qed.

Lemma id_of_url_None c u :
  id_of_url u (c_jobs c) = None ↔ ∀ i j, c_jobs c !! i = Some j → j_url j ≠ u.
Proof.
  unfold id_of_url. rewrite head_None. split.
  - intros E i j Hj <-.
    assert (i ∈ ids_where (λ _ x, String.eqb (j_url x) (j_url j)) (c_jobs c)) as Hi
      by (apply elem_of_ids_where; exists j; by rewrite String.eqb_refl).
    rewrite E in Hi. by apply elem_of_nil in Hi.
  - intros H. destruct (ids_where _ _) as [|i l] eqn:E; [done|].
    assert (i ∈ ids_where (λ _ x, String.eqb (j_url x) u) (c_jobs c)) as Hi by (rewrite E; constructor).
    apply elem_of_ids_where in Hi as (j & Hj & Hu). apply String.eqb_eq in Hu. by destruct (H i j).
Qed.

(** The writers of a row keep its url and its id. *)
Lemma set_jobs_ok (m : gmap Z job) c :
  catalog_ok c → (∀ i, j_url <$> m !! i = j_url <$> c_jobs c !! i) → catalog_ok (set_jobs m c).
Proof.
  intros [Hu Hi Ho Hup] H.
  assert (∀ i j, m !! i = Some j → ∃ j', c_jobs c !! i = Some j' ∧ j_url j' = j_url j) as Hm.
  { intros i j Hj. specialize (H i). rewrite Hj in H. simpl in H. symmetry in H.
    by apply fmap_Some in H as (j' & ? & ?); eauto. }
  assert (∀ i, is_Some (c_jobs c !! i) → is_Some (m !! i)) as Hs.
  { intros i [j Hj]. specialize (H i). rewrite Hj in H. by apply fmap_Some in H as (? & ? & ?); eauto. }
  split; simpl.
  - intros i i' j j' (k & Hk & Ek)%Hm (k' & Hk' & Ek')%Hm E. apply (Hu i i' k k'); [done..|congruence].
  - intros i j (k & Hk & _)%Hm. eauto.
  - intros o Hin. by apply Hs, Ho.
  - intros i u Hin. by eapply Hs, Hup.
Qed.

Lemma set_uploads_ok m c :
  catalog_ok c → (∀ i, is_Some (m !! i) → is_Some (c_uploads c !! i)) → catalog_ok (set_uploads m c).
Proof.
  intros [Hu Hi Ho Hup] H. split; simpl; [done..|]. intros i u Hin.
  destruct (H i) as [u' Hu']; eauto.
Qed.

Lemma insert_job_ok j c :
  catalog_ok c → id_of_url (j_url j) (c_jobs c) = None → catalog_ok (insert_job j c).
Proof.
  intros [Hu Hi Ho Hup] Hnew. rewrite id_of_url_None in Hnew.
  assert (∀ i, is_Some (c_jobs c !! i) → is_Some (<[c_next_job c:=j]> (c_jobs c) !! i)) as Hs
    by (intros i H; destruct (decide (i = c_next_job c)) as [->|];
        [rewrite lookup_insert_eq|rewrite lookup_insert_ne]; eauto).
  split; simpl.
  - intros i i' k k' Hk Hk' E.
    rewrite lookup_insert_Some in Hk. rewrite lookup_insert_Some in Hk'.
    destruct Hk as [[<- <-]|[? Hk]], Hk' as [[<- <-]|[? Hk']]; [done|exfalso..|by eapply Hu].
    + by apply (Hnew i' k').
    + by apply (Hnew i k).
  - intros i k Hk. rewrite lookup_insert_Some in Hk. destruct Hk as [[<- <-]|[? Hk]]; [lia|].
    apply Hi in Hk. lia.
  - intros o Hin. by apply Hs, Ho.
  - intros i u Hin. by eapply Hs, Hup.
Qed.

(** ** Rows of a pull *)

(** The upsert with no NOT EXISTS before it. *)
Definition plain_upsert (now : Z) (c : catalog) (v : posting_row) : catalog :=
  match id_of_url (v_url v) (c_jobs c) with
  | None => insert_job (inserted_row now v) c
  | Some i => set_jobs (alter (merge_row v) i (c_jobs c)) c
  end.

Lemma merge_same v j : would_not_change v j = true → merge_row v j = j.
Proof.
  unfold would_not_change. intros H. breflect.
  injection H as E1 E2 E3 E4 E5 E6. destruct j.
  unfold merge_row, put_source, put_date_posted, put_text; simpl in *. by rewrite E1, E2, E3, E4, E5, E6.
Qed.

Lemma alter_same {A} (f : A → A) i (m : gmap Z A) x : m !! i = Some x → f x = x → alter f i m = m.
Proof.
  intros Hx Hf. apply map_eq; intros k. destruct (decide (i = k)) as [<-|].
  - rewrite lookup_alter_eq, Hx. simpl. by rewrite Hf.
  - by rewrite lookup_alter_ne.
Qed.

Lemma set_jobs_same c : set_jobs (c_jobs c) c = c.
Proof. by destruct c. Qed.

Lemma upsert_row_plain now c v : catalog_ok c → upsert_row now c v = plain_upsert now c v.
Proof.
  intros Hok. unfold upsert_row, plain_upsert.
  destruct (id_of_url (v_url v) (c_jobs c)) as [i|] eqn:E; [|done].
  apply id_of_url_Some in E as (j & Hj & _); [|done]. rewrite Hj.
  destruct (would_not_change v j) eqn:W.
  - rewrite (alter_same _ _ _ j Hj); [by rewrite set_jobs_same|]. by apply merge_same.
  - f_equal. apply map_eq; intros k. destruct (decide (i = k)) as [<-|].
    + by rewrite lookup_insert_eq, lookup_alter_eq, Hj.
    + by rewrite lookup_insert_ne, lookup_alter_ne.
Qed.

Lemma merge_url v j : j_url (merge_row v j) = j_url j.
Proof. done. Qed.

Lemma plain_upsert_ok now c v : catalog_ok c → catalog_ok (plain_upsert now c v).
Proof.
  intros Hok. unfold plain_upsert. destruct (id_of_url _ _) as [i|] eqn:E.
  - apply set_jobs_ok; [done|]. intros k. destruct (decide (i = k)) as [<-|].
    + rewrite lookup_alter_eq. by destruct (c_jobs c !! i).
    + by rewrite lookup_alter_ne.
  - by apply insert_job_ok.
Qed.

Lemma upsert_rows_plain now l c :
  catalog_ok c →
  foldl (upsert_row now) c l = foldl (plain_upsert now) c l ∧ catalog_ok (foldl (upsert_row now) c l).
Proof.
  revert c. induction l as [|v l IH]; intros c Hok; [done|]. simpl.
  rewrite upsert_row_plain by done. apply IH. by apply plain_upsert_ok.
Qed.

(** One row's history over the rows of a pull that carry its url. *)
Definition absorb (l : list posting_row) (j : job) : job := foldl (λ j v, merge_row v j) j l.

Definition rows_for (u : string) (l : list posting_row) : list posting_row :=
  List.filter (λ v, String.eqb (v_url v) u) l.

Record settled (v : posting_row) (j : job) : Prop := mkSettled {
  st_feed : is_upload j = false;
  st_company : j_company j = "" → v_company v = "";
  st_title : j_title j = "" → v_title v = "";
  st_date : j_date_posted j = None → v_date_posted v = None;
}.

Lemma settled_merge v w j :
  v_source w ≠ "upload" → (v = w ∨ settled v j) → settled v (merge_row w j).
Proof.
  intros Hs Hv.
  assert (is_upload (merge_row w j) = false) as Hu.
  { unfold is_upload, merge_row, merged_source; simpl. destruct (is_upload j) eqn:E; [|done].
    by apply String.eqb_neq. }
  split; [done|..]; simpl; unfold merged_company, merged_title.
  - destruct Hv as [->|[Hf H _ _]].
    + destruct (_ || _) eqn:E; [done|]. breflect. by apply String.eqb_neq in H0.
    + rewrite Hf. simpl. destruct (String.eqb_spec (j_company j) ""); [auto|done].
  - destruct Hv as [->|[Hf _ H _]].
    + destruct (_ || _) eqn:E; [done|]. breflect. by apply String.eqb_neq in H0.
    + rewrite Hf. simpl. destruct (String.eqb_spec (j_title j) ""); [auto|done].
  - destruct Hv as [->|[_ _ _ H]]; destruct (j_date_posted j); simpl; auto; done.
Qed.

Lemma absorb_settles l j :
  Forall (λ v, v_source v ≠ "upload") l → ∀ v, v ∈ l ∨ settled v j → settled v (absorb l j).
Proof.
  revert j. induction l as [|w l IH]; intros j Hl v Hv; simpl.
  - destruct Hv as [[]%elem_of_nil|?]; done.
  - apply Forall_cons in Hl as [Hw Hl]. apply IH; [done|]. destruct Hv as [Hv|Hv].
    + apply elem_of_cons in Hv as [->|Hv]; [right|by left]. apply settled_merge; auto.
    + right. apply settled_merge; auto.
Qed.

(** On a settled row only the lists are written. *)
Definition put_lists (v : posting_row) (j : job) : job :=
  put_text (j_company j) (j_title j) (v_locations v) (v_terms v) j.

Lemma merge_settled v j : settled v j → merge_row v j = put_lists v j.
Proof.
  intros [Hf Hc Ht Hd]. unfold merge_row, put_lists, merged_company, merged_title, merged_source.
  rewrite Hf. simpl.
  assert ((if String.eqb (j_company j) "" then v_company v else j_company j) = j_company j) as ->.
  { destruct (String.eqb_spec (j_company j) "") as [E|]; [|done]. by rewrite E, Hc. }
  assert ((if String.eqb (j_title j) "" then v_title v else j_title j) = j_title j) as ->.
  { destruct (String.eqb_spec (j_title j) "") as [E|]; [|done]. by rewrite E, Ht. }
  destruct j as [? ? ? ? ? ? ? ? ? ? [d|] ?]; simpl in *; [done|].
  unfold put_source, put_date_posted, put_text; simpl. by rewrite Hd.
Qed.

Lemma absorb_lists l j : Forall (λ v, settled v j) l →
  absorb l j = match last l with Some v => put_lists v j | None => j end.
Proof.
  induction l as [|v l IH] using rev_ind; [done|]. intros [Hl Hv]%Forall_app.
  rewrite Forall_singleton in Hv. unfold absorb in *. rewrite foldl_app, IH by done. simpl.
  rewrite last_snoc.
  assert (∀ w, settled v (put_lists w j)) as Hs
    by (intros w; destruct Hv as [Hf Hc Ht Hd]; by split).
  destruct (last l) as [w|]; rewrite merge_settled; auto.
Qed.

Lemma absorb_last l j : absorb l j =
  match last l with Some v => put_lists v (absorb l j) | None => j end.
Proof.
  destruct l as [|v l] using rev_ind; [done|]. unfold absorb. rewrite foldl_app, last_snoc. simpl.
  unfold put_lists, merge_row. done.
Qed.

Lemma absorb_twice l j :
  Forall (λ v, v_source v ≠ "upload") l → absorb l (absorb l j) = absorb l j.
Proof.
  intros Hl. rewrite (absorb_lists l (absorb l j)).
  - pose proof (absorb_last l j) as E. by destruct (last l).
  - apply Forall_forall. intros v Hv. apply absorb_settles; auto.
Qed.

(** ** The rows after a pull *)

Lemma rows_for_cons u v l : rows_for u (v :: l) =
  if String.eqb (v_url v) u then v :: rows_for u l else rows_for u l.
Proof. done. Qed.

Lemma absorb_url l j : j_url (absorb l j) = j_url j.
Proof. revert j. induction l as [|v l IH]; intros j; [done|].
  change (j_url (absorb l (merge_row v j)) = j_url j). by rewrite IH.
Qed.

(** A stored row absorbs the pull's rows with its url. *)
Lemma pull_row now l c i j :
  catalog_ok c → c_jobs c !! i = Some j →
  c_jobs (foldl (plain_upsert now) c l) !! i = Some (absorb (rows_for (j_url j) l) j).
Proof.
  revert c j. induction l as [|v l IH]; intros c j Hok Hj; [done|]. simpl.
  assert (catalog_ok (plain_upsert now c v)) as Hok' by by apply plain_upsert_ok.
  destruct (String.eqb_spec (v_url v) (j_url j)) as [E|E].
  - rewrite (IH _ (merge_row v j)); [done..|]. unfold plain_upsert.
    rewrite (proj2 (id_of_url_Some c (v_url v) i Hok)) by eauto. simpl.
    by rewrite lookup_alter_eq, Hj.
  - apply IH; [done|]. unfold plain_upsert. destruct (id_of_url _ _) as [i'|] eqn:Ei.
    + simpl. rewrite lookup_alter_ne; [done|]. intros ->.
      apply id_of_url_Some in Ei as (j' & Hj' & ?); [|done]. congruence.
    + simpl. rewrite lookup_insert_ne; [done|]. apply (ok_ids _ Hok) in Hj. lia.
Qed.

(** A new row absorbs the rows after the one that inserted it. *)
Lemma pull_new_row now l c i j :
  catalog_ok c → Forall (λ v, v_source v ≠ "upload") l → c_jobs c !! i = None →
  c_jobs (foldl (plain_upsert now) c l) !! i = Some j →
  absorb (rows_for (j_url j) l) j = j.
Proof.
  revert c. induction l as [|v l IH]; intros c Hok Hl Hi Hj; simpl in Hj; [congruence|].
  apply Forall_cons in Hl as [Hv Hl].
  assert (catalog_ok (plain_upsert now c v)) as Hok' by by apply plain_upsert_ok.
  destruct (c_jobs (plain_upsert now c v) !! i) as [k|] eqn:Hk.
  - rewrite (pull_row _ _ _ _ _ Hok' Hk) in Hj. injection Hj as <-.
    unfold plain_upsert in Hk. destruct (id_of_url _ _) as [i'|] eqn:Ei.
    + simpl in Hk. rewrite lookup_alter_Some in Hk. destruct Hk as [(-> & ? & ? & _)|[_ ?]]; congruence.
    + simpl in Hk. rewrite lookup_insert_Some in Hk. destruct Hk as [[_ <-]|[_ ?]]; [|congruence].
      rewrite absorb_url. change (j_url (inserted_row now v)) with (v_url v).
      rewrite rows_for_cons, String.eqb_refl.
      set (r := rows_for (v_url v) l).
      assert (inserted_row now v = absorb [v] (inserted_row now v)) as E.
      { unfold absorb, merge_row, merged_company, merged_title, merged_source; simpl.
        unfold inserted_row, put_source, put_date_posted, put_text; simpl.
        f_equal; try by split_if. by destruct (v_date_posted v). }
      change (absorb (v :: r) (absorb r (inserted_row now v)) = absorb r (inserted_row now v)).
      assert (absorb r (inserted_row now v) = absorb (v :: r) (inserted_row now v)) as ->.
      { rewrite E at 1. done. }
      apply absorb_twice. constructor; [done|]. apply Forall_forall. intros w Hw.
      apply list_elem_of_In, filter_In in Hw as [Hw _]. rewrite Forall_forall in Hl.
      by apply Hl, list_elem_of_In.
  - assert (absorb (rows_for (j_url j) l) j = j) as Hrest by by eapply IH.
    rewrite rows_for_cons. destruct (String.eqb_spec (v_url v) (j_url j)) as [E|]; [|done].
    exfalso.
    assert (∃ i', i' ≠ i ∧ ∃ k, c_jobs (plain_upsert now c v) !! i' = Some k ∧ j_url k = v_url v)
      as (i' & Hne & k & Hk' & Ek).
    { unfold plain_upsert in *. destruct (id_of_url _ _) as [i'|] eqn:Ei; simpl in *.
      - apply id_of_url_Some in Ei as (j' & Hj' & ?); [|done]. exists i'. split; [congruence|].
        exists (merge_row v j'). by rewrite lookup_alter_eq, Hj'.
      - exists (c_next_job c). split; [intros <-; by rewrite lookup_insert_eq in Hk|].
        exists (inserted_row now v). by rewrite lookup_insert_eq. }
    assert (catalog_ok (foldl (plain_upsert now) (plain_upsert now c v) l)) as Hok2.
    { destruct (upsert_rows_plain now l _ Hok') as [<- ?]. done. }
    apply Hne. eapply (ok_urls _ Hok2); [by apply pull_row|exact Hj|]. rewrite absorb_url. congruence.
Qed.

(** A fold of transactions: the rows go in as one list, the uploads apart. *)
Lemma plain_upsert_uploads now m c v :
  plain_upsert now (set_uploads m c) v = set_uploads m (plain_upsert now c v).
Proof. unfold plain_upsert. simpl. by destruct (id_of_url _ _). Qed.

Lemma plain_upserts_uploads now m l c :
  foldl (plain_upsert now) (set_uploads m c) l = set_uploads m (foldl (plain_upsert now) c l).
Proof. revert c. induction l as [|v l IH]; intros c; [done|]. simpl. by rewrite plain_upsert_uploads, IH. Qed.

Lemma plain_upsert_frame now l c :
  let c' := foldl (plain_upsert now) c l in
  c_uploads c' = c_uploads c ∧ c_observations c' = c_observations c ∧ c_sources c' = c_sources c ∧
  c_patterns c' = c_patterns c.
Proof.
  revert c. induction l as [|v l IH]; intros c; [done|]. cbn [foldl]. cbv zeta in *.
  destruct (IH (plain_upsert now c v)) as (-> & -> & -> & ->).
  unfold plain_upsert. by destruct (id_of_url _ _).
Qed.

Lemma finish_uploads_ok taken c : catalog_ok c → catalog_ok (finish_uploads taken c).
Proof.
  intros Hok. apply set_uploads_ok; [done|]. intros i. rewrite lookup_update_where, fmap_is_Some. done.
Qed.

Lemma transactions_rows now bs c :
  catalog_ok c →
  ∃ m, foldl (λ c b, upsert_transaction now b c) c bs
       = set_uploads m (foldl (plain_upsert now) c (concat bs)) ∧
       catalog_ok (foldl (λ c b, upsert_transaction now b c) c bs).
Proof.
  revert c. induction bs as [|b bs IH]; intros c Hok; simpl.
  { exists (c_uploads c). split; [by destruct c|done]. }
  destruct (upsert_rows_plain now b c Hok) as [E Hok'].
  assert (∃ m, upsert_transaction now b c = set_uploads m (foldl (plain_upsert now) c b)) as [m Hm].
  { unfold upsert_transaction, finish_uploads. rewrite E. eauto. }
  destruct (IH (upsert_transaction now b c)) as (m' & Hm' & Hok'').
  { unfold upsert_transaction. by apply finish_uploads_ok. }
  exists m'. split; [|done]. rewrite Hm', Hm, plain_upserts_uploads, foldl_app. done.
Qed.

Lemma chunks_concat {A} n (l : list A) : (0 < n)%nat → concat (chunks n l) = l.
Proof.
  intros Hn. unfold chunks.
  assert (∀ fuel l, (length l ≤ fuel)%nat → concat (@chunks_from A fuel n l) = l) as H; [|by apply H].
  clear l. induction fuel as [|k IH]; intros [|x l] Hl; simpl in *; [done|lia|done|].
  rewrite IH; [by rewrite take_drop|]. rewrite length_drop. simpl. lia.
Qed.

(** Every url of the pull has a row, and a feed owns it. *)
Definition held_by_feeds (l : list posting_row) (c : catalog) : Prop :=
  (∀ v, v ∈ l → is_Some (id_of_url (v_url v) (c_jobs c))) ∧
  (∀ i j v, c_jobs c !! i = Some j → v ∈ l → v_url v = j_url j → is_upload j = false).

Lemma rows_for_elem u v l : v ∈ rows_for u l ↔ v ∈ l ∧ v_url v = u.
Proof.
  unfold rows_for. rewrite !list_elem_of_In, filter_In. by rewrite String.eqb_eq.
Qed.

Lemma rows_for_feed u l :
  Forall (λ v, v_source v ≠ "upload") l → Forall (λ v, v_source v ≠ "upload") (rows_for u l).
Proof. rewrite !Forall_forall. intros H v Hv. apply rows_for_elem in Hv as [? _]. by apply H. Qed.

Lemma plain_upsert_held now w c v l :
  catalog_ok c → v_source w ≠ "upload" → held_by_feeds l c → v ∈ l → w ∈ l →
  ∃ i, id_of_url (v_url w) (c_jobs c) = Some i ∧
    plain_upsert now c w = set_jobs (alter (merge_row w) i (c_jobs c)) c ∧
    held_by_feeds l (plain_upsert now c w).
Proof.
  intros Hok Hs [Hh Hf] Hv Hw. destruct (Hh w Hw) as [i Hi]. exists i. split; [done|].
  assert (plain_upsert now c w = set_jobs (alter (merge_row w) i (c_jobs c)) c) as E
    by (unfold plain_upsert; by rewrite Hi).
  split; [done|].
  assert (∀ k j, c_jobs (plain_upsert now c w) !! k = Some j →
            ∃ j0, c_jobs c !! k = Some j0 ∧ (j = j0 ∨ j = merge_row w j0)) as Hold.
  { intros k j. rewrite E. simpl. rewrite lookup_alter_Some.
    intros [(-> & j0 & Hj0 & ->)|[_ Hj]]; eauto. }
  split.
  - intros x Hx. destruct (Hh x Hx) as [k Hk]. exists k.
    apply id_of_url_Some in Hk as (j & Hj & Hu); [|done].
    apply id_of_url_Some; [by apply plain_upsert_ok|]. rewrite E. simpl.
    destruct (decide (i = k)) as [<-|]; [rewrite lookup_alter_eq, Hj|rewrite lookup_alter_ne by done]; eauto.
  - intros k j x Hk Hx Hu. destruct (Hold k j Hk) as (j0 & Hj0 & [->| ->]); [by eapply Hf|].
    unfold is_upload, merge_row, merged_source; simpl. rewrite (Hf k j0 x); [|done..].
    by apply (Hf k j0 x).
Qed.

Lemma plain_upserts_held now l k c :
  catalog_ok c → Forall (λ v, v_source v ≠ "upload") l → held_by_feeds l c → k ⊆ l →
  held_by_feeds l (foldl (plain_upsert now) c k) ∧
  c_next_job (foldl (plain_upsert now) c k) = c_next_job c ∧
  ∀ i, c_jobs c !! i = None → c_jobs (foldl (plain_upsert now) c k) !! i = None.
Proof.
  intros Hok Hl. revert c Hok. induction k as [|w k IH]; intros c Hok Hh Hk; [done|]. simpl.
  assert (w ∈ l) as Hw by set_solver. rewrite Forall_forall in Hl.
  destruct (plain_upsert_held now w c w l) as (i & Hi & E & Hh'); [by auto..|].
  destruct (IH (plain_upsert now c w)) as (H1 & H2 & H3);
    [by apply plain_upsert_ok|done|set_solver|].
  split_and!; [done|by rewrite H2, E|]. intros x Hx. apply H3. rewrite E. simpl.
  rewrite lookup_alter_None. done.
Qed.

Lemma pull_fixed now l c i j :
  catalog_ok c → Forall (λ v, v_source v ≠ "upload") l →
  c_jobs (foldl (plain_upsert now) c l) !! i = Some j → absorb (rows_for (j_url j) l) j = j.
Proof.
  intros Hok Hl Hj. destruct (c_jobs c !! i) as [j0|] eqn:E; [|by eapply pull_new_row].
  rewrite (pull_row now l c i j0 Hok E) in Hj. injection Hj as <-. rewrite absorb_url.
  apply absorb_twice. by apply rows_for_feed.
Qed.

Lemma pull_lists now l c v :
  catalog_ok c → v ∈ l → is_Some (id_of_url (v_url v) (c_jobs (foldl (plain_upsert now) c l))).
Proof.
  revert c. induction l as [|w l IH]; intros c Hok Hv; [by apply elem_of_nil in Hv|]. simpl.
  assert (catalog_ok (plain_upsert now c w)) as Hok' by by apply plain_upsert_ok.
  apply elem_of_cons in Hv as [->|Hv]; [|by apply IH].
  assert (∃ i j, c_jobs (plain_upsert now c w) !! i = Some j ∧ j_url j = v_url w) as (i & j & Hj & Hu).
  { unfold plain_upsert. destruct (id_of_url _ _) as [i|] eqn:E; simpl.
    - apply id_of_url_Some in E as (j & Hj & Hu); [|done].
      exists i, (merge_row w j). by rewrite lookup_alter_eq, Hj.
    - exists (c_next_job c), (inserted_row now w). by rewrite lookup_insert_eq. }
  exists i. apply id_of_url_Some.
  { destruct (upsert_rows_plain now l _ Hok') as [<- ?]. done. }
  eexists. split; [by apply pull_row|]. by rewrite absorb_url.
Qed.

Lemma pull_holds now l c :
  catalog_ok c → Forall (λ v, v_source v ≠ "upload") l →
  held_by_feeds l (foldl (plain_upsert now) c l).
Proof.
  intros Hok Hl. split; [by intros; apply pull_lists|].
  intros i j v Hj Hv Hu. rewrite <- (pull_fixed now l c i j Hok Hl Hj).
  apply (st_feed v), absorb_settles; [by apply rows_for_feed|]. left. by apply rows_for_elem.
Qed.

Lemma pull_again now now' l c :
  catalog_ok c → Forall (λ v, v_source v ≠ "upload") l →
  let c' := foldl (plain_upsert now) c l in foldl (plain_upsert now') c' l = c'.
Proof.
  intros Hok Hl c'.
  assert (catalog_ok c') as Hok'.
  { destruct (upsert_rows_plain now l c Hok) as [E ?]. unfold c'. by rewrite <- E. }
  destruct (plain_upserts_held now' l l c') as (_ & Hn & Hnone); [done..|by apply pull_holds|done|].
  destruct (plain_upsert_frame now' l c') as (E1 & E2 & E3 & E4).
  assert (c_jobs (foldl (plain_upsert now') c' l) = c_jobs c') as Hj.
  { apply map_eq. intros i. destruct (c_jobs c' !! i) as [j|] eqn:E; [|by apply Hnone].
    rewrite (pull_row now' l c' i j Hok' E). f_equal. exact (pull_fixed now l c i j Hok Hl E). }
  destruct (foldl (plain_upsert now') c' l), c'; simpl in *. congruence.
Qed.

Lemma taken_none l b c : held_by_feeds l c → b ⊆ l → taken_over b c = [].
Proof.
  intros [_ Hf] Hb. destruct (taken_over b c) as [|i k] eqn:Et; [done|]. exfalso.
  assert (i ∈ taken_over b c) as Hi by (rewrite Et; constructor).
  unfold taken_over in Hi. apply elem_of_ids_where in Hi as (u' & _ & Hi). breflect.
  destruct (c_jobs c !! i) as [j|] eqn:Ej; [|done]. apply andb_true_iff in H0 as [Hup Hm].
  unfold mem in Hm. apply bool_decide_eq_true in Hm. apply list_elem_of_fmap in Hm as (v & Hv & Hin).
  rewrite (Hf i j v) in Hup; [done|done|by apply Hb|done].
Qed.

Lemma finish_none c : finish_uploads [] c = c.
Proof. unfold finish_uploads. rewrite update_where_none; [by destruct c|]. done. Qed.

Lemma transactions_held now bs l c :
  catalog_ok c → Forall (λ v, v_source v ≠ "upload") l → held_by_feeds l c → concat bs ⊆ l →
  foldl (λ c b, upsert_transaction now b c) c bs = foldl (plain_upsert now) c (concat bs).
Proof.
  intros Hok Hl. revert c Hok. induction bs as [|b bs IH]; intros c Hok Hh Hb; [done|].
  simpl in *.
  destruct (upsert_rows_plain now b c Hok) as [E Hok'].
  destruct (plain_upserts_held now l b c Hok Hl Hh ltac:(set_solver)) as [Hh' _].
  assert (upsert_transaction now b c = foldl (plain_upsert now) c b) as ->.
  { unfold upsert_transaction. rewrite E, (taken_none l b c), finish_none; [done|done|set_solver]. }
  rewrite IH; [by rewrite foldl_app|by rewrite <- E|done|set_solver].
Qed.

Lemma posting_rows_feed source ps :
  source ≠ "upload" → Forall (λ v, v_source v ≠ "upload") (posting_rows source ps).
Proof.
  intros Hs. apply Forall_forall. intros v Hv. unfold posting_rows in Hv.
  rewrite merge_sort_Permutation in Hv. apply list_elem_of_fmap in Hv as (p & -> & _). done.
Qed.

(** [upsert_postings] writes a row only where the update would change it, by a
    NOT EXISTS that repeats the SET. The rows it leaves are those of the same upsert
    with no such check, in one list and in url order; ids and urls still name one row;
    and the same pull again leaves the whole catalog as it is, uploads included. *)
Theorem upsert_writes_once now now' postings source c :
  catalog_ok c → source ≠ "upload" →
  let c' := (upsert_postings now postings source c).1 in
  c_jobs c' = c_jobs (foldl (plain_upsert now) c (posting_rows source postings)) ∧
  catalog_ok c' ∧
  (upsert_postings now' postings source c').1 = c'.
Proof.
  intros Hok Hs c'. pose proof (posting_rows_feed source postings Hs) as Hl.
  unfold c', upsert_postings. cbn [fst]. set (l := posting_rows source postings) in *.
  assert (concat (chunks _BATCH l) = l) as Hc by (apply chunks_concat; unfold _BATCH; lia).
  destruct (transactions_rows now (chunks _BATCH l) c Hok) as (m & E & Hok').
  split_and!; [by rewrite E, Hc|done|].
  rewrite (transactions_held now' _ l); rewrite ?Hc; [|done|done| |done].
  - rewrite E, Hc, plain_upserts_uploads, pull_again; done.
  - rewrite E, Hc. pose proof (pull_holds now l c Hok Hl) as [H1 H2]. by split.
Qed.

(** ** Stored availability *)

(** Availability is read from the log, the sources and the setting, and from the
    columns of the row that no refresh writes. *)
Lemma STORED_put i a j c : _STORED i (put_available a j) c = _STORED i j c.
Proof. done. Qed.

Lemma STORED_jobs i j m c : _STORED i j (set_jobs m c) = _STORED i j c.
Proof. done. Qed.

Definition refreshed (ids : list Z) (c : catalog) : catalog :=
  set_jobs (map_imap (λ i j, Some (if mem i ids then put_available (Some (_STORED i j c)) j else j))
              (c_jobs c)) c.

Lemma refreshed_lookup ids c i :
  c_jobs (refreshed ids c) !! i =
  (λ j, if mem i ids then put_available (Some (_STORED i j c)) j else j) <$> c_jobs c !! i.
Proof. unfold refreshed. simpl. rewrite map_lookup_imap. by destruct (c_jobs c !! i). Qed.

Lemma store_available_lookup ids c i :
  c_jobs (store_available ids c) !! i =
  (λ j, if mem i ids then put_available (Some (_STORED i j c)) j else j) <$> c_jobs c !! i.
Proof.
  unfold store_available. simpl. rewrite map_lookup_imap. destruct (c_jobs c !! i) as [j|]; [|done].
  simpl. f_equal. destruct (mem i ids); [|done]. simpl. unfold stale.
  destruct (bool_decide (j_available j = _)) eqn:E; [|done]. breflect. simpl.
  destruct j; unfold put_available; simpl in *. by rewrite E.
Qed.

Lemma set_jobs_ext c c' :
  c_next_job c = c_next_job c' → c_uploads c = c_uploads c' → c_observations c = c_observations c' →
  c_sources c = c_sources c' → c_patterns c = c_patterns c' →
  (∀ i, c_jobs c !! i = c_jobs c' !! i) → c = c'.
Proof. destruct c, c'; simpl. intros -> -> -> -> -> H. f_equal. by apply map_eq. Qed.

Lemma refresh_one ids c : (_refresh_available ids false [] c).1 = refreshed ids c.
Proof.
  unfold _refresh_available. cbn [fst]. apply set_jobs_ext; try done. intros i.
  rewrite store_available_lookup, refreshed_lookup. destruct (c_jobs c !! i) as [j|] eqn:E; [|done].
  simpl. f_equal. unfold lock_rows, mem. do 2 case_bool_decide; try done; exfalso.
  - apply list_elem_of_In, filter_In in H as [H _]. by apply H0, list_elem_of_In.
  - apply H, list_elem_of_In, filter_In. split; [by apply list_elem_of_In|]. rewrite E. done.
Qed.

Lemma mem_app {A} `{EqDecision A} (x : A) l k : mem x (l ++ k)%list = mem x l || mem x k.
Proof. unfold mem. do 3 case_bool_decide; set_solver. Qed.

Lemma refreshed_app ids ids' c : refreshed ids' (refreshed ids c) = refreshed (ids ++ ids') c.
Proof.
  apply set_jobs_ext; try done. intros i. rewrite !refreshed_lookup.
  destruct (c_jobs c !! i) as [j|]; [|done]. simpl. f_equal. rewrite mem_app.
  by destruct (mem i ids), (mem i ids').
Qed.

Lemma refreshed_nil c : refreshed [] c = c.
Proof.
  apply set_jobs_ext; try done. intros i. rewrite refreshed_lookup. by destruct (c_jobs c !! i).
Qed.

Lemma refresh_available_eq ids c : (refresh_available ids c).1 = refreshed ids c.
Proof.
  unfold refresh_available.
  assert (∀ bs c n, (foldl (λ cn b, let r := _refresh_available b false [] cn.1 in (r.1, cn.2 + r.2)%nat)
                      (c, n) bs).1 = refreshed (concat bs) c) as H.
  { induction bs as [|b bs IH]; intros c0 n; cbn [foldl concat]; [by rewrite refreshed_nil|].
    cbv zeta. rewrite IH. cbn [fst]. rewrite refresh_one. apply refreshed_app. }
  rewrite H, chunks_concat; [done|]. unfold _BATCH. lia.
Qed.

(** ** The log *)

Lemma find_app {A} (P : A → bool) l k :
  find P (l ++ k)%list = match find P l with Some x => Some x | None => find P k end.
Proof. induction l as [|x l IH]; [done|]. simpl. by destruct (P x). Qed.

Lemma find_none {A} (P : A → bool) l : (∀ x, x ∈ l → P x = false) → find P l = None.
Proof.
  induction l as [|x l IH]; intros H; [done|]. simpl. rewrite H by constructor.
  apply IH. intros y Hy. apply H. by constructor.
Qed.

Lemma find_unique {A} (P : A → bool) l x :
  x ∈ l → P x = true → (∀ y, y ∈ l → P y = true → y = x) → find P l = Some x.
Proof.
  induction l as [|y l IH]; intros Hx HP Hu; [by apply elem_of_nil in Hx|]. simpl.
  destruct (P y) eqn:E; [f_equal; apply Hu; [constructor|done]|].
  apply elem_of_cons in Hx as [->|Hx]; [congruence|]. apply IH; [done|done|].
  intros z Hz. apply Hu. by constructor.
Qed.

Section pull.
Context (source : string) (postings : list JobPosting) (kept : list string) (absence : option kind).

Lemma observation_rows_elem c r :
  r ∈ observation_rows source postings kept absence c ↔
  ∃ j, c_jobs c !! r.2.1 = Some j ∧ r.1 = j_url j ∧
    pull_says source postings kept absence c r.2.1 j = Some r.2.2.
Proof.
  unfold observation_rows. rewrite merge_sort_Permutation, list_elem_of_omap. split.
  - intros ([i j] & Hij & Hr). apply elem_of_map_to_list in Hij. simpl in *.
    destruct (pull_says _ _ _ _ _ _ _) as [k|] eqn:E; [|done]. injection Hr as <-. simpl. eauto.
  - intros (j & Hj & Hu & Hk). exists (r.2.1, j). split; [by apply elem_of_map_to_list|].
    simpl. rewrite Hk. simpl. destruct r as [u [i k]]; simpl in *. by subst.
Qed.

Definition pulled (run_id : option Z) (c : catalog) : catalog :=
  append_observations (observations_of source run_id (observation_rows source postings kept absence c)) c.

Lemma latest_pulled run_id c i j s :
  c_jobs c !! i = Some j →
  latest_kind i s (pulled run_id c) =
  if String.eqb s source
  then coalesce (pull_says source postings kept absence c i j) (latest_kind i s c)
  else latest_kind i s c.
Proof.
  intros Hj. unfold latest_kind, latest_of, latest, pulled. cbn [append_observations c_observations].
  rewrite find_app. set (rows := observation_rows _ _ _ _ _). set (P := λ o, _).
  assert (∀ o, o ∈ rev (observations_of source run_id rows) ↔
               ∃ r, r ∈ rows ∧ o = mkObservation r.2.1 source r.2.2 run_id) as Hobs.
  { intros o. rewrite list_elem_of_In, <- in_rev, <- list_elem_of_In. unfold observations_of.
    rewrite list_elem_of_fmap. firstorder. }
  destruct (String.eqb_spec s source) as [->|Hs].
  2: { rewrite find_none; [done|]. intros o (r & _ & ->)%Hobs. unfold P, from_source. simpl.
       rewrite (proj2 (String.eqb_neq source s)) by done. apply andb_false_r. }
  destruct (pull_says source postings kept absence c i j) as [k|] eqn:E; simpl.
  - rewrite (find_unique _ _ (mkObservation i source k run_id)); [done|..].
    + apply Hobs. exists (j_url j, (i, k)). split; [|done]. apply observation_rows_elem. eauto.
    + unfold P, of_job, from_source. simpl. by rewrite Z.eqb_refl, String.eqb_refl.
    + intros o (r & Hr & ->)%Hobs HP. unfold P, of_job in HP. simpl in HP. breflect. subst i.
      apply observation_rows_elem in Hr as (j' & Hj' & _ & Hk). congruence.
  - rewrite find_none; [done|]. intros o (r & Hr & ->)%Hobs. unfold P, of_job. simpl.
    destruct (Z.eqb_spec r.2.1 i) as [<-|]; [|done].
    apply observation_rows_elem in Hr as (j' & Hj' & _ & Hk). congruence.
Qed.

Lemma observed_ids_elem c i :
  mem i (observed_ids (observation_rows source postings kept absence c)) = true ↔
  ∃ j, c_jobs c !! i = Some j ∧ is_Some (pull_says source postings kept absence c i j).
Proof.
  unfold mem, observed_ids. rewrite bool_decide_eq_true, merge_sort_Permutation, elem_of_elements,
    elem_of_list_to_set, list_elem_of_fmap. split.
  - intros (r & -> & Hr). apply observation_rows_elem in Hr as (j & Hj & _ & Hk). eauto.
  - intros (j & Hj & k & Hk). exists (j_url j, (i, k)). split; [done|].
    apply observation_rows_elem. eauto.
Qed.

Lemma observe_eq run_id c :
  (observe source run_id postings kept absence c).1 =
  refreshed (observed_ids (observation_rows source postings kept absence c)) (pulled run_id c).
Proof.
  unfold observe, pulled. destruct (observation_rows _ _ _ _ _) as [|r rows] eqn:E; cbn [fst].
  - unfold observed_ids. simpl. rewrite refreshed_nil. by destruct c.
  - apply refresh_available_eq.
Qed.

(** What a pull says twice it says once. *)
Lemma says_nothing_new p previous k :
  observed_kind p kept previous = Some k → observed_kind p kept (Some k) = None.
Proof.
  unfold observed_kind. destruct (jp_active p); simpl.
  - destruct (mem _ kept); simpl.
    + destruct previous as [[]|]; simpl; try done; intros [= <-]; done.
    + case_bool_decide; [done|]. intros [= <-]. done.
  - case_bool_decide; [done|]. intros [= <-]. done.
Qed.

Lemma absent_nothing_new j j' previous k :
  absence = Some Unlisted ∨ absence = Some NotListed ∨ absence = None →
  absent_kind source absence j previous = Some k → absent_kind source absence j' (Some k) = None.
Proof.
  intros [->|[->| ->]]; [..|done]; destruct previous as [[]|]; simpl; try done;
    try (intros [= <-]; done).
  destruct (_ && _); [|done]. by intros [= <-].
Qed.
End pull.

(** ** What availability says *)

(** A source that is switched on, and whose latest observation of [i] admits it. *)
Definition carries (i : Z) (c : catalog) (s : string) : bool :=
  source_on s c &&
  match latest_kind i s c with
  | Some k => admits c k
  | None => false
  end.

Lemma listed_by_some_spec i c : listed_by_some i c = true ↔ ∃ s, carries i c s = true.
Proof.
  unfold listed_by_some, carries, latest_kind. rewrite existsb_exists. split.
  - intros (s & _ & H). exists s. by destruct (latest_of i s c).
  - intros (s & H). exists s. breflect. rewrite H. destruct (latest_of i s c) as [o|] eqn:E; [|done].
    split; [|done]. unfold latest_of, latest in E. apply find_some in E as [Hin HP]. breflect.
    unfold from_source in *. match goal with H : String.eqb _ s = true |- _ => apply String.eqb_eq in H; subst s end.
    unfold observers. apply in_map. by apply filter_In.
Qed.

Lemma observed_some i s c k : latest_kind i s c = Some k → existsb (of_job i) (c_observations c) = true.
Proof.
  unfold latest_kind, latest_of, latest. intros H. apply fmap_Some in H as (o & Ho & _).
  apply find_some in Ho as [Hin HP]. breflect. apply existsb_exists. eauto.
Qed.

(** With no correction standing, an observed posting is available when some source
    carries it. *)
Lemma STORED_observed i s j c k :
  correction i c = None → latest_kind i s c = Some k → _STORED i j c = listed_by_some i c.
Proof.
  intros Hc Hk. unfold _STORED, AVAILABLE. rewrite Hc. simpl.
  destruct (listed_by_some i c); [done|]. by rewrite (observed_some _ _ _ _ Hk).
Qed.

Lemma correction_pulled source postings kept absence run_id c i j :
  source ≠ CORRECTION_SOURCE → c_jobs c !! i = Some j → correction i c = None →
  correction i (pulled source postings kept absence run_id c) = None.
Proof.
  intros Hs Hj Hc. unfold correction, latest, pulled. cbn [append_observations c_observations].
  rewrite find_app. destruct (find (of_job i) (rev _)) as [o|] eqn:E; [|exact Hc].
  apply find_some in E as [Hin _]. apply in_rev, list_elem_of_In, list_elem_of_fmap in Hin as (r & -> & _).
  unfold from_source. simpl. by rewrite (proj2 (String.eqb_neq source CORRECTION_SOURCE)).
Qed.

(** The pull lists the posting, or is a complete pull of a board that lists every
    open posting and had it, or owned it, before. *)
Definition spoken_of (source : string) (postings : list JobPosting) (absence : option kind)
    (i : Z) (j : job) (c : catalog) : Prop :=
  is_Some (posting_by_url postings (j_url j)) ∨
  absence = Some Unlisted ∧
  match latest_kind i source c with
  | Some k => k ≠ NotListed
  | None => j_source j = source ∧ IS_AVAILABLE j = true
  end.

Definition pull_admits (postings : list JobPosting) (kept : list string) (j : job) (c : catalog) : bool :=
  match posting_by_url postings (j_url j) with
  | Some p => jp_active p && (mem (jp_url p) kept || negb (PATTERNS_ENFORCED c))
  | None => false
  end.

(** A listed posting's latest observation is what the pull says of it. *)
Lemma listed_after source postings kept absence run_id c i j p :
  c_jobs c !! i = Some j → posting_by_url postings (j_url j) = Some p →
  ∃ k, latest_kind i source (pulled source postings kept absence run_id c) = Some k ∧
       if negb (jp_active p) then k = Unlisted
       else if negb (mem (jp_url p) kept) then k = FilteredOut else _ADMITTED k = true.
Proof.
  intros Hj Hp. rewrite (latest_pulled _ _ _ _ _ _ _ j) by done. rewrite String.eqb_refl.
  unfold pull_says, observed_kind. rewrite Hp. destruct (jp_active p); simpl.
  - destruct (mem (jp_url p) kept); simpl.
    + destruct (latest_kind i source c) as [[]|]; simpl; eauto.
    + case_bool_decide as E; simpl; [rewrite <- E|]; eauto.
  - case_bool_decide as E; simpl; [rewrite <- E|]; eauto.
Qed.

(** A posting left out of the pull. *)
Lemma absent_after source postings kept absence run_id c i j :
  c_jobs c !! i = Some j → posting_by_url postings (j_url j) = None →
  latest_kind i source (pulled source postings kept absence run_id c) =
  coalesce (absent_kind source absence j (latest_kind i source c)) (latest_kind i source c).
Proof.
  intros Hj Hp. rewrite (latest_pulled _ _ _ _ _ _ _ j) by done. rewrite String.eqb_refl.
  unfold pull_says. by rewrite Hp.
Qed.

Lemma latest_after source postings kept absence run_id c i j :
  c_jobs c !! i = Some j → spoken_of source postings absence i j c →
  ∃ k, latest_kind i source (pulled source postings kept absence run_id c) = Some k ∧
       admits c k = pull_admits postings kept j c.
Proof.
  intros Hj Hsp. unfold pull_admits. destruct (posting_by_url postings (j_url j)) as [p|] eqn:Hp.
  - destruct (listed_after source postings kept absence run_id c i j p) as (k & Hk & H); [done..|].
    exists k. split; [done|]. destruct (jp_active p); simpl in *; [|by subst].
    destruct (mem _ _); simpl in *; [by destruct k|by subst].
  - destruct Hsp as [[p Hp']|[-> Hprev]]; [congruence|]. rewrite (absent_after _ _ _ _ _ _ _ j) by done.
    destruct (latest_kind i source c) as [[]|]; simpl; eauto; [done|].
    destruct Hprev as [-> ->]. rewrite String.eqb_refl. simpl. eauto.
Qed.

(** The kinds of absence the code passes. *)
Definition absence_ok (a : option kind) : Prop := a = None ∨ a = Some Unlisted ∨ a = Some NotListed.

(** after a pull is recorded, the source's latest observation of every posting
    is what the pull says: [unlisted], [filtered] or an admission for a posting it
    lists; the kind of absence for one it left out after admitting or filtering it,
    and for one it owned, unobserved, when absence closes; and no other change. No
    other source's word moves, and the same pull recorded again adds nothing. *)
Theorem observe_follows_pull source run_id run_id' postings kept absence c :
  absence_ok absence →
  let c' := (observe source run_id postings kept absence c).1 in
  (∀ i j, c_jobs c !! i = Some j →
     match posting_by_url postings (j_url j) with
     | Some p => ∃ k, latest_kind i source c' = Some k ∧
                   if negb (jp_active p) then k = Unlisted
                   else if negb (mem (jp_url p) kept) then k = FilteredOut else _ADMITTED k = true
     | None => latest_kind i source c' =
               match absence, latest_kind i source c with
               | Some a, Some (Appeared | Reappeared | FilteredOut) => Some a
               | Some Unlisted, None =>
                   if String.eqb (j_source j) source && IS_AVAILABLE j then Some Unlisted else None
               | _, previous => previous
               end
     end ∧
     ∀ s, s ≠ source → latest_kind i s c' = latest_kind i s c) ∧
  (observe source run_id' postings kept absence c').2 = [].
Proof.
  intros Ha c'. unfold c'. rewrite observe_eq. set (ids := observed_ids _).
  assert (∀ i s c, latest_kind i s (refreshed ids c) = latest_kind i s c) as Hr by done.
  split.
  - intros i j Hj. split.
    + destruct (posting_by_url postings (j_url j)) as [p|] eqn:Hp.
      * rewrite Hr. by eapply listed_after.
      * rewrite Hr, (absent_after _ _ _ _ _ _ _ j) by done.
        destruct absence as [a|], (latest_kind i source c) as [[]|]; simpl; try done;
          destruct Ha as [|[|]]; simplify_eq; try done.
        by destruct (_ && _).
    + intros s Hs. rewrite Hr, (latest_pulled _ _ _ _ _ _ _ j) by done.
      by rewrite (proj2 (String.eqb_neq s source)).
  - unfold observe. destruct (observation_rows source postings kept absence (refreshed ids _))
      as [|r rows] eqn:E; [done|]. exfalso.
    assert (r ∈ observation_rows source postings kept absence
              (refreshed ids (pulled source postings kept absence run_id c))) as Hin
      by (rewrite E; constructor).
    apply observation_rows_elem in Hin as (j & Hj & _ & Hk). rewrite refreshed_lookup in Hj.
    apply fmap_Some in Hj as (j0 & Hj0 & Hj). change (c_jobs c !! r.2.1 = Some j0) in Hj0.
    assert (j_url j = j_url j0 ∧ j_source j = j_source j0) as [Eu Es] by (rewrite Hj; by destruct (mem _ _)).
    unfold pull_says in Hk. rewrite Eu, Hr, (latest_pulled _ _ _ _ _ _ _ j0), String.eqb_refl in Hk by done.
    destruct (pull_says source postings kept absence c r.2.1 j0) as [k|] eqn:Es0; simpl in Hk.
    + unfold pull_says in Es0. destruct (posting_by_url postings (j_url j0)) as [p|].
      * by rewrite (says_nothing_new _ _ _ _ Es0) in Hk.
      * rewrite (absent_nothing_new source absence j0 j (latest_kind r.2.1 source c) k) in Hk;
          [done| |done]. destruct Ha as [|[|]]; auto.
    + assert (mem r.2.1 ids = false) as Hm.
      { apply not_true_iff_false. unfold ids. rewrite observed_ids_elem. intros (j1 & Hj1 & k & Hk1).
        congruence. }
      rewrite Hm in Hj. subst j0. unfold pull_says in Es0. congruence.
Qed.

(** once a pull of a source is recorded, a posting it speaks of is available
    exactly when the source is switched on and the pull admits it (listed, not
    flagged inactive, and matched by the title pattern or the pattern not enforced),
    or some other source that is switched on carries it. It needs the stored value to
    have been current before, and no administrator's correction standing. *)
Theorem pull_decides_availability source run_id postings kept absence c i j :
  c_jobs c !! i = Some j →
  source ≠ CORRECTION_SOURCE →
  correction i c = None →
  j_available j = Some (_STORED i j c) →
  spoken_of source postings absence i j c →
  let c' := (observe source run_id postings kept absence c).1 in
  ∃ j', c_jobs c' !! i = Some j' ∧
    (IS_AVAILABLE j' = true ↔
     (source_on source c = true ∧ pull_admits postings kept j c = true) ∨
     ∃ s, s ≠ source ∧ carries i c s = true).
Proof.
  intros Hj Hs Hc Ha Hsp c'.
  set (d := pulled source postings kept absence run_id c).
  destruct (latest_after source postings kept absence run_id c i j Hj Hsp) as (k & Hk & Hadm).
  fold d in Hk.
  assert (listed_by_some i d = true ↔
          (source_on source c = true ∧ pull_admits postings kept j c = true) ∨
          ∃ s, s ≠ source ∧ carries i c s = true) as Hl.
  { rewrite listed_by_some_spec. split.
    - intros (s & Hcs). destruct (decide (s = source)) as [->|Hne].
      + left. unfold carries in Hcs. rewrite Hk in Hcs. breflect. rewrite <- Hadm. done.
      + right. exists s. split; [done|]. unfold carries, d in Hcs.
        rewrite (latest_pulled _ _ _ _ _ _ _ j), (proj2 (String.eqb_neq s source)) in Hcs; done.
    - intros [[Hon Hp]|(s & Hne & Hcs)].
      + exists source. unfold carries. rewrite Hk. apply andb_true_iff.
        split; [done|]. by rewrite <- Hp, <- Hadm.
      + exists s. unfold carries, d.
        rewrite (latest_pulled _ _ _ _ _ _ _ j), (proj2 (String.eqb_neq s source)); done. }
  assert (_STORED i j d = listed_by_some i d) as Hst
    by (eapply STORED_observed; [by eapply correction_pulled|done]).
  unfold c'. rewrite observe_eq, refreshed_lookup. change (c_jobs (pulled _ _ _ _ _ _)) with (c_jobs c).
  rewrite Hj. simpl. eexists. split; [done|]. fold d. rewrite <- Hl.
  destruct (mem i _) eqn:Hm; [unfold IS_AVAILABLE; simpl; by rewrite Hst|].
  unfold IS_AVAILABLE. rewrite Ha. simpl.
  assert (pull_says source postings kept absence c i j = None) as Hnone.
  { destruct (pull_says _ _ _ _ _ _ _) as [k'|] eqn:E; [|done]. exfalso.
    apply not_true_iff_false in Hm. apply Hm, observed_ids_elem. eauto. }
  assert (∀ s, latest_kind i s d = latest_kind i s c) as Hsame.
  { intros s. unfold d. rewrite (latest_pulled _ _ _ _ _ _ _ j), Hnone by done. by case_match. }
  rewrite (STORED_observed i source j c k); [|done|by rewrite <- Hsame].
  assert (∀ s, carries i d s = carries i c s) as Hcar by (intros s; unfold carries; by rewrite Hsame).
  rewrite !listed_by_some_spec. by setoid_rewrite Hcar.
Qed.

(** ** Witnesses *)

Definition demo_posting (url title : string) : JobPosting :=
  mkJobPosting "Acme" ["Remote"] title url [] true 0 "" "" None.

(** One upload, and one source that is switched on. *)
Definition demo_jobs : gmap Z job := {[ 1 := uploaded_row 0 "u1" "u1" ]}.

Definition demo_catalog : catalog :=
  mkCatalog demo_jobs 2 {[ 1 := mkUpload 7 UploadPending ]} []
    {[ "acme" := mkSource true 1 "https://a" None None ]} None.

Lemma demo_ok : catalog_ok demo_catalog.
Proof.
  unfold demo_catalog. split; cbn [c_jobs c_next_job c_observations c_uploads]; unfold demo_jobs.
  - intros i i' j j' [<- _]%lookup_singleton_Some [<- _]%lookup_singleton_Some _. done.
  - intros i j [<- _]%lookup_singleton_Some. lia.
  - intros o []%elem_of_nil.
  - intros i u [<- _]%lookup_singleton_Some. rewrite lookup_singleton_eq. eauto.
Qed.

Lemma upsert_writes_once_witness :
  let pulled := [demo_posting "u1" "Engineer"; demo_posting "u2" "Analyst"] in
  let c' := (upsert_postings 5 pulled "acme" demo_catalog).1 in
  (j_source <$> c_jobs c' !! 1 = Some "acme") ∧ (u_status <$> c_uploads c' !! 1 = Some UploadDone) ∧
  (upsert_postings 6 pulled "acme" c').1 = c'.
Proof.
  split_and!; [by vm_compute..|].
  by apply (upsert_writes_once 5 6 [demo_posting "u1" "Engineer"; demo_posting "u2" "Analyst"] "acme"
              demo_catalog demo_ok).
Defined.

Lemma observe_follows_pull_witness :
  let c' := (observe "acme" None [demo_posting "u1" "Engineer"] [] (Some Unlisted) demo_catalog).1 in
  latest_kind 1 "acme" c' = Some FilteredOut ∧
  (observe "acme" None [demo_posting "u1" "Engineer"] [] (Some Unlisted) c').2 = [].
Proof.
  split; [by vm_compute|].
  apply (observe_follows_pull "acme" None None [demo_posting "u1" "Engineer"] [] (Some Unlisted) demo_catalog).
  right. by left.
Defined.

Lemma pull_decides_availability_witness :
  ∃ j', c_jobs (observe "acme" None [demo_posting "u1" "Engineer"] ["u1"] (Some Unlisted) demo_catalog).1
          !! 1 = Some j' ∧ IS_AVAILABLE j' = true.
Proof.
  destruct (pull_decides_availability "acme" None [demo_posting "u1" "Engineer"] ["u1"] (Some Unlisted)
    demo_catalog 1 (uploaded_row 0 "u1" "u1") eq_refl) as (j' & Hj & H); [done|done|by vm_compute|..].
  - left. vm_compute. eauto.
  - exists j'. split; [exact Hj|]. apply H. left. by vm_compute.
Defined.
