(* ===== verification/Availability.v ===== *)
(** * Stored availability under concurrent writers ([Catalog])

    The step relation of everything that writes the catalog: pulls, uploads,
    administrators, switches, the refresh that follows an observation and the
    hourly reconcile. A refresh is three steps per row, the lock, the evaluation of
    the projection by a later statement, and the write at commit, and anything may
    come between them. *)

From S2P Require Import Prelude PyStr Sql Tasks Queue Listings Catalog CatalogProps.

Local Open Scope string_scope.
Local Open Scope Z_scope.

(** ** Steps *)

(** [sh_owed]: the rows something was said about, or decided about, that no
    evaluation has seen. [sh_held]: the rows a refresh has locked, with the value
    it has evaluated. *)
Record shared : Type := mkShared {
  sh_catalog : catalog;
  sh_owed : gset Z;
  sh_held : gmap Z (option bool);
}.

Definition with_sources (m : gmap string source) (c : catalog) : catalog :=
  mkCatalog (c_jobs c) (c_next_job c) (c_uploads c) (c_observations c) m (c_patterns c).
Definition with_patterns (v : option string) (c : catalog) : catalog :=
  mkCatalog (c_jobs c) (c_next_job c) (c_uploads c) (c_observations c) (c_sources c) v.

Definition switch (on : bool) (s : source) : source :=
  mkSource on (s_ingest_interval_hours s) (s_listings_url s) (s_company s) (s_title_pattern s).

Definition ids_of (c : catalog) : gset Z := dom (c_jobs c).

(** A write of text, dates, keys or upload states. *)
Definition same_columns (j j' : job) : Prop :=
  j_url j' = j_url j ∧ j_source j' = j_source j ∧ j_active j' = j_active j ∧
  j_available j' = j_available j.

Record text_write (c c' : catalog) : Prop := mkTextWrite {
  tw_jobs : ∀ i, match c_jobs c !! i, c_jobs c' !! i with
                 | Some j, Some j' => same_columns j j'
                 | None, None => True
                 | _, _ => False
                 end;
  tw_next : c_next_job c' = c_next_job c;
  tw_uploads : dom (c_uploads c') = dom (c_uploads c);
  tw_observations : c_observations c' = c_observations c;
  tw_sources : c_sources c' = c_sources c;
  tw_patterns : c_patterns c' = c_patterns c;
}.

Inductive catalog_step : shared → shared → Prop :=
| step_upsert now v c owed held :
    v_source v ≠ "upload" → v_source v ≠ "sheet_import" →
    catalog_step (mkShared c owed held)
      (mkShared (upsert_row now c v)
         (if source_off (v_source v) c then owed ∪ ids_of (upsert_row now c v) else owed) held)
| step_add_upload now url raw user c owed held :
    catalog_step (mkShared c owed held) (mkShared (add_upload now url raw user c).1 owed held)
| step_text c c' owed held :
    text_write c c' → catalog_step (mkShared c owed held) (mkShared c' owed held)
| step_record l c owed held :
    (∀ o, o ∈ l → is_Some (c_jobs c !! o_job_id o)) →
    catalog_step (mkShared c owed held)
      (mkShared (append_observations l c) (owed ∪ list_to_set (map o_job_id l)) held)
| step_correct i active c owed held :
    held !! i = None →
    catalog_step (mkShared c owed held) (mkShared (set_active i active c).1 owed held)
| step_switch name on c owed held :
    catalog_step (mkShared c owed held)
      (mkShared (with_sources (alter (switch on) name (c_sources c)) c) (owed ∪ ids_of c) held)
| step_pattern v c owed held :
    catalog_step (mkShared c owed held) (mkShared (with_patterns v c) (owed ∪ ids_of c) held)
| step_lock i c owed held :
    held !! i = None → is_Some (c_jobs c !! i) →
    catalog_step (mkShared c owed held) (mkShared c owed (<[i := None]> held))
| step_evaluate i j c owed held :
    held !! i = Some None → c_jobs c !! i = Some j →
    catalog_step (mkShared c owed held)
      (mkShared c (owed ∖ {[i]}) (<[i := Some (_STORED i j c)]> held))
| step_write i v c owed held :
    held !! i = Some (Some v) →
    catalog_step (mkShared c owed held)
      (mkShared (set_jobs (alter (put_available (Some v)) i (c_jobs c)) c) owed (delete i held))
| step_found_current i j c owed held :
    held !! i = None → c_jobs c !! i = Some j → stale c i j = false →
    catalog_step (mkShared c owed held) (mkShared c (owed ∖ {[i]}) held).

(** ** The invariant *)

(** What row [i] will hold once the refresh that has it commits. *)
Definition to_store (held : gmap Z (option bool)) (i : Z) (j : job) : option bool :=
  match held !! i with
  | Some (Some v) => Some v
  | _ => j_available j
  end.

Record settled_store (s : shared) : Prop := mkSettledStore {
  ss_ok : catalog_ok (sh_catalog s);
  ss_upload : c_sources (sh_catalog s) !! "upload" = None;
  ss_held : ∀ i, is_Some (sh_held s !! i) → is_Some (c_jobs (sh_catalog s) !! i);
  ss_stored : ∀ i j, c_jobs (sh_catalog s) !! i = Some j → i ∉ sh_owed s →
                to_store (sh_held s) i j = Some (_STORED i j (sh_catalog s));
}.

(** The projection reads of a row its source and its frozen flag. *)
Lemma STORED_same i j j' c :
  j_source j' = j_source j → j_active j' = j_active j → _STORED i j' c = _STORED i j c.
Proof. intros E1 E2. unfold _STORED, AVAILABLE. by rewrite E1, E2. Qed.

(** A row no source has observed is stored by its flag, unless its source is off. *)
Lemma find_existsb {A} (P : A → bool) l : find P l = None ↔ existsb P l = false.
Proof.
  induction l as [|x l IH]; [done|]. simpl. destruct (P x); [done|]. apply IH.
Qed.

Lemma unobserved i c :
  existsb (of_job i) (c_observations c) = false → correction i c = None ∧ listed_by_some i c = false.
Proof.
  intros H. split.
  - unfold correction, latest. by rewrite (proj2 (find_existsb _ _) H).
  - apply not_true_iff_false. rewrite listed_by_some_spec. intros [s Hs]. unfold carries in Hs.
    destruct (latest_kind i s c) as [k|] eqn:E; [|by rewrite andb_false_r in Hs].
    by rewrite (observed_some _ _ _ _ E) in H.
Qed.

Lemma STORED_unobserved i j c :
  existsb (of_job i) (c_observations c) = false →
  _STORED i j c = if source_off (j_source j) c || String.eqb (j_source j) "sheet_import"
                  then false else j_active j.
Proof.
  intros H. destruct (unobserved i c H) as [Hc Hl]. unfold _STORED, AVAILABLE. rewrite Hc, Hl, H. simpl.
  destruct (source_off _ _), (String.eqb _ _); done.
Qed.

Lemma new_unobserved c i :
  catalog_ok c → c_jobs c !! i = None → existsb (of_job i) (c_observations c) = false.
Proof.
  intros Hok Hi. apply not_true_iff_false. rewrite existsb_exists. intros (o & Ho & Hj).
  unfold of_job in Hj. breflect. subst i. apply list_elem_of_In, (ok_observed _ Hok) in Ho as [? ?]. congruence.
Qed.

(** Whether observed or not, a row's value moves with its source only from one
    that is switched off. *)
Lemma STORED_taken_over i j j' c :
  j_source j = "upload" → c_sources c !! "upload" = None →
  j_source j' ≠ "sheet_import" → source_off (j_source j') c = false → j_active j' = j_active j →
  _STORED i j' c = _STORED i j c.
Proof.
  intros Hu Hn Hs Hoff Ha. destruct (existsb (of_job i) (c_observations c)) eqn:E.
  - unfold _STORED, AVAILABLE. rewrite E.
    destruct (correction i c); [done|]. simpl. by destruct (listed_by_some i c).
  - rewrite !STORED_unobserved by done. rewrite Hoff, (proj2 (String.eqb_neq _ _) Hs), Hu, Ha. simpl.
    unfold source_off. by rewrite Hn.
Qed.

Lemma existsb_same {A} (P Q : A → bool) l : (∀ x, P x = Q x) → existsb P l = existsb Q l.
Proof. intros H. induction l as [|x l IH]; [done|]. simpl. by rewrite H, IH. Qed.

Lemma stored_append i j l c :
  (∀ o, o ∈ l → o_job_id o ≠ i) → _STORED i j (append_observations l c) = _STORED i j c.
Proof.
  intros Hl.
  assert (∀ P, find (λ o, of_job i o && P o) (rev l ++ c_observations c)%list =
               find (λ o, of_job i o && P o) (c_observations c)) as Hf.
  { intros P. rewrite find_app, find_none; [done|]. intros o Ho.
    rewrite list_elem_of_In, <- in_rev, <- list_elem_of_In in Ho. apply Hl in Ho.
    unfold of_job. by rewrite (proj2 (Z.eqb_neq _ _) Ho). }
  assert (List.filter (of_job i) (rev l ++ c_observations c)%list = List.filter (of_job i) (c_observations c)) as Hfl.
  { rewrite List.filter_app. replace (List.filter (of_job i) (rev l)) with (@nil observation); [done|].
    symmetry. destruct (List.filter _ _) as [|o k] eqn:E; [done|]. exfalso.
    assert (In o (List.filter (of_job i) (rev l))) as Hin by (rewrite E; by left).
    apply filter_In in Hin as [Hin Ho]. apply in_rev, list_elem_of_In, Hl in Hin.
    unfold of_job in Ho. by breflect. }
  assert (latest (of_job i) (append_observations l c) = latest (of_job i) c) as Hlat.
  { unfold latest. simpl. specialize (Hf (λ _, true)).
    assert (∀ k, find (λ o, of_job i o && true) k = find (of_job i) k) as Ht
      by (induction k as [|x k IH]; [done|]; simpl; by rewrite andb_true_r, IH).
    by rewrite !Ht in Hf. }
  assert (existsb (of_job i) (rev l ++ c_observations c)%list = existsb (of_job i) (c_observations c)) as Hex.
  { unfold latest in Hlat. simpl in Hlat.
    destruct (existsb (of_job i) (c_observations c)) eqn:E.
    - apply not_false_iff_true. intros Hn%find_existsb. rewrite Hlat in Hn.
      apply find_existsb in Hn. congruence.
    - apply find_existsb. rewrite Hlat. by apply find_existsb. }
  unfold _STORED, AVAILABLE, correction. rewrite Hlat. simpl. rewrite Hex.
  assert (listed_by_some i (append_observations l c) = listed_by_some i c) as ->; [|done].
  unfold listed_by_some, observers. simpl. rewrite Hfl. apply existsb_same. intros s.
  unfold latest_of, latest. simpl. by rewrite Hf.
Qed.

(** ** Each step keeps it *)

Lemma text_write_ok c c' : catalog_ok c → text_write c c' → catalog_ok c'.
Proof.
  intros [Hu Hi Ho Hup] [Hj Hn Hd Hobs _ _].
  assert (∀ i j', c_jobs c' !! i = Some j' → ∃ j, c_jobs c !! i = Some j ∧ same_columns j j') as Hb.
  { intros i j' E. specialize (Hj i). rewrite E in Hj. destruct (c_jobs c !! i); [eauto|done]. }
  assert (∀ i, is_Some (c_jobs c !! i) → is_Some (c_jobs c' !! i)) as Hf.
  { intros i [j E]. specialize (Hj i). rewrite E in Hj. destruct (c_jobs c' !! i); [eauto|done]. }
  split.
  - intros i i' j j' (k & Hk & Ek & _)%Hb (k' & Hk' & Ek' & _)%Hb E.
    apply (Hu i i' k k'); [done..|congruence].
  - intros i j (k & Hk & _)%Hb. rewrite Hn. eauto.
  - intros o. rewrite Hobs. eauto.
  - intros i u E. apply Hf. assert (i ∈ dom (c_uploads c)) as [u' ?]%elem_of_dom; [|eauto].
    rewrite <- Hd. by apply elem_of_dom.
Qed.

Lemma add_upload_ok now url raw user c : catalog_ok c → catalog_ok (add_upload now url raw user c).1.
Proof.
  intros Hok. unfold add_upload. destruct (id_of_url url (c_jobs c)) as [i|] eqn:E.
  - destruct (c_uploads c !! i) as [u|] eqn:Eu; [|done]. cbn [fst]. apply set_uploads_ok; [done|].
    intros k [u' Hk]. rewrite lookup_insert_Some in Hk. destruct Hk as [[<- _]|[_ ?]]; eauto.
  - cbn [fst]. pose proof (insert_job_ok (uploaded_row now url raw) c Hok E) as Hok'.
    destruct Hok' as [Hu Hi Ho Hup]. split; [done..|]. intros k u Hk. simpl in Hk.
    rewrite lookup_insert_Some in Hk. destruct Hk as [[<- _]|[_ Hk]]; [|by eapply Hup].
    simpl. rewrite lookup_insert_eq. eauto.
Qed.

Lemma append_ok l c :
  catalog_ok c → (∀ o, o ∈ l → is_Some (c_jobs c !! o_job_id o)) → catalog_ok (append_observations l c).
Proof.
  intros [Hu Hi Ho Hup] Hl. split; [done..| |done]. intros o. simpl. rewrite elem_of_app.
  intros [Hin|?]; [|by apply Ho]. apply Hl. by rewrite list_elem_of_In, in_rev, <- list_elem_of_In.
Qed.

Lemma fresh_id c : catalog_ok c → c_jobs c !! c_next_job c = None.
Proof.
  intros Hok. destruct (c_jobs c !! c_next_job c) eqn:Ej; [|done]. apply (ok_ids _ Hok) in Ej. lia.
Qed.

Lemma kept_inserted j c i :
  is_Some (c_jobs c !! i) → is_Some (c_jobs (insert_job j c) !! i).
Proof.
  intros H. simpl. destruct (decide (c_next_job c = i)) as [<-|];
    [rewrite lookup_insert_eq|rewrite lookup_insert_ne]; eauto.
Qed.

(** A row just inserted, available from the start, is stored as the projection says. *)
Lemma new_row_stored held c j :
  catalog_ok c → (∀ i, is_Some (held !! i) → is_Some (c_jobs c !! i)) →
  j_available j = Some true → j_active j = true →
  source_off (j_source j) c = false → j_source j ≠ "sheet_import" →
  to_store held (c_next_job c) j = Some (_STORED (c_next_job c) j c).
Proof.
  intros Hok Hh Ha Hact Hoff Hs. pose proof (fresh_id c Hok) as Hn.
  rewrite STORED_unobserved by by apply new_unobserved. rewrite Hoff, (proj2 (String.eqb_neq _ _) Hs).
  simpl. unfold to_store. destruct (held !! c_next_job c) as [b|] eqn:E; [|by rewrite Ha, Hact].
  destruct (Hh (c_next_job c)); [eauto|congruence].
Qed.

Lemma upsert_settled now v c owed held :
  v_source v ≠ "upload" → v_source v ≠ "sheet_import" →
  settled_store (mkShared c owed held) →
  settled_store (mkShared (upsert_row now c v)
    (if source_off (v_source v) c then owed ∪ ids_of (upsert_row now c v) else owed) held).
Proof.
  intros Hv Hsi [Hok Hup Hh Hst]; simpl in *.
  pose proof (upsert_row_plain now c v Hok) as E.
  assert (catalog_ok (upsert_row now c v)) as Hok' by (rewrite E; by apply plain_upsert_ok).
  split; [done|simpl..].
  { rewrite E. unfold plain_upsert. by destruct (id_of_url _ _). }
  { intros i Hi%Hh. rewrite E. unfold plain_upsert. destruct (id_of_url _ _); [|by apply kept_inserted].
    simpl. by rewrite lookup_alter_is_Some. }
  intros i j Hj Hi. destruct (source_off (v_source v) c) eqn:Hoff.
  { exfalso. apply Hi, elem_of_union. right. unfold ids_of. apply elem_of_dom. eauto. }
  rewrite E in Hj |- *. unfold plain_upsert in *. destruct (id_of_url _ _) as [k|] eqn:Ek; simpl in *.
  - rewrite lookup_alter_Some in Hj. destruct Hj as [(<- & j0 & Hj0 & ->)|[_ Hj]].
    + change (to_store held k (merge_row v j0)) with (to_store held k j0).
      rewrite (Hst k j0 Hj0 Hi), STORED_jobs. f_equal. unfold merge_row, merged_source.
      destruct (is_upload j0) eqn:Eu; [|done]. unfold is_upload in Eu. apply String.eqb_eq in Eu.
      symmetry. by apply STORED_taken_over.
    + rewrite (Hst i j Hj Hi), STORED_jobs. done.
  - rewrite lookup_insert_Some in Hj. destruct Hj as [[<- <-]|[_ Hj]]; [|exact (Hst i j Hj Hi)].
    change (to_store held (c_next_job c) (inserted_row now v) =
            Some (_STORED (c_next_job c) (inserted_row now v) c)).
    by apply new_row_stored.
Qed.

Lemma add_upload_settled now url raw user c owed held :
  settled_store (mkShared c owed held) →
  settled_store (mkShared (add_upload now url raw user c).1 owed held).
Proof.
  intros [Hok Hup Hh Hst]; simpl in *. pose proof (add_upload_ok now url raw user c Hok) as Hok'.
  unfold add_upload in *. destruct (id_of_url url (c_jobs c)) as [k|] eqn:Ek.
  { by destruct (c_uploads c !! k). }
  split; [done|done|..]; simpl.
  - intros i Hi%Hh. by apply (kept_inserted (uploaded_row now url raw)).
  - intros i j Hj Hi. rewrite lookup_insert_Some in Hj. destruct Hj as [[<- <-]|[_ Hj]]; [|exact (Hst i j Hj Hi)].
    change (to_store held (c_next_job c) (uploaded_row now url raw) =
            Some (_STORED (c_next_job c) (uploaded_row now url raw) c)).
    apply new_row_stored; [done..| |done]. simpl. unfold source_off. by rewrite Hup.
Qed.

Lemma text_settled c c' owed held :
  text_write c c' → settled_store (mkShared c owed held) → settled_store (mkShared c' owed held).
Proof.
  intros Hw [Hok Hup Hh Hst]; simpl in *. pose proof (text_write_ok c c' Hok Hw) as Hok'.
  destruct Hw as [Hj Hn Hd Hobs Hs Hp]. split; simpl; [done|by rewrite Hs|..].
  - intros i [j E]%Hh. specialize (Hj i). rewrite E in Hj. destruct (c_jobs c' !! i); [eauto|done].
  - intros i j' E' Hi. specialize (Hj i). rewrite E' in Hj. destruct (c_jobs c !! i) as [j|] eqn:E; [|done].
    destruct Hj as (Eu & Es & Ea & Eav). specialize (Hst i j E Hi). unfold to_store in *. rewrite Eav, Hst.
    f_equal. rewrite <- (STORED_same i j j' c) by done.
    unfold _STORED, AVAILABLE, correction, listed_by_some, observers, source_on, source_off, latest_of,
      latest, admits, PATTERNS_ENFORCED. by rewrite Hobs, Hs, Hp.
Qed.

Lemma record_settled l c owed held :
  (∀ o, o ∈ l → is_Some (c_jobs c !! o_job_id o)) →
  settled_store (mkShared c owed held) →
  settled_store (mkShared (append_observations l c) (owed ∪ list_to_set (map o_job_id l)) held).
Proof.
  intros Hl [Hok Hup Hh Hst]; simpl in *. split; simpl; [by apply append_ok|done..|].
  intros i j Hj Hi. rewrite not_elem_of_union, elem_of_list_to_set in Hi. destruct Hi as [Hi Hni].
  rewrite (Hst i j Hj Hi), stored_append; [done|]. intros o Ho <-. apply Hni, list_elem_of_fmap. eauto.
Qed.

Lemma refreshed_ok ids c : catalog_ok c → catalog_ok (refreshed ids c).
Proof.
  intros Hok. apply set_jobs_ok; [done|]. intros k. rewrite map_lookup_imap.
  destruct (c_jobs c !! k); [|done]. simpl. by destruct (mem k ids).
Qed.

Lemma correct_settled i active c owed held :
  held !! i = None → settled_store (mkShared c owed held) →
  settled_store (mkShared (set_active i active c).1 owed held).
Proof.
  intros Hi [Hok Hup Hh Hst]; cbn [sh_catalog sh_owed sh_held] in *. unfold set_active.
  destruct (c_jobs c !! i) as [j|] eqn:Hj; [|by split]. cbn [fst]. rewrite refresh_one.
  set (o := mkObservation _ _ _ _). set (d := append_observations [o] c).
  assert (catalog_ok d) as Hd by (apply append_ok; [done|]; intros x ->%list_elem_of_singleton; simpl; eauto).
  split; cbn [sh_catalog sh_owed sh_held]; [by apply refreshed_ok|done|..].
  - intros k Hk%Hh. by rewrite refreshed_lookup, fmap_is_Some.
  - intros k x Hk Hn. rewrite refreshed_lookup in Hk. apply fmap_Some in Hk as (x0 & Ek & ->).
    change (c_jobs c !! k = Some x0) in Ek. unfold mem. case_bool_decide as Hm.
    + apply list_elem_of_singleton in Hm as ->. unfold to_store. rewrite Hi. done.
    + change (to_store held k x0 = Some (_STORED k x0 d)). rewrite (Hst k x0 Ek Hn). f_equal.
      symmetry. apply stored_append. intros y ->%list_elem_of_singleton. simpl. set_solver.
Qed.

Lemma catalog_step_settled s s' : catalog_step s s' → settled_store s → settled_store s'.
Proof.
  intros Hstep Hs. destruct Hstep as
    [now v c owed held Hv Hsi|now url raw user c owed held|c c' owed held Hw|l c owed held Hl
    |i active c owed held Hi|name on c owed held|v c owed held|i c owed held Hi Hex
    |i j c owed held Hi Hj|i v c owed held Hi|i j c owed held Hi Hj Hcur].
  - by apply upsert_settled.
  - by apply add_upload_settled.
  - by eapply text_settled.
  - by apply record_settled.
  - by apply correct_settled.
  - destruct Hs as [[Hu Hid Ho Hul] Hup Hh Hst]; simpl in *. split; simpl; [by split| |done|].
    + by rewrite lookup_alter_None.
    + intros i j Hj Hn. exfalso. apply Hn, elem_of_union. right. apply elem_of_dom. eauto.
  - destruct Hs as [[Hu Hid Ho Hul] Hup Hh Hst]; simpl in *. split; simpl; [by split|done|done|].
    intros i j Hj Hn. exfalso. apply Hn, elem_of_union. right. apply elem_of_dom. eauto.
  - destruct Hs as [Hok Hup Hh Hst]; simpl in *. split; simpl; [done|done|..].
    + intros k Hk. destruct (decide (i = k)) as [<-|]; [done|]. rewrite lookup_insert_ne in Hk; auto.
    + intros k j Hj Hn. rewrite <- (Hst k j Hj Hn). unfold to_store.
      destruct (decide (i = k)) as [<-|]; [by rewrite lookup_insert_eq, Hi|by rewrite lookup_insert_ne].
  - destruct Hs as [Hok Hup Hh Hst]; simpl in *. split; simpl; [done|done|..].
    + intros k Hk. destruct (decide (i = k)) as [<-|]; [eauto|]. rewrite lookup_insert_ne in Hk; auto.
    + intros k j' Hj' Hn. unfold to_store. destruct (decide (i = k)) as [<-|].
      * rewrite lookup_insert_eq. congruence.
      * rewrite lookup_insert_ne by done. apply Hst; [done|set_solver].
  - destruct Hs as [Hok Hup Hh Hst]; simpl in *. split; simpl; [|done|..].
    + apply set_jobs_ok; [done|]. intros k. destruct (decide (i = k)) as [<-|];
        [rewrite lookup_alter_eq; by destruct (c_jobs c !! i)|by rewrite lookup_alter_ne].
    + intros k. rewrite lookup_delete_is_Some, lookup_alter_is_Some. intros [_ Hk]. auto.
    + intros k j Hj Hn. unfold to_store. destruct (decide (i = k)) as [<-|Hne].
      * rewrite lookup_delete_eq. rewrite lookup_alter_Some in Hj.
        destruct Hj as [(_ & j0 & Hj0 & ->)|[? _]]; [|done]. specialize (Hst i j0 Hj0 Hn).
        unfold to_store in Hst. by rewrite Hi in Hst.
      * rewrite lookup_delete_ne by done. rewrite lookup_alter_ne in Hj by done. exact (Hst k j Hj Hn).
  - destruct Hs as [Hok Hup Hh Hst]; simpl in *. split; simpl; [done..|].
    intros k j' Hj' Hn. destruct (decide (i = k)) as [<-|]; [|apply Hst; [done|set_solver]].
    unfold to_store. rewrite Hi. unfold stale in Hcur. breflect. congruence.
Qed.

Inductive catalog_run (s : shared) : shared → Prop :=
| run_start : catalog_run s s
| run_next s1 s2 : catalog_run s s1 → catalog_step s1 s2 → catalog_run s s2.

(** under any interleaving of pulls, uploads, corrections, switches, refreshes
    and the reconcile, the stored availability of a posting that no refresh holds and
    about which nothing has been said since its last evaluation is what the
    observations say. Nothing is assumed of the catalog it starts from: every row of
    it is owed an evaluation. *)
Theorem availability_current c s i j :
  catalog_ok c → c_sources c !! "upload" = None →
  catalog_run (mkShared c (ids_of c) ∅) s →
  c_jobs (sh_catalog s) !! i = Some j → i ∉ sh_owed s → sh_held s !! i = None →
  j_available j = Some (_STORED i j (sh_catalog s)).
Proof.
  intros Hok Hup Hrun Hj Hn Hh.
  assert (settled_store s) as [_ _ _ Hst].
  { clear Hj Hn Hh. induction Hrun as [|s1 s2 _ IH Hs]; [|by eapply catalog_step_settled].
    split; simpl; [done|done|by intros k [? ?]|]. intros k x Hk Hk'. exfalso. apply Hk'.
    apply elem_of_dom. eauto. }
  specialize (Hst i j Hj Hn). unfold to_store in Hst. by rewrite Hh in Hst.
Qed.

(** ** The code's operations are runs *)

Lemma run_trans s1 s2 s3 : catalog_run s1 s2 → catalog_run s2 s3 → catalog_run s1 s3.
Proof. intros H1 H2. induction H2; [done|]. by eapply run_next. Qed.

Lemma run_one s1 s2 : catalog_step s1 s2 → catalog_run s1 s2.
Proof. intros H. eapply run_next; [constructor|done]. Qed.

Lemma set_jobs_text f c :
  (∀ i j, c_jobs c !! i = Some j → same_columns j (f i j)) →
  text_write c (set_jobs (map_imap (λ i j, Some (f i j)) (c_jobs c)) c).
Proof.
  intros H. split; try done. intros i. simpl. rewrite map_lookup_imap.
  destruct (c_jobs c !! i) as [j|] eqn:E; simpl; auto.
Qed.

Lemma alter_text f i c :
  (∀ j, same_columns j (f j)) → text_write c (set_jobs (alter f i (c_jobs c)) c).
Proof.
  intros H. split; try done. intros k. simpl. destruct (decide (i = k)) as [<-|].
  - rewrite lookup_alter_eq. destruct (c_jobs c !! i); simpl; auto.
  - rewrite lookup_alter_ne by done. destruct (c_jobs c !! k); [|done]. by split_and!.
Qed.

Lemma uploads_text m c : dom m = dom (c_uploads c) → text_write c (set_uploads m c).
Proof. intros H. split; try done. intros i. simpl. destruct (c_jobs c !! i); [|done]. by split_and!. Qed.

Lemma same_columns_refl j : same_columns j j.
Proof. by split_and!. Qed.

Lemma finish_uploads_text taken c : text_write c (finish_uploads taken c).
Proof. apply uploads_text, dom_update_where. Qed.

Lemma near_copy_text keys c : text_write c (set_near_copy_keys keys c).
Proof.
  apply (set_jobs_text (λ _ j, match alist_get (j_url j) keys with
    | Some k => if bool_decide (j_near_copy_key j = Some k) then j else put_near_copy_key (Some k) j
    | None => j end)).
  intros i j _. destruct (alist_get _ _); [destruct (bool_decide _)|]; by split_and!.
Qed.

Lemma fill_chunk_text source company limit c : text_write c (fill_chunk source company limit c).1.
Proof.
  unfold fill_chunk. cbn [fst]. unfold update_where.
  set (locked := take _ _).
  apply (set_jobs_text (λ i j, if mem i locked then put_text company (j_title j) (j_locations j) (j_terms j) j else j)).
  intros i j _. destruct (mem i locked); by split_and!.
Qed.

Lemma fill_date_text url posted c : text_write c (fill_date_posted url posted c).
Proof.
  apply (set_jobs_text (λ i j, if String.eqb (j_url j) url && bool_decide (j_date_posted j = None)
                               then put_date_posted (Some posted) j else j)).
  intros i j _. destruct (_ && _); by split_and!.
Qed.

Lemma extraction_status_text i st c : text_write c (set_extraction_status i st c).
Proof. apply uploads_text, dom_alter_L. Qed.

Lemma correct_text_write i f c : text_write c (set_jobs (alter (correct_text f) i (c_jobs c)) c).
Proof. by apply alter_text. Qed.

(** The refresh of rows no one else holds: lock, evaluate and write each. *)
Lemma refresh_run ids c owed :
  (∀ i, i ∈ ids → is_Some (c_jobs c !! i)) →
  ∃ owed', catalog_run (mkShared c owed ∅) (mkShared (refreshed ids c) owed' ∅) ∧
    owed' = owed ∖ list_to_set ids.
Proof.
  revert c owed. induction ids as [|i ids IH]; intros c owed Hex.
  { exists owed. rewrite refreshed_nil. split; [constructor|set_solver]. }
  destruct (Hex i ltac:(constructor)) as [j Hj].
  destruct (IH (refreshed [i] c) (owed ∖ {[i]})) as (owed' & Hrun & ->).
  { intros k Hk. rewrite refreshed_lookup, fmap_is_Some. apply Hex. by constructor. }
  rewrite refreshed_app in Hrun. exists (owed ∖ {[i]} ∖ list_to_set ids). split; [|simpl; set_solver].
  eapply run_trans; [|exact Hrun].
  eapply run_trans; [apply run_one, (step_lock i); [done|eauto]|].
  eapply run_trans; [apply run_one, (step_evaluate i j); [by rewrite lookup_insert_eq|done]|].
  rewrite insert_insert_eq.
  assert (refreshed [i] c = set_jobs (alter (put_available (Some (_STORED i j c))) i (c_jobs c)) c) as ->.
  { apply set_jobs_ext; try done. intros k. rewrite refreshed_lookup. simpl.
    unfold mem. case_bool_decide as Hk.
    - apply list_elem_of_singleton in Hk as ->. by rewrite lookup_alter_eq, Hj.
    - rewrite lookup_alter_ne by set_solver. by destruct (c_jobs c !! k). }
  pose proof (step_write i (_STORED i j c) c (owed ∖ {[i]}) (<[i := Some (_STORED i j c)]> ∅)
    (lookup_insert_eq _ _ _)) as Hs.
  rewrite delete_insert_id in Hs by done. by apply run_one.
Qed.

(** One transaction of a pull's upsert. *)
Lemma upsert_run now b c owed held :
  Forall (λ v, v_source v ≠ "upload" ∧ v_source v ≠ "sheet_import") b →
  ∃ owed', catalog_run (mkShared c owed held) (mkShared (upsert_transaction now b c) owed' held).
Proof.
  intros Hb. unfold upsert_transaction. set (t := taken_over b c). clearbody t.
  assert (∃ owed', catalog_run (mkShared c owed held)
            (mkShared (foldl (upsert_row now) c b) owed' held)) as [owed' H].
  { revert c owed. induction Hb as [|v b [H1 H2] _ IH]; intros c owed; simpl; [exists owed; constructor|].
    destruct (IH (upsert_row now c v)
      (if source_off (v_source v) c then owed ∪ ids_of (upsert_row now c v) else owed)) as [o Ho].
    exists o. eapply run_trans; [|exact Ho]. by apply run_one, step_upsert. }
  exists owed'. eapply run_next; [exact H|]. apply step_text, finish_uploads_text.
Qed.

(** A pull's observations, and the refresh behind them. *)
Lemma observe_run source run_id postings kept absence c owed :
  ∃ owed', catalog_run (mkShared c owed ∅)
    (mkShared (observe source run_id postings kept absence c).1 owed' ∅) ∧
    ∀ i, i ∈ owed' → i ∈ owed ∧ i ∉ observed_ids (observation_rows source postings kept absence c).
Proof.
  rewrite observe_eq. set (ids := observed_ids _).
  set (rows := observations_of source run_id (observation_rows source postings kept absence c)).
  assert (∀ o, o ∈ rows → is_Some (c_jobs c !! o_job_id o) ∧ o_job_id o ∈ ids) as Hrows.
  { intros o (r & -> & Hr)%list_elem_of_fmap. pose proof Hr as Hr'.
    apply observation_rows_elem in Hr as (j & Hj & _ & Hk). simpl. split; [eauto|].
    assert (mem r.2.1 ids = true) as Hm by (apply observed_ids_elem; eauto).
    unfold mem in Hm. by breflect. }
  destruct (refresh_run ids (pulled source postings kept absence run_id c)
              (owed ∪ list_to_set (map o_job_id rows))) as (owed' & Hrun & ->).
  { intros i Hi. assert (mem i ids = true) as Hm by by apply bool_decide_eq_true.
    apply observed_ids_elem in Hm as (j & Hj & _). simpl. eauto. }
  eexists. split.
  - eapply run_trans; [|exact Hrun]. apply run_one. apply (step_record rows). intros o Ho. by apply Hrows.
  - intros i. rewrite elem_of_difference, elem_of_union, !elem_of_list_to_set.
    intros [[?|(o & -> & Ho)%list_elem_of_fmap] Hn]; [done|]. exfalso. apply Hn. by apply Hrows.
Qed.

(** ** The reconcile *)

Lemma lock_rows_elem skip held ids c i :
  i ∈ lock_rows skip held ids c ↔ i ∈ ids ∧ is_Some (c_jobs c !! i) ∧ (skip = true → i ∉ held).
Proof.
  unfold lock_rows. rewrite list_elem_of_In, filter_In, <- list_elem_of_In.
  rewrite andb_true_iff, negb_true_iff, andb_false_iff. unfold mem.
  rewrite bool_decide_eq_true, bool_decide_eq_false. destruct skip; intuition congruence.
Qed.

Lemma chunk_lookup held lo c i :
  c_jobs (reconcile_chunk held lo c).1 !! i =
  (λ j, if bool_decide (lo ≤ i < lo + _RECONCILE_CHUNK) && negb (mem i held)
        then put_available (Some (_STORED i j c)) j else j) <$> c_jobs c !! i.
Proof.
  unfold reconcile_chunk, _refresh_available. cbn [fst]. rewrite store_available_lookup.
  destruct (c_jobs c !! i) as [j|] eqn:Hj; [|done]. simpl. f_equal.
  set (locked := lock_rows _ _ _ _).
  assert (mem i locked = bool_decide (lo ≤ i < lo + _RECONCILE_CHUNK) && negb (mem i held) && stale c i j)
    as ->.
  { apply eq_true_iff_eq. unfold mem, locked.
    rewrite !andb_true_iff, negb_true_iff, bool_decide_eq_false, !bool_decide_eq_true.
    rewrite lock_rows_elem, elem_of_ids_where. split.
    - intros ((j' & Hj' & H) & _ & Hh). breflect. assert (j' = j) as -> by congruence. auto.
    - intros ((Hr & Hh) & Hs). split_and!; [|eauto|auto]. exists j. split; [done|].
      rewrite Hs, andb_true_r, andb_true_iff, Z.leb_le, Z.ltb_lt. lia. }
  destruct (_ && negb _); [|done]. simpl. destruct (stale c i j) eqn:Hst; [done|].
  unfold stale in Hst. breflect. destruct j; unfold put_available; simpl in *. by rewrite Hst.
Qed.

(** A row is stored as the projection says, or someone else holds it. *)
Definition current (held : list Z) (c : catalog) (i : Z) : Prop :=
  ∀ j, c_jobs c !! i = Some j → i ∈ held ∨ j_available j = Some (_STORED i j c).

Definition frame (c c' : catalog) : Prop :=
  (∀ i j, _STORED i j c' = _STORED i j c) ∧ dom (c_jobs c') = dom (c_jobs c).

Lemma chunk_frame held lo c : frame c (reconcile_chunk held lo c).1.
Proof.
  split; [done|]. apply set_eq. intros i. rewrite !elem_of_dom, chunk_lookup, fmap_is_Some. done.
Qed.

Lemma chunk_current held lo c i :
  lo ≤ i < lo + _RECONCILE_CHUNK ∨ current held c i → current held (reconcile_chunk held lo c).1 i.
Proof.
  intros H j Hj. rewrite chunk_lookup in Hj. apply fmap_Some in Hj as (j0 & Hj0 & ->).
  change (_STORED i ?x (reconcile_chunk held lo c).1) with (_STORED i x c).
  destruct (mem i held) eqn:Eh; unfold mem in Eh; breflect; [by left|]. right.
  case_bool_decide as Hr; simpl; [done|]. destruct H as [?|H]; [done|].
  by destruct (H j0 Hj0).
Qed.

Lemma reconcile_fold held bs c n :
  let r := foldl (λ cn b, let r := reconcile_chunk held b cn.1 in (r.1, cn.2 + r.2)%nat) (c, n) bs in
  frame c r.1 ∧
  ∀ i, current held c i ∨ (∃ b, b ∈ bs ∧ b ≤ i < b + _RECONCILE_CHUNK) → current held r.1 i.
Proof.
  revert c n. induction bs as [|b bs IH]; intros c n; cbn [foldl]; cbv zeta.
  - split; [done|]. by intros i [?|(b & []%elem_of_nil & _)].
  - cbn [fst snd]. specialize (IH (reconcile_chunk held b c).1 (n + (reconcile_chunk held b c).2)%nat).
    cbv zeta in IH. destruct IH as [[H1 H2] H3]. destruct (chunk_frame held b c) as [F1 F2].
    split; [split; [intros i j; by rewrite H1, F1|by rewrite H2, F2]|].
    intros i Hi. apply H3. destruct Hi as [Hi|(b' & [->|Hb']%elem_of_cons & Hr)].
    + left. apply chunk_current. by right.
    + left. apply chunk_current. by left.
    + right. eauto.
Qed.

Lemma sorted_bounds lo l i :
  StronglySorted (≤) (lo :: l) → i ∈ lo :: l → lo ≤ i ≤ List.last l lo.
Proof.
  intros Hs Hi. apply elem_of_cons in Hi.
  assert (lo ≤ i) as Hlo.
  { destruct Hi as [->|Hi]; [lia|]. apply StronglySorted_inv in Hs as [_ H].
    rewrite Forall_forall in H. by apply H. }
  split; [done|]. clear Hlo. revert lo Hs i Hi. induction l as [|x l IH]; intros lo Hs i Hi.
  { destruct Hi as [->|[]%elem_of_nil]. done. }
  apply StronglySorted_inv in Hs as [Hs Hx]. rewrite Forall_cons in Hx. destruct Hx as [Hx _].
  assert (List.last (x :: l) lo = List.last l x) as ->.
  { clear. revert x. induction l as [|y l IH]; intros x; [done|]. simpl in *. destruct l; [done|]. apply IH. }
  destruct Hi as [->|Hi]; [specialize (IH x Hs x (or_introl eq_refl)); lia|].
  apply IH; [done|]. by apply elem_of_cons in Hi.
Qed.

Lemma bounds_cover lo hi i :
  lo ≤ i ≤ hi → ∃ b, b ∈ bounds_from lo hi ∧ b ≤ i < b + _RECONCILE_CHUNK.
Proof.
  intros Hi. assert (0 < _RECONCILE_CHUNK) as Hc by done. revert Hc. unfold bounds_from.
  generalize _RECONCILE_CHUNK as ch. intros ch Hch.
  pose proof (Z.div_mod (i - lo) ch ltac:(lia)). pose proof (Z.mod_pos_bound (i - lo) ch Hch).
  assert (0 ≤ (i - lo) / ch) by (apply Z.div_pos; lia).
  assert ((i - lo) / ch ≤ (hi - lo) / ch) by (apply Z.div_le_mono; lia).
  exists (lo + (i - lo) / ch * ch). split; [|nia].
  apply list_elem_of_fmap. exists (Z.to_nat ((i - lo) / ch)). rewrite Z2Nat.id by done. split; [done|].
  apply elem_of_seq. lia.
Qed.

Lemma reconcile_current held c i :
  frame c (reconcile_available held c).1 ∧ current held (reconcile_available held c).1 i.
Proof.
  unfold reconcile_available. destruct (ids_where (λ _ _, true) (c_jobs c)) as [|lo rest] eqn:E.
  - split; [done|]. intros j Hj. exfalso.
    assert (i ∈ ids_where (λ _ _, true) (c_jobs c)) as Hi by (apply elem_of_ids_where; eauto).
    rewrite E in Hi. by apply elem_of_nil in Hi.
  - destruct (reconcile_fold held (bounds_from lo (List.last rest lo)) c O) as [Hf Hc].
    cbv zeta in Hf, Hc. split; [done|]. intros j Hj.
    assert (is_Some (c_jobs c !! i)) as [j0 Hj0].
    { destruct Hf as [_ Hd]. apply elem_of_dom. rewrite <- Hd. apply elem_of_dom. eauto. }
    refine (Hc i _ j Hj). right. apply bounds_cover.
    apply sorted_bounds; rewrite <- E; [apply ids_where_sorted|]. apply elem_of_ids_where. eauto.
Qed.

(** [reconcile_available] leaves every row that no one else holds stored as the
    observations, the switches and the setting say, whatever it found; with no one
    holding a row, a second run writes nothing. *)
Theorem reconcile_restores held c :
  (∀ i j, c_jobs (reconcile_available held c).1 !! i = Some j → i ∉ held →
     j_available j = Some (_STORED i j c)) ∧
  (reconcile_available [] (reconcile_available [] c).1).2 = O.
Proof.
  split.
  - intros i j Hj Hn. destruct (reconcile_current held c i) as [[Hs _] Hc].
    destruct (Hc j Hj) as [?|H]; [done|]. by rewrite H, Hs.
  - set (d := (reconcile_available [] c).1).
    assert (∀ i, current [] d i) as Hcur by (intros i; apply reconcile_current).
    assert (∀ bs n d, (∀ i, current [] d i) →
      (foldl (λ cn b, let r := reconcile_chunk [] b cn.1 in (r.1, cn.2 + r.2)%nat) (d, n) bs).2 = n) as H.
    { clear. induction bs as [|b bs IH]; intros n d Hd; [done|]. cbn [foldl]. cbv zeta.
      rewrite IH by (intros i; cbn [fst]; apply chunk_current; by right). cbn [fst snd].
      assert ((reconcile_chunk [] b d).2 = O) as ->; [|lia].
      unfold reconcile_chunk, _refresh_available. cbn [snd]. apply count_where_zero.
      intros i j Hj. apply andb_false_iff. right. unfold stale.
      destruct (Hd i j Hj) as [[]%elem_of_nil|E]. rewrite E. by rewrite bool_decide_true. }
    unfold reconcile_available. by destruct (ids_where _ _); [|apply H].
Qed.

(** ** Witness *)

(** The board's pull admits the upload's posting, an administrator closes it, and
    each is stored behind its observation. *)
Definition demo_pulled : catalog :=
  (observe "acme" None [demo_posting "u1" "Engineer"] ["u1"] (Some Unlisted) demo_catalog).1.

Lemma availability_current_witness :
  ∃ s j, c_jobs (sh_catalog s) !! 1 = Some j ∧ j_available j = Some (_STORED 1 j (sh_catalog s)) ∧
    j_available j = Some false.
Proof.
  destruct (observe_run "acme" None [demo_posting "u1" "Engineer"] ["u1"] (Some Unlisted) demo_catalog
              (ids_of demo_catalog)) as (o & H & Ho).
  exists (mkShared (set_active 1 false demo_pulled).1 o ∅),
    (put_available (Some false) (uploaded_row 0 "u1" "u1")).
  assert (c_jobs (set_active 1 false demo_pulled).1 !! 1
          = Some (put_available (Some false) (uploaded_row 0 "u1" "u1"))) as Hj by by vm_compute.
  split; [exact Hj|]. split; [|done].
  apply (availability_current demo_catalog (mkShared (set_active 1 false demo_pulled).1 o ∅) 1 _
           demo_ok eq_refl).
  - eapply run_trans; [exact H|]. by apply run_one, step_correct.
  - exact Hj.
  - intros [_ Hn]%Ho. apply Hn. apply (bool_decide_eq_true_1 _). by vm_compute.
  - done.
Defined.
