(* ===== verification/Regex.v ===== *)
(** * Regular expressions of the two engines the code writes for

    The part of the syntax the code's patterns use, as Python's [re] and
    PostgreSQL's advanced expressions read it: a parser of the pattern's text and a
    matcher that lists the ends of the matches at a position, in the order Python's
    backtracking tries them. The engines differ in the spelling of a word boundary,
    in whether a dot matches a newline, in whether [$] does before a last newline,
    and in which characters are white space. Text is ASCII. *)

From S2P Require Import Prelude PyStr.
From Stdlib Require Import Ascii.

Local Open Scope Z_scope.

Inductive engine : Type := Python | Postgres.

(** ** Syntax *)

Inductive class_item : Type :=
| IRange (a b : ascii)
| IWord
| IDigit
| ISpace.

Inductive charset : Type :=
| CDot
| CClass (neg : bool) (items : list class_item).

Inductive regex : Type :=
| REps
| RSet (s : charset)
| RBoundary
| RStart
| REnd
| RCat (a b : regex)
| RAlt (a b : regex)
| RRep (r : regex) (lo : nat) (hi : option nat)
| RLook (positive : bool) (r : regex).

(** One character. *)
Definition RChar (c : ascii) : regex := RSet (CClass false [IRange c c]).

(** ** Matching *)

(** A position: the character before it and the text after it. *)
Record pos : Type := mkPos {
  p_before : option ascii;
  p_after : list ascii;
}.

Definition newline : ascii := "010"%char.

(** White space to the engine. *)
Definition engine_space (e : engine) (c : ascii) : bool :=
  match e with
  | Python => is_space c
  | Postgres => ((9 <=? code c) && (code c <=? 13) || (code c =? 32))%nat
  end.

Definition item_has (e : engine) (i : class_item) (c : ascii) : bool :=
  match i with
  | IRange a b => ((code a <=? code c) && (code c <=? code b))%nat
  | IWord => is_word c
  | IDigit => is_digit c
  | ISpace => engine_space e c
  end.

Definition upper_char (c : ascii) : ascii :=
  if is_lower c then ascii_of_nat (code c - 32) else c.

(** Membership, either case of the character when case is ignored. *)
Definition items_have (e : engine) (ci : bool) (items : list class_item) (c : ascii) : bool :=
  existsb (λ i, item_has e i c || (ci && (item_has e i (lower_char c) || item_has e i (upper_char c))))
    items.

Definition set_has (e : engine) (ci : bool) (s : charset) (c : ascii) : bool :=
  match s with
  | CDot => match e with
            | Python => negb (Ascii.eqb c newline)
            | Postgres => true
            end
  | CClass neg items => xorb neg (items_have e ci items c)
  end.

Definition word_before (p : pos) : bool :=
  match p_before p with Some c => is_word c | None => false end.
Definition word_after (p : pos) : bool :=
  match p_after p with c :: _ => is_word c | [] => false end.

(** [$]. *)
Definition at_end (e : engine) (p : pos) : bool :=
  match p_after p with
  | [] => true
  | [c] => match e with Python => Ascii.eqb c newline | Postgres => false end
  | _ :: _ :: _ => false
  end.

Definition at_start (p : pos) : bool :=
  match p_before p with None => true | Some _ => false end.

(** [lo] repetitions, each of which may be empty. *)
Fixpoint must (f : pos → list pos) (lo : nat) (p : pos) : list pos :=
  match lo with
  | O => [p]
  | S k => concat (map (must f k) (f p))
  end.

Definition consumed (p p' : pos) : bool := (length (p_after p') <? length (p_after p))%nat.

(** At most [extra] more, greedily, each of which consumes something. *)
Fixpoint more_of (f : pos → list pos) (extra : nat) (p : pos) : list pos :=
  match extra with
  | O => [p]
  | S k => (concat (map (more_of f k) (List.filter (consumed p) (f p))) ++ [p])%list
  end.

(** The ends of the matches at a position. *)
Fixpoint ends (e : engine) (ci : bool) (r : regex) (p : pos) : list pos :=
  match r with
  | REps => [p]
  | RSet s => match p_after p with
              | c :: l => if set_has e ci s c then [mkPos (Some c) l] else []
              | [] => []
              end
  | RBoundary => if xorb (word_before p) (word_after p) then [p] else []
  | RStart => if at_start p then [p] else []
  | REnd => if at_end e p then [p] else []
  | RCat a b => concat (map (ends e ci b) (ends e ci a p))
  | RAlt a b => (ends e ci a p ++ ends e ci b p)%list
  | RRep r lo hi =>
      concat (map (λ q, more_of (ends e ci r)
                          (match hi with Some h => h - lo | None => length (p_after q) end)%nat q)
                (must (ends e ci r) lo p))
  | RLook positive r =>
      if Bool.eqb positive (match ends e ci r p with [] => false | _ :: _ => true end) then [p] else []
  end.

(** The positions of a text, from its start. *)
Fixpoint positions (before : option ascii) (l : list ascii) : list pos :=
  mkPos before l :: match l with [] => [] | c :: l' => positions (Some c) l' end.

(** [re.search], as a truth value; [~] and [~*]. *)
Definition search (e : engine) (ci : bool) (r : regex) (text : string) : bool :=
  existsb (λ p, match ends e ci r p with [] => false | _ :: _ => true end)
    (positions None (chars text)).

(** ** Reading a pattern *)

Definition hex_value (c : ascii) : option nat :=
  if is_digit c then Some (code c - 48)%nat
  else if ((97 <=? code c) && (code c <=? 102))%nat then Some (code c - 87)%nat
  else if ((65 <=? code c) && (code c <=? 70))%nat then Some (code c - 55)%nat
  else None.

(** The bytes of a code point of four hexadecimal digits. *)
Definition utf8 (n : nat) : list ascii :=
  map ascii_of_nat
    (if n <? 128 then [n]
     else if n <? 2048 then [192 + n / 64; 128 + n mod 64]
     else [224 + n / 4096; 128 + n / 64 mod 64; 128 + n mod 64])%nat.

Definition rchars (l : list ascii) : regex := foldr (λ c r, RCat (RChar c) r) REps l.

(** An escape outside a class, after the backslash. *)
Definition read_escape (e : engine) (l : list ascii) : option (regex * list ascii) :=
  match l with
  | "w"%char :: l => Some (RSet (CClass false [IWord]), l)
  | "d"%char :: l => Some (RSet (CClass false [IDigit]), l)
  | "s"%char :: l => Some (RSet (CClass false [ISpace]), l)
  | "b"%char :: l => match e with
                     | Python => Some (RBoundary, l)
                     | Postgres => Some (RChar "008", l)
                     end
  | "y"%char :: l => match e with
                     | Python => None
                     | Postgres => Some (RBoundary, l)
                     end
  | "u"%char :: a :: b :: c :: d :: l =>
      a ← hex_value a; b ← hex_value b; c ← hex_value c; d ← hex_value d;
      Some (rchars (utf8 (a * 4096 + b * 256 + c * 16 + d)%nat), l)
  | c :: l => if is_alnum_lower c || is_upper c then None else Some (RChar c, l)
  | [] => None
  end.

(** The items of a class up to its bracket; a hyphen between two characters makes a
    range, and one before the bracket is itself. *)
Fixpoint read_items (l : list ascii) : option (list class_item * list ascii) :=
  match l with
  | [] => None
  | "]"%char :: l => Some ([], l)
  | "\"%char :: c :: l =>
      '(items, l) ← read_items l;
      match c with
      | "w"%char => Some (IWord :: items, l)
      | "d"%char => Some (IDigit :: items, l)
      | "s"%char => Some (ISpace :: items, l)
      | _ => if is_alnum_lower c || is_upper c then None else Some (IRange c c :: items, l)
      end
  | a :: (("-"%char :: b :: l) as rest) =>
      if Ascii.eqb b "]"%char || Ascii.eqb a "-"%char
      then '(items, l) ← read_items rest; Some (IRange a a :: items, l)
      else '(items, l) ← read_items l; Some (IRange a b :: items, l)
  | a :: l => '(items, l) ← read_items l; Some (IRange a a :: items, l)
  end.

Fixpoint read_number (acc : nat) (l : list ascii) : nat * list ascii :=
  match l with
  | c :: l' => if is_digit c then read_number (acc * 10 + (code c - 48))%nat l' else (acc, l)
  | [] => (acc, l)
  end.

(** The quantifier after an atom. *)
Definition read_quantifier (r : regex) (l : list ascii) : option (regex * list ascii) :=
  match l with
  | "*"%char :: l => Some (RRep r 0 None, l)
  | "+"%char :: l => Some (RRep r 1 None, l)
  | "?"%char :: l => Some (RRep r 0 (Some 1%nat), l)
  | "{"%char :: l =>
      let '(lo, l) := read_number 0 l in
      match l with
      | ","%char :: "}"%char :: l => Some (RRep r lo None, l)
      | ","%char :: l =>
          let '(hi, l) := read_number 0 l in
          match l with
          | "}"%char :: l => Some (RRep r lo (Some hi), l)
          | _ => None
          end
      | "}"%char :: l => Some (RRep r lo (Some lo), l)
      | _ => None
      end
  | _ => Some (r, l)
  end.

(** [read_alt] reads up to a closing parenthesis or the end; each call of the three
    uses up fuel. *)
Fixpoint read_alt (fuel : nat) (e : engine) (l : list ascii) : option (regex * list ascii) :=
  match fuel with
  | O => None
  | S k =>
      '(r, l) ← read_cat k e l;
      match l with
      | "|"%char :: l => '(r', l) ← read_alt k e l; Some (RAlt r r', l)
      | _ => Some (r, l)
      end
  end
with read_cat (fuel : nat) (e : engine) (l : list ascii) : option (regex * list ascii) :=
  match fuel with
  | O => None
  | S k =>
      match l with
      | [] | "|"%char :: _ | ")"%char :: _ => Some (REps, l)
      | _ =>
          '(a, l) ← read_atom k e l;
          '(a, l) ← read_quantifier a l;
          '(r, l) ← read_cat k e l;
          Some (RCat a r, l)
      end
  end
with read_atom (fuel : nat) (e : engine) (l : list ascii) : option (regex * list ascii) :=
  match fuel with
  | O => None
  | S k =>
      let group wrap l :=
        '(r, l) ← read_alt k e l;
        match l with
        | ")"%char :: l => Some (wrap r, l)
        | _ => None
        end in
      match l with
      | "("%char :: "?"%char :: ":"%char :: l => group id l
      | "("%char :: "?"%char :: "="%char :: l => group (RLook true) l
      | "("%char :: "?"%char :: "!"%char :: l => group (RLook false) l
      | "("%char :: "?"%char :: _ => None
      | "("%char :: l => group id l
      | "["%char :: "^"%char :: l => '(items, l) ← read_items l; Some (RSet (CClass true items), l)
      | "["%char :: l => '(items, l) ← read_items l; Some (RSet (CClass false items), l)
      | "\"%char :: l => read_escape e l
      | "."%char :: l => Some (RSet CDot, l)
      | "^"%char :: l => Some (RStart, l)
      | "$"%char :: l => Some (REnd, l)
      | c :: l => if mem c ["*"; "+"; "?"; "{"]%char then None else Some (RChar c, l)
      | [] => None
      end
  end.

(** [re.compile]; [None] for a pattern outside the part modelled. *)
Definition compile (e : engine) (pattern : string) : option regex :=
  let l := chars pattern in
  match read_alt (3 * length l + 3) e l with
  | Some (r, []) => Some r
  | _ => None
  end.

(** Search by a pattern's text; a pattern not read matches nothing. *)
Definition search_text (e : engine) (ci : bool) (pattern text : string) : bool :=
  match compile e pattern with
  | Some r => search e ci r text
  | None => false
  end.

(** ** The relation the matcher computes *)

(** [n] steps. *)
Fixpoint steps (R : pos → pos → Prop) (n : nat) (p p' : pos) : Prop :=
  match n with
  | O => p = p'
  | S k => ∃ q, R p q ∧ steps R k q p'
  end.

(** [matched e ci r p p']: [r] matches the text from [p] to [p']. *)
Fixpoint matched (e : engine) (ci : bool) (r : regex) (p p' : pos) : Prop :=
  match r with
  | REps => p = p'
  | RSet s => ∃ c l, p_after p = c :: l ∧ set_has e ci s c = true ∧ p' = mkPos (Some c) l
  | RBoundary => p = p' ∧ word_before p ≠ word_after p
  | RStart => p = p' ∧ p_before p = None
  | REnd => p = p' ∧ at_end e p = true
  | RCat a b => ∃ q, matched e ci a p q ∧ matched e ci b q p'
  | RAlt a b => matched e ci a p p' ∨ matched e ci b p p'
  | RRep r lo hi =>
      ∃ n, (lo ≤ n)%nat ∧ match hi with Some h => (n ≤ Nat.max lo h)%nat | None => True end ∧
           steps (matched e ci r) n p p'
  | RLook positive r =>
      p = p' ∧ if positive then ∃ q, matched e ci r p q else ¬ ∃ q, matched e ci r p q
  end.

(** A match moves forward, or stays. *)
Definition forward (p p' : pos) : Prop :=
  p = p' ∨ (length (p_after p') < length (p_after p))%nat ∧ p_after p' `suffix_of` p_after p.

Lemma forward_trans p q r : forward p q → forward q r → forward p r.
Proof.
  intros [->|[H1 S1]] H2; [done|]. destruct H2 as [->|[H2 S2]]; right; [done|]. split; [lia|].
  by etrans.
Qed.

Lemma forward_le p q : forward p q → (length (p_after q) ≤ length (p_after p))%nat.
Proof. intros [->|[? _]]; lia. Qed.

Lemma steps_forward (R : pos → pos → Prop) n p p' :
  (∀ x y, R x y → forward x y) → steps R n p p' → forward p p'.
Proof.
  intros H. revert p. induction n as [|n IH]; intros p; simpl; [by left|].
  intros (q & Hq & Hs). eapply forward_trans; eauto.
Qed.

Lemma matched_forward e ci r p p' : matched e ci r p p' → forward p p'.
Proof.
  revert p p'. induction r as [|s| | | |a IHa b IHb|a IHa b IHb|r IH lo hi|positive r IH]; intros p p'; simpl.
  - by left.
  - intros (c & l & E & _ & ->). right. rewrite E. simpl. split; [lia|]. by exists [c].
  - by intros [-> _]; left.
  - by intros [-> _]; left.
  - by intros [-> _]; left.
  - intros (q & ?%IHa & ?%IHb). by eapply forward_trans.
  - intros [?|?]; auto.
  - intros (n & _ & _ & Hs). by eapply steps_forward.
  - by intros [-> _]; left.
Qed.

Section reps.
Context (f : pos → list pos) (R : pos → pos → Prop).
Hypothesis Hf : ∀ p q, q ∈ f p ↔ R p q.
Hypothesis Hfwd : ∀ p q, R p q → forward p q.

Lemma must_steps lo p p' : p' ∈ must f lo p ↔ steps R lo p p'.
Proof using Hf.
  revert p. induction lo as [|lo IH]; intros p; simpl.
  - rewrite list_elem_of_singleton. by split.
  - rewrite elem_of_concat_map. setoid_rewrite IH. setoid_rewrite Hf. done.
Qed.

(** The greedy loop drops only steps that stay where they are. *)
Lemma more_steps extra p p' : p' ∈ more_of f extra p ↔ ∃ n, (n ≤ extra)%nat ∧ steps R n p p'.
Proof using Hf Hfwd.
  revert p. induction extra as [|k IH]; intros p; simpl.
  - rewrite list_elem_of_singleton. split.
    + intros ->. by exists O.
    + intros ([|n] & Hn & Hs); [done|lia].
  - rewrite elem_of_app, list_elem_of_singleton, elem_of_concat_map. setoid_rewrite IH. split.
    + intros [(q & Hq & n & Hn & Hs)| ->]; [|exists O; split; [lia|done]].
      rewrite list_elem_of_In, filter_In, <- list_elem_of_In, Hf in Hq.
      exists (S n). split; [lia|]. simpl. exists q. by destruct Hq.
    + intros (n & Hn & Hs).
      assert (p = p' ∨ ∃ q m, consumed p q = true ∧ R p q ∧ (S m ≤ n)%nat ∧ steps R m q p') as H.
      { clear Hn. revert Hs. induction n as [|n IHn]; simpl; [by left|]. intros (q & Hq & Hs).
        destruct (Hfwd p q Hq) as [<-|[Hlt _]].
        - destruct (IHn Hs) as [?|(q' & m & ? & ? & ? & ?)]; [by left|]. right.
          exists q', m. split_and!; try done. lia.
        - right. exists q, n. split_and!; try done. unfold consumed. by apply Nat.ltb_lt. }
      destruct H as [->|(q & m & Hc & Hq & Hm & Hs')]; [by right|]. left. exists q. split.
      * rewrite list_elem_of_In, filter_In, <- list_elem_of_In, Hf. done.
      * exists m. split; [lia|done].
Qed.

End reps.

(** More steps than there are characters left are not needed. *)
Lemma steps_short (R : pos → pos → Prop) (Hfwd : ∀ p q, R p q → forward p q) n p p' :
  steps R n p p' → ∃ m, (m ≤ length (p_after p))%nat ∧ (m ≤ n)%nat ∧ steps R m p p'.
Proof.
  revert p. induction n as [|n IH]; intros p; simpl.
  - intros ->. exists O. split_and!; [lia|lia|done].
  - intros (q & Hq & Hs). destruct (IH q Hs) as (m & Hm & Hmn & Hs').
    destruct (Hfwd p q Hq) as [<-|[Hlt _]].
    + exists m. split_and!; [done|lia|done].
    + exists (S m). split_and!; [lia|lia|]. by exists q.
Qed.

Lemma steps_app (R : pos → pos → Prop) n m p p' : steps R (n + m) p p' ↔ ∃ q, steps R n p q ∧ steps R m q p'.
Proof.
  revert p. induction n as [|n IH]; intros p; simpl.
  - split; [by exists p|]. by intros (q & -> & ?).
  - setoid_rewrite IH. naive_solver.
Qed.

(** The matcher lists exactly the ends of the matches. *)
Lemma ends_matched e ci r p p' : p' ∈ ends e ci r p ↔ matched e ci r p p'.
Proof.
  revert p p'. induction r as [|s| | | |a IHa b IHb|a IHa b IHb|r IH lo hi|positive r IH]; intros p p'; simpl.
  - rewrite list_elem_of_singleton. by split.
  - destruct (p_after p) as [|c l]; [split; [by intros []%elem_of_nil|by intros (? & ? & ? & _)]|].
    destruct (set_has e ci s c) eqn:E.
    + rewrite list_elem_of_singleton. split; [intros ->; eauto|]. by intros (? & ? & [= <- <-] & _ & ->).
    + split; [by intros []%elem_of_nil|]. intros (? & ? & [= <- <-] & ? & _). congruence.
  - destruct (word_before p), (word_after p); simpl; rewrite ?list_elem_of_singleton, ?elem_of_nil; naive_solver.
  - unfold at_start. destruct (p_before p); rewrite ?list_elem_of_singleton, ?elem_of_nil; naive_solver.
  - destruct (at_end e p); rewrite ?list_elem_of_singleton, ?elem_of_nil; naive_solver.
  - rewrite elem_of_concat_map. setoid_rewrite IHa. setoid_rewrite IHb. done.
  - by rewrite elem_of_app, IHa, IHb.
  - rewrite elem_of_concat_map. setoid_rewrite (must_steps _ _ IH).
    setoid_rewrite (more_steps _ _ IH (matched_forward e ci r)). split.
    + intros (q & Hq & n & Hn & Hs). exists (lo + n)%nat. split; [lia|]. split.
      * destruct hi as [h|]; [lia|done].
      * apply steps_app. eauto.
    + intros (n & Hlo & Hhi & Hs). replace n with (lo + (n - lo))%nat in Hs by lia.
      apply steps_app in Hs as (q & Hq & Hs). exists q. split; [done|]. destruct hi as [h|].
      * exists (n - lo)%nat. split; [lia|done].
      * destruct (steps_short _ (matched_forward e ci r) _ _ _ Hs) as (m & Hm & _ & Hs'). eauto.
  - assert (ends e ci r p = [] ↔ ¬ ∃ q, matched e ci r p q) as Hn.
    { setoid_rewrite <- IH. destruct (ends e ci r p) as [|q l].
      - split; [|done]. intros _ (q & []%elem_of_nil).
      - split; [done|]. intros H. exfalso. apply H. exists q. constructor. }
    destruct (ends e ci r p) as [|q l] eqn:E, positive; simpl;
      rewrite ?list_elem_of_singleton, ?elem_of_nil.
    + split; [done|]. intros [_ H]. by apply Hn.
    + split; [by intros ->; split; [|apply Hn]|by intros [-> _]].
    + split; [|by intros [-> _]]. intros ->. split; [done|]. exists q. apply IH. rewrite E. constructor.
    + split; [done|]. intros [_ H]. apply Hn in H. done.
Qed.

(** ** Positions of a text *)

Lemma positions_elem before l p :
  p ∈ positions before l ↔ ∃ k, l = (k ++ p_after p)%list ∧ p_before p = match last k with Some c => Some c | None => before end.
Proof.
  revert before. induction l as [|c l IH]; intros before; cbn [positions].
  - rewrite list_elem_of_singleton. split.
    + intros ->. by exists [].
    + intros (k & E & Hb). symmetry in E. apply app_eq_nil in E as [-> E]. destruct p; simpl in *. by subst.
  - rewrite elem_of_cons, IH. split.
    + intros [->|(k & -> & Hb)]; [by exists []|]. exists (c :: k). split; [done|].
      rewrite Hb. destruct k as [|x k] using rev_ind; [done|]. rewrite last_snoc.
      change (c :: k ++ [x])%list with ((c :: k) ++ [x])%list. by rewrite last_snoc.
    + intros (k & E & Hb). destruct k as [|x k]; simpl in E.
      * left. destruct p; simpl in *. by subst.
      * injection E as <- E. right. exists k. split; [done|]. rewrite Hb.
        destruct k as [|y k] using rev_ind; [done|]. rewrite last_snoc.
        change (c :: k ++ [y])%list with ((c :: k) ++ [y])%list. by rewrite last_snoc.
Qed.

(** A search succeeds exactly when the pattern matches somewhere in the text. *)
Lemma search_matched e ci r text :
  search e ci r text = true ↔
  ∃ k rest p', chars text = (k ++ rest)%list ∧ matched e ci r (mkPos (last k) rest) p'.
Proof.
  unfold search. rewrite existsb_exists. split.
  - intros (p & Hp & H). apply list_elem_of_In, positions_elem in Hp as (k & E & Hb).
    destruct (ends e ci r p) as [|p' l] eqn:Ee; [done|].
    exists k, (p_after p), p'. split; [done|]. apply ends_matched.
    assert (mkPos (last k) (p_after p) = p) as E2.
    { destruct p as [b a]; simpl in *. rewrite Hb. by destruct (last k). }
    rewrite E2, Ee. apply list_elem_of_here.
  - intros (k & rest & p' & E & H). exists (mkPos (last k) rest). split.
    + apply list_elem_of_In, positions_elem. exists k. split; [done|]. simpl. by destruct (last k).
    + apply ends_matched in H. destruct (ends e ci r (mkPos (last k) rest)); [by apply elem_of_nil in H|done].
Qed.

(** ** Where the engines agree *)

(** Not a control character. *)
Definition printable (c : ascii) : bool := (32 <=? code c)%nat.

Lemma printable_sets c ci s : printable c = true → set_has Python ci s c = set_has Postgres ci s c.
Proof.
  assert (∀ c, printable c = true → is_space c = engine_space Postgres c ∧ Ascii.eqb c newline = false ∧
                 printable (lower_char c) = true ∧ printable (upper_char c) = true) as Hp.
  { intros [[] [] [] [] [] [] [] []]; vm_compute; naive_solver. }
  intros H. destruct (Hp c H) as (Hs & Hn & Hl & Hu).
  destruct (Hp _ Hl) as (Hsl & _). destruct (Hp _ Hu) as (Hsu & _).
  destruct s as [|neg items]; simpl; [by rewrite Hn|]. f_equal. unfold items_have.
  induction items as [|[] items IH]; simpl; rewrite ?IH, ?Hs, ?Hsl, ?Hsu; done.
Qed.

Lemma printable_end p : Forall (λ c, printable c = true) (p_after p) → at_end Python p = at_end Postgres p.
Proof.
  destruct p as [b [|c [|? ?]]]; [done| |done]. intros [H _]%Forall_cons. simpl.
  apply Ascii.eqb_neq. intros ->. by vm_compute in H.
Qed.

Lemma concat_map_ext {A B} (f g : A → list B) l :
  (∀ x, x ∈ l → f x = g x) → concat (map f l) = concat (map g l).
Proof.
  intros H. induction l as [|x l IH]; [done|]. simpl. rewrite H by constructor. f_equal.
  apply IH. intros y Hy. apply H. by constructor.
Qed.

Lemma forward_printable p p' :
  forward p p' → Forall (λ c, printable c = true) (p_after p) → Forall (λ c, printable c = true) (p_after p').
Proof. intros [->|[_ [k E]]]; [done|]. rewrite E, Forall_app. by intros [_ ?]. Qed.

Lemma loops_agree f g :
  (∀ p, Forall (λ c, printable c = true) (p_after p) → f p = g p) →
  (∀ p q, q ∈ f p → forward p q) →
  (∀ lo p, Forall (λ c, printable c = true) (p_after p) → must f lo p = must g lo p) ∧
  (∀ n p, Forall (λ c, printable c = true) (p_after p) → more_of f n p = more_of g n p).
Proof.
  intros Hfg Hfw. split.
  - induction lo as [|lo IH]; intros p Hp; simpl; [done|]. rewrite <- Hfg by done. apply concat_map_ext.
    intros q Hq. apply IH. eapply forward_printable; eauto.
  - induction n as [|n IH]; intros p Hp; simpl; [done|]. rewrite <- Hfg by done. f_equal. apply concat_map_ext.
    intros q Hq. apply IH. rewrite list_elem_of_In, filter_In, <- list_elem_of_In in Hq.
    destruct Hq as [Hq _]. eapply forward_printable; eauto.
Qed.

(** On text without control characters the engines match alike. *)
Lemma ends_agree ci r p :
  Forall (λ c, printable c = true) (p_after p) → ends Python ci r p = ends Postgres ci r p.
Proof.
  revert p. induction r as [|s| | | |a IHa b IHb|a IHa b IHb|r IH lo hi|positive r IH]; intros p Hp; simpl; try done.
  - destruct (p_after p) as [|c l]; [done|]. apply Forall_cons in Hp as [Hc _]. by rewrite printable_sets.
  - by rewrite printable_end.
  - rewrite <- IHa by done. apply concat_map_ext. intros q Hq. apply IHb.
    eapply forward_printable; [|done]. eapply matched_forward, ends_matched, Hq.
  - by rewrite IHa, IHb.
  - destruct (loops_agree _ _ IH (λ p q Hq, matched_forward _ _ _ _ _ (proj1 (ends_matched _ _ _ _ _) Hq)))
      as [Hm Hmore].
    rewrite <- Hm by done. apply concat_map_ext. intros q Hq. apply Hmore.
    eapply forward_printable; [|done]. eapply steps_forward; [apply (matched_forward Python ci r)|].
    apply (must_steps (ends Python ci r)); [apply ends_matched|done].
  - by rewrite IH.
Qed.

Lemma search_agree ci r text :
  Forall (λ c, printable c = true) (chars text) → search Python ci r text = search Postgres ci r text.
Proof.
  intros H. unfold search. assert (∀ p, p ∈ positions None (chars text) → ends Python ci r p = ends Postgres ci r p) as Hp.
  { intros p (k & E & _)%positions_elem. apply ends_agree. rewrite E, Forall_app in H. by destruct H. }
  induction (positions None (chars text)) as [|p l IH]; [done|]. simpl. rewrite Hp by constructor. f_equal.
  apply IH. intros q Hq. apply Hp. by constructor.
Qed.
