(* ===== verification/Screening.v ===== *)
(** * Title screens ([core.screening])

    Recipes as ordered rules over a posting's title and source, read by [screen] in
    Python and by [skips_sql] as a SQL CASE over the parameters [PARAMS]. A compiled
    pattern is its text; both engines read it by [Regex]. *)

From S2P Require Import Prelude PyStr Sql Regex.
From Stdlib Require Import Ascii.

Local Open Scope string_scope.
Local Open Scope Z_scope.

(** ** The patterns *)

Definition _TECHNICAL : string :=
  "\b(?:engineer\w*|software|developer\w*|data|analyst\w*|product|program|technical|" ++
  "technology|computer|computing|systems?|infrastructure|platform|automation|robot\w*|" ++
  "firmware|embedded|machine learning|artificial intelligence|research|scientist|science|" ++
  "cyber\w*|devops|sre|it|ux|ui|solutions?|consult\w*|quant\w*|ai|ml)\b".

Definition _CURATED_INTERNSHIP_SOURCES : list string :=
  ["internships"; "internships_ouckah"; "speedyapply_ai_intern"; "speedyapply_intern"].

Definition _INTERNSHIP_SIGNAL : string :=
  "\b(?:intern(?:ship)?s?|co[ -]?op|student|university|summer (?:analyst|associate)|" ++
  "intensive program)\b".

Definition _EXPLICIT_INTERNSHIP : string :=
  "\b(?:intern(?:ship)?s?|co[ -]?op|summer (?:analyst|associate)|intensive program)\b".

Definition _EXPERIENCED : string :=
  "\b(?:senior|sr\.?|principal|lead|director|head|vice president|vp|chief)\b".

Definition _AERO_MAJOR_SIGNAL : string :=
  "\b(?:aero\w*|astro\w*|avionics?|propulsion|spacecraft|satellites?|launch|rockets?|" ++
  "flight|gn&?c|guidance|aircraft|airframes?|orbital|mechanical|structur(?:al|es)|stress|" ++
  "thermal|fluids?|cfd|aerodynamics?|controls?|dynamics|mechatronics?|composites?|" ++
  "materials|reliability|(?:systems?|test|manufacturing|integration|design|hardware|" ++
  "quality|process|industrial|mission) engineer\w*)\b".

Definition _OCCUPATION_WORDS : list string :=
  ["accountant"; "accounting"; "aide"; "auditor"; "baker"; "bakery"; "behavioral"; "beverage";
   "billing"; "cardiology"; "cdl"; "chef"; "cleaner"; "clinician"; "cook"; "diesel"; "expeditor";
   "forklift"; "icu"; "infusion"; "inpatient"; "janitorial"; "kitchen"; "loader"; "lpn";
   "neurology"; "nurse"; "pathologist"; "patient"; "payroll"; "pediatrics"; "pharmacist";
   "physician"; "picker"; "porter"; "practitioner"; "recruiting"; "respiratory"; "secretary";
   "sous"; "speech"; "teacher"; "teller"; "therapist"; "therapy"; "underwriter"; "urology"].

Definition _INTERNSHIP_ROLE : string :=
  "\b(?:intern(?:ship)?s?|co[ -]?op|apprentice(?:ship)?)\b".

Definition _REJECTED_LEVEL_ONLY : string :=
  "^(?!.*(?:/|&|\+|\bor\b|\band\b|\bentry\b|\bjunior\b|\bjr\b|\bintermediate\b|\bmid\b|" ++
  "\bnew grad|\bearly career|\bgraduate\b|\b(?:i|ii|iii|1|2|3)\b|\bmember of\b|" ++
  "\btechnical staff\b|\bstaff\s*:|\bstaff\s*$|\bstaff (?:accountant|nurse|" ++
  "pharmacist)\b)).*\b(?:senior|sr\.?|principal|staff|lead)\b".

Definition _ACCEPTED_WORK : string :=
  "\b(?:engineer\w*|software|developer\w*|programmer|data|scien\w*|machine learning|ml|" ++
  "ai|cloud|platform|infrastructure|devops|sre|backend|frontend|full[- ]?stack|architect|" ++
  "quant\w*|research\w*|product|analyst)\b".

Definition _REJECTED_ROLE_ONLY : string :=
  "^(?!.*" ++
  _ACCEPTED_WORK ++
  ").*(?:\btechnicians?\b|\btech\b(?! lead)|\bfield (?:service|technician|representative|" ++
  "rep|operations|support)\b|\boperations? (?:associate|specialist|coordinator|assistant|" ++
  "representative|agent|clerk)\b|\boperator\b|\b(?:hourly|part[- ]time|per diem|seasonal|" ++
  "temporary|prn)\b)".

Definition _EARLY_CAREER : string :=
  "\b(?:new grad\w*|graduate|campus|early career|entry[- ]level|university|" ++
  "analyst program|development program|full[- ]time analyst)\b".

Definition _FINANCE_EXPERIENCED : string :=
  "^(?!.*" ++
  _EARLY_CAREER ++
  ").*\b(?:senior|sr\.?|principal|director|vice president|vp|svp|managing director|" ++
  "executive director|head|chief|lead)\b".

Definition _FINANCE_MANAGER : string :=
  "^(?!.*" ++
  _EARLY_CAREER ++
  ")(?!.*\b(?:analyst|associate)s?\b).*\b(?:managers?|partners?)\b".

Definition _QUANT : string :=
  "\b(?:quant|quants|quantitative|financial engineer\w*)\b".

Definition _NON_QUANT_TECHNICAL : string :=
  "^(?!.*" ++
  _QUANT ++
  ").*\b(?:software|developer\w*|engineer\w*|programmer|devops|sre|architect|cyber\w*)\b".

Definition _CORE_FINANCE : string :=
  _QUANT ++
  "|\b(?:investment bank\w*|sales (?:and|&) trading|equity research|private equity|" ++
  "private credit|asset management|corporate finance|fp&a|leveraged finance|m&a|" ++
  "fixed income|analyst (?:development )?program)\b".

Definition _RETAIL_BANKING : string :=
  "\b(?:bankers?|banking advisor|branch|teller|part[- ]time|\d+ hours?|safe act|mlo|" ++
  "loan officer|mortgage|client advisor|financial advisor|financial solutions advisor|" ++
  "planning advisor|advisor development program|collections?)\b".

Definition _FINANCE_SIGNAL : string :=
  "\b(?:investments?|investing|investor\w*|banking|trader|traders|trading|markets|wealth|" ++
  "private markets|credit|financ\w*|leveraged|mergers|restructuring|" ++
  "structured (?:finance|products|credit)|treasury|valuation|portfolio|risk|hedge|funds?|" ++
  "capital|securities|derivatives|underwrit\w*|equities|commodities|lending|economist|" ++
  "macro|budget\w*|forecasting|liquidity|fx|full[- ]time analyst)\b".

Definition _FINANCE_INTERNSHIP : string :=
  _EXPLICIT_INTERNSHIP ++
  "|\bapprentice(?:ship)?s?\b".

Definition _EARLY_CAREER_V2 : string :=
  "\b(?:new grad\w*|graduate|campus|early career|entry[- ]level|university|" ++
  "analyst program|development program|full[- ]time analyst|rotational|" ++
  "leadership (?:development )?program)\b".

Definition _FINANCE_EXPERIENCED_V2 : string :=
  "^(?!.*" ++
  _EARLY_CAREER_V2 ++
  ").*\b(?:senior|sr\.?|principal|director|vice president|vp|svp|managing (?:director|" ++
  "consultant)|executive director|head|chief|lead|experienced|associate partner)\b".

Definition _FINANCE_MANAGER_V2 : string :=
  "^(?!.*" ++
  _EARLY_CAREER_V2 ++
  ")(?!.*\b(?:analyst|associate)s?\b).*\b(?:managers?|partners?)\b".

Definition _CORE_FINANCE_V2 : string :=
  _CORE_FINANCE ++
  "|\b(?:management consult\w*|strategy consult\w*|economic consult\w*|" ++
  "transaction (?:advisory|services)|restructuring|corporate banking|commercial banking|" ++
  "audit (?:assistant|associate|staff)|tax (?:associate|staff)|valuation)\b|" ++
  "^(?=.*\b(?:bank\w*|financ\w*)\b).*\bleadership (?:development )?program".

Definition _TECH_CONSULTING : string :=
  "\b(?:sap|salesforce|servicenow|workday|oracle|erp|crm|cloud|it|technical|" ++
  "implementation|integration|functional|technology|data|digital|cyber\w*|network|" ++
  "security|ai|devops)\b.*\bconsult\w*|\bconsult\w*.*\b(?:sap|salesforce|servicenow|" ++
  "workday|oracle|erp|crm|cloud|it|technical|implementation|integration|functional|" ++
  "technology|data|digital|cyber\w*|network|security|ai|devops)\b".

Definition _NON_FINANCE_V2 : string :=
  _RETAIL_BANKING ++
  "|\b(?:sales (?:consultant|associate|representative|rep|specialist)|retail|store|" ++
  "accounts (?:payable|receivable)|bookkeep\w*|payroll|billing|claims?|call center|" ++
  "customer (?:service|support|care)|insurance (?:agent|sales)|quality assurance|qa)\b".

Definition _FINANCE_SIGNAL_V2 : string :=
  _FINANCE_SIGNAL ++
  "|" ++
  _EARLY_CAREER_V2 ++
  ".*\bconsult\w*|\bconsult\w*.*" ++
  _EARLY_CAREER_V2 ++
  "|\b(?:(?:management|strategy|economic|financial|restructuring|transaction|deals?|" ++
  "business|risk|valuation) consult\w*|consulting (?:analyst|associate)|(?:advisory|" ++
  "deals|strategy consulting) (?:analyst|associate|consultant)|(?:audit|assurance|" ++
  "tax) (?:analyst|associate|assistant|staff|consultant)|internal audit|external audit|" ++
  "economic analyst|associate consultant)\b".

Definition title_clinical_care : string :=
  "\b(?:registered nurse|licensed (?:practical|vocational) nurse|nursing assistant|" ++
  "nurse practitioner|phlebotomist|pharmacist|dental hygienist|physical therapist|" ++
  "occupational therapist|radiologic technologist)\b".

Definition title_retail_service : string :=
  "\b(?:cashier|retail sales associate|store manager|" ++
  "customer service rep(?:resentative)?|deli clerk|night crew stocker|in-store shopper)\b".

Definition title_driving : string :=
  "\b(?:delivery driver|commercial driver|truck driver)\b".

Definition title_hospitality_cleaning : string :=
  "\b(?:janitorial cleaner|custodial cleaner|custodian|housekeeper|dishwasher|bartender|" ++
  "line cook|prep cook|restaurant server)\b".

Definition title_unrelated_occupation : string :=
  "\b(?:" ++
  str_join "|" _OCCUPATION_WORDS ++
  ")\b".

(** ** The recipes *)

Record Screen : Type := mkScreen {
  skip : bool;
  reason : string;
}.

(** What a rule matches: a title pattern, or a source in a fixed set. *)
Inductive matcher : Type :=
| ByTitle (pattern : string)
| BySources (sources : list string).

Record _Rule : Type := mkRule {
  decides : Screen;
  matches : matcher;
}.

Definition _keep (reason : string) (m : matcher) : _Rule := mkRule (mkScreen false reason) m.
Definition _skip (reason : string) (title : string) : _Rule :=
  mkRule (mkScreen true reason) (ByTitle title).

Definition recipe : Type := list _Rule * Screen.

Definition internship_v1 : recipe :=
  ([_keep "curated_internship_source" (BySources _CURATED_INTERNSHIP_SOURCES);
    _keep "internship_title_signal" (ByTitle _INTERNSHIP_SIGNAL)],
   mkScreen true "no_internship_title_signal").

Definition new_grad_v1 : recipe :=
  ([_skip "internship_title_signal" _EXPLICIT_INTERNSHIP;
    _skip "experienced_title_signal" _EXPERIENCED],
   mkScreen false "possible_new_grad_title").

Definition aero_major_v1 : recipe :=
  ([_keep "aero_major_title_signal" (ByTitle _AERO_MAJOR_SIGNAL)],
   mkScreen true "no_aero_major_title_signal").

Definition nontechnical_occupations_v1 : recipe :=
  ([_keep "technical_title" (ByTitle _TECHNICAL);
    _skip "clinical_care" title_clinical_care;
    _skip "retail_service" title_retail_service;
    _skip "driving" title_driving;
    _skip "hospitality_cleaning" title_hospitality_cleaning],
   mkScreen false "no_listed_occupation").

Definition occupation_words_v1 : recipe :=
  ([_keep "technical_title" (ByTitle _TECHNICAL);
    _skip "unrelated_occupation" title_unrelated_occupation],
   mkScreen false "no_listed_occupation").

Definition levels_occupations_v1 : recipe :=
  ((_skip "internship_role" _INTERNSHIP_ROLE
    :: _skip "rejected_level_only" _REJECTED_LEVEL_ONLY
    :: nontechnical_occupations_v1.1),
   nontechnical_occupations_v1.2).

Definition levels_roles_occupations_v1 : recipe :=
  ((take 2 levels_occupations_v1.1 ++
    _skip "rejected_role_only" _REJECTED_ROLE_ONLY :: drop 2 levels_occupations_v1.1)%list,
   levels_occupations_v1.2).

Definition finance_new_grad_v1 : recipe :=
  ([_skip "internship_title_signal" _EXPLICIT_INTERNSHIP;
    _skip "experienced_title_signal" _FINANCE_EXPERIENCED;
    _skip "manager_title_signal" _FINANCE_MANAGER;
    _skip "technical_title" _NON_QUANT_TECHNICAL;
    _keep "core_finance_title" (ByTitle _CORE_FINANCE);
    _skip "retail_banking_title" _RETAIL_BANKING;
    _keep "finance_title_signal" (ByTitle _FINANCE_SIGNAL)],
   mkScreen true "no_finance_title_signal").

Definition finance_new_grad_v2 : recipe :=
  ([_skip "internship_title_signal" _FINANCE_INTERNSHIP;
    _skip "experienced_title_signal" _FINANCE_EXPERIENCED_V2;
    _skip "manager_title_signal" _FINANCE_MANAGER_V2;
    _skip "technical_title" _NON_QUANT_TECHNICAL;
    _keep "core_finance_title" (ByTitle _CORE_FINANCE_V2);
    _skip "technology_consulting_title" _TECH_CONSULTING;
    _skip "non_finance_title" _NON_FINANCE_V2;
    _keep "finance_title_signal" (ByTitle _FINANCE_SIGNAL_V2)],
   mkScreen true "no_finance_title_signal").

Definition RECIPES : list (string * recipe) :=
  [("internship_v1", internship_v1);
   ("new_grad_v1", new_grad_v1);
   ("aero_major_v1", aero_major_v1);
   ("nontechnical_occupations_v1", nontechnical_occupations_v1);
   ("occupation_words_v1", occupation_words_v1);
   ("levels_occupations_v1", levels_occupations_v1);
   ("levels_roles_occupations_v1", levels_roles_occupations_v1);
   ("finance_new_grad_v1", finance_new_grad_v1);
   ("finance_new_grad_v2", finance_new_grad_v2)].

(** ** In Python *)

Definition rule_matches (title : string) (source : option string) (r : _Rule) : bool :=
  match matches r with
  | ByTitle p => search_text Python true p title
  | BySources ss => match source with Some s => mem s ss | None => false end
  end.

Fixpoint first_match (holds : _Rule → bool) (rules : list _Rule) (otherwise : Screen) : Screen :=
  match rules with
  | [] => otherwise
  | r :: rules => if holds r then decides r else first_match holds rules otherwise
  end.

(** [None] is the KeyError of a name with no recipe. *)
Definition screen (name : string) (title source : option string) : option Screen :=
  '(rules, otherwise) ← alist_get name RECIPES;
  Some (first_match (rule_matches (default "" title) source) rules otherwise).

(** ** In SQL *)

Definition _param (name : string) (index : nat) : string :=
  "screening_" ++ name ++ "_" ++ pretty.pretty (N.of_nat index).

(** [pattern.replace(r"\b", r"\y")]. *)
Fixpoint replace_boundary (l : list ascii) : list ascii :=
  match l with
  | "\"%char :: "b"%char :: l => "\"%char :: "y"%char :: replace_boundary l
  | c :: l => c :: replace_boundary l
  | [] => []
  end.

Definition _postgres (pattern : string) : string := of_chars (replace_boundary (chars pattern)).

(** A bound parameter: a pattern, or an array of sources. *)
Inductive param : Type :=
| PText (s : string)
| PArray (l : list string).

Definition param_of (m : matcher) : param :=
  match m with
  | ByTitle p => PText (_postgres p)
  | BySources ss => PArray (merge_sort String.le ss)
  end.

Definition recipe_params (nr : string * recipe) : list (string * param) :=
  imap (λ n r, (_param nr.1 n, param_of (matches r))) nr.2.1.

Definition PARAMS : list (string * param) := concat (map recipe_params RECIPES).

(** One WHEN: [COALESCE(title, '') ~* %(p)s], or [source = ANY(%(p)s::text[])]; NULL
    does not take the branch. *)
Definition when_holds (params : list (string * param)) (title source : option string) (p : string)
    : bool :=
  match alist_get p params with
  | Some (PText pattern) => search_text Postgres true pattern (default "" title)
  | Some (PArray ss) => match source with Some s => mem s ss | None => false end
  | None => false
  end.

(** [CASE WHEN ... THEN ... ELSE default END] of one recipe. *)
Fixpoint case_rules (holds : string → bool) (name : string) (n : nat) (rules : list _Rule)
    (otherwise : bool) : bool :=
  match rules with
  | [] => otherwise
  | r :: rules => if holds (_param name n) then skip (decides r)
                  else case_rules holds name (S n) rules otherwise
  end.

(** [skips_sql], evaluated: [CASE recipe WHEN name THEN ... ELSE FALSE END]. *)
Fixpoint case_recipes (holds : string → bool) (recipe : option string)
    (arms : list (string * (list _Rule * Screen))) : bool :=
  match arms with
  | [] => false
  | (name, (rules, otherwise)) :: arms =>
      if bool_decide (recipe = Some name) then case_rules holds name 0 rules (skip otherwise)
      else case_recipes holds recipe arms
  end.

Definition skips_sql (params : list (string * param)) (recipe title source : option string) : bool :=
  case_recipes (when_holds params title source) recipe RECIPES.
