(* ===== verification/ScreenProps.v ===== *)
(** * The two spellings of a screen ([Screening])

    On a title without control characters the CASE of [skips_sql] skips exactly what
    [screen] skips; a title that holds a newline can part them. *)

From S2P Require Import Prelude PyStr Sql Regex Screening.
From Stdlib Require Import Ascii.

Local Open Scope string_scope.
Local Open Scope Z_scope.

(** ** The patterns, in both dialects *)

#[export] Instance class_item_eq_dec : EqDecision class_item.
Proof. solve_decision. Defined.
#[export] Instance charset_eq_dec : EqDecision charset.
Proof. solve_decision. Defined.
#[export] Instance regex_eq_dec : EqDecision regex.
Proof. solve_decision. Defined.

(** A pattern both engines read, as one expression. *)
Definition shared_pattern (p : string) : bool :=
  match compile Python p with
  | Some r => bool_decide (compile Postgres (_postgres p) = Some r)
  | None => false
  end.

Definition shared_rule (r : _Rule) : bool :=
  match matches r with
  | ByTitle p => shared_pattern p
  | BySources _ => true
  end.

Definition bound_rule (name : string) (n : nat) (r : _Rule) : bool :=
  match alist_get (_param name n) PARAMS with
  | Some (PText s) => match matches r with ByTitle p => String.eqb s (_postgres p) | _ => false end
  | Some (PArray l) =>
      match matches r with BySources ss => bool_decide (l = merge_sort String.le ss) | _ => false end
  | None => false
  end.

(** Every title pattern is shared, and every parameter is bound to its own rule. *)
Lemma recipes_sound :
  forallb (λ nr : string * recipe,
             forallb shared_rule nr.2.1 &&
             forallb id (imap (bound_rule nr.1) nr.2.1)) RECIPES = true.
Proof. by vm_compute. Qed.

Lemma search_shared p t :
  shared_pattern p = true → Forall (λ c, printable c = true) (chars t) →
  search_text Postgres true (_postgres p) t = search_text Python true p t.
Proof.
  unfold shared_pattern, search_text. destruct (compile Python p) as [r|]; [|done]. intros H Ht. breflect.
  rewrite H. symmetry. by apply search_agree.
Qed.

Lemma mem_sorted s ss : mem s (merge_sort String.le ss) = mem s ss.
Proof. unfold mem. apply bool_decide_ext. by rewrite merge_sort_Permutation. Qed.

Lemma rule_agrees name rules otherwise n r title source :
  alist_get name RECIPES = Some (rules, otherwise) → rules !! n = Some r →
  Forall (λ c, printable c = true) (chars (default "" title)) →
  when_holds PARAMS title source (_param name n) = rule_matches (default "" title) source r.
Proof.
  intros Hr Hn Ht. pose proof recipes_sound as Hs. rewrite forallb_forall in Hs.
  specialize (Hs _ (proj1 (list_elem_of_In _ _) (alist_get_elem _ _ _ Hr))). cbn [fst snd] in Hs. apply andb_true_iff in Hs as [H1 H2].
  rewrite forallb_forall in H1, H2.
  assert (shared_rule r = true) as Hsh by (apply H1, list_elem_of_In; by eapply list_elem_of_lookup_2).
  assert (bound_rule name n r = true) as Hb.
  { apply H2, list_elem_of_In. apply (list_elem_of_lookup_2 _ n). by rewrite list_lookup_imap, Hn. }
  unfold bound_rule in Hb. unfold when_holds, rule_matches, shared_rule in *.
  destruct (alist_get (_param name n) PARAMS) as [[s|l]|]; [| |done]; destruct (matches r) as [p|ss]; try done.
  - apply String.eqb_eq in Hb as ->. by apply search_shared.
  - breflect. subst l. destruct source; [|done]. apply mem_sorted.
Qed.

Lemma case_rules_first holds test name rules otherwise n :
  (∀ k r, rules !! k = Some r → holds (_param name (n + k)) = test r) →
  case_rules holds name n rules (skip otherwise) = skip (first_match test rules otherwise).
Proof.
  revert n. induction rules as [|r rules IH]; intros n H; [done|]. simpl.
  pose proof (H O r eq_refl) as H0. rewrite Nat.add_0_r in H0. rewrite H0. destruct (test r); [done|].
  apply IH. intros k r' Hk. rewrite <- (H (S k) r' Hk). f_equal. f_equal. lia.
Qed.

Lemma case_recipes_found holds name arms rules otherwise :
  alist_get name arms = Some (rules, otherwise) →
  case_recipes holds (Some name) arms = case_rules holds name 0 rules (skip otherwise).
Proof.
  induction arms as [|[k [rs o]] arms IH]; [done|]. simpl. destruct (String.eqb_spec k name) as [->|Hne].
  - intros [= -> ->]. by rewrite bool_decide_true.
  - intros H. rewrite bool_decide_false by congruence. auto.
Qed.

Lemma case_recipes_missing holds recipe arms :
  match recipe with Some name => alist_get name arms = None | None => True end →
  case_recipes holds recipe arms = false.
Proof.
  induction arms as [|[k [rs o]] arms IH]; [done|]. simpl. destruct recipe as [name|]; [|intros _; by apply IH].
  destruct (String.eqb_spec k name) as [->|Hne]; [done|]. intros H. rewrite bool_decide_false by congruence. auto.
Qed.

(** C18: for a title of printable characters, or none, the SQL of [skips_sql] skips a
    row exactly when [screen] skips the posting, whatever the recipe and the source;
    for a recipe that is NULL or has no such name the SQL skips nothing. *)
Theorem screen_sql_agrees recipe title source :
  Forall (λ c, printable c = true) (chars (default "" title)) →
  skips_sql PARAMS recipe title source =
  match recipe with
  | Some name => match screen name title source with Some s => skip s | None => false end
  | None => false
  end.
Proof.
  intros Ht. unfold skips_sql. destruct recipe as [name|]; [|by apply case_recipes_missing].
  unfold screen. destruct (alist_get name RECIPES) as [[rules otherwise]|] eqn:E.
  - rewrite (case_recipes_found _ _ _ _ _ E). simpl. apply case_rules_first.
    intros k r Hk. by apply (rule_agrees name rules otherwise).
  - by apply case_recipes_missing.
Qed.

Lemma screen_sql_agrees_witness :
  skips_sql PARAMS (Some "finance_new_grad_v2") (Some "Investment Banking Analyst, New Grad") (Some "gs")
  = false ∧
  skips_sql PARAMS (Some "finance_new_grad_v2") (Some "Senior Teller") None = true.
Proof.
  split; rewrite screen_sql_agrees; try (by vm_compute); by apply (bool_decide_unpack _); vm_compute.
Defined.

(** a title that holds a newline is read two ways: Python's dot stops at it and
    PostgreSQL's does not, so the CASE skips a posting [screen] leaves to the model. *)
Theorem screen_parts_at_newline :
  ∃ title, screen "levels_occupations_v1" (Some title) None = Some (mkScreen false "technical_title") ∧
    skips_sql PARAMS (Some "levels_occupations_v1") (Some title) None = true.
Proof.
  exists ("Software Engineer" ++ String newline "Senior"). by split; vm_compute.
Qed.

(** ** Recipes built on others *)

Lemma first_match_app test l k o :
  skip (first_match test (l ++ k)%list o) =
  if existsb test l then skip (first_match test l o) else skip (first_match test k o).
Proof. induction l as [|r l IH]; [done|]. simpl. by destruct (test r). Qed.

Lemma first_match_skips test l o :
  Forall (λ r, skip (decides r) = true) l → existsb test l = true → skip (first_match test l o) = true.
Proof.
  induction l as [|r l IH]; [done|]. intros [Hr Hl]%Forall_cons. simpl. destruct (test r); [done|]. auto.
Qed.

(** each recipe built on another skips at least what it skips: the rules it puts
    first only skip. *)
Theorem recipes_widen title source :
  let skips name := match screen name title source with Some s => skip s | None => false end in
  (skips "nontechnical_occupations_v1" = true → skips "levels_occupations_v1" = true) ∧
  (skips "levels_occupations_v1" = true → skips "levels_roles_occupations_v1" = true).
Proof.
  set (test := rule_matches (default "" title) source).
  assert (∀ l k o, Forall (λ r, skip (decides r) = true) l →
            skip (first_match test k o) = true → skip (first_match test (l ++ k)%list o) = true) as H.
  { intros l k o Hl Hk. rewrite first_match_app. destruct (existsb test l) eqn:E; [|done].
    by apply first_match_skips. }
  split.
  - apply (H [_skip "internship_role" _INTERNSHIP_ROLE; _skip "rejected_level_only" _REJECTED_LEVEL_ONLY]).
    by repeat constructor.
  - change (skip (first_match test (take 2 levels_occupations_v1.1 ++ drop 2 levels_occupations_v1.1)%list
                    levels_occupations_v1.2) = true →
            skip (first_match test (take 2 levels_occupations_v1.1 ++
                    _skip "rejected_role_only" _REJECTED_ROLE_ONLY :: drop 2 levels_occupations_v1.1)%list
                    levels_occupations_v1.2) = true).
    rewrite !first_match_app. destruct (existsb test _); [done|]. intros Hk.
    apply (H [_skip "rejected_role_only" _REJECTED_ROLE_ONLY]); [by repeat constructor|done].
Qed.
