(* ===== verification/Taxonomy.v ===== *)
(** * Groups of rejection reasons ([core.reason_taxonomy])

    The groups a reason falls in, in Python and through the pattern SQL matches. *)

From S2P Require Import Prelude PyStr Sql Regex Screening ScreenProps.
From Stdlib Require Import Ascii.

Local Open Scope string_scope.
Local Open Scope Z_scope.

Record Group : Type := mkGroup {
  key : string;
  label : string;
  pattern : string;
}.

Definition pay_undisclosed : Group := mkGroup "pay_undisclosed" "Pay not disclosed" (
  "\bno\s+(disclosed|stated|listed|published|posted)\b|\b(no|not|without|lacks?|" ++
  "missing)\b[^.;]{0,25}\b(pay|salary|comp\w*|wage|tc)\b|\b(pay|salary|comp\w*|wage|" ++
  "tc)\b[^.;]{0,30}\b(not|un|missing|absent)\s*(disclos|listed|stated|specified|provided|" ++
  "given|published|available)?|undisclosed|unclear (total )?comp|cannot (confirm|verify|" ++
  "determine)[^.;]{0,40}(pay|comp|salary|tc|\$|threshold|tier|bar a)").

Definition pay_below : Group := mkGroup "pay_below" "Pay below threshold" (
  "below|under\s*\$|less than|tops? (out )?at|beneath|short of|well under|<\s*~?\$?\s*\d|" ++
  "\(\s*<|does not (meet|reach)|fails? the \$|bar a (fail|:)|annualizes? to|requires? ≥").

Definition not_engineering : Group := mkGroup "not_engineering" "Not an engineering role" (
  "non-?(engineering|tech|software)|not (a |an )?(software|engineering|tech)|" ++
  "lacks? [^.;]{0,40}(backend|software|engineering|systems)|minimal (software|" ++
  "engineering|overlap)|bar b (fail|:)|(low|unclear|little|no) [^.;]{0,15}overlap|" ++
  "not aligned|not matching").

Definition seniority : Group := mkGroup "seniority" "Seniority or experience mismatch" (
  "\d+\+?\s*(-|to|\u2013)?\s*\d*\s*years?\s+(of\s+)?experience|senior|not entry|" ++
  "new.?grad|first.?year|mid-?level|staff engineer|principal").

Definition education : Group := mkGroup "education" "Education requirement" (
  "\bph\.?d\b|master'?s|doctorate|mba\b").

Definition location : Group := mkGroup "location" "Location or work authorisation" (
  "outside (the )?us|not us|non-?us|onsite|on-site|relocat|visa|abroad|international").

Definition stack_mismatch : Group := mkGroup "stack_mismatch" "Tech stack mismatch" (
  "candidate (lacks|has no|shows|profile)|no [a-z/]+ (experience|background)|mismatch|" ++
  "different (stack|domain)|too vague about tech").

Definition company_tier : Group := mkGroup "company_tier" "Company tier" (
  "elite tier|top-?tier|not .{0,20}tier|company not").

Definition employer_type : Group := mkGroup "employer_type" "Employer type" (
  "staffing|recruiting agency|recruitment|consultanc|not a direct employer|" ++
  "non-?direct employer|agency role").

Definition GROUPS : list Group :=
  [pay_undisclosed; pay_below; not_engineering; seniority; education;
   location; stack_mismatch; company_tier; employer_type].

Definition EVIDENCE_MISSING_PHRASES : list string :=
  ["undisclosed"; "not disclosed"; "not stated"; "not listed"; "not specified"; "no pay";
   "no salary"; "no compensation"; "no wage"; "missing"; "cannot confirm"; "cannot verify";
   "cannot determine"; "unclear"; "unlikely to"; "no information"].

(** [re.escape], for the characters the phrases hold: only a space is escaped. *)
Fixpoint escape_spaces (l : list ascii) : list ascii :=
  match l with
  | " "%char :: l => "\"%char :: " "%char :: escape_spaces l
  | c :: l => c :: escape_spaces l
  | [] => []
  end.

Definition re_escape (s : string) : string := of_chars (escape_spaces (chars s)).

Definition _EVIDENCE_MISSING : string := str_join "|" (map re_escape EVIDENCE_MISSING_PHRASES).

(** [None] and the empty reason match nothing. *)
Definition classify (reason : option string) : list string :=
  match reason with
  | None => []
  | Some r => if String.eqb r "" then []
              else map key (List.filter (λ g, search_text Python true (pattern g) r) GROUPS)
  end.

Definition is_evidence_missing (reason : option string) : bool :=
  match reason with
  | None => false
  | Some r => negb (String.eqb r "") && search_text Python true _EVIDENCE_MISSING r
  end.

Definition _to_sql (p : string) : string := _postgres p.

(** [None] is the KeyError. *)
Definition sql_pattern (k : string) : option string :=
  (λ g, _to_sql (pattern g)) <$> find (λ g, String.eqb (key g) k) GROUPS.

Definition EVIDENCE_MISSING_SQL : string := _to_sql _EVIDENCE_MISSING.

(** [reason ~* pattern], of a column that may be NULL. *)
Definition reason_matches (reason : option string) (p : string) : bool :=
  match reason with
  | Some r => search_text Postgres true p r
  | None => false
  end.

(** ** The two spellings *)

Lemma groups_shared :
  forallb (λ g, shared_pattern (pattern g) && negb (search_text Python true (pattern g) "")) GROUPS &&
  shared_pattern _EVIDENCE_MISSING && negb (search_text Python true _EVIDENCE_MISSING "") = true.
Proof. by vm_compute. Qed.

Lemma search_empty p t :
  search_text Python true p "" = false → String.eqb t "" = true → search_text Python true p t = false.
Proof. by intros H ->%String.eqb_eq. Qed.

Lemma group_keys_unique : NoDup (key <$> GROUPS).
Proof. apply (bool_decide_unpack _); by vm_compute. Qed.

Lemma key_selected (f : Group → bool) gs g :
  NoDup (key <$> gs) → In g gs → f g = true ↔ key g ∈ map key (List.filter f gs).
Proof.
  intros Hd Hin. rewrite list_elem_of_fmap. split.
  - intros H. exists g. split; [done|]. by apply list_elem_of_In, filter_In.
  - intros (g' & E & Hg'). apply list_elem_of_In, filter_In in Hg' as [Hin' H'].
    assert (g = g') as ->; [|done].
    eapply (NoDup_fmap_inj key); [exact Hd|by apply list_elem_of_In..|done].
Qed.

Lemma find_key gs k p :
  (λ g, _to_sql (pattern g)) <$> find (λ g, String.eqb (key g) k) gs = Some p →
  ∃ g, In g gs ∧ key g = k ∧ p = _to_sql (pattern g).
Proof.
  intros H. apply fmap_Some in H as (g & Hf & ->). apply find_some in Hf as [Hin E].
  apply String.eqb_eq in E. eauto.
Qed.

(** the rows [reason ~* sql_pattern(key)] selects are those [classify] puts in the
    group, and likewise for the reasons that rest on missing evidence, on any reason of
    printable characters, NULL and the empty one included. *)
Theorem groups_agree reason k p :
  Forall (λ c, printable c = true) (chars (default "" reason)) →
  sql_pattern k = Some p →
  (reason_matches reason p = true ↔ k ∈ classify reason) ∧
  reason_matches reason EVIDENCE_MISSING_SQL = is_evidence_missing reason.
Proof.
  intros Hr Hk. pose proof groups_shared as Hs.
  apply andb_true_iff in Hs as [[Hg He]%andb_true_iff Hn]. rewrite forallb_forall in Hg.
  destruct reason as [r|]; cbn [reason_matches classify is_evidence_missing from_option] in *;
    [|split; [|done]; split; [done|by intros []%elem_of_nil]].
  apply find_key in Hk as (g & Hin & <- & ->). split.
  - destruct (andb_prop _ _ (Hg g Hin)) as [Hsh Hem]. unfold _to_sql.
    rewrite search_shared by done. destruct (String.eqb r "") eqn:Er.
    + rewrite (search_empty _ _ (proj1 (negb_true_iff _) Hem) Er). split; [done|by intros []%elem_of_nil].
    + exact (key_selected (λ g, search_text Python true (pattern g) r) GROUPS g group_keys_unique Hin).
  - unfold EVIDENCE_MISSING_SQL, _to_sql. rewrite search_shared by done.
    destruct (String.eqb r "") eqn:Er; [|done]. cbn [negb andb].
    by rewrite (search_empty _ _ (proj1 (negb_true_iff _) Hn) Er).
Qed.

Definition demo_reason : string := "Salary not listed, and 5+ years of experience".

Lemma groups_agree_witness :
  reason_matches (Some demo_reason) (_to_sql (pattern seniority)) = true ∧
  "seniority" ∈ classify (Some demo_reason).
Proof.
  assert (sql_pattern "seniority" = Some (_to_sql (pattern seniority))) as Hp by by vm_compute.
  assert (Forall (λ c, printable c = true) (chars (default "" (Some demo_reason)))) as Hc
    by (apply (bool_decide_unpack _); by vm_compute).
  assert (reason_matches (Some demo_reason) (_to_sql (pattern seniority)) = true) as H by by vm_compute.
  destruct (groups_agree (Some demo_reason) "seniority" (_to_sql (pattern seniority)) Hc Hp) as [[H1 _] _].
  split; [exact H|exact (H1 H)].
Defined.
