(* ===== verification/Selection.v ===== *)
(** * Which sources reach whom ([api.source_selection])

    People's picks, the bundles they follow and the boards a managed board reads. A
    person's sources are the view [user_source_set]: their picks and the active
    members of every bundle they follow. Each function is one transaction, which the
    person's row serializes. *)

From S2P Require Import Prelude Sql Tasks Queue Catalog.

Local Open Scope string_scope.
Local Open Scope Z_scope.

(** ** Tables *)

Record source_group : Type := mkGroup {
  g_members : list string;
  g_description : string;
  g_active : bool;
  g_created_at : Z;
}.

Record selections : Type := mkSelections {
  user_sources : gset (Z * string);
  user_source_groups : gset (Z * string);
  source_groups : gmap string source_group;
  managed_board_sources : gset (Z * string);
  sources : gmap string source;
}.

Definition with_picks (p : gset (Z * string)) (s : selections) : selections :=
  mkSelections p (user_source_groups s) (source_groups s) (managed_board_sources s) (sources s).
Definition with_follows (f : gset (Z * string)) (s : selections) : selections :=
  mkSelections (user_sources s) f (source_groups s) (managed_board_sources s) (sources s).
Definition with_groups (g : gmap string source_group) (s : selections) : selections :=
  mkSelections (user_sources s) (user_source_groups s) g (managed_board_sources s) (sources s).
Definition with_board_sources (b : gset (Z * string)) (s : selections) : selections :=
  mkSelections (user_sources s) (user_source_groups s) (source_groups s) b (sources s).

Definition active_source (s : selections) (name : string) : bool :=
  match sources s !! name with
  | Some r => s_active r
  | None => false
  end.

(** ** The views *)

(** The second components of the pairs that start with [k]. *)
Definition values_of (k : Z) (t : gset (Z * string)) : gset string :=
  set_map snd (filter (λ p, p.1 = k) t).

Definition pairs_of (k : Z) (names : gset string) : gset (Z * string) := set_map (λ n, (k, n)) names.

(** The boards a bundle offers that are switched on. *)
Definition active_members (s : selections) (g : string) : gset string :=
  match source_groups s !! g with
  | Some r => list_to_set (filter (λ m, active_source s m = true) (g_members r))
  | None => ∅
  end.

Definition reach_of (s : selections) (groups : gset string) : gset string :=
  ⋃ (map (active_members s) (elements groups)).

(** [user_followed_sources] and [user_source_set], of one person. *)
Definition followed_sources (s : selections) (user : Z) : gset string :=
  reach_of s (values_of user (user_source_groups s)).

Definition user_source_set (s : selections) (user : Z) : gset string :=
  values_of user (user_sources s) ∪ followed_sources s user.

Definition held (s : selections) (user : Z) : list string :=
  merge_sort String.le (elements (user_source_set s user)).

Definition followed (s : selections) (user : Z) : gset string := values_of user (user_source_groups s).

(** ** A person's writes *)

(** [_unfollow]: the DELETE and the INSERT of what each dropped bundle reached. *)
Definition _unfollow (user : Z) (groups : gset string) (s : selections) : selections :=
  let dropped := values_of user (user_source_groups s) ∩ groups in
  with_picks (user_sources s ∪ pairs_of user (reach_of s dropped))
    (with_follows (user_source_groups s ∖ pairs_of user dropped) s).

(** The bundles with an active member to remove. *)
Definition groups_offering (s : selections) (remove : gset string) : gset string :=
  filter (λ g, active_members s g ∩ remove ≠ ∅) (dom (source_groups s)).

Definition change (user : Z) (add remove : gset string) (s : selections)
    : selections * (list string * list string) :=
  let adding := add in
  let removing := remove ∖ adding in
  let touched := adding ∪ removing in
  let before := touched ∩ user_source_set s user in
  let s := _unfollow user (groups_offering s removing) s in
  let s := with_picks (user_sources s ∖ pairs_of user removing) s in
  let s := with_picks (user_sources s ∪ pairs_of user adding) s in
  let after := touched ∩ user_source_set s user in
  (s, (merge_sort String.le (elements (after ∖ before)),
       merge_sort String.le (elements (before ∖ after)))).

Definition drop_user (user : Z) (t : gset (Z * string)) : gset (Z * string) :=
  filter (λ p, p.1 ≠ user) t.

Definition replace (user : Z) (names : gset string) (s : selections) : selections :=
  with_picks (drop_user user (user_sources s) ∪ pairs_of user names)
    (with_follows (drop_user user (user_source_groups s)) s).

Definition join_group (user : Z) (group : string) (only : bool) (s : selections) : selections :=
  let s :=
    if only
    then with_picks (filter (λ p, ¬ (p.1 = user ∧ active_source s p.2 = true)) (user_sources s))
           (with_follows (drop_user user (user_source_groups s)) s)
    else s in
  with_follows (user_source_groups s ∪ {[ (user, group) ]}) s.

(** ** Managed boards, bundles, and a source leaving the catalog *)

Definition set_board_sources (board : Z) (names : list string) (s : selections) : selections :=
  with_board_sources (drop_user board (managed_board_sources s) ∪ pairs_of board (list_to_set names)) s.

Definition save_group (now : Z) (name : string) (members : option (list string))
    (description : option string) (active : option bool) (s : selections) : selections * source_group :=
  let g :=
    match source_groups s !! name with
    | None => mkGroup (default [] members) (default "" description) (default true active) now
    | Some g => mkGroup (default (g_members g) members) (default (g_description g) description)
                  (default (g_active g) active) (g_created_at g)
    end in
  (with_groups (<[name := g]> (source_groups s)) s, g).

(** [None] of the RETURNING is [false]. The follows of a deleted bundle go with it. *)
Definition followers (name : string) (s : selections) : list Z :=
  merge_sort (≤) (elements (set_map (D := gset Z) fst (filter (λ p, p.2 = name) (user_source_groups s)))).

Definition delete_group (name : string) (s : selections) : selections * bool :=
  let s := foldl (λ s u, _unfollow u {[ name ]} s) s (followers name s) in
  (with_groups (delete name (source_groups s))
     (with_follows (filter (λ p, p.2 ≠ name) (user_source_groups s)) s),
   bool_decide (is_Some (source_groups s !! name))).

Definition forget_source (name : string) (s : selections) : selections :=
  with_board_sources (filter (λ p, p.2 ≠ name) (managed_board_sources s))
    (with_groups ((λ g, mkGroup (filter (λ m, m ≠ name) (g_members g)) (g_description g) (g_active g)
                          (g_created_at g)) <$> source_groups s)
       (with_picks (filter (λ p, p.2 ≠ name) (user_sources s)) s)).

(** ** Lemmas *)

Lemma elem_of_values k t n : n ∈ values_of k t ↔ (k, n) ∈ t.
Proof.
  unfold values_of. rewrite elem_of_map. split.
  - intros ([k' n'] & -> & H). apply elem_of_filter in H as [Hk H]. simpl in *. by subst.
  - intros H. exists (k, n). split; [done|]. by apply elem_of_filter.
Qed.

Lemma elem_of_pairs k names p : p ∈ pairs_of k names ↔ p.1 = k ∧ p.2 ∈ names.
Proof. unfold pairs_of. rewrite elem_of_map. destruct p as [a b]. naive_solver. Qed.

Lemma elem_of_drop k t p : p ∈ drop_user k t ↔ p.1 ≠ k ∧ p ∈ t.
Proof. unfold drop_user. by rewrite elem_of_filter. Qed.

Lemma elem_of_reach s gs n : n ∈ reach_of s gs ↔ ∃ g, g ∈ gs ∧ n ∈ active_members s g.
Proof.
  unfold reach_of. rewrite elem_of_union_list. setoid_rewrite list_elem_of_fmap. split.
  - intros (X & (g & -> & Hg) & Hn). exists g. by apply elem_of_elements in Hg.
  - intros (g & Hg & Hn). exists (active_members s g). split; [|done]. exists g. by rewrite elem_of_elements.
Qed.

Lemma elem_of_held s u n :
  n ∈ user_source_set s u ↔
  (u, n) ∈ user_sources s ∨ ∃ g, (u, g) ∈ user_source_groups s ∧ n ∈ active_members s g.
Proof.
  unfold user_source_set, followed_sources. rewrite elem_of_union, elem_of_values, elem_of_reach.
  by setoid_rewrite elem_of_values.
Qed.

Lemma members_with_follows s f g : active_members (with_follows f s) g = active_members s g.
Proof. done. Qed.
Lemma members_with_picks s p g : active_members (with_picks p s) g = active_members s g.
Proof. done. Qed.

(** Leaving a bundle this way keeps what it reached. *)
Lemma unfollow_held s u gs v : user_source_set (_unfollow u gs s) v = user_source_set s v.
Proof.
  apply set_eq. intros n. rewrite !elem_of_held. unfold _unfollow. cbn [with_picks with_follows user_sources user_source_groups].
  setoid_rewrite members_with_picks. setoid_rewrite members_with_follows.
  setoid_rewrite elem_of_difference. setoid_rewrite elem_of_union. setoid_rewrite elem_of_pairs.
  setoid_rewrite elem_of_reach. setoid_rewrite elem_of_intersection. setoid_rewrite elem_of_values.
  cbn [fst snd]. split.
  - intros [[?|[-> (g & [Hg _] & Hn)]]|(g & [Hg _] & Hn)]; [by left|right..]; eauto.
  - intros [?|(g & Hg & Hn)]; [by left; left|]. destruct (decide (v = u ∧ g ∈ gs)) as [[-> Hin]|Hno].
    + left. right. split; [done|]. exists g. done.
    + right. exists g. split; [|done]. split; [done|]. naive_solver.
Qed.

Lemma elem_of_offering s remove g :
  g ∈ groups_offering s remove ↔ ∃ n, n ∈ active_members s g ∧ n ∈ remove.
Proof.
  unfold groups_offering. rewrite elem_of_filter, elem_of_dom. split.
  - intros [Hne _]. apply set_choose_L in Hne as [n Hn]. set_solver.
  - intros (n & Hn & Hr). split; [set_solver|]. unfold active_members in Hn.
    destruct (source_groups s !! g); [eauto|set_solver].
Qed.

Lemma change_held user add remove s v :
  user_source_set (change user add remove s).1 v =
  if decide (v = user) then (user_source_set s user ∖ (remove ∖ add)) ∪ add else user_source_set s v.
Proof.
  apply set_eq. intros n. unfold change. cbn [fst].
  set (removing := remove ∖ add). set (s1 := _unfollow user (groups_offering s removing) s).
  rewrite elem_of_held. cbn [with_picks user_sources user_source_groups].
  assert (∀ g, active_members (with_picks (user_sources s1 ∖ pairs_of user removing ∪ pairs_of user add)
                 (with_picks (user_sources s1 ∖ pairs_of user removing) s1)) g = active_members s g) as Hm by done.
  setoid_rewrite Hm. rewrite elem_of_union, elem_of_difference, !elem_of_pairs. cbn [fst snd].
  pose proof (unfollow_held s user (groups_offering s removing) v) as Hh. fold s1 in Hh.
  rewrite set_eq in Hh. specialize (Hh n). rewrite elem_of_held in Hh.
  assert (∀ g, active_members s1 g = active_members s g) as Hm1 by done. setoid_rewrite Hm1 in Hh.
  assert (∀ g, (user, g) ∈ user_source_groups s1 → n ∈ active_members s g → n ∉ removing) as Hno.
  { intros g Hg Hn Hr. unfold s1, _unfollow in Hg. cbn [with_picks with_follows user_source_groups] in Hg.
    rewrite elem_of_difference, elem_of_pairs, elem_of_intersection, elem_of_values in Hg. cbn [fst snd] in Hg.
    destruct Hg as [Hg Hno]. apply Hno. split; [done|]. split; [done|]. apply elem_of_offering. eauto. }
  destruct (decide (v = user)) as [->|Hne].
  - rewrite elem_of_union, elem_of_difference. split.
    + intros [[[Hp Hnr]|[_ Ha]]|(g & Hg & Hn)]; [left|by right|left].
      * split; [apply Hh; by left|]. intros Hr. by apply Hnr.
      * split; [apply Hh; right; eauto|by eapply Hno].
    + intros [[H Hr]|Ha]; [|by left; right]. apply Hh in H as [?|?]; [|by right]. left. left.
      split; [done|]. by intros [_ ?].
  - rewrite <- Hh. naive_solver.
Qed.

Lemma replace_held user names s v :
  user_source_set (replace user names s) v = if decide (v = user) then names else user_source_set s v.
Proof.
  apply set_eq. intros n. unfold replace. rewrite elem_of_held.
  cbn [with_picks with_follows user_sources user_source_groups].
  setoid_rewrite members_with_picks. setoid_rewrite members_with_follows.
  setoid_rewrite elem_of_drop. rewrite elem_of_union, elem_of_drop, elem_of_pairs. cbn [fst snd].
  destruct (decide (v = user)) as [->|Hne]; [naive_solver|]. rewrite elem_of_held. naive_solver.
Qed.

Lemma join_held user group only s v :
  user_source_set (join_group user group only s) v =
  if decide (v = user)
  then (if only then filter (λ n, active_source s n = false) (values_of user (user_sources s))
        else user_source_set s user) ∪ active_members s group
  else user_source_set s v.
Proof.
  apply set_eq. intros n. unfold join_group. destruct only; rewrite elem_of_held;
    cbn [with_picks with_follows user_sources user_source_groups];
    setoid_rewrite elem_of_union; setoid_rewrite elem_of_singleton.
  - change (∃ g, ((v, g) ∈ drop_user user (user_source_groups s) ∨ (v, g) = (user, group)) ∧ n ∈ active_members _ g)
      with (∃ g, ((v, g) ∈ drop_user user (user_source_groups s) ∨ (v, g) = (user, group)) ∧ n ∈ active_members s g).
    setoid_rewrite elem_of_drop. rewrite elem_of_filter. cbn [fst snd].
    destruct (decide (v = user)) as [->|Hne].
    + rewrite elem_of_union, elem_of_filter, elem_of_values. destruct (active_source s n); naive_solver.
    + rewrite elem_of_held. naive_solver.
  - change (∃ g, ((v, g) ∈ user_source_groups s ∨ (v, g) = (user, group)) ∧ n ∈ active_members _ g)
      with (∃ g, ((v, g) ∈ user_source_groups s ∨ (v, g) = (user, group)) ∧ n ∈ active_members s g).
    destruct (decide (v = user)) as [->|Hne]; rewrite ?elem_of_union, elem_of_held; naive_solver.
Qed.

(** The bundle's followers leave it, keeping what it reached; then it goes. *)
Lemma unfollows_held gs us s v :
  user_source_set (foldl (λ s u, _unfollow u gs s) s us) v = user_source_set s v.
Proof. revert s. induction us as [|u us IH]; intros s; [done|]. simpl. by rewrite IH, unfollow_held. Qed.

Lemma unfollows_follows gs us s u g :
  (u, g) ∈ user_source_groups (foldl (λ s u, _unfollow u gs s) s us) →
  (u, g) ∈ user_source_groups s ∧ ¬ (u ∈ us ∧ g ∈ gs).
Proof.
  revert s. induction us as [|w us IH]; intros s; simpl.
  - intros H. split; [done|]. by intros [[]%elem_of_nil _].
  - intros [H Hn]%IH. unfold _unfollow in H. cbn [with_picks with_follows user_source_groups] in H.
    rewrite elem_of_difference, elem_of_pairs, elem_of_intersection, elem_of_values in H. cbn [fst snd] in H.
    destruct H as [H Hno]. split; [done|]. intros [[->|Hu]%elem_of_cons Hg]; [|by apply Hn].
    by apply Hno.
Qed.

Lemma unfollows_tables gs us s :
  source_groups (foldl (λ s u, _unfollow u gs s) s us) = source_groups s ∧
  sources (foldl (λ s u, _unfollow u gs s) s us) = sources s.
Proof. revert s. induction us as [|u us IH]; intros s; [done|]. simpl. by destruct (IH (_unfollow u gs s)) as [-> ->]. Qed.

Lemma delete_group_held name s v :
  user_source_set (delete_group name s).1 v = user_source_set s v.
Proof.
  unfold delete_group. cbn [fst]. set (s1 := foldl _ s _).
  transitivity (user_source_set s1 v); [|apply unfollows_held].
  apply set_eq. intros n. rewrite !elem_of_held. cbn [with_groups with_follows user_sources user_source_groups].
  setoid_rewrite elem_of_filter. cbn [snd].
  assert (∀ g, g ≠ name → active_members (with_groups (delete name (source_groups s1))
            (with_follows (filter (λ p, p.2 ≠ name) (user_source_groups s1)) s1)) g = active_members s1 g) as Hm.
  { intros g Hg. unfold active_members. cbn [with_groups source_groups].
    by rewrite lookup_delete_ne. }
  assert (∀ u, (u, name) ∈ user_source_groups s1 → False) as Hno.
  { intros u H. unfold s1 in H. apply unfollows_follows in H as [H Hn]. apply Hn. split; [|set_solver].
    unfold followers. rewrite merge_sort_Permutation, elem_of_elements, elem_of_map.
    exists (u, name). split; [done|]. by apply elem_of_filter. }
  split; (intros [?|(g & Hg & Hn)]; [by left|right; exists g]).
  - destruct Hg as [Hne Hg]. by rewrite Hm in Hn.
  - destruct (decide (g = name)) as [->|Hne]; [by apply Hno in Hg|]. by rewrite Hm.
Qed.

Lemma forget_held name s v : user_source_set (forget_source name s) v = user_source_set s v ∖ {[ name ]}.
Proof.
  apply set_eq. intros n. rewrite elem_of_difference, elem_of_singleton, !elem_of_held.
  unfold forget_source. cbn [with_groups with_picks with_board_sources user_sources user_source_groups].
  rewrite elem_of_filter. cbn [snd].
  assert (∀ g, n ∈ active_members (with_board_sources (filter (λ p, p.2 ≠ name) (managed_board_sources s))
     (with_groups ((λ g, mkGroup (filter (λ m, m ≠ name) (g_members g)) (g_description g) (g_active g)
                          (g_created_at g)) <$> source_groups s)
       (with_picks (filter (λ p, p.2 ≠ name) (user_sources s)) s))) g ↔ n ∈ active_members s g ∧ n ≠ name) as Hm.
  { intros g. unfold active_members. cbn [with_groups with_picks with_board_sources source_groups].
    rewrite lookup_fmap. destruct (source_groups s !! g) as [r|]; simpl; [|set_solver].
    rewrite !elem_of_list_to_set, !list_elem_of_filter.
    change (active_source _ n) with (active_source s n). naive_solver. }
  setoid_rewrite Hm. naive_solver.
Qed.

(** what each write does to the sources that reach people. [change] takes away
    what is removed and not also added, and adds the rest, though a removed board came
    from a bundle; it reports exactly the difference. [replace] leaves the names given;
    joining a bundle adds its active boards, keeping of the rest only boards switched
    off when it is to be the only one. Deleting a bundle changes nobody's set, and a
    source that leaves the catalog is taken from everybody's. *)
Theorem source_set_after s user v :
  (∀ add remove,
     user_source_set (change user add remove s).1 v =
       (if decide (v = user) then (user_source_set s user ∖ (remove ∖ add)) ∪ add else user_source_set s v) ∧
     (change user add remove s).2 =
       (merge_sort String.le (elements (add ∖ user_source_set s user)),
        merge_sort String.le (elements ((remove ∖ add) ∩ user_source_set s user)))) ∧
  (∀ names, user_source_set (replace user names s) v =
     if decide (v = user) then names else user_source_set s v) ∧
  (∀ group only, user_source_set (join_group user group only s) v =
     if decide (v = user)
     then (if only then filter (λ n, active_source s n = false) (values_of user (user_sources s))
           else user_source_set s user) ∪ active_members s group
     else user_source_set s v) ∧
  (∀ name, user_source_set (delete_group name s).1 v = user_source_set s v) ∧
  (∀ name, user_source_set (forget_source name s) v = user_source_set s v ∖ {[ name ]}).
Proof.
  split_and!; [|intros; apply replace_held|intros; apply join_held|intros; apply delete_group_held
              |intros; apply forget_held].
  intros add remove. split; [apply change_held|].
  pose proof (change_held user add remove s user) as H. rewrite decide_True in H by done.
  unfold change in *. cbn [fst snd] in *. rewrite H.
  f_equal; f_equal; f_equal; apply set_eq; intros n;
    rewrite ?elem_of_difference, ?elem_of_intersection, ?elem_of_union, ?elem_of_difference;
    destruct (decide (n ∈ add)), (decide (n ∈ remove)), (decide (n ∈ user_source_set s user)); naive_solver.
Qed.
