(* ===== verification/Verdicts.v ===== *)
(** * Reading decided answers ([core.verdict_reads], [core.store])

    The answers table newest first, the view of the decided ones, and the reads of the
    latest answer: for one posting, per key, and over a set of postings. *)

From S2P Require Import Prelude Sql.

Local Open Scope string_scope.
Local Open Scope Z_scope.

(** [ai_queries], less the columns no read here names. *)
Record answer : Type := mkAnswer {
  a_url : string;
  a_check_type : string;
  a_status : string;
  a_reason : option string;
  a_config_name : option string;
  a_model : option string;
  a_prompt_hash : option string;
  a_filter_name : option string;
  a_parsed_json : option string;
  a_request_sha256 : option string;
  a_created_at : Z;
}.

(** The [verdicts] view over the table, newest first. *)
Definition decided (a : answer) : bool :=
  negb (String.eqb (a_check_type a) "content") &&
  (String.eqb (a_status a) "passed" || String.eqb (a_status a) "rejected").

Definition verdicts (answers : list answer) : list answer := List.filter decided answers.

(** [column = value], of a nullable column. *)
Definition column_is (c : option string) (v : string) : bool := bool_decide (c = Some v).

Definition opt_test {A} (o : option A) (p : A → bool) : bool :=
  match o with
  | Some a => p a
  | None => true
  end.

(** The WHERE of [latest]. *)
Definition about (url check : string) (prompt_hash model : option string) (a : answer) : bool :=
  String.eqb (a_url a) url && String.eqb (a_check_type a) check &&
  opt_test prompt_hash (column_is (a_prompt_hash a)) && opt_test model (column_is (a_model a)).

Definition latest (url check : string) (prompt_hash model : option string) (answers : list answer)
    : option answer :=
  find (about url check prompt_hash model) (verdicts answers).

(** [DISTINCT ON (key) ... ORDER BY key, id DESC]: the first row of each key. *)
Fixpoint distinct_on {K} `{EqDecision K} (key : answer → K) (seen : list K) (l : list answer) : list answer :=
  match l with
  | [] => []
  | a :: l => if mem (key a) seen then distinct_on key seen l
              else a :: distinct_on key (key a :: seen) l
  end.

Definition latest_per {K} `{EqDecision K} (key : answer → K) (where_ : answer → bool)
    (answers : list answer) : list answer :=
  distinct_on key [] (List.filter where_ (verdicts answers)).

Definition latest_status (url check : string) (prompt_hash : option string) (answers : list answer)
    : option string :=
  a_status <$> latest url check prompt_hash None answers.

Inductive Openness : Type := Open | Closed.

Definition closed_verdict (url : string) (answers : list answer) : option Openness :=
  match latest_status url "closed" None answers with
  | Some s => if String.eqb s "passed" then Some Open
              else if String.eqb s "rejected" then Some Closed else None
  | None => None
  end.

Definition has_verdict (url check : string) (answers : list answer) : bool :=
  existsb (about url check None None) (verdicts answers).

Definition status_is (s : string) (o : option string) : bool := bool_decide (o = Some s).

Definition verified_open (url : string) (answers : list answer) : bool :=
  status_is "passed" (latest_status url "closed" None answers) &&
  status_is "passed" (latest_status url "clearance" None answers).

(** The columns a reader is given. *)
Record LatestVerdict : Type := mkLatestVerdict {
  lv_status : string;
  lv_reason : option string;
  lv_config_name : option string;
  lv_model : option string;
  lv_created_at : Z;
  lv_request_sha256 : option string;
}.

Definition latest_verdict (a : answer) : LatestVerdict :=
  mkLatestVerdict (a_status a) (a_reason a) (a_config_name a) (a_model a) (a_created_at a)
    (a_request_sha256 a).

Definition read_latest (url check : string) (prompt_hash model : option string) (answers : list answer)
    : option LatestVerdict :=
  latest_verdict <$> latest url check prompt_hash model answers.

(** [latest_checks]: the dict of dicts, as a lookup. *)
Definition checks_rows (urls checks : list string) (answers : list answer) : list answer :=
  latest_per (λ a, (a_url a, a_check_type a))
    (λ a, mem (a_url a) urls && mem (a_check_type a) checks) answers.

Definition latest_checks (urls checks : list string) (answers : list answer)
    : gmap string (gmap string LatestVerdict) :=
  foldl (λ out a, <[a_url a := <[a_check_type a := latest_verdict a]> (default ∅ (out !! a_url a))]> out)
    ∅ (checks_rows urls checks answers).

(** [decided_custom_urls], of a prompt and, when given, of some models. *)
Definition decided_custom_urls (urls : list string) (prompt_hash : string) (models : option (list string))
    (answers : list answer) : list string :=
  map a_url
    (latest_per a_url
       (λ a, mem (a_url a) urls && String.eqb (a_check_type a) "custom" &&
             column_is (a_prompt_hash a) prompt_hash &&
             opt_test models (λ ms, match a_model a with Some m => mem m ms | None => false end))
       answers).

(** ** Lemmas *)

Lemma find_first_eq {A} (P Q : A → bool) l : (∀ x, In x l → P x = Q x) → find P l = find Q l.
Proof.
  induction l as [|x l IH]; intros H; [done|]. simpl. rewrite (H x) by by left. destruct (Q x); [done|].
  apply IH. intros y Hy. apply H. by right.
Qed.

Lemma find_filter {A} (P Q : A → bool) l : find P (List.filter Q l) = find (λ x, Q x && P x) l.
Proof. induction l as [|x l IH]; [done|]. simpl. destruct (Q x); simpl; by rewrite IH. Qed.

Section keys.
Context {K : Type} `{EqDecision K} (key : answer → K).

Lemma distinct_on_elem seen l a :
  a ∈ distinct_on key seen l ↔
  key a ∉ seen ∧ find (λ x, bool_decide (key x = key a)) l = Some a.
Proof.
  revert seen. induction l as [|b l IH]; intros seen; simpl.
  - split; [by intros []%elem_of_nil|by intros [_ ?]].
  - unfold mem. destruct (bool_decide (key b ∈ seen)) eqn:E; breflect.
    + rewrite IH. destruct (bool_decide (key b = key a)) eqn:Ek; breflect; [|done].
      rewrite <- Ek. split; [by intros [? _]|by intros [? _]].
    + rewrite elem_of_cons, IH. destruct (bool_decide (key b = key a)) eqn:Ek; breflect.
      * split.
        -- intros [->|[Hn _]]; [done|]. exfalso. apply Hn. rewrite Ek. constructor.
        -- intros [_ [= ->]]. by left.
      * split.
        -- intros [->|[Hn Hf]]; [done|]. split; [set_solver|done].
        -- intros [Hn Hf]. right. split; [|done]. set_solver.
Qed.

(** One row per key: the newest that the WHERE selects. *)
Lemma latest_per_elem where_ answers a :
  a ∈ latest_per key where_ answers ↔
  find (λ x, where_ x && bool_decide (key x = key a)) (verdicts answers) = Some a.
Proof.
  unfold latest_per. rewrite distinct_on_elem, find_filter. set_solver.
Qed.

Lemma distinct_on_keys seen l : NoDup (key <$> distinct_on key seen l) ∧ ∀ a, a ∈ distinct_on key seen l → key a ∉ seen.
Proof.
  revert seen. induction l as [|b l IH]; intros seen; simpl.
  - split; [constructor|by intros a []%elem_of_nil].
  - destruct (mem (key b) seen) eqn:E; unfold mem in E; breflect; [apply IH|].
    destruct (IH (key b :: seen)) as [Hd Hs]. split.
    + csimpl. constructor; [|done]. intros (a & Ea & Ha)%list_elem_of_fmap. apply Hs in Ha. set_solver.
    + intros a [->|Ha]%elem_of_cons; [done|]. apply Hs in Ha. set_solver.
Qed.
End keys.

(** The latest answer per posting and check is the latest answer to each. *)
Lemma latest_per_latest where_ answers url check a :
  (∀ x, a_url x = url → a_check_type x = check → where_ x = true) →
  latest url check None None answers = Some a ↔
  a ∈ latest_per (λ a, (a_url a, a_check_type a)) where_ answers ∧ a_url a = url ∧ a_check_type a = check.
Proof.
  intros Hw. unfold latest. rewrite latest_per_elem. split.
  - intros H. pose proof (find_some _ _ H) as [_ Ha]. unfold about in Ha. simpl in Ha.
    rewrite !andb_true_r in Ha. breflect.
    repeat match goal with H : String.eqb _ _ = true |- _ => apply String.eqb_eq in H end. split; [|done].
    rewrite <- H. apply find_first_eq. intros x _. unfold about. simpl. rewrite !andb_true_r.
    destruct (String.eqb_spec (a_url x) url) as [E1|], (String.eqb_spec (a_check_type x) check) as [E2|]; simpl.
    + rewrite (Hw x E1 E2). simpl. apply bool_decide_eq_true. congruence.
    + rewrite bool_decide_eq_false_2 by congruence. apply andb_false_r.
    + rewrite bool_decide_eq_false_2 by congruence. apply andb_false_r.
    + rewrite bool_decide_eq_false_2 by congruence. apply andb_false_r.
  - intros (H & <- & <-). rewrite <- H. apply find_first_eq. intros x _. unfold about. simpl.
    rewrite !andb_true_r.
    destruct (String.eqb_spec (a_url x) (a_url a)) as [E1|],
      (String.eqb_spec (a_check_type x) (a_check_type a)) as [E2|]; simpl.
    + rewrite (Hw x E1 E2). simpl. symmetry. apply bool_decide_eq_true. congruence.
    + rewrite bool_decide_eq_false_2 by congruence. by rewrite andb_false_r.
    + rewrite bool_decide_eq_false_2 by congruence. by rewrite andb_false_r.
    + rewrite bool_decide_eq_false_2 by congruence. by rewrite andb_false_r.
Qed.
