(* ===== verification/Visibility.v ===== *)
(** * Board membership ([api.board])

    The criteria of a person's board, the full predicate a task computes, the rows it
    stores and the fast read of them, and the person-owned rows over postings.
    [recompute] reads in one statement and stores in a later transaction, so the model
    has both. Times are microseconds. *)

From S2P Require Import Prelude PyStr Sql Tasks Queue Catalog Selection Verdicts.

Local Open Scope string_scope.
Local Open Scope Z_scope.

(** ** Criteria ([api.board.criteria]) *)

(** Stored criteria; a list that is absent is empty. *)
Record criteria : Type := mkCriteria {
  date_posted_after : option Z;
  max_age_days : option Z;
  excluded_locations : list string;
  included_locations : list string;
  included_terms : list string;
}.

Definition no_criteria : criteria := mkCriteria None None [] [] [].

(** A classified location: its places are (country, region, city). *)
Record place : Type := mkPlace {
  pl_country : option string;
  pl_region : option string;
  pl_city : option string;
}.

Record location : Type := mkLocation {
  lo_country : option string;
  lo_remote : bool;
  lo_places : list place;
}.

(** What a statement is given. *)
Record bindings : Type := mkBindings {
  crit_date : option Z;
  crit_max_age : option Z;
  crit_excl : list string;
  crit_incl : list string;
  crit_terms : list string;
}.

Definition nonempty {A} (l : list A) : bool := match l with [] => false | _ :: _ => true end.

(** [params]: a Python strip, and blank entries dropped. *)
Definition stripped (l : list string) : list string :=
  List.filter (λ s, negb (String.eqb s "")) (map strip l).

Definition params (c : criteria) : bindings :=
  mkBindings (date_posted_after c) (max_age_days c) (stripped (excluded_locations c))
    (stripped (included_locations c)) (stripped (included_terms c)).

(** [btrim] takes spaces only. *)
Definition is_blank (c : Ascii.ascii) : bool := (code c =? 32)%nat.

Definition btrim (s : string) : string :=
  of_chars (rstrip_chars is_blank (lstrip_chars is_blank (chars s))).

Definition trimmed (l : list string) : list string :=
  List.filter (λ s, negb (String.eqb s "")) (map btrim l).

(** The expressions [json_sql] binds in the same predicate. *)
Definition json_sql (c : criteria) : bindings :=
  mkBindings (date_posted_after c) (max_age_days c) (trimmed (excluded_locations c))
    (trimmed (included_locations c)) (trimmed (included_terms c)).

(** SQL equality of nullable text. *)
Definition text_eq (a b : option string) : bool :=
  match a, b with
  | Some x, Some y => String.eqb x y
  | _, _ => false
  end.

Definition level_matches (wanted got : option string) : bool :=
  match wanted with
  | None => true
  | Some _ => text_eq wanted got
  end.

Definition _PLACE_MATCH (x l : location) : bool :=
  (bool_decide (lo_country x = None) && lo_remote x && lo_remote l) ||
  existsb (λ xp, existsb (λ lp, text_eq (pl_country xp) (pl_country lp) &&
                                level_matches (pl_region xp) (pl_region lp) &&
                                level_matches (pl_city xp) (pl_city lp)) (lo_places l)) (lo_places x).

(** Some location of the posting matches some criterion. *)
Definition place_matches (t : gmap string location) (wanted : list string) (j : job) : bool :=
  existsb (λ loc, match t !! btrim loc with
                  | Some l => existsb (λ w, match t !! w with
                                            | Some x => _PLACE_MATCH x l
                                            | None => false
                                            end) wanted
                  | None => false
                  end) (j_locations j).

Definition DAY_MICROS : Z := 24 * 3600 * 1000000.

(** [CONDITIONS], by name, in their order. *)
Definition CONDITIONS (now : Z) (t : gmap string location) (b : bindings) (j : job) : list (string * bool) :=
  [("posted_after", match crit_date b with
                    | None => true
                    | Some _ => sql_le (crit_date b) (j_date_posted j)
                    end);
   ("max_age", match crit_max_age b with
               | None => true
               | Some d => sql_le (Some (now - d * DAY_MICROS))
                             (coalesce (j_date_posted j) (Some (j_created_at j)))
               end);
   ("excluded_locations", negb (nonempty (crit_excl b)) || negb (place_matches t (crit_excl b) j));
   ("included_locations", negb (nonempty (crit_incl b)) || negb (nonempty (j_locations j)) ||
                          place_matches t (crit_incl b) j);
   ("terms", negb (nonempty (crit_terms b)) || existsb (λ s, mem s (crit_terms b)) (j_terms j))].

(** [SQL], or a staged caller's part of it. *)
Definition criteria_admit (names : option (list string)) (now : Z) (t : gmap string location)
    (b : bindings) (j : job) : bool :=
  forallb (λ c : string * bool, negb (opt_test names (mem c.1)) || c.2) (CONDITIONS now t b j).

(** ** Tables of a board *)

Record user_job : Type := mkUserJob {
  uj_status : option string;
  uj_notes : option string;
  uj_size : option string;
  uj_recruiter : option string;
  uj_connection1 : option string;
  uj_connection2 : option string;
  uj_documents : option string;
  uj_hidden : bool;
  uj_person_touched_at : option Z;
  uj_created_at : Z;
  uj_updated_at : Z;
}.

Record user_filter : Type := mkUserFilter {
  uf_id : Z;
  uf_user_id : Z;
  uf_name : string;
  uf_prompt : string;
  uf_on_ambiguous : string;
  uf_prompt_hash : string;
  uf_enabled : bool;
}.

(** Pairs are (user, job). [b_applied]: the tracker applications, with their day.
    [b_settings]: the stored criteria and the sponsorship bypass. *)
Record board : Type := mkBoard {
  b_jobs : gmap Z job;
  b_uploads : gmap Z upload;
  b_user_jobs : gmap (Z * Z) user_job;
  b_applied : gmap (Z * Z) (option Z);
  b_answers : list answer;
  b_filters : list user_filter;
  b_selections : selections;
  b_settings : gmap Z (criteria * bool);
  b_locations : gmap string location;
  b_visible : gmap (Z * Z) Z;
  b_recomputes : gmap Z Z;
}.

Definition with_visible (v : gmap (Z * Z) Z) (r : gmap Z Z) (b : board) : board :=
  mkBoard (b_jobs b) (b_uploads b) (b_user_jobs b) (b_applied b) (b_answers b) (b_filters b)
    (b_selections b) (b_settings b) (b_locations b) v r.
Definition with_user_jobs (u : gmap (Z * Z) user_job) (b : board) : board :=
  mkBoard (b_jobs b) (b_uploads b) u (b_applied b) (b_answers b) (b_filters b)
    (b_selections b) (b_settings b) (b_locations b) (b_visible b) (b_recomputes b).

(** ** Person-owned rows ([api.board.person_state]) *)

(** [COALESCE(column, '') <> '']. *)
Definition filled (c : option string) : bool := negb (String.eqb (default "" c) "").

Definition applied_on (u i : Z) (b : board) : option Z :=
  match b_applied b !! (u, i) with
  | Some d => d
  | None => None
  end.

Definition _ACTED_ON (u i : Z) (r : user_job) (b : board) : bool :=
  filled (uj_status r) || filled (uj_notes r) || bool_decide (is_Some (applied_on u i b)).

Definition UNTOUCHED (u i : Z) (r : user_job) (b : board) : bool :=
  negb (filled (uj_status r)) && bool_decide (applied_on u i b = None) &&
  negb (filled (uj_notes r)) && negb (filled (uj_size r)) && negb (filled (uj_recruiter r)) &&
  negb (filled (uj_connection1 r)) && negb (filled (uj_connection2 r)) &&
  negb (filled (uj_documents r)) && negb (uj_hidden r).

Definition PERSON_STATE (u i : Z) (r : user_job) (b : board) : bool :=
  bool_decide (is_Some (uj_person_touched_at r)) || negb (UNTOUCHED u i r b).

(** [board_row]: the status, the applied day and the hidden flag. *)
Definition board_row (u i : Z) (b : board) : option (option string * option Z * bool) :=
  (λ r, (uj_status r, applied_on u i b, uj_hidden r)) <$> b_user_jobs b !! (u, i).

Definition touched (now : Z) (r : user_job) : user_job :=
  mkUserJob (uj_status r) (uj_notes r) (uj_size r) (uj_recruiter r) (uj_connection1 r)
    (uj_connection2 r) (uj_documents r) (uj_hidden r) (Some now) (uj_created_at r) now.

Definition tracked_row (now : Z) : user_job :=
  mkUserJob None None None None None None None false (Some now) now now.

Definition track_board_row (now u i : Z) (b : board)
    : board * option (option string * option Z * bool) :=
  let b := with_user_jobs
             (<[(u, i) := match b_user_jobs b !! (u, i) with
                          | Some r => touched now r
                          | None => tracked_row now
                          end]> (b_user_jobs b)) b in
  (b, board_row u i b).

Definition touchable_job_ids (u : Z) (ids : list Z) (b : board) : list Z :=
  List.filter (λ i, bool_decide (is_Some (b_jobs b !! i)) &&
                    match b_uploads b !! i with
                    | Some up => u_uploaded_by up =? u
                    | None => true
                    end) ids.

(** ** Eligibility ([api.board.eligibility]) *)

Definition DEFAULT_BYPASS_SPONSORSHIP : bool := true.

Definition settings_of (u : Z) (b : board) : criteria * bool :=
  default (no_criteria, DEFAULT_BYPASS_SPONSORSHIP) (b_settings b !! u).

Definition SUBSCRIBED (u : Z) (j : job) (b : board) : bool :=
  bool_decide ((u, j_source j) ∈ user_sources (b_selections b)) ||
  bool_decide (j_source j ∈ followed_sources (b_selections b) u).

(** [SELECT DISTINCT prompt_hash]. *)
Definition ENABLED_FILTERS (u : Z) (b : board) : list string :=
  remove_dups (map uf_prompt_hash (List.filter (λ f, (uf_user_id f =? u) && uf_enabled f) (b_filters b))).

Definition latest_check (answers : list answer) : list answer :=
  latest_per (λ a, (a_url a, a_check_type a)) (λ a, mem (a_check_type a) ["closed"; "clearance"]) answers.

Definition check_passed (url check : string) (l : list answer) : bool :=
  existsb (λ a, String.eqb (a_url a) url && String.eqb (a_check_type a) check &&
                String.eqb (a_status a) "passed") l.

Definition STRUCTURAL (now : Z) (c : bindings) (bypass : bool) (j : job) (b : board) : bool :=
  IS_AVAILABLE j && criteria_admit None now (b_locations b) c j &&
  check_passed (j_url j) "closed" (latest_check (b_answers b)) &&
  (bypass || check_passed (j_url j) "clearance" (latest_check (b_answers b))).

Definition STRUCTURAL_PER_POSTING (now : Z) (c : bindings) (bypass : bool) (j : job) (b : board) : bool :=
  IS_AVAILABLE j && criteria_admit None now (b_locations b) c j &&
  status_is "passed" (latest_status (j_url j) "closed" None (b_answers b)) &&
  (bypass || status_is "passed" (latest_status (j_url j) "clearance" None (b_answers b))).

(** ** Membership ([api.board.visibility]) *)

Definition _LATEST_FILTER (hashes : list string) (answers : list answer) : list answer :=
  latest_per (λ a, (a_url a, a_prompt_hash a))
    (λ a, String.eqb (a_check_type a) "custom" &&
          match a_prompt_hash a with Some h => mem h hashes | None => false end) answers.

(** [filter_pass]: how many enabled filters a posting's latest verdicts pass. *)
Definition passed_count (url : string) (l : list answer) : nat :=
  length (List.filter (λ a, String.eqb (a_status a) "passed" && String.eqb (a_url a) url) l).

Definition FULL (now u : Z) (b : board) (i : Z) (j : job) : bool :=
  let hashes := ENABLED_FILTERS u b in
  let '(crit, bypass) := settings_of u b in
  match b_uploads b !! i with Some up => u_uploaded_by up =? u | None => false end ||
  match b_user_jobs b !! (u, i) with Some r => _ACTED_ON u i r b | None => false end ||
  (STRUCTURAL now (params crit) bypass j b && SUBSCRIBED u j b &&
   ((length hashes =? 0)%nat ||
    (passed_count (j_url j) (_LATEST_FILTER hashes (b_answers b)) =? length hashes)%nat)).

Definition member_ids (now u : Z) (b : board) : list Z := ids_where (FULL now u b) (b_jobs b).

(** The three branches FAST unites, over the postings that exist. *)
Definition visible_ids (u : Z) (b : board) (i : Z) : bool :=
  bool_decide (is_Some (b_visible b !! (u, i))) ||
  match b_uploads b !! i with Some up => u_uploaded_by up =? u | None => false end ||
  match b_user_jobs b !! (u, i) with Some r => _ACTED_ON u i r b | None => false end.

Definition FAST (u : Z) (b : board) : list Z := ids_where (λ i _, visible_ids u b i) (b_jobs b).

Definition pair_for (i : Z) {A} (m : gmap (Z * Z) A) (P : Z → A → bool) : bool :=
  existsb (λ kv : Z * Z * A, (kv.1.2 =? i) && P kv.1.1 kv.2) (map_to_list m).

Definition across_users (b : board) : list Z :=
  ids_where (λ i _, pair_for i (b_visible b) (λ _ _, true) ||
                    bool_decide (is_Some (b_uploads b !! i)) ||
                    pair_for i (b_user_jobs b) (λ u r, _ACTED_ON u i r b)) (b_jobs b).

(** One [store] transaction: DELETE, INSERT, the clamp, and the record. *)
Definition store (now u : Z) (ids : list Z) (b : board) : board :=
  let kept := filter (λ kv : Z * Z * Z, ¬ (kv.1.1 = u ∧ kv.1.2 ∉ ids)) (b_visible b) in
  let added := foldl (λ m i, match m !! (u, i) with Some _ => m | None => <[(u, i) := now]> m end) kept ids in
  let clamped := map_imap (λ k t, Some (if (k.1 =? u) && (now <? t) then now else t)) added in
  with_visible clamped (<[u := now]> (b_recomputes b)) b.

(** [recompute], with nothing between its read and its transaction. *)
Definition recompute (now u : Z) (b : board) : board * nat :=
  let ids := member_ids now u b in (store now u ids b, length ids).

Definition greatest_opt (a : Z) (b : option Z) : Z := match b with Some x => Z.max a x | None => a end.

(** [MAX(GREATEST(bv.computed_at, bvr.computed_at))]; NULL with no row. *)
Definition computed_at (u : Z) (b : board) : option Z :=
  foldr (λ kv acc, if kv.1.1 =? u
                   then let t := greatest_opt kv.2 (b_recomputes b !! u) in
                        Some (match acc with Some a => Z.max t a | None => t end)
                   else acc) None (map_to_list (b_visible b)).

(** A recompute of the person waits to be claimed. *)
Definition RECOMPUTE_PENDING (u : Z) (m : gmap Z task) : bool :=
  exists_where (λ _ t, String.eqb (t_kind t) "recompute_board" && is_status Pending t &&
                       bool_decide (obj_text (t_payload t) "user_id" = Some (pretty.pretty u))) m.

Definition request_refresh (users : gset Z) (now u : Z) (bucket : string) (w : world) : world :=
  if bool_decide (u ∈ users) && RECOMPUTE_PENDING u (tasks w) then w
  else (enqueue now "recompute_board" {[ "user_id" := JInt u ]}
          (Some ("board:" ++ pretty.pretty u ++ ":" ++ bucket)) w).1.
