(* ===== verification/VisibilityProps.v ===== *)
(** * What a board shows

    The full predicate against the answers it stands for, the two spellings of the
    structural gates, the rows a store leaves, the fast read after a recompute, and the
    two bindings of a person's criteria. *)

From S2P Require Import Prelude PyStr Sql Tasks Queue Catalog Selection Verdicts Visibility.

Local Open Scope string_scope.
Local Open Scope Z_scope.

(** ** The latest answers *)

Lemma check_passed_latest where_ url check answers :
  (∀ x, a_url x = url → a_check_type x = check → where_ x = true) →
  check_passed url check (latest_per (λ a, (a_url a, a_check_type a)) where_ answers)
  = status_is "passed" (latest_status url check None answers).
Proof.
  intros Hw. apply Bool.eq_iff_eq_true. unfold check_passed, status_is, latest_status.
  rewrite existsb_exists, bool_decide_eq_true, fmap_Some. split.
  - intros (a & Ha & Hp). apply list_elem_of_In in Ha.
    apply andb_true_iff in Hp as [Hp Hs]. apply andb_true_iff in Hp as [Hu Hc].
    apply String.eqb_eq in Hu, Hc, Hs. exists a. split; [|done]. by apply (latest_per_latest where_).
  - intros (a & Ha & Hs). apply (latest_per_latest where_) in Ha as (Ha & Hu & Hc); [|done].
    exists a. split; [by apply list_elem_of_In|]. rewrite Hu, Hc, <- Hs, !String.eqb_refl. done.
Qed.

(** The two spellings of the structural gates, one over every posting's latest
    answers and one that looks up each posting's own, admit the same postings. *)
Theorem structural_spellings_agree now c bypass j b :
  STRUCTURAL now c bypass j b = STRUCTURAL_PER_POSTING now c bypass j b.
Proof.
  unfold STRUCTURAL, STRUCTURAL_PER_POSTING, latest_check.
  rewrite !check_passed_latest; [done| |]; by intros x _ ->.
Qed.

(** The latest custom answer to a prompt is the row [_LATEST_FILTER] keeps for it. *)
Lemma latest_filter_elem hashes answers url h a :
  h ∈ hashes →
  latest url "custom" (Some h) None answers = Some a ↔
  a ∈ _LATEST_FILTER hashes answers ∧ a_url a = url ∧ a_prompt_hash a = Some h.
Proof.
  intros Hh. unfold _LATEST_FILTER, latest. rewrite latest_per_elem.
  assert (∀ x, about url "custom" (Some h) None x
               = (String.eqb (a_check_type x) "custom" &&
                  match a_prompt_hash x with Some h => mem h hashes | None => false end) &&
                 bool_decide ((a_url x, a_prompt_hash x) = (url, Some h))) as Heq.
  { intros x. unfold about, column_is, mem. simpl. rewrite andb_true_r.
    destruct (String.eqb_spec (a_url x) url) as [E1|E1]; simpl.
    - destruct (String.eqb (a_check_type x) "custom"); simpl; [|done].
      destruct (decide (a_prompt_hash x = Some h)) as [E|E].
      + rewrite E, !bool_decide_eq_true_2; [done|congruence|done|done].
      + rewrite !bool_decide_eq_false_2 by congruence. by rewrite andb_false_r.
    - rewrite (bool_decide_eq_false_2 ((_, _) = _)) by congruence. by rewrite andb_false_r. }
  split.
  - intros H. pose proof (find_some _ _ H) as [_ Ha]. rewrite Heq in Ha.
    apply andb_true_iff in Ha as [_ Ha]. breflect. injection Ha as Hu Hp.
    split; [|done]. rewrite Hu, Hp, <- H. apply find_first_eq. intros x _. by rewrite Heq.
  - intros (H & Hu & Hp). rewrite Hu, Hp in H. rewrite <- H. apply find_first_eq.
    intros x _. by rewrite Heq.
Qed.

(** Counting the passes of a posting over its distinct prompts. *)
Lemma count_all_keys {K} `{EqDecision K} (hs : list K) (ks : list K) :
  NoDup hs → NoDup ks → ks ⊆ hs → (length ks = length hs ↔ hs ⊆ ks).
Proof.
  intros Hh Hk Hsub. split.
  - intros Hl h Hin. assert (ks ≡ₚ hs) as Hp; [apply submseteq_length_Permutation; [|lia]|by rewrite Hp].
    by apply NoDup_submseteq.
  - intros Hsub'. apply Nat.le_antisymm; apply submseteq_length; by apply NoDup_submseteq.
Qed.

Definition passed_prompts (url : string) (l : list answer) : list (option string) :=
  map a_prompt_hash (List.filter (λ a, String.eqb (a_status a) "passed" && String.eqb (a_url a) url) l).

Lemma passed_prompts_NoDup url (l : list answer) :
  NoDup ((λ a, (a_url a, a_prompt_hash a)) <$> l) → NoDup (passed_prompts url l).
Proof.
  unfold passed_prompts. induction l as [|a l IH]; intros H; [constructor|]. csimpl in H.
  apply NoDup_cons in H as [Hn H]. simpl.
  destruct (String.eqb (a_status a) "passed"), (String.eqb_spec (a_url a) url) as [E|]; simpl; auto.
  constructor; [|auto]. intros (b & Eb & Hb)%list_elem_of_fmap. apply Hn.
  apply list_elem_of_In, filter_In in Hb as [Hb Hp]. apply andb_true_iff in Hp as [_ Hu].
  apply String.eqb_eq in Hu. apply list_elem_of_fmap. exists b. split; [congruence|].
  by apply list_elem_of_In.
Qed.

Lemma passed_prompts_elem url l h :
  h ∈ passed_prompts url l ↔ ∃ a, a ∈ l ∧ a_status a = "passed" ∧ a_url a = url ∧ a_prompt_hash a = h.
Proof.
  unfold passed_prompts. rewrite list_elem_of_fmap. split.
  - intros (a & -> & Ha). apply list_elem_of_In, filter_In in Ha as [Ha Hp].
    apply andb_true_iff in Hp as [Hs Hu]. apply String.eqb_eq in Hs, Hu.
    exists a. split; [by apply list_elem_of_In|done].
  - intros (a & Ha & Hs & Hu & <-). exists a. split; [done|]. apply list_elem_of_In, filter_In.
    split; [by apply list_elem_of_In|]. by rewrite Hs, Hu, !String.eqb_refl.
Qed.

(** Every enabled prompt's latest answer passes, read off the count. *)
Lemma passed_count_all url hashes answers :
  NoDup hashes →
  passed_count url (_LATEST_FILTER hashes answers) = length hashes ↔
  ∀ h, h ∈ hashes → latest_status url "custom" (Some h) answers = Some "passed".
Proof.
  intros Hnd. unfold passed_count. rewrite <- (length_map a_prompt_hash).
  change (map _ _) with (passed_prompts url (_LATEST_FILTER hashes answers)).
  rewrite <- (length_map (@Some string) hashes).
  rewrite count_all_keys; cycle 1.
  - apply NoDup_fmap_2; [apply _|done].
  - apply passed_prompts_NoDup. apply (distinct_on_keys (λ a, (a_url a, a_prompt_hash a))).
  - intros k (a & Ha & _ & _ & <-)%passed_prompts_elem. unfold _LATEST_FILTER in Ha.
    apply latest_per_elem, find_some in Ha as [_ Ha].
    apply andb_true_iff in Ha as [Ha _]. apply andb_true_iff in Ha as [_ Ha].
    destruct (a_prompt_hash a) as [h|]; [|done]. unfold mem in Ha. breflect.
    apply list_elem_of_fmap. eauto.
  - unfold latest_status. split.
    + intros Hsub h Hh. assert (Some h ∈ passed_prompts url (_LATEST_FILTER hashes answers)) as Hp.
      { apply Hsub, list_elem_of_fmap. eauto. }
      apply passed_prompts_elem in Hp as (a & Ha & Hs & Hu & Hk).
      apply fmap_Some. exists a. split; [|done]. by apply (latest_filter_elem hashes).
    + intros Hall k (h & -> & Hh)%list_elem_of_fmap. apply passed_prompts_elem.
      specialize (Hall h Hh). apply fmap_Some in Hall as (a & Ha & Hs).
      apply (latest_filter_elem hashes) in Ha as (Ha & Hu & Hk); [|done]. by exists a.
Qed.

Definition uploaded (u i : Z) (b : board) : Prop :=
  ∃ up, b_uploads b !! i = Some up ∧ u_uploaded_by up = u.

Definition acted_on (u i : Z) (b : board) : Prop :=
  ∃ r, b_user_jobs b !! (u, i) = Some r ∧ _ACTED_ON u i r b = true.

(** What the gates ask of a posting a person follows. *)
Record judged_in (now u : Z) (b : board) (j : job) : Prop := mkJudgedIn {
  in_available : IS_AVAILABLE j = true;
  in_criteria : criteria_admit None now (b_locations b) (params (settings_of u b).1) j = true;
  in_open : latest_status (j_url j) "closed" None (b_answers b) = Some "passed";
  in_clearance : (settings_of u b).2 = true ∨
                 latest_status (j_url j) "clearance" None (b_answers b) = Some "passed";
  in_source : (u, j_source j) ∈ user_sources (b_selections b) ∨
              j_source j ∈ followed_sources (b_selections b) u;
  in_filters : ∀ f, f ∈ b_filters b → uf_user_id f = u → uf_enabled f = true →
               latest_status (j_url j) "custom" (Some (uf_prompt_hash f)) (b_answers b) = Some "passed";
}.

Lemma uploaded_true u i b :
  match b_uploads b !! i with Some up => u_uploaded_by up =? u | None => false end = true ↔ uploaded u i b.
Proof.
  unfold uploaded. destruct (b_uploads b !! i) as [up|]; [rewrite Z.eqb_eq|]; naive_solver.
Qed.

Lemma acted_on_true u i b :
  match b_user_jobs b !! (u, i) with Some r => _ACTED_ON u i r b | None => false end = true ↔ acted_on u i b.
Proof. unfold acted_on. destruct (b_user_jobs b !! (u, i)); naive_solver. Qed.

Lemma elem_of_ENABLED_FILTERS u b h :
  h ∈ ENABLED_FILTERS u b ↔
  ∃ f, f ∈ b_filters b ∧ uf_user_id f = u ∧ uf_enabled f = true ∧ uf_prompt_hash f = h.
Proof.
  unfold ENABLED_FILTERS. rewrite elem_of_remove_dups, list_elem_of_fmap. split.
  - intros (f & -> & Hf). apply list_elem_of_In, filter_In in Hf as [Hf Hp].
    apply andb_true_iff in Hp as [Hu He]. apply Z.eqb_eq in Hu. exists f.
    split; [by apply list_elem_of_In|done].
  - intros (f & Hf & Hu & He & <-). exists f. split; [done|]. apply list_elem_of_In, filter_In.
    split; [by apply list_elem_of_In|]. by rewrite Hu, Z.eqb_refl.
Qed.

(** No enabled filter, or as many passes as enabled filters: either way each passes. *)
Lemma filters_pass url u b :
  (length (ENABLED_FILTERS u b) =? 0)%nat ||
  (passed_count url (_LATEST_FILTER (ENABLED_FILTERS u b) (b_answers b)) =? length (ENABLED_FILTERS u b))%nat
  = true ↔
  ∀ h, h ∈ ENABLED_FILTERS u b → latest_status url "custom" (Some h) (b_answers b) = Some "passed".
Proof.
  rewrite orb_true_iff, !Nat.eqb_eq, passed_count_all by apply NoDup_remove_dups.
  split; [|auto]. intros [H|H]; [|done]. apply nil_length_inv in H. rewrite H.
  by intros h ?%elem_of_nil.
Qed.

(** The full predicate shows a posting to a person exactly when they uploaded it, or
    acted on it, or every gate passes: it is available, meets their criteria, its latest
    closed answer (and, unless they bypass it, its latest clearance answer) passed, they
    hold its source, and the latest answer of each of their enabled filters passed. *)
Theorem full_shows now u b i j :
  FULL now u b i j = true ↔ uploaded u i b ∨ acted_on u i b ∨ judged_in now u b j.
Proof.
  unfold FULL. destruct (settings_of u b) as [crit bypass] eqn:Es.
  rewrite orb_true_iff, (orb_true_iff (match b_uploads b !! i with _ => _ end)), uploaded_true,
    acted_on_true, structural_spellings_agree, (Logic.or_assoc (uploaded u i b)).
  do 2 apply or_iff_compat_l. rewrite !andb_true_iff, filters_pass.
  unfold STRUCTURAL_PER_POSTING, SUBSCRIBED, status_is.
  rewrite !andb_true_iff, !orb_true_iff, !bool_decide_eq_true. split.
  - intros [[[[[Ha Hc] Ho] Hs] Hf] Hp]. constructor; rewrite ?Es; try done.
    intros f Hin Hu He. apply Hp, elem_of_ENABLED_FILTERS. eauto.
  - intros [Ha Hc Ho Hs Hf Hp]. rewrite Es in Hc, Hs. simpl in Hc, Hs.
    split; [done|]. intros h (f & Hin & Hu & He & <-)%elem_of_ENABLED_FILTERS. by apply Hp.
Qed.

(** ** What a store leaves *)

Lemma added_lookup (now u : Z) (ids : list Z) (m : gmap (Z * Z) Z) (k : Z * Z) :
  foldl (λ m i, match m !! (u, i) with Some _ => m | None => <[(u, i) := now]> m end) m ids !! k =
  match m !! k with
  | Some t => Some t
  | None => if bool_decide (k.1 = u ∧ k.2 ∈ ids) then Some now else None
  end.
Proof.
  revert m. induction ids as [|i ids IH]; intros m; simpl.
  - destruct (m !! k); [done|]. rewrite bool_decide_eq_false_2; [done|]. by intros [_ ?%elem_of_nil].
  - rewrite IH. destruct k as [x y]; simpl.
    destruct (m !! (u, i)) as [t|] eqn:E.
    + destruct (m !! (x, y)) eqn:Ek; [done|]. assert ((x, y) ≠ (u, i)) by congruence.
      repeat case_bool_decide; set_solver.
    + destruct (decide ((x, y) = (u, i))) as [[= -> ->]|Hne].
      * rewrite lookup_insert_eq, E. rewrite bool_decide_eq_true_2; [done|]. set_solver.
      * rewrite lookup_insert_ne by done. destruct (m !! (x, y)); [done|].
        repeat case_bool_decide; set_solver.
Qed.

(** Each row after a store: another's is kept, a person's own is their new membership,
    with the time it had unless that is later than this transaction's. *)
Lemma store_lookup now u ids b x i :
  b_visible (store now u ids b) !! (x, i) =
  if bool_decide (x = u)
  then if bool_decide (i ∈ ids)
       then Some (match b_visible b !! (u, i) with Some t => Z.min t now | None => now end)
       else None
  else b_visible b !! (x, i).
Proof.
  unfold store. cbn [b_visible with_visible]. rewrite map_lookup_imap, added_lookup. simpl.
  rewrite map_lookup_filter.
  destruct (decide (x = u)) as [->|Hne].
  - rewrite (bool_decide_eq_true_2 (u = u)) by done. rewrite Z.eqb_refl. simpl.
    destruct (decide (i ∈ ids)) as [Hi|Hi].
    + rewrite !bool_decide_eq_true_2 by done.
      destruct (b_visible b !! (u, i)) as [t|]; simpl.
      * rewrite option_guard_True by tauto. simpl. f_equal.
        destruct (Z.ltb_spec now t); lia.
      * f_equal. by rewrite Z.ltb_irrefl.
    + rewrite !bool_decide_eq_false_2 by tauto.
      destruct (b_visible b !! (u, i)) as [t|]; simpl; [|done].
      by rewrite option_guard_False by tauto.
  - rewrite !bool_decide_eq_false_2 by tauto. apply Z.eqb_neq in Hne as Hn. rewrite Hn. simpl.
    destruct (b_visible b !! (x, i)) as [t|]; simpl; [|done].
    by rewrite option_guard_True by tauto.
Qed.

Lemma store_recompute now u ids b : b_recomputes (store now u ids b) = <[u := now]> (b_recomputes b).
Proof. done. Qed.

(** [computed_at] from what every row says. *)
Lemma computed_at_all u b t :
  (∃ i, is_Some (b_visible b !! (u, i))) →
  (∀ i c, b_visible b !! (u, i) = Some c → greatest_opt c (b_recomputes b !! u) = t) →
  computed_at u b = Some t.
Proof.
  intros (i & c & Hi) Hall. unfold computed_at.
  assert (((u, i), c) ∈ map_to_list (b_visible b)) as Hin by by apply elem_of_map_to_list.
  assert (∀ k c, (k, c) ∈ map_to_list (b_visible b) → k.1 = u → greatest_opt c (b_recomputes b !! u) = t) as Hl.
  { intros [x y] d Hd%elem_of_map_to_list Hx. simpl in Hx. subst. eauto. }
  clear Hall Hi. revert Hl. revert Hin. generalize (map_to_list (b_visible b)) as l.
  induction l as [|[[x y] d] l IH]; intros Hin Hl; [by apply elem_of_nil in Hin|]. simpl.
  destruct (x =? u) eqn:Ex.
  - apply Z.eqb_eq in Ex. subst x. rewrite (Hl (u, y) d) by (done || constructor).
    f_equal. destruct (foldr _ None l) as [a|] eqn:Ef; [|done].
    assert (a = t) as ->; [|lia].
    clear Hin IH. assert (∀ k c, (k, c) ∈ l → k.1 = u → greatest_opt c (b_recomputes b !! u) = t) as Hl'.
    { intros k e He. apply Hl. by right. }
    clear Hl. revert a Ef. induction l as [|[[x' y'] d'] l IH']; intros a Ef; simpl in Ef; [done|].
    destruct (x' =? u) eqn:Ex'.
    + apply Z.eqb_eq in Ex'. subst x'. rewrite (Hl' (u, y') d') in Ef by (done || constructor).
      destruct (foldr _ None l) as [e|] eqn:Ee.
      * assert (e = t) as ->. { apply IH'; [|done]. intros k z Hz. apply Hl'. by right. }
        injection Ef. lia.
      * congruence.
    + apply IH'; [|done]. intros k z Hz. apply Hl'. by right.
  - apply IH.
    + apply elem_of_cons in Hin as [[= <- <- <-]|Hin]; [|done]. by rewrite Z.eqb_refl in Ex.
    + intros k z Hz. apply Hl. by right.
Qed.

(** A store leaves the person exactly the postings it was given, each row keeping the
    time it was first computed unless that is later than the store, and nobody else's
    rows touched; the board's time is the store's, whatever the rows said; and storing
    the same postings again changes no row. *)
Theorem store_writes_the_difference now u ids b :
  let b' := store now u ids b in
  (∀ i, is_Some (b_visible b' !! (u, i)) ↔ i ∈ ids) ∧
  (∀ i t, b_visible b !! (u, i) = Some t → t <= now → i ∈ ids → b_visible b' !! (u, i) = Some t) ∧
  (∀ x i, x ≠ u → b_visible b' !! (x, i) = b_visible b !! (x, i)) ∧
  computed_at u b' = (if nonempty ids then Some now else None) ∧
  (∀ later, now <= later → b_visible (store later u ids b') = b_visible b').
Proof.
  intros b'. subst b'. repeat split.
  - intros [t H]. rewrite store_lookup, bool_decide_eq_true_2 in H by done.
    destruct (bool_decide (i ∈ ids)) eqn:E; [by breflect|done].
  - intros Hi. rewrite store_lookup, !bool_decide_eq_true_2; eauto.
  - intros i t Ht Hle Hi. rewrite store_lookup, !bool_decide_eq_true_2, Ht by done. f_equal. lia.
  - intros x i Hx. by rewrite store_lookup, bool_decide_eq_false_2.
  - destruct ids as [|i ids]; simpl.
    + unfold computed_at.
      assert (∀ k c, (k, c) ∈ map_to_list (b_visible (store now u [] b)) → k.1 ≠ u) as Hno.
      { intros [x y] c Hc%elem_of_map_to_list Hx. simpl in Hx. subst x.
        rewrite store_lookup, bool_decide_eq_true_2, bool_decide_eq_false_2 in Hc; [done| |done].
        by intros ?%elem_of_nil. }
      revert Hno. generalize (map_to_list (b_visible (store now u [] b))) as l.
      induction l as [|[[x y] c] l IH]; intros Hno; [done|]. simpl.
      destruct (Z.eqb_spec x u) as [->|]; [by destruct (Hno (u, y) c); [constructor|]|].
      apply IH. intros k z Hz. apply (Hno k z). by right.
    + apply computed_at_all.
      * exists i. rewrite store_lookup, !bool_decide_eq_true_2; eauto; set_solver.
      * intros y c Hc. rewrite store_recompute, lookup_insert_eq. simpl.
        rewrite store_lookup, bool_decide_eq_true_2 in Hc by done.
        destruct (bool_decide _); [|done]. injection Hc as <-.
        destruct (b_visible b !! (u, y)); lia.
  - intros later Hle. apply map_eq. intros [x i]. rewrite !store_lookup.
    repeat case_bool_decide; try done. destruct (b_visible b !! (u, i)); f_equal; lia.
Qed.

(** ** The fast read *)

Lemma ids_where_ext {R} (P Q : Z → R → bool) m :
  (∀ i r, m !! i = Some r → P i r = Q i r) → ids_where P m = ids_where Q m.
Proof.
  intros H. unfold ids_where. f_equal.
  assert (∀ kv, kv ∈ map_to_list m → P kv.1 kv.2 = Q kv.1 kv.2) as Hl.
  { intros [i r] Hi%elem_of_map_to_list. by apply H. }
  revert Hl. generalize (map_to_list m). intros l Hl. induction l as [|kv l IH]; [done|]. csimpl.
  rewrite (Hl kv) by constructor. rewrite IH; [done|]. intros y Hy. apply Hl. by right.
Qed.

Lemma fast_after_recompute now u b : FAST u (recompute now u b).1 = member_ids now u b.
Proof.
  unfold FAST, member_ids. apply ids_where_ext. intros i j Hj.
  change (b_jobs (recompute now u b).1) with (b_jobs b) in Hj.
  assert (bool_decide (is_Some (b_visible (recompute now u b).1 !! (u, i))) = FULL now u b i j) as Hv.
  { apply Bool.eq_iff_eq_true. unfold recompute. cbv zeta. cbn [fst].
    rewrite bool_decide_eq_true, store_lookup, bool_decide_eq_true_2 by done.
    unfold member_ids. destruct (bool_decide _) eqn:E; breflect.
    - apply elem_of_ids_where in E as (j' & Hj' & HF). split; [congruence|]. eauto.
    - split; [by intros []|]. intros HF. destruct E. apply elem_of_ids_where. eauto. }
  unfold visible_ids. rewrite Hv.
  change (FULL now u b i j || match b_uploads b !! i with Some up => u_uploaded_by up =? u | None => false end
          || match b_user_jobs b !! (u, i) with Some r => _ACTED_ON u i r b | None => false end
          = FULL now u b i j).
  apply Bool.eq_iff_eq_true. rewrite !orb_true_iff, uploaded_true, acted_on_true, full_shows. tauto.
Qed.

Lemma pair_for_true {A} (i : Z) (m : gmap (Z * Z) A) (P : Z → A → bool) :
  pair_for i m P = true ↔ ∃ x a, m !! (x, i) = Some a ∧ P x a = true.
Proof.
  unfold pair_for. rewrite existsb_exists. split.
  - intros ([[x y] a] & Hin & Hp). simpl in Hp. apply andb_true_iff in Hp as [Hy Hp].
    apply Z.eqb_eq in Hy. subst y. apply list_elem_of_In, elem_of_map_to_list in Hin. eauto.
  - intros (x & a & Ha & Hp). exists ((x, i), a).
    split; [by apply list_elem_of_In, elem_of_map_to_list|]. simpl. by rewrite Z.eqb_refl.
Qed.

Lemma across_users_elem b i : i ∈ across_users b ↔ ∃ x, i ∈ FAST x b.
Proof.
  unfold across_users, FAST, visible_ids. setoid_rewrite elem_of_ids_where.
  setoid_rewrite orb_true_iff. setoid_rewrite orb_true_iff. setoid_rewrite bool_decide_eq_true.
  setoid_rewrite uploaded_true. setoid_rewrite acted_on_true. setoid_rewrite pair_for_true. split.
  - intros (j & Hj & [[(x & t & Ht & _)|[up Hup]]|(x & r & Hr)]).
    + exists x, j. eauto.
    + exists (u_uploaded_by up), j. split; [done|]. left; right. by exists up.
    + exists x, j. split; [done|]. right. by exists r.
  - intros (x & j & Hj & [[[t Ht]|(up & Hup & _)]|(r & Hr)]); exists j; eauto 10.
Qed.

(** C17: After a recompute the fast read is the full predicate, in the same order; and the
    enrichment consumers' projection is the union of everyone's fast read. *)
Theorem fast_is_full now u b :
  FAST u (recompute now u b).1 = member_ids now u b ∧
  (recompute now u b).2 = length (member_ids now u b) ∧
  ∀ i, i ∈ across_users b ↔ ∃ x, i ∈ FAST x b.
Proof. split; [apply fast_after_recompute|]. split; [done|]. apply across_users_elem. Qed.

(** Two recomputes of a person: the store that comes second decides the board, however
    early it read. *)
Example later_store_decides now later u early late b :
  ∀ i, is_Some (b_visible (store now u early (store later u late b)) !! (u, i)) ↔ i ∈ early.
Proof. apply (store_writes_the_difference now u early (store later u late b)). Qed.

(** ** The two bindings of a person's criteria *)

Definition tab : string := String (Ascii.ascii_of_nat 9) EmptyString.

(** The only white space is the space. *)
Definition only_spaces (s : string) : bool :=
  forallb (λ c, negb (is_space c) || is_blank c) (chars s).

Definition criteria_lists (c : criteria) : list string :=
  excluded_locations c ++ included_locations c ++ included_terms c.

Lemma drop_while_ext (P Q : Ascii.ascii → bool) l : (∀ x, x ∈ l → P x = Q x) → drop_while P l = drop_while Q l.
Proof.
  induction l as [|x l IH]; intros H; [done|]. simpl. rewrite (H x) by constructor.
  destruct (Q x); [|done]. apply IH. intros y Hy. apply H. by right.
Qed.

Lemma drop_while_suffix (P : Ascii.ascii → bool) l x : x ∈ drop_while P l → x ∈ l.
Proof.
  induction l as [|y l IH]; [done|]. simpl. destruct (P y); [|done]. intros H. right. auto.
Qed.

Lemma strip_btrim s : only_spaces s = true → strip s = btrim s.
Proof.
  unfold only_spaces. intros H. rewrite forallb_forall in H.
  assert (∀ c, c ∈ chars s → is_space c = is_blank c) as Heq.
  { intros c Hc. specialize (H c). rewrite <- list_elem_of_In in H. specialize (H Hc).
    destruct (is_space c) eqn:E; simpl in H; [done|]. unfold is_blank, is_space in *.
    destruct (code c =? 32)%nat eqn:Ec; [|done]. apply Nat.eqb_eq in Ec. rewrite Ec in E. done. }
  unfold strip, btrim, rstrip_chars, lstrip_chars.
  rewrite (drop_while_ext is_space is_blank (chars s)) by done. f_equal. f_equal.
  apply drop_while_ext. intros c Hc. apply Heq. apply (drop_while_suffix is_blank).
  apply list_elem_of_In. rewrite in_rev. by apply list_elem_of_In.
Qed.

Lemma stripped_trimmed l : Forall (λ s, only_spaces s = true) l → stripped l = trimmed l.
Proof.
  intros H. unfold stripped, trimmed. f_equal. apply map_ext_Forall.
  eapply Forall_impl; [exact H|]. intros s. apply strip_btrim.
Qed.

(** The criteria a person's own read binds and the criteria a sweep binds from the
    stored row are the same, and so admit the same postings, when the lists hold no white
    space but spaces; an entry that starts with a tab is one value to the read and another
    to the sweep. *)
Theorem bindings_agree now t c j :
  Forall (λ s, only_spaces s = true) (criteria_lists c) →
  params c = json_sql c ∧
  criteria_admit None now t (params c) j = criteria_admit None now t (json_sql c) j ∧
  crit_terms (params (mkCriteria None None [] [] [tab ++ "Summer"])) = ["Summer"] ∧
  crit_terms (json_sql (mkCriteria None None [] [] [tab ++ "Summer"])) = [tab ++ "Summer"].
Proof.
  unfold criteria_lists. rewrite !Forall_app. intros (He & Hi & Ht).
  assert (params c = json_sql c) as E.
  { unfold params, json_sql. by rewrite !stripped_trimmed. }
  rewrite E. done.
Qed.

Lemma bindings_agree_witness :
  params (mkCriteria None (Some 30) ["London "] [" United States"; " "] ["Summer"])
  = json_sql (mkCriteria None (Some 30) ["London "] [" United States"; " "] ["Summer"]).
Proof.
  apply (bindings_agree 0 ∅ (mkCriteria None (Some 30) ["London "] [" United States"; " "] ["Summer"])
           (uploaded_row 0 "u" "u")).
  repeat (constructor; [vm_compute; reflexivity|]). constructor.
Defined.
