(* ===== verification/RunInputs.v ===== *)
(** * What a run carries ([core.filters], [api.task_jobs], [api.run_configs])

    The text of a custom filter, the frozen job list of a task (inline or behind a
    reference), and the settings a run executes, stored once. [sha256] is the digest as
    hexadecimal text, [jsonb_text] PostgreSQL's own text of a [jsonb] value, and
    [get] the payload store's read: each a parameter. *)

From S2P Require Import Prelude PyStr Sql Objects.

Local Open Scope string_scope.
Local Open Scope Z_scope.

(** ** The text of a filter *)

Definition nl : string := String (Ascii.ascii_of_nat 10) EmptyString.
Definition dq : string := String (Ascii.ascii_of_nat 34) EmptyString.

Definition AMBIGUITY_RULES : list (string * string) :=
  [("keep", "should_filter=true only if the job clearly violates the criteria; false if it matches " ++
            "or is ambiguous (prefer false negatives, do not lose good roles).");
   ("filter", "should_filter=true if the job violates the criteria, OR if the posting does not give you " ++
              "enough information to confirm it meets them; false only when it clearly meets them. " ++
              "For this filter ambiguity counts as a violation -- but this never means applying a harsher " ++
              "threshold than the criteria state, only that unconfirmed criteria fail.")].

Definition build_custom_input (company title content : string) : string :=
  "Company: " ++ company ++ nl ++ "Job Title: " ++ title ++ nl ++ nl ++ "Job Content:" ++ nl ++ content.

Definition ambiguity_rule (on_ambiguous : string) : string :=
  match alist_get on_ambiguous AMBIGUITY_RULES with
  | Some r => r
  | None => default "" (alist_get "keep" AMBIGUITY_RULES)
  end.

Definition custom_criteria_instructions (prompt on_ambiguous : string) : string :=
  "Evaluate a job against the user criteria below and decide whether to filter it out." ++ nl ++ nl ++
  "<user_criteria>" ++ nl ++ prompt ++ nl ++ "</user_criteria>" ++ nl ++ nl ++ ambiguity_rule on_ambiguous.

Definition build_custom_instructions (prompt on_ambiguous : string) : string :=
  if String.eqb prompt "" then ""
  else custom_criteria_instructions prompt on_ambiguous ++ nl ++ nl ++
       "reason: <=25 words citing the deciding factor (company/role/skills).".

Definition build_custom_decision_instructions (prompt on_ambiguous : string) : string :=
  if String.eqb prompt "" then ""
  else custom_criteria_instructions prompt on_ambiguous ++ nl ++ nl ++
       "Return only a JSON object with the boolean field " ++ dq ++ "should_filter" ++ dq ++
       ". Do not include a reason.".

(** ** Frozen job lists *)

Record Population : Type := mkPopulation {
  pop_name : string;
  pop_kinds : list string;
  pop_urls : bool;
}.

Definition MANAGED_BOARD_RUNS : Population :=
  mkPopulation "managed_board" ["run_managed_board"; "run_managed_board_batch"] false.
Definition FILTER_CHUNKS : Population :=
  mkPopulation "filter_chunk" ["run_filter_chunk"; "run_filter_batch_chunk"] true.

(** [job["url"]], and [job.get("url")]. *)
Definition job_url (j : json) : option json :=
  match j with
  | JObj o => alist_get "url" o
  | _ => None
  end.

Definition is_object (j : json) : bool := match j with JObj _ => true | _ => false end.

(** A job with no URL is a KeyError. *)
Definition reference (p : Population) (jobs : list json) (ref : PayloadRef) : option jobject :=
  let keys : jobject := {[ "jobs_ref" := ref_dict ref;
                           "candidate_count" := JInt (Z.of_nat (length jobs)) ]} in
  if pop_urls p then (λ urls, <["urls" := JArr urls]> keys) <$> mapM job_url jobs else Some keys.

Inductive jobs_exn : Type := NotRetained | InTransaction | BadReference | InvalidJobs.

Section run_jobs.
Context (get : PayloadRef → option json).

(** [PayloadRef.parse(reference)] and the read. *)
Definition referenced (r : json) : option json := parsed ← parse_ref r; get parsed.

Definition jobs_match (payload : jobject) (jobs : list json) : bool :=
  forallb is_object jobs &&
  bool_decide (obj_int payload "candidate_count" = Some (Z.of_nat (length jobs))) &&
  match payload !! "urls" with
  | Some urls => bool_decide (JArr (map (λ j, default JNull (job_url j)) jobs) = urls)
  | None => true
  end.

(** The inline list is whatever the payload holds. *)
Definition run_jobs (in_transaction : bool) (payload : jobject) : result jobs_exn json :=
  match payload !! "jobs" with
  | Some v => Ok v
  | None =>
      match payload !! "jobs_ref" with
      | None | Some JNull => Err NotRetained
      | Some r =>
          if in_transaction then Err InTransaction
          else
            match referenced r with
            | None => Err BadReference
            | Some (JArr jobs) => if jobs_match payload jobs then Ok (JArr jobs) else Err InvalidJobs
            | Some _ => Err InvalidJobs
            end
      end
  end.
End run_jobs.

(** ** Run settings *)

Definition FILTER : string := "filter".
Definition BOARD : string := "managed_board".

Record run_config : Type := mkRunConfig {
  rc_digest : string;
  rc_kind : string;
  rc_body : json;
}.

Record run_configs : Type := mkRunConfigs {
  rcs_rows : gmap Z run_config;
  rcs_next : Z;
}.

Section run_configs.
Context (sha256 : string → string) (jsonb_text : json → string).

Definition config_digest (kind : string) (body : json) : string :=
  sha256 (kind ++ ":" ++ jsonb_text body).

(** The row with a digest; the column is unique. *)
Definition by_digest (d : string) (t : run_configs) : option (Z * run_config) :=
  i ← head (ids_where (λ _ r, String.eqb (rc_digest r) d) (rcs_rows t));
  r ← rcs_rows t !! i;
  Some (i, r).

Definition insert_config (kind : string) (body : json) (t : run_configs) : run_configs :=
  let d := config_digest kind body in
  match by_digest d t with
  | Some _ => mkRunConfigs (rcs_rows t) (rcs_next t + 1)
  | None => mkRunConfigs (<[rcs_next t := mkRunConfig d kind body]> (rcs_rows t)) (rcs_next t + 1)
  end.

(** [None] is RunConfigUnavailable; a failed read rolls the insert back. *)
Definition intern (kind : string) (body : json) (t : run_configs) : option (run_configs * Z) :=
  let t' := insert_config kind body t in
  '(i, r) ← by_digest (config_digest kind body) t';
  if String.eqb (rc_kind r) kind && String.eqb (jsonb_text (rc_body r)) (jsonb_text body)
  then Some (t', i) else None.
End run_configs.

Definition _body (config_id : Z) (kind : string) (t : run_configs) : option json :=
  match rcs_rows t !! config_id with
  | Some r => if String.eqb (rc_kind r) kind then Some (rc_body r) else None
  | None => None
  end.

Definition filter_of (payload : jobject) (t : run_configs) : option json :=
  i ← obj_int payload "config_id"; _body i FILTER t.

(** [{**payload, **body}], of a body that is an object. *)
Definition with_board_settings (payload : jobject) (t : run_configs) : option jobject :=
  i ← obj_int payload "config_id";
  body ← _body i BOARD t;
  match body with
  | JObj o => Some (list_to_map o ∪ payload)
  | _ => None
  end.

(** ** Lemmas *)

(** Identities grow, digests are unique. *)
Record configs_ok (t : run_configs) : Prop := mkConfigsOk {
  configs_fresh : ∀ i, is_Some (rcs_rows t !! i) → i < rcs_next t;
  configs_unique : ∀ i j r s, rcs_rows t !! i = Some r → rcs_rows t !! j = Some s →
                              rc_digest r = rc_digest s → i = j;
}.

Lemma by_digest_Some d t i r :
  configs_ok t → by_digest d t = Some (i, r) ↔ rcs_rows t !! i = Some r ∧ rc_digest r = d.
Proof.
  intros Hok. unfold by_digest. split.
  - destruct (head _) as [k|] eqn:Eh; [|done]. simpl.
    apply head_Some_elem_of, elem_of_ids_where in Eh as (x & Hx & E). rewrite Hx. simpl.
    intros [= <- <-]. by apply String.eqb_eq in E.
  - intros [Hi <-]. destruct (head _) as [k|] eqn:Eh; simpl.
    + apply head_Some_elem_of, elem_of_ids_where in Eh as (x & Hx & E). apply String.eqb_eq in E.
      rewrite (configs_unique t Hok k i x r) in * by done. rewrite Hi. done.
    + assert (i ∈ ids_where (λ _ x, String.eqb (rc_digest x) (rc_digest r)) (rcs_rows t)) as Hin.
      { apply elem_of_ids_where. exists r. by rewrite String.eqb_refl. }
      apply head_None in Eh. rewrite Eh in Hin. by apply elem_of_nil in Hin.
Qed.

Lemma by_digest_None d t i r : by_digest d t = None → rcs_rows t !! i = Some r → rc_digest r ≠ d.
Proof.
  unfold by_digest. intros H Hi <-. destruct (head _) as [k|] eqn:Eh; simpl in H.
  - apply head_Some_elem_of, elem_of_ids_where in Eh as (x & Hx & E). by rewrite Hx in H.
  - assert (i ∈ ids_where (λ _ x, String.eqb (rc_digest x) (rc_digest r)) (rcs_rows t)) as Hin.
    { apply elem_of_ids_where. exists r. by rewrite String.eqb_refl. }
    apply head_None in Eh. rewrite Eh in Hin. by apply elem_of_nil in Hin.
Qed.

Section intern.
Context (sha256 : string → string) (jsonb_text : json → string).

Lemma insert_config_ok kind body t : configs_ok t → configs_ok (insert_config sha256 jsonb_text kind body t).
Proof.
  intros [Hf Hu]. unfold insert_config. destruct (by_digest _ t) as [p|] eqn:E; split; simpl; try done.
  - intros i Hi%Hf. lia.
  - intros i Hi. destruct (decide (i = rcs_next t)) as [->|Hne]; [lia|].
    rewrite lookup_insert_ne in Hi by done. apply Hf in Hi. lia.
  - intros i j r s Hi Hj Hd.
    destruct (decide (i = rcs_next t)) as [->|Hni], (decide (j = rcs_next t)) as [->|Hnj]; [done| | |].
    + rewrite lookup_insert_eq in Hi. rewrite lookup_insert_ne in Hj by done. injection Hi as <-.
      destruct (by_digest_None _ _ _ _ E Hj). by rewrite <- Hd.
    + rewrite lookup_insert_eq in Hj. rewrite lookup_insert_ne in Hi by done. injection Hj as <-.
      by destruct (by_digest_None _ _ _ _ E Hi).
    + rewrite lookup_insert_ne in Hi, Hj by done. eauto.
Qed.

(** Interning a run's settings returns an id whose stored settings are those, and
    interning them again returns the same id and adds no row; when a stored row has the
    digest of other settings it refuses instead of substituting them. Nothing already
    stored changes. *)
Theorem intern_returns_its_settings kind body t :
  configs_ok t →
  match intern sha256 jsonb_text kind body t with
  | Some (t', i) =>
      (∃ stored, _body i kind t' = Some stored ∧ jsonb_text stored = jsonb_text body) ∧ configs_ok t' ∧ rcs_rows t ⊆ rcs_rows t' ∧
      ∃ t'', intern sha256 jsonb_text kind body t' = Some (t'', i) ∧ rcs_rows t'' = rcs_rows t'
  | None => ∃ i r, rcs_rows t !! i = Some r ∧ (rc_kind r, jsonb_text (rc_body r)) ≠ (kind, jsonb_text body) ∧
                   rc_digest r = config_digest sha256 jsonb_text kind body
  end.
Proof.
  intros Hok. unfold intern. set (d := config_digest _ _ kind body).
  pose proof (insert_config_ok kind body t Hok) as Hok'.
  set (t' := insert_config sha256 jsonb_text kind body t) in *.
  assert (∃ i r, by_digest d t' = Some (i, r) ∧
                 (rcs_rows t !! i = Some r ∨ r = mkRunConfig d kind body)) as (i & r & Hd & Hr).
  { subst t'. unfold insert_config in *. fold d in Hok' |- *. destruct (by_digest d t) as [[i r]|] eqn:E.
    - exists i, r. apply by_digest_Some in E as [Hi Er]; [|done]. split; [|by left].
      by apply by_digest_Some.
    - exists (rcs_next t), (mkRunConfig d kind body). split; [|by right].
      apply by_digest_Some; [done|]. simpl. by rewrite lookup_insert_eq. }
  rewrite Hd. simpl. apply by_digest_Some in Hd as [Hi Hdr]; [|done].
  destruct (String.eqb_spec (rc_kind r) kind) as [Ek|Ek]; simpl.
  - destruct (String.eqb_spec (jsonb_text (rc_body r)) (jsonb_text body)) as [Eb|Eb].
    + split; [unfold _body; exists (rc_body r); by rewrite Hi, Ek, String.eqb_refl|].
      split; [done|]. split.
      * subst t'. unfold insert_config. destruct (by_digest _ t); [done|]. simpl.
        apply insert_subseteq. apply eq_None_not_Some. intros H%(configs_fresh t Hok). lia.
      * assert (by_digest d t' = Some (i, r)) as Hb by by apply by_digest_Some.
        unfold insert_config. fold d. rewrite Hb.
        exists (mkRunConfigs (rcs_rows t') (rcs_next t' + 1)). split; [|done].
        assert (by_digest d (mkRunConfigs (rcs_rows t') (rcs_next t' + 1)) = Some (i, r)) as -> by done.
        simpl. by rewrite Ek, Eb, !String.eqb_refl.
    + destruct Hr as [Hr| ->]; [|done]. exists i, r. split; [done|]. split; [congruence|done].
  - destruct Hr as [Hr| ->]; [|done]. exists i, r. split; [done|]. split; [congruence|done].
Qed.
End intern.

Definition no_configs : run_configs := mkRunConfigs ∅ 1.

Definition demo_text (j : json) : string := match j with JStr s => s | _ => "" end.

Lemma no_configs_ok : configs_ok no_configs.
Proof.
  unfold no_configs. split; simpl; [intros i [x H]|intros i j r s H];
    by rewrite lookup_empty in H.
Qed.

Lemma intern_returns_its_settings_witness :
  ∃ t' i, intern (λ s, s) demo_text BOARD (JStr "x") no_configs = Some (t', i) ∧
          ∃ stored, _body i BOARD t' = Some stored ∧ demo_text stored = "x".
Proof.
  pose proof (intern_returns_its_settings (λ s, s) demo_text BOARD (JStr "x") no_configs no_configs_ok) as H.
  destruct (intern (λ s, s) demo_text BOARD (JStr "x") no_configs) as [[t' i]|] eqn:E.
  - exists t', i. split; [done|]. apply H.
  - exfalso. vm_compute in E. discriminate E.
Defined.
