(* ===== verification/ManagedBoards.v ===== *)
(** * Managed boards ([api.managed_boards])

    The boards an operator publishes, sponsored by a person's allowance: which postings a
    run considers, what it reserves, its admission (a plan, an upload, and a transaction
    that checks again under the sponsor's and the board's locks), and the write of the
    rows a run decided. *)

From S2P Require Import Prelude PyStr Sql Objects Tasks Queue Spec Datasheets Pricing Routing Fallback Access Catalog Screening Selection Verdicts Visibility RunInputs.

Local Open Scope string_scope.
Local Open Scope Z_scope.

(** ** Tables *)

(** [managed_boards], less the columns no function here names. *)
Record managed_board : Type := mkManagedBoard {
  mb_sponsor_user_id : Z;
  mb_prompt : string;
  mb_prompt_hash : string;
  mb_requested_model : string;
  mb_execution_mode : string;
  mb_on_ambiguous : string;
  mb_fail_closed : bool;
  mb_bypass_sponsorship_filter : bool;
  mb_criteria : criteria;
  mb_title_gate : option string;
  mb_revision : Z;
  mb_published : bool;
  mb_public_revision : option Z;
  mb_projection_updated_at : option Z;
}.

(** [managed_board_jobs]: when the posting joined, and its sort time. *)
Record member : Type := mkMember {
  me_projected_at : Z;
  me_sort_at : Z;
}.

(** A [model_calls] row with its board. *)
Record board_call : Type := mkBoardCall {
  bc_call : token_call;
  bc_managed_board_id : option Z;
}.

(** The [page_texts] view: a fetch's id, URL and length. *)
Record page_text : Type := mkPageText {
  pt_id : Z;
  pt_url : string;
  pt_chars : Z;
}.

(** [d_tables]: postings, answers and people's settings. [d_settings]: credentials and
    whether the person has a key of their own. [d_page_texts] is newest first. *)
Record db : Type := mkDb {
  d_boards : gmap Z managed_board;
  d_members : gmap (Z * Z) member;
  d_users : gmap Z (list string);
  d_budgets : list group_budget;
  d_credentials : gmap Z credentials;
  d_calls : list board_call;
  d_queue : world;
  d_configs : run_configs;
  d_tables : board;
  d_page_texts : list page_text;
  d_title_screens : gmap string string;
  d_equivalence : list Group;
}.

Definition with_queue (w : world) (d : db) : db :=
  mkDb (d_boards d) (d_members d) (d_users d) (d_budgets d) (d_credentials d) (d_calls d) w
    (d_configs d) (d_tables d) (d_page_texts d) (d_title_screens d) (d_equivalence d).
Definition with_configs (c : run_configs) (d : db) : db :=
  mkDb (d_boards d) (d_members d) (d_users d) (d_budgets d) (d_credentials d) (d_calls d) (d_queue d)
    c (d_tables d) (d_page_texts d) (d_title_screens d) (d_equivalence d).
Definition with_members (bs : gmap Z managed_board) (m : gmap (Z * Z) member) (d : db) : db :=
  mkDb bs m (d_users d) (d_budgets d) (d_credentials d) (d_calls d) (d_queue d)
    (d_configs d) (d_tables d) (d_page_texts d) (d_title_screens d) (d_equivalence d).

(** ** A board and its candidates ([selection]) *)

Definition FILTER_OUTPUT_RESERVATION_TOKENS : Z := 320.
Definition BATCH_OUTPUT_TOKENS : Z := 6000.
Definition BATCH_CHARS_PER_TOKEN : Z := 4.
Definition MANAGED_FILTER_EXECUTION_VERSION : Z := 2.
Definition MANAGED_FILTER_TRANSPORT : string := "batch".

Definition _batch_shape (model : string) : TaskShape :=
  mkShape "managed_board" JSON_SCHEMA true BATCH_OUTPUT_TOKENS 1000 [model] None [] ∅ "" 0 "" MIXES [].

Record _Board : Type := mkBoardRow {
  bo_id : Z;
  bo_sponsor_user_id : Z;
  bo_prompt : string;
  bo_prompt_hash : string;
  bo_requested_model : string;
  bo_execution_mode : string;
  bo_on_ambiguous : string;
  bo_fail_closed : bool;
  bo_bypass_sponsorship_filter : bool;
  bo_criteria : criteria;
  bo_title_gate : option string;
  bo_revision : Z;
  bo_published : bool;
  bo_sources : list string;
}.

#[export] Instance criteria_eq_dec : EqDecision criteria.
Proof. solve_decision. Defined.
#[export] Instance _Board_eq_dec : EqDecision _Board.
Proof. solve_decision. Defined.

Definition board_sources (id : Z) (d : db) : list string :=
  merge_sort String.le (elements (values_of id (managed_board_sources (b_selections (d_tables d))))).

Definition _board (id : Z) (d : db) : option _Board :=
  (λ b, mkBoardRow id (mb_sponsor_user_id b) (mb_prompt b) (mb_prompt_hash b) (mb_requested_model b)
          (mb_execution_mode b) (mb_on_ambiguous b) (mb_fail_closed b)
          (mb_bypass_sponsorship_filter b) (mb_criteria b) (mb_title_gate b) (mb_revision b)
          (mb_published b) (board_sources id d)) <$> d_boards d !! id.

Record _Candidate : Type := mkCandidate {
  cd_id : Z;
  cd_url : string;
  cd_company : string;
  cd_title : string;
  cd_source : string;
  cd_sort_at : Z;
  cd_content_query_id : option Z;
  cd_content_chars : option Z;
}.

Definition latest_page (url : string) (d : db) : option page_text :=
  find (λ p, String.eqb (pt_url p) url) (d_page_texts d).

Definition sort_time (j : job) : Z := default (j_created_at j) (j_date_posted j).

Definition candidate_of (page : option page_text) (i : Z) (j : job) : _Candidate :=
  mkCandidate i (j_url j) (j_company j) (j_title j) (j_source j) (sort_time j)
    (pt_id <$> page) (pt_chars <$> page).

(** The rows of a WHERE over [jobs], in order of id. *)
Definition select_jobs {A} (P : Z → job → bool) (f : Z → job → A) (d : db) : list A :=
  omap (λ i, f i <$> b_jobs (d_tables d) !! i) (ids_where P (b_jobs (d_tables d))).

Definition is_candidate (now : Z) (b : _Board) (d : db) (j : job) : bool :=
  mem (j_source j) (bo_sources b) &&
  STRUCTURAL_PER_POSTING now (params (bo_criteria b)) (bo_bypass_sponsorship_filter b) j (d_tables d).

Definition _candidates (now : Z) (b : _Board) (d : db) : list _Candidate :=
  select_jobs (λ _ j, is_candidate now b d j) (λ i j, candidate_of (latest_page (j_url j) d) i j) d.

Definition len (s : string) : Z := Z.of_nat (String.length s).

Definition candidate_tokens (b : _Board) (c : _Candidate) : Z :=
  (len (build_custom_decision_instructions (bo_prompt b) (bo_on_ambiguous b)) +
   len (build_custom_input (cd_company c) (cd_title c) "") + default 0 (cd_content_chars c))
  `div` BATCH_CHARS_PER_TOKEN + FILTER_OUTPUT_RESERVATION_TOKENS.

Definition _reservation (b : _Board) (l : list _Candidate) : Z := list_sum_Z (map (candidate_tokens b) l).

Definition _LATEST_CUSTOM (models enabled : list string) (answers : list answer) : list answer :=
  latest_per (λ a, (a_url a, a_prompt_hash a))
    (λ a, String.eqb (a_check_type a) "custom" &&
          match a_model a with Some m => mem m models | None => false end &&
          match a_prompt_hash a with Some h => mem h enabled | None => false end) answers.

(** [enabled e JOIN latest_custom q], of the rows that passed. *)
Definition joined_passes (enabled : list string) (url : string) (l : list answer) : nat :=
  length (enabled ≫= λ e, List.filter (λ a, String.eqb (a_url a) url && column_is (a_prompt_hash a) e &&
                                            String.eqb (a_status a) "passed") l).

Definition reuse_candidate (now sponsor : Z) (models : list string) (d : db) (j : job) : bool :=
  let b := d_tables d in
  let '(crit, bypass) := settings_of sponsor b in
  let enabled := ENABLED_FILTERS sponsor b in
  SUBSCRIBED sponsor j b && STRUCTURAL now (params crit) bypass j b && (0 <? length enabled)%nat &&
  (joined_passes enabled (j_url j) (_LATEST_CUSTOM models enabled (b_answers b)) =? length enabled)%nat.

Definition _reuse_candidates (now sponsor : Z) (model : string) (d : db) : list _Candidate :=
  let models := answering (d_equivalence d) "custom" model in
  select_jobs (λ _ j, reuse_candidate now sponsor models d j) (λ i j, candidate_of None i j) d.

Definition board_screens (title_gate : option string) (prompt_hash : string) (screens : gmap string string)
    : list string :=
  (match title_gate with Some g => [g] | None => [] end ++
   match screens !! prompt_hash with Some r => [r] | None => [] end)%list.

(** A name with no recipe is refused where it is set. *)
Definition screened (recipes : list string) (title source : option string) : bool :=
  existsb (λ r, match screen r title source with Some s => skip s | None => false end) recipes.

(** ** Questions on verification *)

Record BoardQuestion : Type := mkQuestion {
  bq_board_id : Z;
  bq_prompt_hash : string;
  bq_criteria : string;
  bq_model : string;
}.

Section runs.
Context (ps : list Provider) (i : index) (environ : gmap string string) (decrypt : string → string)
  (sha256 : string → string) (jsonb_text : json → string).

Definition effort_of (p : jobject) : option json := p !! "reasoning_effort".

(** The postings of [urls] a board would ask about. *)
Definition asked_by (now : Z) (b : _Board) (urls : list string) (d : db) : list string :=
  let recipes := board_screens (bo_title_gate b) (bo_prompt_hash b) (d_title_screens d) in
  let t := d_tables d in
  let rows := select_jobs (λ _ j, mem (j_url j) urls && mem (j_source j) (bo_sources b) &&
                                  criteria_admit None now (b_locations t) (params (bo_criteria b)) j)
                (λ _ j, j) d in
  let admitted := remove_dups (map j_url (List.filter
                    (λ j, negb (screened recipes (Some (j_title j)) (Some (j_source j)))) rows)) in
  let decided := decided_custom_urls (merge_sort String.le admitted) (bo_prompt_hash b)
                   (Some (answering (d_equivalence d) "custom" (bo_requested_model b))) (b_answers t) in
  List.filter (λ u, negb (mem u decided)) admitted.

(** One board's turn of the loop. *)
Definition ask_board (now : Z) (model effort : string) (urls : list string) (d : db)
    (questions : gmap string (list BoardQuestion)) (id : Z) : gmap string (list BoardQuestion) :=
  match _board id d with
  | None => questions
  | Some b =>
      if negb (String.eqb (bo_requested_model b) model) then questions
      else
        match resolve ps i (_batch_shape (bo_requested_model b)) None None with
        | Err _ => questions
        | Ok choice =>
            if negb (bool_decide (effort_of (ch_params choice) = Some (JStr effort))) then questions
            else
              let question := mkQuestion id (bo_prompt_hash b)
                (custom_criteria_instructions (bo_prompt b) (bo_on_ambiguous b)) (bo_requested_model b) in
              foldl (λ q u, <[u := (default [] (q !! u) ++ [question])%list]> q) questions
                (asked_by now b urls d)
        end
  end.

Definition verification_questions (now : Z) (urls : list string) (model effort : string) (d : db)
    : gmap string (list BoardQuestion) :=
  match urls with
  | [] => ∅
  | _ =>
      foldl (ask_board now model effort urls d) ∅
        (ids_where (λ _ b, mb_published b && String.eqb (mb_execution_mode b) "managed_filter") (d_boards d))
  end.

(** ** Admission *)

Definition ACTIVE_STATUSES : list status := [Pending; Running; AwaitingBatch; Waiting].

Definition is_run (t : task) : bool := mem (t_kind t) (pop_kinds MANAGED_BOARD_RUNS).

Definition run_of (id : Z) (t : task) : bool :=
  is_run t && bool_decide (obj_int (t_payload t) "managed_board_id" = Some id).

Definition active (t : task) : bool := status_in ACTIVE_STATUSES t.

(** [ACTIVE_SQL]: the newest active run of a board. *)
Definition active_run (id : Z) (d : db) : option Z :=
  last (ids_where (λ _ t, run_of id t && active t) (tasks (d_queue d))).

Record _UsagePosition : Type := mkPosition {
  us_spent : Z;
  us_reserved : Z;
}.

(** [b.sponsor_user_id = sponsor], through an outer join on a board id. *)
Definition sponsored_by (sponsor : Z) (id : option Z) (d : db) : bool :=
  match id with
  | Some id => match d_boards d !! id with
               | Some b => mb_sponsor_user_id b =? sponsor
               | None => false
               end
  | None => false
  end.

Definition counts_spent (now sponsor : Z) (d : db) (c : board_call) : bool :=
  String.eqb (tc_key_source (bc_call c)) "owner" &&
  (now - 7 * MICROS_PER_DAY <=? tc_created_at (bc_call c)) &&
  (bool_decide (tc_user_id (bc_call c) = Some sponsor) ||
   sponsored_by sponsor (bc_managed_board_id c) d).

Definition counts_reserved (sponsor : Z) (d : db) (t : task) : bool :=
  is_run t && active t && sponsored_by sponsor (obj_int (t_payload t) "managed_board_id") d.

(** What one task holds of its sponsor's allowance. *)
Definition reserved_by (sponsor : Z) (d : db) (t : task) : Z :=
  if counts_reserved sponsor d t then default 0 (obj_int (t_payload t) "reserved_tokens") else 0.

Definition sum_tasks (f : task → Z) (m : gmap Z task) : Z := map_fold (λ _ t acc, f t + acc) 0 m.

Definition _usage_position (now sponsor : Z) (d : db) : _UsagePosition :=
  mkPosition
    (list_sum_Z (omap (λ c, if counts_spent now sponsor d c then tc_total_tokens (bc_call c) else None)
                   (d_calls d)))
    (sum_tasks (reserved_by sponsor d) (tasks (d_queue d))).

(** The refusals' codes; [Raised] is an exception the caller does not catch. *)
Inductive run_refusal : Type :=
| NOT_FOUND
| IN_PROGRESS (task_id : Z)
| NO_SPONSOR
| PERSONAL_MODEL (reason : refusal)
| NO_SERVER_KEY
| BATCH_UNSUPPORTED
| MODEL_NOT_ALLOWED
| OVER_BUDGET
| STORAGE_UNAVAILABLE
| BOARD_CHANGED
| ALREADY_SCHEDULED
| Raised.

Record _Plan : Type := mkPlan {
  pl_board : _Board;
  pl_payload : jobject;
  pl_jobs : list json;
  pl_reserved : Z;
  pl_cap : option Z;
}.

Definition _refuse_active (id : Z) (d : db) : result run_refusal unit :=
  match active_run id d with
  | Some t => Err (IN_PROGRESS t)
  | None => Ok tt
  end.

Definition _refuse_over_budget (now sponsor : Z) (cap : option Z) (reserved : Z) (d : db)
    : result run_refusal unit :=
  let p := _usage_position now sponsor d in
  match cap with
  | Some c => if c <? us_spent p + us_reserved p + reserved then Err OVER_BUDGET else Ok tt
  | None => Ok tt
  end.

Definition opt_json {A} (f : A → json) (o : option A) : json := match o with Some a => f a | None => JNull end.

(** [isoformat] of the sort time: [iso] is the calendar's. *)
Definition job_entry (iso : Z → string) (c : _Candidate) : json :=
  JObj [("id", JInt (cd_id c)); ("url", JStr (cd_url c)); ("company", JStr (cd_company c));
        ("title", JStr (cd_title c)); ("source", JStr (cd_source c));
        ("sort_at", JStr (iso (cd_sort_at c)));
        ("content_query_id", opt_json JInt (cd_content_query_id c))].

Definition criteria_json (c : criteria) : json :=
  JObj [("date_posted_after", opt_json JInt (date_posted_after c));
        ("max_age_days", opt_json JInt (max_age_days c));
        ("excluded_locations", JArr (map JStr (excluded_locations c)));
        ("included_locations", JArr (map JStr (included_locations c)));
        ("included_terms", JArr (map JStr (included_terms c)))].

Definition board_settings (b : _Board) : json :=
  JObj [("prompt", JStr (bo_prompt b)); ("prompt_hash", JStr (bo_prompt_hash b));
        ("on_ambiguous", JStr (bo_on_ambiguous b)); ("fail_closed", JBool (bo_fail_closed b));
        ("bypass_sponsorship_filter", JBool (bo_bypass_sponsorship_filter b));
        ("sources", JArr (map JStr (bo_sources b))); ("criteria", criteria_json (bo_criteria b))].

Definition plan_payload (b : _Board) (config_id : Z) (resolved_model : string) (recipes : list string)
    (reserved : Z) (count : nat) (effort : option json) : jobject :=
  let payload : jobject :=
    {[ "managed_board_id" := JInt (bo_id b); "sponsor_user_id" := JInt (bo_sponsor_user_id b);
       "revision" := JInt (bo_revision b); "config_id" := JInt config_id;
       "requested_model" := JStr resolved_model; "execution_mode" := JStr (bo_execution_mode b);
       "title_screens" := JArr (map JStr recipes); "published" := JBool (bo_published b);
       "reserved_tokens" := JInt reserved; "candidate_count" := JInt (Z.of_nat count) ]} in
  if String.eqb (bo_execution_mode b) "managed_filter"
  then <["execution_version" := JInt MANAGED_FILTER_EXECUTION_VERSION]>
         (<["inference_transport" := JStr MANAGED_FILTER_TRANSPORT]>
            (<["reasoning_effort" := default JNull effort]> payload))
  else payload.

(** [budget.load_config(sponsor.id, ignore_budget=True)]. *)
Definition sponsor_config (now sponsor : Z) (gs : list string) (d : db) : result refusal AIConfig :=
  let creds := default (mkCreds "openai" None None ∅ None) (d_credentials d !! sponsor) in
  let e := get_entitlement (d_budgets d) now sponsor gs (map bc_call (d_calls d))
             (bool_decide (is_Some (api_key_enc creds))) in
  resolve_ai_config ps i environ decrypt (d_budgets d) creds (lift_cap true e).

(** What the two kinds of plan differ in: the model, the candidates, the screens, the
    effort, the reservation and the cap. *)
Definition selected : Type := string * list _Candidate * list string * option json * Z * option Z.

Definition plan_reuse (now : Z) (b : _Board) (gs : list string) (d : db) : result run_refusal selected :=
  match sponsor_config now (bo_sponsor_user_id b) gs d with
  | Err e => Err (PERSONAL_MODEL e)
  | Ok c => Ok (cf_model c, _reuse_candidates now (bo_sponsor_user_id b) (cf_model c) d, [], None, 0, None)
  end.

Definition plan_filter (now : Z) (b : _Board) (gs : list string) (d : db) : result run_refusal selected :=
  let '(owner, cap) := owner_budget (d_budgets d) gs in
  match provider_of i (bo_requested_model b) with
  | None => Err NO_SERVER_KEY
  | Some p =>
      if negb owner || negb (has_key ps environ p) then Err NO_SERVER_KEY
      else if negb (String.eqb p "openai") then Err BATCH_UNSUPPORTED
      else if negb (mem (bo_requested_model b) (owner_allowed_models ps environ (d_budgets d) gs))
      then Err MODEL_NOT_ALLOWED
      else
        match resolve ps i (_batch_shape (bo_requested_model b)) None None with
        | Err _ => Err BATCH_UNSUPPORTED
        | Ok choice =>
            let recipes := board_screens (bo_title_gate b) (bo_prompt_hash b) (d_title_screens d) in
            let candidates := List.filter
              (λ c, negb (screened recipes (Some (cd_title c)) (Some (cd_source c)))) (_candidates now b d) in
            let reserved := _reservation b candidates in
            rbind (_refuse_over_budget now (bo_sponsor_user_id b) cap reserved d)
              (λ _, Ok (bo_requested_model b, candidates, recipes, effort_of (ch_params choice), reserved, cap))
        end
  end.

Definition plan_selected (now : Z) (b : _Board) (gs : list string) (d : db) : result run_refusal selected :=
  if String.eqb (bo_execution_mode b) "sponsor_filter_reuse" then plan_reuse now b gs d
  else plan_filter now b gs d.

(** [_plan]; interning the settings is a transaction of its own. *)
Definition _plan (iso : Z → string) (now id : Z) (d : db) : db * result run_refusal _Plan :=
  match _board id d with
  | None => (d, Err NOT_FOUND)
  | Some b =>
      match _refuse_active id d, d_users d !! bo_sponsor_user_id b with
      | Err e, _ => (d, Err e)
      | Ok _, None => (d, Err NO_SPONSOR)
      | Ok _, Some gs =>
          match plan_selected now b gs d with
          | Err e => (d, Err e)
          | Ok (model, candidates, recipes, effort, reserved, cap) =>
              match intern sha256 jsonb_text BOARD (board_settings b) (d_configs d) with
              | None => (d, Err Raised)
              | Some (c, config_id) =>
                  let jobs := map (job_entry iso) candidates in
                  (with_configs c d,
                   Ok (mkPlan b (plan_payload b config_id model recipes reserved (length jobs) effort)
                         jobs reserved cap))
              end
          end
      end
  end.

Record ManagedBoardRunQueued : Type := mkQueued {
  rq_task_id : Z;
  rq_reserved_tokens : Z;
  rq_candidate_count : nat;
}.

(** The transaction of [admit_run], and the event after it. A refusal rolls back, but the
    identity value a conflict consumed is spent. *)
Definition admit_commit (now id : Z) (dedupe : option string) (payload : jobject) (p : _Plan) (d : db)
    : db * result run_refusal ManagedBoardRunQueued :=
  if negb (bool_decide (_board id d = Some (pl_board p))) then (d, Err BOARD_CHANGED)
  else
    match rbind (_refuse_active id d)
            (λ _, _refuse_over_budget now (bo_sponsor_user_id (pl_board p)) (pl_cap p) (pl_reserved p) d) with
    | Err e => (d, Err e)
    | Ok _ =>
        let kind := if String.eqb (bo_execution_mode (pl_board p)) "managed_filter"
                    then "run_managed_board_batch" else "run_managed_board" in
        let '(w, row) := enqueue now kind payload dedupe (d_queue d) in
        match row with
        | None => (with_queue w d, Err ALREADY_SCHEDULED)
        | Some t => (with_queue w d, Ok (mkQueued t (pl_reserved p) (length (pl_jobs p))))
        end
    end.

(** The payload that is inserted. *)
Definition admit_payload (p : _Plan) (ref : PayloadRef) : jobject :=
  default ∅ (reference MANAGED_BOARD_RUNS (pl_jobs p) ref) ∪ pl_payload p.

(** Up to the transaction: the dedupe check, the plan and the upload. *)
Definition admit_prepare (put_verified : json → option PayloadRef) (iso : Z → string) (now id : Z)
    (dedupe : option string) (d : db) : db * result run_refusal (_Plan * jobject) :=
  if dedupe_taken (match dedupe with Some "" => None | k => k end) (tasks (d_queue d))
  then (d, Err ALREADY_SCHEDULED)
  else
    let '(d, r) := _plan iso now id d in
    match r with
    | Err e => (d, Err e)
    | Ok p =>
        match put_verified (JArr (pl_jobs p)) with
        | None => (d, Err STORAGE_UNAVAILABLE)
        | Some ref => (d, Ok (p, admit_payload p ref))
        end
    end.

(** [admit_run], with nothing between its parts. *)
Definition admit_run (put_verified : json → option PayloadRef) (iso : Z → string) (now id : Z)
    (dedupe : option string) (d : db) : db * result run_refusal ManagedBoardRunQueued :=
  let '(d, r) := admit_prepare put_verified iso now id dedupe d in
  match r with
  | Err e => (d, Err e)
  | Ok (p, payload) => admit_commit now id dedupe payload p d
  end.
End runs.

(** ** Records ([records]) *)

Definition latest_run (id : Z) (d : db) : option (Z * task) :=
  t ← last (ids_where (λ _ t, run_of id t) (tasks (d_queue d)));
  r ← tasks (d_queue d) !! t;
  Some (t, r).

(** The settings of a run that [replace_projection] reads, [jobs] with their sort times. *)
Record projection : Type := mkProjection {
  pj_managed_board_id : Z;
  pj_revision : Z;
  pj_execution_mode : string;
  pj_prompt_hash : string;
  pj_requested_model : string;
  pj_fail_closed : bool;
  pj_jobs : list (Z * Z);
}.

(** The newest answer of a posting among those the members' read considers. *)
Definition newest_outcome (prompt_hash : string) (models : list string) (url : string)
    (answers : list answer) : option string :=
  a_status <$>
  find (λ a, String.eqb (a_url a) url && String.eqb (a_check_type a) "custom" &&
             column_is (a_prompt_hash a) prompt_hash &&
             match a_model a with Some m => mem m models | None => false end &&
             mem (a_status a) ["passed"; "rejected"; "failed"]) answers.

(** [l.status]: NULL of a posting that is gone or has no answer. *)
Definition outcome (p : projection) (models : list string) (d : db) (job : Z) : option string :=
  j ← b_jobs (d_tables d) !! job;
  newest_outcome (pj_prompt_hash p) models (j_url j) (b_answers (d_tables d)).

Definition admits (p : projection) (models : list string) (d : db) (job : Z) : bool :=
  status_is "passed" (outcome p models d job) ||
  (negb (pj_fail_closed p) && negb (status_is "rejected" (outcome p models d job))).

(** [target]: the members, each with its sort time. *)
Definition target (p : projection) (d : db) : list (Z * Z) :=
  if String.eqb (pj_execution_mode p) "sponsor_filter_reuse" then pj_jobs p
  else List.filter (λ js, admits p (answering (d_equivalence d) "custom" (pj_requested_model p)) d js.1) (pj_jobs p).

(** [_WRITE_MEMBERS]: every part reads the rows as they were. *)
Definition gone (board : Z) (t : list (Z * Z)) (m : gmap (Z * Z) member) : gmap (Z * Z) member :=
  filter (λ kv : Z * Z * member, ¬ (kv.1.1 = board ∧ kv.1.2 ∉ t.*1)) m.

Definition moved (board : Z) (t : list (Z * Z)) (m : gmap (Z * Z) member) : gmap (Z * Z) member :=
  map_imap (λ k r, Some (if k.1 =? board
                         then match find (λ js, js.1 =? k.2) t with
                              | Some js => mkMember (me_projected_at r) js.2
                              | None => r
                              end
                         else r)) m.

Definition joined (now board : Z) (t : list (Z * Z)) (old m : gmap (Z * Z) member)
    : gmap (Z * Z) member :=
  foldl (λ m js, match old !! (board, js.1) with
                 | Some _ => m
                 | None => <[(board, js.1) := mkMember now js.2]> m
                 end) m t.

Definition _WRITE_MEMBERS (now board : Z) (t : list (Z * Z)) (m : gmap (Z * Z) member)
    : gmap (Z * Z) member :=
  joined now board t m (moved board t (gone board t m)).

Inductive projection_exn : Type := ConfigurationChanged | UnknownPosting.

(** The projection's own columns of the board. *)
Definition projected (now : Z) (b : managed_board) : managed_board :=
  mkManagedBoard (mb_sponsor_user_id b) (mb_prompt b) (mb_prompt_hash b) (mb_requested_model b)
    (mb_execution_mode b) (mb_on_ambiguous b) (mb_fail_closed b) (mb_bypass_sponsorship_filter b)
    (mb_criteria b) (mb_title_gate b) (mb_revision b) (mb_published b)
    (if mb_published b then Some (default 0 (mb_public_revision b) + 1) else mb_public_revision b)
    (Some now).

(** One transaction; an inserted row whose posting is gone violates its foreign key. *)
Definition replace_projection (now : Z) (p : projection) (d : db) : db * result projection_exn nat :=
  let id := pj_managed_board_id p in
  match d_boards d !! id with
  | Some b =>
      if negb (mb_revision b =? pj_revision p) then (d, Err ConfigurationChanged)
      else
        let t := target p d in
        if negb (forallb (λ js : Z * Z, bool_decide (is_Some (d_members d !! (id, js.1))) ||
                                bool_decide (is_Some (b_jobs (d_tables d) !! js.1))) t)
        then (d, Err UnknownPosting)
        else (with_members (<[id := projected now b]> (d_boards d))
                (_WRITE_MEMBERS now id t (d_members d)) d, Ok (length t))
  | None => (d, Err ConfigurationChanged)
  end.

(** [cost]'s token sums: all time, and the last seven days. *)
Definition board_tokens (id : Z) (since : option Z) (d : db) : Z :=
  list_sum_Z (omap (λ c, if bool_decide (bc_managed_board_id c = Some id) &&
                            opt_test since (λ s, s <=? tc_created_at (bc_call c))
                         then tc_total_tokens (bc_call c) else None) (d_calls d)).
