(* ===== verification/ManagedProps.v ===== *)
(** * What a managed board's admission and projection leave

    The sponsor's allowance at every commit, refusals, the rows a projection writes, and
    which postings a reuse run and a verification consider. *)

From S2P Require Import Prelude PyStr Sql Objects Tasks Queue Spec Datasheets Pricing Routing Fallback Access Catalog Screening Selection Verdicts Visibility VisibilityProps RunInputs ManagedBoards.

Local Open Scope string_scope.
Local Open Scope Z_scope.

(** ** Sums over the tasks *)

Lemma sum_tasks_insert f m i t : m !! i = None → sum_tasks f (<[i := t]> m) = f t + sum_tasks f m.
Proof.
  intros H. unfold sum_tasks.
  rewrite (map_fold_insert_L (λ (_ : Z) t acc, f t + acc) 0 i t m); [done| |done].
  intros. lia.
Qed.

(** The newest of the selected ids when a newer row is selected. *)
Lemma last_ids_where {R} (P : Z → R → bool) (m : gmap Z R) i :
  i ∈ ids_where P m → (∀ j, j ∈ ids_where P m → j <= i) → last (ids_where P m) = Some i.
Proof.
  intros Hin Hmax. destruct (last (ids_where P m)) as [k|] eqn:E.
  - f_equal. assert (StronglySorted Z.le (ids_where P m)) as Hs.
    { apply Sorted_StronglySorted; [by intros ? ? ?; lia|]. apply (Sorted_merge_sort Z.le). }
    apply last_Some in E as (l & El). pose proof (Hmax k) as Hk. rewrite El in *.
    assert (i <= k); [|assert (k <= i) by (apply Hk, elem_of_app; right; constructor); lia].
    apply elem_of_app in Hin as [Hi|Hi].
    + apply (StronglySorted_app_1_elem_of Z.le l [k]); [done|done|constructor].
    + apply list_elem_of_singleton in Hi. lia.
  - apply last_None in E. rewrite E in Hin. by apply elem_of_nil in Hin.
Qed.

(** Ids are taken from the sequence. *)
Definition ids_fresh (w : world) : Prop := ∀ i, is_Some (tasks w !! i) → i < next_id w.

Lemma fresh_next w : ids_fresh w → tasks w !! next_id w = None.
Proof. intros H. apply eq_None_not_Some. intros Hs%H. lia. Qed.

Section admission.
Context (ps : list Provider) (i : index) (environ : gmap string string) (decrypt : string → string)
  (sha256 : string → string) (jsonb_text : json → string).

(** ** What a plan carries into the transaction *)

Lemma plan_payload_fields b config_id model recipes reserved count effort :
  let p := plan_payload b config_id model recipes reserved count effort in
  p !! "managed_board_id" = Some (JInt (bo_id b)) ∧ p !! "reserved_tokens" = Some (JInt reserved) ∧
  p !! "parent_id" = None.
Proof. unfold plan_payload. by destruct (String.eqb _ _). Qed.

Lemma plan_fields iso now id d d' p :
  _plan ps i environ decrypt sha256 jsonb_text iso now id d = (d', Ok p) →
  bo_id (pl_board p) = id ∧
  pl_payload p !! "managed_board_id" = Some (JInt id) ∧
  pl_payload p !! "reserved_tokens" = Some (JInt (pl_reserved p)) ∧
  pl_payload p !! "parent_id" = None.
Proof.
  unfold _plan. destruct (_board id d) as [b|] eqn:Eb; [|done].
  destruct (_refuse_active id d); [|done]. destruct (d_users d !! _) as [gs|]; [|done].
  destruct (plan_selected _ _ _ _ _ _ _ d) as [[[[[[model cs] recipes] effort] reserved] cap]|]; [|done].
  destruct (intern _ _ _ _ _) as [[c config_id]|]; [|done]. intros [= <- <-]. simpl.
  assert (bo_id b = id) as Eid. { unfold _board in Eb. destruct (d_boards d !! id); [|done]. by injection Eb as <-. }
  split; [done|]. rewrite <- Eid. apply plan_payload_fields.
Qed.

Lemma reference_fields jobs ref o :
  reference MANAGED_BOARD_RUNS jobs ref = o →
  ∀ k, k ∈ ["managed_board_id"; "reserved_tokens"; "parent_id"] → default ∅ o !! k = None.
Proof.
  intros <- k Hk. unfold reference. simpl.
  repeat (apply elem_of_cons in Hk as [->|Hk]; [done|]). by apply elem_of_nil in Hk.
Qed.

Lemma prepared_fields put_verified iso now id dedupe d d' p payload :
  admit_prepare ps i environ decrypt sha256 jsonb_text put_verified iso now id dedupe d = (d', Ok (p, payload)) →
  bo_id (pl_board p) = id ∧
  obj_int payload "managed_board_id" = Some id ∧
  obj_int payload "reserved_tokens" = Some (pl_reserved p) ∧
  payload !! "parent_id" = None.
Proof.
  unfold admit_prepare. destruct (dedupe_taken _ _); [done|].
  destruct (_plan _ _ _ _ _ _ _ _ _ d) as [d1 [p'|]] eqn:Ep; [|done].
  destruct (put_verified _) as [ref|]; [|done]. intros [= <- <- <-].
  apply plan_fields in Ep as (Hb & Hi & Hr & Hp). split; [done|]. unfold obj_int, admit_payload.
  pose proof (reference_fields (pl_jobs p') ref _ eq_refl) as Hf.
  rewrite !lookup_union_r by (apply Hf; set_solver). rewrite Hi, Hr. done.
Qed.
End admission.

(** ** The allowance at every commit *)

(** An admitted run's row. *)
Definition run_row (now : Z) (p : _Plan) (payload : jobject) (dedupe : option string) : task :=
  new_task now (if String.eqb (bo_execution_mode (pl_board p)) "managed_filter"
                then "run_managed_board_batch" else "run_managed_board") payload dedupe None.

Lemma admit_commit_ok now id dedupe payload p d d' q :
  payload !! "parent_id" = None →
  admit_commit now id dedupe payload p d = (d', Ok q) →
  let t := next_id (d_queue d) in
  _board id d = Some (pl_board p) ∧ active_run id d = None ∧
  _refuse_over_budget now (bo_sponsor_user_id (pl_board p)) (pl_cap p) (pl_reserved p) d = Ok tt ∧
  d' = with_queue (mkWorld (<[t := run_row now p payload dedupe]> (tasks (d_queue d))) (t + 1)
                     (PublishTask t :: outbox (d_queue d))) d ∧
  q = mkQueued t (pl_reserved p) (length (pl_jobs p)).
Proof.
  intros Hpar. unfold admit_commit.
  destruct (bool_decide (_board id d = Some (pl_board p))) eqn:Eb; simpl; [|done]. breflect.
  unfold _refuse_active. destruct (active_run id d) eqn:Ea; simpl; [done|].
  destruct (_refuse_over_budget _ _ _ _ d) as [[]|] eqn:Er; [|done].
  assert (payload_parent payload = None) as Hno by (unfold payload_parent, obj_int; by rewrite Hpar).
  unfold enqueue. rewrite Hno. destruct (dedupe_taken _ _); [done|]. intros [= <- <-]. done.
Qed.

Lemma sponsored_by_queue sponsor o w d : sponsored_by sponsor o (with_queue w d) = sponsored_by sponsor o d.
Proof. done. Qed.

Lemma commit_reserved now id dedupe payload p d w sponsor :
  ids_fresh (d_queue d) → obj_int payload "managed_board_id" = Some id →
  obj_int payload "reserved_tokens" = Some (pl_reserved p) →
  _board id d = Some (pl_board p) → sponsor = bo_sponsor_user_id (pl_board p) →
  tasks w = <[next_id (d_queue d) := run_row now p payload dedupe]> (tasks (d_queue d)) →
  us_reserved (_usage_position now sponsor (with_queue w d)) =
  us_reserved (_usage_position now sponsor d) + pl_reserved p.
Proof.
  intros Hf Hid Hres Hb -> Hw. simpl. change (tasks (d_queue (with_queue w d))) with (tasks w).
  rewrite Hw, sum_tasks_insert by by apply fresh_next.
  change (reserved_by (bo_sponsor_user_id (pl_board p)) (with_queue w d))
    with (reserved_by (bo_sponsor_user_id (pl_board p)) d).
  rewrite Z.add_comm. f_equal. unfold reserved_by, counts_reserved.
  assert (is_run (run_row now p payload dedupe) = true) as ->.
  { unfold is_run, run_row. simpl. by destruct (String.eqb _ _). }
  assert (active (run_row now p payload dedupe) = true) as -> by done. simpl. rewrite Hid. simpl.
  unfold _board in Hb. destruct (d_boards d !! id) as [b|] eqn:Ed; [|done]. simpl in Hb.
  injection Hb as Hb. unfold sponsored_by. rewrite ?Ed, <- Hb. simpl. by rewrite Z.eqb_refl, Hres.
Qed.

Lemma commit_active_run now id dedupe payload p d w :
  ids_fresh (d_queue d) → obj_int payload "managed_board_id" = Some id →
  tasks w = <[next_id (d_queue d) := run_row now p payload dedupe]> (tasks (d_queue d)) →
  active_run id (with_queue w d) = Some (next_id (d_queue d)).
Proof.
  intros Hf Hid Hw. unfold active_run. change (tasks (d_queue (with_queue w d))) with (tasks w).
  rewrite Hw. apply last_ids_where.
  - apply elem_of_ids_where. eexists. rewrite lookup_insert_eq. split; [done|].
    unfold run_of. simpl. rewrite Hid, bool_decide_eq_true_2 by done.
    unfold is_run, run_row. simpl. by destruct (String.eqb _ _).
  - intros j (t & Ht & _)%elem_of_ids_where. destruct (decide (j = next_id (d_queue d))) as [->|Hne]; [lia|].
    rewrite lookup_insert_ne in Ht by done. apply Z.lt_le_incl, Hf. eauto.
Qed.

Section safety.
Context (ps : list Provider) (i : index) (environ : gmap string string) (decrypt : string → string)
  (sha256 : string → string) (jsonb_text : json → string)
  (put_verified : json → option PayloadRef) (iso : Z → string).

(** C8: Whatever happened between a board's plan and the transaction that admits its run
    (other admissions of the sponsor's boards, runs ending, spending), an admitted run is
    the board's only active one, its reservation is added to the sponsor's, and what the
    sponsor has spent and reserved, this run included, is within the cap. *)
Theorem admission_within_allowance now now' id dedupe d0 d1 p payload d d' q :
  admit_prepare ps i environ decrypt sha256 jsonb_text put_verified iso now id dedupe d0 = (d1, Ok (p, payload)) →
  ids_fresh (d_queue d) →
  admit_commit now' id dedupe payload p d = (d', Ok q) →
  let sponsor := bo_sponsor_user_id (pl_board p) in
  let before := _usage_position now' sponsor d in
  let after := _usage_position now' sponsor d' in
  _board id d' = Some (pl_board p) ∧
  active_run id d = None ∧ active_run id d' = Some (rq_task_id q) ∧ ids_fresh (d_queue d') ∧
  us_spent after = us_spent before ∧ us_reserved after = us_reserved before + pl_reserved p ∧
  (∀ cap, pl_cap p = Some cap → us_spent after + us_reserved after <= cap).
Proof.
  intros Hp Hf Hc. apply prepared_fields in Hp as (Hid & Hm & Hr & Hpar).
  apply admit_commit_ok in Hc as (Hb & Ha & Hbud & -> & ->); [|done]. intros sponsor before after.
  set (w := mkWorld _ _ _) in *.
  assert (us_reserved after = us_reserved before + pl_reserved p) as Hres
    by by eapply (commit_reserved now' id dedupe payload p d w).
  split; [done|]. split; [done|]. split; [by apply (commit_active_run now' id dedupe payload p)|].
  split.
  { intros j Hj. change (j < next_id (d_queue d) + 1). change (is_Some (tasks w !! j)) in Hj. simpl in Hj.
    destruct (decide (j = next_id (d_queue d))) as [->|Hne]; [lia|].
    rewrite lookup_insert_ne in Hj by done. apply Hf in Hj. lia. }
  split; [done|]. split; [done|]. intros cap Hcap. unfold _refuse_over_budget in Hbud.
  rewrite Hcap in Hbud. fold sponsor in Hbud. fold before in Hbud.
  assert (us_spent after = us_spent before) as -> by done. rewrite Hres.
  destruct (Z.ltb_spec cap (us_spent before + us_reserved before + pl_reserved p)); [done|lia].
Qed.

(** A refused admission has queued nothing and moved no board: the tasks, the boards,
    their members and the outbox are as they were, and at most a row of run settings was
    added. *)
Theorem refusal_queues_nothing now id dedupe d d' e :
  admit_run ps i environ decrypt sha256 jsonb_text put_verified iso now id dedupe d = (d', Err e) →
  tasks (d_queue d') = tasks (d_queue d) ∧ outbox (d_queue d') = outbox (d_queue d) ∧
  d_boards d' = d_boards d ∧ d_members d' = d_members d ∧ d_calls d' = d_calls d ∧
  d_tables d' = d_tables d.
Proof.
  unfold admit_run, admit_prepare. destruct (dedupe_taken (match dedupe with Some "" => None | k => k end) _); [by intros [= <- _]|].
  destruct (_plan _ _ _ _ _ _ _ _ _ d) as [d1 r] eqn:Ep.
  assert (∃ c, d1 = with_configs c d) as [c ->].
  { unfold _plan in Ep. assert (d = with_configs (d_configs d) d) as Hd by by destruct d.
    repeat case_match; simplify_eq; eauto. }
  destruct r as [p|]; [|by intros [= <- _]]. destruct (put_verified _) as [ref|]; [|by intros [= <- _]].
  unfold admit_commit. destruct (negb _); [by intros [= <- _]|].
  destruct (rbind _ _); [|by intros [= <- _]]. unfold enqueue.
  destruct (dedupe_taken _ _); by intros [= <- _].
Qed.
End safety.

(** ** What a projection leaves *)

Lemma joined_lookup (now board : Z) (t : list (Z * Z)) (old m : gmap (Z * Z) member) (k : Z * Z) :
  NoDup t.*1 →
  joined now board t old m !! k =
  match find (λ js : Z * Z, js.1 =? k.2) t, old !! k with
  | Some js, None => if k.1 =? board then Some (mkMember now js.2) else m !! k
  | _, _ => m !! k
  end.
Proof.
  unfold joined. revert m. induction t as [|[x s] t IH]; intros m Hnd; [done|]. csimpl in *.
  apply NoDup_cons in Hnd as [Hx Hnd]. rewrite IH by done. destruct k as [b y]; simpl.
  destruct (Z.eqb_spec x y) as [->|Hne]; simpl.
  - assert (find (λ js : Z * Z, js.1 =? y) t = None) as ->.
    { destruct (find _ t) as [js|] eqn:E; [|done]. apply find_some in E as [Hin E].
      apply Z.eqb_eq in E. destruct Hx. apply list_elem_of_fmap. exists js. split; [done|].
      by apply list_elem_of_In. }
    destruct (Z.eqb_spec b board) as [->|Hb].
    + destruct (old !! (board, y)); [done|]. by rewrite lookup_insert_eq.
    + destruct (old !! (board, y)), (old !! (b, y)); try done; rewrite lookup_insert_ne; congruence.
  - assert (∀ r, (match old !! (board, x) with Some _ => m | None => <[(board, x) := r]> m end) !! (b, y)
                 = m !! (b, y)) as Hm.
    { intros r. destruct (old !! (board, x)); [done|]. apply lookup_insert_ne. congruence. }
    by rewrite Hm.
Qed.

(** Each row after the write: a board's own are the target's, with the time each joined;
    another's are as they were. *)
Lemma write_members_lookup (now board : Z) (t : list (Z * Z)) (m : gmap (Z * Z) member) (b j : Z) :
  NoDup t.*1 →
  _WRITE_MEMBERS now board t m !! (b, j) =
  if b =? board then
    match find (λ js : Z * Z, js.1 =? j) t with
    | Some js => Some (mkMember (default now (me_projected_at <$> m !! (board, j))) js.2)
    | None => None
    end
  else m !! (b, j).
Proof.
  intros Hnd. unfold _WRITE_MEMBERS. rewrite joined_lookup by done. simpl.
  unfold moved. rewrite map_lookup_imap. unfold gone. rewrite map_lookup_filter. simpl.
  destruct (Z.eqb_spec b board) as [->|Hb].
  - destruct (find (λ js : Z * Z, js.1 =? j) t) as [js|] eqn:Ef.
    + assert (j ∈ t.*1) as Hj.
      { apply find_some in Ef as [Hin E]. apply Z.eqb_eq in E. apply list_elem_of_fmap. exists js.
        split; [done|]. by apply list_elem_of_In. }
      destruct (m !! (board, j)) as [r|]; simpl; [|done].
      rewrite option_guard_True by tauto. by simpl.
    + destruct (m !! (board, j)) as [r|]; simpl; [|done].
      rewrite option_guard_False; [done|]. intros Hn. apply Hn. split; [done|].
      intros (js & -> & Hin)%list_elem_of_fmap. apply list_elem_of_In in Hin.
      pose proof (find_none _ _ Ef js Hin) as Hf. simpl in Hf. by rewrite Z.eqb_refl in Hf.
  - destruct (m !! (b, j)) as [r|]; simpl.
    + rewrite option_guard_True by tauto. simpl. by destruct (find _ t).
    + by destruct (find _ t).
Qed.

Lemma find_target (t : list (Z * Z)) (j s : Z) :
  NoDup t.*1 → find (λ js : Z * Z, js.1 =? j) t = Some (j, s) ↔ (j, s) ∈ t.
Proof.
  intros Hnd. split.
  - intros H. by apply find_some in H as [Hin%list_elem_of_In _].
  - induction t as [|[x y] t IH]; intros Hin; [by apply elem_of_nil in Hin|]. csimpl in *.
    apply NoDup_cons in Hnd as [Hx Hnd]. apply elem_of_cons in Hin as [[= -> ->]|Hin].
    + by rewrite Z.eqb_refl.
    + destruct (Z.eqb_spec x j) as [->|]; [|by apply IH]. destruct Hx. apply list_elem_of_fmap. by exists (j, s).
Qed.

Lemma target_sublist p d : sublist (target p d) (pj_jobs p).
Proof.
  unfold target. destruct (String.eqb _ _); [done|].
  induction (pj_jobs p) as [|x l IH]; [constructor|]. simpl.
  destruct (admits _ _ _ _); by constructor.
Qed.

Lemma target_NoDup p d : NoDup (pj_jobs p).*1 → NoDup (target p d).*1.
Proof.
  intros H. eapply sublist_NoDup; [exact H|]. apply sublist_fmap, target_sublist.
Qed.

(** Who the board shows after a run that looked at [jobs]: all of them when it reuses the
    sponsor's own verdicts, else those whose newest answer passed, and with it unless it
    fails closed those no answer rejected. *)
Definition belongs (p : projection) (d : db) (j : Z) : Prop :=
  let o := outcome p (answering (d_equivalence d) "custom" (pj_requested_model p)) d j in
  pj_execution_mode p = "sponsor_filter_reuse" ∨ o = Some "passed" ∨
  (pj_fail_closed p = false ∧ o ≠ Some "rejected").

Lemma target_elem p d j s : (j, s) ∈ target p d ↔ (j, s) ∈ pj_jobs p ∧ belongs p d j.
Proof.
  unfold target, belongs. destruct (String.eqb_spec (pj_execution_mode p) "sponsor_filter_reuse").
  - tauto.
  - rewrite list_elem_of_In, filter_In, <- list_elem_of_In. apply and_iff_compat_l. simpl.
    unfold admits, status_is. rewrite orb_true_iff, andb_true_iff, !negb_true_iff,
      bool_decide_eq_true, bool_decide_eq_false. tauto.
Qed.

(** C19: A projection writes exactly the postings that belong, each with its sort time and
    the time it first joined, and no other board's rows; it counts them, marks the board
    projected and, when it is published, moves its public revision on by one; run again
    it changes no row. *)
Theorem projection_exact now p d d' n :
  NoDup (pj_jobs p).*1 →
  replace_projection now p d = (d', Ok n) →
  let id := pj_managed_board_id p in
  (∀ j s, (∃ r, d_members d' !! (id, j) = Some r ∧ me_sort_at r = s) ↔ (j, s) ∈ pj_jobs p ∧ belongs p d j) ∧
  (∀ j r r', d_members d !! (id, j) = Some r → d_members d' !! (id, j) = Some r' →
             me_projected_at r' = me_projected_at r) ∧
  (∀ b j, b ≠ id → d_members d' !! (b, j) = d_members d !! (b, j)) ∧
  n = length (target p d) ∧
  (∃ b, d_boards d !! id = Some b ∧ mb_revision b = pj_revision p ∧
        d_boards d' !! id = Some (projected now b)) ∧
  (∀ later, d_members (replace_projection later p d').1 = d_members d').
Proof.
  intros Hnd Hrun id. unfold replace_projection in Hrun. fold id in Hrun.
  destruct (d_boards d !! id) as [b|] eqn:Eb; [|done]. revert Hrun.
  destruct (Z.eqb_spec (mb_revision b) (pj_revision p)) as [Er|]; simpl; [|done].
  destruct (forallb _ _) eqn:Efk; simpl; [|done]. intros [= <- <-].
  pose proof (target_NoDup p d Hnd) as Ht.
  assert (∀ x j, _WRITE_MEMBERS now id (target p d) (d_members d) !! (x, j) = _) as Hl
    by (intros x j; exact (write_members_lookup now id (target p d) (d_members d) x j Ht)).
  split; [|split; [|split; [|split; [|split]]]].
  - intros j s. simpl. rewrite <- target_elem. fold id. rewrite Hl, Z.eqb_refl, <- find_target by done. split.
    + intros (r & Hr & <-). destruct (find _ _) as [[x s]|] eqn:E; [|done]. injection Hr as <-. simpl.
      apply find_some in E as [_ E]. simpl in E. apply Z.eqb_eq in E. by subst x.
    + intros E. rewrite E. eexists. split; [done|]. done.
  - intros j r r' Hr. simpl. fold id. rewrite Hl, Z.eqb_refl. destruct (find _ _); [|done].
    change (d_members d !! (id, j) = Some r) in Hr. rewrite Hr. by intros [= <-].
  - intros x j Hx. simpl. fold id. rewrite Hl. apply Z.eqb_neq in Hx. by rewrite Hx.
  - done.
  - exists b. split; [done|]. split; [done|]. simpl. by rewrite lookup_insert_eq.
  - intros later. unfold replace_projection. cbn [d_boards with_members]. rewrite lookup_insert_eq.
    cbn [mb_revision projected]. rewrite Er, Z.eqb_refl. simpl.
    change (target p (with_members _ _ d)) with (target p d).
    destruct (negb _); [done|]. simpl. fold id. apply map_eq. intros [x j].
    rewrite write_members_lookup by done. rewrite !Hl, Z.eqb_refl.
    destruct (x =? id); [|done]. by destruct (find _ _).
Qed.

(** ** Which postings a reuse run projects *)

Lemma bind_length_all {A B} (f : A → list B) (l : list A) :
  (∀ x, (length (f x) ≤ 1)%nat) →
  (length (l ≫= f) ≤ length l)%nat ∧
  (length (l ≫= f) = length l ↔ ∀ x, x ∈ l → f x ≠ []).
Proof.
  intros H1. induction l as [|x l [IHle IH]].
  - split; [done|]. split; [by intros _ x ?%elem_of_nil|done].
  - rewrite bind_cons, length_app, length_cons. specialize (H1 x) as Hx. split; [lia|].
    setoid_rewrite elem_of_cons. split.
    + intros Hl z [->|Hz].
      * intros E. rewrite E in Hl. simpl in Hl. lia.
      * apply IH; [lia|done].
    + intros Hall. rewrite (proj2 IH) by eauto.
      destruct (f x) as [|y l'] eqn:E; [by destruct (Hall x); [left|]|]. simpl in *. lia.
Qed.

(** The newest decided answer of some models to a prompt. *)
Definition latest_of (models : list string) (url h : string) (answers : list answer) : option answer :=
  find (λ a, String.eqb (a_url a) url && String.eqb (a_check_type a) "custom" &&
             column_is (a_prompt_hash a) h &&
             match a_model a with Some m => mem m models | None => false end) (verdicts answers).

Lemma latest_custom_elem models enabled url h answers a :
  h ∈ enabled →
  latest_of models url h answers = Some a ↔
  a ∈ _LATEST_CUSTOM models enabled answers ∧ a_url a = url ∧ a_prompt_hash a = Some h.
Proof.
  intros Hh. unfold _LATEST_CUSTOM, latest_of. rewrite latest_per_elem.
  assert (∀ x, String.eqb (a_url x) url && String.eqb (a_check_type x) "custom" &&
               column_is (a_prompt_hash x) h &&
               match a_model x with Some m => mem m models | None => false end
               = (String.eqb (a_check_type x) "custom" &&
                  match a_model x with Some m => mem m models | None => false end &&
                  match a_prompt_hash x with Some h => mem h enabled | None => false end) &&
                 bool_decide ((a_url x, a_prompt_hash x) = (url, Some h))) as Heq.
  { intros x. destruct (decide ((a_url x, a_prompt_hash x) = (url, Some h))) as [E|E].
    - rewrite (bool_decide_eq_true_2 _ E). injection E as E1 E2. unfold column_is, mem.
      rewrite E1, E2, String.eqb_refl, !(bool_decide_eq_true_2 (_ = _)), (bool_decide_eq_true_2 (h ∈ _)) by done.
      simpl. rewrite !andb_true_r. by destruct (String.eqb _ _).
    - rewrite (bool_decide_eq_false_2 _ E), andb_false_r. unfold column_is.
      destruct (String.eqb_spec (a_url x) url) as [E1|]; [|done].
      rewrite bool_decide_eq_false_2 by congruence. by rewrite andb_false_r. }
  split.
  - intros H. pose proof (find_some _ _ H) as [_ Ha]. rewrite Heq in Ha.
    apply andb_true_iff in Ha as [_ Ha]. breflect. injection Ha as Hu Hp.
    split; [|done]. rewrite Hu, Hp, <- H. apply find_first_eq. intros x _. by rewrite Heq.
  - intros (H & Hu & Hp). rewrite Hu, Hp in H. rewrite <- H. apply find_first_eq.
    intros x _. by rewrite Heq.
Qed.

(** At most one row per key. *)
Lemma filter_key_unique {K} (key : answer → K) (l : list answer) (P : answer → bool) k :
  NoDup (key <$> l) → (∀ a, P a = true → key a = k) → (length (List.filter P l) ≤ 1)%nat.
Proof.
  intros Hnd HP. induction l as [|a l IH]; [simpl; lia|]. csimpl in Hnd. apply NoDup_cons in Hnd as [Hn Hnd].
  simpl. destruct (P a) eqn:E; [|auto]. simpl.
  assert (List.filter P l = []) as ->; [|done].
  destruct (List.filter P l) as [|b l'] eqn:Ef; [done|]. exfalso. apply Hn.
  assert (In b (List.filter P l)) as Hb by (rewrite Ef; by left).
  apply filter_In in Hb as [Hb Hpb]. apply list_elem_of_fmap. exists b.
  split; [by rewrite (HP a E), (HP b Hpb)|by apply list_elem_of_In].
Qed.

Lemma joined_passes_all models enabled url answers :
  joined_passes enabled url (_LATEST_CUSTOM models enabled answers) = length enabled ↔
  ∀ h, h ∈ enabled → a_status <$> latest_of models url h answers = Some "passed".
Proof.
  unfold joined_passes. set (f := λ e, List.filter _ _).
  assert (∀ h, (length (f h) ≤ 1)%nat) as H1.
  { intros h. apply (filter_key_unique (λ a, (a_url a, a_prompt_hash a)) _ _ (url, Some h)).
    - apply (distinct_on_keys (λ a, (a_url a, a_prompt_hash a))).
    - intros a Ha. apply andb_true_iff in Ha as [Ha _]. apply andb_true_iff in Ha as [Hu Hk].
      apply String.eqb_eq in Hu. unfold column_is in Hk. breflect. congruence. }
  rewrite (proj2 (bind_length_all f enabled H1)). subst f. cbv beta.
  split; intros H h Hh; specialize (H h Hh).
    - destruct (List.filter _ _) as [|a l] eqn:E; [done|].
      assert (In a (a :: l)) as Ha by by left. rewrite <- E in Ha. apply filter_In in Ha as [Ha Hp].
      apply andb_true_iff in Hp as [Hp Hs]. apply andb_true_iff in Hp as [Hu Hk].
      apply String.eqb_eq in Hu, Hs. unfold column_is in Hk. breflect. apply list_elem_of_In in Ha.
      apply fmap_Some. exists a. split; [|done]. by apply (latest_custom_elem models enabled).
    - apply fmap_Some in H as (a & Ha & Hs). apply (latest_custom_elem models enabled) in Ha as (Ha & Hu & Hk); [|done].
      intros E. assert (In a []) as Hin; [|done]. rewrite <- E. apply filter_In.
      split; [by apply list_elem_of_In|]. unfold column_is.
      by rewrite Hu, Hk, <- Hs, !String.eqb_refl, bool_decide_eq_true_2.
Qed.

(** A reuse run projects a posting exactly when its sponsor holds its source, it
    passes the sponsor's structural gates, the sponsor has an enabled filter, and the
    newest answer of an answering model to each enabled filter passed; so when every
    answer to their filters came from such a model it projects what the sponsor's own
    gates admit. *)
Theorem reuse_projects_sponsor_verdicts now sponsor model d j :
  let b := d_tables d in
  let models := answering (d_equivalence d) "custom" model in
  (reuse_candidate now sponsor models d j = true ↔
   SUBSCRIBED sponsor j b = true ∧
   STRUCTURAL_PER_POSTING now (params (settings_of sponsor b).1) (settings_of sponsor b).2 j b = true ∧
   ENABLED_FILTERS sponsor b ≠ [] ∧
   ∀ h, h ∈ ENABLED_FILTERS sponsor b → a_status <$> latest_of models (j_url j) h (b_answers b) = Some "passed") ∧
  ((∀ a, a ∈ b_answers b → a_check_type a = "custom" → ∃ m, a_model a = Some m ∧ m ∈ models) →
   reuse_candidate now sponsor models d j = true ↔ judged_in now sponsor b j ∧ ENABLED_FILTERS sponsor b ≠ []).
Proof.
  intros b models. unfold reuse_candidate. fold b. destruct (settings_of sponsor b) as [crit bypass] eqn:Es.
  rewrite structural_spellings_agree, !andb_true_iff, Nat.eqb_eq, Nat.ltb_lt, joined_passes_all.
  assert ((0 < length (ENABLED_FILTERS sponsor b))%nat ↔ ENABLED_FILTERS sponsor b ≠ []) as ->.
  { destruct (ENABLED_FILTERS sponsor b); simpl; split; (lia || done). }
  split; [tauto|]. intros Hmodels.
  assert (∀ h, latest_of models (j_url j) h (b_answers b) = latest (j_url j) "custom" (Some h) None (b_answers b)) as Hl.
  { intros h. unfold latest_of, latest. apply find_first_eq. intros x Hx. unfold about. simpl. rewrite andb_true_r.
    destruct (String.eqb_spec (a_check_type x) "custom") as [E|E]; [|by rewrite andb_false_r].
    unfold verdicts in Hx. apply filter_In in Hx as [Hx _]. apply list_elem_of_In in Hx.
    destruct (Hmodels x Hx E) as (m & -> & Hm). unfold mem. rewrite bool_decide_eq_true_2 by done.
    by rewrite andb_true_r. }
  setoid_rewrite Hl. unfold SUBSCRIBED, STRUCTURAL_PER_POSTING, status_is.
  rewrite !andb_true_iff, !orb_true_iff, !bool_decide_eq_true. split.
  - intros [[[Hs [[[Ha Hc] Ho] Hp]] Hn] Hf]. split; [|done]. constructor; rewrite ?Es; try done.
    intros f Hin Hu He. apply Hf, elem_of_ENABLED_FILTERS. eauto.
  - intros [[Ha Hc Ho Hp Hs Hf] Hn]. rewrite Es in Hc, Hp. simpl in Hc, Hp. split_and!; try done.
    intros h (f & Hin & Hu & He & <-)%elem_of_ENABLED_FILTERS. by apply Hf.
Qed.

(** ** Witnesses *)

Definition demo_job : job := mkJob "u1" "u1" "Acme" "Engineer" [] [] "acme" None true (Some true) None 0.

Definition demo_answer (check : string) (model hash : option string) : answer :=
  mkAnswer "u1" check "passed" None None model hash None None None 0.

Definition demo_tables : board :=
  mkBoard {[ 1 := demo_job ]} ∅ ∅ ∅ [demo_answer "closed" None None; demo_answer "clearance" None None] []
    (mkSelections ∅ ∅ ∅ {[ (7, "acme") ]} ∅) ∅ ∅ ∅ ∅.

Definition demo_board : managed_board :=
  mkManagedBoard 3 "remote only" "h" "gpt-5-nano" "managed_filter" "keep" false false no_criteria None 1 true
    (Some 4) None.

Definition demo_db (boards : gmap Z managed_board) : db :=
  mkDb boards ∅ {[ 3 := ["friends"] ]} [mkBudget "friends" (Some 1000) (Some ["gpt-5-nano"])] ∅ []
    (mkWorld ∅ 1 []) no_configs demo_tables [] ∅ [].

Definition demo_put (j : json) : option PayloadRef := Some (mkRef "b" "k" "s" 1 2).
Definition demo_environ : gmap string string := {[ "OPENAI_API_KEY" := "k" ]}.

Definition demo_prepare : db * result run_refusal (_Plan * jobject) :=
  admit_prepare PROVIDERS MODELS demo_environ (λ s, s) (λ s, s) demo_text demo_put (λ _, "t") 0 7 None
    (demo_db {[ 7 := demo_board ]}).

Definition demo_admit : result run_refusal ManagedBoardRunQueued * option Z * world :=
  match demo_prepare with
  | (d1, Ok (p, payload)) => ((admit_commit 0 7 None payload p d1).2, pl_cap p, d_queue d1)
  | (d1, Err e) => (Err e, None, d_queue d1)
  end.

Lemma demo_admit_ok : is_ok demo_admit.1.1 = true ∧ demo_admit.1.2 = Some 1000 ∧ demo_admit.2 = mkWorld ∅ 1 [].
Proof. repeat split; vm_compute; reflexivity. Qed.

Lemma admission_within_allowance_witness :
  ∃ d1 p payload d' q,
    demo_prepare = (d1, Ok (p, payload)) ∧ pl_cap p = Some 1000 ∧
    admit_commit 0 7 None payload p d1 = (d', Ok q) ∧
    let after := _usage_position 0 (bo_sponsor_user_id (pl_board p)) d' in
    us_spent after + us_reserved after <= 1000.
Proof.
  destruct demo_admit_ok as (Hok & Hcap & Hq). unfold demo_admit in Hok, Hcap, Hq.
  destruct demo_prepare as [d1 [[p payload]|e]] eqn:E; [|discriminate Hok]. cbn [fst snd] in Hok, Hcap, Hq.
  destruct (admit_commit 0 7 None payload p d1) as [d' [q|e]] eqn:Ec; [|discriminate Hok].
  exists d1, p, payload, d', q. split; [done|]. split; [done|]. split; [done|].
  refine (proj2 (proj2 (proj2 (proj2 (proj2 (proj2
    (admission_within_allowance PROVIDERS MODELS demo_environ (λ s, s) (λ s, s) demo_text demo_put (λ _, "t")
       0 0 7 None (demo_db {[ 7 := demo_board ]}) d1 p payload d1 d' q E _ Ec)))))) 1000 Hcap).
  rewrite Hq. intros j [t Ht]. simpl in Ht. by rewrite lookup_empty in Ht.
Defined.

Lemma refusal_queues_nothing_witness :
  ∃ d', admit_run PROVIDERS MODELS demo_environ (λ s, s) (λ s, s) demo_text demo_put (λ _, "t") 0 9 None
          (demo_db {[ 7 := demo_board ]}) = (d', Err NOT_FOUND) ∧ tasks (d_queue d') = ∅.
Proof.
  assert (match (admit_run PROVIDERS MODELS demo_environ (λ s, s) (λ s, s) demo_text demo_put (λ _, "t") 0 9 None
            (demo_db {[ 7 := demo_board ]})).2 with Err NOT_FOUND => true | _ => false end = true) as Hr
    by (vm_compute; reflexivity).
  destruct (admit_run PROVIDERS MODELS demo_environ (λ s, s) (λ s, s) demo_text demo_put (λ _, "t") 0 9 None
              (demo_db {[ 7 := demo_board ]})) as [d' [q|[]]] eqn:E; try discriminate Hr.
  exists d'. split; [done|].
  apply (refusal_queues_nothing PROVIDERS MODELS demo_environ (λ s, s) (λ s, s) demo_text demo_put (λ _, "t")
           0 9 None (demo_db {[ 7 := demo_board ]}) d' NOT_FOUND E).
Defined.

Definition demo_projection : projection := mkProjection 7 1 "managed_filter" "h" "gpt-5-nano" false [(1, 10)].

Lemma projection_exact_witness :
  ∃ d' n, replace_projection 5 demo_projection (demo_db {[ 7 := demo_board ]}) = (d', Ok n) ∧
          ∃ b, d_boards d' !! 7 = Some b ∧ mb_public_revision b = Some 5.
Proof.
  assert (is_ok (replace_projection 5 demo_projection (demo_db {[ 7 := demo_board ]})).2 = true) as Hr
    by (vm_compute; reflexivity).
  destruct (replace_projection 5 demo_projection (demo_db {[ 7 := demo_board ]})) as [d' [n|e]] eqn:E;
    [|discriminate Hr].
  exists d', n. split; [done|].
  pose proof (projection_exact 5 demo_projection (demo_db {[ 7 := demo_board ]}) d' n) as H.
  destruct H as (_ & _ & _ & _ & (b & Hb & _ & Hb') & _); [apply NoDup_singleton|exact E|].
  exists (projected 5 b). split; [exact Hb'|]. simpl in Hb. injection Hb as <-. reflexivity.
Defined.
