(* ===== verification/PyStd.v ===== *)
(** * Times of Python's standard library

    What the scheduler uses of [datetime]: an instant as microseconds since 1970 in UTC,
    its civil date and its text. *)

From stdpp Require Import pretty.
From Stdlib Require Import Ascii.
From S2P Require Import Prelude PyStr.

Local Open Scope string_scope.
Local Open Scope Z_scope.

(** ** [datetime] *)

Definition US_PER_MINUTE : Z := 60 * 1000000.
Definition US_PER_DAY : Z := 24 * 60 * US_PER_MINUTE.

(** Year, month and day of a day number, 0 being 1970-01-01: the proleptic Gregorian
    calendar, counted in eras of 400 years from 1 March. *)
Definition civil (days : Z) : Z * Z * Z :=
  let z := days + 719468 in
  let era := z `div` 146097 in
  let doe := z `mod` 146097 in
  let yoe := (doe - doe `div` 1460 + doe `div` 36524 - doe `div` 146096) `div` 365 in
  let doy := doe - (365 * yoe + yoe `div` 4 - yoe `div` 100) in
  let mp := (5 * doy + 2) `div` 153 in
  let d := doy - (153 * mp + 2) `div` 5 + 1 in
  let m := if mp <? 10 then mp + 3 else mp - 9 in
  (yoe + era * 400 + (if m <=? 2 then 1 else 0), m, d).

Definition pad2 (n : Z) : string := if n <? 10 then "0" ++ pretty n else pretty n.

(** [strftime("%Y-%m-%d")]. *)
Definition strftime_day (t : Z) : string :=
  let '(y, m, d) := civil (t `div` US_PER_DAY) in pretty y ++ "-" ++ pad2 m ++ "-" ++ pad2 d.

Definition hour_of (t : Z) : Z := t `mod` US_PER_DAY `div` (60 * US_PER_MINUTE).
Definition minute_of (t : Z) : Z := t `mod` (60 * US_PER_MINUTE) `div` US_PER_MINUTE.

(** [strftime("%Y-%m-%dT%H:%M")]. *)
Definition strftime_minute (t : Z) : string :=
  strftime_day t ++ "T" ++ pad2 (hour_of t) ++ ":" ++ pad2 (minute_of t).

(** [t.replace(minute=m, second=0, microsecond=0)]. *)
Definition replace_minute (t m : Z) : Z := t - t `mod` (60 * US_PER_MINUTE) + m * US_PER_MINUTE.

Example strftime_epoch : strftime_minute 0 = "1970-01-01T00:00".
Proof. reflexivity. Qed.
Example strftime_leap : strftime_minute (951782400 * 1000000 + 125 * US_PER_MINUTE) = "2000-02-29T02:05".
Proof. reflexivity. Qed.
