(* ===== verification/Urls.v ===== *)
(** * URLs and addresses ([urllib.parse], [ipaddress], [core.fetching.hosts])

    What the code takes from Python's [urlparse] and [ipaddress]: the parts of a URL, and
    which networks an address belongs to; and the host a request is paced under. *)

From S2P Require Import Prelude PyStr.
From Stdlib Require Import Ascii.

Local Open Scope string_scope.
Local Open Scope list_scope.
Local Open Scope Z_scope.

(** ** Splitting text *)

(** [str.partition] and [str.rpartition] by one character: before, whether it is there, after. *)
Fixpoint partition (sep : ascii) (l : list ascii) : list ascii * bool * list ascii :=
  match l with
  | [] => ([], false, [])
  | c :: l =>
      if Ascii.eqb c sep then ([], true, l)
      else let '(a, found, b) := partition sep l in (c :: a, found, b)
  end.

Definition rpartition (sep : ascii) (l : list ascii) : list ascii * bool * list ascii :=
  let '(a, found, b) := partition sep (rev l) in
  if found then (rev b, true, rev a) else ([], false, l).

(** [str.split] by one character. *)
Fixpoint split_at (sep : ascii) (l : list ascii) : list (list ascii) :=
  match l with
  | [] => [[]]
  | c :: l =>
      if Ascii.eqb c sep then [] :: split_at sep l
      else match split_at sep l with
           | s :: rest => (c :: s) :: rest
           | [] => [[c]]
           end
  end.

Definition has_char (c : ascii) (l : list ascii) : bool := existsb (Ascii.eqb c) l.

(** ** Addresses ([ipaddress]) *)

Inductive ip_addr : Type :=
| V4 (n : Z)
| V6 (n : Z).

Fixpoint decimal_value (acc : Z) (l : list ascii) : Z :=
  match l with
  | [] => acc
  | c :: l => decimal_value (acc * 10 + Z.of_nat (code c - 48)) l
  end.

(** [_parse_octet]: one to three digits, without a leading zero, at most 255. *)
Definition parse_octet (l : list ascii) : option Z :=
  let v := decimal_value 0 l in
  if (1 <=? length l)%nat && (length l <=? 3)%nat && forallb is_digit l &&
     negb ((2 <=? length l)%nat && match l with c :: _ => Ascii.eqb c "0"%char | [] => false end) &&
     (v <=? 255)
  then Some v else None.

Definition octets (l : list ascii) : option (list Z) := mapM parse_octet (split_at "."%char l).

Definition parse_v4 (l : list ascii) : option Z :=
  match octets l with
  | Some [a; b; c; d] => Some (((a * 256 + b) * 256 + c) * 256 + d)
  | _ => None
  end.

Definition hex_digit_value (c : ascii) : option Z :=
  if is_digit c then Some (Z.of_nat (code c) - 48)
  else if (97 <=? code c)%nat && (code c <=? 102)%nat then Some (Z.of_nat (code c) - 87)
  else if (65 <=? code c)%nat && (code c <=? 70)%nat then Some (Z.of_nat (code c) - 55)
  else None.

Fixpoint hex_from (acc : Z) (l : list ascii) : option Z :=
  match l with
  | [] => Some acc
  | c :: l => v ← hex_digit_value c; hex_from (acc * 16 + v) l
  end.

(** [_parse_hextet]. *)
Definition parse_hextet (l : list ascii) : option Z :=
  if (1 <=? length l)%nat && (length l <=? 4)%nat then hex_from 0 l else None.

(** A part of the text: its characters, or the half of a dotted address at its end. *)
Definition hextet : Type := list ascii + Z.

Definition hextet_value (h : hextet) : option Z :=
  match h with
  | inl l => parse_hextet l
  | inr z => Some z
  end.

Definition empty_part (h : hextet) : bool := match h with inl [] => true | _ => false end.

(** The dotted quad, when the last part has a dot, as two parts. *)
Definition v6_parts (l : list ascii) : option (list hextet) :=
  let parts := split_at ":"%char l in
  if (length parts <? 3)%nat then None
  else
    let tail := default [] (last parts) in
    if has_char "."%char tail
    then n ← parse_v4 tail;
         Some (map inl (take (length parts - 1) parts) ++ [inr (Z.shiftr n 16); inr (Z.land n 65535)])
    else Some (map inl parts).

(** The inner parts that are empty. *)
Definition skips (parts : list hextet) : list nat :=
  List.filter (λ i, match parts !! i with Some h => empty_part h | None => false end)
    (seq 1 (length parts - 2)).

Definition join_hextets (l : list hextet) : option Z :=
  foldl (λ acc h, a ← acc; v ← hextet_value h; Some (Z.lor (Z.shiftl a 16) v)) (Some 0) l.

(** [_ip_int_from_string]. *)
Definition v6_int (l : list ascii) : option Z :=
  parts ← v6_parts l;
  if (9 <? length parts)%nat then None
  else
    let first := match head parts with Some h => empty_part h | None => false end in
    let final := match last parts with Some h => empty_part h | None => false end in
    match skips parts with
    | [] =>
        if negb (length parts =? 8)%nat || first || final then None else join_hextets parts
    | [skip] =>
        let hi := if first then (skip - 1)%nat else skip in
        let lo := if final then (length parts - skip - 2)%nat else (length parts - skip - 1)%nat in
        if first && negb (hi =? 0)%nat || final && negb (lo =? 0)%nat || (8 <=? hi + lo)%nat then None
        else
          high ← join_hextets (take hi parts);
          low ← join_hextets (if (lo =? 0)%nat then [] else drop (length parts - lo) parts);
          Some (Z.lor (Z.shiftl high (16 * Z.of_nat (8 - hi))) low)
    | _ => None
    end.

(** [IPv6Address]: an optional zone after a percent sign. *)
Definition parse_v6 (l : list ascii) : option Z :=
  let '(addr, zoned, zone) := partition "%"%char l in
  if zoned && (match zone with [] => true | _ => has_char "%"%char zone end) then None
  else if has_char "/"%char addr then None
  else v6_int addr.

(** [ipaddress.ip_address]; [None] is ValueError. *)
Definition ip_address (s : string) : option ip_addr :=
  match parse_v4 (chars s) with
  | Some n => Some (V4 n)
  | None => V6 <$> parse_v6 (chars s)
  end.

(** ** Networks *)

(** A prefix and its length. *)
Definition network : Type := Z * Z.

Definition in_network (bits n : Z) (net : network) : bool :=
  Z.shiftr n (bits - net.2) =? Z.shiftr net.1 (bits - net.2).

Definition quad (a b c d : Z) : Z := ((a * 256 + b) * 256 + c) * 256 + d.

Definition v4_private : list network :=
  [(quad 0 0 0 0, 8); (quad 10 0 0 0, 8); (quad 127 0 0 0, 8); (quad 169 254 0 0, 16); (quad 172 16 0 0, 12);
   (quad 192 0 0 0, 24); (quad 192 0 0 170, 31); (quad 192 0 2 0, 24); (quad 192 168 0 0, 16);
   (quad 198 18 0 0, 15); (quad 198 51 100 0, 24); (quad 203 0 113 0, 24); (quad 240 0 0 0, 4);
   (quad 255 255 255 255, 32)].

Definition v4_private_exceptions : list network := [(quad 192 0 0 9, 32); (quad 192 0 0 10, 32)].

(** The first hextets of a prefix. *)
Definition hextets (l : list Z) : Z :=
  Z.shiftl (foldl (λ acc h, acc * 65536 + h) 0 l) (16 * (8 - Z.of_nat (length l))).

Definition v6_private : list network :=
  [(1, 128); (0, 128); (hextets [0; 0; 0; 0; 0; 65535], 96); (hextets [100; 65435; 1], 48);
   (hextets [256], 64); (hextets [8193], 23); (hextets [8193; 3512], 32); (hextets [8194], 16);
   (hextets [16383], 20); (hextets [64512], 7); (hextets [65152], 10)].

Definition v6_private_exceptions : list network :=
  [(hextets [8193; 1; 0; 0; 0; 0; 0; 1], 128); (hextets [8193; 1; 0; 0; 0; 0; 0; 2], 128);
   (hextets [8193; 3], 32); (hextets [8193; 4; 274], 48); (hextets [8193; 32], 28); (hextets [8193; 48], 28)].

Definition v6_reserved : list network :=
  [(hextets [0], 8); (hextets [256], 8); (hextets [512], 7); (hextets [1024], 6); (hextets [2048], 5);
   (hextets [4096], 4); (hextets [16384], 3); (hextets [24576], 3); (hextets [32768], 3); (hextets [40960], 3);
   (hextets [49152], 3); (hextets [57344], 4); (hextets [61440], 5); (hextets [63488], 6); (hextets [65024], 9)].

Definition in_any (bits n : Z) (nets : list network) : bool := existsb (in_network bits n) nets.

Definition v4_is_private (n : Z) : bool := in_any 32 n v4_private && negb (in_any 32 n v4_private_exceptions).

Definition ipv4_mapped (n : Z) : option Z :=
  if Z.shiftr n 32 =? 65535 then Some (Z.land n 4294967295) else None.

(** The properties of an address the checks read, less the mapped ones, which are read of the
    address inside. *)
Definition is_private (a : ip_addr) : bool :=
  match a with
  | V4 n => v4_is_private n
  | V6 n => match ipv4_mapped n with
            | Some m => v4_is_private m
            | None => in_any 128 n v6_private && negb (in_any 128 n v6_private_exceptions)
            end
  end.

Definition is_loopback (a : ip_addr) : bool :=
  match a with V4 n => in_network 32 n (quad 127 0 0 0, 8) | V6 n => n =? 1 end.
Definition is_link_local (a : ip_addr) : bool :=
  match a with V4 n => in_network 32 n (quad 169 254 0 0, 16) | V6 n => in_network 128 n (hextets [65152], 10) end.
Definition is_multicast (a : ip_addr) : bool :=
  match a with V4 n => in_network 32 n (quad 224 0 0 0, 4) | V6 n => in_network 128 n (hextets [65280], 8) end.
Definition is_reserved (a : ip_addr) : bool :=
  match a with V4 n => in_network 32 n (quad 240 0 0 0, 4) | V6 n => in_any 128 n v6_reserved end.
Definition is_unspecified (a : ip_addr) : bool :=
  match a with V4 n => n =? 0 | V6 n => n =? 0 end.

(** ** URLs ([urlparse]) *)

Record parsed_url : Type := mkParsed {
  pu_scheme : string;
  pu_netloc : list ascii;
  pu_path : string;
  pu_query : string;
}.

Definition is_control_or_space (c : ascii) : bool := (code c <=? 32)%nat.
Definition is_unsafe (c : ascii) : bool := mem c ["009"; "013"; "010"]%char.
Definition is_alpha (c : ascii) : bool := is_upper c || is_lower c.
Definition is_scheme_char (c : ascii) : bool := is_alpha c || is_digit c || mem c ["+"; "-"; "."]%char.

(** The scheme, lower case, and the rest. *)
Definition split_scheme (l : list ascii) : string * list ascii :=
  let '(before, found, after) := partition ":"%char l in
  match before with
  | c :: _ => if found && is_alpha c && forallb is_scheme_char before
              then (lower (of_chars before), after) else ("", l)
  | [] => ("", l)
  end.

(** Up to the first of the characters. *)
Fixpoint until (stops l : list ascii) : list ascii * list ascii :=
  match l with
  | [] => ([], [])
  | c :: l' => if mem c stops then ([], l) else let '(a, b) := until stops l' in (c :: a, b)
  end.

(** [_check_bracketed_host]. *)
Definition bracketed_host_ok (h : list ascii) : bool :=
  match h with
  | "v"%char :: rest =>
      let '(hex, dot, tail) := partition "."%char rest in
      dot && match hex, tail with
             | _ :: _, _ :: _ => forallb (λ c, bool_decide (is_Some (hex_digit_value c))) hex
             | _, _ => false
             end
  | _ => match ip_address (of_chars h) with
         | Some (V6 _) => true
         | _ => false
         end
  end.

(** [_check_bracketed_netloc], for a netloc with both brackets. *)
Definition bracketed_ok (netloc : list ascii) : bool :=
  let host_and_port := (rpartition "@"%char netloc).2 in
  let '(before, opened, bracketed) := partition "["%char host_and_port in
  if opened
  then
    let '(host, _, port) := partition "]"%char bracketed in
    match before with [] => true | _ => false end &&
    match port with [] => true | c :: _ => Ascii.eqb c ":"%char end && bracketed_host_ok host
  else bracketed_host_ok (partition ":"%char host_and_port).1.1.

Definition netloc_ok (netloc : list ascii) : bool :=
  let opened := has_char "["%char netloc in
  let closed := has_char "]"%char netloc in
  Bool.eqb opened closed && (negb opened || bracketed_ok netloc).

Definition uses_params : list string :=
  [""; "ftp"; "hdl"; "prospero"; "http"; "https"; "shttp"; "rtsp"; "rtsps"; "rtspu"; "sip"; "sips"; "mms"; "sftp"; "tel"].

(** [_splitparams]: the parameters of the last segment go. *)
Definition without_params (path : list ascii) : list ascii :=
  let '(before, slash, last_segment) := rpartition "/"%char path in
  let kept := (partition ";"%char last_segment).1.1 in
  if slash then before ++ "/"%char :: kept else kept.

(** [None] is ValueError. *)
Definition urlparse (url : string) : option parsed_url :=
  let l := List.filter (λ c, negb (is_unsafe c)) (drop_while is_control_or_space (chars url)) in
  let '(scheme, l) := split_scheme l in
  let '(netloc, rest) :=
    match l with
    | "/"%char :: "/"%char :: l => until ["/"; "?"; "#"]%char l
    | _ => ([], l)
    end in
  if negb (netloc_ok netloc) then None
  else
    let '(path, _, query) := partition "?"%char (partition "#"%char rest).1.1 in
    Some (mkParsed scheme netloc (of_chars (if mem scheme uses_params then without_params path else path))
            (of_chars query)).

(** A zone keeps its case. *)
Definition url_hostname (u : parsed_url) : option string :=
  let host_info := (rpartition "@"%char (pu_netloc u)).2 in
  let '(_, opened, bracketed) := partition "["%char host_info in
  let host := if opened then (partition "]"%char bracketed).1.1 else (partition ":"%char host_info).1.1 in
  match host with
  | [] => None
  | _ => let '(name, percent, zone) := partition "%"%char host in
         Some (lower (of_chars name) ++ of_chars (if percent then "%"%char :: zone else []))%string
  end.

(** The user name and the password, each perhaps empty. *)
Definition credentials_of (u : parsed_url) : option (list ascii * option (list ascii)) :=
  let '(info, found, _) := rpartition "@"%char (pu_netloc u) in
  if found then let '(user, colon, password) := partition ":"%char info in
                Some (user, if colon then Some password else None)
  else None.

(** [parsed.username or parsed.password]. *)
Definition has_credentials (u : parsed_url) : bool :=
  match credentials_of u with
  | Some (_ :: _, _) | Some (_, Some (_ :: _)) => true
  | _ => false
  end.

(** ** The host a request is paced under ([core.fetching.hosts]) *)

Definition EIGHTFOLD_PCSX : string := "/api/pcsx/search".
Definition EIGHTFOLD_V2 : string := "/api/apply/v2/jobs".

Definition ends_with (suffix s : string) : bool := starts_with (rev (chars suffix)) (rev (chars s)).

(** The literal host; [None] is ValueError. *)
Definition hostname (url : string) : option string :=
  (λ u, lower (default "" (url_hostname u))) <$> urlparse url.

Definition pace_key (url : string) : option string :=
  u ← urlparse url;
  let host := lower (default "" (url_hostname u)) in
  Some (if String.eqb host "myworkdayjobs.com" || ends_with ".myworkdayjobs.com" host then "myworkdayjobs.com"
        else if String.eqb host "greenhouse.io" || ends_with ".greenhouse.io" host then "boards-api.greenhouse.io"
        else if ends_with ".eightfold.ai" host ||
                mem (rstrip "/" (pu_path u)) [EIGHTFOLD_PCSX; EIGHTFOLD_V2] then "eightfold.ai"
        else host).
