(* ===== verification/Schedule.v ===== *)
(** * Scheduling a cycle ([api.worker_lifecycle.scheduling])

    The pass every worker makes on every poll, the derivations it schedules and their
    shared sweep ([tasks.derivations.sweep]), and the AI switch ([api.ai_pause]). There is
    no leader: a key made of the work and the cycle keeps one row of it across the fleet,
    and a look at what is in flight keeps a slow cycle from stacking. *)

From stdpp Require Import pretty.
From S2P Require Import Prelude PyStr Sql Objects Tasks Queue Spec Datasheets Pricing Routing Fallback Access Mail Pipeline MailSync MailSweep Catalog Screening Selection Verdicts Visibility RunInputs ManagedBoards PyStd Urls.

Local Open Scope string_scope.
Local Open Scope Z_scope.

(** ** The AI switch ([api.ai_pause]) *)

(** A row of [app_config_changes] for [ai_paused]: when, and whether it was set on. *)
Record config_change : Type := mkChange {
  ch_created_at : Z;
  ch_on : bool;
}.

(** The loop of [skip_windows]: the windows so far, and when the open pause began. *)
Definition window_step (keep : Z) (acc : list (Z * Z) * option Z) (c : config_change)
    : list (Z * Z) * option Z :=
  let '(windows, began) := acc in
  match began, ch_on c with
  | None, true => (windows, Some (ch_created_at c))
  | Some b, false =>
      (if b <? ch_created_at c - keep then (windows ++ [(b, ch_created_at c - keep)])%list else windows, None)
  | _, _ => (windows, began)
  end.

(** Of the changes in order of time. *)
Definition skip_windows (keep_days : Z) (changes : list config_change) : list (Z * Z) :=
  (foldl (window_step (keep_days * US_PER_DAY)) ([], None) changes).1.

Definition SKIPPED (windows : list (Z * Z)) (created_at : Z) : bool :=
  existsb (λ w : Z * Z, (w.1 <=? created_at) && (created_at <? w.2)) windows.

(** ** The state a pass reads *)

Record config : Type := mkConf {
  ingest_interval_minutes : Z;
  board_refresh_minutes : Z;
  daily_ingest_hour_eastern : Z;
  ingest_give_up_after_failures : Z;
  ingest_retry_max_hours : Z;
  ai_paused : bool;
  mail_classification_enabled : bool;
  enabled : string → bool;
}.

(** A derivation: its kind, its switch, and whether selecting is asked first. *)
Record Derivation : Type := mkDerivation {
  dv_kind : string;
  dv_switch : option string;
  dv_has_work : bool;
}.

Definition DERIVATIONS : list Derivation :=
  [mkDerivation "extract_comp" None false;
   mkDerivation "extract_requirements" (Some "requirements_extraction_enabled") false;
   mkDerivation "classify_job_profiles" (Some "job_profile_collection_enabled") true;
   mkDerivation "embed_postings_batch" None false;
   mkDerivation "classify_locations" None false].

(** [st_has_work]: what a derivation's own look at its candidates says, by kind. *)
Record site : Type := mkSite {
  st_db : db;
  st_mail : mail;
  st_resumes : list Z;
  st_config : config;
  st_has_work : string → bool;
  st_attempts : gset (string * Z);
}.

Definition world_of (s : site) : world := d_queue (st_db s).
Definition rows (s : site) : gmap Z task := tasks (world_of s).

Definition with_db (d : db) (s : site) : site :=
  mkSite d (st_mail s) (st_resumes s) (st_config s) (st_has_work s) (st_attempts s).
Definition with_world (w : world) (s : site) : site := with_db (with_queue w (st_db s)) s.
Definition with_attempts (a : gset (string * Z)) (s : site) : site :=
  mkSite (st_db s) (st_mail s) (st_resumes s) (st_config s) (st_has_work s) a.

(** [enqueue(kind, payload, dedupe_key=key)]. *)
Definition offer (now : Z) (kind : string) (payload : jobject) (key : string) (s : site) : site :=
  with_world (enqueue now kind payload (Some key) (world_of s)).1 s.

(** No task of a kind holds one of these statuses. *)
Definition none_in (kind : string) (sts : list status) (s : site) : bool :=
  negb (exists_where (λ _ t, String.eqb (t_kind t) kind && status_in sts t) (rows s)).

Definition when (c : site → bool) (f : site → site) (s : site) : site := if c s then f s else s.

Section pass.
Context (ps : list Provider) (i : index) (environ : gmap string string) (decrypt : string → string)
  (sha256 : string → string) (jsonb_text : json → string)
  (put_verified : json → option PayloadRef) (iso : Z → string).
(** The zone's wall clock, and the poll's granularity. *)
Context (to_local from_local : Z → Z) (BATCH_POLL_MINUTES : Z).

Definition bucket (now interval : Z) : Z :=
  replace_minute now (if interval <? 60 then minute_of now `div` interval * interval else 0).

Definition cycle_of (now : Z) (s : site) : string :=
  strftime_minute (bucket now (ingest_interval_minutes (st_config s))).

(** [daily_pull_anchor(now)], as an instant. *)
Definition anchor_at (now : Z) (s : site) : Z :=
  from_local (daily_pull_anchor (daily_ingest_hour_eastern (st_config s)) (to_local now)).

Definition recent_since (now : Z) (s : site) (interval : Z) : Z :=
  if interval `mod` 24 =? 0 then anchor_at now s - (interval - 24) * HOUR else now - interval * HOUR.

Definition pull_pending (name : string) (s : site) : bool :=
  exists_where (λ _ t, pull_of name t && is_status Pending t) (rows s).

Definition pulled_since (name : string) (since : Z) (s : site) : bool :=
  exists_where (λ _ t, pull_of name t && status_in [Running; Done] t && (since <? t_created_at t)) (rows s).

Definition is_due (now : Z) (s : site) (name : string) (src : source) : bool :=
  s_active src && negb (pull_pending name s) &&
  ((s_ingest_interval_hours src <=? 1) ||
   negb (pulled_since name (recent_since now s (s_ingest_interval_hours src)) s)).

Definition all_sources (s : site) : gmap string source := sources (b_selections (d_tables (st_db s))).

Definition due (now : Z) (s : site) : list (string * source) :=
  List.filter (λ kv : string * source, is_due now s kv.1 kv.2) (map_to_list (all_sources s)).

Definition held_back (now : Z) (s : site) (names : list string) : gset string :=
  backing_off (ingest_give_up_after_failures (st_config s)) (ingest_retry_max_hours (st_config s)) now
    names (all_sources s) (rows s).

(** A listings URL is one [urlparse] takes. *)
Definition host_of (listings_url : string) : string := default "" (pace_key listings_url).

Definition offer_pull (now : Z) (cycle : string) (kv : string * source) (s : site) : site :=
  offer now "ingest_source"
    {[ "source" := JStr kv.1; "cycle" := JStr cycle; "host" := JStr (host_of (s_listings_url kv.2)) ]}
    ("ingest:" ++ kv.1 ++ ":" ++ cycle) s.

Definition pulls (now : Z) (cycle : string) (s : site) : site :=
  let l := due now s in
  let waiting := held_back now s l.*1 in
  foldl (λ s kv, if bool_decide (kv.1 ∈ waiting) then s else offer_pull now cycle kv s) s l.

Definition cycle_payload (cycle : string) : jobject := {[ "cycle" := JStr cycle ]}.

Definition offer_cycle (now : Z) (kind prefix cycle : string) (s : site) : site :=
  offer now kind (cycle_payload cycle) (prefix ++ cycle) s.

(** [payload->'state'->>'phase']. *)
Definition phase_of (p : jobject) : option string :=
  match p !! "state" with
  | Some (JObj o) => match alist_get "phase" o with Some j => json_text j | None => None end
  | _ => None
  end.

Definition consolidated (s : site) : bool :=
  exists_where (λ _ t, String.eqb (t_kind t) "consolidate_batch_objects" &&
                       (status_in [Pending; Running] t ||
                        (is_status Done t && bool_decide (phase_of (t_payload t) = Some "done")))) (rows s).

(** Whoever can have a board: a source, a board row or an upload. *)
Definition can_have_board (u : Z) (d : db) : bool :=
  let b := d_tables d in
  negb (bool_decide (user_source_set (b_selections b) u = ∅)) ||
  existsb (λ kv : Z * Z * user_job, kv.1.1 =? u) (map_to_list (b_user_jobs b)) ||
  exists_where (λ _ up, u_uploaded_by up =? u) (b_uploads b).

Definition board_people (s : site) : list Z :=
  ids_where (λ u _, can_have_board u (st_db s) && negb (RECOMPUTE_PENDING u (rows s))) (d_users (st_db s)).

Definition offer_board (now : Z) (rcycle : string) (u : Z) (s : site) : site :=
  offer now "recompute_board" {[ "user_id" := JInt u; "cycle" := JStr rcycle ]}
    ("board:" ++ pretty u ++ ":" ++ rcycle) s.

Definition rcycle_of (now : Z) (s : site) : string :=
  let refresh := Z.max 1 (board_refresh_minutes (st_config s)) in
  strftime_minute (replace_minute now (minute_of now `div` refresh * refresh)).

Definition boards_refresh (now : Z) (s : site) : site :=
  foldl (λ s u, offer_board now (rcycle_of now s) u s) s (board_people s).

(** This worker's attempts of the cycle are kept; older ones are forgotten. *)
Definition forget_attempts (cycle : string) (s : site) : site :=
  with_attempts (filter (λ k, k.1 = cycle) (st_attempts s)) s.

(** A refusal or an exception is recorded and swallowed. *)
Definition attempt_board (now : Z) (cycle : string) (id : Z) (s : site) : site :=
  if bool_decide ((cycle, id) ∈ st_attempts s) then s
  else
    let s := with_db (admit_run ps i environ decrypt sha256 jsonb_text put_verified iso now id
                        (Some ("managed-board:" ++ pretty id ++ ":" ++ cycle)) (st_db s)).1 s in
    with_attempts ({[ (cycle, id) ]} ∪ st_attempts s) s.

Definition published (s : site) : list Z := ids_where (λ _ b, mb_published b) (d_boards (st_db s)).

Definition managed_runs (now : Z) (cycle : string) (s : site) : site :=
  foldl (λ s id, attempt_board now cycle id s) s (published s).

Definition people_with_resumes (s : site) : list Z := merge_sort (≤) (remove_dups (st_resumes s)).

Definition offer_answers (now : Z) (cycle : string) (u : Z) (s : site) : site :=
  offer now "application_sweep" {[ "user_id" := JInt u; "cycle" := JStr cycle ]}
    ("appsweep:" ++ pretty u ++ ":" ++ cycle) s.

Definition answers (now : Z) (cycle : string) (s : site) : site :=
  foldl (λ s u, offer_answers now cycle u s) s (people_with_resumes s).

Definition ai_on (s : site) : bool := negb (ai_paused (st_config s)).

Definition mail_changed (s : site) : bool :=
  changed_since (last_sweep_start None (rows s)) None (st_mail s).

(** ** Derivations *)

Definition _switched_off (s : site) (d : Derivation) : bool :=
  match dv_switch d with
  | Some k => negb (enabled (st_config s) k)
  | None => false
  end.

(** [_active(kind, before)]: the oldest active task of the kind, of those before an id. *)
Definition _active (kind : string) (before : option Z) (s : site) : option Z :=
  head (ids_where (λ n t, String.eqb (t_kind t) kind && status_in ACTIVE_STATUSES t &&
                          opt_test before (λ b, n <? b)) (rows s)).

Definition schedule (now : Z) (cycle : string) (d : Derivation) (s : site) : site :=
  if _switched_off s d || (dv_has_work d && negb (st_has_work s (dv_kind d))) ||
     bool_decide (is_Some (_active (dv_kind d) None s))
  then s
  else offer_cycle now (dv_kind d) (dv_kind d ++ ":") cycle s.

Definition derivations (now : Z) (cycle : string) (s : site) : site :=
  foldl (λ s d, schedule now cycle d s) s DERIVATIONS.

(** ** The pass *)

Definition poll_bucket (now : Z) : string :=
  strftime_minute (replace_minute now (minute_of now `div` BATCH_POLL_MINUTES * BATCH_POLL_MINUTES)).

(** The parts of [schedule_ingest_cycle], in order; [cycle] and [day] are of the time it
    began. *)
Definition stages (now : Z) (cycle day : string) : list (site → site) :=
  [pulls now cycle;
   offer_cycle now "retire_switched_off" "retire-off:" cycle;
   when (none_in "tier_page_text" [Pending; Running]) (offer_cycle now "tier_page_text" "tier-page-text:" cycle);
   when (none_in "backfill_mail_pointers" [Pending; Running])
     (offer_cycle now "backfill_mail_pointers" "mail-pointers:" cycle);
   when (λ s, negb (consolidated s)) (offer_cycle now "consolidate_batch_objects" "batch-objects:" cycle);
   boards_refresh now;
   forget_attempts cycle;
   when ai_on (managed_runs now cycle);
   when ai_on (answers now cycle);
   when ai_on (offer_cycle now "reverify_open" "reverify:" day);
   offer_cycle now "sync_gmail" "gmail:" cycle;
   when (λ s, ai_on s && mail_classification_enabled (st_config s) &&
              none_in "classify_mail" [Pending; Running; Waiting; AwaitingBatch] s)
     (offer_cycle now "classify_mail" "mailclassify:" cycle);
   when (λ s, none_in "match_mail" [Pending; Running; Waiting] s && mail_changed s)
     (offer_cycle now "match_mail" "mailmatch:" cycle);
   offer_cycle now "probe_credentials" "credprobe:" cycle;
   when ai_on (derivations now cycle);
   offer_cycle now "send_digests" "digest:" day;
   offer_cycle now "data_health" "health:" cycle;
   offer_cycle now "ledger_rollup" "ledger-rollup:" cycle;
   when (none_in "poll_batches" [Pending; Running])
     (offer_cycle now "poll_batches" "pollbatch:" (poll_bucket now));
   when (λ s, ai_on s && none_in "verify_new" [Pending; Running; Waiting] s)
     (offer_cycle now "verify_new" "verify:" cycle);
   offer_cycle now "fetch_missing_content" "content:" cycle].

Definition schedule_ingest_cycle (now : Z) (s : site) : site :=
  foldl (λ s f, f s) s (stages now (cycle_of now s) (strftime_day now)).
End pass.

(** ** The shared sweep ([tasks.derivations.sweep]) *)

(** How a run of the sweep starts: what it says when it submits nothing, the requests it
    hands to [run_batched], or the batches it already holds. *)
Inductive sweep_start (A : Type) : Type :=
| SwitchedOff
| InFlight (earlier : Z)
| NothingToDerive
| Submits (specs : list A)
| Resumes.
Arguments SwitchedOff {A}.
Arguments InFlight {A} earlier.
Arguments NothingToDerive {A}.
Arguments Submits {A} specs.
Arguments Resumes {A}.

(** [s] is the state the run starts in and [s'] the one after its selection. [selected]
    is what [select] gives, less what [drop_unchanged] drops. *)
Definition sweep {R A} (d : Derivation) (tid : Z) (has_batch_work : bool) (s s' : site)
    (selected : list R) (requests : list R → list A) : sweep_start A :=
  if has_batch_work then Resumes
  else if _switched_off s d then SwitchedOff
  else
    match _active (dv_kind d) (Some tid) s with
    | Some earlier => InFlight earlier
    | None =>
        match match selected with [] => [] | _ => requests selected end with
        | [] => NothingToDerive
        | specs => if _switched_off s' d then SwitchedOff else Submits specs
        end
    end.

(** One result's outcome. [store] writes it; [current] is whether the page it was read
    from is still the posting's; [parse] validates an answer. *)
Definition _outcome {A} (context_keys : list string) (takes_raw reads_page : bool)
    (current : string → json → bool) (parse : string → option A)
    (store : jobject → option A → string) (custom_id : string) (context : option jobject)
    (error text : option string) : string :=
  match context with
  | None => "unknown_request"
  | Some c =>
      if bool_decide (c = ∅) || negb (forallb (λ k, truthy (default JNull (c !! k))) context_keys)
      then "unknown_request"
      else if takes_raw then store c None
      else if reads_page &&
              negb (current (default custom_id (str_or (obj_text c "url") None))
                      (default JNull (c !! "content_row_id")))
      then "superseded"
      else if bool_decide (is_Some (str_or error None)) || bool_decide (str_or text None = None)
      then "failed"
      else match parse (default "" text) with
           | None => "invalid_output"
           | Some a => store c (Some a)
           end
  end.
