(* ===== verification/ScheduleProps.v ===== *)
(** * What a scheduling pass leaves

    Every part of a pass only adds pending rows, and once it has run it adds nothing to
    any later state of the same cycle that only gained pending rows; the pass inherits
    both from its parts. *)

From stdpp Require Import pretty.
From S2P Require Import Prelude PyStr Sql Objects Tasks Queue Spec Datasheets Pricing Routing Fallback Access Mail Pipeline MailSync MailSweep Catalog Screening Selection Verdicts Visibility RunInputs ManagedBoards ManagedProps PyStd Urls Schedule.

Local Open Scope string_scope.
Local Open Scope Z_scope.

(** ** Later states of a cycle *)

(** What the conditions of a pass read besides the tasks. *)
Definition static (s : site) :=
  (st_config s, st_has_work s, st_mail s, st_resumes s,
   (d_boards (st_db s), d_users (st_db s), d_tables (st_db s))).

(** [s'] has [s]'s rows and others that are pending, and the attempts of the cycle. *)
Record later (cycle : string) (s s' : site) : Prop := mkLater {
  later_rows : rows s ⊆ rows s';
  later_new : ∀ i t, rows s' !! i = Some t → rows s !! i = Some t ∨ t_status t = Pending;
  later_static : static s = static s';
  later_attempts : ∀ id, (cycle, id) ∈ st_attempts s → (cycle, id) ∈ st_attempts s';
}.

Definition good (s : site) : Prop := ids_fresh (world_of s).

#[export] Instance later_refl cycle : Reflexive (later cycle).
Proof. intros s. split; eauto. Qed.

#[export] Instance later_trans cycle : Transitive (later cycle).
Proof.
  intros s1 s2 s3 [R1 N1 S1 A1] [R2 N2 S2 A2]. split.
  - by etrans.
  - intros i t [H|H]%N2; eauto.
  - by etrans.
  - eauto.
Qed.

(** A part that has run has nothing left to do in the cycle. *)
Class Settles (cycle : string) (f : site → site) : Prop := {
  settles_later : ∀ s, good s → good (f s) ∧ later cycle s (f s);
  settles_again : ∀ s s', good s → good s' → later cycle (f s) s' → rows (f s') = rows s';
}.

(** A condition that stays false once it is false. *)
Definition antitone (cycle : string) (c : site → bool) : Prop :=
  ∀ s s', later cycle s s' → c s' = true → c s = true.

Lemma exists_later P cycle s s' :
  later cycle s s' → exists_where P (rows s) = true → exists_where P (rows s') = true.
Proof.
  intros H (i & t & Hi & HP)%exists_where_true. apply exists_where_true.
  exists i, t. split; [|done]. eapply lookup_weaken; [exact Hi|apply H].
Qed.

(** A condition on settled rows does not see the rows that were added. *)
Lemma exists_settled P cycle s s' :
  later cycle s s' → (∀ i t, P i t = true → t_status t ≠ Pending) →
  exists_where P (rows s') = exists_where P (rows s).
Proof.
  intros H HP. apply Bool.eq_iff_eq_true. split; [|by apply (exists_later P cycle)].
  intros (i & t & Hi & Ht)%exists_where_true. apply exists_where_true. exists i, t.
  split; [|done]. apply (later_new _ _ _ H) in Hi as [?|Hp]; [done|]. by destruct (HP i t Ht).
Qed.

Lemma none_in_antitone cycle kind sts : antitone cycle (none_in kind sts).
Proof.
  intros s s' H. unfold none_in. rewrite !negb_true_iff. intros Hf.
  apply not_true_is_false. intros Ht. apply (exists_later _ cycle s s' H) in Ht. congruence.
Qed.

Lemma and_antitone cycle c1 c2 : antitone cycle c1 → antitone cycle c2 → antitone cycle (λ s, c1 s && c2 s).
Proof.
  intros H1 H2 s s' H [E1 E2]%andb_true_iff. rewrite (H1 s s' H E1). by apply (H2 s s').
Qed.

Lemma static_antitone {A} cycle (f : site → A) (c : A → bool) :
  (∀ s s', static s = static s' → f s = f s') → antitone cycle (λ s, c (f s)).
Proof. intros Hf s s' H E. by rewrite (Hf s s' (later_static _ _ _ H)). Qed.

(** ** Composition *)

#[export] Instance settles_id cycle : Settles cycle (λ s, s).
Proof. split; [by split|done]. Qed.

Lemma settles_compose cycle f g : Settles cycle f → Settles cycle g → Settles cycle (λ s, g (f s)).
Proof.
  intros Hf Hg. split.
  - intros s Hs. destruct (settles_later (f := f) s Hs) as [H1 L1].
    destruct (settles_later (f := g) (f s) H1) as [H2 L2]. split; [done|by etrans].
  - intros s s' Hs Hs' L. destruct (settles_later (f := f) s Hs) as [H1 L1].
    destruct (settles_later (f := g) (f s) H1) as [H2 L2].
    destruct (settles_later (f := f) s' Hs') as [H3 L3].
    assert (rows (f s') = rows s') as Er by (apply (settles_again s); [done|done|by etrans]).
    rewrite (settles_again (f := g) (f s) (f s')); [done|done|done|by etrans].
Qed.

Lemma settles_when cycle c f : antitone cycle c → Settles cycle f → Settles cycle (when c f).
Proof.
  intros Hc Hf. unfold when. split.
  - intros s Hs. destruct (c s); [by apply settles_later|by split].
  - intros s s' Hs Hs' L. destruct (c s') eqn:E'; [|done].
    assert (later cycle s s') as L'.
    { etrans; [|exact L]. destruct (c s); [by apply settles_later|done]. }
    rewrite (Hc s s' L' E') in L. by apply (settles_again s).
Qed.

Lemma settles_list cycle (fs : list (site → site)) :
  Forall (Settles cycle) fs → Settles cycle (λ s, foldl (λ s f, f s) s fs).
Proof.
  induction 1 as [|f fs Hf Hfs IH]; [apply settles_id|]. simpl.
  by apply (settles_compose cycle f (λ s, foldl (λ s f, f s) s fs)).
Qed.

Section each.
Context {A : Type} (cycle : string) (g : A → site → site) (l : site → list A).
Context (Hg : ∀ x, Settles cycle (g x)).

Lemma fold_later xs s : good s → good (foldl (λ s x, g x s) s xs) ∧ later cycle s (foldl (λ s x, g x s) s xs).
Proof.
  revert s. induction xs as [|x xs IH]; intros s Hs; [by split|]. simpl.
  destruct (settles_later (f := g x) s Hs) as [H1 L1]. destruct (IH _ H1) as [H2 L2].
  split; [done|by etrans].
Qed.

Lemma fold_ran xs x s : good s → x ∈ xs → ∃ s0, good s0 ∧ later cycle (g x s0) (foldl (λ s x, g x s) s xs).
Proof.
  revert s. induction xs as [|y xs IH]; intros s Hs Hx; [by apply elem_of_nil in Hx|]. simpl.
  destruct (settles_later (f := g y) s Hs) as [H1 L1].
  apply elem_of_cons in Hx as [->|Hx]; [|by apply IH].
  exists s. split; [done|]. by apply fold_later.
Qed.

Lemma fold_again xs s s' :
  good s' → (∀ x, x ∈ xs → ∃ s0, good s0 ∧ later cycle (g x s0) s') → later cycle s s' →
  rows (foldl (λ s x, g x s) s' xs) = rows s'.
Proof.
  intros Hs' Hran _. revert s' Hs' Hran. induction xs as [|x xs IH]; intros s' Hs' Hran; [done|]. simpl.
  destruct (Hran x) as (s0 & H0 & L0); [constructor|].
  destruct (settles_later (f := g x) s' Hs') as [H1 L1].
  rewrite IH; [by apply (settles_again s0)|done|].
  intros y Hy. destruct (Hran y) as (s1 & H2 & L2); [by right|]. exists s1. split; [done|by etrans].
Qed.

(** Doing something for each of a list that only shrinks. *)
Lemma settles_each :
  (∀ s s' x, later cycle s s' → x ∈ l s' → x ∈ l s) → Settles cycle (λ s, foldl (λ s x, g x s) s (l s)).
Proof.
  intros Hl. split; [intros s Hs; by apply fold_later|].
  intros s s' Hs Hs' L. destruct (fold_later (l s) s Hs) as [H1 L1].
  apply (fold_again _ s); [done| |by etrans].
  intros x Hx. destruct (fold_ran (l s) x s) as (s0 & H0 & L0); [done|apply (Hl s s'); [by etrans|done]|].
  exists s0. split; [done|by etrans].
Qed.
End each.

(** ** Adding a row *)

Lemma offer_rows now kind payload key s :
  rows (offer now kind payload key s) =
  if dedupe_taken (Some key) (rows s) then rows s
  else <[next_id (world_of s) := new_task now kind payload (Some key) (payload_parent payload)]> (rows s).
Proof.
  unfold offer, rows, world_of, enqueue. cbn [with_world with_db with_queue d_queue st_db].
  destruct (dedupe_taken _ _); done.
Qed.

(** A pending row under a fresh id, or none. *)
Lemma later_insert cycle s s' t :
  good s → rows s' = rows s ∨ (rows s' = <[next_id (world_of s) := t]> (rows s) ∧ t_status t = Pending) →
  next_id (world_of s') = next_id (world_of s) + 1 → static s = static s' → st_attempts s ⊆ st_attempts s' →
  good s' ∧ later cycle s s'.
Proof.
  intros Hs Hr Hn Hst Ha. split.
  - intros i Hi. rewrite Hn. fold (rows s') in Hi. destruct Hr as [Hr|[Hr _]]; rewrite Hr in Hi.
    + apply Hs in Hi. lia.
    + destruct (decide (i = next_id (world_of s))) as [->|Hne]; [lia|].
      rewrite lookup_insert_ne in Hi by done. apply Hs in Hi. lia.
  - split; [| |done|set_solver].
    + destruct Hr as [->|[-> _]]; [done|]. apply insert_subseteq. by apply (fresh_next (world_of s)).
    + intros i x Hi. destruct Hr as [Hr|[Hr Hp]]; rewrite Hr in Hi; [by left|].
      destruct (decide (i = next_id (world_of s))) as [->|Hne].
      * rewrite lookup_insert_eq in Hi. injection Hi as <-. by right.
      * rewrite lookup_insert_ne in Hi by done. by left.
Qed.

#[export] Instance settles_offer cycle now kind payload key : Settles cycle (offer now kind payload key).
Proof.
  split.
  - intros s Hs. apply (later_insert cycle s _ (new_task now kind payload (Some key) (payload_parent payload)));
      [done| | |done|done].
    + rewrite offer_rows. destruct (dedupe_taken _ _); [by left|by right].
    + unfold offer, world_of, enqueue. by destruct (dedupe_taken _ _).
  - intros s s' Hs Hs' L. rewrite offer_rows.
    assert (dedupe_taken (Some key) (rows s') = true) as ->; [|done].
    unfold dedupe_taken. apply (exists_later _ cycle _ _ L). rewrite offer_rows.
    destruct (dedupe_taken (Some key) (rows s)) eqn:E; [exact E|]. apply exists_where_true.
    eexists _, _. rewrite lookup_insert_eq. split; [done|]. simpl. by apply bool_decide_eq_true.
Qed.

(** ** The parts of a pass *)

Lemma pending_antitone cycle name s s' :
  later cycle s s' → pull_pending name s' = false → pull_pending name s = false.
Proof.
  intros H Hf. apply not_true_is_false. intros Ht. unfold pull_pending in *.
  apply (exists_later _ cycle s s' H) in Ht. congruence.
Qed.

Lemma due_antitone to_local from_local cycle now s s' kv :
  later cycle s s' → kv ∈ due to_local from_local now s' → kv ∈ due to_local from_local now s.
Proof.
  intros H Hin. unfold due in *. rewrite list_elem_of_In, filter_In, <- list_elem_of_In in *.
  destruct Hin as [Hin Hd]. pose proof (later_static _ _ _ H) as Hst.
  assert (all_sources s' = all_sources s) as Ea by (unfold all_sources; unfold static in Hst; congruence).
  rewrite Ea in Hin. split; [done|]. unfold is_due in *.
  rewrite !andb_true_iff, orb_true_iff, !negb_true_iff in *. destruct Hd as [[Ha Hp] Hi].
  split; [split; [done|by eapply pending_antitone]|]. destruct Hi as [Hi|Hi]; [by left|]. right.
  assert (recent_since to_local from_local now s' (s_ingest_interval_hours kv.2)
          = recent_since to_local from_local now s (s_ingest_interval_hours kv.2)) as Er.
  { unfold recent_since, anchor_at. unfold static in Hst.
    assert (st_config s' = st_config s) as -> by congruence. done. }
  rewrite Er in Hi. apply not_true_is_false. intros Ht. unfold pulled_since in *.
  apply (exists_later _ cycle s s' H) in Ht. congruence.
Qed.

(** The failures of a source are read off settled rows. *)
Lemma ids_settled P cycle s s' :
  later cycle s s' → (∀ i t, P i t = true → t_status t ≠ Pending) →
  ids_where P (rows s') = ids_where P (rows s).
Proof.
  intros H HP. apply (StronglySorted_unique (≤)).
  - apply Sorted_StronglySorted; [by intros ? ? ?; lia|]. apply (Sorted_merge_sort Z.le).
  - apply Sorted_StronglySorted; [by intros ? ? ?; lia|]. apply (Sorted_merge_sort Z.le).
  - apply NoDup_Permutation; [apply NoDup_ids_where..|]. intros i. rewrite !elem_of_ids_where. split.
    + intros (t & Hi & Ht). exists t. split; [|done].
      apply (later_new _ _ _ H) in Hi as [?|Hp]; [done|]. by destruct (HP i t Ht).
    + intros (t & Hi & Ht). exists t. split; [|done]. eapply lookup_weaken; [exact Hi|apply H].
Qed.

Lemma last_done_settled cycle s s' name :
  later cycle s s' → last_done name (rows s') = last_done name (rows s).
Proof.
  intros H. unfold last_done. rewrite (ids_settled _ cycle s s' H); [done|].
  intros i t Ht Hp. apply andb_true_iff in Ht as [_ Ht]. unfold is_status in Ht. breflect. congruence.
Qed.

Lemma failure_run_settled cycle s s' name :
  later cycle s s' → _FAILURE_RUN name (rows s') = _FAILURE_RUN name (rows s).
Proof.
  intros H. unfold _FAILURE_RUN. rewrite (last_done_settled cycle s s' name H).
  assert (ids_where (failed_pull name (last_done name (rows s))) (rows s')
          = ids_where (failed_pull name (last_done name (rows s))) (rows s)) as ->.
  { apply (ids_settled _ cycle s s' H). intros i t Ht Hp. unfold failed_pull in Ht.
    rewrite !andb_true_iff in Ht. destruct Ht as [[[_ Ht] _] _]. unfold is_status in Ht. breflect. congruence. }
  set (hit := ids_where _ (rows s)).
  assert (∀ i, i ∈ hit → rows s' !! i = rows s !! i) as Hin.
  { intros i (t & Hi & _)%elem_of_ids_where. rewrite Hi. eapply lookup_weaken; [exact Hi|apply H]. }
  f_equal.
  - clearbody hit. induction hit as [|i hit IH]; [done|]. simpl. rewrite IH, (Hin i).
    + done.
    + constructor.
    + intros j Hj. apply Hin. by right.
  - destruct (last hit) as [i|] eqn:E; [|done]. rewrite Hin; [done|].
    apply last_Some in E as (l' & ->). apply elem_of_app. right. constructor.
Qed.

Lemma held_back_antitone cycle now s s' names names' n :
  later cycle s s' → names' ⊆ names → n ∈ names' →
  n ∉ held_back now s' names' → n ∉ held_back now s names.
Proof.
  intros H Hsub Hn Hno Hyes. apply Hno. pose proof (later_static _ _ _ H) as Hst.
  assert (all_sources s' = all_sources s) as Ea by (unfold all_sources; unfold static in Hst; congruence).
  assert (st_config s' = st_config s) as Ec by (unfold static in Hst; congruence).
  unfold held_back, backing_off in *. rewrite Ea, Ec.
  destruct names' as [|x names']; [by apply elem_of_nil in Hn|].
  destruct names as [|y names]; [by apply Hsub in Hn; apply elem_of_nil in Hn|].
  apply elem_of_dom in Hyes as [sr Hsr]. apply map_lookup_filter_Some in Hsr as [Hsr Hw].
  apply elem_of_dom. exists sr. apply map_lookup_filter_Some. split; [|done].
  unfold failure_runs in *. rewrite map_lookup_imap in *. destruct (all_sources s !! n) as [src|]; [|done].
  cbn [mbind option_bind] in *. rewrite (failure_run_settled cycle s s' n H). destruct (_ && _) eqn:E in Hsr; [|done].
  apply andb_true_iff in E as [_ E]. unfold opt_filter, mem in *. by rewrite bool_decide_eq_true_2, E.
Qed.

Lemma foldl_skip {A} (c : A → bool) (g : A → site → site) s xs :
  foldl (λ s x, if c x then s else g x s) s xs = foldl (λ s x, g x s) s (List.filter (λ x, negb (c x)) xs).
Proof. revert s. induction xs as [|x xs IH]; intros s; [done|]. simpl. destruct (c x); simpl; apply IH. Qed.

Section admissions.
Context (ps : list Provider) (i : index) (environ : gmap string string) (decrypt : string → string)
  (sha256 : string → string) (jsonb_text : json → string)
  (put_verified : json → option PayloadRef) (iso : Z → string) (cycle : string).

(** What an admission does to the rows a pass reads. *)
Lemma admit_effect now id dedupe d :
  let d' := (admit_run ps i environ decrypt sha256 jsonb_text put_verified iso now id dedupe d).1 in
  d_boards d' = d_boards d ∧ d_users d' = d_users d ∧ d_tables d' = d_tables d ∧
  next_id (d_queue d) <= next_id (d_queue d') ∧
  (tasks (d_queue d') = tasks (d_queue d) ∨
   ∃ t, tasks (d_queue d') = <[next_id (d_queue d) := t]> (tasks (d_queue d)) ∧ t_status t = Pending ∧
        t_kind t ∈ pop_kinds MANAGED_BOARD_RUNS ∧ next_id (d_queue d') = next_id (d_queue d) + 1).
Proof.
  unfold admit_run, admit_prepare. destruct (dedupe_taken (match dedupe with Some "" => None | k => k end) _).
  { simpl. split_and!; try done. by left. }
  destruct (_plan _ _ _ _ _ _ _ _ _ d) as [d1 r] eqn:Ep.
  assert (∃ c, d1 = with_configs c d) as [c ->].
  { unfold _plan in Ep. assert (d = with_configs (d_configs d) d) as Hd by by destruct d.
    repeat case_match; simplify_eq; eauto. }
  destruct r as [p|]; simpl; [|split_and!; try done; by left].
  destruct (put_verified _) as [ref|]; simpl; [|split_and!; try done; by left].
  unfold admit_commit. destruct (negb _); simpl; [split_and!; try done; by left|].
  destruct (rbind _ _); simpl; [|split_and!; try done; by left].
  unfold enqueue. destruct (dedupe_taken _ _); simpl.
  - split_and!; try done; [lia|by left].
  - split_and!; try done; [lia|]. right. eexists. split; [done|]. split; [done|]. split; [|done].
    simpl. destruct (String.eqb _ _); set_solver.
Qed.

Lemma settles_attempt now id :
  Settles cycle (attempt_board ps i environ decrypt sha256 jsonb_text put_verified iso now cycle id).
Proof.
  unfold attempt_board. split.
  - intros s Hs. destruct (bool_decide _); [by split|].
    destruct (admit_effect now id (Some ("managed-board:" ++ pretty id ++ ":" ++ cycle)) (st_db s))
      as (Hb & Hu & Ht & Hn & Hr). set (d' := (admit_run _ _ _ _ _ _ _ _ _ _ _ _).1) in *.
    split.
    + intros j Hj. change (is_Some (tasks (d_queue d') !! j)) in Hj. change (j < next_id (d_queue d')).
      destruct Hr as [Hr|(t & Hr & _ & _ & Hn')]; rewrite Hr in Hj; [apply Hs in Hj; unfold world_of in *; lia|].
      destruct (decide (j = next_id (d_queue (st_db s)))) as [->|Hne]; [lia|].
      rewrite lookup_insert_ne in Hj by done. apply Hs in Hj. unfold world_of in *. lia.
    + split.
      * unfold rows, world_of. cbn. fold d'. destruct Hr as [->|(t & -> & _)]; [done|].
        apply insert_subseteq. by apply (fresh_next (world_of s)).
      * intros j x Hj. change (tasks (d_queue d') !! j = Some x) in Hj.
        destruct Hr as [Hr|(t & Hr & Hp & _)]; rewrite Hr in Hj; [by left|].
        destruct (decide (j = next_id (d_queue (st_db s)))) as [->|Hne].
        -- rewrite lookup_insert_eq in Hj. injection Hj as <-. by right.
        -- rewrite lookup_insert_ne in Hj by done. by left.
      * unfold static. cbn. fold d'. by rewrite Hb, Hu, Ht.
      * intros j Hj. cbn. set_solver.
  - intros s s' Hs Hs' L. rewrite (bool_decide_eq_true_2 ((cycle, id) ∈ st_attempts s')); [done|].
    apply (later_attempts _ _ _ L). destruct (bool_decide ((cycle, id) ∈ st_attempts s)) eqn:E; [by breflect|].
    cbn. set_solver.
Qed.

Lemma settles_managed now :
  Settles cycle (managed_runs ps i environ decrypt sha256 jsonb_text put_verified iso now cycle).
Proof.
  unfold managed_runs. apply settles_each; [intros id; apply settles_attempt|].
  intros s s' id L. unfold published. pose proof (later_static _ _ _ L) as Hst. unfold static in Hst.
  by assert (d_boards (st_db s') = d_boards (st_db s)) as -> by congruence.
Qed.

End admissions.

Section parts.
Context (ps : list Provider) (i : index) (environ : gmap string string) (decrypt : string → string)
  (sha256 : string → string) (jsonb_text : json → string)
  (put_verified : json → option PayloadRef) (iso : Z → string)
  (to_local from_local : Z → Z) (POLL : Z) (cycle : string).

Lemma settles_pulls now : Settles cycle (pulls to_local from_local now cycle).
Proof.
  set (l := λ s, List.filter
    (λ kv : string * source, negb (bool_decide (kv.1 ∈ held_back now s (due to_local from_local now s).*1)))
    (due to_local from_local now s)).
  assert (Settles cycle (λ s, foldl (λ s kv, offer_pull now cycle kv s) s (l s))) as H.
  { apply settles_each; [intros kv; apply settles_offer|]. intros s s' kv L. unfold l.
    rewrite !list_elem_of_In, !filter_In, <- !list_elem_of_In, !negb_true_iff, !bool_decide_eq_false.
    intros [Hd Hw]. split; [by eapply due_antitone|].
    eapply (held_back_antitone cycle now s s'); [done| | |exact Hw].
    - intros n (x & -> & Hx)%list_elem_of_fmap. apply list_elem_of_fmap. exists x. split; [done|].
      by eapply due_antitone.
    - apply list_elem_of_fmap. eauto. }
  destruct H as [Hl Ha].
  assert (∀ s, pulls to_local from_local now cycle s = foldl (λ s kv, offer_pull now cycle kv s) s (l s)) as E.
  { intros s. unfold pulls. cbv zeta. apply foldl_skip. }
  split; intros s; [rewrite E; apply Hl|]. intros s'. rewrite !E. apply Ha.
Qed.

Lemma settles_boards now : Settles cycle (boards_refresh now).
Proof.
  unfold boards_refresh. apply (settles_each cycle (λ u s, offer_board now (rcycle_of now s) u s)).
  - intros u. split.
    + intros s. apply settles_offer.
    + intros s s' Hs Hs' L. unfold offer_board in *.
      assert (rcycle_of now s' = rcycle_of now s) as ->;
        [|exact (settles_again (Settles := settles_offer cycle now _ _ _) s s' Hs Hs' L)].
      pose proof (later_static _ _ _ L) as Hst. unfold rcycle_of.
      assert (st_config s' = st_config s) as -> by (unfold static in Hst; simpl in Hst; congruence). done.
  - intros s s' u L. unfold board_people. pose proof (later_static _ _ _ L) as Hst. unfold static in Hst.
    assert (d_users (st_db s') = d_users (st_db s)) as -> by congruence.
    rewrite !elem_of_ids_where. intros (x & Hx & Hc). exists x. split; [done|].
    rewrite !andb_true_iff, !negb_true_iff in *. destruct Hc as [Hc Hp]. split.
    + unfold can_have_board in *. by assert (d_tables (st_db s) = d_tables (st_db s')) as -> by congruence.
    + apply not_true_is_false. intros Ht. unfold RECOMPUTE_PENDING in *.
      apply (exists_later _ cycle s s' L) in Ht. congruence.
Qed.

#[export] Instance settles_forget : Settles cycle (forget_attempts cycle).
Proof.
  split; [|done]. intros s Hs. split; [done|]. split; [done|by left|done|].
  intros id Hid. simpl. apply elem_of_filter. done.
Qed.

Lemma settles_answers now : Settles cycle (answers now cycle).
Proof.
  unfold answers. apply settles_each; [intros u; apply settles_offer|].
  intros s s' u L. unfold people_with_resumes. pose proof (later_static _ _ _ L) as Hst. unfold static in Hst.
  by assert (st_resumes s' = st_resumes s) as -> by congruence.
Qed.

Lemma ai_on_antitone : antitone cycle ai_on.
Proof.
  intros s s' L. unfold ai_on. pose proof (later_static _ _ _ L) as Hst. unfold static in Hst.
  by assert (st_config s' = st_config s) as -> by congruence.
Qed.

Lemma settles_schedule now d : Settles cycle (schedule now cycle d).
Proof.
  assert (Settles cycle (when (λ s, negb (_switched_off s d || (dv_has_work d && negb (st_has_work s (dv_kind d))) ||
     bool_decide (is_Some (_active (dv_kind d) None s)))) (offer_cycle now (dv_kind d) (dv_kind d ++ ":") cycle))) as H.
  { apply settles_when; [|apply settles_offer]. intros s s' L. rewrite !negb_true_iff, !orb_false_iff.
    pose proof (later_static _ _ _ L) as Hst. unfold static in Hst.
    assert (st_config s' = st_config s) as Ec by congruence.
    assert (st_has_work s' = st_has_work s) as -> by congruence.
    intros [[Hoff Hw] Ha]. split; [split; [|done]|].
    - unfold _switched_off in *. by rewrite <- Ec.
    - breflect. apply bool_decide_eq_false. intros Hs. apply Ha. unfold _active in *. simpl in *.
      destruct (head (ids_where _ (rows s))) as [n|] eqn:E; [|by destruct Hs].
      apply head_Some_elem_of, elem_of_ids_where in E as (t & Hn & Hp).
      destruct (head (ids_where _ (rows s'))) eqn:E'; [eauto|]. apply head_None in E'.
      assert (n ∈ ids_where (λ (n : Z) (t : task), String.eqb (t_kind t) (dv_kind d) &&
        status_in ACTIVE_STATUSES t && true) (rows s')) as Hin.
      { apply elem_of_ids_where. exists t. split; [|done]. eapply lookup_weaken; [exact Hn|apply L]. }
      rewrite E' in Hin. by apply elem_of_nil in Hin. }
  destruct H as [Hl Ha].
  assert (∀ s, schedule now cycle d s = when (λ s, negb (_switched_off s d ||
    (dv_has_work d && negb (st_has_work s (dv_kind d))) || bool_decide (is_Some (_active (dv_kind d) None s))))
    (offer_cycle now (dv_kind d) (dv_kind d ++ ":") cycle) s) as E.
  { intros s. unfold schedule, when. by destruct (_ || _). }
  split; intros s; [rewrite E; apply Hl|]. intros s'. rewrite !E. apply Ha.
Qed.

Lemma settles_derivations now : Settles cycle (derivations now cycle).
Proof. unfold derivations. apply settles_each; [intros d; apply settles_schedule|done]. Qed.

Lemma mail_changed_antitone : antitone cycle mail_changed.
Proof.
  intros s s' L. unfold mail_changed, last_sweep_start. pose proof (later_static _ _ _ L) as Hst. unfold static in Hst.
  assert (st_mail s' = st_mail s) as -> by congruence.
  assert (∀ k t, finished_sweep None k t = true → t_status t ≠ Pending) as Hf.
  { intros k t Hk Hp. unfold finished_sweep in Hk. rewrite !andb_true_iff in Hk.
    destruct Hk as [[[[_ Hk] _] _] _]. breflect. congruence. }
  rewrite (ids_settled _ cycle s s' L Hf). destruct (last _) as [k|] eqn:E; [|done]. simpl.
  apply last_Some in E as (l & E). assert (k ∈ ids_where (finished_sweep None) (rows s)) as Hk.
  { rewrite E. apply elem_of_app. right. constructor. }
  apply elem_of_ids_where in Hk as (t & Hk & _). rewrite Hk.
  assert (rows s' !! k = Some t) as ->; [|done]. eapply lookup_weaken; [exact Hk|apply L].
Qed.

Lemma consolidated_antitone : antitone cycle (λ s, negb (consolidated s)).
Proof.
  intros s s' L. rewrite !negb_true_iff. intros Hf. apply not_true_is_false. intros Ht.
  unfold consolidated in *. apply (exists_later _ cycle s s' L) in Ht. congruence.
Qed.

Lemma classification_antitone :
  antitone cycle (λ s, mail_classification_enabled (st_config s)).
Proof.
  intros s s' L. pose proof (later_static _ _ _ L) as Hst. unfold static in Hst.
  by assert (st_config s' = st_config s) as -> by congruence.
Qed.

Lemma settles_stages now day :
  Settles cycle (λ s, foldl (λ s f, f s) s
    (stages ps i environ decrypt sha256 jsonb_text put_verified iso to_local from_local POLL now cycle day)).
Proof.
  apply settles_list. unfold stages.
  repeat match goal with |- Forall _ (_ :: _) => constructor | |- Forall _ [] => constructor end;
    repeat first [apply settles_pulls | apply settles_boards | apply settles_forget
      | apply settles_managed | apply settles_answers | apply settles_derivations | apply settles_offer
      | apply settles_when | apply ai_on_antitone | apply none_in_antitone | apply consolidated_antitone
      | apply and_antitone | apply mail_changed_antitone | apply classification_antitone].
Qed.

(** A pass only adds pending rows, and once it has run, a pass at the same time adds
    no row at all, in the state it left or in any later one of the cycle that has only
    gained pending rows: a repeated poll schedules nothing twice. *)
Theorem repeated_pass_adds_nothing now s s' :
  let pass := schedule_ingest_cycle ps i environ decrypt sha256 jsonb_text put_verified iso to_local from_local
                POLL now in
  cycle = cycle_of now s → good s → good s' →
  later cycle (pass s) s' →
  good (pass s) ∧ later cycle s (pass s) ∧ rows (pass s') = rows s'.
Proof.
  intros pass Hc Hs Hs' L. subst pass. unfold schedule_ingest_cycle in *.
  assert (cycle_of now s' = cycle_of now s) as Ec.
  { assert (later cycle s s') as L'.
    { etrans; [|exact L]. rewrite <- Hc. by apply (settles_stages now (strftime_day now)). }
    unfold cycle_of. pose proof (later_static _ _ _ L') as Hst. unfold static in Hst.
    by assert (st_config s' = st_config s) as -> by congruence. }
  rewrite Ec, <- Hc in *. destruct (settles_stages now (strftime_day now)) as [Hl Ha].
  destruct (Hl s Hs) as [Hg Hl']. split; [done|]. split; [done|]. by apply (Ha s s').
Qed.
End parts.

(** ** What a pass adds *)

(** Every row [f] adds is of one of these kinds, from states where [P] holds. *)
Definition adds (P : site → Prop) (kinds : list string) (f : site → site) : Prop :=
  ∀ s j t, P s → rows (f s) !! j = Some t → rows s !! j = Some t ∨ t_kind t ∈ kinds.

Lemma adds_offer P now kind payload key : adds P [kind] (offer now kind payload key).
Proof.
  intros s j t _. rewrite offer_rows. destruct (dedupe_taken _ _); [by left|].
  destruct (decide (j = next_id (world_of s))) as [->|Hne].
  - rewrite lookup_insert_eq. intros [= <-]. right. constructor.
  - rewrite lookup_insert_ne by done. by left.
Qed.

Lemma adds_each {A} (P : site → Prop) kinds (g : A → site → site) (l : site → list A) :
  (∀ x s, P s → P (g x s)) → (∀ x, adds P kinds (g x)) → adds P kinds (λ s, foldl (λ s x, g x s) s (l s)).
Proof.
  intros HP Hg s j t. generalize (l s) as xs. intros xs. revert s.
  induction xs as [|x xs IH]; intros s Hs; simpl; [by left|].
  intros [H|H]%IH; [|by right|by apply HP]. by apply (Hg x s j t) in H.
Qed.

Lemma adds_weaken P k1 k2 f : k1 ⊆ k2 → adds P k1 f → adds P k2 f.
Proof. intros Hk Hf s j t Hs [H|H]%Hf; [by left|right; set_solver|done]. Qed.

Lemma adds_when P kinds c f : adds P kinds f → adds P kinds (when c f).
Proof. intros Hf s j t Hs. unfold when. destruct (c s); [by apply Hf|by left]. Qed.

Lemma adds_none (P : site → Prop) kinds f : (∀ s, P s → rows (f s) = rows s) → adds P kinds f.
Proof. intros H s j t Hs. rewrite H by done. by left. Qed.

Lemma adds_list (P : site → Prop) kinds fs s j t :
  (∀ f s, f ∈ fs → P s → P (f s)) → Forall (adds P kinds) fs → P s →
  rows (foldl (λ s f, f s) s fs) !! j = Some t → rows s !! j = Some t ∨ t_kind t ∈ kinds.
Proof.
  intros HP Hfs. revert s. induction Hfs as [|f fs Hf Hfs IH]; intros s Hs; simpl; [by left|].
  intros [H|H]%IH; [by apply Hf in H|by right| |].
  - intros g s0 Hg. apply HP. by right.
  - apply HP; [constructor|done].
Qed.

(** Membership in a list of literals, by computation. *)
Ltac in_list := apply (bool_decide_eq_true_1 _); vm_compute; reflexivity.

(** The work that calls no model. *)
Definition UNPAID : list string :=
  ["ingest_source"; "retire_switched_off"; "tier_page_text"; "backfill_mail_pointers";
   "consolidate_batch_objects"; "recompute_board"; "sync_gmail"; "match_mail"; "probe_credentials";
   "send_digests"; "data_health"; "ledger_rollup"; "poll_batches"; "fetch_missing_content"].

Section adding.
Context (ps : list Provider) (i : index) (environ : gmap string string) (decrypt : string → string)
  (sha256 : string → string) (jsonb_text : json → string)
  (put_verified : json → option PayloadRef) (iso : Z → string)
  (to_local from_local : Z → Z) (POLL : Z).

Definition paused (s : site) : Prop := ai_paused (st_config s) = true.

(** No part of a pass writes the settings. *)
Lemma stage_config now cycle day f s :
  f ∈ stages ps i environ decrypt sha256 jsonb_text put_verified iso to_local from_local POLL now cycle day →
  st_config (f s) = st_config s.
Proof.
  assert (∀ A (g : A → site → site) xs s, (∀ x s, st_config (g x s) = st_config s) →
    st_config (foldl (λ s x, g x s) s xs) = st_config s) as Hfold.
  { intros A g xs. induction xs as [|x xs IH]; intros s0 Hg; [done|]. simpl. rewrite IH by done. apply Hg. }
  intros H. revert f H. apply Forall_forall. unfold stages.
  repeat match goal with |- Forall _ (_ :: _) => constructor | |- Forall _ [] => constructor end.
  all: unfold when, pulls, boards_refresh, managed_runs, answers, derivations.
  all: try (destruct (_ : bool); [|done]); try done.
  all: try (rewrite foldl_skip); try (apply Hfold; intros x s0); try done.
  all: unfold attempt_board, schedule; by destruct (_ : bool).
Qed.

(** C11: While AI is paused a pass adds only work that calls no model: no verification, no
    board or filter run, no extraction, no application answers, no mail classification. *)
Theorem paused_pays_nothing now s j t :
  ai_paused (st_config s) = true →
  rows (schedule_ingest_cycle ps i environ decrypt sha256 jsonb_text put_verified iso to_local from_local
          POLL now s) !! j = Some t →
  rows s !! j = Some t ∨ t_kind t ∈ UNPAID.
Proof.
  intros Hp. unfold schedule_ingest_cycle. apply (adds_list paused); [|  |done].
  - intros f s0 Hf Hs0. unfold paused. by rewrite (stage_config now _ _ f s0 Hf).
  - assert (∀ f, adds paused UNPAID (when ai_on f)) as Hoff.
    { intros f. apply adds_none. intros s0 Hs0. unfold when, ai_on. by rewrite Hs0. }
    assert (∀ c f, adds paused UNPAID (when (λ s, ai_on s && c s) f)) as Hoff2.
    { intros c f. apply adds_none. intros s0 Hs0. unfold when, ai_on. by rewrite Hs0. }
    assert (∀ c d f, adds paused UNPAID (when (λ s, ai_on s && c s && d s) f)) as Hoff3.
    { intros c d f. apply adds_none. intros s0 Hs0. unfold when, ai_on. by rewrite Hs0. }
    assert (∀ now kind payload key, kind ∈ UNPAID → adds paused UNPAID (offer now kind payload key)) as Hput.
    { intros n kind payload key Hk. eapply adds_weaken; [|apply adds_offer]. by intros x ->%list_elem_of_singleton. }
    unfold stages.
    repeat match goal with |- Forall _ (_ :: _) => constructor | |- Forall _ [] => constructor end;
      try apply Hoff; try apply Hoff3; try apply Hoff2; try (apply adds_when);
      try (apply Hput; in_list).
    + intros s0 j0 t0 H0. unfold pulls. cbv zeta. rewrite foldl_skip.
      refine (adds_each paused UNPAID (offer_pull now _) (λ s, List.filter
        (λ x : string * source, negb (bool_decide (x.1 ∈ held_back now s (due to_local from_local now s).*1)))
        (due to_local from_local now s)) _ _ s0 j0 t0 H0); [done|].
      intros x. apply Hput. in_list.
    + unfold boards_refresh. apply (adds_each paused UNPAID (λ u s, offer_board now (rcycle_of now s) u s)); [done|].
      intros u s0 j0 t0 H0. apply Hput; [in_list|done].
    + by apply adds_none.
Qed.

(** ** One pending pull of a source *)

Definition waiting_pull (name : string) (s : site) (j : Z) : Prop :=
  ∃ t, rows s !! j = Some t ∧ pull_of name t = true ∧ t_status t = Pending.

Definition one_pull (s : site) : Prop :=
  ∀ name j k, waiting_pull name s j → waiting_pull name s k → j = k.

Lemma pull_pending_true name s : pull_pending name s = true ↔ ∃ j, waiting_pull name s j.
Proof.
  unfold pull_pending, waiting_pull, is_status. rewrite exists_where_true. split.
  - intros (j & t & Hj & [Hp Hst]%andb_true_iff). breflect. eauto 10.
  - intros (j & t & Hj & Hp & Hst). exists j, t. split; [done|]. by rewrite Hp, bool_decide_eq_true_2.
Qed.

Lemma pull_of_source name n t :
  pull_of name t = true → pull_of n t = true → name = n.
Proof.
  unfold pull_of. rewrite !andb_true_iff. intros [_ H1] [_ H2]. breflect. congruence.
Qed.

Lemma offer_pull_waiting now cycle kv s name j :
  good s → waiting_pull name (offer_pull now cycle kv s) j →
  waiting_pull name s j ∨ (j = next_id (world_of s) ∧ name = kv.1).
Proof.
  intros Hs (t & Ht & Hp & Hst). unfold offer_pull in Ht. rewrite offer_rows in Ht.
  destruct (dedupe_taken _ _); [left; by exists t|].
  destruct (decide (j = next_id (world_of s))) as [->|Hne].
  - right. split; [done|]. rewrite lookup_insert_eq in Ht. injection Ht as <-.
    unfold pull_of, obj_text in Hp. cbn [t_kind t_payload new_task] in Hp. rewrite lookup_insert_eq in Hp.
    simpl in Hp. breflect. congruence.
  - rewrite lookup_insert_ne in Ht by done. left. by exists t.
Qed.

Lemma pulls_keep_one now cycle (xs : list (string * source)) s :
  good s → one_pull s → NoDup xs.*1 → (∀ kv, kv ∈ xs → pull_pending kv.1 s = false) →
  one_pull (foldl (λ s kv, offer_pull now cycle kv s) s xs).
Proof.
  revert s. induction xs as [|x xs IH]; intros s Hs H1 Hnd Hno; [done|]. simpl. csimpl in Hnd.
  apply NoDup_cons in Hnd as [Hx Hnd].
  assert (∀ name j, name = x.1 → ¬ waiting_pull name s j) as Hnone.
  { intros name j -> Hw. specialize (Hno x ltac:(constructor)).
    rewrite (proj2 (pull_pending_true x.1 s)) in Hno; [done|eauto]. }
  apply IH; [|  |done|].
  - apply (settles_later (cycle := cycle) (Settles := settles_offer cycle now _ _ _) s Hs).
  - intros name j k [Hj|[-> ->]]%offer_pull_waiting [Hk|[-> En]]%offer_pull_waiting; try done.
    + by apply (H1 name).
    + by destruct (Hnone name j).
    + by destruct (Hnone x.1 k).
  - intros kv Hkv. apply not_true_is_false. intros (j & Hj)%pull_pending_true.
    apply offer_pull_waiting in Hj as [Hj|[_ E]]; [| |done].
    + specialize (Hno kv ltac:(by right)). rewrite (proj2 (pull_pending_true kv.1 s)) in Hno; [done|eauto].
    + apply Hx. rewrite <- E. apply list_elem_of_fmap. eauto.
Qed.

Lemma names_filter (P : string * source → bool) (m : gmap string source) :
  NoDup (List.filter P (map_to_list m)).*1.
Proof.
  eapply sublist_NoDup; [apply (NoDup_fst_map_to_list m)|]. apply sublist_fmap.
  induction (map_to_list m) as [|x l IH]; [constructor|]. simpl. destruct (P x); by constructor.
Qed.

Lemma filter_names_sub (P Q : string * source → bool) (m : gmap string source) :
  NoDup (List.filter P (List.filter Q (map_to_list m))).*1.
Proof.
  eapply sublist_NoDup; [apply (names_filter Q m)|]. apply sublist_fmap.
  induction (List.filter Q (map_to_list m)) as [|x l IH]; [constructor|]. simpl. destruct (P x); by constructor.
Qed.

Lemma pulls_one now cycle s :
  good s → one_pull s → one_pull (pulls to_local from_local now cycle s).
Proof.
  intros Hs H1. unfold pulls. cbv zeta. rewrite foldl_skip. apply pulls_keep_one; [done|done| |].
  - unfold due. apply filter_names_sub.
  - intros kv Hkv. rewrite list_elem_of_In, filter_In in Hkv. destruct Hkv as [Hkv _].
    unfold due in Hkv. apply filter_In in Hkv as [_ Hd]. unfold is_due in Hd.
    rewrite !andb_true_iff, negb_true_iff in Hd. apply Hd.
Qed.

Lemma adds_keep_one cycle (P : site → Prop) kinds f s :
  P s → good s → adds P kinds f → Settles cycle f → "ingest_source" ∉ kinds → one_pull s → one_pull (f s).
Proof.
  intros HP Hs Ha Hf Hk H1 name j k (t & Ht & Hp & Hst) (t' & Ht' & Hp' & Hst').
  assert (∀ j t, rows (f s) !! j = Some t → pull_of name t = true → rows s !! j = Some t) as Hold.
  { intros x u Hu Hpu. destruct (Ha s x u HP Hu) as [?|Hin]; [done|]. exfalso. apply Hk.
    unfold pull_of in Hpu. apply andb_true_iff in Hpu as [Hpu _]. apply String.eqb_eq in Hpu. by rewrite <- Hpu. }
  apply (H1 name); [exists t|exists t']; eauto.
Qed.

(** The kinds a pass adds after its pulls. *)
Definition FIXED_KINDS : list string :=
  ["retire_switched_off"; "tier_page_text"; "backfill_mail_pointers"; "consolidate_batch_objects";
   "recompute_board"; "run_managed_board"; "run_managed_board_batch"; "application_sweep"; "reverify_open";
   "sync_gmail"; "classify_mail"; "match_mail"; "probe_credentials"; "send_digests"; "data_health";
   "ledger_rollup"; "poll_batches"; "verify_new"; "fetch_missing_content"].

Definition LATER_KINDS : list string := FIXED_KINDS ++ map dv_kind DERIVATIONS.

Lemma fixed_kind kind : kind ∈ FIXED_KINDS → kind ∈ LATER_KINDS.
Proof. intros H. apply elem_of_app. by left. Qed.

Lemma adds_attempt now cycle id :
  adds (λ _, True) LATER_KINDS
    (attempt_board ps i environ decrypt sha256 jsonb_text put_verified iso now cycle id).
Proof.
  intros s j t _. unfold attempt_board. destruct (bool_decide _); [by left|]. unfold rows, world_of. cbn.
  destruct (admit_effect ps i environ decrypt sha256 jsonb_text put_verified iso now id
    (Some ("managed-board:" ++ pretty id ++ ":" ++ cycle)) (st_db s)) as (_ & _ & _ & _ & [->|(u & -> & _ & Hk & _)]);
    [by left|]. destruct (decide (j = next_id (d_queue (st_db s)))) as [->|Hne].
  - rewrite lookup_insert_eq. intros [= <-]. right. apply fixed_kind. simpl in Hk.
    apply elem_of_cons in Hk as [-> | ->%list_elem_of_singleton]; in_list.
  - rewrite lookup_insert_ne by done. by left.
Qed.

Lemma adds_after_pulls now cycle day :
  Forall (adds (λ _, True) LATER_KINDS)
    (tail (stages ps i environ decrypt sha256 jsonb_text put_verified iso to_local from_local POLL now cycle day)).
Proof.
  assert (∀ now kind payload key, kind ∈ LATER_KINDS → adds (λ _, True) LATER_KINDS (offer now kind payload key)) as Hput.
  { intros n kind payload key Hk. eapply adds_weaken; [|apply adds_offer]. by intros x ->%list_elem_of_singleton. }
  unfold stages. cbn [tail].
  repeat match goal with |- Forall _ (_ :: _) => constructor | |- Forall _ [] => constructor end;
    repeat apply adds_when; try (apply Hput, fixed_kind; in_list).
  - unfold boards_refresh. apply (adds_each _ _ (λ u s, offer_board now (rcycle_of now s) u s)); [done|].
    intros u s0 j0 t0 H0. apply Hput; [apply fixed_kind; in_list|done].
  - by apply adds_none.
  - unfold managed_runs. apply adds_each; [done|]. intros id. apply adds_attempt.
  - unfold answers. apply adds_each; [done|]. intros u. apply Hput, fixed_kind. in_list.
  - unfold derivations. intros s j t _ Ht.
    assert (∀ ds s, ds ⊆ DERIVATIONS → rows (foldl (λ s d, schedule now cycle d s) s ds) !! j = Some t →
      rows s !! j = Some t ∨ t_kind t ∈ LATER_KINDS) as H; [|by apply (H DERIVATIONS)]. clear s Ht.
    intros ds. induction ds as [|d ds IH]; intros s Hsub; simpl; [by left|].
    intros [H|H]%IH; [|by right|set_solver]. unfold schedule in H. destruct (_ || _); [by left|].
    apply (Hput now (dv_kind d) _ _) in H; [done| |done]. unfold LATER_KINDS.
    apply elem_of_app. right. apply list_elem_of_fmap. exists d. set_solver.
Qed.

(** A pass never queues a second pull of a source that has one waiting, nor two of
    one source: at most one pull of each source waits before it, and so after it. *)
Theorem one_waiting_pull now s :
  good s → one_pull s →
  one_pull (schedule_ingest_cycle ps i environ decrypt sha256 jsonb_text put_verified iso to_local from_local
              POLL now s).
Proof.
  intros Hs H1. unfold schedule_ingest_cycle.
  set (cycle := cycle_of now s). set (day := strftime_day now). clearbody cycle day.
  pose proof (adds_after_pulls now cycle day) as Ha. unfold stages in *. cbn [tail] in Ha. cbn [foldl].
  assert (∀ fs s, Forall (adds (λ _, True) LATER_KINDS) fs → Forall (Settles cycle) fs → good s → one_pull s →
    one_pull (foldl (λ s f, f s) s fs)) as Hfold.
  { clear s Hs H1 Ha. intros fs. induction fs as [|f fs IH]; intros s Hadd Hset Hs H1; [done|]. simpl.
    inversion Hadd; inversion Hset; subst. apply IH; [done..| |].
    - by apply (settles_later (cycle := cycle) (f := f) s).
    - apply (adds_keep_one cycle (λ _, True) LATER_KINDS); [done|done|done|done| |done].
      apply (bool_decide_eq_false_1 _). vm_compute. reflexivity. }
  refine (Hfold _ (pulls to_local from_local now cycle s) Ha _ _ _).
  - repeat match goal with |- Forall _ (_ :: _) => constructor | |- Forall _ [] => constructor end;
    repeat first [apply settles_boards | apply settles_forget
      | apply settles_managed | apply settles_answers | apply settles_derivations | apply settles_offer
      | apply settles_when | apply ai_on_antitone | apply none_in_antitone | apply consolidated_antitone
      | apply and_antitone | apply mail_changed_antitone | apply classification_antitone].
  - apply (settles_later (Settles := settles_pulls to_local from_local cycle now) s Hs).
  - by apply pulls_one.
Qed.
End adding.

(** ** Pauses *)

(** The pauses that ended, each with both its times, in order. *)
Fixpoint pauses (changes : list config_change) (began : option Z) : list (Z * Z) :=
  match changes with
  | [] => []
  | c :: cs => match began, ch_on c with
               | None, true => pauses cs (Some (ch_created_at c))
               | Some b, false => (b, ch_created_at c) :: pauses cs None
               | _, _ => pauses cs began
               end
  end.

Lemma windows_fold keep changes ws began :
  (foldl (window_step keep) (ws, began) changes).1 =
  (ws ++ omap (λ p : Z * Z, if p.1 <? p.2 - keep then Some (p.1, p.2 - keep) else None)
           (pauses changes began))%list.
Proof.
  revert ws began. induction changes as [|c cs IH]; intros ws began; simpl; [by rewrite app_nil_r|].
  destruct began as [b|], (ch_on c); simpl; try by rewrite IH.
  destruct (b <? ch_created_at c - keep); rewrite IH; simpl; [by rewrite <- app_assoc|done].
Qed.

(** Changes in order of time. *)
Definition in_order (changes : list config_change) : Prop :=
  StronglySorted (λ c d, ch_created_at c <= ch_created_at d) changes.

Lemma pauses_ordered changes began :
  in_order changes → (∀ b c, began = Some b → c ∈ changes → b <= ch_created_at c) →
  StronglySorted (λ p q : Z * Z, p.2 <= q.1) (pauses changes began) ∧
  Forall (λ p : Z * Z, p.1 <= p.2) (pauses changes began) ∧
  ∀ lo, (∀ c, c ∈ changes → lo <= ch_created_at c) → (∀ b, began = Some b → lo <= b) →
        Forall (λ p : Z * Z, lo <= p.1) (pauses changes began).
Proof.
  intros Ho. revert began. induction Ho as [|c cs Ho IH Hc]; intros began Hb; simpl.
  { split; [constructor|]. split; [constructor|]. intros. constructor. }
  rewrite Forall_forall in Hc.
  destruct began as [b|], (ch_on c).
  - destruct (IH (Some b)) as (H1 & H2 & H3).
    { intros b' d [= <-] Hd. apply (Hb b d); [done|by right]. }
    split; [done|]. split; [done|]. intros lo Hlo. apply H3. intros d Hd. apply Hlo. by right.
  - destruct (IH None) as (H1 & H2 & H3); [done|].
    assert (b <= ch_created_at c) by (apply (Hb b c); [done|constructor]).
    split; [|split].
    + constructor; [done|]. simpl. apply (H3 (ch_created_at c)); [|done]. intros d Hd. by apply Hc.
    + by constructor.
    + intros lo Hlo Hbl. constructor; [by apply Hbl|]. apply H3; [|done]. intros d Hd. apply Hlo. by right.
  - destruct (IH (Some (ch_created_at c))) as (H1 & H2 & H3).
    { intros b' d [= <-] Hd. by apply Hc. }
    split; [done|]. split; [done|]. intros lo Hlo _. apply H3.
    + intros d Hd. apply Hlo. by right.
    + intros b [= <-]. apply Hlo. constructor.
  - destruct (IH None) as (H1 & H2 & H3); [done|]. split; [done|]. split; [done|].
    intros lo Hlo _. apply H3; [|done]. intros d Hd. apply Hlo. by right.
Qed.

(** The sweeps leave out exactly the postings first seen during a pause that ended,
    more than the kept days before it ended; the windows are in order and do not overlap,
    so what was seen while AI was on, in the kept days, or in a pause still on is never
    left out. *)
Theorem skipped_is_the_backlog days changes t :
  in_order changes → 0 <= days →
  (SKIPPED (skip_windows days changes) t = true ↔
   ∃ b e, (b, e) ∈ pauses changes None ∧ b <= t < e - days * US_PER_DAY) ∧
  StronglySorted (λ p q : Z * Z, p.2 <= q.1) (skip_windows days changes) ∧
  Forall (λ w : Z * Z, w.1 < w.2) (skip_windows days changes).
Proof.
  intros Ho Hd. destruct (pauses_ordered changes None Ho) as (Hs & Hp & _); [done|].
  assert (0 <= days * US_PER_DAY) as Hk by (unfold US_PER_DAY, US_PER_MINUTE; lia).
  unfold skip_windows. rewrite windows_fold. simpl. set (keep := days * US_PER_DAY) in *.
  split; [|split].
  - unfold SKIPPED. rewrite existsb_exists. split.
    + intros (w & Hw & Ht). apply list_elem_of_In, list_elem_of_omap in Hw as ([b e] & Hin & Hif). simpl in Hif.
      destruct (b <? e - keep) eqn:E; [|done]. injection Hif as <-. simpl in Ht. breflect.
      exists b, e. split; [done|lia].
    + intros (b & e & Hin & Ht). exists (b, e - keep). split.
      * apply list_elem_of_In, list_elem_of_omap. exists (b, e). split; [done|]. simpl.
        by rewrite (proj2 (Z.ltb_lt _ _)) by lia.
      * simpl. apply andb_true_iff. split; [apply Z.leb_le|apply Z.ltb_lt]; lia.
  - clear Hp. induction Hs as [|[b e] l Hs IH Hall]; [constructor|]. simpl.
    destruct (b <? e - keep) eqn:E; [|done]. constructor; [done|].
    rewrite Forall_forall in Hall |- *. intros w Hw. apply list_elem_of_omap in Hw as ([b' e'] & Hin & Hif).
    simpl in Hif. destruct (b' <? e' - keep); [|done]. injection Hif as <-. simpl.
    apply Hall in Hin. simpl in Hin. lia.
  - rewrite Forall_forall. intros w Hw. apply list_elem_of_omap in Hw as ([b e] & Hin & Hif). simpl in Hif.
    destruct (b <? e - keep) eqn:E; [|done]. injection Hif as <-. simpl. by apply Z.ltb_lt.
Qed.

(** ** The shared sweep *)

(** Of the active runs of a derivation only the oldest selects and pays: a run that
    submits has no older active run of its kind, so of two runs that hold no batch, at
    most one submits. A run that holds a batch only collects it. *)
Theorem one_sweep_submits {R A} d s s1 s2 (tid1 tid2 : Z) (r1 r2 : list R) (req : list R → list A) sp1 sp2 t1 t2 :
  rows s !! tid1 = Some t1 → t_kind t1 = dv_kind d → status_in ACTIVE_STATUSES t1 = true →
  rows s !! tid2 = Some t2 → t_kind t2 = dv_kind d → status_in ACTIVE_STATUSES t2 = true →
  sweep d tid1 false s s1 r1 req = Submits sp1 → sweep d tid2 false s s2 r2 req = Submits sp2 →
  tid1 = tid2 ∧ sp1 ≠ [] ∧ _switched_off s d = false ∧ _switched_off s1 d = false ∧
  sweep d tid1 true s s1 r1 req = Resumes.
Proof.
  assert (∀ tid tid' t s' (r : list R) sp, sweep d tid false s s' r req = Submits sp →
    rows s !! tid' = Some t → t_kind t = dv_kind d → status_in ACTIVE_STATUSES t = true → tid <= tid') as Hmin.
  { intros tid tid' t s' r sp. unfold sweep. destruct (_switched_off s d); [done|].
    destruct (_active _ _ s) as [e|] eqn:Ea; [done|]. intros _ Ht Hk Ha.
    destruct (decide (tid' < tid)) as [Hlt|]; [|lia]. exfalso. unfold _active in Ea. apply head_None in Ea.
    assert (tid' ∈ ids_where (λ (n : Z) (t : task), String.eqb (t_kind t) (dv_kind d) && status_in ACTIVE_STATUSES t &&
      opt_test (Some tid) (λ b, n <? b)) (rows s)) as Hin.
    { apply elem_of_ids_where. exists t. split; [done|]. simpl. rewrite Hk, String.eqb_refl, Ha. simpl. by apply Z.ltb_lt. }
    rewrite Ea in Hin. by apply elem_of_nil in Hin. }
  intros H1 K1 A1 H2 K2 A2 S1 S2.
  assert (tid1 <= tid2) by (by eapply Hmin). assert (tid2 <= tid1) by (by eapply Hmin).
  split; [lia|]. unfold sweep in S1. destruct (_switched_off s d) eqn:E; [done|].
  destruct (_active _ _ s); [done|]. destruct (match r1 with [] => [] | _ => req r1 end) eqn:Er; [done|].
  destruct (_switched_off s1 d) eqn:E1; [done|]. by injection S1 as <-.
Qed.

(** Every tenant of a platform that refuses as one is paced under one key, and any
    other board under its own host, whatever the URL's case, port or credentials. *)
Theorem pace_key_folds url u :
  urlparse url = Some u →
  let host := lower (default "" (url_hostname u)) in
  let path := rstrip "/" (pu_path u) in
  let workday := host = "myworkdayjobs.com" ∨ ends_with ".myworkdayjobs.com" host = true in
  let greenhouse := host = "greenhouse.io" ∨ ends_with ".greenhouse.io" host = true in
  let eightfold := ends_with ".eightfold.ai" host = true ∨ path = EIGHTFOLD_PCSX ∨ path = EIGHTFOLD_V2 in
  (workday → pace_key url = Some "myworkdayjobs.com") ∧
  (¬ workday → greenhouse → pace_key url = Some "boards-api.greenhouse.io") ∧
  (¬ workday → ¬ greenhouse → eightfold → pace_key url = Some "eightfold.ai") ∧
  (¬ workday → ¬ greenhouse → ¬ eightfold → pace_key url = Some host).
Proof.
  intros Hu host path. unfold pace_key. rewrite Hu. cbn [mbind option_bind]. fold host. fold path.
  assert (∀ (b c : bool) (A B : Prop), (b = true ↔ A) → (c = true ↔ B) → (b || c = true ↔ A ∨ B)) as Hor.
  { intros b c A B <- <-. apply orb_true_iff. }
  assert (∀ x y, String.eqb x y = true ↔ x = y) as Hs by (intros; apply String.eqb_eq).
  assert (∀ (b : bool) (A : Prop), (b = true ↔ A) → (A → b = true) ∧ (¬ A → b = false)) as Hb.
  { intros b A H. split; [apply H|]. intros Hn. apply not_true_is_false. by rewrite H. }
  destruct (Hb _ _ (Hor _ _ _ _ (Hs host "myworkdayjobs.com") (iff_refl (ends_with ".myworkdayjobs.com" host = true)))) as [Hw Hw'].
  destruct (Hb _ _ (Hor _ _ _ _ (Hs host "greenhouse.io") (iff_refl (ends_with ".greenhouse.io" host = true)))) as [Hg Hg'].
  assert (mem path [EIGHTFOLD_PCSX; EIGHTFOLD_V2] = true ↔ path = EIGHTFOLD_PCSX ∨ path = EIGHTFOLD_V2) as Hm.
  { unfold mem. rewrite bool_decide_eq_true, !elem_of_cons. set_solver. }
  destruct (Hb _ _ (Hor _ _ _ _ (iff_refl (ends_with ".eightfold.ai" host = true)) Hm)) as [He He'].
  split; [|split; [|split]].
  - intros H. by rewrite Hw.
  - intros H1 H2. by rewrite Hw', Hg.
  - intros H1 H2 H3. rewrite Hw', Hg' by done. rewrite He by tauto. done.
  - intros H1 H2 H3. rewrite Hw', Hg' by done. rewrite He' by tauto. done.
Qed.

(** ** Witnesses *)

Definition demo_config (paused_ : bool) : config := mkConf 60 3 6 5 24 paused_ true (λ _, true).

Definition demo_sources : gmap string source :=
  {[ "acme" := mkSource true 1 "https://boards.greenhouse.io/acme" None None ]}.

Definition demo_site (paused_ : bool) : site :=
  mkSite
    (mkDb ∅ ∅ {[ 3 := [] ]} [] ∅ [] (mkWorld ∅ 1 []) no_configs
       (mkBoard ∅ ∅ ∅ ∅ [] [] (mkSelections {[ (3, "acme") ]} ∅ ∅ ∅ demo_sources) ∅ ∅ ∅ ∅) [] ∅ [])
    (mkMail ∅ ∅ ∅ ∅ [] ∅) [3] (demo_config paused_) (λ _, true) ∅.

Definition demo_pass (s : site) : site :=
  schedule_ingest_cycle PROVIDERS MODELS ∅ (λ s, s) (λ s, s) demo_text demo_put (λ _, "t") (λ t, t) (λ t, t) 1 0 s.

Lemma demo_good p : good (demo_site p).
Proof. intros j [t Ht]. unfold demo_site, world_of in Ht. simpl in Ht. by rewrite lookup_empty in Ht. Qed.

Lemma demo_one_pull p : one_pull (demo_site p).
Proof. intros name j k (t & Ht & _). unfold demo_site, rows, world_of in Ht. simpl in Ht. by rewrite lookup_empty in Ht. Qed.

Example demo_pass_adds : (size (rows (demo_pass (demo_site false))) = 23)%nat.
Proof. vm_compute. reflexivity. Qed.

Lemma repeated_pass_adds_nothing_witness :
  rows (demo_pass (demo_pass (demo_site false))) = rows (demo_pass (demo_site false)).
Proof.
  assert (good (demo_pass (demo_site false))) as Hg.
  { apply (settles_stages PROVIDERS MODELS ∅ (λ s, s) (λ s, s) demo_text demo_put (λ _, "t") (λ t, t) (λ t, t) 1
             (cycle_of 0 (demo_site false)) 0 (strftime_day 0)), demo_good. }
  exact (proj2 (proj2 (repeated_pass_adds_nothing PROVIDERS MODELS ∅ (λ s, s) (λ s, s) demo_text demo_put (λ _, "t")
    (λ t, t) (λ t, t) 1 (cycle_of 0 (demo_site false)) 0 (demo_site false) (demo_pass (demo_site false))
    eq_refl (demo_good false) Hg (later_refl _ _)))).
Defined.

Lemma paused_pays_nothing_witness :
  ∃ t, rows (demo_pass (demo_site true)) !! 1 = Some t ∧ t_kind t ∈ UNPAID.
Proof.
  destruct (rows (demo_pass (demo_site true)) !! 1) as [t|] eqn:E; [|exfalso; vm_compute in E; discriminate E].
  exists t. split; [done|].
  destruct (paused_pays_nothing PROVIDERS MODELS ∅ (λ s, s) (λ s, s) demo_text demo_put (λ _, "t") (λ t, t)
              (λ t, t) 1 0 (demo_site true) 1 t) as [H|H]; [reflexivity|exact E|discriminate H|exact H].
Defined.

Lemma one_waiting_pull_witness :
  one_pull (demo_pass (demo_site false)) ∧ pull_pending "acme" (demo_pass (demo_site false)) = true.
Proof.
  split; [|vm_compute; reflexivity].
  exact (one_waiting_pull PROVIDERS MODELS ∅ (λ s, s) (λ s, s) demo_text demo_put (λ _, "t") (λ t, t)
           (λ t, t) 1 0 (demo_site false) (demo_good false) (demo_one_pull false)).
Defined.

Definition demo_changes : list config_change :=
  [mkChange 0 false; mkChange 10 true; mkChange (10 * US_PER_DAY) false; mkChange (20 * US_PER_DAY) true].

Lemma skipped_is_the_backlog_witness :
  SKIPPED (skip_windows 2 demo_changes) US_PER_DAY = true ∧
  SKIPPED (skip_windows 2 demo_changes) (9 * US_PER_DAY) = false.
Proof.
  assert (in_order demo_changes) as Ho.
  { unfold in_order, demo_changes. repeat (constructor; [|repeat (constructor; [vm_compute; discriminate|]); constructor]). constructor. }
  split; [|vm_compute; reflexivity].
  apply (proj1 (skipped_is_the_backlog 2 demo_changes US_PER_DAY Ho ltac:(lia))).
  exists 10, (10 * US_PER_DAY). split; [left|vm_compute; split; [discriminate|reflexivity]].
Defined.

Definition demo_sweep_task : task :=
  mkTask "extract_comp" ∅ None None Running 0 0 None None None None None None 0 None None.

Definition demo_sweeps : site := with_world (mkWorld {[ 4 := demo_sweep_task ]} 5 []) (demo_site false).
Definition demo_pay : Derivation := mkDerivation "extract_comp" None false.

Lemma one_sweep_submits_witness :
  sweep demo_pay 4 false demo_sweeps demo_sweeps [1] (λ l : list Z, l) = Submits [1] ∧
  sweep demo_pay 4 true demo_sweeps demo_sweeps [1] (λ l : list Z, l) = Resumes.
Proof.
  assert (sweep demo_pay 4 false demo_sweeps demo_sweeps [1] (λ l : list Z, l) = Submits [1])
    as H by (vm_compute; reflexivity).
  split; [exact H|].
  exact (proj2 (proj2 (proj2 (proj2 (one_sweep_submits demo_pay demo_sweeps demo_sweeps
    demo_sweeps 4 4 [1] [1] (λ l : list Z, l) [1] [1] demo_sweep_task demo_sweep_task
    eq_refl eq_refl eq_refl eq_refl eq_refl eq_refl H H))))).
Defined.
