(* ===== verification/Fetches.v ===== *)
(** * Page fetches ([core.page_fetches], the reads of [core.store], and the fetch rules of
    [api.ai.verdicts])

    The append-only log of what each fetch of a posting's page brought back, its text held
    inline or by reference, and the run of empty fetches that parks a posting. *)

From S2P Require Import Prelude PyStr Sql Queue PyStd Urls.

Local Open Scope string_scope.
Local Open Scope Z_scope.

(** ** The log *)

(** A text inline, or the member of a bundle that holds it with its length. *)
Inductive held_text : Type :=
| Inline (text : string)
| Referenced (object : string) (size : Z) (member : string) (chars : Z).

Record page_fetch : Type := mkFetch {
  pf_url : string;
  pf_status : string;
  pf_method : string;
  pf_text : option held_text;
  pf_worker : string;
  pf_created_at : Z;
}.

(** [pf_next]: the answers table's id sequence, which fetches share. *)
Record fetch_log : Type := mkFetchLog {
  pf_rows : gmap Z page_fetch;
  pf_next : Z;
}.

Definition record (worker : string) (now : Z) (url status method : string) (content : option string)
    (l : fetch_log) : fetch_log * Z :=
  (mkFetchLog (<[pf_next l := mkFetch url status method (Inline <$> content) worker now]> (pf_rows l))
     (pf_next l + 1), pf_next l).

(** [page_texts]: the fetches that brought text back. *)
Definition has_text (f : page_fetch) : bool :=
  match pf_text f with
  | Some (Inline t) => negb (String.eqb t "")
  | Some (Referenced _ _ _ _) => true
  | None => false
  end.

Definition text_rows (url : string) (l : fetch_log) : list Z :=
  ids_where (λ _ f, String.eqb (pf_url f) url && has_text f) (pf_rows l).

Record Page : Type := mkPage {
  pg_fetch_id : Z;
  pg_text : string;
}.

Inductive fetch_exn : Type := TextUnavailable | TextInTransaction.

Section resolve.
(** [get_digest_member] of a bundle, its size and a member; [None] raises. *)
Context (get_digest_member : string → Z → string → option json).

Definition resolve (in_transaction : bool) (h : held_text) : result fetch_exn string :=
  match h with
  | Inline t => Ok t
  | Referenced object size member _ =>
      if in_transaction then Err TextInTransaction
      else match get_digest_member object size member with
           | Some (JStr t) => Ok t
           | _ => Err TextUnavailable
           end
  end.

Definition page_of (i : Z) (l : fetch_log) : result fetch_exn (option Page) :=
  match pf_rows l !! i with
  | Some f =>
      match pf_text f with
      | Some h => rbind (resolve false h) (λ t, Ok (Some (mkPage i t)))
      | None => Ok None
      end
  | None => Ok None
  end.

(** The newest text of each URL; one that cannot be read raises for them all. *)
Fixpoint get_contents (urls : list string) (l : fetch_log) : result fetch_exn (gmap string Page) :=
  match urls with
  | [] => Ok ∅
  | u :: urls =>
      (do rest <- get_contents urls l ;;
       match last (text_rows u l) with
       | None => Ok rest
       | Some i => do p <- page_of i l ;;
                   Ok (match p with Some p => <[u := p]> rest | None => rest end)
       end)%js
  end.

Definition get_content (url : string) (l : fetch_log) : result fetch_exn (option string) :=
  match last (text_rows url l) with
  | None => Ok None
  | Some i => rbind (page_of i l) (λ p, Ok (pg_text <$> p))
  end.

Definition text_of (fetch_id : Z) (l : fetch_log) : result fetch_exn (option string) :=
  match pf_rows l !! fetch_id with
  | Some f => if has_text f then rbind (page_of fetch_id l) (λ p, Ok (pg_text <$> p)) else Ok None
  | None => Ok None
  end.
End resolve.

(** ** The run of empty fetches ([FETCH_STREAK], [fetch_parked_sql]) *)

(** [COALESCE(max(id), 0)] of the successful fetches of a URL. *)
Definition last_passed (url : string) (l : fetch_log) : Z :=
  default 0 (last (ids_where (λ _ f, String.eqb (pf_url f) url && String.eqb (pf_status f) "passed")
                     (pf_rows l))).

Definition streak_ids (url : string) (l : fetch_log) : list Z :=
  ids_where (λ i f, String.eqb (pf_url f) url && String.eqb (pf_status f) "failed" &&
                    (last_passed url l <? i)) (pf_rows l).

Definition greatest_time (l : fetch_log) (ids : list Z) : option Z :=
  foldr (λ i acc, match pf_rows l !! i with
                  | Some f => Some (match acc with Some t => Z.max (pf_created_at f) t | None => pf_created_at f end)
                  | None => acc
                  end) None ids.

(** The failures and when the last of them was. *)
Definition FETCH_STREAK (url : string) (l : fetch_log) : Z * option Z :=
  (Z.of_nat (length (streak_ids url l)), greatest_time l (streak_ids url l)).

(** Hours, validated positive. *)
Record fetch_rules : Type := mkFetchRules {
  fetch_retry_after_hours : Z;
  fetch_retry_max_hours : Z;
  fetch_give_up_after_failures : Z;
}.

Definition retry_wait (c : fetch_rules) (failures : Z) : Z :=
  Z.min (fetch_retry_after_hours c * 2 ^ (failures - 1)) (fetch_retry_max_hours c) * HOUR.

Definition fetch_parked (c : fetch_rules) (now : Z) (url : string) (l : fetch_log) : bool :=
  let '(failures, last_failed) := FETCH_STREAK url l in
  (fetch_give_up_after_failures c <=? failures) ||
  sql_lt (Some (now - retry_wait c failures)) last_failed.

Definition fetch_parked_urls (c : fetch_rules) (now : Z) (urls : list string) (l : fetch_log) : gset string :=
  list_to_set (List.filter (λ u, fetch_parked c now u l) urls).

Definition fetch_failure_streaks (urls : list string) (l : fetch_log) : gmap string Z :=
  list_to_map (List.filter (λ kv : string * Z, 0 <? kv.2)
                 (map (λ u, (u, (FETCH_STREAK u l).1)) urls)).

(** ** Drip-fed hosts ([host_paced]) *)

Definition on_host (host : string) (f : page_fetch) : bool :=
  starts_with (chars ("https://" ++ host ++ "/")%string) (chars (pf_url f)) ||
  starts_with (chars ("http://" ++ host ++ "/")%string) (chars (pf_url f)).

(** The fetches of a host in the last hour; hosts hold no LIKE pattern. *)
Definition fetched_this_hour (now : Z) (host : string) (l : fetch_log) : nat :=
  count_where (λ _ f, (now - HOUR <? pf_created_at f) && on_host host f) (pf_rows l).

(** [None] is the ValueError of a URL that is none. *)
Definition host_paced (limits : gmap string Z) (now : Z) (url : string) (l : fetch_log) : option bool :=
  host ← hostname url;
  Some match limits !! host with
       | Some per_hour => negb (per_hour =? 0) && (per_hour <=? Z.of_nat (fetched_this_hour now host l))
       | None => false
       end.

(** ** What is proved *)

(** Ids come from the sequence, and no fetch is later than [now]. *)
Record log_ok (now : Z) (l : fetch_log) : Prop := mkLogOk {
  lo_ids : ∀ i, is_Some (pf_rows l !! i) → 0 < i < pf_next l;
  lo_times : ∀ i f, pf_rows l !! i = Some f → pf_created_at f <= now;
  lo_next : 0 < pf_next l;
}.

(** Empty fetches of a page by paths that ask first, with fetches of other pages between;
    the times are when it was fetched. *)
Inductive empty_fetches (c : fetch_rules) (url : string) : Z → fetch_log → list Z → fetch_log → Prop :=
| ef_none now l : empty_fetches c url now l [] l
| ef_try worker method before now l ts l' :
    before <= now → fetch_parked c now url l = false →
    empty_fetches c url now (record worker now url "failed" method None l).1 ts l' →
    empty_fetches c url before l (now :: ts) l'
| ef_other worker method status content other before now l ts l' :
    before <= now → other ≠ url →
    empty_fetches c url now (record worker now other status method content l).1 ts l' →
    empty_fetches c url before l ts l'.

(** Each fetch waits out the one before it, the [k]-th of the run for [retry_wait k]. *)
Fixpoint backed_off (c : fetch_rules) (k : Z) (ts : list Z) : Prop :=
  match ts with
  | t :: ((t' :: _) as rest) => t + retry_wait c (k + 1) <= t' ∧ backed_off c (k + 1) rest
  | _ => True
  end.

Definition rules_ok (c : fetch_rules) : Prop :=
  0 < fetch_retry_after_hours c ∧ 0 < fetch_retry_max_hours c ∧ 0 < fetch_give_up_after_failures c.

Lemma greatest_time_cons l i ids :
  greatest_time l (i :: ids) =
  match pf_rows l !! i with
  | Some f => Some (match greatest_time l ids with
                    | Some t => Z.max (pf_created_at f) t
                    | None => pf_created_at f
                    end)
  | None => greatest_time l ids
  end.
Proof. done. Qed.

Section one_fetch.
Context (worker url status method : string) (content : option string) (now before : Z) (l : fetch_log).
Hypothesis Hok : log_ok before l.
Hypothesis Hnow : before <= now.
#[local] Notation l' := ((record worker now url status method content l).1).

Lemma record_ok : log_ok now l'.
Proof.
  destruct Hok as [Hi Ht Hn]. split; simpl; [| |lia].
  - intros i [f Hf]. destruct (decide (i = pf_next l)) as [->|Hne]; [lia|].
    rewrite lookup_insert_ne in Hf by done. specialize (Hi i (ex_intro _ _ Hf)). lia.
  - intros i f Hf. destruct (decide (i = pf_next l)) as [->|Hne].
    + rewrite lookup_insert_eq in Hf. injection Hf as <-. simpl. lia.
    + rewrite lookup_insert_ne in Hf by done. specialize (Ht i f Hf). lia.
Qed.

Lemma recorded_ids P :
  ids_where P (pf_rows l') =
  (ids_where P (pf_rows l) ++
   if P (pf_next l) (mkFetch url status method (Inline <$> content) worker now) then [pf_next l] else [])%list.
Proof. apply ids_where_top. intros i Hi. by apply (lo_ids _ _ Hok). Qed.

Lemma last_passed_below u : 0 <= last_passed u l < pf_next l.
Proof.
  unfold last_passed. destruct (last _) as [i|] eqn:E; simpl; [|pose proof (lo_next _ _ Hok); lia].
  apply last_Some_elem_of, elem_of_ids_where in E as (f & Hf & _).
  pose proof (lo_ids _ _ Hok i (ex_intro _ _ Hf)). lia.
Qed.

Lemma greatest_time_ext ids :
  (∀ i, i ∈ ids → i ≠ pf_next l) → greatest_time l' ids = greatest_time l ids.
Proof.
  induction ids as [|i ids IH]; intros H; [done|].
  rewrite !greatest_time_cons, IH by (intros j Hj; apply H; by right). simpl.
  by rewrite lookup_insert_ne by (intros E; apply (H i); [by left|done]).
Qed.

Lemma streak_below u i : i ∈ streak_ids u l → i ≠ pf_next l.
Proof.
  intros (f & Hf & _)%elem_of_ids_where ->. pose proof (lo_ids _ _ Hok _ (ex_intro _ _ Hf)). lia.
Qed.

(** A fetch of another page, or one that is neither outcome, leaves a run as it was. *)
Lemma streak_other u : u ≠ url → FETCH_STREAK u l' = FETCH_STREAK u l.
Proof.
  intros Hu. assert (last_passed u l' = last_passed u l) as Hp.
  { unfold last_passed. rewrite recorded_ids. cbn [pf_url]. rewrite (proj2 (String.eqb_neq url u)) by done. by rewrite app_nil_r. }
  assert (streak_ids u l' = streak_ids u l) as Hs.
  { unfold streak_ids. rewrite Hp, recorded_ids. cbn [pf_url]. rewrite (proj2 (String.eqb_neq url u)) by done. by rewrite app_nil_r. }
  unfold FETCH_STREAK. rewrite Hs. f_equal. apply greatest_time_ext. intros i. apply streak_below.
Qed.

Lemma streak_passed : status = "passed" → FETCH_STREAK url l' = (0, None).
Proof.
  intros Es. assert (last_passed url l' = pf_next l) as Hp.
  { unfold last_passed. rewrite recorded_ids. cbn [pf_url pf_status]. rewrite Es. rewrite !String.eqb_refl. cbn [andb]. by rewrite last_snoc. }
  assert (streak_ids url l' = []) as Hs.
  { unfold streak_ids. rewrite Hp, recorded_ids. cbn [pf_url pf_status]. rewrite Es. rewrite String.eqb_refl. simpl.
    rewrite app_nil_r. apply elem_of_nil_inv. intros i (f & Hf & HP)%elem_of_ids_where. breflect.
    pose proof (lo_ids _ _ Hok i (ex_intro _ _ Hf)). lia. }
  unfold FETCH_STREAK. by rewrite Hs.
Qed.

Lemma greatest_time_bound ids t : greatest_time l ids = Some t → t <= before.
Proof.
  revert t. induction ids as [|i ids IH]; intros t; [done|]. rewrite greatest_time_cons.
  destruct (pf_rows l !! i) as [f|] eqn:Hf; [|apply IH]. intros [= <-].
  pose proof (lo_times _ _ Hok i f Hf). destruct (greatest_time l ids) as [t|]; [|done].
  specialize (IH t eq_refl). lia.
Qed.

Lemma greatest_time_snoc ids :
  (∀ i, i ∈ ids → i ≠ pf_next l) → greatest_time l' (ids ++ [pf_next l]) = Some now.
Proof.
  induction ids as [|i ids IH]; intros H.
  { simpl. by rewrite lookup_insert_eq. }
  change ((i :: ids) ++ [pf_next l])%list with (i :: (ids ++ [pf_next l])%list).
  rewrite greatest_time_cons, IH by (intros j Hj; apply H; by right). simpl. rewrite lookup_insert_ne by (intros E; apply (H i); [by left|done]).
  destruct (pf_rows l !! i) as [f|] eqn:Hf; [|done]. pose proof (lo_times _ _ Hok i f Hf). f_equal. lia.
Qed.

(** An empty fetch is one more of the run, and the last of it. *)
Lemma streak_failed : status = "failed" → FETCH_STREAK url l' = ((FETCH_STREAK url l).1 + 1, Some now).
Proof.
  intros Es. assert (last_passed url l' = last_passed url l) as Hp.
  { unfold last_passed. rewrite recorded_ids. cbn [pf_url pf_status]. rewrite Es. rewrite String.eqb_refl. simpl. by rewrite app_nil_r. }
  assert (streak_ids url l' = streak_ids url l ++ [pf_next l])%list as Hs.
  { unfold streak_ids. rewrite Hp, recorded_ids. cbn [pf_url pf_status]. rewrite Es. rewrite !String.eqb_refl.
    pose proof (last_passed_below url). rewrite (proj2 (Z.ltb_lt _ _)) by lia. done. }
  unfold FETCH_STREAK. rewrite Hs, length_app. simpl. f_equal; [lia|].
  apply greatest_time_snoc. intros i. apply streak_below.
Qed.
End one_fetch.

Lemma retry_wait_pos c k : rules_ok c → 0 <= k → 0 < retry_wait c (k + 1).
Proof.
  intros (Ha & Hm & _) Hk. unfold retry_wait, HOUR. replace (k + 1 - 1) with k by lia.
  assert (0 < 2 ^ k) by (apply Z.pow_pos_nonneg; lia). nia.
Qed.

Lemma empty_fetches_bounds c url before l ts l' :
  rules_ok c → log_ok before l → empty_fetches c url before l ts l' →
  let '(k, last_failed) := FETCH_STREAK url l in
  (ts ≠ [] → k + Z.of_nat (length ts) <= fetch_give_up_after_failures c) ∧
  backed_off c k ts ∧
  (∀ t t', last_failed = Some t → head ts = Some t' → t + retry_wait c k <= t').
Proof.
  intros Hc Hok Hrun. induction Hrun as [now l|worker method before now l ts l' Hle Hp Hrun IH
    |worker method status content other before now l ts l' Hle Hne Hrun IH].
  - destruct (FETCH_STREAK url l) as [k last]. split_and!; [done|done|]. intros t t' _ [=].
  - specialize (IH (record_ok worker url "failed" method None now before l Hok Hle)).
    rewrite (streak_failed worker url "failed" method None now before l Hok Hle eq_refl) in IH.
    unfold fetch_parked in Hp. destruct (FETCH_STREAK url l) as [k last]. cbn [fst] in IH.
    destruct IH as (Hn & Hb & Hw). apply orb_false_iff in Hp as [Hg Hl]. breflect. split_and!.
    + intros _. destruct ts as [|t ts]; [simpl; lia|]. specialize (Hn ltac:(done)). simpl in *. lia.
    + destruct ts as [|t ts]; [done|]. simpl. split; [|exact Hb]. by apply Hw.
    + intros t t' -> [= <-]. simpl in Hl. breflect. lia.
  - specialize (IH (record_ok worker other status method content now before l Hok Hle)).
    rewrite (streak_other worker other status method content now before l Hok url) in IH by done.
    done.
Qed.

(** Paths that ask before fetching back off from a page that keeps coming back empty:
    the [k]-th empty fetch of its run is followed by none for the doubling wait, up to the
    longest, and once the run is as long as the limit by none at all. One fetch that brings
    text back ends the run, and fetches of other pages do not touch it. *)
Theorem empty_fetches_back_off c url before l ts l' :
  rules_ok c → log_ok before l → empty_fetches c url before l ts l' →
  let k := (FETCH_STREAK url l).1 in
  (ts ≠ [] → k + Z.of_nat (length ts) <= fetch_give_up_after_failures c) ∧
  backed_off c k ts ∧
  ∀ worker method content now, before <= now →
    fetch_parked c now url (record worker now url "passed" method content l).1 = false ∧
    ∀ other t, other ≠ url →
      fetch_parked c t other (record worker now url "passed" method content l).1 = fetch_parked c t other l.
Proof.
  intros Hc Hok Hrun. pose proof (empty_fetches_bounds c url before l ts l' Hc Hok Hrun) as H.
  destruct (FETCH_STREAK url l) as [k last]. destruct H as (Hn & Hb & _). split_and!; [done|done|].
  intros worker method content now Hle. unfold fetch_parked. split.
  - rewrite (streak_passed worker url "passed" method content now before l Hok eq_refl). simpl.
    destruct Hc as (_ & _ & Hg). rewrite orb_false_r. apply Z.leb_gt. lia.
  - intros other t Hne. by rewrite (streak_other worker url "passed" method content now before l Hok other).
Qed.

Definition demo_rules : fetch_rules := mkFetchRules 24 168 6.
Definition demo_log : fetch_log := mkFetchLog ∅ 1.

(** Two empty fetches of a page a day apart, with a fetch of another page between. *)
Lemma empty_fetches_back_off_witness :
  (let k := (FETCH_STREAK "u" demo_log).1 in
   ([0; 24 * HOUR] ≠ [] → k + 2 <= 6) ∧ backed_off demo_rules k [0; 24 * HOUR] ∧
   ∀ worker method content now, 0 <= now →
    fetch_parked demo_rules now "u" (record worker now "u" "passed" method content demo_log).1 = false ∧
    ∀ other t, other ≠ "u" →
      fetch_parked demo_rules t other (record worker now "u" "passed" method content demo_log).1 =
      fetch_parked demo_rules t other demo_log).
Proof.
  refine (empty_fetches_back_off demo_rules "u" 0 demo_log [0; 24 * HOUR] _ _ _ _).
  - by unfold rules_ok.
  - split; [intros i []; done|intros i f; done|done].
  - eapply (ef_try _ _ "w" "m"); [done|by vm_compute|].
    eapply (ef_other _ _ "w" "m" "failed" None "v" 0 (3 * HOUR)); [done|done|].
    eapply (ef_try _ _ "w" "m"); [done|by vm_compute|]. apply ef_none.
Defined.
