(* ===== verification/FilterRuns.v ===== *)
(** * Filter runs ([api.filter_runs], [tasks.board], [tasks.batch_policy],
    [tasks.filtering.personal_runs])

    Admitting a run of a person's filters, the working set it fills, splitting it into
    chunks, and what a chunk leaves out before it submits. *)

From stdpp Require Import pretty.
From S2P Require Import Prelude PyStr Sql Objects Tasks Lifecycle Queue Parking Spec Datasheets Pricing Routing Fallback Access Catalog Screening Selection Verdicts Visibility RunInputs ManagedBoards.

Local Open Scope string_scope.
Local Open Scope Z_scope.

(** ** Tables *)

Record run_settings : Type := mkRunSettings {
  filter_chunk_size : Z;
  filter_batch_chunk_size : Z;
  verify_near_copy_reuse : bool;
  pay_screens : gmap string string;
}.

(** [r_working] is [user_job_working_set], pairs of a person and a posting. *)
Record runs : Type := mkRuns {
  r_db : db;
  r_working : gset (Z * Z);
  r_conf : run_settings;
}.

Definition r_tables (r : runs) : board := d_tables (r_db r).
Definition r_queue (r : runs) : world := d_queue (r_db r).
Definition r_answers (r : runs) : list answer := b_answers (r_tables r).

Definition with_world (w : world) (r : runs) : runs :=
  mkRuns (with_queue w (r_db r)) (r_working r) (r_conf r).
Definition with_run_configs (c : run_configs) (r : runs) : runs :=
  mkRuns (with_configs c (r_db r)) (r_working r) (r_conf r).
Definition with_working (s : gset (Z * Z)) (r : runs) : runs := mkRuns (r_db r) s (r_conf r).
Definition with_tables (b : board) (r : runs) : runs :=
  let d := r_db r in
  mkRuns
    (mkDb (d_boards d) (d_members d) (d_users d) (d_budgets d) (d_credentials d) (d_calls d)
       (d_queue d) (d_configs d) b (d_page_texts d) (d_title_screens d) (d_equivalence d))
    (r_working r) (r_conf r).
Definition with_answers (l : list answer) (r : runs) : runs :=
  let b := r_tables r in
  with_tables
    (mkBoard (b_jobs b) (b_uploads b) (b_user_jobs b) (b_applied b) l (b_filters b)
       (b_selections b) (b_settings b) (b_locations b) (b_visible b) (b_recomputes b)) r.

(** [add_ai_results]: rows in order, so the last is the newest. *)
Definition add_ai_results (rows : list answer) (r : runs) : runs :=
  with_answers (rev rows ++ r_answers r)%list r.

(** ** Admitting a run ([api.filter_runs]) *)

Record InFlight : Type := mkInFlight {
  if_id : Z;
  if_kind : string;
  if_status : status;
  if_progress : option jobject;
  if_created_at : Z;
}.

Definition in_flight_of (i : Z) (t : task) : InFlight :=
  mkInFlight i (t_kind t) (t_status t) (t_progress t) (t_created_at t).

Inductive AdmissionPolicy : Type := interactive | scheduled_policy.

Definition policy_statuses (p : AdmissionPolicy) : list status :=
  match p with
  | scheduled_policy => [Pending; Running]
  | interactive => ACTIVE_STATUSES
  end.

Definition overlapping (user : Z) (filter_id : option Z) (t : task) : bool :=
  mem (t_kind t) ["run_filter"; "run_all_filters"] &&
  bool_decide (obj_int (t_payload t) "user_id" = Some user) &&
  match filter_id with
  | None => true
  | Some f => String.eqb (t_kind t) "run_all_filters" ||
              bool_decide (obj_int (t_payload t) "filter_id" = Some f)
  end.

(** [ORDER BY id DESC LIMIT 1]. *)
Definition newest_row (P : task → bool) (m : gmap Z task) : option InFlight :=
  i ← last (ids_where (λ _, P) m); in_flight_of i <$> m !! i.

Definition conflict (user : Z) (filter_id : option Z) (policy : AdmissionPolicy) (m : gmap Z task)
    : option InFlight :=
  newest_row (λ t, overlapping user filter_id t && status_in (policy_statuses policy) t) m.

Record RunDecision : Type := mkDecision {
  rd_allowed : bool;
  rd_reason : option string;
  rd_message : option string;
  rd_task_id : option Z;
}.

(** An access failure is its reason and the message [access_message] writes. *)
Record RunAdmission : Type := mkAdmission {
  ra_task_id : option Z;
  ra_conflict : option InFlight;
  ra_access_failure : option (string * string);
}.

Definition decision (a : RunAdmission) : RunDecision :=
  match ra_access_failure a with
  | Some (reason, message) => mkDecision false (Some reason) (Some message) None
  | None =>
      match ra_conflict a with
      | Some c => mkDecision false (Some "IN_PROGRESS")
                    (Some "An overlapping filter run is already in progress.") (Some (if_id c))
      | None => mkDecision true None None (ra_task_id a)
      end
  end.

Definition admission (user : Z) (filter_id : option Z) (access_failure : option (string * string))
    (m : gmap Z task) : RunAdmission :=
  match access_failure with
  | Some f => mkAdmission None None (Some f)
  | None => mkAdmission None (conflict user filter_id interactive m) None
  end.

Definition run_kind (filter_id : option Z) : string :=
  match filter_id with None => "run_all_filters" | Some _ => "run_filter" end.

Definition run_payload (user : Z) (filter_id : option Z) (policy : AdmissionPolicy) : jobject :=
  let payload : jobject := {[ "user_id" := JInt user ]} in
  let payload := match filter_id with Some f => <["filter_id" := JInt f]> payload | None => payload end in
  match policy with
  | scheduled_policy => <["scheduled" := JBool true]> (<["batched" := JBool true]> payload)
  | interactive => payload
  end.

(** One transaction under the person's row lock, and the event after it. *)
Definition enqueue_run (now user : Z) (filter_id : option Z) (policy : AdmissionPolicy)
    (dedupe : option string) (w : world) : world * RunAdmission :=
  match conflict user filter_id policy (tasks w) with
  | Some c => (w, mkAdmission None (Some c) None)
  | None =>
      let '(w, row) := enqueue now (run_kind filter_id) (run_payload user filter_id policy) dedupe w in
      (w, mkAdmission row None None)
  end.

(** ** The working set ([tasks.board]) *)

Definition uploaded_by (user id : Z) (b : board) : bool :=
  match b_uploads b !! id with Some up => u_uploaded_by up =? user | None => false end.

(** How many of the enabled filters the posting's latest answers pass. *)
Definition filters_passed (enabled : list string) (url : string) (answers : list answer) : nat :=
  length (List.filter (λ e, status_is "passed" (latest_status url "custom" (Some e) answers)) enabled).

Definition passes_all (now user : Z) (b : board) (id : Z) (j : job) : bool :=
  let '(crit, bypass) := settings_of user b in
  let enabled := ENABLED_FILTERS user b in
  (SUBSCRIBED user j b || String.eqb (j_source j) "sheet_import" || uploaded_by user id b) &&
  STRUCTURAL now (params crit) bypass j b &&
  (0 <? length enabled)%nat &&
  (filters_passed enabled (j_url j) (b_answers b) =? length enabled)%nat.

Definition materialize_passing (now user : Z) (r : runs) : runs * nat :=
  let ids := ids_where (passes_all now user (r_tables r)) (b_jobs (r_tables r)) in
  let added := List.filter (λ i, negb (bool_decide ((user, i) ∈ r_working r))) ids in
  (with_working (r_working r ∪ list_to_set (map (pair user) added)) r, length added).

Record candidate : Type := mkFilterCandidate {
  cd_url : string;
  cd_company : string;
  cd_title : string;
  cd_source : string;
}.

Definition candidate_for (j : job) : candidate :=
  mkFilterCandidate (j_url j) (j_company j) (j_title j) (j_source j).

(** [ORDER BY j.id DESC]. *)
Definition candidates_for (now user : Z) (b : board) : list candidate :=
  let '(crit, bypass) := settings_of user b in
  map candidate_for
    (omap (λ i, b_jobs b !! i)
       (rev (ids_where (λ i j, STRUCTURAL now (params crit) bypass j b &&
                               (SUBSCRIBED user j b || uploaded_by user i b)) (b_jobs b)))).

Definition is_filter_chunk (t : task) : bool :=
  mem (t_kind t) ["run_filter_chunk"; "run_filter_batch_chunk"].

(** The URLs of a payload's inline jobs, and its inline URLs. *)
Definition CHUNK_URLS (p : jobject) : list string :=
  (match p !! "jobs" with
   | Some (JArr l) => omap (λ j, job_url j ≫= json_text) l
   | _ => []
   end ++
   match p !! "urls" with
   | Some (JArr l) => omap json_text l
   | _ => []
   end)%list.

Definition holds_batches (t : task) : bool :=
  match t_payload t !! "batch_ids" with Some (JArr (_ :: _)) => true | _ => false end.

(** The ids of the filter settings with a prompt hash, read from a chunk's [config_id]. *)
Definition asks (hash : string) (c : run_configs) (t : task) : bool :=
  match obj_int (t_payload t) "config_id" with
  | Some i =>
      match rcs_rows c !! i with
      | Some row => String.eqb (rc_kind row) FILTER &&
                    match rc_body row with
                    | JObj o => bool_decide (alist_get "prompt_hash" o ≫= json_text = Some hash)
                    | _ => false
                    end
      | None => false
      end
  | None => false
  end.

Definition chunk_of_user (user : Z) (t : task) : bool :=
  is_filter_chunk t && bool_decide (obj_int (t_payload t) "user_id" = Some user).

(** The older chunks of a person and a filter that may still answer. *)
Definition owner (tid user : Z) (hash : string) (c : run_configs) (i : Z) (t : task) : bool :=
  (i <? tid) && chunk_of_user user t && asks hash c t &&
  (status_in ACTIVE_STATUSES t || holds_batches t).

Definition urls_of (ids : list Z) (m : gmap Z task) : list string :=
  ids ≫= λ i, match m !! i with Some t => CHUNK_URLS (t_payload t) | None => [] end.

Definition answered (hash : string) (models : list string) (answers : list answer) (url : string) : bool :=
  existsb (λ a, String.eqb (a_url a) url && String.eqb (a_check_type a) "custom" &&
                column_is (a_prompt_hash a) hash &&
                match a_model a with Some m => mem m models | None => false end)
    (verdicts answers).

Definition submission_exclusions (tid user : Z) (urls : list string) (hash model : string) (r : runs)
    : gset string :=
  let models := answering (d_equivalence (r_db r)) "custom" model in
  let m := tasks (r_queue r) in
  let owned := urls_of (ids_where (owner tid user hash (d_configs (r_db r))) m) m in
  list_to_set (List.filter (λ u, answered hash models (r_answers r) u || mem u owned) urls).

Definition in_flight_urls (user : Z) (m : gmap Z task) : gset string :=
  list_to_set
    (urls_of (ids_where (λ _ t, chunk_of_user user t && status_in [Pending; Running; AwaitingBatch] t) m) m).

Definition content_ready_urls (urls : list string) (pages : list page_text) : gset string :=
  list_to_set (List.filter (λ u, mem u urls) (map pt_url pages)).

Definition demotable (b : board) (id : Z) : bool :=
  match b_jobs b !! id with
  | Some j => negb (IS_AVAILABLE j) ||
              status_is "rejected" (latest_status (j_url j) "closed" None (b_answers b))
  | None => false
  end.

Definition demote_closed (r : runs) : runs * nat :=
  let gone := List.filter (λ k : Z * Z, demotable (r_tables r) k.2) (elements (r_working r)) in
  (with_working (r_working r ∖ list_to_set gone) r, length gone).

Definition board_label (n : nat) : string := "board recomputed: " ++ pretty n ++ " postings".

Definition handle_recompute_board (cur : option TaskClaim) (now tid user : Z) (r : runs) : runs :=
  let '(b, n) := recompute now user (r_tables r) in
  let r := with_tables b r in
  with_world (set_progress cur now tid (Z.of_nat n) (Z.of_nat n) (board_label n) ∅ (r_queue r)) r.

(** ** Which transport a scheduled run takes ([tasks.batch_policy]) *)

Definition flagged (p : jobject) : bool :=
  truthy (default JNull (p !! "scheduled")) || truthy (default JNull (p !! "batched")).

Definition scheduled (payload : jobject) (m : gmap Z task) : bool :=
  flagged payload ||
  match obj_int payload "parent_id" with
  | Some pid => negb (pid =? 0) && match m !! pid with Some t => flagged (t_payload t) | None => false end
  | None => false
  end.

Inductive run_exn : Type :=
| UnknownUser
| AccessRefused (e : refusal)
| BATCH_UNSUPPORTED
| PayloadUnavailable
| RunConfigUnavailable
| UnknownFilter
| LiveRunRaised.

Inductive transport_kind : Type := batch | live.

Section filter_runs.
Context (ps : list Provider) (ix : index) (environ : gmap string string) (decrypt : string → string)
  (sha256 : string → string) (jsonb_text : json → string) (put_verified : json → option PayloadRef).
Context (cur : option TaskClaim) (now : Z).

Definition transport_supported (c : AIConfig) : bool :=
  String.eqb (cf_key_source c) "owner" && mem (cf_provider c) ["openai"; "anthropic"] &&
  match provider_named ps (cf_provider c) with
  | Some p => bool_decide (is_Some (batch_endpoint p))
  | None => false
  end.

Definition unsupported_message (c : AIConfig) : string :=
  "BATCH_UNSUPPORTED: scheduled work is blocked for " ++ cf_provider c ++ "/" ++ cf_model c ++ " with " ++
  cf_key_source c ++ " credentials; no supported batch transport".

Definition _unsupported (tid : Z) (c : AIConfig) (w : world) : world :=
  set_progress cur now tid 0 0 (unsupported_message c) ∅ w.

(** [require_transport], then the model's own checks: whether nothing is raised. *)
Definition config_supported (c : AIConfig) : bool :=
  transport_supported c &&
  match model ix (cf_model c) with
  | Some m => bool_decide (unavailable_reason ps ix (cf_model c) = None) &&
              bool_decide (mode (structured_output m) = JSON_SCHEMA)
  | None => false
  end.

Definition transport (tid : Z) (c : AIConfig) (r : runs) : runs * result run_exn transport_kind :=
  if negb (String.eqb (cf_key_source c) "owner") then (r, Ok live)
  else if config_supported c then (r, Ok batch)
  else (with_world (_unsupported tid c (r_queue r)) r, Err BATCH_UNSUPPORTED).

(** [budget.load_config]. *)
Definition load_config (user : Z) (ignore_budget : bool) (d : db) : result run_exn (Entitlement * AIConfig) :=
  match d_users d !! user with
  | None => Err UnknownUser
  | Some gs =>
      let creds := default (mkCreds "openai" None None ∅ None) (d_credentials d !! user) in
      let e := lift_cap ignore_budget
                 (get_entitlement (d_budgets d) now user gs (map bc_call (d_calls d))
                    (bool_decide (is_Some (api_key_enc creds)))) in
      match resolve_ai_config ps ix environ decrypt (d_budgets d) creds e with
      | Ok c => Ok (e, c)
      | Err x => Err (AccessRefused x)
      end
  end.

(** ** Answers of near copies *)

(** The source and key of the posting at a URL; URLs are unique. *)
Definition copy_key (b : board) (url : string) : option (string * string) :=
  j ← head (omap (λ i, b_jobs b !! i) (ids_where (λ _ j, String.eqb (j_url j) url) (b_jobs b)));
  pair (j_source j) <$> j_near_copy_key j.

Definition twin_answers (b : board) (wanted : list (string * string)) (todo : list string)
    (hash : string) (models : list string) : list answer :=
  latest_per (λ a, copy_key b (a_url a))
    (λ a, match copy_key b (a_url a) with Some k => mem k wanted | None => false end &&
          negb (mem (a_url a) todo) && String.eqb (a_check_type a) "custom" &&
          column_is (a_prompt_hash a) hash &&
          match a_model a with Some m => mem m models | None => false end) (b_answers b).

Definition twin_row (hash model : string) (c : candidate) (twin : answer) : answer :=
  mkAnswer (cd_url c) "custom" (a_status twin) (a_reason twin) (Some "filter-near-copy") (Some model)
    (Some hash) (a_filter_name twin) (a_parsed_json twin) None now.

(** The loop: the keys being read, the rows it writes and the postings still to read. *)
Record twin_state : Type := mkTwin {
  tw_reading : list (string * string);
  tw_rows : list answer;
  tw_still : list candidate;
}.

Definition twin_step (b : board) (decided : list answer) (hash model : string) (s : twin_state)
    (c : candidate) : twin_state :=
  let key := copy_key b (cd_url c) in
  match key ≫= (λ k, find (λ a, bool_decide (copy_key b (a_url a) = Some k)) decided) with
  | Some twin => mkTwin (tw_reading s) (tw_rows s ++ [twin_row hash model c twin])%list (tw_still s)
  | None =>
      match key with
      | None => mkTwin (tw_reading s) (tw_rows s) (tw_still s ++ [c])%list
      | Some k => if mem k (tw_reading s) then s
                  else mkTwin (k :: tw_reading s) (tw_rows s) (tw_still s ++ [c])%list
      end
  end.

Definition _take_twin_verdicts (todo : list candidate) (hash model : string) (held : gset string) (r : runs)
    : runs * list candidate :=
  if negb (nonempty todo) || negb (verify_near_copy_reuse (r_conf r)) then (r, todo)
  else
    let b := r_tables r in
    let urls := map cd_url todo in
    let wanted := omap (copy_key b) urls in
    if negb (nonempty wanted) then (r, todo)
    else
      let decided := twin_answers b wanted urls hash (answering (d_equivalence (r_db r)) "custom" model) in
      let s := foldl (twin_step b decided hash model)
                 (mkTwin (omap (copy_key b) (elements held)) [] []) todo in
      (add_ai_results (tw_rows s) r, tw_still s).

(** ** Splitting a run *)

(** A unit of work: its transport, its filter and its postings. *)
Record work_unit : Type := mkUnit {
  un_mode : transport_kind;
  un_filter : user_filter;
  un_jobs : list candidate;
}.

(** A screen that would skip the posting; the setting holds names that exist. *)
Definition screened_out (recipe : option string) (c : candidate) : bool :=
  match recipe ≫= (λ n, screen n (Some (cd_title c)) (Some (cd_source c))) with
  | Some s => skip s
  | None => false
  end.

Definition todo_for (model : string) (candidates : list candidate) (f : user_filter) (r : runs)
    : list candidate :=
  let decided := decided_custom_urls (map cd_url candidates) (uf_prompt_hash f)
                   (Some (answering (d_equivalence (r_db r)) "custom" model)) (r_answers r) in
  List.filter (λ c, negb (mem (cd_url c) decided) &&
                    negb (screened_out (d_title_screens (r_db r) !! uf_prompt_hash f) c)) candidates.

Definition chunk_units (use_batch : bool) (f : user_filter) (conf : run_settings) (todo : list candidate)
    : list work_unit :=
  let '(k, size) := if use_batch then (batch, filter_batch_chunk_size conf)
                    else (live, filter_chunk_size conf) in
  map (mkUnit k f) (chunks (Z.to_nat size) todo).

(** One turn of the loop over the filters. *)
Definition filter_units (use_batch : bool) (model : string) (held : gset string)
    (candidates : list candidate) (ru : runs * list work_unit) (f : user_filter)
    : runs * list work_unit :=
  let '(r, still) := _take_twin_verdicts (todo_for model candidates f ru.1) (uf_prompt_hash f) model held ru.1 in
  (r, ru.2 ++ chunk_units use_batch f (r_conf r) still)%list.

Definition candidate_json (c : candidate) : json :=
  JObj [("url", JStr (cd_url c)); ("company", JStr (cd_company c)); ("title", JStr (cd_title c));
        ("source", JStr (cd_source c))].

Definition is_batch (u : work_unit) : bool := match un_mode u with batch => true | live => false end.

(** Every upload, in order; the run raises when one fails. *)
Definition upload_lists (units : list work_unit) : option (list PayloadRef) :=
  mapM (λ u, put_verified (JArr (map candidate_json (un_jobs u)))) (List.filter is_batch units).

Definition filter_settings (f : user_filter) : json :=
  JObj [("name", JStr (uf_name f)); ("prompt", JStr (uf_prompt f));
        ("on_ambiguous", JStr (uf_on_ambiguous f)); ("prompt_hash", JStr (uf_prompt_hash f))].

(** The payload of a chunk; its postings are named by [jobs], the keys that hold them. *)
Definition chunk_payload (tid user config_id : Z) (f : user_filter) (jobs : jobject)
    (ignore_budget batched : bool) : jobject :=
  jobs ∪ {[ "parent_id" := JInt tid; "user_id" := JInt user; "filter_id" := JInt (uf_id f);
            "config_id" := JInt config_id; "ignore_budget" := JBool ignore_budget;
            "scheduled" := JBool batched ]}.

Definition unit_jobs (u : work_unit) (refs : list PayloadRef) : option (jobject * list PayloadRef) :=
  let jobs := map candidate_json (un_jobs u) in
  match un_mode u, refs with
  | live, _ => Some ({[ "jobs" := JArr jobs ]}, refs)
  | batch, ref :: refs => (λ p, (p, refs)) <$> reference FILTER_CHUNKS jobs ref
  | batch, [] => None
  end.

(** The settings are interned once per filter and run. *)
Definition config_of (f : user_filter) (configs : gmap Z Z) (r : runs)
    : option (runs * gmap Z Z * Z) :=
  match configs !! uf_id f with
  | Some c => Some (r, configs, c)
  | None =>
      '(t, c) ← intern sha256 jsonb_text FILTER (filter_settings f) (d_configs (r_db r));
      Some (with_run_configs t r, <[uf_id f := c]> configs, c)
  end.

(** Each statement of the loop commits on its own: what was queued before an exception
    stays queued. *)
Fixpoint enqueue_units (tid user : Z) (ignore_budget batched : bool) (units : list work_unit)
    (refs : list PayloadRef) (configs : gmap Z Z) (r : runs) : runs * result run_exn unit :=
  match units with
  | [] => (r, Ok tt)
  | u :: units =>
      match config_of (un_filter u) configs r with
      | None => (r, Err RunConfigUnavailable)
      | Some (r, configs, c) =>
          match unit_jobs u refs with
          | None => (r, Err PayloadUnavailable)
          | Some (jobs, refs) =>
              let kind := match un_mode u with batch => "run_filter_batch_chunk"
                                             | live => "run_filter_chunk" end in
              let w := (enqueue now kind (chunk_payload tid user c (un_filter u) jobs ignore_budget batched)
                          None (r_queue r)).1 in
              enqueue_units tid user ignore_budget batched units refs configs (with_world w r)
          end
      end
  end.

Definition waiting_label (units : list work_unit) : string :=
  if existsb is_batch units then "answers arrive in batches, which can take hours"
  else "checked in " ++ pretty (length units) ++ " parts".

(** [process_jobs] is the live run of one list ([execute_live]). It answers whether it
    returned. *)
Context (process_jobs : AIConfig → user_filter → list candidate → runs → runs * bool).

Definition split_run (tid user : Z) (batched ignore_budget : bool) (units : list work_unit) (r : runs)
    : runs * result run_exn unit :=
  match upload_lists units with
  | None => (r, Err PayloadUnavailable)
  | Some refs =>
      match enqueue_units tid user ignore_budget batched units refs ∅ r with
      | (r, Err e) => (r, Err e)
      | (r, Ok _) =>
          let total := Z.of_nat (length (units ≫= un_jobs)) in
          (with_world (park_waiting cur tid total (waiting_label units) (r_queue r)) r, Ok tt)
      end
  end.

(** What is done with the units. *)
Definition run_units (tid user : Z) (c : AIConfig) (batched ignore_budget : bool)
    (units : list work_unit) (r : runs) : runs * result run_exn unit :=
  match units with
  | [] =>
      let r := (materialize_passing now user r).1 in
      (with_world (set_progress cur now tid 0 0 "everything already decided" ∅ (r_queue r)) r, Ok tt)
  | [mkUnit live f jobs] =>
      let '(r, returned) := process_jobs c f jobs r in
      if returned then ((materialize_passing now user r).1, Ok tt) else (r, Err LiveRunRaised)
  | _ => split_run tid user batched ignore_budget units r
  end.

Definition not_held (held : gset string) (l : list candidate) : list candidate :=
  List.filter (λ c, negb (bool_decide (cd_url c ∈ held))) l.

Definition _run_filters (tid user : Z) (filters : list user_filter) (batched ignore_budget : bool) (r : runs)
    : runs * result run_exn unit :=
  match load_config user ignore_budget (r_db r) with
  | Err e => (r, Err e)
  | Ok (_, c) =>
      match (if batched then transport tid c r else (r, Ok live)) with
      | (r, Err e) => (r, Err e)
      | (r, Ok k) =>
          let held := in_flight_urls user (tasks (r_queue r)) in
          let candidates := not_held held (candidates_for now user (r_tables r)) in
          let use_batch := match k with batch => true | live => false end in
          let '(r, units) := foldl (filter_units use_batch (cf_model c) held candidates) (r, []) filters in
          run_units tid user c batched ignore_budget units r
      end
  end.

Definition handle_run_filter (tid : Z) (payload : jobject) (r : runs) : runs * result run_exn unit :=
  match find (λ f, bool_decide (obj_int payload "filter_id" = Some (uf_id f)) &&
                   bool_decide (obj_int payload "user_id" = Some (uf_user_id f))) (b_filters (r_tables r)) with
  | None => (r, Err UnknownFilter)
  | Some f =>
      _run_filters tid (uf_user_id f) [f] (scheduled payload (tasks (r_queue r)))
        (truthy (default JNull (payload !! "ignore_budget"))) r
  end.

Definition filter_id_le (a b : user_filter) : Prop := uf_id a <= uf_id b.

#[local] Instance filter_id_le_dec : RelDecision filter_id_le.
Proof. intros a b. unfold filter_id_le. apply _. Defined.

Definition handle_run_all_filters (tid : Z) (payload : jobject) (r : runs) : runs * result run_exn unit :=
  let filters := merge_sort filter_id_le
    (List.filter (λ f, bool_decide (obj_int payload "user_id" = Some (uf_user_id f)) && uf_enabled f)
       (b_filters (r_tables r))) in
  match filters, obj_int payload "user_id" with
  | _ :: _, Some user =>
      _run_filters tid user filters (scheduled payload (tasks (r_queue r)))
        (truthy (default JNull (payload !! "ignore_budget"))) r
  | _, _ => (r, Ok tt)
  end.
End filter_runs.
