(* ===== verification/FilterExec.v ===== *)
(** * Executing a filter over postings ([tasks.filtering.execution],
    [tasks.filtering.personal_runs], the verdict rows of [api.ai.verdicts])

    The configuration a run takes while a provider is out of credit, the pages it reads, the
    requests it submits, and the verdicts its results become. The chunk handler up to its
    submission: its transport, its pages, what is already decided or belongs to an older
    chunk, and what a pay screen settles. Then the chunks of a person and a filter as one
    system, whose rows the whole queue may change. *)

From stdpp Require Import pretty.
From S2P Require Import Prelude PyStr Sql Objects Tasks Lifecycle Queue Claims Parking Execution Machine Moves Fleet Spec Datasheets Pricing Routing Fallback Shapes Access Batches Collect Receipts Catalog Screening Selection Verdicts Visibility RunInputs ManagedBoards Fetches FilterRuns.

Local Open Scope string_scope.
Local Open Scope Z_scope.

(** ** The model a run uses *)

Definition param_text (k : string) (p : jobject) : option string :=
  match p !! k with
  | Some j => if truthy j then json_text j else None
  | None => None
  end.

Definition filter_effort (c : AIConfig) : string :=
  match param_text "reasoning_effort" (cf_params c) with
  | Some e => e
  | None => default "medium" (param_text "effort" (cf_params c))
  end.

Definition EFFORT_KEYS : list string := ["reasoning_effort"; "effort"].

Section config.
Context (ps : list Provider) (ix : index) (e : routing_env).

(** [None] is a purpose that has no shape, a KeyError. *)
Definition fallback_config (purpose_ : string) (c : AIConfig) : option AIConfig :=
  if negb (String.eqb (cf_key_source c) "owner") || negb (bool_decide (cf_provider c ∈ re_blocked e))
  then Some c
  else
    match custom_filter_shape (cf_model c) (Some (filter_effort c)) purpose_ with
    | Err _ => None
    | Ok sh =>
        match route ps ix e sh None with
        | Err _ => Some c
        | Ok choice =>
            match ch_fallback_from choice with
            | None => Some c
            | Some _ =>
                let kept := filter (λ kv : string * json, kv.1 ∉ EFFORT_KEYS) (cf_params c) in
                let taken := filter (λ kv : string * json, kv.1 ∈ EFFORT_KEYS) (ch_params choice) in
                Some (mkConfig (ch_provider choice) (server_key ps (re_environ e) (ch_provider choice))
                        (cf_key_source c) (ch_model choice) (cf_base_url c) (taken ∪ kept)
                        (cf_substituted_from c) (cf_substitution_reason c) (Some (cf_model c)))
            end
        end
    end.
End config.

(** ** Snapshots and jobs *)

Record FilterSnapshot : Type := mkSnapshot {
  fs_name : string;
  fs_prompt : string;
  fs_on_ambiguous : string;
  fs_prompt_hash : string;
}.

(** [d[k]], of a text. *)
Definition text_at (k : string) (j : json) : option string :=
  match j with
  | JObj o => match alist_get k o with Some (JStr s) => Some s | _ => None end
  | _ => None
  end.

Definition get_at (k : string) (j : json) : option json :=
  match j with JObj o => alist_get k o | _ => None end.

(** [None] is a missing key. *)
Definition from_mapping (j : json) : option FilterSnapshot :=
  name ← text_at "name" j;
  prompt ← text_at "prompt" j;
  on_ambiguous ← text_at "on_ambiguous" j;
  hash ← text_at "prompt_hash" j;
  Some (mkSnapshot name prompt on_ambiguous hash).

Definition snapshot_json (s : FilterSnapshot) : json :=
  JObj [("name", JStr (fs_name s)); ("prompt", JStr (fs_prompt s));
        ("on_ambiguous", JStr (fs_on_ambiguous s)); ("prompt_hash", JStr (fs_prompt_hash s))].

(** The page a managed board's run froze for a job. *)
Definition frozen_page (job : json) : option Page :=
  match get_at "content_query_id" job, get_at "content" job with
  | Some (JInt i), Some (JStr t) => if String.eqb t "" then None else Some (mkPage i t)
  | _, _ => None
  end.

Definition result_label (unavailable : Z) (name : string) : string :=
  if unavailable =? 0 then name
  else name ++ "; " ++ pretty unavailable ++ " without content, awaiting a later cycle".

(** ** Preparing pages *)

Definition job_urls (jobs : list json) : list string := omap (text_at "url") jobs.

(** The pages missing from what is stored that no wait keeps the run away from. *)
Definition to_fetch (c : fetch_rules) (now : Z) (jobs : list json) (stored : gmap string Page)
    (l : fetch_log) : list string :=
  List.filter (λ u, bool_decide (stored !! u = None) && negb (fetch_parked c now u l)) (job_urls jobs).

(** [fetched] is what [refresh_page] brought for a URL, nothing when it raised or the task
    was cancelled first. *)
Definition prepare_content (c : fetch_rules) (now tid : Z) (jobs : list json) (stored : gmap string Page)
    (fetched : string → option Page) (l : fetch_log) (w : world) : world * gmap string Page * Z :=
  let contents := foldl (λ m u, match fetched u with Some p => <[u := p]> m | None => m end)
                    stored (to_fetch c now jobs stored l) in
  let unavailable := Z.of_nat (length (List.filter (λ u, bool_decide (contents !! u = None)) (job_urls jobs))) in
  (merge_payload tid {[ "content_unavailable" := JInt unavailable ]} [] w, contents, unavailable).

(** ** Requests *)

(** Board runs write no provider cache unless the setting allows it. *)
Definition cache_policy (ix : index) (purpose_ : string) (c : AIConfig) (cache_writes_enabled : bool)
    : option string :=
  if String.eqb purpose_ MANAGED_BOARD_PURPOSE then
    match model ix (cf_model c) with
    | Some m =>
        if (default false (supports_explicit_prompt_cache m) || String.eqb (cf_provider c) "anthropic") &&
           negb cache_writes_enabled
        then Some "no_cache" else None
    | None => None
    end
  else None.

Section requests.
(** The strict schema of [FilterDecision]. *)
Context (decision_schema : jobject).

Definition filter_spec (s : FilterSnapshot) (policy : option string) (effort : string) (job : json)
    (p : Page) : option BatchSpec :=
  url ← text_at "url" job;
  company ← text_at "company" job;
  title ← text_at "title" job;
  Some (mkSpec url (build_custom_decision_instructions (fs_prompt s) (fs_on_ambiguous s))
          (build_custom_input company title (pg_text p)) "FilterDecision" decision_schema
          (Some ((match policy with
                  | Some x => {[ "prompt_cache_policy" := JStr x ]}
                  | None => ∅
                  end : jobject) ∪
                 {[ "job" := job; "page_fetch_id" := JInt (pg_fetch_id p);
                    "filter" := snapshot_json s; "reasoning_effort" := JStr effort ]}))
          Responses None).

(** A page is taken for the first job that names it; a job without one waits. *)
Fixpoint filter_specs (s : FilterSnapshot) (policy : option string) (effort : string) (jobs : list json)
    (contents : gmap string Page) : option (list BatchSpec) :=
  match jobs with
  | [] => Some []
  | job :: jobs =>
      url ← text_at "url" job;
      match contents !! url with
      | None => filter_specs s policy effort jobs contents
      | Some p =>
          spec ← filter_spec s policy effort job p;
          rest ← filter_specs s policy effort jobs (delete url contents);
          Some (spec :: rest)
      end
  end.
End requests.

(** ** Verdicts *)

Record Verdict : Type := mkVerdict {
  vd_url : string;
  vd_check_type : string;
  vd_rejected : option bool;
  vd_reason : option string;
  vd_parsed_json : option string;
  vd_model : option string;
  vd_filter_name : option string;
  vd_prompt_hash : option string;
  vd_context : string;
  vd_request_sha256 : option string;
}.

Definition verdict_status (v : Verdict) : string :=
  match vd_rejected v with
  | None => "failed"
  | Some true => "rejected"
  | Some false => "passed"
  end.

Definition verdict_row (now : Z) (v : Verdict) : answer :=
  mkAnswer (vd_url v) (vd_check_type v) (verdict_status v) (vd_reason v) (Some (vd_context v)) (vd_model v)
    (vd_prompt_hash v) (vd_filter_name v) (vd_parsed_json v) (vd_request_sha256 v) now.

(** What one pending result writes. *)
Record _Collected : Type := mkCollected {
  co_model : option string;
  co_outcome : string;
  co_verdict : option Verdict;
}.

(** A result with the request frozen for it. *)
Abbreviation collected := (BatchResult * option BatchSpec)%type.

Section collect.
(** [FilterResult.model_validate_json]: the decision and the reason, [None] a ValueError. *)
Context (validate : string → option (bool * option string)).
(** Whether the database takes a row. *)
Context (accepts : answer → bool).
Context (now : Z) (snapshot : FilterSnapshot) (by_url : gmap string json) (verdict_label : string).

Definition result_text (r : BatchResult) : option string :=
  match br_text r with
  | JStr s => nonempty_opt (Some s)
  | _ => None
  end.

Definition parsed_of (r : BatchResult) : option (bool * option string) :=
  match nonempty_opt (br_error r), result_text r with
  | None, Some t => validate t
  | _, _ => None
  end.

Definition failure_reason (r : BatchResult) : string :=
  match nonempty_opt (br_error r), result_text r with
  | None, Some _ => "batch: unparsable output"
  | err, _ => "batch: " ++ default "no output" err
  end.

Definition planned_verdict (stored : FilterSnapshot) (r : BatchResult) : Verdict :=
  let parsed := parsed_of r in
  mkVerdict (br_custom_id r) "custom" (fst <$> parsed)
    (match parsed with Some (_, reason) => reason | None => Some (failure_reason r) end)
    (match parsed with Some _ => result_text r | None => None end) (br_model r)
    (Some verdict_label) (Some (fs_prompt_hash stored)) "filter-batch" None.

(** [c or d], of a value that may be absent. *)
Definition or_else (o : option json) (d : option json) : option json :=
  match o with
  | Some j => if truthy j then Some j else d
  | None => d
  end.

(** [None] is a KeyError: a stored snapshot or a job without its columns. *)
Definition _plan (x : collected) : option _Collected :=
  let '(r, request) := x in
  let context := default ∅ (request ≫= sp_context) in
  stored ← from_mapping (default JNull (or_else (context !! "filter") (Some (snapshot_json snapshot))));
  match or_else (context !! "job") (by_url !! br_custom_id r) with
  | None => Some (mkCollected (br_model r) "unknown_request" None)
  | Some job =>
      _ ← get_at "company" job;
      _ ← get_at "title" job;
      Some (mkCollected (br_model r) (if bool_decide (parsed_of r = None) then "failed" else "written")
              (Some (planned_verdict stored r)))
  end.

Definition key_of (x : collected) : receipt_key := (default "" (br_batch_id x.1), br_custom_id x.1).

(** The plans of the results whose receipts are pending. *)
Fixpoint plans (l : list collected) (receipts : list Receipt) : option (list (option _Collected)) :=
  match l, receipts with
  | x :: l, r :: receipts =>
      here ← (if rcp_pending r then Some <$> _plan x else Some None);
      rest ← plans l receipts;
      Some (here :: rest)
  | _, _ => Some []
  end.

Definition rows_of (ps : list (option _Collected)) : list answer :=
  verdict_row now <$> omap (λ p, p ≫= co_verdict) ps.

Definition outcomes_of (receipts : list Receipt) (ps : list (option _Collected)) : list string :=
  zip_with (λ r p, match p with Some p => co_outcome p | None => rcp_outcome r end) receipts ps.

(** One transaction's body: the verdicts of the pending results, in order. Counting their
    tokens writes no table. *)
Definition collect_body (l : list collected) : consumer (list answer) := λ receipts answers,
  ps ← plans l receipts;
  let rows := rows_of ps in
  if forallb accepts rows then Some ((rev rows ++ answers)%list, outcomes_of receipts ps) else None.

Definition _collect_chunk (tid : Z) (l : list collected) (b : books) (answers : list answer)
    : books * list answer * result books_exn (list receipt_key) :=
  consume_results now tid (map key_of l) (collect_body l) b answers.

Definition _collect_one (tid : Z) (x : collected) (b : books) (answers : list answer)
    : books * list answer * result books_exn (list receipt_key) :=
  consume_result now tid (key_of x) (collect_body [x]) b answers.

(** Result by result: what comes before an exception stays. *)
Fixpoint collect_each (tid : Z) (l : list collected) (b : books) (answers : list answer)
    : books * list answer * result books_exn unit :=
  match l with
  | [] => (b, answers, Ok tt)
  | x :: l =>
      match _collect_one tid x b answers with
      | (b, answers, Ok _) => collect_each tid l b answers
      | (b, answers, Err e) => (b, answers, Err e)
      end
  end.

Definition COLLECT_CHUNK : nat := 500.

(** The loop of [execute_batch] over its results; a chunk that fails is collected again
    result by result. Progress is not among the tables. *)
Fixpoint collect_chunks (tid : Z) (ls : list (list collected)) (b : books) (answers : list answer)
    : books * list answer * result books_exn unit :=
  match ls with
  | [] => (b, answers, Ok tt)
  | l :: ls =>
      match _collect_chunk tid l b answers with
      | (b, answers, Ok _) => collect_chunks tid ls b answers
      | (b, answers, Err _) =>
          match collect_each tid l b answers with
          | (b, answers, Ok _) => collect_chunks tid ls b answers
          | (b, answers, Err e) => (b, answers, Err e)
          end
      end
  end.

Definition collect_results (tid : Z) (l : list collected) (b : books) (answers : list answer)
    : books * list answer * result books_exn unit :=
  collect_chunks tid (chunks COLLECT_CHUNK l) b answers.
End collect.

(** ** The handler *)

(** What a chunk does, once it knows: collect what it submitted, run live, stop because it
    or its run was cancelled, or go on to select what it submits. *)
Inductive chunk_plan : Type :=
| Collects (s : FilterSnapshot) (jobs : list json)
| RunsLive (c : AIConfig) (s : FilterSnapshot) (jobs : list json)
| Prepares (c : AIConfig) (s : FilterSnapshot) (jobs : list json)
| ReadsStored (c : AIConfig) (s : FilterSnapshot) (jobs : list json).

Inductive chunk_end : Type :=
| Stopped
| NothingNew
| Submits (c : AIConfig) (s : FilterSnapshot) (jobs : list json).

Inductive chunk_exn : Type :=
| ChunkSettingsLost
| ChunkJobsLost (e : jobs_exn)
| ChunkKeyError
| ChunkRefused (e : run_exn).

Section chunk.
Context (ps : list Provider) (ix : index) (environ : gmap string string) (decrypt : string → string).
Context (e : routing_env) (get : PayloadRef → option json).
(** [core.pay_screen.screen]: the reason a recipe settles a text with, if it does. *)
Context (pay_screen : string → string → option string).
Context (cur : option TaskClaim) (now : Z).

Definition pay_row (s : FilterSnapshot) (model url reason : string) : answer :=
  mkAnswer url "custom" "rejected" (Some reason) (Some "filter-pay-screen") (Some model)
    (Some (fs_prompt_hash s)) (Some (fs_name s)) None None now.

Definition pay_reason (recipe : string) (contents : gmap string Page) (job : json) : option (string * string) :=
  url ← text_at "url" job;
  p ← contents !! url;
  pair url <$> pay_screen recipe (pg_text p).

Definition _settle_by_stated_pay (jobs : list json) (contents : gmap string Page) (s : FilterSnapshot)
    (model : string) (r : runs) : runs * list json :=
  match pay_screens (r_conf r) !! fs_prompt_hash s with
  | None => (r, jobs)
  | Some recipe =>
      (add_ai_results
         (omap (λ j, (λ ur, pay_row s model ur.1 ur.2) <$> pay_reason recipe contents j) jobs) r,
       List.filter (λ j, bool_decide (pay_reason recipe contents j = None)) jobs)
  end.

(** [handle_run_filter_batch_chunk] up to its pages. [existing] is [has_batch_work]. *)
Definition plan_chunk (existing : bool) (tid : Z) (payload : jobject) (r : runs)
    : runs * result chunk_exn chunk_plan :=
  match obj_int payload "user_id" with
  | None => (r, Err ChunkKeyError)
  | Some user =>
      match filter_of payload (d_configs (r_db r)) ≫= from_mapping with
      | None => (r, Err ChunkSettingsLost)
      | Some s =>
          match run_jobs get false payload with
          | Err x => (r, Err (ChunkJobsLost x))
          | Ok (JArr jobs) =>
              if existing then (r, Ok (Collects s jobs))
              else
                match load_config ps ix environ decrypt now user
                        (truthy (default JNull (payload !! "ignore_budget"))) (r_db r) with
                | Err x => (r, Err (ChunkRefused x))
                | Ok (_, c) =>
                    match fallback_config ps ix e FILTER_PURPOSE c with
                    | None => (r, Err ChunkKeyError)
                    | Some c =>
                        match (if scheduled payload (tasks (r_queue r))
                               then transport ps ix cur now tid c r else (r, Ok live)) with
                        | (r, Err x) => (r, Err (ChunkRefused x))
                        | (r, Ok batch) => (r, Ok (Prepares c s jobs))
                        | (r, Ok live) =>
                            if negb (String.eqb (cf_key_source c) "owner") ||
                               negb (String.eqb (cf_provider c) "openai")
                            then (r, Ok (RunsLive c s jobs)) else (r, Ok (ReadsStored c s jobs))
                        end
                    end
                end
          | Ok _ => (r, Err ChunkKeyError)
          end
      end
  end.

(** [handle_run_filter_chunk]: a scheduled one takes the path above. *)
Definition plan_filter_chunk (existing : bool) (tid : Z) (payload : jobject) (r : runs)
    : runs * result chunk_exn chunk_plan :=
  if scheduled payload (tasks (r_queue r)) then plan_chunk existing tid payload r
  else
    match obj_int payload "user_id" with
    | None => (r, Err ChunkKeyError)
    | Some user =>
        match load_config ps ix environ decrypt now user
                (truthy (default JNull (payload !! "ignore_budget"))) (r_db r) with
        | Err x => (r, Err (ChunkRefused x))
        | Ok (_, c) =>
            match filter_of payload (d_configs (r_db r)) ≫= from_mapping with
            | None => (r, Err ChunkSettingsLost)
            | Some s =>
                match run_jobs get false payload with
                | Err x => (r, Err (ChunkJobsLost x))
                | Ok (JArr jobs) => (r, Ok (RunsLive c s jobs))
                | Ok _ => (r, Err ChunkKeyError)
                end
            end
        end
    end.

Definition stopped (tid : Z) (payload : jobject) (w : world) : bool :=
  cancelled tid w ||
  match obj_int payload "parent_id" with
  | Some pid => negb (pid =? 0) && parent_cancelled pid w
  | None => false
  end.

(** [hooks.progress] and [hooks.complete]. *)
Definition report (tid : Z) (payload : jobject) (done total : Z) (label : string) (r : runs) : runs :=
  let w := set_progress cur now tid done total label ∅ (r_queue r) in
  with_world (match obj_int payload "parent_id" with
              | Some pid => if pid =? 0 then w else update_parent_progress now pid w
              | None => w
              end) r.

Definition complete (user : Z) (payload : jobject) (r : runs) : runs :=
  match obj_int payload "parent_id" with
  | Some pid =>
      if pid =? 0 then r
      else let r := (materialize_passing now user r).1 in
           with_world (update_parent_progress now pid (r_queue r)) r
  | None => r
  end.

Definition not_excluded (excluded : gset string) (jobs : list json) : list json :=
  List.filter (λ j, match text_at "url" j with
                    | Some u => negb (bool_decide (u ∈ excluded))
                    | None => true
                    end) jobs.

(** The rest, on the state it finds once it has its pages: what is left to submit. [prepared]
    tells the path that fetched pages, which may have been cancelled meanwhile. *)
Definition select_jobs (prepared : bool) (tid user : Z) (payload : jobject) (c : AIConfig)
    (s : FilterSnapshot) (jobs : list json) (contents : gmap string Page) (r : runs) : runs * chunk_end :=
  if prepared && stopped tid payload (r_queue r) then (r, Stopped)
  else
    let excluded := submission_exclusions tid user (job_urls jobs) (fs_prompt_hash s) (cf_model c) r in
    let '(r, jobs) := _settle_by_stated_pay (not_excluded excluded jobs) contents s (cf_model c) r in
    match jobs with
    | [] => (complete user payload
               (report tid payload 0 0 "no new reviews: already decided or owned by an earlier chunk" r),
             NothingNew)
    | _ => (r, Submits c s jobs)
    end.
End chunk.

(** ** The chunks of a person and a filter, on a table anyone may change *)

Definition NAMES : list string := ["jobs"; "urls"; "user_id"; "config_id"].

(** A chunk that may still answer: what [owner] asks of it. *)
Definition live_row (t : task) : bool := status_in ACTIVE_STATUSES t || holds_batches t.

(** The row names the work it named, and is not live again. *)
Definition chunk_kept (t t' : task) : Prop :=
  t_kind t' = t_kind t ∧ (∀ k, k ∈ NAMES → t_payload t' !! k = t_payload t !! k) ∧
  (live_row t' = true → live_row t = true).

Definition chunks_kept (w w' : world) : Prop :=
  next_id w <= next_id w' ∧
  ∀ i t', tasks w' !! i = Some t' →
    (next_id w <= i < next_id w') ∨ ∃ t, tasks w !! i = Some t ∧ chunk_kept t t'.

(** What each chunk has selected to submit. *)
Record filter_site : Type := mkFilterSite {
  fs_runs : runs;
  fs_picked : gmap Z (gset string);
}.

Definition picked (tid : Z) (s : filter_site) : gset string := default ∅ (fs_picked s !! tid).

Definition asks_kept (c c' : run_configs) (m : gmap Z task) : Prop :=
  ∀ i t hash, m !! i = Some t → is_filter_chunk t = true → asks hash c' t = asks hash c t.

(** Any statement of the queue that revives no ended chunk; answers; settings; and a chunk's
    selection, made by a run of it against the state it reads. *)
Inductive filter_step : filter_site → filter_site → Prop :=
| fstep_queue r p w' :
    chunks_kept (r_queue r) w' → filter_step (mkFilterSite r p) (mkFilterSite (with_world w' r) p)
| fstep_answers r p rows :
    filter_step (mkFilterSite r p) (mkFilterSite (add_ai_results rows r) p)
| fstep_settings r p c' :
    asks_kept (d_configs (r_db r)) c' (tasks (r_queue r)) →
    filter_step (mkFilterSite r p) (mkFilterSite (with_run_configs c' r) p)
| fstep_select r p pay_screen now tid t user prepared payload c s jobs contents r' selected :
    tasks (r_queue r) !! tid = Some t → t_status t = Running → chunk_of_user user t = true →
    asks (fs_prompt_hash s) (d_configs (r_db r)) t = true →
    job_urls jobs ⊆ CHUNK_URLS (t_payload t) →
    select_jobs pay_screen None now prepared tid user payload c s jobs contents r = (r', Submits c s selected) →
    filter_step (mkFilterSite r p)
      (mkFilterSite r' (<[tid := default ∅ (p !! tid) ∪ list_to_set (job_urls selected)]> p)).
