(* ===== verification/FilterProps.v ===== *)
(** * What filter runs promise ([FilterRuns], [FilterExec])

    Collecting a chunk in bulk against one by one; then who submits what: the invariant of
    a run of [filter_step]s, the statements of the queue that such a run may take, and the
    operator's retry, which it may not. *)

From S2P Require Import Prelude PyStr Sql Objects Tasks Lifecycle Queue Claims Parking Execution Machine Moves Fleet Spec Datasheets Pricing Routing Fallback Shapes Access Batches Collect Receipts Catalog CatalogProps Screening Selection Verdicts Visibility VisibilityProps RunInputs ManagedBoards Fetches FilterRuns FilterExec.

Local Open Scope string_scope.
Local Open Scope Z_scope.

(** ** Collecting a chunk and collecting its results one by one *)

Section collect.
Context (validate : string → option (bool * option string)) (accepts : answer → bool).
Context (now : Z) (snapshot : FilterSnapshot) (by_url : gmap string json) (verdict_label : string).
Notation plans := (plans validate snapshot by_url verdict_label).
Notation _plan := (_plan validate snapshot by_url verdict_label).
Notation rows_of := (rows_of now).

(** The receipts after some keys of a chunk were consumed. *)
Definition consumed_so_far (tid : Z) (seen : list receipt_key) (b0 b : books) : Prop :=
  ∀ k r, owned_receipt tid k b0 = Some r →
    ∃ r', owned_receipt tid k b = Some r' ∧
          bool_decide (rc_outcome r' = None) = bool_decide (rc_outcome r = None) && negb (mem k seen).

Lemma owned_lookup tid k b r : owned_receipt tid k b = Some r → bk_receipts b !! k = Some r.
Proof. unfold owned_receipt. destruct (bk_receipts b !! k) as [x|]; [|done]. destruct (_ =? _); naive_solver. Qed.

Lemma outcomes_for_same (rs : list Receipt) (outs : list string) :
  length outs = length rs → outcomes_for rs outs = outs.
Proof. intros H. unfold outcomes_for. rewrite H, drop_ge by (by rewrite length_map). apply app_nil_r. Qed.

Lemma plans_length l rs ps : length rs = length l → plans l rs = Some ps → length ps = length rs.
Proof.
  revert rs ps. induction l as [|x l IH]; intros [|r rs] ps; simpl; try done; [by intros _ [= <-]|].
  intros [= Hl]. destruct (if rcp_pending r then _ else _) as [here|]; [|done]. simpl.
  destruct (plans l rs) as [rest|] eqn:E; [|done]. intros [= <-]. simpl. f_equal. by eapply IH.
Qed.

Lemma receipts_for_length tid keys seen b rs : receipts_for tid keys seen b = Some rs → length rs = length keys.
Proof.
  revert seen rs. induction keys as [|k keys IH]; intros seen rs; simpl; [by intros [= <-]|].
  destruct (owned_receipt tid k b); [|done]. simpl. destruct (receipts_for tid keys _ b) as [rest|] eqn:E; [|done].
  intros [= <-]. simpl. f_equal. by eapply IH.
Qed.

(** The acknowledgements of a chunk whose plans are known. *)
Definition acks_of_plans (keys : list receipt_key) (rs : list Receipt) (ps : list (option _Collected))
    : list (receipt_key * string) := acknowledged keys rs (outcomes_of rs ps).

Definition apply_acks (acks : list (receipt_key * string)) (b : books) : books :=
  with_receipts (foldl (λ m a, alter (acknowledge now a.2) a.1 m) (bk_receipts b) acks) b.

Lemma apply_acks_cons k o acks b :
  apply_acks ((k, o) :: acks) b = apply_acks acks (apply_acks [(k, o)] b).
Proof. done. Qed.

Lemma apply_ack_owned tid k r o b j :
  owned_receipt tid k b = Some r →
  owned_receipt tid j (apply_acks [(k, o)] b) =
    if decide (j = k) then Some (acknowledge now o r) else owned_receipt tid j b.
Proof.
  intros H. pose proof (owned_lookup _ _ _ _ H) as Hk. unfold owned_receipt, apply_acks in *. simpl.
  destruct (decide (j = k)) as [->|Hne]; [|by rewrite lookup_alter_ne].
  rewrite lookup_alter_eq, Hk in *. simpl. by destruct (rc_task_id r =? tid).
Qed.

(** One result, consumed alone, when its receipt is pending. *)
Lemma one_pending tid x b answers r p :
  owned_receipt tid (key_of x) b = Some r → rc_outcome r = None → _plan x = Some p →
  forallb accepts (rows_of [Some p]) = true →
  _collect_one validate accepts now snapshot by_url verdict_label tid x b answers =
  (apply_acks [(key_of x, co_outcome p)] b, (rev (rows_of [Some p]) ++ answers)%list, Ok [key_of x]).
Proof.
  intros Hr Ho Hp Ha. unfold _collect_one, consume_result. rewrite Hr, bool_decide_eq_true_2 by done.
  unfold collect_body. simpl. rewrite Hp. simpl. unfold rows_of in *. simpl in *. rewrite Ha. simpl.
  unfold apply_acks. simpl. f_equal. f_equal. f_equal. apply map_eq. intros j. destruct (decide (j = key_of x)) as [->|].
  - by rewrite lookup_insert_eq, lookup_alter_eq, (owned_lookup _ _ _ _ Hr).
  - by rewrite lookup_insert_ne, lookup_alter_ne.
Qed.

Lemma one_done tid x b answers r :
  owned_receipt tid (key_of x) b = Some r → rc_outcome r ≠ None →
  _collect_one validate accepts now snapshot by_url verdict_label tid x b answers = (b, answers, Ok []).
Proof.
  intros Hr Ho. unfold _collect_one, consume_result. rewrite Hr, bool_decide_eq_false_2 by done.
  unfold collect_body. done.
Qed.

Lemma chunk_is_each tid l seen b0 b answers rs ps :
  receipts_for tid (map key_of l) seen b0 = Some rs → plans l rs = Some ps →
  forallb accepts (rows_of ps) = true → consumed_so_far tid seen b0 b →
  collect_each validate accepts now snapshot by_url verdict_label tid l b answers =
  (apply_acks (acks_of_plans (map key_of l) rs ps) b, (rev (rows_of ps) ++ answers)%list, Ok tt).
Proof.
  revert seen b answers rs ps. induction l as [|x l IH]; intros seen b answers rs ps.
  { intros [= <-] [= <-] _ _. unfold apply_acks. simpl. by destruct b. }
  simpl. destruct (owned_receipt tid (key_of x) b0) as [r|] eqn:Hr; [|done]. simpl.
  destruct (receipts_for tid (map key_of l) _ b0) as [rest|] eqn:Hrest; [|done]. intros [= <-]. simpl.
  intros Hps Hacc Hso. destruct (Hso _ _ Hr) as (r' & Hr' & Hpend).
  unfold acks_of_plans, acknowledged. simpl.
  assert (∀ b', (∀ k rk, owned_receipt tid k b0 = Some rk → ∃ rk', owned_receipt tid k b' = Some rk' ∧
            bool_decide (rc_outcome rk' = None) =
            bool_decide (rc_outcome rk = None) && negb (mem k seen) && negb (bool_decide (k = key_of x))) →
          consumed_so_far tid (seen ++ [key_of x]) b0 b') as Hnext.
  { intros b' H k rk Hk. destruct (H k rk Hk) as (rk' & ? & E). exists rk'. split; [done|]. rewrite E.
    rewrite <- andb_assoc, <- negb_orb. f_equal. f_equal. unfold mem.
    apply eq_true_iff_eq. rewrite orb_true_iff, !bool_decide_eq_true. set_solver. }
  destruct (bool_decide (rc_outcome r = None) && negb (mem (key_of x) seen)) eqn:Hb; simpl in Hps |- *.
  - destruct (_plan x) as [p|] eqn:Hp; [|done]. simpl in Hps.
    destruct (plans l rest) as [ps'|] eqn:Hp'; [|done]. injection Hps as <-.
    assert (rows_of (Some p :: ps') = rows_of [Some p] ++ rows_of ps')%list as Hrows.
    { unfold rows_of. simpl. by destruct (co_verdict p). }
    rewrite Hrows, forallb_app in Hacc. apply andb_true_iff in Hacc as [Ha1 Ha2].
    breflect. rewrite (one_pending tid x b answers r' p Hr' Hpend Hp Ha1).
    rewrite (IH (seen ++ [key_of x])%list _ _ rest ps' Hrest Hp' Ha2).
    + rewrite Hrows, rev_app_distr, <- app_assoc. done.
    + apply Hnext. intros k rk Hk. rewrite (apply_ack_owned tid (key_of x) r') by done.
      destruct (decide (k = key_of x)) as [->|Hne].
      * eexists. split; [done|]. rewrite (bool_decide_eq_true_2 (key_of x = _)) by done. by rewrite andb_false_r.
      * rewrite (bool_decide_eq_false_2 (k = _)) by done. rewrite andb_true_r. apply (Hso k rk Hk).
  - destruct (plans l rest) as [ps'|] eqn:Hp'; [|done]. injection Hps as <-. simpl.
    apply bool_decide_eq_false_1 in Hpend. rewrite (one_done tid x b answers r' Hr' Hpend).
    rewrite (IH (seen ++ [key_of x])%list b answers rest ps' Hrest Hp' Hacc); [done|].
    apply Hnext. intros k rk Hk. destruct (Hso k rk Hk) as (rk' & Hk' & Hb'). exists rk'. split; [done|].
    rewrite Hb'. destruct (bool_decide (rc_outcome rk = None)) eqn:E; [|done]. simpl.
    destruct (bool_decide (k = key_of x)) eqn:Ek; [|by rewrite andb_true_r]. breflect. subst k.
    rewrite Hr in Hk. injection Hk as <-. apply andb_false_iff in Hb as [Hb|Hb]; [breflect; done|]. rewrite Hb. done.
Qed.

Lemma chunk_ok tid l b answers :
  match _collect_chunk validate accepts now snapshot by_url verdict_label tid l b answers with
  | (b', answers', Ok _) =>
      collect_each validate accepts now snapshot by_url verdict_label tid l b answers = (b', answers', Ok tt)
  | (b', answers', Err _) => b' = b ∧ answers' = answers
  end.
Proof.
  unfold _collect_chunk, consume_results.
  destruct (receipts_for tid (map key_of l) [] b) as [rs|] eqn:Hrs; [|done].
  unfold collect_body. destruct (plans l rs) as [ps|] eqn:Hps; [|done]. simpl.
  destruct (forallb accepts (rows_of ps)) eqn:Ha; [|done].
  assert (length ps = length rs) as Hlen.
  { apply (plans_length l rs ps); [|done]. rewrite (receipts_for_length _ _ _ _ _ Hrs). apply length_map. }
  rewrite outcomes_for_same by (unfold outcomes_of; rewrite length_zip_with; lia).
  apply (chunk_is_each tid l [] b b answers rs ps Hrs Hps Ha).
  intros k r Hk. exists r. split; [done|]. unfold mem. rewrite (bool_decide_eq_false_2 (k ∈ [])) by apply not_elem_of_nil.
  by rewrite andb_true_r.
Qed.

Lemma each_app tid l1 l2 b answers :
  collect_each validate accepts now snapshot by_url verdict_label tid (l1 ++ l2) b answers =
  match collect_each validate accepts now snapshot by_url verdict_label tid l1 b answers with
  | (b', answers', Ok _) => collect_each validate accepts now snapshot by_url verdict_label tid l2 b' answers'
  | (b', answers', Err e) => (b', answers', Err e)
  end.
Proof.
  revert b answers. induction l1 as [|x l1 IH]; intros b answers; [done|]. simpl.
  destruct (_collect_one _ _ _ _ _ _ _ _ _ _) as [[b' answers'] [o|e]]; [apply IH|done].
Qed.

Lemma chunks_are_each tid ls b answers :
  collect_chunks validate accepts now snapshot by_url verdict_label tid ls b answers =
  collect_each validate accepts now snapshot by_url verdict_label tid (concat ls) b answers.
Proof.
  revert b answers. induction ls as [|l ls IH]; intros b answers; [done|]. simpl. rewrite each_app.
  pose proof (chunk_ok tid l b answers) as H.
  destruct (_collect_chunk _ _ _ _ _ _ _ _ _ _) as [[b' answers'] [o|e]].
  - rewrite H. apply IH.
  - destruct H as [-> ->].
    by destruct (collect_each _ _ _ _ _ _ tid l b answers) as [[b'' answers''] [o|e']].
Qed.

Lemma one_consumes tid x b answers b' answers' ks :
  _collect_one validate accepts now snapshot by_url verdict_label tid x b answers = (b', answers', Ok ks) →
  (∃ r, owned_receipt tid (key_of x) b' = Some r ∧ rc_outcome r ≠ None) ∧
  ∀ k r, owned_receipt tid k b = Some r → rc_outcome r ≠ None →
    ∃ r', owned_receipt tid k b' = Some r' ∧ rc_outcome r' ≠ None.
Proof.
  unfold _collect_one, consume_result. destruct (owned_receipt tid (key_of x) b) as [r|] eqn:Hr; [|done].
  destruct (collect_body _ _ _ _ _ _ _ _ _) as [[a outs]|]; [|done].
  case_bool_decide as Ho; intros [= <- <- <-].
  - pose proof (owned_lookup _ _ _ _ Hr) as Hk. unfold owned_receipt in *. simpl. rewrite lookup_insert_eq, Hk in *.
    simpl. destruct (rc_task_id r =? tid) eqn:Et; [|done]. split; [by eexists|].
    intros k rk Hrk Hork. destruct (decide (k = key_of x)) as [->|Hne].
    + rewrite lookup_insert_eq. simpl. rewrite Et. by eexists.
    + rewrite lookup_insert_ne by done. exists rk. split; [|done]. by destruct (bk_receipts b !! k).
  - split; [by eexists|]. intros k rk Hk Hrk. by exists rk.
Qed.

Lemma each_consumes tid l b answers b' answers' :
  collect_each validate accepts now snapshot by_url verdict_label tid l b answers = (b', answers', Ok tt) →
  (∀ x, x ∈ l → ∃ r, owned_receipt tid (key_of x) b' = Some r ∧ rc_outcome r ≠ None) ∧
  ∀ k r, owned_receipt tid k b = Some r → rc_outcome r ≠ None →
    ∃ r', owned_receipt tid k b' = Some r' ∧ rc_outcome r' ≠ None.
Proof.
  revert b answers. induction l as [|x l IH]; intros b answers; simpl.
  { intros [= <- <-]. split; [by intros x ?%elem_of_nil|]. intros k r Hk Hr. by exists r. }
  destruct (_collect_one _ _ _ _ _ _ _ _ _ _) as [[b1 answers1] [o|e]] eqn:E; [|done]. intros H.
  destruct (one_consumes _ _ _ _ _ _ _ E) as [(r & Hr & Ho) Hkeep]. destruct (IH _ _ H) as [Hall Hlater]. split.
  - intros y [->|Hy]%elem_of_cons; [by eapply Hlater|by apply Hall].
  - intros k rk Hk Hrk. destruct (Hkeep k rk Hk Hrk) as (r' & ? & ?). by eapply Hlater.
Qed.

Lemma each_again tid l b answers :
  (∀ x, x ∈ l → ∃ r, owned_receipt tid (key_of x) b = Some r ∧ rc_outcome r ≠ None) →
  collect_each validate accepts now snapshot by_url verdict_label tid l b answers = (b, answers, Ok tt).
Proof.
  induction l as [|x l IH]; intros H; [done|]. simpl. destruct (H x) as (r & Hr & Ho); [by left|].
  rewrite (one_done tid x b answers r Hr Ho). apply IH. intros y Hy. apply H. by right.
Qed.

(** C15: Collecting the results in chunks, each one transaction with a retry result by result
    when it fails, leaves the receipts and the verdicts that collecting them one at a time
    leaves, in the same order and with the same exception after the same results; and once
    it has returned, collecting them again writes nothing. *)
Theorem collected_as_one_by_one tid l b answers :
  collect_results validate accepts now snapshot by_url verdict_label tid l b answers =
  collect_each validate accepts now snapshot by_url verdict_label tid l b answers ∧
  match collect_results validate accepts now snapshot by_url verdict_label tid l b answers with
  | (b', answers', Ok _) =>
      collect_results validate accepts now snapshot by_url verdict_label tid l b' answers' = (b', answers', Ok tt)
  | (_, _, Err _) => True
  end.
Proof.
  assert (∀ b answers, collect_results validate accepts now snapshot by_url verdict_label tid l b answers =
    collect_each validate accepts now snapshot by_url verdict_label tid l b answers) as Heq.
  { intros b1 a1. unfold collect_results. rewrite chunks_are_each, chunks_concat; [done|]. unfold COLLECT_CHUNK. lia. }
  split; [apply Heq|]. rewrite Heq. destruct (collect_each _ _ _ _ _ _ _ _ _ _) as [[b' answers'] [[]|e]] eqn:E; [|done].
  rewrite Heq. apply each_again. apply (each_consumes _ _ _ _ _ _ E).
Qed.
End collect.

(** ** Chunks on a table that anyone may change *)

Lemma live_active r : status_in ACTIVE_STATUSES r = true → live_row r = true.
Proof. intros H. unfold live_row. by rewrite H. Qed.

#[export] Instance chunk_kept_preorder : PreOrder chunk_kept.
Proof.
  unfold chunk_kept. split; [intros t; by split_and!|]. intros t1 t2 t3 (K1 & N1 & L1) (K2 & N2 & L2). split_and!; [congruence| |auto].
  intros k Hk. by rewrite N2, N1.
Qed.

#[export] Instance chunks_kept_preorder : PreOrder chunks_kept.
Proof.
  split.
  - intros w. split; [lia|]. intros i t Hi. right. by exists t.
  - intros w1 w2 w3 [N1 H1] [N2 H2]. split; [lia|]. intros i t3 H3.
    destruct (H2 i t3 H3) as [?|(t2 & Ht2 & K2)]; [left; lia|].
    destruct (H1 i t2 Ht2) as [?|(t1 & Ht1 & K1)]; [left; lia|]. right. exists t1. split; [done|by etrans].
Qed.

Lemma kept_exec P f w :
  (∀ i r, tasks w !! i = Some r → P i r = true → chunk_kept r (f r)) → chunks_kept w (exec_update P f w).
Proof.
  intros H. split; [done|]. intros i t'. rewrite exec_update_lookup. intros (t & Ht & ->)%fmap_Some.
  right. exists t. split; [done|]. destruct (P i t) eqn:E; [by eapply H|done].
Qed.

Lemma kept_same w w' : tasks w' = tasks w → next_id w' = next_id w → chunks_kept w w'.
Proof. intros Ht Hn. split; [lia|]. intros i t. rewrite Ht. intros Hi. right. by exists t. Qed.

Lemma kept_foldl {A} (f : world → A → world) l w : (∀ w a, chunks_kept w (f w a)) → chunks_kept w (foldl f w l).
Proof.
  intros H. revert w. induction l as [|a l IH]; intros w; simpl; [done|]. etrans; [apply H|apply IH].
Qed.

(** An assignment that leaves the payload's names alone keeps an active row. *)
Lemma kept_active r r' :
  status_in ACTIVE_STATUSES r = true → t_kind r' = t_kind r →
  (∀ k, k ∈ NAMES → t_payload r' !! k = t_payload r !! k) → chunk_kept r r'.
Proof. intros Hs Hk Hn. split; [done|split; [done|]]. intros _. by apply live_active. Qed.

Lemma status_active r s : t_status r = s → s ∈ ACTIVE_STATUSES → status_in ACTIVE_STATUSES r = true.
Proof. intros <- H. by apply bool_decide_eq_true_2. Qed.

Lemma names_apart k key : k ∈ NAMES → bool_decide (key ∈ NAMES) = false → key ≠ k.
Proof. intros Hk Hn ->. by apply bool_decide_eq_false_1 in Hn. Qed.

Ltac active_status :=
  match goal with
  | H : t_status _ = _ |- status_in ACTIVE_STATUSES _ = true =>
      apply (status_active _ _ H); apply (bool_decide_eq_true_1 _); vm_compute; reflexivity
  end.

Ltac kept_set :=
  let H := fresh in apply kept_exec; intros ? ? _ H;
  unfold held_where, reap_requeue_where, reap_fail_where, park_where in H; statuses;
  apply kept_active; [active_status|done|done].

Lemma kept_finish cur now tid st err w : chunks_kept w (finish cur now tid st err w).
Proof.
  unfold finish. etrans; [|by apply kept_same]. apply kept_exec. intros i r _ H. statuses.
  apply kept_active; [active_status|done|]. intros k Hk. simpl. case_bool_decide; [|done].
  rewrite lookup_delete_ne; [done|]. by apply names_apart.
Qed.

Lemma kept_progress cur now tid p b w : chunks_kept w (fst (_write_progress cur now tid p b None w)).
Proof. apply kept_exec. intros i r _ _. by repeat split. Qed.

Lemma kept_update_parent now pid w : chunks_kept w (update_parent_progress now pid w).
Proof.
  unfold update_parent_progress. etrans; [|by apply kept_same]. apply kept_exec. intros i r _ _. by repeat split.
Qed.

Lemma kept_finalize now pid w : chunks_kept w (maybe_finalize_parent now pid w).
Proof.
  unfold maybe_finalize_parent. etrans; [apply (kept_update_parent now pid)|].
  set (w1 := update_parent_progress _ _ _). destruct (tasks w1 !! pid) as [p|]; [|done].
  destruct (negb (is_status Waiting p)); [done|]. destruct (negb _); [done|].
  etrans; [|apply kept_same; [apply after_finalize_tasks|]].
  - apply kept_exec. intros i r _ H. statuses. apply kept_active; [active_status|done|done].
  - unfold publish_task, after_finalize. destruct (String.eqb _ _); [done|]. destruct (_ !! _); [|done]. by destruct (truthy _).
Qed.

Lemma kept_enqueue now kind payload dedupe w : chunks_kept w (enqueue now kind payload dedupe w).1.
Proof.
  unfold enqueue. destruct (dedupe_taken _ _).
  - split; [simpl; lia|]. intros i t Hi. right. by exists t.
  - split; [simpl; lia|]. intros i t. simpl. intros [[<- <-]|[_ Hi]]%lookup_insert_Some; [left; lia|]. right. by exists t.
Qed.

Lemma kept_park_waiting cur tid total l w : chunks_kept w (park_waiting cur tid total l w).
Proof. unfold park_waiting. etrans; [|by apply kept_same]. kept_set. Qed.

Lemma kept_cancel now ids kind st src w : chunks_kept w (fst (cancel now ACTIVE_STATUSES ids kind st src w)).
Proof.
  unfold cancel. simpl. etrans; [|apply kept_foldl; intros; by apply kept_same].
  apply kept_exec. intros i r _ H. unfold cancel_where in H. breflect. apply kept_active; done.
Qed.

Lemma kept_reconcile now w : chunks_kept w (reconcile_chunks now w).
Proof.
  unfold reconcile_chunks. etrans; [|apply kept_foldl; intros; apply kept_finalize].
  apply kept_exec. intros i r _ H. unfold orphan_chunk in H. statuses. apply kept_active; [active_status|done|done].
Qed.

Lemma kept_claim env worker h now w w' x : claim_task env worker h now w = (w', Some x) → chunks_kept w w'.
Proof.
  destruct x as [i r]. intros (r0 & Hi & Hc & -> & -> & _)%claim_task_Some.
  apply kept_exec. intros j q Hj E. breflect. subst j. rewrite Hi in Hj. injection Hj as <-.
  apply claimable_pending in Hc. apply kept_active; [active_status|done|done].
Qed.

(** *** The invariant of the picks *)

Lemma asks_one h1 h2 c t : asks h1 c t = true → asks h2 c t = true → h1 = h2.
Proof.
  unfold asks. destruct (obj_int _ _) as [i|]; [|done]. destruct (rcs_rows c !! i) as [row|]; [|done].
  intros [_ H1]%andb_true_iff [_ H2]%andb_true_iff. destruct (rc_body row); try done.
  apply bool_decide_eq_true in H1, H2. congruence.
Qed.

Lemma CHUNK_URLS_kept p p' : (∀ k, k ∈ NAMES → p' !! k = p !! k) → CHUNK_URLS p' = CHUNK_URLS p.
Proof. intros H. unfold CHUNK_URLS. rewrite !H by (apply (bool_decide_eq_true_1 _); vm_compute; reflexivity). done. Qed.

Lemma chunk_kept_of_user user t t' : chunk_kept t t' → chunk_of_user user t' = chunk_of_user user t.
Proof.
  intros (Hk & Hn & _). unfold chunk_of_user, is_filter_chunk, obj_int. rewrite Hk, Hn; [done|].
  apply (bool_decide_eq_true_1 _). vm_compute. reflexivity.
Qed.

Lemma chunk_kept_asks h c t t' : chunk_kept t t' → asks h c t' = asks h c t.
Proof.
  intros (_ & Hn & _). unfold asks, obj_int. rewrite Hn; [done|].
  apply (bool_decide_eq_true_1 _). vm_compute. reflexivity.
Qed.

(** The chunks that ask one filter's question for one person. *)
Definition asking (user : Z) (hash : string) (r : runs) (i : Z) (t : task) : Prop :=
  tasks (r_queue r) !! i = Some t ∧ chunk_of_user user t = true ∧ asks hash (d_configs (r_db r)) t = true.

Record picks_ok (s : filter_site) : Prop := mkPicksOk {
  po_fresh : ∀ i t, tasks (r_queue (fs_runs s)) !! i = Some t → i < next_id (r_queue (fs_runs s));
  po_known : ∀ i u, u ∈ picked i s → i < next_id (r_queue (fs_runs s));
  po_named : ∀ i t u, tasks (r_queue (fs_runs s)) !! i = Some t → u ∈ picked i s → u ∈ CHUNK_URLS (t_payload t);
  po_older : ∀ user hash i j ti tj u,
    asking user hash (fs_runs s) i ti → asking user hash (fs_runs s) j tj → i < j →
    live_row ti = true → u ∈ picked j s → u ∉ CHUNK_URLS (t_payload ti);
}.

Lemma picks_queue r p w' :
  chunks_kept (r_queue r) w' → picks_ok (mkFilterSite r p) → picks_ok (mkFilterSite (with_world w' r) p).
Proof.
  intros [Hnext Hrows] [Hf Hk Hn Ho]. split; unfold asking; simpl in *; change (r_queue (with_world w' r)) with w'.
  - intros i t' Hi. destruct (Hrows i t' Hi) as [?|(t & Ht & _)]; [simpl; lia|]. pose proof (Hf i t Ht). simpl. lia.
  - intros i u Hu. specialize (Hk i u Hu). simpl in *. lia.
  - intros i t' u Hi Hu. destruct (Hrows i t' Hi) as [?|(t & Ht & (_ & Hp & _))].
    + specialize (Hk i u Hu). simpl in *. lia.
    + rewrite (CHUNK_URLS_kept _ _ Hp). by eapply Hn.
  - intros user hash i j ti' tj' u (Hi & Ui & Ai) (Hj & Uj & Aj) Hlt Hlive Hu.
    assert (j < next_id (r_queue r)) by by eapply Hk.
    destruct (Hrows i ti' Hi) as [?|(ti & Hti & Ki)]; [lia|].
    destruct (Hrows j tj' Hj) as [?|(tj & Htj & Kj)]; [lia|]. simpl in *.
    rewrite (CHUNK_URLS_kept (t_payload ti)) by apply Ki. eapply (Ho user hash i j ti tj); [..|done|by apply Ki|done].
    + split_and!; [done|by rewrite <- (chunk_kept_of_user _ _ _ Ki)|by rewrite <- (chunk_kept_asks _ _ _ _ Ki)].
    + split_and!; [done|by rewrite <- (chunk_kept_of_user _ _ _ Kj)|by rewrite <- (chunk_kept_asks _ _ _ _ Kj)].
Qed.

Lemma chunk_of_user_chunk user t : chunk_of_user user t = true → is_filter_chunk t = true.
Proof. unfold chunk_of_user. by intros [H _]%andb_true_iff. Qed.

Lemma picks_settings r p c' :
  asks_kept (d_configs (r_db r)) c' (tasks (r_queue r)) →
  picks_ok (mkFilterSite r p) → picks_ok (mkFilterSite (with_run_configs c' r) p).
Proof.
  intros Ha [Hf Hk Hn Ho]. split; simpl in *; [exact Hf|exact Hk|exact Hn|].
  intros user hash i j ti tj u (Hi & Ui & Ai) (Hj & Uj & Aj). apply (Ho user hash i j ti tj u).
  - split_and!; [done|done|]. simpl in Ai. by rewrite <- (Ha i ti hash Hi (chunk_of_user_chunk _ _ Ui)).
  - split_and!; [done|done|]. simpl in Aj. by rewrite <- (Ha j tj hash Hj (chunk_of_user_chunk _ _ Uj)).
Qed.

Lemma owner_urls tid user hash r i t u :
  asking user hash r i t → i < tid → live_row t = true → u ∈ CHUNK_URLS (t_payload t) →
  u ∈ urls_of (ids_where (owner tid user hash (d_configs (r_db r))) (tasks (r_queue r))) (tasks (r_queue r)).
Proof.
  intros (Hi & Hu & Ha) Hlt Hlive Hin. unfold urls_of. apply list_elem_of_bind. exists i.
  split; [by rewrite Hi|]. apply elem_of_ids_where. exists t. split; [done|]. unfold owner, live_row in *.
  rewrite Hu, Ha, Hlive. apply Z.ltb_lt in Hlt. by rewrite Hlt.
Qed.

Lemma job_urls_elem u l : u ∈ job_urls l ↔ ∃ j, j ∈ l ∧ text_at "url" j = Some u.
Proof. unfold job_urls. rewrite list_elem_of_omap. naive_solver. Qed.

Lemma settle_keeps now pay jobs contents s model r r' jobs' :
  _settle_by_stated_pay pay now jobs contents s model r = (r', jobs') →
  (∃ rows, r' = add_ai_results rows r) ∨ r' = r.
Proof. unfold _settle_by_stated_pay. destruct (pay_screens _ !! _); intros [= <- _]; [left; by eexists|by right]. Qed.

Lemma settle_fewer now pay jobs contents s model r r' jobs' j :
  _settle_by_stated_pay pay now jobs contents s model r = (r', jobs') → j ∈ jobs' → j ∈ jobs.
Proof.
  unfold _settle_by_stated_pay. destruct (pay_screens _ !! _); intros [= _ <-]; [|done].
  intros [? _]%list_elem_of_In%filter_In. by apply list_elem_of_In.
Qed.

Lemma select_submits pay now prepared tid user payload c s jobs contents r r' c' s' selected u :
  select_jobs pay None now prepared tid user payload c s jobs contents r = (r', Submits c' s' selected) →
  u ∈ job_urls selected →
  u ∈ job_urls jobs ∧ u ∉ submission_exclusions tid user (job_urls jobs) (fs_prompt_hash s) (cf_model c) r.
Proof.
  unfold select_jobs. destruct (prepared && _); [done|].
  set (ex := submission_exclusions _ _ _ _ _ _).
  destruct (_settle_by_stated_pay _ _ _ _ _ _ _) as [r1 left_] eqn:E. destruct left_ as [|j0 rest]; [done|].
  intros [= _ _ _ <-] (j & Hj & Hu)%job_urls_elem.
  pose proof (settle_fewer _ _ _ _ _ _ _ _ _ _ E Hj) as Hin. unfold not_excluded in Hin.
  apply list_elem_of_In, filter_In in Hin as [Hin Hf]. rewrite Hu in Hf. split.
  - apply job_urls_elem. exists j. split; [by apply list_elem_of_In|done].
  - by apply negb_true_iff, bool_decide_eq_false_1 in Hf.
Qed.

Lemma select_runs pay now prepared tid user payload c s jobs contents r r' c' s' selected :
  select_jobs pay None now prepared tid user payload c s jobs contents r = (r', Submits c' s' selected) →
  (∃ rows, r' = add_ai_results rows r) ∨ r' = r.
Proof.
  unfold select_jobs. destruct (prepared && _); [done|].
  destruct (_settle_by_stated_pay _ _ _ _ _ _ _) as [r1 l] eqn:E. destruct l; [done|]. intros [= <- _ _ _].
  by eapply settle_keeps.
Qed.

Lemma picked_insert r p tid l i :
  picked i (mkFilterSite r (<[tid := default ∅ (p !! tid) ∪ l]> p)) =
    if decide (i = tid) then picked i (mkFilterSite r p) ∪ l else picked i (mkFilterSite r p).
Proof. unfold picked. simpl. case_decide; [subst; by rewrite lookup_insert_eq|by rewrite lookup_insert_ne]. Qed.

Lemma picks_select r p pay now prepared tid t user payload c s jobs contents r' selected :
  tasks (r_queue r) !! tid = Some t → chunk_of_user user t = true →
  asks (fs_prompt_hash s) (d_configs (r_db r)) t = true →
  job_urls jobs ⊆ CHUNK_URLS (t_payload t) →
  select_jobs pay None now prepared tid user payload c s jobs contents r = (r', Submits c s selected) →
  picks_ok (mkFilterSite r p) →
  picks_ok (mkFilterSite r (<[tid := default ∅ (p !! tid) ∪ list_to_set (job_urls selected)]> p)).
Proof.
  intros Ht Hu Ha Hsub Hsel [Hf Hk Hn Ho].
  assert (Hnew : ∀ u, u ∈ (list_to_set (job_urls selected) : gset string) → u ∈ CHUNK_URLS (t_payload t) ∧
     u ∉ submission_exclusions tid user (job_urls jobs) (fs_prompt_hash s) (cf_model c) r).
  { intros u H%elem_of_list_to_set. destruct (select_submits _ _ _ _ _ _ _ _ _ _ _ _ _ _ _ u Hsel H). auto. }
  split; simpl in *; [exact Hf|..].
  - intros i u. rewrite picked_insert. case_decide; [subst; intros _; by eapply Hf|apply Hk].
  - intros i x u Hi. rewrite picked_insert. case_decide as E; [|by apply Hn]. subst i.
    assert (x = t) as -> by congruence. intros [H|H]%elem_of_union; [by eapply Hn|by apply Hnew].
  - intros us hash i j ti tj u Hi Hj Hlt Hlive. rewrite picked_insert. case_decide as E; [|by eapply Ho].
    intros [H|H]%elem_of_union; [by eapply Ho|]. subst j. destruct (Hnew u H) as [_ Hex]. intros Hin. apply Hex.
    destruct Hj as (Hj & Uj & Aj). assert (tj = t) as -> by congruence.
    rewrite (asks_one _ _ _ _ Ha Aj).
    assert (us = user) as ->.
    { unfold chunk_of_user in Uj, Hu. apply andb_true_iff in Uj as [_ Uj], Hu as [_ Hu].
      apply bool_decide_eq_true in Uj, Hu. congruence. }
    apply elem_of_list_to_set, list_elem_of_In, filter_In. split.
    + apply elem_of_list_to_set in H. apply list_elem_of_In.
      by destruct (select_submits _ _ _ _ _ _ _ _ _ _ _ _ _ _ _ u Hsel H).
    + apply orb_true_iff. right. apply bool_decide_eq_true_2. by eapply owner_urls.
Qed.

Lemma picks_step s s' : filter_step s s' → picks_ok s → picks_ok s'.
Proof.
  intros H. destruct H as [r p w' H|r p rows|r p c' H|r p pay now tid t user prepared payload c s jobs contents r' sel Ht _ Hu Ha Hsub Hsel].
  - by apply picks_queue.
  - intros [Hf Hk Hn Ho]. by split.
  - by apply picks_settings.
  - intros Hok. pose proof (picks_select _ p _ _ _ _ _ _ _ _ _ _ _ _ _ Ht Hu Ha Hsub Hsel Hok) as [Hf Hk Hn Ho].
    destruct (select_runs _ _ _ _ _ _ _ _ _ _ _ _ _ _ _ Hsel) as [[rows ->]| ->]; by split.
Qed.

(** Nothing is selected yet, and the table's ids come from its sequence. *)
Definition fresh_site (s : filter_site) : Prop :=
  fs_picked s = ∅ ∧
  ∀ i t, tasks (r_queue (fs_runs s)) !! i = Some t → i < next_id (r_queue (fs_runs s)).

Lemma picks_init s : fresh_site s → picks_ok s.
Proof.
  intros [Hp Hf]. assert (Hnone : ∀ i u, u ∉ picked i s).
  { intros i u. unfold picked. rewrite Hp, lookup_empty. apply not_elem_of_empty. }
  split; [exact Hf|..]; intros; exfalso; by eapply Hnone.
Qed.

(** C9: along any run from a table where nothing is selected, two chunks of one person and
    one filter that may both still answer never both select a posting, whatever the rest of
    the queue does: enqueue, claim, release, finish, cancel, defer, park, resume and reap rows,
    add answers or intern settings. Only reviving an ended chunk is left out. *)
Theorem one_outstanding_purchase s0 s user hash i j ti tj :
  fresh_site s0 → rtc filter_step s0 s →
  asking user hash (fs_runs s) i ti → asking user hash (fs_runs s) j tj → i ≠ j →
  live_row ti = true → live_row tj = true → picked i s ## picked j s.
Proof.
  intros Hinit Hrun Hi Hj Hne Li Lj. assert (picks_ok s) as [_ _ Hn Ho].
  { apply picks_init in Hinit. clear Hi Hj. induction Hrun as [|x y z Hxy _ IH]; [done|]. by eapply IH, picks_step. }
  intros u Hu1 Hu2. destruct (Z.lt_total i j) as [Hlt|[?|Hlt]]; [|done|].
  - eapply (Ho user hash i j ti tj u); [done..|]. eapply Hn; [apply Hi|done].
  - eapply (Ho user hash j i tj ti u); [done..|]. eapply Hn; [apply Hj|done].
Qed.

Lemma kept_publish tid w : chunks_kept w (publish_task tid w).
Proof. by apply kept_same. Qed.

Lemma kept_reap_requeue M minutes now w : chunks_kept w (reap_requeue M minutes now w).
Proof. kept_set. Qed.

Lemma kept_reap_fail M minutes now w : chunks_kept w (reap_fail M minutes now w).
Proof. kept_set. Qed.

Lemma kept_release c w : chunks_kept w (requeue_on_exit c w).
Proof. kept_set. Qed.

Lemma kept_heartbeat c now w : chunks_kept w (heartbeat c now w).1.
Proof. kept_set. Qed.

Lemma kept_defer c nb w : chunks_kept w (defer c nb w).
Proof. kept_set. Qed.

Lemma kept_transient c e w : chunks_kept w (requeue_transient c e w).
Proof. unfold requeue_transient. etrans; [|apply kept_publish]. kept_set. Qed.

Lemma kept_resume tid w : chunks_kept w (resume_parked tid w).
Proof. unfold resume_parked. etrans; [|apply kept_publish]. kept_set. Qed.

Lemma kept_unavailable cur now tid err w : chunks_kept w (fail_unavailable_payload cur now tid err w).
Proof.
  unfold fail_unavailable_payload. etrans; [|apply kept_publish]. apply kept_exec. intros i r _ H. statuses.
  apply kept_active; [active_status|done|]. intros k Hk. simpl. unfold jsonb_concat.
  rewrite lookup_union_r; [done|]. apply lookup_singleton_ne. by apply names_apart.
Qed.

(** Ids recorded on a chunk that already lists some, or that is active. *)
Lemma kept_record tid ids w :
  (∀ t, tasks w !! tid = Some t → live_row t = true) → chunks_kept w (_record_batch_ids tid ids w).
Proof.
  intros H. apply kept_exec. intros i r Hi ->%Z.eqb_eq. split; [done|]. split; [|intros _; by apply H].
  intros k Hk. simpl. unfold record_ids. rewrite lookup_insert_ne; [done|]. by apply names_apart.
Qed.

Lemma kept_park_batch cur tid ids w :
  (∀ t, tasks w !! tid = Some t → live_row t = true) → chunks_kept w (park_awaiting_batch cur tid ids w).1.
Proof.
  intros H. unfold park_awaiting_batch. simpl. etrans; [by apply (kept_record tid ids w)|].
  etrans; [|destruct (negb _); [apply kept_publish|reflexivity]]. kept_set.
Qed.

Lemma kept_repark cur tid w : chunks_kept w (repark_if_unfinished cur tid w).1.
Proof.
  unfold repark_if_unfinished. destruct (pending_batch_ids tid w) as [|x l] eqn:E; [done|].
  apply kept_park_batch. intros t Ht. unfold pending_batch_ids in E. rewrite Ht in E.
  unfold payload_batch_ids in E. unfold live_row, holds_batches. destruct (t_payload t !! _) as [[]|]; try done.
  match goal with |- context [match ?l with [] => false | _ :: _ => true end] => destruct l end; [done|apply orb_true_r].
Qed.

Lemma kept_settle now M c row o w : chunks_kept w (settle now M c row o w).1.
Proof.
  unfold settle. destruct o as [|msg| |nb|msg|e]; cbn [fst];
    [|apply kept_finish|done|apply kept_defer|apply kept_unavailable|].
  - pose proof (kept_repark (Some c) (c_task_id c) w) as Hk.
    destruct (repark_if_unfinished _ _ w) as [w1 []]; simpl in *; [done|]. etrans; [exact Hk|apply kept_finish].
  - destruct (_ && _); [apply kept_transient|apply kept_finish].
Qed.

(** A statement of the queue that revives no ended chunk: every step of the fleet but an
    operator's recovery and a write of a row's payload that is not its own. *)
Inductive chunk_statement (M minutes : Z) (w : world) : world → Prop :=
| cs_enqueue now kind payload dedupe :
    chunk_statement M minutes w (enqueue now kind payload dedupe w).1
| cs_claim env worker h now w' x :
    claim_task env worker h now w = (w', Some x) → chunk_statement M minutes w w'
| cs_heartbeat c now : chunk_statement M minutes w (heartbeat c now w).1
| cs_progress cur now tid d t l e : chunk_statement M minutes w (set_progress cur now tid d t l e w)
| cs_park_waiting cur tid total l : chunk_statement M minutes w (park_waiting cur tid total l w)
| cs_park_batch cur tid ids t :
    tasks w !! tid = Some t → live_row t = true →
    chunk_statement M minutes w (park_awaiting_batch cur tid ids w).1
| cs_settle now c row o : chunk_statement M minutes w (settle now M c row o w).1
| cs_finish cur now tid st err : chunk_statement M minutes w (finish cur now tid st err w)
| cs_release c : chunk_statement M minutes w (requeue_on_exit c w)
| cs_reap_requeue now : chunk_statement M minutes w (reap_requeue M minutes now w)
| cs_reap_fail now : chunk_statement M minutes w (reap_fail M minutes now w)
| cs_cancel now ids kind st source :
    chunk_statement M minutes w (cancel now ACTIVE_STATUSES ids kind st source w).1
| cs_resume tid : chunk_statement M minutes w (resume_parked tid w)
| cs_finalize now pid : chunk_statement M minutes w (maybe_finalize_parent now pid w)
| cs_reconcile now : chunk_statement M minutes w (reconcile_chunks now w).

Lemma kept_set_progress cur now tid d t l e w : chunks_kept w (set_progress cur now tid d t l e w).
Proof. unfold set_progress. etrans; [|apply kept_publish]. apply kept_progress. Qed.

Lemma statement_kept M minutes w w' : chunk_statement M minutes w w' → chunks_kept w w'.
Proof.
  destruct 1; [apply kept_enqueue|by eapply kept_claim|apply kept_heartbeat|apply kept_set_progress
    |apply kept_park_waiting| |apply kept_settle|apply kept_finish|apply kept_release
    |apply kept_reap_requeue|apply kept_reap_fail|apply kept_cancel|apply kept_resume|apply kept_finalize
    |apply kept_reconcile].
  apply kept_park_batch. intros t' Ht'. by assert (t' = t) as -> by congruence.
Qed.

(** *** A person's filter with two chunks that name one posting both *)

Definition posting_named (url : string) : json := JObj [("url", JStr url)].

Definition demo_filter : FilterSnapshot := mkSnapshot "remote" "Is it remote?" "reject" "h1".

Definition demo_config : AIConfig := mkConfig "openai" "k" "owner" "gpt-5-nano" None ∅ None None None.

Definition chunk_named (urls : list string) (extra : jobject) : jobject :=
  extra ∪ {[ "user_id" := JInt 3; "config_id" := JInt 7; "urls" := JArr (map JStr urls) ]}.

Definition demo_chunk (st : status) (urls : list string) (extra : jobject) : task :=
  put_status st (new_task 0 "run_filter_batch_chunk" (chunk_named urls extra) None None).

Definition demo_configs : run_configs :=
  mkRunConfigs {[ 7 := mkRunConfig "d" FILTER (JObj [("prompt_hash", JStr "h1")]) ]} 8.

Definition demo_runs (rows : gmap Z task) : runs :=
  mkRuns
    (mkDb ∅ ∅ ∅ [] ∅ [] (mkWorld rows 3 []) demo_configs
       (mkBoard ∅ ∅ ∅ ∅ [] [] (mkSelections ∅ ∅ ∅ ∅ ∅) ∅ ∅ ∅ ∅) [] ∅ [])
    ∅ (mkRunSettings 20 200 false ∅).

Definition demo_select (tid : Z) (urls : list string) (r : runs) : runs * chunk_end :=
  select_jobs (λ _ _, None) None 0 true tid 3 (chunk_named urls ∅) demo_config demo_filter
    (map posting_named urls) ∅ r.

Definition two_running : runs :=
  demo_runs {[ 1 := demo_chunk Running ["a"; "b"] ∅; 2 := demo_chunk Running ["b"; "c"] ∅ ]}.

Lemma demo_selects : demo_select 1 ["a"; "b"] two_running =
    (two_running, Submits demo_config demo_filter (map posting_named ["a"; "b"])) ∧
  demo_select 2 ["b"; "c"] two_running = (two_running, Submits demo_config demo_filter [posting_named "c"]).
Proof. split; vm_compute; reflexivity. Qed.

Definition demo_picks : gmap Z (gset string) := <[2 := {[ "c" ]}]> {[ 1 := {[ "a"; "b" ]} ]}.

Lemma one_outstanding_purchase_witness :
  picked 1 (mkFilterSite two_running demo_picks) ## picked 2 (mkFilterSite two_running demo_picks).
Proof.
  eapply (one_outstanding_purchase (mkFilterSite two_running ∅) _ 3 "h1" 1 2
            (demo_chunk Running ["a"; "b"] ∅) (demo_chunk Running ["b"; "c"] ∅)).
  - split; [done|]. apply (bool_decide_eq_true_1 (map_Forall (λ i _, i < 3) (tasks (r_queue two_running)))).
    vm_compute. reflexivity.
  - eapply rtc_l; [eapply (fstep_select _ _ _ 0 1 _ 3 _ _ _ demo_filter); [reflexivity..| | exact (proj1 demo_selects)]|].
    { apply (bool_decide_eq_true_1 (_ ⊆ _)). vm_compute. reflexivity. }
    eapply rtc_l; [eapply (fstep_select _ _ _ 0 2 _ 3 _ _ _ demo_filter); [reflexivity..| | exact (proj2 demo_selects)]|].
    { apply (bool_decide_eq_true_1 (_ ⊆ _)). vm_compute. reflexivity. }
    match goal with |- rtc _ (mkFilterSite _ ?x) (mkFilterSite _ ?y) => replace x with y; [reflexivity|] end.
    apply (bool_decide_eq_true_1 _). vm_compute. reflexivity.
  - split_and!; vm_compute; reflexivity.
  - split_and!; vm_compute; reflexivity.
  - done.
  - reflexivity.
  - reflexivity.
Defined.

(** *** A chunk an operator retries *)

(** Chunk 1 failed on a payload it could not read; chunk 2 then took the posting, submitted
    it and waits for its batch. *)
Definition after_failure (st : status) (extra : jobject) : runs :=
  demo_runs {[ 1 := demo_chunk Failed ["b"] {[ MARKER := MARKER_VALUE ]};
               2 := demo_chunk st ["b"] extra ]}.

Definition submitted : jobject := {[ "batch_ids" := JArr [JStr "batch_1"] ]}.

(** The operator's retry, and the claim of the task it made pending. *)
Definition after_retry : runs :=
  let r := after_failure AwaitingBatch submitted in
  let w := (retry 1 (r_queue r) ([] : list jobject) true (r_queue r) [] false false).1 in
  with_world (exec_update (λ i _, i =? 1) (put_status Running) w) r.

(** an operator's retry can buy an answer twice: chunk 1 failed before it submitted, the
    newer chunk 2 took its posting and waits on its batch, the retried chunk 1 runs again and
    selects the same posting, because it only yields to chunks older than itself. *)
Theorem retried_chunk_buys_again :
  (demo_select 2 ["b"] (after_failure Running ∅)).2 = Submits demo_config demo_filter [posting_named "b"] ∧
  option_map t_status (tasks (r_queue after_retry) !! 2) = Some AwaitingBatch ∧
  option_map holds_batches (tasks (r_queue after_retry) !! 2) = Some true ∧
  (demo_select 1 ["b"] after_retry).2 = Submits demo_config demo_filter [posting_named "b"].
Proof. split_and!; vm_compute; reflexivity. Qed.
