(* ===== verification/Rollup.v ===== *)
(** * The answer ledger summed per hour ([api.ledger_rollup], [tasks.ledger_rollup], the
    triggers of [alembic/versions/d4428913f75e_ledger_rollup_tables.py])

    The hourly table and the log of hours that writes touched, the reads that mix stored hours
    with live ones, and the refresh, statement by statement against concurrent writes. *)

From Stdlib Require Import Qcanon.
From S2P Require Import Prelude Sql Queue.

Local Open Scope string_scope.
Local Open Scope Z_scope.

(** ** The source tables *)

(** The columns of [ai_queries] that the ledger reads. *)
Record ledger_answer : Type := mkLedgerAnswer {
  la_created_at : Z;
  la_model : option string;
  la_check_type : option string;
  la_status : option string;
  la_config_name : option string;
  la_prompt_hash : option string;
  la_batch_id : option string;
  la_model_call_id : option Z;
}.

Record ledger_fetch : Type := mkLedgerFetch {
  lf_created_at : Z;
  lf_status : string;
  lf_method : string;
}.

(** A call's usage, or an answer's share of it. *)
Record usage : Type := mkUsage {
  u_prompt_tokens : option Z;
  u_completion_tokens : option Z;
  u_total_tokens : option Z;
  u_cached_tokens : option Z;
  u_cache_write_tokens : option Z;
  u_reasoning_tokens : option Z;
  u_cost_usd : option Qc;
}.

Definition no_usage : usage := mkUsage None None None None None None None.

(** The identity column of each table. *)
Record ledger : Type := mkLedger {
  l_answers : gmap Z ledger_answer;
  l_fetches : gmap Z ledger_fetch;
  l_calls : gmap Z usage;
  l_next_answer : Z;
  l_next_fetch : Z;
  l_next_call : Z;
}.

(** ** Hourly groups ([aggregate]) *)

Record dimensions : Type := mkDimensions {
  d_arm : string;
  d_model : option string;
  d_check_type : option string;
  d_status : option string;
  d_config_name : option string;
  d_prompt_hash : option string;
  d_batched : bool;
}.

#[export] Instance dimensions_eq_dec : EqDecision dimensions.
Proof. solve_decision. Defined.

Abbreviation group_key := (Z * dimensions)%type.

(** [date_trunc('hour', t, 'UTC')], of microseconds since the epoch. *)
Definition hour_of (t : Z) : Z := t - t `mod` HOUR.

Record ledger_row : Type := mkLedgerRow {
  lr_created_at : Z;
  lr_dimensions : dimensions;
  lr_usage : usage;
}.

(** The first answer naming a call. *)
Definition first_id (call : Z) (answers : gmap Z ledger_answer) : option Z :=
  head (ids_where (λ _ a, bool_decide (la_model_call_id a = Some call)) answers).

(** A sibling's share: zeros, and no cost where the call has none. *)
Definition sibling_usage (u : usage) : usage :=
  mkUsage (Some 0) (Some 0) (Some 0) (Some 0) (Some 0) (Some 0) ((λ _, 0%Qc) <$> u_cost_usd u).

(** [_usage]. *)
Definition usage_of (l : ledger) (id : Z) (a : ledger_answer) : usage :=
  match la_model_call_id a with
  | None => no_usage
  | Some call =>
      let u := default no_usage (l_calls l !! call) in
      if bool_decide (first_id call (l_answers l) = Some id) then u else sibling_usage u
  end.

Definition answer_row (l : ledger) (id : Z) : option ledger_row :=
  (λ a, mkLedgerRow (la_created_at a)
          (mkDimensions "answer" (la_model a) (la_check_type a) (la_status a) (la_config_name a)
             (la_prompt_hash a) (bool_decide (is_Some (la_batch_id a))))
          (usage_of l id a)) <$> l_answers l !! id.

(** A fetch other than a verification copy, with no call and so no usage. *)
Definition fetch_row (l : ledger) (id : Z) : option ledger_row :=
  match l_fetches l !! id with
  | Some f =>
      if String.eqb (lf_method f) "verification" then None
      else Some (mkLedgerRow (lf_created_at f)
                   (mkDimensions "fetch" None (Some "content") (Some (lf_status f))
                      (Some "content-cache") None false) no_usage)
  | None => None
  end.

Definition all_ids {R} (m : gmap Z R) : list Z := ids_where (λ _ _, true) m.

Definition ledger_rows (l : ledger) : list ledger_row :=
  (omap (answer_row l) (all_ids (l_answers l)) ++ omap (fetch_row l) (all_ids (l_fetches l)))%list.

Definition key_of (r : ledger_row) : group_key := (hour_of (lr_created_at r), lr_dimensions r).

(** [SUM], NULL when no row has a value. *)
Definition sum_opt {A} (add : A → A → A) (l : list (option A)) : option A :=
  foldr (λ x acc, match x, acc with
                  | Some x, Some y => Some (add x y)
                  | Some x, None => Some x
                  | None, acc => acc
                  end) None l.

Record measures : Type := mkMeasures {
  m_answers : Z;
  m_unpriced : Z;
  m_cache_write_unknown : Z;
  m_joint_call_rows : Z;
  m_usage : usage;
  m_first_at : option Z;
  m_last_at : option Z;
}.

Definition count_of (P : ledger_row → bool) (l : list ledger_row) : Z := Z.of_nat (length (List.filter P l)).

Definition joint_row (r : ledger_row) : bool :=
  (default 0 (u_total_tokens (lr_usage r)) =? 0) &&
  match d_status (lr_dimensions r) with Some s => mem s ["passed"; "rejected"] | None => false end.

Definition sum_of (col : usage → option Z) (l : list ledger_row) : option Z :=
  sum_opt Z.add (map (λ r, col (lr_usage r)) l).

(** The columns of one group. *)
Definition measures_of (l : list ledger_row) : measures :=
  mkMeasures (count_of (λ _, true) l)
    (count_of (λ r, bool_decide (u_cost_usd (lr_usage r) = None)) l)
    (count_of (λ r, bool_decide (u_cache_write_tokens (lr_usage r) = None)) l)
    (count_of joint_row l)
    (mkUsage (sum_of u_prompt_tokens l) (sum_of u_completion_tokens l) (sum_of u_total_tokens l)
       (sum_of u_cached_tokens l) (sum_of u_cache_write_tokens l) (sum_of u_reasoning_tokens l)
       (sum_opt Qcplus (map (λ r, u_cost_usd (lr_usage r)) l)))
    (sum_opt Z.min (map (λ r, Some (lr_created_at r)) l))
    (sum_opt Z.max (map (λ r, Some (lr_created_at r)) l)).

Definition in_group (k : group_key) (r : ledger_row) : bool := bool_decide (key_of r = k).

Abbreviation group := (group_key * measures)%type.

(** [GROUP BY]: a group per key, in no order. *)
Definition group_by (l : list ledger_row) : list group :=
  map (λ k, (k, measures_of (List.filter (in_group k) l))) (remove_dups (map key_of l)).

(** A timestamp, or an infinite one. *)
Inductive instant : Type := Past | At (t : Z) | Future.

#[export] Instance instant_eq_dec : EqDecision instant.
Proof. solve_decision. Defined.

Definition before (a b : instant) : bool :=
  match a, b with
  | Past, Past | Future, _ | _, Past => false
  | Past, _ | _, Future => true
  | At x, At y => x <? y
  end.

Definition least (a b : instant) : instant := if before b a then b else a.
Definition greatest_of (a b : instant) : instant := if before a b then b else a.
Definition trunc (a : instant) : instant := match a with At t => At (hour_of t) | _ => a end.
Definition next_hour (a : instant) : instant := match a with At t => At (t + HOUR) | _ => a end.

(** Times in [lo, hi). *)
Definition within (lo hi : instant) (t : Z) : bool := negb (before (At t) lo) && before (At t) hi.

Definition rows_in (l : ledger) (r : instant * instant) : list ledger_row :=
  List.filter (λ x, within r.1 r.2 (lr_created_at x)) (ledger_rows l).

Definition aggregate (ranges : list (instant * instant)) (l : ledger) : list group :=
  group_by (ranges ≫= rows_in l).

(** ** Reads ([groups]) *)

(** [ru_dirty] is the append-only log, by its identity column. *)
Record rollup : Type := mkRollup {
  ru_hourly : list group;
  ru_dirty : gmap Z Z;
  ru_next_dirty : Z;
  ru_until : option Z;
}.

Definition until_of (ru : rollup) : instant := from_option At Past (ru_until ru).

(** The first whole hour at or after [s], and where stored hours end. *)
Definition ceil_of (s : instant) : instant :=
  if bool_decide (trunc s = s) then s else next_hour (trunc s).
Definition stored_end (ru : rollup) (e : instant) : instant := least (until_of ru) (trunc e).

Definition dirty_hours (ru : rollup) (s e : instant) : list Z :=
  remove_dups (List.filter (within (ceil_of s) (stored_end ru e)) (map snd (map_to_list (ru_dirty ru)))).

Definition live_ranges (ru : rollup) (s e : instant) : list (instant * instant) :=
  ((if before s (least (ceil_of s) e) then [(s, least (ceil_of s) e)] else []) ++
   (if before (greatest_of (stored_end ru e) (ceil_of s)) e
    then [(greatest_of (stored_end ru e) (ceil_of s), e)] else []) ++
   map (λ h, (At h, At (h + HOUR))) (dirty_hours ru s e))%list.

Definition groups (s e : instant) (wanted : dimensions → bool) (ru : rollup) (l : ledger) : list group :=
  let dirty := dirty_hours ru s e in
  (List.filter (λ g : group, within (ceil_of s) (stored_end ru e) g.1.1 && negb (mem g.1.1 dirty) && wanted g.1.2)
     (ru_hourly ru) ++
   List.filter (λ g : group, wanted g.1.2) (aggregate (live_ranges ru s e) l))%list.

(** ** The triggers *)

(** [INSERT INTO ledger_dirty_hours SELECT DISTINCT ...]. *)
Definition log_hours (hours : list Z) (ru : rollup) : rollup :=
  foldl (λ ru h, mkRollup (ru_hourly ru) (<[ru_next_dirty ru := h]> (ru_dirty ru)) (ru_next_dirty ru + 1)
                   (ru_until ru)) ru (remove_dups hours).

Definition hours_of_answers (rows : list ledger_answer) : list Z := map (λ a, hour_of (la_created_at a)) rows.

Definition calls_of (rows : list ledger_answer) : list Z := omap la_model_call_id rows.

(** The hours of every answer that names one of the calls. *)
Definition hours_naming (calls : list Z) (answers : gmap Z ledger_answer) : list Z :=
  omap (λ i, (λ a, hour_of (la_created_at a)) <$> answers !! i)
    (ids_where (λ _ a, match la_model_call_id a with Some c => mem c calls | None => false end) answers).

Inductive trigger_op : Type := INSERT | UPDATE | DELETE.

(** [ledger_dirty_answers], after the statement. *)
Definition ledger_dirty_answers (op : trigger_op) (old new : list ledger_answer) (l : ledger) (ru : rollup)
    : rollup :=
  let ru := match op with INSERT | UPDATE => log_hours (hours_of_answers new) ru | DELETE => ru end in
  let ru := match op with
            | UPDATE | DELETE =>
                log_hours (hours_naming (calls_of old) (l_answers l)) (log_hours (hours_of_answers old) ru)
            | INSERT => ru
            end in
  match op with
  | UPDATE => log_hours (hours_naming (calls_of new) (l_answers l)) ru
  | INSERT | DELETE => ru
  end.

Definition ledger_dirty_calls (ids : list Z) (l : ledger) (ru : rollup) : rollup :=
  log_hours (hours_naming ids (l_answers l)) ru.

Definition hours_of_fetches (rows : list ledger_fetch) : list Z := map (λ f, hour_of (lf_created_at f)) rows.

Definition ledger_dirty_fetches (op : trigger_op) (old new : list ledger_fetch) (ru : rollup) : rollup :=
  let ru := match op with INSERT | UPDATE => log_hours (hours_of_fetches new) ru | DELETE => ru end in
  match op with UPDATE | DELETE => log_hours (hours_of_fetches old) ru | INSERT => ru end.

(** ** Statements on the source tables *)

(** Each statement and the trigger that fires after it; identity columns give the ids. *)
Inductive write : Type :=
| InsertAnswers (rows : list ledger_answer)
| UpdateAnswers (P : Z → ledger_answer → bool) (f : ledger_answer → ledger_answer)
| DeleteAnswers (P : Z → ledger_answer → bool)
| InsertCall (u : usage)
| UpdateCalls (P : Z → usage → bool) (f : usage → usage)
| DeleteCalls (P : Z → usage → bool)
| InsertFetches (rows : list ledger_fetch)
| UpdateFetches (P : Z → ledger_fetch → bool) (f : ledger_fetch → ledger_fetch)
| DeleteFetches (P : Z → ledger_fetch → bool).

(** The rows of an INSERT at the ids they get. *)
Fixpoint insert_rows {R} (n : Z) (rows : list R) (m : gmap Z R) : gmap Z R :=
  match rows with
  | [] => m
  | r :: rows => insert_rows (n + 1) rows (<[n := r]> m)
  end.

Definition delete_where {R} (P : Z → R → bool) (m : gmap Z R) : gmap Z R :=
  map_imap (λ i r, if P i r then None else Some r) m.

Definition rows_where {R} (P : Z → R → bool) (m : gmap Z R) : list R :=
  omap (λ i, m !! i) (ids_where P m).

Definition with_answer_rows (m : gmap Z ledger_answer) (n : Z) (l : ledger) : ledger :=
  mkLedger m (l_fetches l) (l_calls l) n (l_next_fetch l) (l_next_call l).
Definition with_fetch_rows (m : gmap Z ledger_fetch) (n : Z) (l : ledger) : ledger :=
  mkLedger (l_answers l) m (l_calls l) (l_next_answer l) n (l_next_call l).
Definition with_call_rows (m : gmap Z usage) (n : Z) (l : ledger) : ledger :=
  mkLedger (l_answers l) (l_fetches l) m (l_next_answer l) (l_next_fetch l) n.

Definition written (w : write) (l : ledger) : ledger :=
  match w with
  | InsertAnswers rows =>
      with_answer_rows (insert_rows (l_next_answer l) rows (l_answers l))
        (l_next_answer l + Z.of_nat (length rows)) l
  | UpdateAnswers P f => with_answer_rows (update_where P f (l_answers l)) (l_next_answer l) l
  | DeleteAnswers P => with_answer_rows (delete_where P (l_answers l)) (l_next_answer l) l
  | InsertCall u => with_call_rows (<[l_next_call l := u]> (l_calls l)) (l_next_call l + 1) l
  | UpdateCalls P f => with_call_rows (update_where P f (l_calls l)) (l_next_call l) l
  | DeleteCalls P => with_call_rows (delete_where P (l_calls l)) (l_next_call l) l
  | InsertFetches rows =>
      with_fetch_rows (insert_rows (l_next_fetch l) rows (l_fetches l))
        (l_next_fetch l + Z.of_nat (length rows)) l
  | UpdateFetches P f => with_fetch_rows (update_where P f (l_fetches l)) (l_next_fetch l) l
  | DeleteFetches P => with_fetch_rows (delete_where P (l_fetches l)) (l_next_fetch l) l
  end.

Definition triggered (w : write) (l : ledger) (ru : rollup) : rollup :=
  let l' := written w l in
  match w with
  | InsertAnswers rows => ledger_dirty_answers INSERT [] rows l' ru
  | UpdateAnswers P f =>
      let old := rows_where P (l_answers l) in ledger_dirty_answers UPDATE old (map f old) l' ru
  | DeleteAnswers P => ledger_dirty_answers DELETE (rows_where P (l_answers l)) [] l' ru
  | InsertCall _ => ru
  | UpdateCalls P _ | DeleteCalls P => ledger_dirty_calls (ids_where P (l_calls l)) l' ru
  | InsertFetches rows => ledger_dirty_fetches INSERT [] rows ru
  | UpdateFetches P f =>
      let old := rows_where P (l_fetches l) in ledger_dirty_fetches UPDATE old (map f old) ru
  | DeleteFetches P => ledger_dirty_fetches DELETE (rows_where P (l_fetches l)) [] ru
  end.

(** An answer names a call whose INSERT returned its id. *)
Definition names_known (l : ledger) (a : ledger_answer) : Prop :=
  match la_model_call_id a with Some c => c < l_next_call l | None => True end.

Definition write_ok (l : ledger) (w : write) : Prop :=
  match w with
  | InsertAnswers rows => ∀ a, a ∈ rows → names_known l a
  | UpdateAnswers _ f => ∀ a, names_known l a → names_known l (f a)
  | _ => True
  end.

(** ** The refresh *)

Section refresh.
Context (max_span : Z).

(** [min(date_trunc('hour', created_at))] of each table, and the least of them. *)
Definition first_hour (l : ledger) : option Z :=
  sum_opt Z.min (map Some (hours_of_answers (omap (λ i, l_answers l !! i) (all_ids (l_answers l))) ++
                           hours_of_fetches (omap (λ i, l_fetches l !! i) (all_ids (l_fetches l))))%list).

Definition start_of (goal : Z) (l : ledger) (ru : rollup) : Z :=
  default (default goal (first_hour l)) (ru_until ru).

(** The logged hours below the watermark, once each. *)
Definition dirty_below (until : Z) (logged : gmap Z Z) : list Z :=
  merge_sort (≤) (remove_dups (List.filter (λ h, h <? until) (map snd (map_to_list logged)))).

(** DELETE, then [_store] of the same hours. *)
Definition recompute (until : Z) (logged : gmap Z Z) (l : ledger) (hourly : list group) : list group :=
  match dirty_below until logged with
  | [] => hourly
  | dirty => (List.filter (λ g : group, negb (mem g.1.1 dirty)) hourly ++
              aggregate (map (λ h, (At h, At (h + HOUR))) dirty) l)%list
  end.

Definition target_of (until goal : Z) : Z := Z.min goal (until + max_span).

Definition advance (until goal : Z) (l : ledger) (hourly : list group) : list group :=
  let target := target_of until goal in
  if until <? target
  then (List.filter (λ g : group, negb ((until <=? g.1.1) && (g.1.1 <? target))) hourly ++
        aggregate [(At until, At target)] l)%list
  else hourly.

Definition commit (until goal : Z) (logged : gmap Z Z) (hourly : list group) (ru : rollup) : rollup :=
  mkRollup hourly (filter (λ kv : Z * Z, logged !! kv.1 = None) (ru_dirty ru)) (ru_next_dirty ru)
    (Some (Z.max until (target_of until goal))).

Record refreshed : Type := mkRefreshed {
  rf_dirty_hours : nat;
  rf_advanced_to : option Z;
  rf_caught_up : bool;
  rf_skipped : bool;
}.

(** One step, when no write lands during it; [locked] is the advisory lock another holds. *)
Definition refresh (locked : bool) (now : Z) (l : ledger) (ru : rollup) : rollup * refreshed :=
  if locked then (ru, mkRefreshed 0 None false true)
  else
    let goal := hour_of now in
    let until := start_of goal l ru in
    let logged := ru_dirty ru in
    let hourly := advance until goal l (recompute until logged l (ru_hourly ru)) in
    (commit until goal logged hourly ru,
     mkRefreshed (length (dirty_below until logged)) (Some (Z.max until (target_of until goal)))
       (goal <=? target_of until goal) false).

Definition _STEPS : nat := 200.

(** The loop of [handle_ledger_rollup], each step at its own time. *)
Fixpoint refresh_steps (steps : nat) (nows : nat → Z) (l : ledger) (ru : rollup) (dirty : nat)
    : rollup * nat * option refreshed :=
  match steps with
  | O => (ru, dirty, None)
  | S steps =>
      let '(ru, done) := refresh false (nows 0%nat) l ru in
      let dirty := (dirty + rf_dirty_hours done)%nat in
      if rf_skipped done || rf_caught_up done then (ru, dirty, Some done)
      else match refresh_steps steps (λ k, nows (S k)) l ru dirty with
           | (ru, dirty, None) => (ru, dirty, Some done)
           | r => r
           end
  end.

(** *** The refresh's statements, with writes between them *)

(** A refresh in progress: what it has read, and the hourly table as it has rewritten it,
    which nobody else sees before it commits. *)
Inductive refresher : Type :=
| Idle
| Started (until goal : Z)
| Logged (until goal : Z) (logged : gmap Z Z)
| Recomputed (until goal : Z) (logged : gmap Z Z) (hourly : list group)
| Advanced (until goal : Z) (logged : gmap Z Z) (hourly : list group).

Record site : Type := mkSite {
  s_ledger : ledger;
  s_rollup : rollup;
  s_refresher : refresher;
}.

(** Each statement of the refresh reads what has committed; the advisory lock keeps
    refreshes one at a time; a refresh that fails rolls back. *)
Inductive site_step : site → site → Prop :=
| st_write l ru r w :
    write_ok l w → site_step (mkSite l ru r) (mkSite (written w l) (triggered w l ru) r)
| st_begin l ru now :
    site_step (mkSite l ru Idle) (mkSite l ru (Started (start_of (hour_of now) l ru) (hour_of now)))
| st_log l ru until goal :
    site_step (mkSite l ru (Started until goal)) (mkSite l ru (Logged until goal (ru_dirty ru)))
| st_recompute l ru until goal logged :
    site_step (mkSite l ru (Logged until goal logged))
      (mkSite l ru (Recomputed until goal logged (recompute until logged l (ru_hourly ru))))
| st_advance l ru until goal logged hourly :
    site_step (mkSite l ru (Recomputed until goal logged hourly))
      (mkSite l ru (Advanced until goal logged (advance until goal l hourly)))
| st_commit l ru until goal logged hourly :
    site_step (mkSite l ru (Advanced until goal logged hourly))
      (mkSite l (commit until goal logged hourly ru) Idle)
| st_abort l ru r : site_step (mkSite l ru r) (mkSite l ru Idle).
End refresh.

(** The tables as the migration creates them, beside a ledger that already has rows. *)
Definition empty_rollup : rollup := mkRollup [] ∅ 1 None.

Record ledger_ok (l : ledger) : Prop := mkLedgerOk {
  lk_answers : ∀ i a, l_answers l !! i = Some a → i < l_next_answer l ∧ names_known l a;
  lk_calls : ∀ i u, l_calls l !! i = Some u → i < l_next_call l;
  lk_fetches : ∀ i f, l_fetches l !! i = Some f → i < l_next_fetch l;
}.
