(* ===== verification/RollupProps.v ===== *)
(** * What the hourly ledger promises ([Rollup]) *)

From Stdlib Require Import Qcanon.
From S2P Require Import Prelude Sql Queue VisibilityProps Rollup.

Local Open Scope string_scope.
Local Open Scope list_scope.
Local Open Scope Z_scope.

(** ** Whole hours and instants *)

Definition whole (t : Z) : Prop := t `mod` HOUR = 0.

Lemma HOUR_pos : 0 < HOUR.
Proof. reflexivity. Qed.

Lemma hour_of_whole t : whole (hour_of t).
Proof. unfold whole, hour_of. pose proof HOUR_pos. rewrite Zminus_mod_idemp_r, Z.sub_diag. by apply Z.mod_0_l. Qed.

Lemma hour_of_bounds t : hour_of t <= t < hour_of t + HOUR.
Proof. unfold hour_of. pose proof (Z.mod_pos_bound t HOUR HOUR_pos). lia. Qed.

(** The hour of a time is the whole hour it lies in. *)
Lemma hour_of_unique t h : whole h → h <= t < h + HOUR → hour_of t = h.
Proof.
  unfold whole. intros Hw Ht. pose proof (hour_of_bounds t). pose proof (hour_of_whole t) as Hw'.
  unfold whole in Hw'. apply Z.mod_divide in Hw as [a Ha]; [|done]. apply Z.mod_divide in Hw' as [b Hb]; [|done].
  pose proof HOUR_pos. assert (a = b) by nia. congruence.
Qed.

Lemma whole_fixed h : whole h → hour_of h = h.
Proof. intros H. apply hour_of_unique; [done|]. pose proof HOUR_pos. lia. Qed.

Lemma whole_lt h1 h2 : whole h1 → whole h2 → h1 < h2 → h1 + HOUR <= h2.
Proof.
  unfold whole. intros H1 H2 Hlt. apply Z.mod_divide in H1 as [a Ha]; [|done]. apply Z.mod_divide in H2 as [b Hb]; [|done].
  pose proof HOUR_pos. assert (a < b) by nia. nia.
Qed.

Lemma whole_add a b : whole a → whole b → whole (a + b).
Proof. unfold whole. intros Ha Hb. rewrite Z.add_mod, Ha, Hb; [done|discriminate]. Qed.

Lemma whole_HOUR : whole HOUR.
Proof. reflexivity. Qed.

(** [t] in [lo, hi), as bounds. *)
Definition above (lo : instant) (t : Z) : Prop := match lo with Past => True | At x => x <= t | Future => False end.
Definition below (hi : instant) (t : Z) : Prop := match hi with Past => False | At x => t < x | Future => True end.

Lemma within_spec lo hi t : within lo hi t = true ↔ above lo t ∧ below hi t.
Proof.
  unfold within. destruct lo, hi; simpl; rewrite ?andb_true_iff, ?negb_true_iff, ?Z.ltb_ge, ?Z.ltb_lt; naive_solver.
Qed.

(** ** The rows of a group *)

Section rows.

Lemma filter_app' {A} (P : A → bool) l k : List.filter P (l ++ k) = List.filter P l ++ List.filter P k.
Proof. apply List.filter_app. Qed.

Lemma filter_concat {A B} (P : B → bool) (f : A → list B) l : List.filter P (l ≫= f) = l ≫= (λ x, List.filter P (f x)).
Proof. induction l as [|x l IH]; csimpl; [done|]. by rewrite filter_app', IH. Qed.

Lemma filter_filter {A} (P Q : A → bool) l : List.filter P (List.filter Q l) = List.filter (λ x, Q x && P x) l.
Proof. induction l as [|x l IH]; simpl; [done|]. destruct (Q x); simpl; [|done]. by rewrite IH. Qed.

Lemma filter_ext' {A} (P Q : A → bool) l : (∀ x, x ∈ l → P x = Q x) → List.filter P l = List.filter Q l.
Proof.
  induction l as [|x l IH]; intros H; simpl; [done|]. rewrite (H x) by by left. rewrite IH; [done|]. intros y Hy. apply H. by right.
Qed.

Lemma filter_omap {A B} (P : B → bool) (f : A → option B) l :
  List.filter P (omap f l) = omap (λ i, match f i with Some x => if P x then Some x else None | None => None end) l.
Proof. induction l as [|i l IH]; csimpl; [done|]. destruct (f i) as [x|]; simpl; [|done]. destruct (P x); by rewrite IH. Qed.

Lemma omap_some {A B} (g : A → option B) l : omap g l = omap g (List.filter (λ i, bool_decide (is_Some (g i))) l).
Proof. induction l as [|i l IH]; csimpl; [done|]. destruct (g i) eqn:E; csimpl; [rewrite E; by f_equal|done]. Qed.

Lemma sorted_filter (P : Z → bool) l : StronglySorted (≤) l → StronglySorted (≤) (List.filter P l).
Proof.
  induction 1 as [|x l Hl IH Hx]; simpl; [constructor|]. destruct (P x); [|done]. constructor; [done|].
  rewrite Forall_forall in *. intros y Hy. apply Hx. apply list_elem_of_In, filter_In in Hy as [Hy _]. by apply list_elem_of_In.
Qed.

Lemma NoDup_filter' {A} (P : A → bool) l : NoDup l → NoDup (List.filter P l).
Proof.
  induction 1 as [|x l Hx Hl IH]; simpl; [constructor|]. destruct (P x); [|done]. constructor; [|done].
  intros Hy. apply Hx. apply list_elem_of_In, filter_In in Hy as [Hy _]. by apply list_elem_of_In.
Qed.

Lemma filter_all_ids {R} (P : Z → bool) (m : gmap Z R) : List.filter P (all_ids m) = ids_where (λ i _, P i) m.
Proof.
  apply sorted_ids_unique; [apply sorted_filter, ids_where_sorted|apply ids_where_sorted|apply NoDup_filter', NoDup_ids_where|apply NoDup_ids_where|].
  intros i. unfold all_ids. rewrite list_elem_of_In, filter_In, <- list_elem_of_In, !elem_of_ids_where. split.
  - intros [(r & Hr & _) H]. by exists r.
  - intros (r & Hr & H). split; [by exists r|done].
Qed.

(** Enumerating a table through a partial function of the id depends on its values only. *)
Lemma omap_ids {R R' B} (g g' : Z → option B) (m : gmap Z R) (m' : gmap Z R') :
  (∀ i, m !! i = None → g i = None) → (∀ i, m' !! i = None → g' i = None) → (∀ i, g i = g' i) →
  omap g (all_ids m) = omap g' (all_ids m').
Proof.
  intros Hg Hg' Heq.
  rewrite (omap_some g (all_ids m)), (omap_some g' (all_ids m')), !filter_all_ids.
  assert (ids_where (λ i _, bool_decide (is_Some (g i))) m = ids_where (λ i _, bool_decide (is_Some (g' i))) m') as ->.
  { apply sorted_ids_unique; [apply ids_where_sorted..|apply NoDup_ids_where|apply NoDup_ids_where|].
    intros i. rewrite !elem_of_ids_where, <- Heq. setoid_rewrite bool_decide_eq_true. split.
    - intros (r & Hr & x & Hx). destruct (m' !! i) as [r'|] eqn:E; [by exists r'|]. apply Hg' in E. rewrite <- Heq in E. congruence.
    - intros (r & Hr & x & Hx). destruct (m !! i) as [r'|] eqn:E; [by exists r'|]. apply Hg in E. congruence. }
  induction (ids_where _ m') as [|i l IH]; csimpl; [done|]. rewrite Heq. by rewrite IH.
Qed.
End rows.

(** ** The log of written hours *)

Definition log_fresh (ru : rollup) : Prop := ∀ i h, ru_dirty ru !! i = Some h → i < ru_next_dirty ru.

(** [ru'] is [ru] with at least the hours [hs] appended. *)
Record logs (hs : list Z) (ru ru' : rollup) : Prop := mkLogs {
  lg_hourly : ru_hourly ru' = ru_hourly ru;
  lg_until : ru_until ru' = ru_until ru;
  lg_next : ru_next_dirty ru <= ru_next_dirty ru';
  lg_kept : ∀ i, i < ru_next_dirty ru → ru_dirty ru' !! i = ru_dirty ru !! i;
  lg_fresh : log_fresh ru → log_fresh ru';
  lg_added : ∀ h, h ∈ hs → ∃ i, ru_next_dirty ru <= i < ru_next_dirty ru' ∧ ru_dirty ru' !! i = Some h;
  lg_only : ∀ i h, ru_dirty ru' !! i = Some h → ru_dirty ru !! i = Some h ∨ h ∈ hs;
}.

Lemma logs_nil ru : logs [] ru ru.
Proof. split; [done..|lia|done|done| |auto]. intros h Hh. by apply elem_of_nil in Hh. Qed.

Lemma logs_one h ru :
  logs [h] ru (mkRollup (ru_hourly ru) (<[ru_next_dirty ru := h]> (ru_dirty ru)) (ru_next_dirty ru + 1) (ru_until ru)).
Proof.
  split; simpl; [done..|lia| | | |].
  - intros i Hi. by rewrite lookup_insert_ne by lia.
  - intros Hf i h'. simpl. intros [[<- _]|[_ Hi]]%lookup_insert_Some; [lia|]. apply Hf in Hi. lia.
  - intros h' ->%list_elem_of_singleton. exists (ru_next_dirty ru). rewrite lookup_insert_eq. split; [lia|done].
  - intros i h' [[_ <-]|[_ Hi]]%lookup_insert_Some; [right; by left|by left].
Qed.

Lemma logs_app hs1 hs2 ru1 ru2 ru3 : logs hs1 ru1 ru2 → logs hs2 ru2 ru3 → logs (hs1 ++ hs2) ru1 ru3.
Proof.
  intros [A1 A2 A3 A4 A5 A6 A7] [B1 B2 B3 B4 B5 B6 B7]. split; [congruence|congruence|lia| |auto| |].
  - intros i Hi. rewrite B4, A4 by lia. done.
  - intros h [Hh|Hh]%elem_of_app.
    + destruct (A6 h Hh) as (i & Hi & Hl). exists i. rewrite B4 by lia. split; [lia|done].
    + destruct (B6 h Hh) as (i & Hi & Hl). exists i. split; [lia|done].
  - intros i h Hi. rewrite elem_of_app. destruct (B7 i h Hi) as [H|?]; [|auto]. destruct (A7 i h H); auto.
Qed.

Lemma logs_equiv hs hs' ru ru' : (∀ h, h ∈ hs' ↔ h ∈ hs) → logs hs ru ru' → logs hs' ru ru'.
Proof.
  intros H [A1 A2 A3 A4 A5 A6 A7]. split; [done..| |].
  - intros h Hh. by apply A6, H.
  - intros i h Hi. rewrite H. auto.
Qed.

Lemma log_hours_logs hs ru : logs hs ru (log_hours hs ru).
Proof.
  apply (logs_equiv (remove_dups hs)); [intros h; by rewrite elem_of_remove_dups|].
  unfold log_hours. revert ru. induction (remove_dups hs) as [|h l IH]; intros ru; simpl; [apply logs_nil|].
  eapply (logs_app [h] l); [apply logs_one|apply IH].
Qed.

(** The hours that a statement's trigger logs. *)
Definition logged_by (w : write) (l : ledger) : list Z :=
  let answers := l_answers (written w l) in
  match w with
  | InsertAnswers rows => hours_of_answers rows
  | UpdateAnswers P f =>
      let old := rows_where P (l_answers l) in
      hours_of_answers (map f old) ++ (hours_of_answers old ++ hours_naming (calls_of old) answers) ++
      hours_naming (calls_of (map f old)) answers
  | DeleteAnswers P =>
      let old := rows_where P (l_answers l) in hours_of_answers old ++ hours_naming (calls_of old) answers
  | InsertCall _ => []
  | UpdateCalls P _ | DeleteCalls P => hours_naming (ids_where P (l_calls l)) answers
  | InsertFetches rows => hours_of_fetches rows
  | UpdateFetches P f =>
      let old := rows_where P (l_fetches l) in hours_of_fetches (map f old) ++ hours_of_fetches old
  | DeleteFetches P => hours_of_fetches (rows_where P (l_fetches l))
  end.

Lemma triggered_logs w l ru : logs (logged_by w l) ru (triggered w l ru).
Proof.
  destruct w; simpl; try apply log_hours_logs; try apply logs_nil.
  - eapply logs_app; [apply log_hours_logs|]. eapply logs_app; [eapply logs_app; apply log_hours_logs|apply log_hours_logs].
  - eapply logs_app; apply log_hours_logs.
  - eapply logs_app; apply log_hours_logs.
Qed.

(** ** An hour that no trigger logged *)

Lemma rows_same_where (P : ledger_row → bool) l l' :
  (∀ i, (x ← answer_row l i; if P x then Some x else None) = (x ← answer_row l' i; if P x then Some x else None)) →
  (∀ i, (x ← fetch_row l i; if P x then Some x else None) = (x ← fetch_row l' i; if P x then Some x else None)) →
  List.filter P (ledger_rows l') = List.filter P (ledger_rows l).
Proof.
  intros Ha Hf. unfold ledger_rows. rewrite !filter_app', !filter_omap. symmetry. f_equal.
  - apply omap_ids; [..|exact Ha]; intros i Hi; unfold answer_row; by rewrite Hi.
  - apply omap_ids; [..|exact Hf]; intros i Hi; unfold fetch_row; by rewrite Hi.
Qed.

(** Two readings of a row agree, or neither lies in the hour. *)
Definition agree_at (h : Z) (o o' : option ledger_row) : Prop :=
  o = o' ∨ (∀ x, o = Some x → hour_of (lr_created_at x) ≠ h) ∧ (∀ x, o' = Some x → hour_of (lr_created_at x) ≠ h).

Lemma agree_filter h (P : ledger_row → bool) o o' :
  (∀ x, P x = true → hour_of (lr_created_at x) = h) → agree_at h o o' →
  (x ← o; if P x then Some x else None) = (x ← o'; if P x then Some x else None).
Proof.
  intros HP [->|[H H']]; [done|].
  assert (Hcut : ∀ o, (∀ x, o = Some x → hour_of (lr_created_at x) ≠ h) →
            (x ← o; if P x then Some x else None) = None).
  { intros [x|] Hx; simpl; [|done]. destruct (P x) eqn:E; [|done]. exfalso. apply (Hx x); [done|by apply HP]. }
  by rewrite !Hcut.
Qed.

Lemma elem_of_kept_rows {R} (P : Z → R → bool) m r : r ∈ rows_where P m ↔ ∃ i, m !! i = Some r ∧ P i r = true.
Proof.
  unfold rows_where. rewrite list_elem_of_omap. setoid_rewrite elem_of_ids_where. split.
  - intros (i & (r' & Hr & HP) & Hi). exists i. by simplify_eq.
  - intros (i & Hi & HP). exists i. split; [by exists r|done].
Qed.

Lemma elem_of_hours_naming cs answers i a c :
  answers !! i = Some a → la_model_call_id a = Some c → c ∈ cs → hour_of (la_created_at a) ∈ hours_naming cs answers.
Proof.
  intros Hi Hc Hin. unfold hours_naming. apply list_elem_of_omap. exists i. rewrite Hi. split; [|done].
  apply elem_of_ids_where. exists a. split; [done|]. rewrite Hc. by apply bool_decide_eq_true_2.
Qed.

Lemma lookup_delete_where {R} (P : Z → R → bool) m i :
  delete_where P m !! i = (r ← m !! i; if P i r then None else Some r).
Proof. unfold delete_where. rewrite map_lookup_imap. by destruct (m !! i). Qed.

Lemma lookup_insert_rows {R} n (rows : list R) m i :
  (i < n → insert_rows n rows m !! i = m !! i) ∧
  (∀ r, insert_rows n rows m !! i = Some r → m !! i = Some r ∨ n <= i < n + Z.of_nat (length rows) ∧ r ∈ rows).
Proof.
  revert n m. induction rows as [|x rows IH]; intros n m; [by simpl; auto|]. csimpl. split.
  - intros Hi. rewrite (proj1 (IH (n + 1) _)) by lia. by rewrite lookup_insert_ne by lia.
  - intros r Hr. destruct (proj2 (IH (n + 1) _) r Hr) as [[[<- <-]|[_ H]]%lookup_insert_Some|[Hi Hr']].
    + right. split; [lia|by left].
    + by left.
    + right. split; [lia|by right].
Qed.

(** The ids that name a call. *)
Definition names (c i : Z) (m : gmap Z ledger_answer) : Prop := ∃ a, m !! i = Some a ∧ la_model_call_id a = Some c.

Lemma naming_ids c i m : i ∈ ids_where (λ _ a, bool_decide (la_model_call_id a = Some c)) m ↔ names c i m.
Proof. rewrite elem_of_ids_where. unfold names. by setoid_rewrite bool_decide_eq_true. Qed.

Lemma first_id_ext c m m' : (∀ i, names c i m ↔ names c i m') → first_id c m = first_id c m'.
Proof.
  intros H. unfold first_id. f_equal. apply sorted_ids_unique; [apply ids_where_sorted..|apply NoDup_ids_where|apply NoDup_ids_where|].
  intros i. by rewrite !naming_ids.
Qed.

Lemma first_id_spec c m j : first_id c m = Some j ↔ names c j m ∧ ∀ i, names c i m → j <= i.
Proof.
  unfold first_id. pose proof (ids_where_sorted (λ _ a, bool_decide (la_model_call_id a = Some c)) m) as Hs.
  setoid_rewrite <- naming_ids. destruct (ids_where _ m) as [|x l]; simpl.
  - split; [done|]. intros [H _]. by apply elem_of_nil in H.
  - inversion Hs as [|? ? Hl Hx]; subst. rewrite Forall_forall in Hx. split.
    + intros [= <-]. split; [by left|]. intros i [->|Hi]%elem_of_cons; [lia|]. by apply Hx.
    + intros [[->|Hj]%elem_of_cons Hmin]; [done|]. specialize (Hmin x (list_elem_of_here _ _)). specialize (Hx j Hj). f_equal. lia.
Qed.

(** Rows added at the top leave the first answer of a call that had one. *)
Lemma first_id_top c m m' n :
  (∃ i, names c i m) → (∀ i, i < n → m' !! i = m !! i) → (∀ i, names c i m → i < n) →
  first_id c m = first_id c m'.
Proof.
  intros [i0 H0] Hlow Hn. destruct (first_id c m) as [j|] eqn:E.
  - symmetry. apply first_id_spec in E as [Hj Hmin]. apply first_id_spec. split.
    + destruct Hj as (a & Ha & Hc). exists a. split; [|done]. rewrite Hlow; [done|]. apply Hn. by exists a.
    + intros i (a & Ha & Hc). destruct (decide (i < n)) as [Hi|Hi].
      * apply Hmin. exists a. split; [by rewrite <- Hlow|done].
      * specialize (Hn j Hj). lia.
  - exfalso. unfold first_id in E. apply naming_ids in H0. destruct (ids_where _ m); [by apply elem_of_nil in H0|done].
Qed.

Lemma answer_row_same l l' i a :
  l_answers l !! i = Some a → l_answers l' !! i = Some a →
  (∀ c, la_model_call_id a = Some c →
     l_calls l' !! c = l_calls l !! c ∧ first_id c (l_answers l') = first_id c (l_answers l)) →
  answer_row l i = answer_row l' i.
Proof.
  intros H H' Hc. unfold answer_row. rewrite H, H'. simpl. do 2 f_equal. unfold usage_of.
  destruct (la_model_call_id a) as [c|]; [|done]. destruct (Hc c eq_refl) as [-> ->]. done.
Qed.

Lemma agree_same h o : agree_at h o o.
Proof. by left. Qed.

(** A row that a statement touched lies in a logged hour, before and after. *)
Lemma agree_apart h l l' i :
  (∀ a, l_answers l !! i = Some a → hour_of (la_created_at a) ≠ h) →
  (∀ a, l_answers l' !! i = Some a → hour_of (la_created_at a) ≠ h) →
  agree_at h (answer_row l i) (answer_row l' i).
Proof.
  intros H H'. right. unfold answer_row. split.
  - intros x (a & Ha & ->)%fmap_Some. simpl. auto.
  - intros x (a & Ha & ->)%fmap_Some. simpl. auto.
Qed.

Lemma in_hours_of_answers a rows : a ∈ rows → hour_of (la_created_at a) ∈ hours_of_answers rows.
Proof. intros H. apply list_elem_of_fmap. by exists a. Qed.

Lemma in_calls_of a c rows : a ∈ rows → la_model_call_id a = Some c → c ∈ calls_of rows.
Proof. intros H Hc. apply list_elem_of_omap. by exists a. Qed.

Lemma in_rows_where {R} (P : Z → R → bool) m i r : m !! i = Some r → P i r = true → r ∈ rows_where P m.
Proof. intros H HP. apply elem_of_kept_rows. by exists i. Qed.

Lemma insert_answers_agree h rows l i :
  ledger_ok l → h ∉ logged_by (InsertAnswers rows) l →
  agree_at h (answer_row l i) (answer_row (written (InsertAnswers rows) l) i).
Proof.
  intros Hok Hh. destruct (l_answers l !! i) as [a|] eqn:E.
  - destruct (lk_answers _ Hok _ _ E) as [Hi _]. left. apply (answer_row_same _ _ i a); [done| |].
    { simpl. by rewrite (proj1 (lookup_insert_rows _ _ _ _)). }
    intros c Hc. split; [done|]. symmetry. apply (first_id_top c _ _ (l_next_answer l)).
    + exists i, a. done.
    + intros j Hj. apply (proj1 (lookup_insert_rows _ _ _ _) Hj).
    + intros j (b & Hb & _). by destruct (lk_answers _ Hok _ _ Hb).
  - apply agree_apart; [by rewrite E|]. simpl. intros a Ha.
    destruct (proj2 (lookup_insert_rows _ _ _ _) a Ha) as [?|[_ Hin]]; [congruence|].
    intros <-. by apply Hh, in_hours_of_answers.
Qed.

(** A statement that rewrites some answers, or takes them away. *)
Lemma change_answers_agree h (P : Z → ledger_answer → bool) l l' i olds news :
  l_calls l' = l_calls l →
  (∀ j a, l_answers l !! j = Some a → P j a = true → a ∈ olds) →
  (∀ j a, l_answers l !! j = Some a → P j a = false → l_answers l' !! j = Some a) →
  (∀ j b, l_answers l' !! j = Some b →
     ∃ a, l_answers l !! j = Some a ∧ (if P j a then b ∈ news else b = a)) →
  (∀ a, a ∈ olds ∨ a ∈ news → hour_of (la_created_at a) ≠ h) →
  h ∉ hours_naming (calls_of olds) (l_answers l') → h ∉ hours_naming (calls_of news) (l_answers l') →
  agree_at h (answer_row l i) (answer_row l' i).
Proof.
  intros Hcalls Hold Hkeep Hnew Hhours Hn1 Hn2. destruct (l_answers l !! i) as [a|] eqn:E; cycle 1.
  { apply agree_apart; [by rewrite E|]. intros b Hb. destruct (Hnew _ _ Hb) as (a & Ha & _). congruence. }
  destruct (P i a) eqn:EP.
  { apply agree_apart; intros b Hb.
    - assert (b = a) as -> by congruence. eapply Hhours. left. by eapply Hold.
    - destruct (Hnew _ _ Hb) as (a' & Ha' & Hin). assert (a' = a) as -> by congruence. rewrite EP in Hin. auto. }
  pose proof (Hkeep _ _ E EP) as E'. destruct (decide (hour_of (la_created_at a) = h)) as [<-|Hne]; cycle 1.
  { apply agree_apart; intros b Hb; congruence. }
  left. apply (answer_row_same _ _ i a); [done..|]. intros c Hc. rewrite Hcalls. split; [done|]. apply first_id_ext.
  intros j. split; intros (b & Hb & Hbc).
  - destruct (Hnew _ _ Hb) as (a' & Ha' & Hin). destruct (P j a') eqn:EP'; [|subst; by exists a'].
    exfalso. apply Hn2. eapply elem_of_hours_naming; [exact E'|exact Hc|by eapply in_calls_of].
  - destruct (P j b) eqn:EP'; [|exists b; split; [by apply Hkeep|done]].
    exfalso. apply Hn1. eapply elem_of_hours_naming; [exact E'|exact Hc|eapply in_calls_of; [by eapply Hold|done]].
Qed.

Lemma update_answers_agree h P f l i :
  h ∉ logged_by (UpdateAnswers P f) l →
  agree_at h (answer_row l i) (answer_row (written (UpdateAnswers P f) l) i).
Proof.
  unfold logged_by. rewrite !not_elem_of_app. intros (H1 & (H2 & H3) & H4).
  apply (change_answers_agree h P _ _ i (rows_where P (l_answers l)) (map f (rows_where P (l_answers l)))); [done|..].
  - intros j a. apply in_rows_where.
  - intros j a Ha HP. simpl. by rewrite lookup_update_where, Ha; simpl; rewrite HP.
  - intros j b. simpl. rewrite lookup_update_where. intros (a & Ha & ->)%fmap_Some. exists a. split; [done|].
    destruct (P j a) eqn:E; [|done]. apply list_elem_of_fmap. exists a. split; [done|by eapply in_rows_where].
  - intros a [Ha|Ha] <-; [apply H2|apply H1]; by apply in_hours_of_answers.
  - done.
  - done.
Qed.

Lemma delete_answers_agree h P l i :
  h ∉ logged_by (DeleteAnswers P) l →
  agree_at h (answer_row l i) (answer_row (written (DeleteAnswers P) l) i).
Proof.
  unfold logged_by. rewrite !not_elem_of_app. intros (H1 & H2).
  apply (change_answers_agree h P _ _ i (rows_where P (l_answers l)) []); [done|..].
  - intros j a. apply in_rows_where.
  - intros j a Ha HP. simpl. rewrite lookup_delete_where, Ha. simpl. by rewrite HP.
  - intros j b. simpl. rewrite lookup_delete_where. intros (a & Ha & Hb)%bind_Some. exists a. split; [done|].
    destruct (P j a); [done|congruence].
  - intros a [Ha|Ha] <-; [|by apply elem_of_nil in Ha]. by apply H1, in_hours_of_answers.
  - done.
  - unfold hours_naming. rewrite list_elem_of_omap. intros (j & Hj & _). apply elem_of_ids_where in Hj as (a & _ & Ha).
    destruct (la_model_call_id a); [|done]. apply bool_decide_eq_true_1 in Ha. by apply elem_of_nil in Ha.
Qed.

(** A statement on the calls. *)
Lemma calls_agree h l l' i (touched : Z → Prop) :
  l_answers l' = l_answers l →
  (∀ c, ¬ touched c → l_calls l' !! c = l_calls l !! c) →
  (∀ a c, l_answers l !! i = Some a → la_model_call_id a = Some c → touched c → hour_of (la_created_at a) ≠ h) →
  agree_at h (answer_row l i) (answer_row l' i).
Proof.
  intros Ha Hc Ht. destruct (l_answers l !! i) as [a|] eqn:E; cycle 1.
  { left. unfold answer_row. by rewrite Ha, E. }
  destruct (decide (hour_of (la_created_at a) = h)) as [<-|Hne].
  - left. apply (answer_row_same _ _ i a); [done|by rewrite Ha|]. intros c Hac. rewrite Ha. split; [|done].
    apply Hc. intros H. by apply (Ht a c).
  - apply agree_apart; rewrite ?Ha, E; by intros ? [= <-].
Qed.

Lemma change_calls_agree h (P : Z → usage → bool) l l' i :
  l_answers l' = l_answers l →
  (∀ c u, l_calls l !! c = Some u → P c u = false → l_calls l' !! c = Some u) →
  (∀ c, l_calls l !! c = None → l_calls l' !! c = None) →
  h ∉ hours_naming (ids_where P (l_calls l)) (l_answers l') →
  agree_at h (answer_row l i) (answer_row l' i).
Proof.
  intros Ha Hkeep Hnone Hh. apply (calls_agree h l l' i (λ c, c ∈ ids_where P (l_calls l))); [done|..].
  - intros c Hc. destruct (l_calls l !! c) as [u|] eqn:E; [|by apply Hnone]. apply Hkeep; [done|].
    destruct (P c u) eqn:EP; [|done]. exfalso. apply Hc, elem_of_ids_where. by exists u.
  - intros a c Hi Hc Ht <-. apply Hh. rewrite Ha. by eapply elem_of_hours_naming.
Qed.

Lemma written_answers_agree h w l i :
  ledger_ok l → write_ok l w → h ∉ logged_by w l →
  agree_at h (answer_row l i) (answer_row (written w l) i).
Proof.
  intros Hok Hw Hh. destruct w as [rows|P f|P|u|P f|P|rows|P f|P]; try (by left).
  - by apply insert_answers_agree.
  - by apply update_answers_agree.
  - by apply delete_answers_agree.
  - apply (calls_agree h l _ i (λ c, c = l_next_call l)); [done|..].
    + intros c Hc. simpl. by rewrite lookup_insert_ne.
    + intros a c Hi Hc ->. destruct (lk_answers _ Hok _ _ Hi) as [_ Hn]. unfold names_known in Hn. rewrite Hc in Hn. lia.
  - apply (change_calls_agree h P); [done| | |done]; simpl; intros c; rewrite lookup_update_where.
    + intros x Hx HP. rewrite Hx. simpl. by rewrite HP.
    + by intros ->.
  - apply (change_calls_agree h P); [done| | |done]; simpl; intros c; rewrite lookup_delete_where.
    + intros x Hx HP. rewrite Hx. simpl. by rewrite HP.
    + by intros ->.
Qed.

Lemma fetch_agree h l l' i :
  (l_fetches l' !! i = l_fetches l !! i ∨
   (∀ f, l_fetches l !! i = Some f ∨ l_fetches l' !! i = Some f → hour_of (lf_created_at f) ≠ h)) →
  agree_at h (fetch_row l i) (fetch_row l' i).
Proof.
  intros [H|H]; unfold fetch_row; [left; by rewrite H|]. right. split; intros x.
  - destruct (l_fetches l !! i) as [f|]; [|done]. destruct (String.eqb _ _); [done|]. intros [= <-]. apply H. by left.
  - destruct (l_fetches l' !! i) as [f|]; [|done]. destruct (String.eqb _ _); [done|]. intros [= <-]. apply H. by right.
Qed.

Lemma in_hours_of_fetches f rows : f ∈ rows → hour_of (lf_created_at f) ∈ hours_of_fetches rows.
Proof. intros H. apply list_elem_of_fmap. by exists f. Qed.

Lemma written_fetches_agree h w l i :
  ledger_ok l → h ∉ logged_by w l → agree_at h (fetch_row l i) (fetch_row (written w l) i).
Proof.
  intros Hok Hh. destruct w as [rows|P f|P|u|P f|P|rows|P f|P]; try (by left); apply fetch_agree; simpl in *.
  - destruct (l_fetches l !! i) as [x|] eqn:E.
    + left. rewrite (proj1 (lookup_insert_rows _ _ _ _)); [done|by eapply lk_fetches].
    + right. intros x [?|Hx]; [done|]. destruct (proj2 (lookup_insert_rows _ _ _ _) x Hx) as [?|[_ Hin]]; [congruence|].
      intros <-. by apply Hh, in_hours_of_fetches.
  - rewrite lookup_update_where. destruct (l_fetches l !! i) as [x|] eqn:E; [|by left]. simpl.
    destruct (P i x) eqn:EP; [|by left]. right. apply not_elem_of_app in Hh as [H1 H2]. pose proof (in_rows_where _ _ _ _ E EP).
    intros y [[= <-]|[= <-]] <-; [by apply H2, in_hours_of_fetches|]. apply H1, in_hours_of_fetches, list_elem_of_fmap. by exists x.
  - rewrite lookup_delete_where. destruct (l_fetches l !! i) as [x|] eqn:E; [|by left]. simpl.
    destruct (P i x) eqn:EP; [|by left]. right. pose proof (in_rows_where _ _ _ _ E EP).
    intros y [[= <-]|?] <-; [by apply Hh, in_hours_of_fetches|done].
Qed.

(** The rows of an hour that a statement's trigger did not log. *)
Lemma written_hour h w l (P : ledger_row → bool) :
  ledger_ok l → write_ok l w → h ∉ logged_by w l →
  (∀ x, P x = true → hour_of (lr_created_at x) = h) →
  List.filter P (ledger_rows (written w l)) = List.filter P (ledger_rows l).
Proof.
  intros Hok Hw Hh HP. apply rows_same_where; intros i; apply (agree_filter h); try done.
  - by apply written_answers_agree.
  - by apply written_fetches_agree.
Qed.

Lemma written_ok w l : ledger_ok l → write_ok l w → ledger_ok (written w l).
Proof.
  intros [Ha Hc Hf] Hw. destruct w as [rows|P f|P|u|P f|P|rows|P f|P]; split; simpl in *; try assumption.
  - intros i a Hi. destruct (proj2 (lookup_insert_rows _ _ _ _) a Hi) as [H|[H Hin]]; [|by split; [lia|apply Hw]].
    destruct (Ha _ _ H). split; [lia|done].
  - intros i a. rewrite lookup_update_where. intros (b & Hb & ->)%fmap_Some. destruct (Ha _ _ Hb) as [? Hn].
    split; [done|]. destruct (P i b); [by apply Hw|done].
  - intros i a. rewrite lookup_delete_where. intros (b & Hb & Hif)%bind_Some. destruct (P i b); [done|].
    simplify_eq. by apply (Ha i).
  - intros i a Hi. destruct (Ha _ _ Hi) as [? Hn]. split; [done|]. unfold names_known in *. simpl.
    destruct (la_model_call_id a); [lia|done].
  - intros i x [[<- _]|[_ Hi]]%lookup_insert_Some; [lia|]. apply Hc in Hi. lia.
  - intros i x. rewrite lookup_update_where. intros (b & Hb & _)%fmap_Some. by eapply Hc.
  - intros i x. rewrite lookup_delete_where. intros (b & Hb & _)%bind_Some. by eapply Hc.
  - intros i x Hi. destruct (proj2 (lookup_insert_rows _ _ _ _) x Hi) as [H|[H _]]; [apply Hf in H|]; lia.
  - intros i x. rewrite lookup_update_where. intros (b & Hb & _)%fmap_Some. by eapply Hf.
  - intros i x. rewrite lookup_delete_where. intros (b & Hb & _)%bind_Some. by eapply Hf.
Qed.

(** The hours a trigger logs are whole. *)
Lemma logged_whole w l h : h ∈ logged_by w l → whole h.
Proof.
  assert (Ha : ∀ rows, h ∈ hours_of_answers rows → whole h).
  { intros rows (a & -> & _)%list_elem_of_fmap. apply hour_of_whole. }
  assert (Hf : ∀ rows, h ∈ hours_of_fetches rows → whole h).
  { intros rows (a & -> & _)%list_elem_of_fmap. apply hour_of_whole. }
  assert (Hn : ∀ cs m, h ∈ hours_naming cs m → whole h).
  { intros cs m (i & _ & (a & _ & ->)%fmap_Some)%list_elem_of_omap. apply hour_of_whole. }
  destruct w; simpl; rewrite ?elem_of_app; intros H; try by apply elem_of_nil in H.
  all: naive_solver.
Qed.

(** ** Groups *)

Definition has_group (l : list ledger_row) (k : group_key) (m : measures) : Prop :=
  List.filter (in_group k) l ≠ [] ∧ m = measures_of (List.filter (in_group k) l).

Lemma elem_of_group_by k m l : (k, m) ∈ group_by l ↔ has_group l k m.
Proof.
  unfold group_by, has_group. rewrite list_elem_of_fmap. split.
  - intros (k' & [= -> ->] & Hk). split; [|done]. apply elem_of_remove_dups, list_elem_of_fmap in Hk as (x & -> & Hx).
    intros Hnil. assert (x ∈ List.filter (in_group (key_of x)) l) as Hin.
    { apply list_elem_of_In, filter_In. split; [by apply list_elem_of_In|]. by apply bool_decide_eq_true_2. }
    rewrite Hnil in Hin. by apply elem_of_nil in Hin.
  - intros [Hne ->]. exists k. split; [done|]. destruct (List.filter (in_group k) l) as [|x r] eqn:E; [done|].
    assert (x ∈ List.filter (in_group k) l) as Hin by (rewrite E; by left).
    apply list_elem_of_In, filter_In in Hin as [Hin Hk]. apply bool_decide_eq_true_1 in Hk.
    apply elem_of_remove_dups, list_elem_of_fmap. exists x. split; [done|by apply list_elem_of_In].
Qed.

Lemma NoDup_group_by l : NoDup (group_by l).*1.
Proof.
  unfold group_by. rewrite <- list_fmap_compose.
  assert (∀ ks : list group_key, (fst ∘ (λ k, (k, measures_of (List.filter (in_group k) l)))) <$> ks = ks) as ->.
  { intros ks. induction ks as [|k ks IH]; csimpl; [done|]. by rewrite IH. }
  apply NoDup_remove_dups.
Qed.

Lemma in_group_key k x : in_group k x = true → key_of x = k.
Proof. apply bool_decide_eq_true_1. Qed.

Lemma in_group_hour k x : in_group k x = true → hour_of (lr_created_at x) = k.1.
Proof. intros H%in_group_key. by rewrite <- H. Qed.

(** The rows of a group that some ranges select. *)
Lemma aggregate_rows k ranges l :
  List.filter (in_group k) (ranges ≫= rows_in l) =
  ranges ≫= (λ r, List.filter (λ x, within r.1 r.2 (lr_created_at x) && in_group k x) (ledger_rows l)).
Proof.
  rewrite filter_concat. induction ranges as [|r rs IH]; csimpl; [done|]. rewrite IH. f_equal.
  unfold rows_in. by rewrite filter_filter.
Qed.

Lemma elem_of_aggregate k m ranges l :
  (k, m) ∈ aggregate ranges l ↔ has_group (ranges ≫= rows_in l) k m.
Proof. apply elem_of_group_by. Qed.

(** ** Instants *)

Definition whole_instant (x : instant) : Prop := match x with At t => whole t | _ => True end.

#[local] Instance below_dec x t : Decision (below x t).
Proof. destruct x; simpl; apply _. Defined.

Lemma above_not_below x t : above x t ↔ ¬ below x t.
Proof. destruct x; simpl; [tauto|lia|tauto]. Qed.

Lemma below_least a b t : below (least a b) t ↔ below a t ∧ below b t.
Proof.
  unfold least. destruct a as [|x|], b as [|y|]; simpl; try tauto. destruct (Z.ltb_spec y x); simpl; lia.
Qed.

Lemma above_greatest a b t : above (greatest_of a b) t ↔ above a t ∧ above b t.
Proof.
  unfold greatest_of. destruct a as [|x|], b as [|y|]; simpl; try tauto. destruct (Z.ltb_spec x y); simpl; lia.
Qed.

Lemma below_whole x t : whole_instant x → below x (hour_of t) ↔ below x t.
Proof.
  destruct x as [|y|]; simpl; [done| |done]. intros Hy. pose proof (hour_of_bounds t). split; [|lia].
  intros Hlt. pose proof (whole_lt _ _ (hour_of_whole t) Hy Hlt). lia.
Qed.

Lemma above_whole x t : whole_instant x → above x (hour_of t) ↔ above x t.
Proof. intros H. by rewrite !above_not_below, below_whole. Qed.

Lemma within_whole lo hi t :
  whole_instant lo → whole_instant hi → within lo hi t = within lo hi (hour_of t).
Proof.
  intros Hlo Hhi. apply eq_true_iff_eq. rewrite !within_spec. by rewrite above_whole, below_whole.
Qed.

Lemma trunc_whole x : whole_instant (trunc x).
Proof. destruct x; simpl; [done|apply hour_of_whole|done]. Qed.

Lemma ceil_whole s : whole_instant (ceil_of s).
Proof.
  unfold ceil_of. case_bool_decide as E; [rewrite <- E; apply trunc_whole|]. destruct s; simpl; [done| |done].
  apply whole_add; [apply hour_of_whole|apply whole_HOUR].
Qed.

Lemma above_ceil s t : above (ceil_of s) t → above s t.
Proof.
  unfold ceil_of. case_bool_decide; [done|]. destruct s as [|x|]; simpl; [done| |done]. pose proof (hour_of_bounds x). lia.
Qed.

Lemma below_trunc e t : below (trunc e) t → below e t.
Proof. destruct e as [|x|]; simpl; [done| |done]. pose proof (hour_of_bounds x). lia. Qed.

Lemma least_whole a b : whole_instant a → whole_instant b → whole_instant (least a b).
Proof. unfold least. by destruct (before b a). Qed.

Lemma within_before lo hi t : within lo hi t = true → before lo hi = true.
Proof. rewrite within_spec. destruct lo, hi; simpl; try tauto. rewrite Z.ltb_lt. lia. Qed.

(** A range written only when it holds something. *)
Lemma bind_range {B} lo hi (f : instant * instant → list B) :
  (before lo hi = false → f (lo, hi) = []) →
  (if before lo hi then [(lo, hi)] else []) ≫= f = f (lo, hi).
Proof. intros H. destruct (before lo hi); csimpl; [apply app_nil_r|by rewrite H]. Qed.

Lemma filter_none {A} (P : A → bool) l : (∀ x, x ∈ l → P x = false) → List.filter P l = [].
Proof.
  induction l as [|x l IH]; intros H; simpl; [done|]. rewrite (H x) by by left. apply IH. intros y Hy. apply H. by right.
Qed.

(** The rows of a group in a range. *)
Notation picks l k r :=
  (List.filter (λ x, within r.1 r.2 (lr_created_at x) && in_group k x) (ledger_rows l)).

Lemma dirty_range l k h :
  whole h → picks l k (At h, At (h + HOUR)) = if decide (h = k.1) then List.filter (in_group k) (ledger_rows l) else [].
Proof.
  intros Hw. destruct (decide (h = k.1)) as [->|Hne]; [apply filter_ext'|apply filter_none]; intros x _; simpl.
  - destruct (in_group k x) eqn:E; [|apply andb_false_r]. apply in_group_hour in E. rewrite andb_true_r.
    apply within_spec. simpl. pose proof (hour_of_bounds (lr_created_at x)). lia.
  - destruct (in_group k x) eqn:E; [|apply andb_false_r]. apply in_group_hour in E. rewrite andb_true_r.
    apply not_true_iff_false. rewrite within_spec. simpl. intros Ht. apply Hne. rewrite <- E. symmetry. by apply hour_of_unique.
Qed.

Lemma hours_rows l (hs : list Z) k :
  NoDup hs → (∀ h, h ∈ hs → whole h) →
  map (λ h, (At h, At (h + HOUR))) hs ≫= (λ r, picks l k r) = if decide (k.1 ∈ hs) then List.filter (in_group k) (ledger_rows l) else [].
Proof.
  induction 1 as [|h hs Hh Hnd IH]; intros Hw; [done|]. change (map ?f (h :: hs)) with (f h :: map f hs).
  rewrite bind_cons, dirty_range, IH; [|intros; apply Hw; by right|apply Hw; by left].
  repeat case_decide; subst; rewrite ?app_nil_r; try done; set_solver.
Qed.

(** ** What a read reads *)

Section reads.
Context (l : ledger) (ru : rollup) (s e : instant).
Hypothesis (Huntil : whole_instant (until_of ru)).
Notation rows := (ledger_rows l).
Notation dirty := (dirty_hours ru s e).
Notation in_window := (within s e).
Notation stored := (within (ceil_of s) (stored_end ru e)).

Lemma stored_end_whole : whole_instant (stored_end ru e).
Proof. apply least_whole; [done|apply trunc_whole]. Qed.

Lemma stored_hour t : stored (hour_of t) = stored t.
Proof. symmetry. apply within_whole; [apply ceil_whole|apply stored_end_whole]. Qed.

(** A stored hour lies wholly in the window. *)
Lemma stored_in_window t : stored t = true → in_window t = true.
Proof.
  rewrite !within_spec. intros [Hs He]. split; [by apply above_ceil|]. unfold stored_end in He.
  apply below_least in He as [_ He]. by apply below_trunc.
Qed.

Lemma dirty_whole h : (∀ i x, ru_dirty ru !! i = Some x → whole x) → h ∈ dirty → whole h.
Proof.
  intros Hlog. unfold dirty_hours. rewrite elem_of_remove_dups, list_elem_of_In, filter_In. intros [H _].
  apply in_map_iff in H as ([i x] & <- & Hx). apply list_elem_of_In, elem_of_map_to_list in Hx. by eapply Hlog.
Qed.

Lemma dirty_stored h : h ∈ dirty → stored h = true.
Proof. unfold dirty_hours. rewrite elem_of_remove_dups, list_elem_of_In, filter_In. tauto. Qed.

(** The two ends of the window that are read live. *)
Lemma ends_rows k :
  ((if before s (least (ceil_of s) e) then [(s, least (ceil_of s) e)] else []) ++
   (if before (greatest_of (stored_end ru e) (ceil_of s)) e
    then [(greatest_of (stored_end ru e) (ceil_of s), e)] else [])) ≫= (λ r, picks l k r) =
  if stored k.1 then [] else List.filter (λ x, in_window (lr_created_at x) && in_group k x) rows.
Proof.
  assert (Hempty : ∀ lo hi, before lo hi = false → picks l k (lo, hi) = []).
  { intros lo hi Hb. apply filter_none. intros x _. simpl. apply not_true_iff_false. intros [Hw%within_before _]%andb_true_iff.
    congruence. }
  rewrite bind_app, !bind_range by apply Hempty. simpl.
  assert (Hnone : ∀ (P : Z → bool), (∀ x, in_group k x = true → P (lr_created_at x) = false) →
            List.filter (λ x, P (lr_created_at x) && in_group k x) rows = []).
  { intros P HP. apply filter_none. intros x _. destruct (in_group k x) eqn:E; [|apply andb_false_r]. by rewrite HP. }
  assert (Hsame : ∀ (P Q : Z → bool), (∀ x, in_group k x = true → P (lr_created_at x) = Q (lr_created_at x)) →
            List.filter (λ x, P (lr_created_at x) && in_group k x) rows =
            List.filter (λ x, Q (lr_created_at x) && in_group k x) rows).
  { intros P Q HPQ. apply filter_ext'. intros x _. destruct (in_group k x) eqn:E; [by rewrite HPQ|by rewrite !andb_false_r]. }
  pose proof stored_end_whole as Hse. pose proof (ceil_whole s) as Hc.
  destruct (stored k.1) eqn:Ek.
  - apply within_spec in Ek as [Ek1 Ek2].
    rewrite (Hnone (within s _)), (Hnone (within _ e)); [done|..]; intros x Hx; apply in_group_hour in Hx; rewrite <- Hx in *;
      apply not_true_iff_false; rewrite within_spec, ?below_least, ?above_greatest.
    + rewrite below_whole in Ek2 by done. rewrite !(above_not_below (stored_end _ _)). tauto.
    + rewrite above_whole, above_not_below in Ek1 by done. tauto.
  - apply not_true_iff_false in Ek. rewrite within_spec, (above_not_below (ceil_of s)) in Ek.
    destruct (decide (below (ceil_of s) k.1)) as [Ea|Ea].
    + rewrite (Hnone (within _ e)), app_nil_r; [apply (Hsame (within s _) (within s e))|]; intros x Hx;
        apply in_group_hour in Hx; rewrite <- Hx, below_whole in Ea by done.
      * apply eq_true_iff_eq. rewrite !within_spec, below_least. tauto.
      * apply not_true_iff_false. rewrite within_spec, above_greatest, (above_not_below (ceil_of s)). tauto.
    + assert (¬ below (stored_end ru e) k.1) as Eb by tauto.
      rewrite (Hnone (within s _)); [apply (Hsame (within _ e) (within s e))|]; intros x Hx; apply in_group_hour in Hx;
        rewrite <- Hx, below_whole in Ea, Eb by done.
      * apply eq_true_iff_eq. rewrite !within_spec, above_greatest, !(above_not_below (stored_end _ _)), (above_not_below (ceil_of s)).
        apply above_not_below in Ea. pose proof (above_ceil _ _ Ea). rewrite above_not_below in Ea. tauto.
      * apply not_true_iff_false. rewrite within_spec, below_least. tauto.
Qed.

(** What the live ranges hold of a group: all of it in a dirty hour, its part of the window in
    an hour that is not stored, nothing otherwise. *)
Lemma live_rows k :
  (∀ i h, ru_dirty ru !! i = Some h → whole h) →
  List.filter (in_group k) (live_ranges ru s e ≫= rows_in l) =
  if stored k.1 then (if mem k.1 dirty then List.filter (in_group k) rows else [])
  else List.filter (λ x, in_window (lr_created_at x) && in_group k x) rows.
Proof.
  intros Hlog. rewrite aggregate_rows. unfold live_ranges. rewrite app_assoc, bind_app, ends_rows, hours_rows.
  - unfold mem. case_decide as Ed.
    + rewrite (dirty_stored _ Ed), bool_decide_eq_true_2 by done. done.
    + rewrite bool_decide_eq_false_2, app_nil_r by done. done.
  - apply NoDup_remove_dups.
  - intros h. by apply dirty_whole.
Qed.

Lemma window_rows k :
  List.filter (in_group k) ([(s, e)] ≫= rows_in l) =
  if stored k.1 then List.filter (in_group k) rows
  else List.filter (λ x, in_window (lr_created_at x) && in_group k x) rows.
Proof.
  rewrite aggregate_rows. csimpl. rewrite app_nil_r. destruct (stored k.1) eqn:Ek; [|done]. apply filter_ext'.
  intros x _. destruct (in_group k x) eqn:E; [|apply andb_false_r]. rewrite andb_true_r. simpl. apply stored_in_window.
  rewrite <- stored_hour. by rewrite (in_group_hour _ _ E).
Qed.

(** The stored hours that no write has touched hold what their rows come to. *)
Definition exact (hourly : list group) (l : ledger) (U : Z → Prop) : Prop :=
  NoDup hourly.*1 ∧ ∀ k m, U k.1 → (k, m) ∈ hourly ↔ has_group (ledger_rows l) k m.

Lemma groups_exact wanted :
  (∀ i h, ru_dirty ru !! i = Some h → whole h) →
  exact (ru_hourly ru) l (λ h, stored h = true ∧ mem h dirty = false) →
  groups s e wanted ru l ≡ₚ List.filter (λ g : group, wanted g.1.2) (aggregate [(s, e)] l).
Proof.
  intros Hlog [Hnd Hex]. apply NoDup_Permutation.
  - apply NoDup_app. split_and!.
    + by apply NoDup_filter', (NoDup_fmap_1 fst).
    + intros [k m] Hst Hlive. apply list_elem_of_In, filter_In in Hst as [_ Hst], Hlive as [Hlive _]. simpl in Hst.
      apply list_elem_of_In, elem_of_aggregate in Hlive as [Hne _]. rewrite live_rows in Hne by done. breflect.
      rewrite H in Hne. by destruct (mem k.1 dirty).
    + apply NoDup_filter', (NoDup_fmap_1 fst), NoDup_group_by.
  - apply NoDup_filter', (NoDup_fmap_1 fst), NoDup_group_by.
  - intros [k m]. unfold groups.
    assert (∀ (P : group → bool) g L, g ∈ List.filter P L ↔ g ∈ L ∧ P g = true) as Hin.
    { intros P g L. by rewrite !list_elem_of_In, filter_In. }
    rewrite elem_of_app, !Hin, !elem_of_aggregate. unfold has_group. rewrite live_rows, window_rows by done. simpl.
    destruct (wanted k.2); [|rewrite !andb_false_r; naive_solver]. rewrite andb_true_r.
    destruct (stored k.1) eqn:Ek; simpl; [|naive_solver].
    destruct (mem k.1 dirty) eqn:Ed; simpl; [naive_solver|].
    rewrite Hex by done. unfold has_group. naive_solver.
Qed.
End reads.

(** ** The refresh against concurrent writes *)

Lemma exact_written w hourly l (U U' : Z → Prop) :
  ledger_ok l → write_ok l w → exact hourly l U → (∀ h, U' h → U h ∧ h ∉ logged_by w l) →
  exact hourly (written w l) U'.
Proof.
  intros Hok Hw [Hnd Hex] HU. split; [done|]. intros k m [Hk Hl]%HU. rewrite Hex by done. unfold has_group.
  rewrite (written_hour k.1 w l (in_group k)); [done..|]. apply in_group_hour.
Qed.

Lemma exact_mono hourly l (U U' : Z → Prop) : exact hourly l U → (∀ h, U' h → U h) → exact hourly l U'.
Proof. intros [Hnd Hex] HU. split; [done|]. intros k m Hk. by apply Hex, HU. Qed.

(** No entry of the log but those of [L] names the hour. *)
Definition unlogged (ru : rollup) (L : gmap Z Z) (h : Z) : Prop :=
  ∀ i, ru_dirty ru !! i = Some h → is_Some (L !! i).

Lemma unlogged_logs hs ru ru' L h :
  logs hs ru ru' → log_fresh ru → L ⊆ ru_dirty ru → unlogged ru' L h → unlogged ru L h ∧ h ∉ hs.
Proof.
  intros Hlg Hf HL Hu. split.
  - intros i Hi. apply Hu. rewrite (lg_kept _ _ _ Hlg); [done|by eapply Hf].
  - intros Hh. destruct (lg_added _ _ _ Hlg h Hh) as (i & Hi & Hl). destruct (Hu i Hl) as [x Hx].
    eapply lookup_weaken in Hx; [|exact HL]. apply Hf in Hx. lia.
Qed.

Lemma logs_keep hs ru ru' L : logs hs ru ru' → log_fresh ru → L ⊆ ru_dirty ru → L ⊆ ru_dirty ru'.
Proof.
  intros Hlg Hf HL. apply map_subseteq_spec. intros i h Hi. eapply lookup_weaken in Hi; [|exact HL].
  rewrite (lg_kept _ _ _ Hlg); [done|by eapply Hf].
Qed.

Lemma elem_of_dirty_below u L h : h ∈ dirty_below u L ↔ h < u ∧ ∃ i, L !! i = Some h.
Proof.
  unfold dirty_below. rewrite merge_sort_Permutation, elem_of_remove_dups, list_elem_of_In, filter_In, in_map_iff, Z.ltb_lt.
  split.
  - intros [([i x] & <- & Hx) Hlt]. split; [done|]. exists i. by apply elem_of_map_to_list, list_elem_of_In.
  - intros [Hlt (i & Hi)]. split; [|done]. exists (i, h). split; [done|]. by apply list_elem_of_In, elem_of_map_to_list.
Qed.

Lemma NoDup_dirty_below u L : NoDup (dirty_below u L).
Proof. unfold dirty_below. rewrite merge_sort_Permutation. apply NoDup_remove_dups. Qed.

(** Deleting the groups of some hours and summing those hours again. *)
Lemma exact_restored (D : Z → bool) ranges hourly l (U U' : Z → Prop) :
  exact hourly l U →
  (∀ k, List.filter (in_group k) (ranges ≫= rows_in l) = if D k.1 then List.filter (in_group k) (ledger_rows l) else []) →
  (∀ h, U' h → D h = false → U h) →
  exact (List.filter (λ g : group, negb (D g.1.1)) hourly ++ aggregate ranges l) l U'.
Proof.
  intros [Hnd Hex] Hrows HU.
  assert (∀ g, g ∈ List.filter (λ g : group, negb (D g.1.1)) hourly ↔ g ∈ hourly ∧ D g.1.1 = false) as Hin.
  { intros g. rewrite !list_elem_of_In, filter_In, negb_true_iff. done. }
  split.
  - rewrite fmap_app. apply NoDup_app. split_and!.
    + clear -Hnd. induction hourly as [|g gs IH]; csimpl in *; [constructor|]. apply NoDup_cons in Hnd as [Hg Hnd].
      destruct (D g.1.1); csimpl; [by apply IH|]. constructor; [|by apply IH]. intros (g' & Heq & Hg')%list_elem_of_fmap.
      apply Hg, list_elem_of_fmap. exists g'. split; [done|]. apply list_elem_of_In, filter_In in Hg' as [? _].
      by apply list_elem_of_In.
    + intros k ([k1 m1] & -> & [_ H1]%Hin)%list_elem_of_fmap ([k2 m2] & Heq & [Hne _]%elem_of_aggregate)%list_elem_of_fmap.
      simpl in *. subst k2. rewrite Hrows, H1 in Hne. done.
    + apply NoDup_group_by.
  - intros k m Hk. rewrite elem_of_app, Hin, elem_of_aggregate. unfold has_group at 1. rewrite Hrows. simpl.
    destruct (D k.1) eqn:ED; [naive_solver|]. rewrite Hex by auto. naive_solver.
Qed.

Lemma exact_recompute u L ru hourly l :
  (∀ i h, ru_dirty ru !! i = Some h → whole h) → L ⊆ ru_dirty ru →
  exact hourly l (λ h, h < u ∧ unlogged ru ∅ h) →
  exact (recompute u L l hourly) l (λ h, h < u ∧ unlogged ru L h).
Proof.
  intros Hw HL Hex. unfold recompute.
  assert (HU : ∀ h, h < u ∧ unlogged ru L h → h ∉ dirty_below u L → h < u ∧ unlogged ru ∅ h).
  { intros h [Hlt Hu] Hd. split; [done|]. intros i Hi. exfalso. apply Hd, elem_of_dirty_below. split; [done|].
    exists i. destruct (Hu i Hi) as [x Hx]. pose proof (lookup_weaken _ _ _ _ Hx HL). congruence. }
  assert (Hdw : ∀ h, h ∈ dirty_below u L → whole h).
  { intros h [_ (i & Hi)]%elem_of_dirty_below. eapply Hw, lookup_weaken; [exact Hi|exact HL]. }
  pose proof (NoDup_dirty_below u L) as Hnd. destruct (dirty_below u L) as [|d ds].
  - eapply exact_mono; [exact Hex|]. intros h Hh. apply HU; [done|]. apply not_elem_of_nil.
  - eapply (exact_restored (λ h, mem h (d :: ds))); [exact Hex| |].
    + intros k. rewrite aggregate_rows, hours_rows by done. unfold mem. by repeat case_decide; case_bool_decide.
    + intros h Hh Hm. apply HU; [done|]. by apply bool_decide_eq_false_1 in Hm.
Qed.

Lemma range_rows u t l k :
  whole u → whole t →
  List.filter (in_group k) ([(At u, At t)] ≫= rows_in l) =
    if (u <=? k.1) && (k.1 <? t) then List.filter (in_group k) (ledger_rows l) else [].
Proof.
  intros Hu Ht. rewrite aggregate_rows. csimpl. rewrite app_nil_r.
  assert (∀ x, in_group k x = true → within (At u) (At t) (lr_created_at x) = (u <=? k.1) && (k.1 <? t)) as Hx.
  { intros x Hx%in_group_hour. rewrite within_whole, Hx by done. apply eq_true_iff_eq.
    rewrite within_spec, andb_true_iff, Z.leb_le, Z.ltb_lt. done. }
  destruct (_ && _) eqn:E; [apply filter_ext'|apply filter_none]; intros x _; simpl;
    (destruct (in_group k x) eqn:Ek; [|apply andb_false_r]); rewrite Hx; done.
Qed.

Section refresh.
Context (max_span : Z).
Hypothesis (Hspan : whole max_span).
Notation target_of := (target_of max_span).
Notation advance := (advance max_span).
Notation commit := (commit max_span).

Lemma target_whole u g : whole u → whole g → whole (target_of u g).
Proof. intros Hu Hg. unfold Rollup.target_of. destruct (Z.min_spec g (u + max_span)) as [[_ ->]|[_ ->]]; [done|by apply whole_add]. Qed.

Lemma exact_advance u g hourly l (N : Z → Prop) :
  whole u → whole g →
  exact hourly l (λ h, h < u ∧ N h) →
  exact (advance u g l hourly) l (λ h, h < Z.max u (target_of u g) ∧ N h).
Proof.
  intros Hu Hg Hex. unfold Rollup.advance. destruct (Z.ltb_spec u (target_of u g)) as [Hlt|Hge].
  - eapply (exact_restored (λ h, (u <=? h) && (h <? target_of u g))); [exact Hex| |].
    + intros k. apply range_rows; [done|by apply target_whole].
    + intros h [Hh HN] Hd. split; [|done]. apply andb_false_iff in Hd as [Hd|Hd]; [by apply Z.leb_gt in Hd|].
      apply Z.ltb_ge in Hd. lia.
  - eapply exact_mono; [exact Hex|]. intros h [Hh HN]. split; [lia|done].
Qed.

Lemma sum_opt_min (hs : list Z) :
  match sum_opt Z.min (map Some hs) with
  | Some f => f ∈ hs ∧ ∀ h, h ∈ hs → f <= h
  | None => hs = []
  end.
Proof.
  induction hs as [|h hs IH]; [done|]. change (sum_opt Z.min (map Some (h :: hs))) with
    (match sum_opt Z.min (map Some hs) with Some y => Some (Z.min h y) | None => Some h end).
  destruct (sum_opt Z.min (map Some hs)) as [y|].
  - destruct IH as [Hy Hmin]. split.
    + destruct (Z.min_spec h y) as [[_ ->]|[_ ->]]; [by left|by right].
    + intros x [->|Hx]%elem_of_cons; [lia|]. specialize (Hmin x Hx). lia.
  - subst. split; [by left|]. intros x ->%list_elem_of_singleton. lia.
Qed.

(** Every row lies at or after the first hour. *)
Lemma first_hour_below l x :
  x ∈ ledger_rows l → match first_hour l with Some f => f <= hour_of (lr_created_at x) | None => False end.
Proof.
  intros Hx. pose proof (sum_opt_min (hours_of_answers (omap (λ i, l_answers l !! i) (all_ids (l_answers l))) ++
    hours_of_fetches (omap (λ i, l_fetches l !! i) (all_ids (l_fetches l))))) as H.
  unfold first_hour. assert (hour_of (lr_created_at x) ∈ hours_of_answers (omap (λ i, l_answers l !! i) (all_ids (l_answers l))) ++
    hours_of_fetches (omap (λ i, l_fetches l !! i) (all_ids (l_fetches l)))) as Hin.
  { unfold ledger_rows in Hx. apply elem_of_app in Hx. apply elem_of_app.
    destruct Hx as [(i & Hi & Hr)%list_elem_of_omap|(i & Hi & Hr)%list_elem_of_omap]; [left|right].
    - unfold answer_row in Hr. apply fmap_Some in Hr as (a & Ha & ->). apply in_hours_of_answers, list_elem_of_omap. by exists i.
    - unfold fetch_row in Hr. destruct (l_fetches l !! i) as [f|] eqn:E; [|done]. destruct (String.eqb _ _); [done|].
      injection Hr as <-. apply in_hours_of_fetches, list_elem_of_omap. by exists i. }
  destruct (sum_opt Z.min _) as [f|]; [by apply H|]. rewrite H in Hin. by apply elem_of_nil in Hin.
Qed.

Lemma first_hour_whole l f : first_hour l = Some f → whole f.
Proof.
  unfold first_hour. intros H. pose proof (sum_opt_min (hours_of_answers (omap (λ i, l_answers l !! i) (all_ids (l_answers l))) ++
    hours_of_fetches (omap (λ i, l_fetches l !! i) (all_ids (l_fetches l))))) as Hm. rewrite H in Hm. destruct Hm as [Hin _].
  apply elem_of_app in Hin as [(a & -> & _)%list_elem_of_fmap|(a & -> & _)%list_elem_of_fmap]; apply hour_of_whole.
Qed.

(** *** The invariant *)

Definition base_ok (l : ledger) (ru : rollup) (u : Z) : Prop :=
  exact (ru_hourly ru) l (λ h, h < u ∧ unlogged ru ∅ h).

Definition refresher_ok (l : ledger) (ru : rollup) (r : refresher) : Prop :=
  match r with
  | Idle => True
  | Started u g => whole u ∧ whole g ∧ base_ok l ru u
  | Logged u g L => whole u ∧ whole g ∧ base_ok l ru u ∧ L ⊆ ru_dirty ru
  | Recomputed u g L hourly =>
      whole u ∧ whole g ∧ L ⊆ ru_dirty ru ∧ exact hourly l (λ h, h < u ∧ unlogged ru L h)
  | Advanced u g L hourly =>
      whole u ∧ whole g ∧ L ⊆ ru_dirty ru ∧
      exact hourly l (λ h, h < Z.max u (target_of u g) ∧ unlogged ru L h)
  end.

Record site_ok (st : site) : Prop := mkSiteOk {
  so_ledger : ledger_ok (s_ledger st);
  so_fresh : log_fresh (s_rollup st);
  so_whole : ∀ i h, ru_dirty (s_rollup st) !! i = Some h → whole h;
  so_until : match ru_until (s_rollup st) with
             | Some u => whole u ∧ base_ok (s_ledger st) (s_rollup st) u
             | None => ru_hourly (s_rollup st) = []
             end;
  so_refresher : refresher_ok (s_ledger st) (s_rollup st) (s_refresher st);
}.

Lemma exact_logged w l ru hourly u L :
  ledger_ok l → write_ok l w → log_fresh ru → L ⊆ ru_dirty ru →
  exact hourly l (λ h, h < u ∧ unlogged ru L h) →
  exact hourly (written w l) (λ h, h < u ∧ unlogged (triggered w l ru) L h).
Proof.
  intros Hok Hw Hf HL Hex. eapply (exact_written w); [done..|exact Hex|]. intros h [Hh Hu].
  destruct (unlogged_logs _ _ _ _ _ (triggered_logs w l ru) Hf HL Hu). done.
Qed.

Lemma base_written w l ru u :
  ledger_ok l → write_ok l w → log_fresh ru → base_ok l ru u → base_ok (written w l) (triggered w l ru) u.
Proof.
  intros Hok Hw Hf Hb. unfold base_ok. rewrite (lg_hourly _ _ _ (triggered_logs w l ru)).
  apply exact_logged; try done. apply map_empty_subseteq.
Qed.

Lemma site_write l ru r w : write_ok l w → site_ok (mkSite l ru r) → site_ok (mkSite (written w l) (triggered w l ru) r).
Proof.
  intros Hw [Hok Hf Hwh Hu Hr]. simpl in *. pose proof (triggered_logs w l ru) as Hlg. split; simpl.
  - by apply written_ok.
  - by apply (lg_fresh _ _ _ Hlg).
  - intros i h Hi. destruct (lg_only _ _ _ Hlg i h Hi) as [?|?]; [by eapply Hwh|by eapply logged_whole].
  - rewrite (lg_until _ _ _ Hlg), (lg_hourly _ _ _ Hlg). destruct (ru_until ru); [|done]. destruct Hu.
    split; [done|by apply base_written].
  - destruct r as [|u g|u g L|u g L hr|u g L hr]; simpl in *; [done|..].
    + destruct Hr as (? & ? & ?). split_and!; [done..|by apply base_written].
    + destruct Hr as (? & ? & ? & ?). split_and!; [done..|by apply base_written|by eapply logs_keep].
    + destruct Hr as (? & ? & ? & ?). split_and!; [done..|by eapply logs_keep|by apply exact_logged].
    + destruct Hr as (? & ? & ? & ?). split_and!; [done..|by eapply logs_keep|by apply exact_logged].
Qed.

Lemma site_begin l ru now : site_ok (mkSite l ru Idle) →
  site_ok (mkSite l ru (Started (start_of (hour_of now) l ru) (hour_of now))).
Proof.
  intros [Hok Hf Hwh Hu _]. split; simpl in *; try done. unfold start_of. destruct (ru_until ru) as [u|]; simpl.
  - destruct Hu. split_and!; [done|apply hour_of_whole|done].
  - split_and!; [|apply hour_of_whole|].
    + destruct (first_hour l) as [f|] eqn:E; [by eapply first_hour_whole|apply hour_of_whole].
    + unfold base_ok. rewrite Hu. split; [constructor|]. intros k m [Hlt _]. split; [by intros ?%elem_of_nil|].
      intros [Hne _]. exfalso. destruct (List.filter (in_group k) (ledger_rows l)) as [|x xs] eqn:E; [done|].
      assert (x ∈ List.filter (in_group k) (ledger_rows l)) as Hin by (rewrite E; by left).
      apply list_elem_of_In, filter_In in Hin as [Hin Hk]. apply list_elem_of_In, first_hour_below in Hin.
      apply in_group_hour in Hk. destruct (first_hour l); [|done]. simpl in Hlt. lia.
Qed.

Lemma unlogged_commit u g L hourly ru h :
  unlogged (commit u g L hourly ru) ∅ h → unlogged ru L h.
Proof.
  intros H i Hi. destruct (L !! i) as [x|] eqn:E; [done|]. exfalso. destruct (H i) as [? Hx]; [|by rewrite lookup_empty in Hx].
  simpl. by apply map_lookup_filter_Some.
Qed.

Lemma site_commit l ru u g L hourly :
  site_ok (mkSite l ru (Advanced u g L hourly)) → site_ok (mkSite l (commit u g L hourly ru) Idle).
Proof.
  intros [Hok Hf Hwh _ (Hu & Hg & HL & Hex)]. split; simpl in *; try done.
  - intros i h. simpl. intros [Hi _]%map_lookup_filter_Some. by eapply Hf.
  - intros i h [Hi _]%map_lookup_filter_Some. by eapply Hwh.
  - split; [destruct (Z.max_spec u (target_of u g)) as [[_ ->]|[_ ->]]; [by apply target_whole|done]|].
    eapply exact_mono; [exact Hex|]. intros h [Hh Hn]. split; [done|by eapply unlogged_commit].
Qed.

Lemma site_ok_step st st' : site_step max_span st st' → site_ok st → site_ok st'.
Proof.
  destruct 1 as [l ru r w Hw|l ru now|l ru u g|l ru u g L|l ru u g L hr|l ru u g L hr|l ru r].
  - by apply site_write.
  - apply site_begin.
  - intros [Hok Hf Hwh Hu (? & ? & ?)]. by split; simpl in *.
  - intros [Hok Hf Hwh Hu (? & ? & ? & ?)]. split; simpl in *; try done. split_and!; [done..|]. by apply exact_recompute.
  - intros [Hok Hf Hwh Hu (? & ? & ? & ?)]. split; simpl in *; try done. split_and!; [done..|]. by apply exact_advance.
  - apply site_commit.
  - intros [Hok Hf Hwh Hu _]. by split.
Qed.

Lemma site_ok_init l : ledger_ok l → site_ok (mkSite l empty_rollup Idle).
Proof. intros H. by split. Qed.

Lemma site_ok_read st s e wanted :
  site_ok st →
  groups s e wanted (s_rollup st) (s_ledger st) ≡ₚ
    List.filter (λ g : group, wanted g.1.2) (aggregate [(s, e)] (s_ledger st)).
Proof.
  destruct st as [l ru r]. intros [Hok Hf Hwh Hu _]. simpl in *. apply groups_exact; [|done|].
  - unfold until_of. destruct (ru_until ru); [by destruct Hu|done].
  - destruct (ru_until ru) as [u|] eqn:Eu; cycle 1.
    { rewrite Hu. split; [constructor|]. intros k m [Hst _]. exfalso. apply within_spec in Hst as [_ Hst].
      unfold stored_end, until_of in Hst. rewrite Eu in Hst. by apply below_least in Hst as [? _]. }
    eapply exact_mono; [apply Hu|]. intros h [Hst Hd]. pose proof Hst as Hst'. apply within_spec in Hst' as [_ Hlt].
    unfold stored_end, until_of in Hlt. rewrite Eu in Hlt. apply below_least in Hlt as [Hlt _]. split; [exact Hlt|].
    intros i Hi. exfalso. apply bool_decide_eq_false_1 in Hd. apply Hd. unfold dirty_hours.
    apply elem_of_remove_dups, list_elem_of_In, filter_In. split; [|done]. apply in_map_iff. exists (i, h).
    split; [done|]. by apply list_elem_of_In, elem_of_map_to_list.
Qed.

(** C7: whatever the refresh has or has not done, and whatever writes landed in hours already
    summed or between the refresh's statements, a read of the hourly ledger over any window
    gives the groups that aggregating the source tables over the window gives: the same
    groups, each once, with the same counts, sums, and first and last times. *)
Theorem reads_exact l0 st s e wanted :
  ledger_ok l0 → rtc (site_step max_span) (mkSite l0 empty_rollup Idle) st →
  groups s e wanted (s_rollup st) (s_ledger st) ≡ₚ
    List.filter (λ g : group, wanted g.1.2) (aggregate [(s, e)] (s_ledger st)).
Proof.
  intros H0 Hrun. apply site_ok_read. apply site_ok_init in H0.
  induction Hrun as [|x y z Hxy _ IH]; [done|]. by eapply IH, site_ok_step.
Qed.

(** A refresh with no write during it is its statements one after another. *)
Lemma refresh_steps_alone now l ru :
  rtc (site_step max_span) (mkSite l ru Idle) (mkSite l (refresh max_span false now l ru).1 Idle).
Proof.
  eapply rtc_l; [apply (st_begin _ _ _ now)|]. eapply rtc_l; [apply st_log|]. eapply rtc_l; [apply st_recompute|].
  eapply rtc_l; [apply st_advance|]. eapply rtc_l; [apply st_commit|]. apply rtc_refl.
Qed.
End refresh.

(** With writes quiet and the hour unchanged, every step sums [max_span] more, so the handler
    catches up within as many steps as there are spans to sum. *)
Theorem refresh_catches_up span goal nows steps l ru dirty :
  0 < span → (∀ k, hour_of (nows k) = goal) → (0 < steps)%nat →
  goal - start_of goal l ru <= Z.of_nat steps * span →
  ∃ ru' n done, refresh_steps span steps nows l ru dirty = (ru', n, Some done) ∧ rf_caught_up done = true.
Proof.
  intros Hspan. revert nows ru dirty. induction steps as [|steps IH]; intros nows ru dirty Hnow Hpos Hle; [lia|].
  simpl. rewrite Hnow. set (u := start_of goal l ru) in *. unfold target_of.
  destruct (Z.leb_spec goal (Z.min goal (u + span))) as [Hc|Hc]; [by do 3 eexists|].
  destruct (decide (steps = 0%nat)) as [->|Hs]; [lia|].
  edestruct (IH (λ k, nows (S k))) as (ru' & n & done & -> & Hd).
  - intros k. apply Hnow.
  - lia.
  - unfold start_of. simpl. unfold target_of. lia.
  - by do 3 eexists.
Qed.

(** *** A ledger with one call, its two answers, and a write into an hour already summed *)

Definition demo_answer_at (t : Z) (call : option Z) : ledger_answer :=
  mkLedgerAnswer t (Some "m1") (Some "closed") (Some "passed") None None None call.

Definition demo_usage (tokens : Z) : usage :=
  mkUsage (Some tokens) (Some 1) (Some (tokens + 1)) (Some 0) (Some 1) (Some 0) None.

Definition demo_ledger : ledger :=
  mkLedger {[ 1 := demo_answer_at HOUR (Some 1); 2 := demo_answer_at (3 * HOUR + 5) (Some 1) ]} ∅ {[ 1 := demo_usage 100 ]} 3 1 2.

(** The refresh reads, then an answer lands in the first hour before it commits. *)
Definition demo_late : write := InsertAnswers [demo_answer_at (HOUR + 7) None].
Definition demo_end : site :=
  let l := demo_ledger in let ru := empty_rollup in
  let u := start_of (hour_of (5 * HOUR)) l ru in let g := hour_of (5 * HOUR) in
  let hourly := advance (48 * HOUR) u g l (recompute u ∅ l []) in
  mkSite (written demo_late l) (commit (48 * HOUR) u g ∅ hourly (triggered demo_late l ru)) Idle.

Lemma demo_run : rtc (site_step (48 * HOUR)) (mkSite demo_ledger empty_rollup Idle) demo_end.
Proof.
  eapply rtc_l; [apply (st_begin _ _ _ (5 * HOUR))|]. eapply rtc_l; [apply st_log|].
  eapply rtc_l; [apply st_recompute|]. eapply rtc_l; [apply st_advance|].
  eapply rtc_l; [apply (st_write _ _ _ _ demo_late)|].
  - intros a ->%list_elem_of_singleton. exact I.
  - eapply rtc_l; [apply st_commit|]. apply rtc_refl.
Qed.

(** The read takes the second hour from the table and the first from the source. *)
Lemma demo_read_mixes :
  length (ru_hourly (s_rollup demo_end)) = 2%nat ∧
  dirty_hours (s_rollup demo_end) (At 0) (At (6 * HOUR)) = [HOUR].
Proof. vm_compute. done. Qed.

Lemma reads_exact_witness :
  groups (At 0) (At (6 * HOUR)) (λ _, true) (s_rollup demo_end) (s_ledger demo_end) ≡ₚ
    List.filter (λ _ : group, true) (aggregate [(At 0, At (6 * HOUR))] (s_ledger demo_end)).
Proof.
  apply (reads_exact (48 * HOUR)) with (l0 := demo_ledger).
  - reflexivity.
  - split.
    + intros i a. simpl. intros [[<- <-]|[_ [<- <-]%lookup_singleton_Some]]%lookup_insert_Some; split; reflexivity.
    + intros i x. simpl. intros [<- <-]%lookup_singleton_Some. reflexivity.
    + done.
  - exact demo_run.
Defined.
