(* ===== verification/Drafts.v ===== *)
(** * Drafts of application answers ([api.apply.writes], [tasks.application],
    [api.routers.application_answers], [api.task_admission])

    The answers a person keeps per question of a form, each with a generation counter, and
    everything that writes one: reservations, batched and live results, the person's own
    edits and refinements, and the questions a form read brings. *)

From stdpp Require Import pretty.
From S2P Require Import Prelude PyStr Sql Tasks Queue.

Local Open Scope string_scope.
Local Open Scope Z_scope.

(** ** Tables *)

Record turn : Type := mkTurn {
  tn_role : string;
  tn_kind : string;
  tn_text : string;
  tn_at : Z;
}.

Record app_answer : Type := mkAppAnswer {
  aa_user_id : Z;
  aa_job_id : Z;
  aa_key : string;
  aa_question : string;
  aa_source : string;
  aa_required : bool;
  aa_draft_revision : Z;
  aa_draft : option string;
  aa_turns : list turn;
  aa_model : option string;
  aa_updated_at : Z;
}.

(** A live call's row in the ledger, as a draft books it. *)
Record draft_call : Type := mkDraftCall {
  dc_user_id : Z;
  dc_key_source : string;
  dc_model : option string;
  dc_total_tokens : Z;
}.

(** [application_answers] with its identity column, the tasks and the calls booked. *)
Record desk : Type := mkDesk {
  dk_answers : gmap Z app_answer;
  dk_next : Z;
  dk_queue : world;
  dk_calls : list draft_call;
}.

Definition with_answers (m : gmap Z app_answer) (d : desk) : desk :=
  mkDesk m (dk_next d) (dk_queue d) (dk_calls d).
Definition with_tasks (w : world) (d : desk) : desk :=
  mkDesk (dk_answers d) (dk_next d) w (dk_calls d).
Definition with_calls (l : list draft_call) (d : desk) : desk :=
  mkDesk (dk_answers d) (dk_next d) (dk_queue d) l.

(** SET lists. *)
Definition set_revision (n : Z) (a : app_answer) : app_answer :=
  mkAppAnswer (aa_user_id a) (aa_job_id a) (aa_key a) (aa_question a) (aa_source a) (aa_required a) n
    (aa_draft a) (aa_turns a) (aa_model a) (aa_updated_at a).

Definition bump (a : app_answer) : app_answer := set_revision (aa_draft_revision a + 1) a.

Definition set_question (q : string) (required : bool) (a : app_answer) : app_answer :=
  mkAppAnswer (aa_user_id a) (aa_job_id a) (aa_key a) q (aa_source a) required (aa_draft_revision a)
    (aa_draft a) (aa_turns a) (aa_model a) (aa_updated_at a).

Definition set_draft (draft : option string) (model : option string) (turns : list turn) (now : Z)
    (a : app_answer) : app_answer :=
  mkAppAnswer (aa_user_id a) (aa_job_id a) (aa_key a) (aa_question a) (aa_source a) (aa_required a)
    (aa_draft_revision a) draft (aa_turns a ++ turns)%list model now.

(** ** Reservations ([reserve_task]) *)

(** What a request holds: the answer and the generation it may write. *)
Record reservation : Type := mkReservation {
  rv_answer_id : Z;
  rv_revision : Z;
}.

#[export] Instance reservation_eq_dec : EqDecision reservation.
Proof. solve_decision. Defined.

Definition reservation_json (r : reservation) : json :=
  JObj [("answer_id", JInt (rv_answer_id r)); ("revision", JInt (rv_revision r))].

(** [None]: no request, or one without an answer or a generation. *)
Definition reservation_of (j : option json) : option reservation :=
  match j with
  | Some (JObj o) =>
      match alist_get "answer_id" o, alist_get "revision" o with
      | Some (JInt i), Some (JInt r) => Some (mkReservation i r)
      | _, _ => None
      end
  | _ => None
  end.

(** [payload.get(k) or {}] *)
Definition object_at (k : string) (p : jobject) : list (string * json) :=
  match p !! k with Some (JObj o) => o | _ => [] end.

Definition custom_id (job : Z) (key : string) : string := pretty job ++ "|" ++ key.

(** What a run drafts for: the reservation and the question as it stands. *)
Record selected_request : Type := mkSelected {
  sl_id : string;
  sl_reservation : reservation;
  sl_question : string;
}.

Definition of_user (user : Z) (_ : Z) (a : app_answer) : bool := aa_user_id a =? user.

Definition DRAFT_STATUSES : list status := [Pending; Running; AwaitingBatch; Waiting].

(** An [application_draft] of the person's for the posting that is not over. *)
Definition draft_running (user job : Z) (m : gmap Z task) : bool :=
  exists_where (λ _ t, String.eqb (t_kind t) "application_draft" && status_in DRAFT_STATUSES t &&
                       bool_decide (obj_int (t_payload t) "user_id" = Some user) &&
                       bool_decide (obj_int (t_payload t) "job_id" = Some job)) m.

(** The loop's state: the answers, the requests and what was selected. *)
Record reserving : Type := mkReserving {
  rs_answers : gmap Z app_answer;
  rs_requests : list (string * json);
  rs_selected : list selected_request;
}.

(** One turn of the loop, for the answer with this id as it was read. *)
Definition reserve_one (kind : string) (results : list (string * json)) (queue : gmap Z task) (user : Z)
    (s : reserving) (ia : Z * app_answer) : reserving :=
  let '(i, a) := ia in
  let id := custom_id (aa_job_id a) (aa_key a) in
  if bool_decide (is_Some (alist_get id results)) then s
  else
    match alist_get id (rs_requests s) with
    | Some saved =>
        if bool_decide (reservation_of (Some saved) = Some (mkReservation i (aa_draft_revision a)))
        then mkReserving (rs_answers s) (rs_requests s)
               (rs_selected s ++ [mkSelected id (mkReservation i (aa_draft_revision a)) (aa_question a)])%list
        else s
    | None =>
        if String.eqb kind "application_sweep" &&
           (bool_decide (is_Some (aa_draft a)) || match aa_turns a with [] => false | _ => true end || draft_running user (aa_job_id a) queue)
        then s
        else
          let r := mkReservation i (aa_draft_revision a + 1) in
          mkReserving (<[i := bump a]> (rs_answers s)) (alist_set id (reservation_json r) (rs_requests s))
            (rs_selected s ++ [mkSelected id r (aa_question a)])%list
    end.

(** The rows a task drafts when none are given. *)
Definition default_rows (user : Z) (p : jobject) (m : gmap Z app_answer) : list (Z * string) :=
  match obj_int p "job_id" with
  | None => []
  | Some job =>
      let keys := match p !! "keys" with Some j => if truthy j then Some (json_strings j) else None | None => None end in
      omap (λ i, (λ a, (aa_job_id a, aa_key a)) <$> m !! i)
        (ids_where (λ _ a, (aa_user_id a =? user) && (aa_job_id a =? job) &&
                           match keys with Some ks => mem (aa_key a) ks | None => true end) m)
  end.

(** [None] is a LookupError: the task is gone. *)
Definition reserve_task (tid user : Z) (rows : option (list (Z * string))) (d : desk)
    : desk * option (list selected_request) :=
  match tasks (dk_queue d) !! tid with
  | None => (d, None)
  | Some t =>
      let p := t_payload t in
      let wanted := default (default_rows user p (dk_answers d)) rows in
      let answers := omap (λ i, pair i <$> dk_answers d !! i)
        (ids_where (λ _ a, (aa_user_id a =? user) && mem (aa_job_id a, aa_key a) wanted) (dk_answers d)) in
      let s := foldl (reserve_one (t_kind t) (object_at "draft_results" p) (tasks (dk_queue d)) user)
                 (mkReserving (dk_answers d) (object_at "draft_requests" p) []) answers in
      (with_tasks (merge_payload tid {[ "draft_requests" := JObj (rs_requests s) ]} [] (dk_queue d))
         (with_answers (rs_answers s) d), Some (rs_selected s))
  end.

(** ** Results *)

(** [budget.record_tokens]: a live call is written to the ledger. *)
Definition record_tokens (user : Z) (key_source : string) (model : option string) (total_tokens : option Z)
    (batched : bool) (d : desk) : desk :=
  match total_tokens with
  | Some n =>
      if (n =? 0) || batched then d
      else with_calls (dk_calls d ++ [mkDraftCall user key_source model n])%list d
  | None => d
  end.

Definition writes_where (user : Z) (r : reservation) (i : Z) (a : app_answer) : bool :=
  (i =? rv_answer_id r) && (aa_user_id a =? user) && (aa_draft_revision a =? rv_revision r).

Definition apply_result (user : Z) (request : option json) (answer : option string) (total_tokens : option Z)
    (key_source : string) (model : option string) (kind : string) (batched : bool) (now : Z) (d : desk)
    : desk * string :=
  let d := record_tokens user key_source model total_tokens batched d in
  match answer with
  | None => (d, "failed")
  | Some text =>
      match reservation_of request with
      | None => (d, "unknown_request")
      | Some r =>
          let P := writes_where user r in
          let written := negb (count_where P (dk_answers d) =? 0)%nat in
          (with_answers
             (update_where P (λ a, bump (set_draft (Some text) model [mkTurn "assistant" kind text now] now a))
                (dk_answers d)) d,
           if written then "written" else "superseded")
      end
  end.

(** [None] is a LookupError: the task is gone. *)
Definition record_result (tid user : Z) (id : string) (answer : option string) (total_tokens : option Z)
    (key_source : string) (model : option string) (kind : string) (batched : bool) (now : Z) (d : desk)
    : desk * option nat :=
  match tasks (dk_queue d) !! tid with
  | None => (d, None)
  | Some t =>
      let recorded := object_at "draft_results" (t_payload t) in
      if bool_decide (is_Some (alist_get id recorded)) then (d, Some 0%nat)
      else
        let '(d, outcome) := apply_result user (alist_get id (object_at "draft_requests" (t_payload t))) answer
                               total_tokens key_source model kind batched now d in
        (with_tasks (merge_payload tid {[ "draft_results" := JObj (alist_set id (JStr outcome) recorded) ]} []
                       (dk_queue d)) d,
         Some (if String.eqb outcome "written" then 1%nat else 0%nat))
  end.

(** The live path: one call per request, in order, each recorded before the next. *)
Fixpoint draft_live (tid user : Z) (key_source : string) (model : option string) (kind : string) (now : Z)
    (answers : list (string * option string * option Z)) (d : desk) (done : nat) : desk * option nat :=
  match answers with
  | [] => (d, Some done)
  | (id, answer, tokens) :: rest =>
      match record_result tid user id answer tokens key_source model kind false now d with
      | (d, None) => (d, None)
      | (d, Some n) => draft_live tid user key_source model kind now rest d (done + n)%nat
      end
  end.

(** The rows that get a request, in the order given. *)
Definition requests_for (reserved : list selected_request) (rows : list (Z * string)) : list selected_request :=
  omap (λ jk : Z * string, find (λ s, String.eqb (sl_id s) (custom_id jk.1 jk.2)) reserved) rows.

(** ** The questions of a form ([ensure_answer_rows]) *)

Record question : Type := mkQuestion {
  q_key : string;
  q_label : string;
  q_required : bool;
  q_long : bool;
}.

Definition key_le (a b : question) : Prop := String.leb (q_key a) (q_key b) = true.

#[export] Instance key_le_dec : RelDecision key_le.
Proof. intros a b. unfold key_le. apply _. Defined.

Definition row_of (user job : Z) (key : string) (m : gmap Z app_answer) : option Z :=
  head (ids_where (λ _ a, (aa_user_id a =? user) && (aa_job_id a =? job) && String.eqb (aa_key a) key) m).

(** The generation a task holds for a question. *)
Definition owned_revision (requests : list (string * json)) (job : Z) (key : string) : option Z :=
  rv_revision <$> reservation_of (alist_get (custom_id job key) requests).

(** DO UPDATE: a changed question opens a generation unless the task holds this one. *)
Definition asked_again (owned : option Z) (q : question) (a : app_answer) : app_answer :=
  let changed := negb (String.eqb (aa_question a) (q_label q)) &&
                 negb (bool_decide (owned = Some (aa_draft_revision a))) in
  set_question (q_label q) (q_required q) (if changed then bump a else a).

Definition new_answer (user job : Z) (key question source : string) (required : bool) (now : Z) : app_answer :=
  mkAppAnswer user job key question source required 0 None [] None now.

(** The INSERT takes an id whether it inserts or not. *)
Definition ensure_row (user job now : Z) (requests : list (string * json)) (d : desk) (q : question) : desk :=
  let m := dk_answers d in
  mkDesk
    (match row_of user job (q_key q) m with
     | Some i => alter (asked_again (owned_revision requests job (q_key q)) q) i m
     | None => <[dk_next d := new_answer user job (q_key q) (q_label q) "form" (q_required q) now]> m
     end)
    (dk_next d + 1) (dk_queue d) (dk_calls d).

Definition ensure_answer_rows (user job : Z) (questions : list question) (task_id : option Z) (now : Z)
    (d : desk) : desk :=
  let requests := match task_id ≫= (λ i, tasks (dk_queue d) !! i) with
                  | Some t => object_at "draft_requests" (t_payload t)
                  | None => []
                  end in
  foldl (ensure_row user job now requests) d (merge_sort key_le questions).

(** ** The person's own requests ([api.routers.application_answers]) *)

Definition mine (user job : Z) (key : string) (_ : Z) (a : app_answer) : bool :=
  (aa_user_id a =? user) && (aa_job_id a =? job) && String.eqb (aa_key a) key.

Section pasted.
Context (sha1 : string → string).

Definition add_question (user job : Z) (text : string) (required : bool) (now : Z) (d : desk) : desk :=
  let text := String.concat " " (runs (λ c, negb (is_space c)) text) in
  let key := "m" ++ str_take 10 (sha1 (lower text)) in
  let m := dk_answers d in
  mkDesk
    (match row_of user job key m with
     | Some i => alter (λ a, set_question (aa_question a) required a) i m
     | None => <[dk_next d := new_answer user job key text "manual" required now]> m
     end)
    (dk_next d + 1) (dk_queue d) (dk_calls d).
End pasted.

Definition delete_question (user job : Z) (key : string) (d : desk) : desk :=
  with_answers
    (map_imap (λ i a, if mine user job key i a && String.eqb (aa_source a) "manual" then None else Some a)
       (dk_answers d)) d.

(** NULLIF: an empty draft clears it. *)
Definition put_answer (user job : Z) (key draft : string) (now : Z) (d : desk) : desk :=
  with_answers
    (update_where (mine user job key)
       (λ a, bump (set_draft (if String.eqb draft "" then None else Some draft) (aa_model a)
                     [mkTurn "user" "edit" draft now] now a)) (dk_answers d)) d.

(** A refinement first takes a generation, with the instruction as a turn. *)
Definition refine_hold (user job : Z) (key instruction : string) (now : Z) (d : desk) : desk * option app_answer :=
  let d := with_answers
             (update_where (mine user job key)
                (λ a, bump (set_draft (aa_draft a) (aa_model a) [mkTurn "user" "instruction" instruction now] now a))
                (dk_answers d)) d in
  (d, row_of user job key (dk_answers d) ≫= (λ i, dk_answers d !! i)).

(** Then it writes its answer on that generation; [false] is ANSWER_CHANGED. *)
Definition refine_write (user job : Z) (key : string) (held : Z) (answer model : string) (now : Z) (d : desk)
    : desk * bool :=
  let P i a := mine user job key i a && (aa_draft_revision a =? held) in
  (with_answers
     (update_where P (λ a, bump (set_draft (Some answer) (Some model) [mkTurn "assistant" "refine" answer now] now a))
        (dk_answers d)) d,
   negb (count_where P (dk_answers d) =? 0)%nat).

(** ** Admission of a draft ([task_admission.enqueue]) *)

Inductive draft_admission : Type :=
| SubjectGone
| DraftConflict (id : Z)
| DraftQueued (id : Z).

Definition draft_in_flight (user job : Z) (m : gmap Z task) : option Z :=
  last (ids_where (λ _ t, String.eqb (t_kind t) "application_draft" && status_in DRAFT_STATUSES t &&
                          bool_decide (obj_int (t_payload t) "user_id" = Some user) &&
                          bool_decide (obj_int (t_payload t) "job_id" = Some job)) m).

(** One transaction, under the posting's row lock; the rows are reserved before it commits. *)
Definition enqueue_draft (job_exists : bool) (user job : Z) (payload : jobject) (now : Z) (d : desk)
    : desk * draft_admission :=
  if negb job_exists then (d, SubjectGone)
  else
    match draft_in_flight user job (tasks (dk_queue d)) with
    | Some i => (d, DraftConflict i)
    | None =>
        let subject : jobject := {[ "user_id" := JInt user; "job_id" := JInt job ]} in
        let '(w, row) := enqueue now "application_draft" (subject ∪ payload) None (dk_queue d) in
        match row with
        | Some i => ((reserve_task i user None (with_tasks w d)).1, DraftQueued i)
        | None => (d, SubjectGone)
        end
    end.

(** ** The sweep *)

Definition _earlier_sweep (tid user now : Z) (m : gmap Z task) : bool :=
  exists_where (λ i t, String.eqb (t_kind t) "application_sweep" && negb (i =? tid) &&
                       status_in DRAFT_STATUSES t &&
                       bool_decide (obj_int (t_payload t) "user_id" = Some user) && (i <? tid) &&
                       (now - DAY <? t_created_at t)) m.

(** On unless the person turned it off. *)
Definition auto_draft (prefs : jobject) : bool :=
  match prefs !! "auto_draft" with
  | Some (JBool false) => false
  | Some (JStr s) => negb (String.eqb s "false")
  | _ => true
  end.

(** Newest posting first, then in the answers' order; [created] holds the postings still on
    the person's board. *)
Definition newer_first (x y : Z * Z) : Prop := y.1 < x.1 ∨ x.1 = y.1 ∧ x.2 <= y.2.

#[export] Instance newer_first_dec : RelDecision newer_first.
Proof. intros x y. unfold newer_first. apply _. Defined.

Definition _undrafted_rows (user : Z) (created : gmap Z Z) (cap : nat) (m : gmap Z app_answer)
    : list (Z * string) :=
  let undrafted := omap (λ i, a ← m !! i; t ← created !! aa_job_id a; Some (t, i))
    (ids_where (λ _ a, (aa_user_id a =? user) && bool_decide (aa_draft a = None)) m) in
  omap (λ ti : Z * Z, (λ a, (aa_job_id a, aa_key a)) <$> m !! ti.2) (take cap (merge_sort newer_first undrafted)).

(** ** The desk as everyone uses it *)

Inductive desk_step : desk → desk → Prop :=
| ds_queue d w : desk_step d (with_tasks w d)
| ds_reserve d tid user rows : desk_step d (reserve_task tid user rows d).1
| ds_apply d user request answer tokens key_source model kind batched now :
    desk_step d (apply_result user request answer tokens key_source model kind batched now d).1
| ds_record d tid user id answer tokens key_source model kind batched now :
    desk_step d (record_result tid user id answer tokens key_source model kind batched now d).1
| ds_ensure d user job questions task_id now :
    desk_step d (ensure_answer_rows user job questions task_id now d)
| ds_add d sha1 user job text required now : desk_step d (add_question sha1 user job text required now d)
| ds_delete d user job key : desk_step d (delete_question user job key d)
| ds_put d user job key draft now : desk_step d (put_answer user job key draft now d)
| ds_hold d user job key instruction now : desk_step d (refine_hold user job key instruction now d).1
| ds_write d user job key held answer model now :
    desk_step d (refine_write user job key held answer model now d).1
| ds_enqueue d exists_ user job payload now :
    desk_step d (enqueue_draft exists_ user job payload now d).1.
