(* ===== verification/DraftProps.v ===== *)
(** * What drafts of answers promise ([Drafts]) *)

From S2P Require Import Prelude PyStr Sql Tasks Queue Drafts.

Local Open Scope string_scope.
Local Open Scope list_scope.
Local Open Scope Z_scope.

(** ** Generations only rise *)

(** The row stays the same question of the same person, and keeps its draft while it keeps
    its generation. *)
Record answer_kept (a b : app_answer) : Prop := mkAnswerKept {
  ak_user : aa_user_id b = aa_user_id a;
  ak_job : aa_job_id b = aa_job_id a;
  ak_key : aa_key b = aa_key a;
  ak_revision : aa_draft_revision a <= aa_draft_revision b;
  ak_draft : aa_draft_revision b = aa_draft_revision a → aa_draft b = aa_draft a ∧ aa_turns b = aa_turns a;
}.

#[export] Instance answer_kept_preorder : PreOrder answer_kept.
Proof.
  split; [intros a; split; auto; lia|]. intros a b c [U1 J1 K1 R1 D1] [U2 J2 K2 R2 D2]. split; [congruence..|lia|].
  intros E. destruct D1 as [D T]; [lia|]. destruct D2 as [D' T']; [lia|]. split; congruence.
Qed.

Lemma kept_bump a b :
  aa_user_id b = aa_user_id a → aa_job_id b = aa_job_id a → aa_key b = aa_key a →
  aa_draft_revision b = aa_draft_revision a + 1 → answer_kept a b.
Proof. intros. split; [done..|lia|lia]. Qed.

Definition desk_kept (d d' : desk) : Prop :=
  dk_next d <= dk_next d' ∧
  ∀ i b, dk_answers d' !! i = Some b → dk_next d <= i < dk_next d' ∨ ∃ a, dk_answers d !! i = Some a ∧ answer_kept a b.

#[export] Instance desk_kept_preorder : PreOrder desk_kept.
Proof.
  split.
  - intros d. split; [lia|]. intros i b Hb. right. by exists b.
  - intros d1 d2 d3 [N1 H1] [N2 H2]. split; [lia|]. intros i c Hc.
    destruct (H2 i c Hc) as [?|(b & Hb & Kb)]; [left; lia|].
    destruct (H1 i b Hb) as [?|(a & Ha & Ka)]; [left; lia|]. right. exists a. split; [done|by etrans].
Qed.

Lemma kept_same_answers d d' : dk_answers d' = dk_answers d → dk_next d' = dk_next d → desk_kept d d'.
Proof. intros Ha Hn. split; [lia|]. intros i b. rewrite Ha. intros Hb. right. by exists b. Qed.

Lemma kept_update d P f :
  (∀ a, answer_kept a (f a)) → desk_kept d (with_answers (update_where P f (dk_answers d)) d).
Proof.
  intros Hf. split; [simpl; lia|]. intros i b. simpl. rewrite lookup_update_where. intros (a & Ha & ->)%fmap_Some.
  right. exists a. split; [done|]. by destruct (P i a).
Qed.

Lemma kept_alter d n i f m :
  m = dk_answers d → dk_next d <= n → (∀ a, answer_kept a (f a)) →
  desk_kept d (mkDesk (alter f i m) n (dk_queue d) (dk_calls d)).
Proof.
  intros -> Hn Hf. split; [done|]. intros j b. simpl. rewrite lookup_alter. intros Hb. right.
  destruct (decide (i = j)) as [->|]; [|exists b; by split]. apply fmap_Some in Hb as (a & Ha & ->). by exists a.
Qed.

Lemma kept_insert d x :
  desk_kept d (mkDesk (<[dk_next d := x]> (dk_answers d)) (dk_next d + 1) (dk_queue d) (dk_calls d)).
Proof.
  split; [simpl; lia|]. intros j b. simpl. intros [[<- _]|[_ Hb]]%lookup_insert_Some; [left; lia|]. right. by exists b.
Qed.

Lemma reserve_one_kept kind results queue user s ia :
  rs_answers s !! ia.1 = Some ia.2 →
  ∀ i b, rs_answers (reserve_one kind results queue user s ia) !! i = Some b →
    ∃ a, rs_answers s !! i = Some a ∧ answer_kept a b.
Proof.
  destruct ia as [i a]. simpl. intros Hi j b.
  destruct (bool_decide _); [intros Hb; by exists b|]. destruct (alist_get _ _); [destruct (bool_decide _); intros Hb; by exists b|].
  destruct (_ && _); [intros Hb; by exists b|]. simpl. intros [[<- <-]|[_ Hb]]%lookup_insert_Some; [|by exists b].
  exists a. split; [done|]. by apply kept_bump.
Qed.

(** The answers read for the loop are the rows it updates. *)
Lemma reserve_one_others kind results queue user s ia j :
  j ≠ ia.1 → rs_answers (reserve_one kind results queue user s ia) !! j = rs_answers s !! j.
Proof.
  destruct ia as [i a]. simpl. intros Hj. destruct (bool_decide _); [done|].
  destruct (alist_get _ _); [by destruct (bool_decide _)|]. destruct (_ && _); [done|]. simpl. by rewrite lookup_insert_ne.
Qed.

Lemma reserve_all_kept kind results queue user l s :
  NoDup l.*1 → (∀ ia, ia ∈ l → rs_answers s !! ia.1 = Some ia.2) →
  ∀ i b, rs_answers (foldl (reserve_one kind results queue user) s l) !! i = Some b →
    ∃ a, rs_answers s !! i = Some a ∧ answer_kept a b.
Proof.
  revert s. induction l as [|ia l IH]; intros s Hnd Hl i b; [intros Hb; by exists b|]. csimpl in Hnd.
  apply NoDup_cons in Hnd as [Hia Hnd]. intros Hb.
  apply (IH (reserve_one kind results queue user s ia)) in Hb as (a' & Ha' & K'); [|done|].
  - apply reserve_one_kept in Ha' as (a & Ha & K); [|apply Hl; by left]. exists a. split; [done|by etrans].
  - intros ja Hj. rewrite reserve_one_others; [apply Hl; by right|]. intros E. apply Hia, list_elem_of_fmap. by exists ja.
Qed.

(** What the loop starts from. *)
Definition read_for (user : Z) (wanted : list (Z * string)) (m : gmap Z app_answer) : list (Z * app_answer) :=
  omap (λ i, pair i <$> m !! i)
    (ids_where (λ _ a, (aa_user_id a =? user) && mem (aa_job_id a, aa_key a) wanted) m).

Lemma read_for_elem user wanted m ia : ia ∈ read_for user wanted m → m !! ia.1 = Some ia.2 ∧ aa_user_id ia.2 = user.
Proof.
  unfold read_for. intros (i & Hi & (a & Ha & ->)%fmap_Some)%list_elem_of_omap. split; [done|].
  apply elem_of_ids_where in Hi as (a' & Ha' & [Hu _]%andb_true_iff). simpl. apply Z.eqb_eq in Hu. congruence.
Qed.

Lemma read_for_NoDup user wanted m : NoDup (read_for user wanted m).*1.
Proof.
  unfold read_for. pose proof (NoDup_ids_where (λ _ a, (aa_user_id a =? user) && mem (aa_job_id a, aa_key a) wanted) m) as Hnd.
  induction Hnd as [|i l Hi Hnd IH]; csimpl; [constructor|]. destruct (m !! i) as [a|] eqn:E; csimpl; [|done].
  constructor; [|done]. intros ([j b] & -> & Hj)%list_elem_of_fmap. apply list_elem_of_omap in Hj as (k & Hk & (x & Hx & Heq)%fmap_Some).
  by simplify_eq.
Qed.

Lemma reserve_kept tid user rows d : desk_kept d (reserve_task tid user rows d).1.
Proof.
  unfold reserve_task. destruct (tasks (dk_queue d) !! tid) as [t|]; [|reflexivity]. simpl.
  split; [simpl; lia|]. intros i b Hb. right. simpl in Hb. eapply reserve_all_kept in Hb; [exact Hb|apply read_for_NoDup|].
  intros ia Hia. by apply read_for_elem in Hia as [? _].
Qed.

Lemma record_tokens_kept user ks model tokens batched d : desk_kept d (record_tokens user ks model tokens batched d).
Proof. unfold record_tokens. destruct tokens; [|reflexivity]. destruct (_ || _); [reflexivity|]. by apply kept_same_answers. Qed.

Lemma apply_kept user request answer tokens ks model kind batched now d :
  desk_kept d (apply_result user request answer tokens ks model kind batched now d).1.
Proof.
  unfold apply_result. etrans; [apply (record_tokens_kept user ks model tokens batched)|].
  destruct answer; [|reflexivity]. destruct (reservation_of request); [|reflexivity]. apply kept_update. intros a. by apply kept_bump.
Qed.

Lemma ensure_row_kept user job now requests d q : desk_kept d (ensure_row user job now requests d q).
Proof.
  unfold ensure_row. destruct (row_of _ _ _ _) as [i|]; [|apply kept_insert]. apply kept_alter; [done|lia|].
  intros a. unfold asked_again. destruct (_ && _); [by apply kept_bump|]. split; simpl; auto; lia.
Qed.

Lemma ensure_kept user job questions task_id now d : desk_kept d (ensure_answer_rows user job questions task_id now d).
Proof.
  unfold ensure_answer_rows. match goal with |- context [ensure_row user job now ?r] => generalize r end.
  intros requests. generalize (merge_sort key_le questions). intros l. revert d.
  induction l as [|q l IH]; intros d; simpl; [reflexivity|]. etrans; [apply ensure_row_kept|apply IH].
Qed.

Lemma record_kept tid user id answer tokens ks model kind batched now d :
  desk_kept d (record_result tid user id answer tokens ks model kind batched now d).1.
Proof.
  unfold record_result. destruct (tasks (dk_queue d) !! tid) as [t|]; [|reflexivity]. simpl.
  destruct (bool_decide _); [reflexivity|].
  pose proof (apply_kept user (alist_get id (object_at "draft_requests" (t_payload t))) answer tokens ks model kind batched now d) as H.
  destruct (apply_result _ _ _ _ _ _ _ _ _ _) as [d' outcome]. simpl in *. etrans; [exact H|by apply kept_same_answers].
Qed.

Lemma add_kept sha1 user job text required now d : desk_kept d (add_question sha1 user job text required now d).
Proof.
  unfold add_question. destruct (row_of _ _ _ _) as [i|]; [|apply kept_insert]. apply kept_alter; [done|lia|].
  intros a. split; simpl; auto; lia.
Qed.

Lemma delete_kept user job key d : desk_kept d (delete_question user job key d).
Proof.
  split; [simpl; lia|]. intros i b. simpl. rewrite map_lookup_imap. intros (a & Ha & Hb)%bind_Some. right. exists a.
  split; [done|]. destruct (_ && _); [done|]. by injection Hb as <-.
Qed.

Lemma enqueue_draft_kept e user job payload now d : desk_kept d (enqueue_draft e user job payload now d).1.
Proof.
  unfold enqueue_draft. destruct (negb e); [reflexivity|]. destruct (draft_in_flight _ _ _); [reflexivity|].
  destruct (enqueue _ _ _ _ _) as [w [i|]]; [|reflexivity]. simpl.
  etrans; [apply (kept_same_answers d (with_tasks w d)); done|apply reserve_kept].
Qed.

Lemma desk_step_kept d d' : desk_step d d' → desk_kept d d'.
Proof.
  destruct 1; [by apply kept_same_answers|apply reserve_kept|apply apply_kept|apply record_kept|apply ensure_kept
    |apply add_kept|apply delete_kept| | | |apply enqueue_draft_kept].
  all: apply kept_update; intros a; by apply kept_bump.
Qed.

Lemma desk_run_kept d d' : rtc desk_step d d' → desk_kept d d'.
Proof. induction 1 as [|x y z Hxy _ IH]; [reflexivity|]. etrans; [by apply desk_step_kept|done]. Qed.

(** ** What a reservation holds *)

Definition holds (user : Z) (m : gmap Z app_answer) (s : selected_request) : Prop :=
  ∃ a, m !! rv_answer_id (sl_reservation s) = Some a ∧ aa_user_id a = user ∧
       aa_draft_revision a = rv_revision (sl_reservation s) ∧ aa_question a = sl_question s.

Lemma reserve_all_holds kind results queue user l s :
  NoDup l.*1 → (∀ ia, ia ∈ l → rs_answers s !! ia.1 = Some ia.2 ∧ aa_user_id ia.2 = user) →
  (∀ x, x ∈ rs_selected s → holds user (rs_answers s) x ∧ rv_answer_id (sl_reservation x) ∉ l.*1) →
  ∀ x, x ∈ rs_selected (foldl (reserve_one kind results queue user) s l) →
    holds user (rs_answers (foldl (reserve_one kind results queue user) s l)) x.
Proof.
  revert s. induction l as [|[i a] l IH]; intros s Hnd Hl Hs x Hx; [by apply Hs|]. csimpl in Hnd.
  apply NoDup_cons in Hnd as [Hia Hnd]. destruct (Hl (i, a)) as [Hi Hu]; [by left|]. simpl in Hi, Hu.
  apply IH; [done| |clear x Hx|exact Hx].
  - intros ja Hj. rewrite reserve_one_others; [apply Hl; by right|]. intros E. apply Hia, list_elem_of_fmap. by exists ja.
  - assert (Hold : ∀ x, x ∈ rs_selected s → holds user (rs_answers (reserve_one kind results queue user s (i, a))) x ∧
                     rv_answer_id (sl_reservation x) ∉ l.*1).
    { intros x Hx. destruct (Hs x Hx) as [(b & Hb & Hrest) Hn]. csimpl in Hn. apply not_elem_of_cons in Hn as [Hne Hn].
      split; [|done]. exists b. by rewrite reserve_one_others. }
    intros x. revert Hold. simpl. destruct (bool_decide _); [auto|]. destruct (alist_get _ _).
    + destruct (bool_decide _); simpl; [|auto]. intros Hold [Hx|Hx]%elem_of_app; [auto|].
      apply list_elem_of_singleton in Hx as ->. split; [|done]. by exists a.
    + destruct (_ && _); simpl; [auto|]. intros Hold [Hx|Hx]%elem_of_app; [auto|].
      apply list_elem_of_singleton in Hx as ->. split; [|done]. exists (bump a). by rewrite lookup_insert_eq.
Qed.

Lemma reserve_holds tid user rows d d' sel s :
  reserve_task tid user rows d = (d', Some sel) → s ∈ sel → holds user (dk_answers d') s.
Proof.
  unfold reserve_task. destruct (tasks (dk_queue d) !! tid) as [t|]; [|done]. intros [= <- <-] Hs. simpl.
  eapply reserve_all_holds in Hs; [exact Hs|apply read_for_NoDup| |by intros ? ?%elem_of_nil].
  intros ia Hia. by apply read_for_elem in Hia.
Qed.

(** ** Applying a result *)

Lemma reservation_roundtrip r : reservation_of (Some (reservation_json r)) = Some r.
Proof. by destruct r. Qed.

(** Whether the reserved generation is still the row's. *)
Definition current (user : Z) (r : reservation) (m : gmap Z app_answer) : Prop :=
  ∃ a, m !! rv_answer_id r = Some a ∧ aa_user_id a = user ∧ aa_draft_revision a = rv_revision r.

Lemma apply_outcome user r text tokens ks model kind batched now d :
  let '(d', outcome) := apply_result user (Some (reservation_json r)) (Some text) tokens ks model kind batched now d in
  (∀ i, i ≠ rv_answer_id r → dk_answers d' !! i = dk_answers d !! i) ∧ dk_next d' = dk_next d ∧
  ((∃ a, dk_answers d !! rv_answer_id r = Some a ∧ aa_user_id a = user ∧ aa_draft_revision a = rv_revision r ∧
      outcome = "written" ∧
      dk_answers d' !! rv_answer_id r =
        Some (bump (set_draft (Some text) model [mkTurn "assistant" kind text now] now a))) ∨
   ¬ current user r (dk_answers d) ∧ outcome = "superseded" ∧ dk_answers d' = dk_answers d).
Proof.
  unfold apply_result. rewrite reservation_roundtrip.
  assert (Ht : ∀ d, dk_answers (record_tokens user ks model tokens batched d) = dk_answers d ∧
                    dk_next (record_tokens user ks model tokens batched d) = dk_next d).
  { intros x. unfold record_tokens. destruct tokens; [|done]. by destruct (_ || _). }
  destruct (Ht d) as [Ha Hn]. simpl. rewrite Ha, Hn. set (P := writes_where user r).
  assert (HP : ∀ i a, P i a = true ↔ i = rv_answer_id r ∧ aa_user_id a = user ∧ aa_draft_revision a = rv_revision r).
  { intros i a. unfold P, writes_where. rewrite !andb_true_iff, !Z.eqb_eq. tauto. }
  split_and!; [|done|].
  - intros i Hi. rewrite lookup_update_where. destruct (dk_answers d !! i) as [a|]; [|done]. simpl.
    destruct (P i a) eqn:E; [by apply HP in E as [? _]|done].
  - destruct (Nat.eqb_spec (count_where P (dk_answers d)) 0) as [Hz|Hz]; simpl.
    + right. rewrite count_where_zero in Hz. split_and!; [|done|by apply update_where_none].
      intros (a & Hi & Hu & Hr). specialize (Hz _ _ Hi). rewrite (proj2 (HP _ _)) in Hz by done. done.
    + left. destruct (exists_where P (dk_answers d)) eqn:Ex.
      * apply exists_where_true in Ex as (i & a & Hi & (-> & Hu & Hr)%HP). exists a. split_and!; try done.
        rewrite lookup_update_where, Hi. simpl. by rewrite (proj2 (HP _ _)).
      * exfalso. apply Hz, count_where_zero. by apply exists_where_false.
Qed.

(** ** Generations and results *)

(** Ids come from the identity column. *)
Definition answers_ok (d : desk) : Prop := ∀ i a, dk_answers d !! i = Some a → i < dk_next d.

Lemma answers_ok_kept d d' : answers_ok d → desk_kept d d' → answers_ok d'.
Proof.
  intros Hok [Hn H] i b Hb. destruct (H i b Hb) as [?|(a & Ha & _)]; [lia|]. specialize (Hok i a Ha). lia.
Qed.

(** A row that an id names later was there, if the id was taken. *)
Lemma kept_row d d' i b :
  desk_kept d d' → i < dk_next d → dk_answers d' !! i = Some b → ∃ a, dk_answers d !! i = Some a ∧ answer_kept a b.
Proof. intros [_ H] Hi Hb. destruct (H i b Hb) as [?|?]; [lia|done]. Qed.

(** Once a row is past a generation, no result for that generation is applied again. *)
Lemma past_is_superseded user r d d' text tokens ks model kind batched now :
  desk_kept d d' → rv_answer_id r < dk_next d →
  (∀ a, dk_answers d !! rv_answer_id r = Some a → rv_revision r < aa_draft_revision a) →
  (apply_result user (Some (reservation_json r)) (Some text) tokens ks model kind batched now d').2 = "superseded" ∧
  dk_answers (apply_result user (Some (reservation_json r)) (Some text) tokens ks model kind batched now d').1 =
    dk_answers d'.
Proof.
  intros Hk Hi Hpast. pose proof (apply_outcome user r text tokens ks model kind batched now d') as H.
  destruct (apply_result _ _ _ _ _ _ _ _ _ d') as [d3 o]. destruct H as (_ & _ & [(a & Ha & _ & Hr & _)|(_ & -> & Hsame)]); [|done].
  exfalso. destruct (kept_row _ _ _ _ Hk Hi Ha) as (a0 & Ha0 & K). specialize (Hpast a0 Ha0). pose proof (ak_revision _ _ K). lia.
Qed.

(** a draft lands only on the generation it was reserved for. Whatever happens between a
    task's reservation and its result, when the result is written the answer still has the
    draft and the turns it had when it was reserved, the result becomes its draft and its last
    turn, no other answer changes, and no result for the same generation is written again. *)
Theorem draft_lands_on_its_generation tid user rows d0 d1 sel s d2 text tokens ks model kind batched now d3 :
  answers_ok d0 → reserve_task tid user rows d0 = (d1, Some sel) → s ∈ sel → rtc desk_step d1 d2 →
  apply_result user (Some (reservation_json (sl_reservation s))) (Some text) tokens ks model kind batched now d2 =
    (d3, "written") →
  (∃ a1 a3, dk_answers d1 !! rv_answer_id (sl_reservation s) = Some a1 ∧
     dk_answers d3 !! rv_answer_id (sl_reservation s) = Some a3 ∧
     aa_draft a3 = Some text ∧ aa_turns a3 = aa_turns a1 ++ [mkTurn "assistant" kind text now] ∧
     ∃ a2, dk_answers d2 !! rv_answer_id (sl_reservation s) = Some a2 ∧ aa_draft a2 = aa_draft a1) ∧
  (∀ i, i ≠ rv_answer_id (sl_reservation s) → dk_answers d3 !! i = dk_answers d2 !! i) ∧
  (∀ d4 text' tokens' ks' model' kind' batched' now', rtc desk_step d3 d4 →
     (apply_result user (Some (reservation_json (sl_reservation s))) (Some text') tokens' ks' model' kind' batched' now' d4).2
       = "superseded").
Proof.
  intros Hok Hres Hs Hrun Happ. destruct (reserve_holds _ _ _ _ _ _ _ Hres Hs) as (a1 & H1 & _ & R1 & _).
  set (r := sl_reservation s) in *. apply desk_run_kept in Hrun.
  assert (desk_kept d0 d1) as K01 by (pose proof (reserve_kept tid user rows d0) as H; by rewrite Hres in H).
  pose proof (answers_ok_kept _ _ Hok K01) as Hok1. pose proof (answers_ok_kept _ _ Hok1 Hrun) as Hok2.
  pose proof (apply_outcome user r text tokens ks model kind batched now d2) as H. rewrite Happ in H.
  destruct H as (Hothers & Hnext & [(a2 & H2 & U2 & R2 & _ & H3)|(_ & ? & _)]); [|done].
  destruct (kept_row _ _ _ _ Hrun (Hok1 _ _ H1) H2) as (x & Hx & K). assert (x = a1) as -> by congruence.
  destruct (ak_draft _ _ K) as [D T]; [congruence|]. split_and!.
  - exists a1. eexists. split_and!; [done|exact H3|done|simpl; by rewrite T|]. by exists a2.
  - exact Hothers.
  - intros d4 text' tokens' ks' model' kind' batched' now' Hrun4%desk_run_kept. apply (past_is_superseded user r d3); [done| |].
    + rewrite Hnext. by eapply Hok2.
    + intros a Ha. rewrite H3 in Ha. injection Ha as <-. simpl. lia.
Qed.

(** The person edits the box, or asks for a refinement. *)
Definition person_takes (user job : Z) (key : string) (d d' : desk) : Prop :=
  (∃ draft now, d' = put_answer user job key draft now d) ∨
  (∃ instruction now, d' = (refine_hold user job key instruction now d).1).

Lemma takes_update user job key d d' :
  person_takes user job key d d' →
  ∃ f, d' = with_answers (update_where (mine user job key) f (dk_answers d)) d ∧
       ∀ a, aa_draft_revision (f a) = aa_draft_revision a + 1.
Proof. intros [(draft & now & ->)|(instruction & now & ->)]; eexists; by split. Qed.

(** C21: a person's edit is never overwritten by a draft asked for before it. After a task
    reserved an answer, once the person saves the box, or asks for a refinement, no result of
    that reservation is written at any later point, and applying it leaves every answer as
    it is. *)
Theorem edit_outlives_reservation tid user rows d0 d1 sel s a1 d2 d3 d4 text tokens ks model kind batched now :
  answers_ok d0 → reserve_task tid user rows d0 = (d1, Some sel) → s ∈ sel →
  dk_answers d1 !! rv_answer_id (sl_reservation s) = Some a1 →
  rtc desk_step d1 d2 → person_takes user (aa_job_id a1) (aa_key a1) d2 d3 → rtc desk_step d3 d4 →
  (apply_result user (Some (reservation_json (sl_reservation s))) (Some text) tokens ks model kind batched now d4).2
    = "superseded" ∧
  dk_answers (apply_result user (Some (reservation_json (sl_reservation s))) (Some text) tokens ks model kind batched
                now d4).1 = dk_answers d4.
Proof.
  intros Hok Hres Hs H1 Hrun (f & -> & Hf)%takes_update Hrun4%desk_run_kept.
  destruct (reserve_holds _ _ _ _ _ _ _ Hres Hs) as (x & Hx & U1 & R1 & _). assert (x = a1) as -> by congruence.
  apply desk_run_kept in Hrun.
  assert (desk_kept d0 d1) as K01 by (pose proof (reserve_kept tid user rows d0) as H; by rewrite Hres in H).
  pose proof (answers_ok_kept _ _ Hok K01) as Hok1.
  eapply past_is_superseded; [exact Hrun4| |].
  - simpl. pose proof (Hok1 _ _ H1). destruct Hrun. lia.
  - simpl. intros b. rewrite lookup_update_where. intros (a & Ha & ->)%fmap_Some.
    destruct (kept_row _ _ _ _ Hrun (Hok1 _ _ H1) Ha) as (y & Hy & K). assert (y = a1) as -> by congruence.
    assert (mine user (aa_job_id a1) (aa_key a1) (rv_answer_id (sl_reservation s)) a = true) as ->.
    { unfold mine. rewrite (ak_user _ _ K), (ak_job _ _ K), (ak_key _ _ K), !Z.eqb_refl, String.eqb_refl, U1. by rewrite Z.eqb_refl. }
    rewrite Hf. pose proof (ak_revision _ _ K). lia.
Qed.

(** *** A sweep that reserves a person's question, and the person who answers it first *)

Definition demo_desk : desk :=
  mkDesk {[ 1 := mkAppAnswer 3 8 "k" "Why us?" "form" true 0 None [] None 0 ]} 2
    (mkWorld {[ 5 := new_task 0 "application_sweep" {[ "user_id" := JInt 3 ]} None None ]} 6 []) [].

Definition demo_reserved : desk * option (list selected_request) := reserve_task 5 3 (Some [(8, "k")]) demo_desk.

Definition demo_request : selected_request := mkSelected "8|k" (mkReservation 1 1) "Why us?".

Lemma demo_reserves : demo_reserved.2 = Some [demo_request].
Proof. vm_compute. reflexivity. Qed.

Lemma demo_pair : reserve_task 5 3 (Some [(8, "k")]) demo_desk = (demo_reserved.1, Some [demo_request]).
Proof. rewrite <- demo_reserves. by destruct (reserve_task 5 3 (Some [(8, "k")]) demo_desk) eqn:E; unfold demo_reserved; rewrite E. Qed.

Lemma demo_desk_ok : answers_ok demo_desk.
Proof. intros i a. simpl. intros [<- _]%lookup_singleton_Some. reflexivity. Qed.

Lemma draft_lands_on_its_generation_witness :
  ∃ a3, dk_answers (apply_result 3 (Some (reservation_json (mkReservation 1 1))) (Some "Because") (Some 9) "owner" None
                      "sweep" true 7 demo_reserved.1).1 !! 1 = Some a3 ∧ aa_draft a3 = Some "Because".
Proof.
  destruct (draft_lands_on_its_generation 5 3 (Some [(8, "k")]) demo_desk demo_reserved.1 [demo_request] demo_request
              demo_reserved.1 "Because" (Some 9) "owner" None "sweep" true 7
              (apply_result 3 (Some (reservation_json (mkReservation 1 1))) (Some "Because") (Some 9) "owner" None
                 "sweep" true 7 demo_reserved.1).1) as [(a1 & a3 & _ & H3 & D3 & _) _].
  - exact demo_desk_ok.
  - exact demo_pair.
  - by left.
  - apply rtc_refl.
  - vm_compute. reflexivity.
  - by exists a3.
Defined.

Lemma edit_outlives_reservation_witness :
  (apply_result 3 (Some (reservation_json (mkReservation 1 1))) (Some "Because") None "owner" None "sweep" true 9
     (put_answer 3 8 "k" "My own" 8 demo_reserved.1)).2 = "superseded".
Proof.
  apply (edit_outlives_reservation 5 3 (Some [(8, "k")]) demo_desk demo_reserved.1 [demo_request] demo_request
           (mkAppAnswer 3 8 "k" "Why us?" "form" true 1 None [] None 0) demo_reserved.1
           (put_answer 3 8 "k" "My own" 8 demo_reserved.1)).
  - exact demo_desk_ok.
  - exact demo_pair.
  - by left.
  - vm_compute. reflexivity.
  - apply rtc_refl.
  - left. by exists "My own", 8.
  - apply rtc_refl.
Defined.
