(* ===== verification/VerifyTargets.v ===== *)
(** * Which postings verification reads ([api.verification_candidates], [core.volume_gate],
    the reachability predicates of [core.store])

    The targets that read new postings, the gate each target puts a posting through, and the
    gate's two spellings: one EXISTS per posting, and the stages the sweep's query runs. *)

From S2P Require Import Prelude PyStr Sql Spec Access Catalog Regex Screening Selection Verdicts Visibility RunInputs ManagedBoards FilterRuns.
From Stdlib Require Import Ascii.

Local Open Scope string_scope.
Local Open Scope Z_scope.

(** ** Reachability ([core.store]) *)

(** [user_sources] joined with the active sources, or a followed bundle. *)
Definition SUBSCRIBED_SOURCE (s : selections) (source : string) : bool :=
  existsb (λ p : Z * string, String.eqb p.2 source && active_source s p.2) (elements (user_sources s)) ||
  existsb (λ p : Z * string, bool_decide (source ∈ followed_sources s p.1)) (elements (user_source_groups s)).

Definition off_catalogue (s : selections) (source : string) : bool :=
  bool_decide (sources s !! source = None).

Definition ON_A_BOARD (i : Z) (r : runs) : bool :=
  existsb (λ p : Z * Z, p.2 =? i) (elements (r_working r)) ||
  pair_for i (b_user_jobs (r_tables r)) (λ _ _, true).

Definition AI_ELIGIBLE_JOB (i : Z) (j : job) (r : runs) : bool :=
  let s := b_selections (r_tables r) in
  SUBSCRIBED_SOURCE s (j_source j) || off_catalogue s (j_source j) || ON_A_BOARD i r.

(** ** The volume gate *)

Record VolumeGate : Type := mkVolumeGate {
  vg_scopes : list string;
  vg_window_days : Z;
  vg_audit_percent : Z;
  vg_occupation_titles : bool;
  vg_title_min_judged : Z;
  vg_source_min_judged : Z;
  vg_source_max_keep_rate : Qc;
}.

Definition default_gate : VolumeGate := mkVolumeGate [] 90 5 true 50 50 (Decimal 0).

(** [re.sub] of each run of a kind of character by one character. *)
Fixpoint squeeze (p : ascii → bool) (by_ : ascii) (inside : bool) (l : list ascii) : list ascii :=
  match l with
  | [] => []
  | c :: l =>
      if p c then if inside then squeeze p by_ true l else by_ :: squeeze p by_ true l
      else c :: squeeze p by_ false l
  end.

Definition TITLE_KEY (title : string) : string := lower (of_chars (squeeze (engine_space Postgres) " " false (chars title))).

Definition UNIT_SEPARATOR : string := String "031"%char "".

Definition recent_custom (g : VolumeGate) (now : Z) (a : answer) : bool :=
  String.eqb (a_check_type a) "custom" && (now - vg_window_days g * DAY_MICROS <=? a_created_at a).

(** The answers of the window with the posting each is about. *)
Definition judged (g : VolumeGate) (now : Z) (b : board) : list (answer * job) :=
  List.filter (recent_custom g now) (verdicts (b_answers b)) ≫= λ a,
    map (pair a) (List.filter (λ j, String.eqb (j_url j) (a_url a)) (map_to_list (b_jobs b)).*2).

Definition passed (a : answer) : bool := String.eqb (a_status a) "passed".

Definition unproductive_titles (g : VolumeGate) (now : Z) (b : board) : list string :=
  if negb (nonempty (vg_scopes g)) || (vg_title_min_judged g =? 0) then []
  else
    let key (x : answer * job) := (j_source x.2, TITLE_KEY (j_title x.2)) in
    let rows := judged g now b in
    merge_sort String.le
      (map (λ k : string * string, k.1 ++ UNIT_SEPARATOR ++ k.2)
         (List.filter (λ k, let group := List.filter (λ x, bool_decide (key x = k)) rows in
                            (vg_title_min_judged g <=? Z.of_nat (length group)) &&
                            negb (existsb (λ x, passed x.1) group))
            (remove_dups (map key rows)))).

Definition unproductive_sources (g : VolumeGate) (now : Z) (b : board) : list string :=
  if negb (nonempty (vg_scopes g)) || (vg_source_min_judged g =? 0) then []
  else
    let rows := judged g now b in
    let urls (s : string) (P : answer → bool) :=
      Z.of_nat (length (remove_dups (map (λ x : answer * job, a_url x.1)
        (List.filter (λ x, String.eqb (j_source x.2) s && P x.1) rows)))) in
    merge_sort String.le
      (List.filter (λ s, (vg_source_min_judged g <=? urls s (λ _, true)) &&
                         qleb (Decimal (urls s passed))
                           (vg_source_max_keep_rate g * Decimal (urls s (λ _, true)))%Qc)
         (remove_dups (map (λ x : answer * job, j_source x.2) rows))).

(** What [params] binds, less the screens and the pause. *)
Record gate_params : Type := mkGateParams {
  verification_reachability_gate_enabled : bool;
  volume_gate_scopes : list string;
  volume_gate_sources : list string;
  volume_gate_title_keys : list string;
  volume_gate_audit_percent : Z;
  volume_gate_titles : bool;
  title_screens : gmap string string;
}.

Definition gate_params_of (reachability : bool) (g : VolumeGate) (now : Z) (r : runs) : gate_params :=
  mkGateParams reachability (vg_scopes g) (unproductive_sources g now (r_tables r))
    (unproductive_titles g now (r_tables r)) (vg_audit_percent g) (vg_occupation_titles g)
    (d_title_screens (r_db r)).

(** ** Targets *)

Record verification_target : Type := mkTarget {
  tg_source : string;
  tg_criteria : criteria;
  tg_title_gate : option string;
  tg_prompt_hash : string;
}.

#[export] Instance target_eq_dec : EqDecision verification_target.
Proof. solve_decision. Defined.

Definition has_own_key (u : Z) (d : db) : bool :=
  match d_credentials d !! u with
  | Some c => bool_decide (is_Some (api_key_enc c))
  | None => false
  end.

Definition budgeted (gs : list string) (d : db) : bool :=
  existsb (λ g, mem g (map gb_group (d_budgets d))) gs.

Definition filter_targets (d : db) : list verification_target :=
  let t := d_tables d in
  map_to_list (d_users d) ≫= λ ug : Z * list string,
    if has_own_key ug.1 d || budgeted ug.2 d
    then elements (user_source_set (b_selections t) ug.1) ≫= λ s,
           map (λ f, mkTarget s (settings_of ug.1 t).1 None (uf_prompt_hash f))
             (List.filter (λ f, (uf_user_id f =? ug.1) && uf_enabled f) (b_filters t))
    else [].

Definition board_target (s : string) (b : managed_board) : verification_target :=
  mkTarget s (mb_criteria b) (mb_title_gate b) (mb_prompt_hash b).

Definition board_targets (d : db) : list verification_target :=
  map_to_list (d_boards d) ≫= λ ib : Z * managed_board,
    if mb_published ib.2
    then map (λ s, board_target s ib.2)
           (elements (values_of ib.1 (managed_board_sources (b_selections (d_tables d)))))
    else [].

(** UNION keeps one of each row. *)
Definition TARGETS (d : db) : list verification_target :=
  remove_dups (filter_targets d ++ board_targets d)%list.

(** ** The gate *)

Section gate.
(** PostgreSQL's [hashtext], an int4; its [abs] raises at the least one. *)
Context (hashtext : string → Z) (now : Z) (p : gate_params).

Definition _TITLE_SQL (target : verification_target) (j : job) : bool :=
  negb (skips_sql PARAMS (tg_title_gate target) (Some (j_title j)) (Some (j_source j))) &&
  negb (skips_sql PARAMS (title_screens p !! tg_prompt_hash target) (Some (j_title j)) (Some (j_source j))).

(** A fixed sample of URLs is read whatever its source or title has yielded. *)
Definition unaudited (url : string) : bool :=
  volume_gate_audit_percent p <=? Z.rem (Z.abs (hashtext url)) 100.

Definition _VOLUME_SKIP (target : verification_target) (j : job) : bool :=
  negb (mem (tg_prompt_hash target) (volume_gate_scopes p) &&
        ((mem (j_source j) (volume_gate_sources p) ||
          mem (j_source j ++ UNIT_SEPARATOR ++ TITLE_KEY (j_title j)) (volume_gate_title_keys p)) &&
         unaudited (j_url j) ||
         volume_gate_titles p &&
         skips_sql PARAMS (Some "occupation_words_v1") (Some (j_title j)) (Some (j_source j)))).

Definition EVERY_TARGET (i : Z) (j : job) (r : runs) : bool :=
  negb (verification_reachability_gate_enabled p) && AI_ELIGIBLE_JOB i j r ||
  verification_reachability_gate_enabled p &&
  (off_catalogue (b_selections (r_tables r)) (j_source j) || ON_A_BOARD i r).

Definition _PLACES : list string := ["excluded_locations"; "included_locations"].

(** The row of [SELECT DISTINCT criteria, locations], read as a posting's. *)
Definition placed_row (locations : list string) : job :=
  mkJob "" "" "" "" locations [] "" None false None None 0.

Definition _COLUMNS : list string :=
  List.filter (λ n, negb (mem n _PLACES)) (CONDITIONS 0 ∅ (json_sql no_criteria) (placed_row [])).*1.

(** ** One EXISTS per posting *)

Definition target_reads (t : gmap string location) (j : job) (target : verification_target) : bool :=
  String.eqb (tg_source target) (j_source j) &&
  criteria_admit None now t (json_sql (tg_criteria target)) j &&
  _TITLE_SQL target j && _VOLUME_SKIP target j.

Definition admitted (i : Z) (j : job) (r : runs) : bool :=
  EVERY_TARGET i j r ||
  verification_reachability_gate_enabled p &&
  existsb (target_reads (b_locations (r_tables r)) j) (TARGETS (r_db r)).

(** ** The stages *)

Record dated_row : Type := mkDated {
  dr_id : Z;
  dr_locations : list string;
  dr_source : string;
  dr_criteria : criteria;
}.

(** [SELECT DISTINCT source, criteria]. *)
Definition reader (targets : list verification_target) : list (string * criteria) :=
  remove_dups (map (λ t, (tg_source t, tg_criteria t)) targets).

Definition dated (t : gmap string location) (pool : list (Z * job)) (readers : list (string * criteria))
    : list dated_row :=
  pool ≫= λ ij : Z * job,
    map (λ sc : string * criteria, mkDated ij.1 (j_locations ij.2) sc.1 sc.2)
      (List.filter (λ sc, String.eqb sc.1 (j_source ij.2) && verification_reachability_gate_enabled p &&
                          criteria_admit (Some _COLUMNS) now t (json_sql sc.2) ij.2) readers).

Definition placed (t : gmap string location) (rows : list dated_row) : list (criteria * list string) :=
  List.filter (λ cl : criteria * list string,
                 criteria_admit (Some _PLACES) now t (json_sql cl.1) (placed_row cl.2))
    (remove_dups (map (λ d, (dr_criteria d, dr_locations d)) rows)).

Definition matched (t : gmap string location) (rows : list dated_row) : list dated_row :=
  List.filter (λ d, mem (dr_criteria d, dr_locations d) (placed t rows)) rows.

Definition targeted (targets : list verification_target) (jobs : gmap Z job) (rows : list dated_row) : list Z :=
  rows ≫= λ d, match jobs !! dr_id d with
               | None => []
               | Some j =>
                   map (λ _, dr_id d)
                     (List.filter (λ t, String.eqb (tg_source t) (dr_source d) &&
                                        bool_decide (tg_criteria t = dr_criteria d) &&
                                        _TITLE_SQL t j && _VOLUME_SKIP t j) targets)
               end.

(** [reachable(pool)], the pool given by its ids: the postings admitted, as a set. *)
Definition reachable (pool : list Z) (r : runs) : list Z :=
  let b := r_tables r in
  let rows := omap (λ i, pair i <$> b_jobs b !! i) pool in
  let targets := TARGETS (r_db r) in
  let reading := matched (b_locations b) (dated (b_locations b) rows (reader targets)) in
  remove_dups ((List.filter (λ ij : Z * job, EVERY_TARGET ij.1 ij.2 r) rows).*1 ++
               targeted targets (b_jobs b) reading)%list.

(** The postings a published board sends, for the page-text sweep. *)
Definition BOARD_READS (j : job) (d : db) : bool :=
  existsb (λ target, String.eqb (tg_source target) (j_source j) &&
                     criteria_admit None now (b_locations (d_tables d)) (json_sql (tg_criteria target)) j &&
                     _TITLE_SQL target j) (board_targets d).
End gate.

(** ** Lemmas *)

(** The columns and the places are the whole criteria. *)
Lemma criteria_stages now t b j :
  criteria_admit None now t b j =
  criteria_admit (Some _COLUMNS) now t b j && criteria_admit (Some _PLACES) now t b j.
Proof.
  unfold criteria_admit, CONDITIONS. cbn [forallb opt_test fst snd].
  assert (mem "posted_after" _COLUMNS = true) as -> by (vm_compute; reflexivity).
  assert (mem "max_age" _COLUMNS = true) as -> by (vm_compute; reflexivity).
  assert (mem "excluded_locations" _COLUMNS = false) as -> by (vm_compute; reflexivity).
  assert (mem "included_locations" _COLUMNS = false) as -> by (vm_compute; reflexivity).
  assert (mem "terms" _COLUMNS = true) as -> by (vm_compute; reflexivity).
  assert (mem "posted_after" _PLACES = false) as -> by (vm_compute; reflexivity).
  assert (mem "max_age" _PLACES = false) as -> by (vm_compute; reflexivity).
  assert (mem "excluded_locations" _PLACES = true) as -> by (vm_compute; reflexivity).
  assert (mem "included_locations" _PLACES = true) as -> by (vm_compute; reflexivity).
  assert (mem "terms" _PLACES = false) as -> by (vm_compute; reflexivity).
  simpl. rewrite !andb_true_r. repeat match goal with |- context [?x && _] => destruct x; simpl; try done end.
Qed.

(** The place checks read a posting's locations alone. *)
Lemma places_read_locations now t b j :
  criteria_admit (Some _PLACES) now t b j = criteria_admit (Some _PLACES) now t b (placed_row (j_locations j)).
Proof.
  unfold criteria_admit, CONDITIONS. cbn [forallb opt_test fst snd].
  assert (mem "posted_after" _PLACES = false) as -> by (vm_compute; reflexivity).
  assert (mem "max_age" _PLACES = false) as -> by (vm_compute; reflexivity).
  assert (mem "terms" _PLACES = false) as -> by (vm_compute; reflexivity).
  reflexivity.
Qed.
