(* ===== verification/Verification.v ===== *)
(** * Verifying postings ([core.answers], [tasks.verification], [core.near_copy])

    What a check asks in one request: the instructions, the key each board's answer has,
    the fields of the response. Which new postings the sweep asks about, the near copies
    that answer without asking, the requests, and the verdicts a collected answer writes;
    then the re-checks of postings believed open, the pages that have not changed since,
    and the answers that arrive late. *)

From stdpp Require Import pretty.
From Stdlib Require Import Ascii.
From S2P Require Import Prelude PyStr Sql Json Tasks Lifecycle Queue Spec Datasheets Pricing Routing Fallback Shapes Access Batches Collect Receipts Runs Catalog Regex Screening Selection Verdicts Visibility RunInputs ManagedBoards Schedule Fetches FilterRuns FilterExec VerifyTargets.

Local Open Scope string_scope.
Local Open Scope Z_scope.

Definition nl : string := String "010"%char "".

(** A text in double quotes. *)
Definition quoted (s : string) : string := String quote s ++ String quote "".

Definition VERIFY_INPUT_CHARS : Z := 20000.

Definition _VERIFY_INSTRUCTIONS : string :=
  ("Evaluate this job posting on two independent axes." ++
   nl ++
   "is_closed: true ONLY on posting-specific signals (no longer available/accepting, " ++
   "position filled, expired, deadline passed, job not found, 404). Site-wide errors, " ++
   "captchas, access blocks, or login walls say nothing about the job: false. Ambiguous: " ++
   "false." ++
   nl ++
   "requires_clearance_or_restrictions: true ONLY for explicit restrictions: required " ++
   "security clearance or citizenship (US citizen required, US Person, Secret/TS-SCI/Public " ++
   "Trust), explicit no-sponsorship ('will not sponsor', 'no H1B'), or F1-not-eligible. Do " ++
   "NOT flag preferences, sponsorship offered, or application questions. When in doubt: " ++
   "false." ++
   nl ++
   "closed_reason / clearance_reason: <=20 words each, citing the specific text that " ++
   "decided that axis. They are read when a human asks why a posting was ruled out, so " ++
   "quote the signal rather than restating the verdict.").

Definition _REASONS_ALWAYS : string :=
  ("closed_reason / clearance_reason: <=20 words each, citing the specific text that " ++
   "decided that axis. They are read when a human asks why a posting was ruled out, so " ++
   "quote the signal rather than restating the verdict.").

Definition _REASONS_WHEN_TRUE : string :=
  ("closed_reason / clearance_reason: when that axis is true, <=20 words citing the " ++
   "specific text that decided it; they are read when a human asks why a posting was ruled " ++
   "out, so quote the signal rather than restating the verdict. When that axis is false, an " ++
   "empty string.").

Definition _INPUT_NOTE : string :=
  ("<about_the_input>" ++
   nl ++
   "This part describes how the request is built. It is not a question and adds no rule; it " ++
   "says what the text that follows is, so each answer can be read against the right text." ++
   nl ++
   nl ++
   "The user message holds one job posting in three parts, in this order: a line naming the " ++
   "company that listed it, a line with the posting's title as the listing gave it, and " ++
   "then the text of the posting's own page. The company and title lines come from the " ++
   "employer's job listing feed rather than from the page, so they are present even when " ++
   "the page text is short or broken. The page text was fetched automatically from the " ++
   "posting's link and converted from HTML to plain text. Formatting does not survive that " ++
   "conversion: headings, bullet points, tables, links and buttons become plain lines, and " ++
   "sections can appear in a different order from the one a visitor sees. The text is cut " ++
   "at a fixed length, so a long posting can end in the middle of a sentence; where the " ++
   "text ends is a property of the fetch, not of the job." ++
   nl ++
   nl ++
   "Careers sites wrap a posting in their own page furniture: site navigation, search " ++
   "boxes, cookie and privacy notices, language pickers, sign-in links, lists of similar or " ++
   "recently viewed jobs, links to the employer's other openings, equal-opportunity " ++
   "statements, benefits summaries shared by every posting, application forms with their " ++
   "questions, and footers. Many pages are served by an applicant tracking system " ++
   "(Greenhouse, Lever, Ashby, Workday, SmartRecruiters, iCIMS and others), whose layout " ++
   "and boilerplate are the same for every employer that uses it. Pages are fetched in " ++
   "English where the site offers it, but some arrive partly or wholly in another language." ++
   nl ++
   nl ++
   "Each question below is asked of this same text, and each is answered on its own terms. " ++
   "Every posting reaches this request through the same steps, whatever its employer, " ++
   "location or seniority, so nothing about how a posting was chosen says anything about " ++
   "any answer." ++
   nl ++
   nl ++
   "The reply is one JSON object. Its key named verification holds is_closed and " ++
   "requires_clearance_or_restrictions, each true or false, and closed_reason and " ++
   "clearance_reason, each text. Each board question has its own key, named board_ followed " ++
   "by that board's number, holding should_filter, true or false. The response schema fixes " ++
   "the keys and their types, so their order in the reply carries no meaning." ++
   nl ++
   "</about_the_input>").

Definition _JOINT_VERIFY_INSTRUCTIONS : string :=
  PyStr.replace _REASONS_ALWAYS _REASONS_WHEN_TRUE _VERIFY_INSTRUCTIONS.

(** The assertion the module makes when it is loaded. *)
Example joint_instructions_differ : _JOINT_VERIFY_INSTRUCTIONS ≠ _VERIFY_INSTRUCTIONS.
Proof. apply String.eqb_neq. vm_compute. reflexivity. Qed.

Record VerifyVerdict : Type := mkVerifyVerdict {
  is_closed : bool;
  closed_reason : string;
  requires_clearance_or_restrictions : bool;
  clearance_reason : string;
}.

(** [model_dump_json]: members in the order of the fields, without spaces. *)
Definition dump_field (name : string) (value : list ascii) : string :=
  of_chars (emit_str name ++ ":"%char :: value)%list.

Definition bool_chars (b : bool) : list ascii := chars (if b then "true" else "false").

Definition dump_verdict (v : VerifyVerdict) : string :=
  "{" ++ str_join ","
    [dump_field "is_closed" (bool_chars (is_closed v));
     dump_field "closed_reason" (emit_str (closed_reason v));
     dump_field "requires_clearance_or_restrictions" (bool_chars (requires_clearance_or_restrictions v));
     dump_field "clearance_reason" (emit_str (clearance_reason v))] ++ "}".

Definition dump_decision (should_filter : bool) : string :=
  "{" ++ dump_field "should_filter" (bool_chars should_filter) ++ "}".

(** [VERIFICATION_REQUEST.build_input]. *)
Definition build_input (content : string) : string := str_take (Z.to_nat VERIFY_INPUT_CHARS) content.

Definition _COUNTS : gmap Z string :=
  {[ 2 := "two"; 3 := "three"; 4 := "four"; 5 := "five"; 6 := "six" ]}.

Definition joint_question_key (board_id : Z) : string := "board_" ++ pretty board_id.

Definition question_block (name text : string) : string :=
  "<question name=" ++ quoted name ++ ">" ++ nl ++ text ++ nl ++ "</question>".

(** The criteria of the boards, a dict, in order of board id. *)
Definition by_board (criteria : list (Z * string)) : list (Z * string) :=
  map_to_list (list_to_map (rev criteria) : gmap Z string).

#[local] Instance board_le_dec : RelDecision (λ a b : Z * string, a.1 <= b.1).
Proof. intros a b. apply _. Defined.

Definition sorted_boards (criteria : list (Z * string)) : list (Z * string) :=
  merge_sort (λ a b : Z * string, a.1 <= b.1) (by_board criteria).

(** The instructions, and the keys of the boards' fields after [verification]. *)
Definition joint_verification (board_criteria : list (Z * string)) : string * list string :=
  let boards := sorted_boards board_criteria in
  let keys := map (λ b, joint_question_key b.1) boards in
  let blocks := question_block "verification" _JOINT_VERIFY_INSTRUCTIONS ::
                map (λ b, question_block (joint_question_key b.1) b.2) boards in
  let count := Z.of_nat (length blocks) in
  ("You will answer " ++ default (pretty count) (_COUNTS !! count) ++ " independent questions about one job " ++
   "posting. Answer each exactly as if it were the only question; one answer must not " ++
   "influence another." ++ nl ++ nl ++ _INPUT_NOTE ++ nl ++ nl ++ str_join (nl ++ nl) blocks ++ nl ++ nl ++
   "Return only a JSON object with verification (its four fields) and " ++
   str_join ", " (map (λ k, k ++ ".should_filter") keys) ++
   ". Do not include reasons for the should_filter answers.", keys).

(** ** Near copies ([core.near_copy]) *)

Definition _PLACE_WORD : string := "\b(?:remote|hybrid|on-?site|united states|usa|canada)\b".
Definition _STATE_CODE : string := ",\s*[A-Z]{2}\b".
Definition _PLACE_LINE_CHARS : Z := 200.

(** [re.split(r"\n+", s)]. *)
Fixpoint split_lines (cur l : list ascii) : list (list ascii) :=
  match l with
  | [] => [rev cur]
  | c :: l =>
      if Ascii.eqb c newline
      then rev cur :: (fix skip (l : list ascii) : list (list ascii) :=
                         match l with
                         | d :: l' => if Ascii.eqb d newline then skip l' else split_lines [d] l'
                         | [] => [[]]
                         end) l
      else split_lines (c :: cur) l
  end.

Definition names_a_place (line : string) : bool :=
  search_text Python true _PLACE_WORD line || search_text Python false _STATE_CODE line.

(** The digested text: places and numbers removed. *)
Definition twin_text (title content : string) : string :=
  let lines := List.filter (λ line, (_PLACE_LINE_CHARS <? Z.of_nat (String.length line)) ||
                                    negb (names_a_place line))
                 (map of_chars (split_lines [] (chars (build_input content)))) in
  let text := lower (str_join nl (title :: lines)) in
  strip (of_chars (squeeze is_space " " false (squeeze is_digit "#" false (chars text)))).

(** ** What is selected ([tasks.verification.selection]) *)

Record verify_settings : Type := mkVerifySettings {
  verify_new_per_cycle : Z;
  verify_answers_board_questions : bool;
  reverify_days : Z;
  reverify_per_cycle : Z;
  vs_gate : gate_params;
  vs_skip_windows : list (Z * Z);
  vs_fetch_rules : fetch_rules;
}.

(** A selected posting, its text not yet resolved. *)
Record verify_row : Type := mkVerifyRow {
  vr_url : string;
  vr_source : string;
  vr_company : string;
  vr_title : string;
  vr_input_content : string;
  vr_page_fetch_id : Z;
  vr_needs_closed : bool;
  vr_needs_clearance : bool;
}.

(** [verify_new] tasks whose requests other sweeps leave alone. *)
Definition _in_flight (tid : Z) (requests : request_table) (m : gmap Z task) : list string :=
  omap (λ kv : Z * string * BatchSpec,
          match m !! kv.1.1 with
          | Some t => if String.eqb (t_kind t) "verify_new" && negb (kv.1.1 =? tid) &&
                         status_in ACTIVE_STATUSES t
                      then Some kv.1.2 else None
          | None => None
          end) (map_to_list requests).

Definition MIN_CONTENT_CHARS : Z := 200.

Definition text_chars (h : held_text) : Z :=
  match h with
  | Inline t => Z.of_nat (String.length t)
  | Referenced _ _ _ chars => chars
  end.

Definition long_text (f : page_fetch) : bool :=
  has_text f && match pf_text f with Some h => MIN_CONTENT_CHARS <? text_chars h | None => false end.

(** [CONTENT_LATERAL]: the newest long text of a URL. *)
Definition content_row (url : string) (l : fetch_log) : option (Z * held_text) :=
  i ← last (ids_where (λ _ f, String.eqb (pf_url f) url && long_text f) (pf_rows l));
  f ← pf_rows l !! i;
  h ← pf_text f;
  Some (i, h).

Definition missing_check (j : job) (answers : list answer) : bool :=
  negb (has_verdict (j_url j) "closed" answers) || negb (has_verdict (j_url j) "clearance" answers).

(** [ORDER BY date_posted DESC NULLS LAST]; postings of one date keep the order of their
    ids, which the statement leaves open. *)
Definition fresher (a b : Z * job) : Prop :=
  match j_date_posted a.2, j_date_posted b.2 with
  | Some x, Some y => y <= x
  | None, Some _ => False
  | _, None => True
  end.

#[local] Instance fresher_dec : RelDecision fresher.
Proof. intros [i j] [i' j']. unfold fresher. simpl. repeat case_match; apply _. Defined.

Definition freshest_first (l : list (Z * job)) : list (Z * job) := merge_sort fresher l.

Definition rows_of_ids (ids : list Z) (b : board) : list (Z * job) :=
  omap (λ i, pair i <$> b_jobs b !! i) ids.

(** The row of a posting, with its text where that can be read. *)
Definition selected_row (answers : list answer) (l : fetch_log) (j : job) : option (verify_row * held_text) :=
  '(i, h) ← content_row (j_url j) l;
  Some (mkVerifyRow (j_url j) (j_source j) (j_company j) (j_title j) "" i
          (negb (has_verdict (j_url j) "closed" answers)) (negb (has_verdict (j_url j) "clearance" answers)), h).

Section selection.
Context (hashtext : string → Z) (now : Z) (c : verify_settings).

(** [candidates_sql]. *)
Definition candidate_pool (in_flight : list string) (r : runs) : list Z :=
  ids_where (λ _ j, IS_AVAILABLE j && negb (mem (j_url j) in_flight) &&
                    negb (SKIPPED (vs_skip_windows c) (j_created_at j)) &&
                    missing_check j (r_answers r)) (b_jobs (r_tables r)).

Definition chosen (in_flight : list string) (r : runs) (l : fetch_log) : list (Z * job) :=
  let reached := rows_of_ids (reachable hashtext now (vs_gate c) (candidate_pool in_flight r) r) (r_tables r) in
  take (Z.to_nat (verify_new_per_cycle c))
    (freshest_first
       (List.filter (λ ij, bool_decide (is_Some (content_row (j_url ij.2) l))) reached)).

Definition candidates (in_flight : list string) (r : runs) (l : fetch_log) : list (verify_row * held_text) :=
  omap (λ ij : Z * job, selected_row (r_answers r) l ij.2) (freshest_first (chosen in_flight r l)).

(** [listed_sql]: past the gate and the cap. *)
Definition listed (urls in_flight : list string) (r : runs) (l : fetch_log) : list (verify_row * held_text) :=
  omap (λ ij : Z * job, selected_row (r_answers r) l ij.2)
    (freshest_first
       (rows_of_ids
          (ids_where (λ _ j, mem (j_url j) urls && IS_AVAILABLE j && negb (mem (j_url j) in_flight) &&
                             missing_check j (r_answers r)) (b_jobs (r_tables r))) (r_tables r))).

Definition _select_postings (tid : Z) (payload : jobject) (requests : request_table) (r : runs) (l : fetch_log)
    : list (verify_row * held_text) :=
  let in_flight := _in_flight tid requests (tasks (r_queue r)) in
  match payload !! "urls" with
  | Some urls => listed (json_strings urls) in_flight r l
  | None => candidates in_flight r l
  end.
End selection.

(** ** Taking a twin's verdicts ([tasks.verification.near_copies]) *)

Definition with_jobs (m : gmap Z job) (r : runs) : runs :=
  let b := r_tables r in
  with_tables
    (mkBoard m (b_uploads b) (b_user_jobs b) (b_applied b) (b_answers b) (b_filters b) (b_selections b)
       (b_settings b) (b_locations b) (b_visible b) (b_recomputes b)) r.

(** A source and a key. *)
Abbreviation source_key := (string * string)%type.

Section twins.
Context (sha256 : string → string) (now : Z).

Definition near_copy_key (title content : string) : string := sha256 (twin_text title content).

Definition row_key (v : verify_row) : string := near_copy_key (vr_title v) (vr_input_content v).

Definition row_source_key (v : verify_row) : source_key := (vr_source v, row_key v).

(** The keys by URL, a dict. *)
Definition keys_of (rows : list verify_row) : list (string * string) :=
  rev (map (λ v, (vr_url v, row_key v)) rows).

Definition fully_verified (url : string) (answers : list answer) : bool :=
  has_verdict url "closed" answers && has_verdict url "clearance" answers.

(** [DISTINCT ON (source, near_copy_key) ... ORDER BY id DESC]: the newest verified twin of
    a key outside the candidates. *)
Definition verified_twin (candidate_urls : list string) (k : source_key) (b : board) : option string :=
  i ← last (ids_where (λ _ j, String.eqb (j_source j) k.1 && column_is (j_near_copy_key j) k.2 &&
                              negb (mem (j_url j) candidate_urls) &&
                              fully_verified (j_url j) (b_answers b)) (b_jobs b));
  j_url <$> b_jobs b !! i.

Definition in_flight_source_keys (in_flight : list string) (b : board) : list source_key :=
  omap (λ j, pair (j_source j) <$> (if mem (j_url j) in_flight then j_near_copy_key j else None))
    (map_to_list (b_jobs b)).*2.

(** What the loop decides of a candidate. *)
Record twin_split : Type := mkSplit {
  sp_verify : list verify_row;
  sp_reuse : list (verify_row * string);
  sp_selected : list source_key;
}.

Definition split_step (twins : source_key → option string) (flying : list source_key) (s : twin_split)
    (v : verify_row) : twin_split :=
  let k := row_source_key v in
  match twins k with
  | Some url => mkSplit (sp_verify s) (sp_reuse s ++ [(v, url)])%list (sp_selected s)
  | None =>
      if mem k flying || mem k (sp_selected s) then s
      else mkSplit (sp_verify s ++ [v])%list (sp_reuse s) (k :: sp_selected s)
  end.

Definition split_candidates (twins : source_key → option string) (flying : list source_key)
    (rows : list verify_row) : twin_split :=
  foldl (split_step twins flying) (mkSplit [] [] []) rows.

Definition live_hashes (d : db) : list string :=
  (map (λ kv : Z * managed_board, mb_prompt_hash kv.2)
     (List.filter (λ kv : Z * managed_board, mb_published kv.2) (map_to_list (d_boards d))) ++
   map uf_prompt_hash (List.filter uf_enabled (b_filters (d_tables d))))%list.

(** The latest custom answers of the twins. Their rows are of different keys, whose order
    nothing reads. *)
Definition twin_customs (twin_urls : list string) (d : db) : list answer :=
  latest_per (λ a, (a_url a, a_prompt_hash a, a_model a))
    (λ a, mem (a_url a) twin_urls && String.eqb (a_check_type a) "custom" &&
          match a_prompt_hash a with Some h => mem h (live_hashes d) | None => false end)
    (b_answers (d_tables d)).

Definition custom_decided (url : string) (hash model : option string) (answers : list answer) : bool :=
  existsb (λ a, String.eqb (a_url a) url && String.eqb (a_check_type a) "custom" &&
                bool_decide (a_prompt_hash a = hash) && bool_decide (a_model a = model)) (verdicts answers).

Definition CHECKS : list string := ["closed"; "clearance"].

Definition needs (check : string) (v : verify_row) : bool :=
  if String.eqb check "closed" then vr_needs_closed v else vr_needs_clearance v.

Definition copied_check (check : string) (v : verify_row) (twin : LatestVerdict) : answer :=
  mkAnswer (vr_url v) check (lv_status twin) (lv_reason twin) (Some "verify-near-copy") None None None None
    None now.

Definition copied_custom (v : verify_row) (twin : answer) : answer :=
  mkAnswer (vr_url v) "custom" (a_status twin) (a_reason twin) (Some "verify-near-copy") (a_model twin)
    (a_prompt_hash twin) (a_filter_name twin) (a_parsed_json twin) None now.

Definition copied_rows (d : db) (twin_urls : list string) (vt : verify_row * string) : list answer :=
  let '(v, twin) := vt in
  let answers := b_answers (d_tables d) in
  let checks := default ∅ (latest_checks twin_urls CHECKS answers !! twin) in
  (omap (λ check, if needs check v then copied_check check v <$> checks !! check else None) CHECKS ++
   map (copied_custom v)
     (List.filter (λ a, String.eqb (a_url a) twin &&
                        negb (custom_decided (vr_url v) (a_prompt_hash a) (a_model a) answers))
        (twin_customs twin_urls d)))%list.

Definition _copy_twin_verdicts (reuse : list (verify_row * string)) (r : runs) : runs :=
  let twin_urls := merge_sort String.le (remove_dups reuse.*2) in
  add_ai_results (reuse ≫= copied_rows (r_db r) twin_urls) r.

Definition twin_decision (tid : Z) (rows : list verify_row) (requests : request_table) (r : runs) : twin_split :=
  let b := r_tables r in
  split_candidates (λ k, verified_twin (map vr_url rows) k b)
    (in_flight_source_keys (_in_flight tid requests (tasks (r_queue r))) b) rows.

Definition _reuse_near_copies (tid : Z) (rows : list verify_row) (requests : request_table) (r : runs)
    : runs * list verify_row :=
  let r := with_jobs (near_copy_keyed (keys_of rows) (b_jobs (r_tables r))) r in
  let s := twin_decision tid rows requests r in
  (match sp_reuse s with [] => r | reuse => _copy_twin_verdicts reuse r end, sp_verify s).
End twins.

(** ** Questions ([tasks.verification.questions]) *)

(** [VERIFY_TASK.effort or "low"]. *)
Definition _EFFORT : string := match effort VERIFY_TASK with Some e => e | None => "low" end.

Section questions.
Context (sha256 : string → string).
(** The strict schemas of [VerifyVerdict] and of [JointVerification], by its boards' keys. *)
Context (verify_schema : jobject) (joint_schema : list string → jobject).

Definition _verification_spec (url content : string) (context : option jobject) : BatchSpec :=
  mkSpec url _VERIFY_INSTRUCTIONS (build_input content) "VerifyVerdict" verify_schema context Responses None.

Definition _row_context (v : verify_row) : jobject :=
  {[ "company" := JStr (vr_company v); "title" := JStr (vr_title v);
     "needs_closed" := JBool (vr_needs_closed v); "needs_clearance" := JBool (vr_needs_clearance v);
     "page_fetch_id" := JInt (vr_page_fetch_id v) ]}.

Definition nul_ended (part : string) : string := part ++ String "000"%char "".

Definition question_sha256 (model : option string) (request : option BatchSpec) : option string :=
  match nonempty_opt model, request with
  | Some m, Some s =>
      Some (sha256 (str_join "" (map nul_ended
        [m; _EFFORT; schema_name s; dumps (JObj (map_to_list (sp_schema s))); instructions s; sp_input s])))
  | _, _ => None
  end.

Definition board_json (q : BoardQuestion) : json :=
  JObj [("board_id", JInt (bq_board_id q)); ("prompt_hash", JStr (bq_prompt_hash q));
        ("model", JStr (bq_model q))].

Definition _joint_spec (v : verify_row) (questions : list BoardQuestion) (model eff : string) : BatchSpec :=
  let '(text, keys) := joint_verification (map (λ q, (bq_board_id q, bq_criteria q)) questions) in
  mkSpec (vr_url v) text
    (build_custom_input (vr_company v) (vr_title v) (build_input (vr_input_content v)))
    "JointVerification" (joint_schema keys)
    (Some (({[ "model" := JStr model; "effort" := JStr eff;
               "verify_question" :=
                 opt_json JStr (question_sha256 (Some model)
                                  (Some (_verification_spec (vr_url v) (vr_input_content v) None)));
               "boards" := JArr (map board_json questions) ]} : jobject) ∪ _row_context v)) Responses None.

Section submission.
Context (ps : list Provider) (ix : index) (e : routing_env) (config : string → Z)
  (overrides : option (list (string * option string))).

(** The model, the effort, and the model a fallback stands for. *)
Definition _submission_model : result string (string * string * option string) :=
  let shape := configured_shape config VERIFY_TASK in
  (do chosen <- route ps ix e shape (configured_model overrides (purpose VERIFY_TASK)) ;;
   Ok (ch_model chosen, effort_param ix chosen shape, ch_fallback_from chosen))%js.

Definition spec_for (questions : gmap string (list BoardQuestion)) (model eff : string) (v : verify_row)
    : BatchSpec :=
  match default [] (questions !! vr_url v) with
  | [] => _verification_spec (vr_url v) (vr_input_content v) (Some (_row_context v))
  | qs => _joint_spec v qs model eff
  end.

Definition _build_specs (now : Z) (c : verify_settings) (rows : list verify_row) (r : runs)
    : result string (list BatchSpec) :=
  (do m <- _submission_model ;;
   let '(model, eff, _) := m in
   let questions := if verify_answers_board_questions c
                    then verification_questions ps ix now (map vr_url rows) model eff (r_db r)
                    else ∅ in
   Ok (map (spec_for questions model eff) rows))%js.
End submission.
End questions.

(** ** What an answer writes ([tasks.verification.new_postings]) *)

Definition ctx_get (k : string) (ctx : jobject) : json := default JNull (ctx !! k).

(** A board the request asked for: its id, prompt and model. *)
Record asked_board : Type := mkAsked {
  ab_board_id : Z;
  ab_prompt_hash : string;
  ab_model : string;
}.

Definition asked_of (j : json) : option asked_board :=
  match get_at "board_id" j with
  | Some (JInt i) => h ← text_at "prompt_hash" j; m ← text_at "model" j; Some (mkAsked i h m)
  | _ => None
  end.

(** [job.get("boards") or []], each as [_joint_spec] wrote it. *)
Definition asked_boards (ctx : jobject) : option (list asked_board) :=
  match ctx !! "boards" with
  | Some (JArr l) => mapM asked_of l
  | _ => Some []
  end.

Definition settled (url check : string) (answers : list answer) : bool := has_verdict url check answers.

Section answers.
Context (sha256 : string → string).
(** [VerifyVerdict] and [FilterDecision] of a JSON value, and the former of a text; [None] is
    a validation error. *)
Context (validate_verdict : json → option VerifyVerdict) (validate_decision : json → option bool)
  (validate_text : string → option VerifyVerdict).

(** The decisions by board, a dict. *)
Definition joint_answer (boards : list asked_board) (text : string)
    : option (VerifyVerdict * list (Z * bool)) :=
  answer ← loads text;
  v ← get_at "verification" answer ≫= validate_verdict;
  decisions ← mapM (λ b, pair (ab_board_id b) <$>
                         (get_at (joint_question_key (ab_board_id b)) answer ≫= validate_decision)) boards;
  Some (v, decisions).

(** The parsed answer, the text kept with it, and the question it answered. *)
Definition parsed_answer (boards : list asked_board) (ctx : jobject) (r : BatchResult)
    (request : option BatchSpec) (text : string)
    : option (VerifyVerdict * list (Z * bool) * string * option string) :=
  match boards with
  | [] =>
      v ← validate_text text;
      Some (v, [], text, question_sha256 sha256 (br_model r) request)
  | _ =>
      '(v, decisions) ← joint_answer boards text;
      Some (v, decisions, dump_verdict v,
            if bool_decide (br_model r = json_text (ctx_get "model" ctx))
            then json_text (ctx_get "verify_question" ctx) else None)
  end.

Definition axes (v : VerifyVerdict) : list (string * bool * string) :=
  [("closed", is_closed v, closed_reason v);
   ("clearance", requires_clearance_or_restrictions v, clearance_reason v)].

Definition check_verdict (url parsed_json context : string) (model question : option string)
    (x : string * bool * string) : Verdict :=
  let '(check, rejected, reason) := x in
  mkVerdict url check (Some rejected) (Some reason) (Some parsed_json) model None None context question.

(** The checks the request asked for that nothing has settled since. *)
Definition wanted_axes (url : string) (ctx : jobject) (v : VerifyVerdict) (answers : list answer)
    : list (string * bool * string) :=
  List.filter (λ x : string * bool * string,
                 truthy (ctx_get ("needs_" ++ x.1.1) ctx) && negb (settled url x.1.1 answers)) (axes v).

Definition board_verdict (url : string) (model : option string) (decisions : list (Z * bool)) (b : asked_board)
    : Verdict :=
  let filtered := default false (snd <$> find (λ d : Z * bool, d.1 =? ab_board_id b) (rev decisions)) in
  mkVerdict url "custom" (Some filtered) None (Some (dump_decision filtered)) model
    (Some ("managed-board:" ++ pretty (ab_board_id b))) (Some (ab_prompt_hash b)) "verify-batch" None.

(** The boards asked for with the model that answered and not decided meanwhile, each read
    after the rows before it. *)
Fixpoint record_boards (groups : list Group) (now : Z) (url : string) (model : option string)
    (decisions : list (Z * bool)) (boards : list asked_board) (answers : list answer) : list answer :=
  match boards with
  | [] => answers
  | b :: boards =>
      let skip := negb (bool_decide (model = Some (ab_model b))) ||
                  nonempty (decided_custom_urls [url] (ab_prompt_hash b)
                              (Some (answering groups "custom" (ab_model b))) answers) in
      record_boards groups now url model decisions boards
        (if skip then answers else verdict_row now (board_verdict url model decisions b) :: answers)
  end.

(** [_record_result]: the answers after, and the outcome; [None] is an exception. *)
Definition _record_result (groups : list Group) (now : Z) (x : collected) (answers : list answer)
    : option (list answer * string) :=
  let '(r, request) := x in
  let ctx := default ∅ (request ≫= sp_context) in
  if bool_decide (ctx = ∅) then Some (answers, "unknown_request")
  else
    match nonempty_opt (br_error r), result_text r with
    | None, Some text =>
        boards ← asked_boards ctx;
        match parsed_answer boards ctx r request text with
        | None => Some (answers, "invalid_output")
        | Some (v, decisions, parsed_json, question) =>
            let url := br_custom_id r in
            let rows := map (check_verdict url parsed_json "verify-batch" (br_model r) question)
                          (wanted_axes url ctx v answers) in
            let answers' := (rev (map (verdict_row now) rows) ++ answers)%list in
            let answers'' := record_boards groups now url (br_model r) decisions boards answers' in
            if (length answers <? length answers'')%nat
            then _ ← ctx !! "company"; _ ← ctx !! "title"; Some (answers'', "written")
            else Some (answers'', "superseded")
        end
    | _, _ => Some (answers, "failed")
    end.

(** The body of [consume_result] in [handle_verify_new]. *)
Definition record_new (groups : list Group) (now : Z) (x : collected) : consumer (list answer) :=
  λ receipts answers,
    match receipts with
    | r :: _ =>
        if rcp_pending r
        then '(answers, outcome) ← _record_result groups now x answers; Some (answers, [outcome])
        else Some (answers, map rcp_outcome receipts)
    | [] => Some (answers, [])
    end.

Definition consume_new (groups : list Group) (now tid : Z) (x : collected) (b : books) (answers : list answer)
    : books * list answer * result books_exn (list receipt_key) :=
  consume_result now tid (key_of x) (record_new groups now x) b answers.

(** ** Re-checks ([tasks.verification.reverification]) *)

(** A verdict on the check later than the submission of the batch that answers. *)
Definition _newer_evidence (batches : gmap string ai_batch) (r : BatchResult) (check : string)
    (answers : list answer) : bool :=
  match nonempty_opt (br_batch_id r) with
  | None => false
  | Some bid =>
      match batches !! bid with
      | None => false
      | Some b => existsb (λ a, String.eqb (a_url a) (br_custom_id r) && String.eqb (a_check_type a) check &&
                                (ab_submitted_at b <? a_created_at a)) (verdicts answers)
      end
  end.

Definition recheck_rows (now : Z) (r : BatchResult) (request : option BatchSpec) (text : string)
    (v : VerifyVerdict) : list answer :=
  map (verdict_row now)
    (map (check_verdict (br_custom_id r) text "reverify" (br_model r)
            (question_sha256 sha256 (br_model r) request)) (axes v)).

Definition recheck_result (batches : gmap string ai_batch) (now : Z) (x : collected) (answers : list answer)
    : option (list answer * string) :=
  let '(r, request) := x in
  let ctx := default ∅ (request ≫= sp_context) in
  if bool_decide (ctx = ∅) then Some (answers, "unknown_request")
  else
    match nonempty_opt (br_error r), result_text r with
    | None, Some text =>
        if existsb (λ check, _newer_evidence batches r check answers) CHECKS then Some (answers, "superseded")
        else
          match validate_text text with
          | None => Some (answers, "invalid_output")
          | Some v =>
              _ ← ctx !! "company";
              _ ← ctx !! "title";
              Some ((rev (recheck_rows now r request text v) ++ answers)%list, "written")
          end
    | _, _ => Some (answers, "failed")
    end.

Definition record_recheck (batches : gmap string ai_batch) (now : Z) (x : collected) : consumer (list answer) :=
  λ receipts answers,
    match receipts with
    | r :: _ =>
        if rcp_pending r
        then '(answers, outcome) ← recheck_result batches now x answers; Some (answers, [outcome])
        else Some (answers, map rcp_outcome receipts)
    | [] => Some (answers, [])
    end.

(** One turn of [_record_reverify_results]. *)
Definition consume_recheck (now tid : Z) (x : collected) (b : books) (answers : list answer)
    : books * list answer * result books_exn (list receipt_key) :=
  consume_result now tid (key_of x) (record_recheck (sb_batches (bk_state b)) now x) b answers.
End answers.

(** ** Pages that have not changed *)

Section unchanged.
Context (sha256 : string → string) (verify_schema : jobject) (groups : list Group).

Definition page_question (model url text : string) : option string :=
  question_sha256 sha256 (Some model) (Some (_verification_spec verify_schema url text None)).

(** The questions whose answers stand for this one. *)
Definition accepted_questions (model url text : string) : list (option string) :=
  page_question model url text ::
  map (λ m, page_question m url text)
    (List.filter (λ m, negb (String.eqb m model)) (answering groups "verify" model)).

Definition reused_row (now : Z) (url company title check : string) (question : option string)
    (v : LatestVerdict) : answer :=
  mkAnswer url check (lv_status v) (lv_reason v) (Some "reverify-unchanged") None None None None question now.

(** A page's standing answers, when both answered this question. The last of the pages with
    one URL is the one the dict holds. *)
Definition reused_rows (now : Z) (model : string) (pages : list (string * string))
    (jobs : gmap string (string * string)) (answers : list answer) (url : string) : list answer :=
  match alist_get url (rev pages), jobs !! url with
  | Some text, Some (company, title) =>
      let checks := default ∅ (latest_checks (map fst pages) CHECKS answers !! url) in
      match checks !! "clearance", checks !! "closed" with
      | Some clearance, Some closed =>
          if mem (lv_request_sha256 clearance) (accepted_questions model url text) &&
             mem (lv_request_sha256 closed) (accepted_questions model url text)
          then [reused_row now url company title "clearance" (page_question model url text) clearance;
                reused_row now url company title "closed" (page_question model url text) closed]
          else []
      | _, _ => []
      end
  | _, _ => []
  end.

(** The rows it writes, by URL, and the URLs it settles. *)
Definition _reuse_unchanged (now : Z) (model : string) (pages : list (string * string))
    (jobs : gmap string (string * string)) (answers : list answer) : list answer * list string :=
  let urls := merge_sort String.le (remove_dups (map fst pages)) in
  let rows := urls ≫= reused_rows now model pages jobs answers in
  ((rev rows ++ answers)%list, remove_dups (map a_url rows)).
End unchanged.

(** ** The sweep of new postings ([handle_verify_new]) *)

Inductive verify_plan : Type :=
| CollectsAnswers
| VerifiesNothing
| SubmitsSpecs (specs : list BatchSpec).

Inductive verify_exn : Type :=
| TextLost (x : fetch_exn)
| CannotRouteVerify (reason : string).

Section new_postings.
Context (get_digest_member : string → Z → string → option json) (hashtext : string → Z)
  (sha256 : string → string) (verify_schema : jobject) (joint_schema : list string → jobject).
Context (ps : list Provider) (ix : index) (e : routing_env) (config : string → Z)
  (overrides : option (list (string * option string))).
Context (cur : option TaskClaim) (now : Z) (c : verify_settings).

(** [page_fetches.resolve]: one text that cannot be read raises for them all. *)
Fixpoint resolve_rows (rows : list (verify_row * held_text)) : result fetch_exn (list verify_row) :=
  match rows with
  | [] => Ok []
  | (v, h) :: rows =>
      (do text <- Fetches.resolve get_digest_member false h ;;
       do rest <- resolve_rows rows ;;
       Ok (mkVerifyRow (vr_url v) (vr_source v) (vr_company v) (vr_title v) text (vr_page_fetch_id v)
             (vr_needs_closed v) (vr_needs_clearance v) :: rest))%js
  end.

Definition said (tid : Z) (total : Z) (label : string) (r : runs) : runs :=
  FilterRuns.with_world (set_progress cur now tid 0 total label ∅ (r_queue r)) r.

Definition submit_plan (tid : Z) (rows : list verify_row) (r : runs) : runs * result verify_exn verify_plan :=
  match _build_specs sha256 verify_schema joint_schema ps ix e config overrides now c rows r with
  | Err reason => (r, Err (CannotRouteVerify reason))
  | Ok specs => (said tid (Z.of_nat (length specs)) "verify batch submitted" r, Ok (SubmitsSpecs specs))
  end.

(** Up to [run_batched]. [existing] is [has_batch_work]. *)
Definition plan_verify_new (existing : bool) (tid : Z) (payload : jobject) (requests : request_table)
    (l : fetch_log) (r : runs) : runs * result verify_exn verify_plan :=
  if existing then (r, Ok CollectsAnswers)
  else
    match resolve_rows (_select_postings hashtext now c tid payload requests r l) with
    | Err x => (r, Err (TextLost x))
    | Ok [] => (said tid 0 "nothing to verify" r, Ok VerifiesNothing)
    | Ok rows =>
        if verify_near_copy_reuse (r_conf r)
        then match _reuse_near_copies sha256 now tid rows requests r with
             | (r, []) => (said tid 0 "every candidate reused a twin's verdicts" r, Ok VerifiesNothing)
             | (r, rows) => submit_plan tid rows r
             end
        else submit_plan tid rows r
    end.
End new_postings.

(** ** Which postings are re-checked ([handle_reverify_open]) *)

(** A posting's URL, company and title. *)
Abbreviation recheck := (string * string * string)%type.

Definition recheck_of (j : job) : recheck := (j_url j, j_company j, j_title j).

(** [MAX(created_at)] of the answers to a check, failed ones included. *)
Definition last_asked (url check : string) (answers : list answer) : option Z :=
  foldr (λ a m, if String.eqb (a_url a) url && String.eqb (a_check_type a) check
                then Some (match m with Some t => Z.max t (a_created_at a) | None => a_created_at a end)
                else m) None answers.

Section reverify.
Context (cur : option TaskClaim) (now : Z) (c : verify_settings).
(** [MAX(at)] of the observations that a source put the posting back; [Catalog] keeps the log
    in order, without times. *)
Context (last_return : Z → option Z).

Definition full_rows (r : runs) : list recheck :=
  let b := r_tables r in
  map (λ ij : Z * job, recheck_of ij.2)
    (rows_of_ids (ids_where (λ i j, IS_AVAILABLE j && AI_ELIGIBLE_JOB i j r &&
                                    status_is "passed" (latest_status (j_url j) "closed" None (b_answers b)))
                    (b_jobs b)) b).

(** A person holds the posting in the working set and has not acted on it. *)
Definition held_untouched (i : Z) (r : runs) : bool :=
  let b := r_tables r in
  existsb (λ p : Z * Z, (p.2 =? i) &&
                        match b_user_jobs b !! p with
                        | Some uj => UNTOUCHED p.1 p.2 uj b
                        | None => true
                        end) (elements (r_working r)).

Definition stale_posting (r : runs) (i : Z) (j : job) : bool :=
  held_untouched i r &&
  match last_asked (j_url j) "closed" (r_answers r) with
  | Some t => t <? now - reverify_days c * DAY_MICROS
  | None => true
  end.

(** The cap takes any of them; here the first by id. *)
Definition stale_rows (r : runs) : list recheck :=
  let b := r_tables r in
  let rows := map (λ ij : Z * job, recheck_of ij.2)
                (rows_of_ids (ids_where (stale_posting r) (b_jobs b)) b) in
  if reverify_per_cycle c =? 0 then rows else take (Z.to_nat (reverify_per_cycle c)) rows.

(** Put back by a source since the posting was last asked about. *)
Definition relisted (r : runs) (i : Z) (j : job) : bool :=
  IS_AVAILABLE j && AI_ELIGIBLE_JOB i j r &&
  sql_lt (last_asked (j_url j) "closed" (r_answers r)) (last_return i).

Definition relisted_rows (r : runs) : list recheck :=
  let b := r_tables r in
  map (λ ij : Z * job, recheck_of ij.2)
    (rows_of_ids (ids_where (relisted r) (b_jobs b)) b).

Definition reverify_rows (full : bool) (r : runs) : list recheck :=
  if full then full_rows r else remove_dups (stale_rows r ++ relisted_rows r)%list.

(** What a chunk still has to check: not asked within a day, and no page whose fetches keep
    coming back empty. *)
Definition still_to_check (force : bool) (rows : list recheck) (l : fetch_log) (answers : list answer)
    : list recheck :=
  if force then rows
  else
    let fresh (u : string) := match last_asked u "closed" answers with
                              | Some t => now - DAY_MICROS <? t
                              | None => false
                              end in
    List.filter (λ x : recheck, negb (fresh x.1.1) && negb (fetch_parked (vs_fetch_rules c) now x.1.1 l)) rows.

Inductive reverify_plan : Type :=
| ResumesOwnBatch
| NothingStale
| ChecksHere (rows : list recheck)
| Sharded (parts : nat).

Definition recheck_json (x : recheck) : json :=
  JObj [("url", JStr x.1.1); ("company", JStr x.1.2); ("title", JStr x.2)].

Definition reverify_chunk (tid : Z) (full : bool) (rows : list recheck) : jobject :=
  {[ "parent_id" := JInt tid; "rows" := JArr (map recheck_json rows); "force" := JBool full ]}.

Definition shard (tid : Z) (full : bool) (parts : list (list recheck)) (w : world) : world :=
  foldl (λ w rows, (enqueue now "reverify_chunk" (reverify_chunk tid full rows) None w).1) w parts.

Definition shard_label (n : nat) : string := pretty n ++ " chunks across the fleet".

(** Which postings, and whether here or in chunks; the closed rows are demoted with the
    first two. *)
Definition plan_reverify (existing : bool) (tid : Z) (payload : jobject) (r : runs)
    : runs * reverify_plan :=
  if existing then (r, ResumesOwnBatch)
  else
    let full := truthy (ctx_get "full" payload) in
    match reverify_rows full r with
    | [] => ((demote_closed (FilterRuns.with_world (set_progress cur now tid 0 0 "nothing stale" ∅ (r_queue r)) r)).1,
             NothingStale)
    | rows =>
        let size := Z.to_nat (filter_chunk_size (r_conf r)) in
        if (length rows <=? size)%nat then (r, ChecksHere rows)
        else
          let parts := chunks size rows in
          let w := shard tid full parts (r_queue r) in
          (FilterRuns.with_world (park_waiting cur tid (Z.of_nat (length rows)) (shard_label (length parts)) w) r,
           Sharded (length parts))
    end.
End reverify.
