(* ===== verification/VerifyProps.v ===== *)
(** * Verification: what it settles, reads and asks

    What collected answers write to the answers table, in any order they arrive: a new
    posting's answer only where there is none, a re-check only where nothing newer
    stands. Then the staged gate of the sweep against one EXISTS per posting, the near
    copies that are read once, and the pages read again unchanged. *)

From S2P Require Import Prelude PyStr Sql Json Tasks Spec Fallback Access Batches Collect Receipts Runs Catalog Screening Selection Verdicts Visibility RunInputs ManagedBoards Fetches FilterRuns FilterExec VerifyTargets Verification.

Local Open Scope string_scope.
Local Open Scope Z_scope.

(** ** What collected answers write *)

(** The answers to a check of a posting, newest first. *)
Definition answers_to (url check : string) (answers : list Verdicts.answer) : list Verdicts.answer :=
  List.filter (about url check None None) (verdicts answers).

Lemma answers_to_app url check l k :
  answers_to url check (l ++ k)%list = (answers_to url check l ++ answers_to url check k)%list.
Proof. unfold answers_to, verdicts. by rewrite !List.filter_app. Qed.

Lemma answers_to_rev url check l : answers_to url check (rev l) = rev (answers_to url check l).
Proof.
  induction l as [|a l IH]; [done|]. simpl. rewrite answers_to_app, IH.
  change (a :: l) with ([a] ++ l)%list. rewrite answers_to_app, rev_app_distr. f_equal.
  unfold answers_to, verdicts. simpl. destruct (decided a); [simpl|done]. by destruct (about _ _ _ _ a).
Qed.

Lemma settled_none url check answers : settled url check answers = false ↔ answers_to url check answers = [].
Proof.
  unfold settled, has_verdict, answers_to. induction (verdicts answers) as [|a l IH]; [done|]. simpl.
  destruct (about url check None None a); [done|]. exact IH.
Qed.

Lemma answers_to_none url check l :
  (∀ a, a ∈ l → a_url a ≠ url ∨ a_check_type a ≠ check) → answers_to url check l = [].
Proof.
  intros H. apply settled_none. unfold settled, has_verdict. apply not_true_is_false.
  intros (a & Ha & E)%existsb_exists. apply filter_In in Ha as [Ha%list_elem_of_In _].
  unfold about in E. simpl in E. rewrite !andb_true_r in E. apply andb_true_iff in E as [E1 E2].
  apply String.eqb_eq in E1. apply String.eqb_eq in E2. destruct (H a Ha); congruence.
Qed.

Section settling.
Context (sha256 : string → string) (validate_verdict : json → option VerifyVerdict)
  (validate_decision : json → option bool) (validate_text : string → option VerifyVerdict).

Lemma record_boards_custom groups now url model decisions boards answers u check :
  check ≠ "custom" →
  answers_to u check (record_boards groups now url model decisions boards answers) = answers_to u check answers.
Proof.
  intros Hc. revert answers. induction boards as [|b boards IH]; intros answers; [done|]. simpl.
  rewrite IH. destruct (_ || _); [done|].
  change (?a :: answers) with ([a] ++ answers)%list. rewrite answers_to_app, answers_to_none; [done|].
  intros a ->%list_elem_of_singleton. right. simpl. congruence.
Qed.

(** The rows of an answer about one axis. *)
Lemma axis_rows now url parsed ctx model question l u check :
  check ≠ "content" →
  answers_to u check (map (verdict_row now) (map (check_verdict url parsed ctx model question) l)) =
  if String.eqb url u
  then map (verdict_row now) (map (check_verdict url parsed ctx model question)
         (List.filter (λ x : string * bool * string, String.eqb x.1.1 check) l))
  else [].
Proof.
  intros Hk. induction l as [|[[c b] reason] l IH]; [simpl; by destruct (String.eqb url u)|].
  cbn [map List.filter fst]. change (?a :: map ?f ?l) with ([a] ++ map f l)%list at 1.
  rewrite answers_to_app, IH. destruct (String.eqb_spec c check) as [->|Hc].
  - destruct (String.eqb_spec url u) as [->|Hu].
    + unfold answers_to, verdicts, about, decided. simpl. rewrite (proj2 (String.eqb_neq _ _) Hk).
      destruct b; simpl; by rewrite !String.eqb_refl.
    + rewrite answers_to_none; [done|]. intros a ->%list_elem_of_singleton. by left.
  - rewrite answers_to_none; [by destruct (String.eqb url u)|]. intros a ->%list_elem_of_singleton. by right.
Qed.

Lemma elem_of_checks check : check ∈ CHECKS → check = "closed" ∨ check = "clearance".
Proof. unfold CHECKS. rewrite elem_of_cons, list_elem_of_singleton. done. Qed.

(** From none to one, or as they were. *)
Definition settles_once (url check : string) (l l' : list Verdicts.answer) : Prop :=
  answers_to url check l' = answers_to url check l ∨
  answers_to url check l = [] ∧ ∃ a, answers_to url check l' = [a].

#[export] Instance settles_once_preorder url check : PreOrder (settles_once url check).
Proof.
  split.
  - intros l. by left.
  - intros l1 l2 l3 [H1|[H1 [a Ha]]] [H2|[H2 [b Hb]]].
    + left. congruence.
    + right. split; [congruence|eauto].
    + right. split; [done|]. exists a. congruence.
    + congruence.
Qed.

Lemma wanted_settles_once now url parsed label model question ctx v answers u check :
  check ∈ CHECKS →
  settles_once u check answers
    (rev (map (verdict_row now) (map (check_verdict url parsed label model question) (wanted_axes url ctx v answers)))
     ++ answers)%list.
Proof.
  intros Hc%elem_of_checks. unfold settles_once.
  rewrite answers_to_app, answers_to_rev, axis_rows by (by destruct Hc as [-> | ->]).
  destruct (String.eqb_spec url u) as [->|]; [|by left].
  simpl. set (P := λ x : string * bool * string, _).
  assert (List.filter P (wanted_axes u ctx v answers) = [] ∨
          settled u check answers = false ∧ ∃ x, List.filter P (wanted_axes u ctx v answers) = [x]) as [->|[Hs [x ->]]].
  { unfold wanted_axes, axes, P. simpl.
    destruct (truthy (ctx_get ("needs_" ++ "closed") ctx) && negb (settled u "closed" answers)) eqn:E1,
      (truthy (ctx_get ("needs_" ++ "clearance") ctx) && negb (settled u "clearance" answers)) eqn:E2; simpl;
      breflect; destruct Hc as [-> | ->]; simpl; eauto 6. }
  - by left.
  - right. apply settled_none in Hs. rewrite Hs. simpl. eauto.
Qed.

Lemma record_settles_once groups now x answers answers' outcome u check :
  check ∈ CHECKS →
  _record_result sha256 validate_verdict validate_decision validate_text groups now x answers = Some (answers', outcome) →
  settles_once u check answers answers'.
Proof.
  intros Hc H. assert (check ≠ "custom") as Hk by (by apply elem_of_checks in Hc as [-> | ->]).
  unfold _record_result in H. destruct x as [r request].
  repeat (case_match; simplify_eq/=; try (reflexivity)).
  all: try (destruct (asked_boards _) as [boards|]; simplify_eq/=).
  all: repeat (case_match; simplify_eq/=; try reflexivity).
  all: repeat match goal with H : (_ ← ?o; _) = Some _ |- _ => destruct o; simplify_eq/= end.
  all: etrans; [by apply wanted_settles_once|]; left; by rewrite record_boards_custom.
Qed.
End settling.

(** ** Any order of collected results *)

Section collected_results.
Context (sha256 : string → string) (validate_verdict : json → option VerifyVerdict)
  (validate_decision : json → option bool) (validate_text : string → option VerifyVerdict).

(** A sweep over new postings consumes one result. *)
Inductive new_step : books * list Verdicts.answer → books * list Verdicts.answer → Prop :=
| ns_new groups now tid x b answers :
    new_step (b, answers)
      (consume_new sha256 validate_verdict validate_decision validate_text groups now tid x b answers).1.

(** A result of a batch submitted before a time, or of another posting. *)
Definition submitted_before (url : string) (t : Z) (b : books) (r : BatchResult) : Prop :=
  br_custom_id r ≠ url ∨
  ∃ bid batch, nonempty_opt (br_batch_id r) = Some bid ∧ sb_batches (bk_state b) !! bid = Some batch ∧
               ab_submitted_at batch < t.

(** Such a result, or a re-check whose batch was submitted before a time. *)
Inductive late_step (url : string) (t : Z) : books * list Verdicts.answer → books * list Verdicts.answer → Prop :=
| ls_new groups now tid x b answers :
    late_step url t (b, answers)
      (consume_new sha256 validate_verdict validate_decision validate_text groups now tid x b answers).1
| ls_recheck now tid x b answers :
    submitted_before url t b x.1 →
    late_step url t (b, answers) (consume_recheck sha256 validate_text now tid x b answers).1.

(** A consumed result leaves the answers, or what its body makes of them. *)
Lemma consumed now tid k (body : consumer (list Verdicts.answer)) b answers :
  (consume_result now tid k body b answers).1.2 = answers ∨
  ∃ receipts outcomes, body receipts answers = Some ((consume_result now tid k body b answers).1.2, outcomes).
Proof.
  unfold consume_result. destruct (owned_receipt tid k b) as [r|]; [|by left].
  destruct (body _ answers) as [[d o]|] eqn:E; [|by left].
  case_bool_decide; simpl; right; eauto.
Qed.

Lemma new_settles_once groups now tid x b answers u check :
  check ∈ CHECKS →
  settles_once u check answers
    (consume_new sha256 validate_verdict validate_decision validate_text groups now tid x b answers).1.2.
Proof.
  intros Hc. unfold consume_new.
  destruct (consumed now tid (key_of x)
    (record_new sha256 validate_verdict validate_decision validate_text groups now x) b answers)
    as [->|(receipts & outcomes & H)]; [by left|].
  set (l' := (consume_result _ _ _ _ _ _).1.2) in *. clearbody l'.
  unfold record_new in H. destruct receipts as [|r receipts]; simplify_eq/=; [by left|].
  destruct (rcp_pending r); simplify_eq/=; [|by left].
  destruct (_record_result _ _ _ _ _ _ _ _) as [[l o]|] eqn:E; simplify_eq/=.
  by eapply record_settles_once.
Qed.

(** A re-check leaves the answers, or finds nothing newer than its batch and writes both. *)
Lemma recheck_writes batches now x answers answers' outcome :
  recheck_result sha256 validate_text batches now x answers = Some (answers', outcome) →
  answers' = answers ∨
  (∀ check, check ∈ CHECKS → _newer_evidence batches x.1 check answers = false) ∧
  ∃ text v, answers' = (rev (recheck_rows sha256 now x.1 x.2 text v) ++ answers)%list.
Proof.
  unfold recheck_result. destruct x as [r request]. intros E.
  repeat (case_match; simplify_eq/=; try by left).
  repeat match goal with H : (_ ← ?o; _) = Some _ |- _ => destruct o; simplify_eq/= end.
  right. split; [|by eauto]. intros check [-> | ->]%elem_of_checks;
    match goal with H : _ || _ = false |- _ => apply orb_false_iff in H as [? H]; by apply orb_false_iff in H as [? _] end.
Qed.

Lemma recheck_consumed now tid x b answers :
  let l := (consume_recheck sha256 validate_text now tid x b answers).1.2 in
  l = answers ∨
  (∀ check, check ∈ CHECKS → _newer_evidence (sb_batches (bk_state b)) x.1 check answers = false) ∧
  ∃ text v, l = (rev (recheck_rows sha256 now x.1 x.2 text v) ++ answers)%list.
Proof.
  unfold consume_recheck.
  destruct (consumed now tid (key_of x) (record_recheck sha256 validate_text (sb_batches (bk_state b)) now x) b answers)
    as [->|(receipts & outcomes & H)]; [by left|].
  set (l' := (consume_result _ _ _ _ _ _).1.2) in *. clearbody l'.
  unfold record_recheck in H. destruct receipts as [|r receipts]; simplify_eq/=; [by left|].
  destruct (rcp_pending r); simplify_eq/=; [|by left].
  destruct (recheck_result _ _ _ _ _ _) as [[l o]|] eqn:E; simplify_eq/=. by apply recheck_writes in E.
Qed.

(** A re-check that a verdict outdates leaves the answers to both checks of its posting. *)
Lemma late_recheck now tid x b answers a :
  a ∈ verdicts answers → a_check_type a ∈ CHECKS → submitted_before (a_url a) (a_created_at a) b x.1 →
  answers_to (a_url a) (a_check_type a) (consume_recheck sha256 validate_text now tid x b answers).1.2 =
  answers_to (a_url a) (a_check_type a) answers.
Proof.
  intros Ha Hc Hs. destruct (recheck_consumed now tid x b answers) as [->|[Hn (text & v & ->)]]; [done|].
  rewrite answers_to_app, answers_to_rev. unfold recheck_rows.
  rewrite axis_rows by (by apply elem_of_checks in Hc as [-> | ->]).
  destruct Hs as [Hu|(bid & batch & E1 & E2 & Ht)]; [by rewrite (proj2 (String.eqb_neq _ _) Hu)|].
  destruct (String.eqb_spec (br_custom_id x.1) (a_url a)) as [Eu|]; [|done].
  specialize (Hn _ Hc). unfold _newer_evidence in Hn. rewrite E1, E2 in Hn. exfalso.
  apply not_true_iff_false in Hn. apply Hn, existsb_exists. exists a. split; [by apply list_elem_of_In|].
  rewrite Eu, !String.eqb_refl. simpl. by apply Z.ltb_lt.
Qed.

Lemma batches_kept now tid k (body : consumer (list Verdicts.answer)) b answers :
  bk_state (consume_result now tid k body b answers).1.1 = bk_state b.
Proof.
  unfold consume_result. destruct (owned_receipt tid k b); [|done]. destruct (body _ _) as [[? ?]|]; [|done].
  by case_bool_decide.
Qed.
End collected_results.

(** a check is bought once. Through any results of any sweeps over new postings, in any
    order and however often, the answers to a posting's closed check and to its clearance check
    stay as they are when there is one, and otherwise go at most from none to one. *)
Theorem checks_settle_once sha256 validate_verdict validate_decision validate_text s s' u check :
  check ∈ CHECKS →
  rtc (new_step sha256 validate_verdict validate_decision validate_text) s s' →
  settles_once u check s.2 s'.2.
Proof.
  intros Hc. induction 1 as [|x y z Hxy _ IH]; [done|]. etrans; [|exact IH].
  destruct Hxy as [groups now tid c b answers]. simpl. by apply new_settles_once.
Qed.

(** C27: a late re-check overwrites nothing. Once a verdict settles a posting's closed or
    clearance check, its answers stay as they are through any results of new postings and any
    re-checks whose batches were submitted before the verdict, whatever the order. *)
Theorem late_rechecks_yield sha256 validate_verdict validate_decision validate_text s s' a :
  a ∈ verdicts s.2 → a_check_type a ∈ CHECKS →
  rtc (late_step sha256 validate_verdict validate_decision validate_text (a_url a) (a_created_at a)) s s' →
  answers_to (a_url a) (a_check_type a) s'.2 = answers_to (a_url a) (a_check_type a) s.2.
Proof.
  intros Ha Hc Hs.
  assert (a ∈ answers_to (a_url a) (a_check_type a) s.2) as Hin.
  { unfold answers_to. apply list_elem_of_In, filter_In. split; [by apply list_elem_of_In|]. unfold about.
    simpl. by rewrite !String.eqb_refl. }
  clear Ha. induction Hs as [|x y z Hxy _ IH]; [done|].
  assert (answers_to (a_url a) (a_check_type a) y.2 = answers_to (a_url a) (a_check_type a) x.2) as E.
  { destruct Hxy as [groups now tid c b answers|now tid c b answers Hb]; simpl.
    - destruct (new_settles_once sha256 validate_verdict validate_decision validate_text groups now tid c b answers
                  (a_url a) (a_check_type a) Hc) as [E|[E _]]; [done|]. simpl in Hin. rewrite E in Hin. set_solver.
    - apply late_recheck; [|done..]. simpl in Hin. unfold answers_to in Hin.
      apply list_elem_of_In, filter_In in Hin as [Hin _]. by apply list_elem_of_In. }
  rewrite <- E. apply IH. by rewrite E.
Qed.

(** ** At a concrete result *)

Definition demo_verdict : VerifyVerdict := mkVerifyVerdict true "filled" false "".

Definition demo_request : BatchSpec :=
  mkSpec "u" "" "" "VerifyVerdict" ∅
    (Some {[ "company" := JStr "Acme"; "title" := JStr "Engineer"; "needs_closed" := JBool true;
             "needs_clearance" := JBool true ]}) Responses None.

Definition demo_result (bid : string) : collected :=
  (mkResult "u" (JStr "answer") JNull None (Some bid) (Some "gpt-6-luna") JNull None, Some demo_request).

Definition demo_receipt (tid : Z) : receipt :=
  mkReceipt tid (mkResponse (JStr "answer") JNull None JNull None) (Some "gpt-6-luna") None None.

Definition demo_books : books :=
  mkBooks
    (mkSub (mkWorld ∅ 1 [])
       {[ "early" := mkAiBatch 2 "reverify" None 1 1 0 "completed" 0 5 None None None ]} [] 0 [])
    {[ ("new", "u") := demo_receipt 1; ("early", "u") := demo_receipt 2 ]} [] [].

Definition demo_new (s : books * list Verdicts.answer) : books * list Verdicts.answer :=
  (consume_new (λ s, s) (λ _, None) (λ _, None) (λ _, Some demo_verdict) [] 10 1 (demo_result "new") s.1 s.2).1.

Definition demo_late (s : books * list Verdicts.answer) : books * list Verdicts.answer :=
  (consume_recheck (λ s, s) (λ _, Some demo_verdict) 11 2 (demo_result "early") s.1 s.2).1.

Lemma checks_settle_once_witness :
  length (answers_to "u" "closed" (demo_new (demo_books, [])).2) = 1%nat ∧
  settles_once "u" "closed" [] (demo_new (demo_new (demo_books, []))).2.
Proof.
  split; [vm_compute; reflexivity|].
  apply (checks_settle_once (λ s, s) (λ _, None) (λ _, None) (λ _, Some demo_verdict) (demo_books, [])
           (demo_new (demo_new (demo_books, []))) "u" "closed"); [left|].
  eapply rtc_l; [apply (ns_new _ _ _ _ [] 10 1 (demo_result "new") demo_books [])|].
  eapply rtc_l; [apply (ns_new _ _ _ _ [] 10 1 (demo_result "new") (demo_new (demo_books, [])).1
                          (demo_new (demo_books, [])).2)|].
  apply rtc_refl.
Defined.

(** The newest verdict of a list, when it has one. *)
Definition demo_settled : Verdicts.answer :=
  mkAnswer "u" "closed" "rejected" (Some "filled") (Some "verify-batch") None None None None None 10.

Lemma late_rechecks_yield_witness :
  ab_submitted_at (mkAiBatch 2 "reverify" None 1 1 0 "completed" 0 5 None None None) < a_created_at demo_settled ∧
  answers_to "u" "closed" (demo_late (demo_books, [demo_settled])).2 = [demo_settled].
Proof.
  split; [vm_compute; reflexivity|].
  refine (late_rechecks_yield (λ s, s) (λ _, None) (λ _, None) (λ _, Some demo_verdict)
            (demo_books, [demo_settled]) (demo_late (demo_books, [demo_settled])) demo_settled _ _ _).
  - apply list_elem_of_singleton. reflexivity.
  - left.
  - eapply rtc_l; [|apply rtc_refl].
    apply (ls_recheck _ _ _ _ _ _ 11 2 (demo_result "early") demo_books [demo_settled]).
    right. exists "early", (mkAiBatch 2 "reverify" None 1 1 0 "completed" 0 5 None None None).
    split; [reflexivity|split; reflexivity].
Defined.

Section stages.
Context (hashtext : string → Z) (now : Z) (p : gate_params) (t : gmap string location).

Lemma elem_of_readers targets s c :
  (s, c) ∈ reader targets ↔ ∃ target, target ∈ targets ∧ tg_source target = s ∧ tg_criteria target = c.
Proof.
  unfold reader. rewrite elem_of_remove_dups, list_elem_of_fmap. split.
  - intros (x & [= -> ->] & Hx). eauto.
  - intros (x & Hx & <- & <-). eauto.
Qed.

Lemma elem_of_dated pool readers d :
  d ∈ dated now p t pool readers ↔
  ∃ j, (dr_id d, j) ∈ pool ∧ dr_locations d = j_locations j ∧ dr_source d = j_source j ∧
       (dr_source d, dr_criteria d) ∈ readers ∧ verification_reachability_gate_enabled p = true ∧
       criteria_admit (Some _COLUMNS) now t (json_sql (dr_criteria d)) j = true.
Proof.
  unfold dated. rewrite list_elem_of_bind. split.
  - intros ([i j] & Hd & Hp). apply list_elem_of_fmap in Hd as ([s c] & -> & Hs).
    apply list_elem_of_In, filter_In in Hs as [Hs%list_elem_of_In H]. simpl in *. breflect.
    apply String.eqb_eq in H as ->. eauto 10.
  - intros (j & Hj & El & Es & Hr & Hg & Hc). exists (dr_id d, j). split; [|done].
    apply list_elem_of_fmap. exists (dr_source d, dr_criteria d). split.
    + simpl. rewrite <- El. by destruct d.
    + apply list_elem_of_In, filter_In. split; [by apply list_elem_of_In|]. simpl.
      rewrite Es, String.eqb_refl, Hg. by rewrite Hc.
Qed.

Lemma elem_of_matched pool readers d :
  d ∈ matched now t (dated now p t pool readers) ↔
  ∃ j, (dr_id d, j) ∈ pool ∧ dr_locations d = j_locations j ∧ dr_source d = j_source j ∧
       (dr_source d, dr_criteria d) ∈ readers ∧ verification_reachability_gate_enabled p = true ∧
       criteria_admit None now t (json_sql (dr_criteria d)) j = true.
Proof.
  unfold matched. rewrite list_elem_of_In, filter_In, <- list_elem_of_In.
  assert (d ∈ dated now p t pool readers →
          mem (dr_criteria d, dr_locations d) (placed now t (dated now p t pool readers)) =
          criteria_admit (Some _PLACES) now t (json_sql (dr_criteria d)) (placed_row (dr_locations d))) as Hm.
  { intros Hd. unfold mem, placed. destruct (criteria_admit _ _ _ _ _) eqn:E.
    - apply bool_decide_eq_true_2, list_elem_of_In, filter_In. split; [|done].
      apply list_elem_of_In, elem_of_remove_dups, list_elem_of_fmap. eauto.
    - apply bool_decide_eq_false_2. intros H%list_elem_of_In%filter_In. destruct H as [_ H]. simpl in H. congruence. }
  split.
  - intros [Hd H]. rewrite (Hm Hd) in H. apply elem_of_dated in Hd as (j & Hj & El & Es & Hr & Hg & Hc).
    exists j. repeat (split; [done|]). rewrite criteria_stages, Hc, places_read_locations, <- El. exact H.
  - intros (j & Hj & El & Es & Hr & Hg & Hc). rewrite criteria_stages in Hc.
    apply andb_true_iff in Hc as [Hc Hl].
    assert (d ∈ dated now p t pool readers) as Hd by (apply elem_of_dated; eauto 10).
    split; [done|]. rewrite (Hm Hd), El, <- places_read_locations. exact Hl.
Qed.
End stages.

(** C16: the staged gate of the verification sweep is the one EXISTS per posting it replaced:
    of a pool of postings it admits exactly those that every target reads, or that some target
    reads, by its source, its criteria, its title screens and the volume gate. *)
Theorem reachable_is_exists hashtext now p pool r i :
  i ∈ reachable hashtext now p pool r ↔
  i ∈ pool ∧ ∃ j, b_jobs (r_tables r) !! i = Some j ∧ admitted hashtext now p i j r = true.
Proof.
  unfold reachable. rewrite elem_of_remove_dups, elem_of_app.
  set (rows := omap _ pool).
  assert (∀ x, x ∈ rows ↔ x.1 ∈ pool ∧ b_jobs (r_tables r) !! x.1 = Some x.2) as Hrows.
  { intros [k j]. unfold rows. rewrite list_elem_of_omap. split.
    - intros (k' & Hk & E). destruct (b_jobs (r_tables r) !! k') eqn:Ej; simplify_eq/=. done.
    - intros [Hk Ej]. exists k. simpl in *. by rewrite Ej. }
  unfold admitted. split.
  - intros [H|H].
    + apply list_elem_of_fmap in H as ([k j] & -> & H%list_elem_of_In%filter_In).
      destruct H as [H%list_elem_of_In He]. apply Hrows in H as [Hk Hj]. simpl in *.
      split; [done|]. exists j. by rewrite He.
    + unfold targeted in H. apply list_elem_of_bind in H as (d & Hi & Hd).
      apply elem_of_matched in Hd as (j & Hj & _ & Es & _ & Hg & Hc).
      apply Hrows in Hj as [Hk Hj]. simpl in *. rewrite Hj in Hi.
      apply list_elem_of_fmap in Hi as (tg & -> & H%list_elem_of_In%filter_In).
      destruct H as [Ht%list_elem_of_In H]. breflect. apply String.eqb_eq in H.
      split; [done|]. exists j. split; [done|]. rewrite Hg. simpl. apply orb_true_iff. right.
      apply existsb_exists. exists tg. split; [by apply list_elem_of_In|]. unfold target_reads.
      rewrite H, Es, String.eqb_refl. match goal with E : tg_criteria tg = _ |- _ => rewrite E end.
      rewrite Hc. simpl. by apply andb_true_iff.
  - intros (Hi & j & Hj & [He|H]%orb_true_iff).
    + left. apply list_elem_of_fmap. exists (i, j). split; [done|]. apply list_elem_of_In, filter_In.
      split; [|done]. by apply list_elem_of_In, Hrows.
    + right. apply andb_true_iff in H as [Hg (tg & Ht%list_elem_of_In & H)%existsb_exists].
      unfold target_reads in H. breflect. apply String.eqb_eq in H.
      unfold targeted. apply list_elem_of_bind.
      exists (mkDated i (j_locations j) (j_source j) (tg_criteria tg)). split.
      * simpl. rewrite Hj. apply list_elem_of_fmap. exists tg. split; [done|].
        apply list_elem_of_In, filter_In. split; [by apply list_elem_of_In|].
        rewrite H, String.eqb_refl, bool_decide_eq_true_2 by done. simpl. by apply andb_true_iff.
      * apply elem_of_matched. exists j. simpl. rewrite Hrows. simpl. repeat (split; [done|]). split; [|done].
        apply elem_of_readers. eauto.
Qed.

(** ** Latest answers *)

Lemma latest_head url check l : latest url check None None l = head (answers_to url check l).
Proof.
  unfold latest, answers_to. induction (verdicts l) as [|a k IH]; [done|]. simpl.
  by destruct (about url check None None a).
Qed.

Lemma find_cat {A} (P : A → bool) l k :
  find P (l ++ k)%list = match find P l with Some x => Some x | None => find P k end.
Proof. induction l as [|a l IH]; [done|]. simpl. by destruct (P a). Qed.

(** The dict of dicts of rows whose posting and check are distinct. *)
Lemma checks_dict (rows : list Verdicts.answer) u c :
  NoDup (map (λ a, (a_url a, a_check_type a)) rows) →
  (foldl (λ out a, <[a_url a := <[a_check_type a := latest_verdict a]> (default ∅ (out !! a_url a))]> out)
     (∅ : gmap string (gmap string LatestVerdict)) rows !! u) ≫= (λ m, m !! c) =
  latest_verdict <$> find (λ a, String.eqb (a_url a) u && String.eqb (a_check_type a) c) rows.
Proof.
  induction rows as [|a rows IH] using rev_ind; intros Hd; [done|].
  rewrite map_app in Hd. apply NoDup_app in Hd as (Hd & Hn & _). rewrite foldl_app. simpl.
  rewrite find_cat. specialize (IH Hd).
  destruct (String.eqb_spec (a_url a) u) as [<-|Hu].
  - rewrite lookup_insert_eq. simpl. destruct (String.eqb_spec (a_check_type a) c) as [<-|Hc].
    + rewrite lookup_insert_eq. simpl.
      assert (find (λ x, String.eqb (a_url x) (a_url a) && String.eqb (a_check_type x) (a_check_type a)) rows = None) as ->.
      { destruct (find _ rows) as [x|] eqn:E; [|done]. apply find_some in E as [Hx [E1 E2]%andb_true_iff].
        apply String.eqb_eq in E1, E2. exfalso. apply (Hn (a_url x, a_check_type x)).
        - apply list_elem_of_fmap. exists x. split; [done|by apply list_elem_of_In].
        - rewrite E1, E2. by constructor. }
      simpl. by rewrite !String.eqb_refl.
    + rewrite lookup_insert_ne by done. rewrite String.eqb_refl. simpl. transitivity (latest_verdict <$>
        find (λ x, String.eqb (a_url x) (a_url a) && String.eqb (a_check_type x) c) rows).
      * rewrite <- IH. by destruct (foldl _ _ rows !! a_url a).
      * by destruct (find _ rows).
  - rewrite lookup_insert_ne by done. rewrite IH. simpl. rewrite (proj2 (String.eqb_neq _ _) Hu). by destruct (find _ rows).
Qed.

Lemma latest_checks_latest urls url check l :
  url ∈ urls → check ∈ CHECKS →
  default ∅ (latest_checks urls CHECKS l !! url) !! check = latest_verdict <$> latest url check None None l.
Proof.
  intros Hu Hc. unfold latest_checks.
  pose proof (distinct_on_keys (λ a, (a_url a, a_check_type a)) []
    (List.filter (λ a, mem (a_url a) urls && mem (a_check_type a) CHECKS) (verdicts l))) as [Hd _].
  pose proof (checks_dict (checks_rows urls CHECKS l) url check Hd) as E.
  transitivity ((foldl (λ out a, <[a_url a := <[a_check_type a := latest_verdict a]> (default ∅ (out !! a_url a))]> out)
     (∅ : gmap string (gmap string LatestVerdict)) (checks_rows urls CHECKS l) !! url) ≫= (λ m, m !! check)).
  { by destruct (_ !! url). }
  rewrite E. f_equal.
  assert (∀ a, latest url check None None l = Some a ↔
               a ∈ checks_rows urls CHECKS l ∧ a_url a = url ∧ a_check_type a = check) as Hl.
  { intros a. apply latest_per_latest. intros x -> ->. unfold mem. by rewrite !bool_decide_eq_true_2. }
  destruct (find _ (checks_rows urls CHECKS l)) as [a|] eqn:F.
  - apply find_some in F as [Ha%list_elem_of_In [E1 E2]%andb_true_iff]. apply String.eqb_eq in E1, E2.
    symmetry. by apply Hl.
  - destruct (latest url check None None l) as [a|] ; [|done].
    destruct (proj1 (Hl a) eq_refl) as (Ha%list_elem_of_In & E1 & E2).
    apply (find_none _ _ F) in Ha. by rewrite E1, E2, !String.eqb_refl in Ha.
Qed.

(** ** Pages read again unchanged *)

(** Rows about one posting, among the rows of each of several postings. *)
Lemma answers_to_concat {A} (f : A → list Verdicts.answer) (g : A → string) url check l :
  (∀ x a, x ∈ l → a ∈ f x → a_url a = g x) →
  answers_to url check (l ≫= f) = List.filter (λ x, String.eqb (g x) url) l ≫= λ x, answers_to url check (f x).
Proof.
  induction l as [|x l IH]; intros H; [done|]. csimpl. rewrite answers_to_app, IH by set_solver.
  destruct (String.eqb_spec (g x) url) as [E|E]; [done|]. rewrite answers_to_none; [done|].
  intros a Ha. left. rewrite (H x a); [done|set_solver|done].
Qed.

Lemma filter_unique url l : NoDup l → List.filter (λ x, String.eqb x url) l = if mem url l then [url] else [].
Proof.
  induction 1 as [|x l Hx _ IH]; [done|]. simpl. rewrite IH. unfold mem.
  destruct (String.eqb_spec x url) as [->|E].
  - rewrite (bool_decide_eq_false_2 (url ∈ l)), (bool_decide_eq_true_2 (url ∈ url :: l)); [done|by constructor|done].
  - destruct (bool_decide (url ∈ l)) eqn:F; breflect.
    + rewrite bool_decide_eq_true_2; [done|by constructor].
    + rewrite bool_decide_eq_false_2; [done|]. set_solver.
Qed.

Section unchanged_pages.
Context (sha256 : string → string) (verify_schema : jobject) (groups : list Group).

Lemma reused_row_url now model pages jobs answers url a :
  a ∈ reused_rows sha256 verify_schema groups now model pages jobs answers url → a_url a = url.
Proof.
  unfold reused_rows. repeat case_match; set_solver.
Qed.

(** A row of a page, with the status and reason of the answer it copies. *)
Lemma reused_answers now model pages jobs answers url check :
  url ∈ map fst pages → check ∈ CHECKS →
  let q := match alist_get url (rev pages) with
           | Some text => page_question sha256 verify_schema model url text
           | None => None
           end in
  answers_to url check (reused_rows sha256 verify_schema groups now model pages jobs answers url) = [] ∧
    reused_rows sha256 verify_schema groups now model pages jobs answers url = [] ∨
  ∃ a b, latest url check None None answers = Some a ∧
    answers_to url check (reused_rows sha256 verify_schema groups now model pages jobs answers url) = [b] ∧
    a_status b = a_status a ∧ a_reason b = a_reason a ∧ a_created_at b = now ∧ a_request_sha256 b = q.
Proof.
  intros Hu Hc q. unfold reused_rows.
  pose proof (latest_checks_latest _ _ "clearance" answers Hu ltac:(unfold CHECKS; set_solver)) as E1.
  pose proof (latest_checks_latest _ _ "closed" answers Hu ltac:(unfold CHECKS; set_solver)) as E2.
  unfold q. destruct (alist_get url (rev pages)) as [text|]; [|by left].
  destruct (jobs !! url) as [[company title]|]; [|by left]. rewrite E1, E2.
  destruct (latest url "clearance" None None answers) as [a1|] eqn:F1; [|by left].
  destruct (latest url "closed" None None answers) as [a2|] eqn:F2; [|by left]. simpl.
  destruct (_ && _); [|by left]. right.
  assert (∀ a c, latest url c None None answers = Some a → decided a = true) as Hdec.
  { intros a c H. apply find_some in H as [H _]. by apply filter_In in H as [_ H]. }
  pose proof (Hdec _ _ F1) as D1. pose proof (Hdec _ _ F2) as D2. unfold decided in D1, D2.
  apply andb_true_iff in D1 as [_ D1]. apply andb_true_iff in D2 as [_ D2].
  apply elem_of_checks in Hc as [-> | ->]; [exists a2|exists a1]; eexists; (split; [done|]);
    unfold answers_to, verdicts, decided, about; simpl; rewrite D1, D2; simpl; rewrite !String.eqb_refl; simpl; done.
Qed.
End unchanged_pages.

(** reading an unchanged page buys nothing and changes nothing. Whatever pages are read
    again, the standing answers a sweep reuses keep each posting's closed and clearance answers
    with the status and the reason they had; a page's answers are reused when both latest ones
    answered its question, and carry on the question and the time of this reading. *)
Theorem unchanged_pages_keep_answers sha256 verify_schema groups now model pages jobs answers answers' reused :
  _reuse_unchanged sha256 verify_schema groups now model pages jobs answers = (answers', reused) →
  (∀ url check, check ∈ CHECKS →
     latest_status url check None answers' = latest_status url check None answers ∧
     (latest url check None None answers' ≫= a_reason) = (latest url check None None answers ≫= a_reason)) ∧
  (∀ url check, url ∈ reused → check ∈ CHECKS → ∃ a text, latest url check None None answers' = Some a ∧
     alist_get url (rev pages) = Some text ∧ a_created_at a = now ∧
     a_request_sha256 a = page_question sha256 verify_schema model url text).
Proof.
  unfold _reuse_unchanged. intros [= <- <-].
  set (urls := merge_sort String.le (remove_dups (map fst pages))).
  set (f := reused_rows sha256 verify_schema groups now model pages jobs answers).
  assert (Permutation urls (remove_dups (map fst pages))) as Hp by apply merge_sort_Permutation.
  assert (NoDup urls) as Hd by (rewrite Hp; apply NoDup_remove_dups).
  assert (∀ url, url ∈ urls ↔ url ∈ map fst pages) as Hin by (intros url; rewrite Hp; apply elem_of_remove_dups).
  assert (∀ url check, answers_to url check (rev (urls ≫= f) ++ answers)%list =
            ((if mem url urls then rev (answers_to url check (f url)) else []) ++ answers_to url check answers)%list) as E.
  { intros url check. rewrite answers_to_app, answers_to_rev, (answers_to_concat f id) by
      (intros x a _ Ha; by eapply reused_row_url).
    unfold id. rewrite filter_unique by done. destruct (mem url urls); [|done]. simpl. by rewrite app_nil_r. }
  split.
  - intros url check Hc. unfold latest_status. rewrite !latest_head, E.
    destruct (mem url urls) eqn:M; unfold mem in M; breflect; [|done]. rewrite Hin in M.
    destruct (reused_answers sha256 verify_schema groups now model pages jobs answers url check M Hc)
      as [[Eb _]|(a & b & Ea & Eb & Es & Er & _)]; fold f in Eb; rewrite Eb; [done|].
    rewrite latest_head in Ea. rewrite Ea. simpl. by rewrite Es, Er.
  - intros url check (a & -> & Ha)%elem_of_remove_dups%list_elem_of_fmap Hc.
    apply list_elem_of_bind in Ha as (url & Ha & Hu). pose proof (reused_row_url _ _ _ _ _ _ _ _ _ _ Ha) as Eu.
    rewrite Eu. pose proof Hu as Hu'. rewrite Hin in Hu'.
    destruct (reused_answers sha256 verify_schema groups now model pages jobs answers url check Hu' Hc)
      as [[_ Hn]|(a' & b & Ea & Eb & _ & _ & Et & Eq)]; [fold f in Hn; rewrite Hn in Ha; set_solver|].
    rewrite latest_head, E. unfold mem. rewrite bool_decide_eq_true_2 by done. fold f in Eb. rewrite Eb. simpl.
    destruct (alist_get url (rev pages)) as [text|] eqn:F; [by exists b, text|].
    exfalso. unfold f, reused_rows in Ha. rewrite F in Ha. set_solver.
Qed.

(** ** Near copies *)

Section split.
Context (sha256 : string → string) (twins : source_key → option string) (flying : list source_key).

(** What the loop has decided of the candidates it has seen. *)
Record split_inv (seen : list verify_row) (s : twin_split) : Prop := mkSplitInv {
  si_sub : sp_verify s `sublist_of` seen;
  si_once : NoDup (map (row_source_key sha256) (sp_verify s));
  si_selected : ∀ k, k ∈ sp_selected s ↔ k ∈ map (row_source_key sha256) (sp_verify s);
  si_asked : ∀ v, v ∈ sp_verify s → twins (row_source_key sha256 v) = None ∧ row_source_key sha256 v ∉ flying;
  si_reuse : map fst (sp_reuse s) `sublist_of` seen ∧
             ∀ v url, (v, url) ∈ sp_reuse s ↔ v ∈ seen ∧ twins (row_source_key sha256 v) = Some url;
  si_waits : ∀ v, v ∈ seen → twins (row_source_key sha256 v) = None →
             row_source_key sha256 v ∈ flying ∨ row_source_key sha256 v ∈ sp_selected s;
}.

Lemma split_step_inv seen s v :
  split_inv seen s → split_inv (seen ++ [v]) (split_step sha256 twins flying s v).
Proof.
  intros [Hsub Honce Hsel Hask [Hru Hre] Hw]. unfold split_step.
  destruct (twins (row_source_key sha256 v)) as [url|] eqn:E.
  - constructor; simpl; try done.
    + by apply sublist_inserts_r.
    + split.
      * rewrite map_app. apply sublist_app; [done|]. simpl. by apply sublist_skip.
      * intros v' url'. rewrite !elem_of_app, !list_elem_of_singleton, Hre. split.
        -- intros [[? ?]|[= -> ->]]; [split; [by left|done]|split; [by right|done]].
        -- intros [[?| ->] ?]; [by left|right]. congruence.
    + intros v' [Hv| ->%list_elem_of_singleton]%elem_of_app Hn; [by apply Hw|congruence].
  - destruct (mem (row_source_key sha256 v) flying || mem (row_source_key sha256 v) (sp_selected s)) eqn:M;
      unfold mem in M; breflect; constructor; simpl; try done.
    + by apply sublist_inserts_r.
    + split; [by apply sublist_inserts_r|]. intros v' url'. rewrite Hre, elem_of_app, list_elem_of_singleton.
      split; [intros [? ?]; split; [by left|done]|]. intros [[?| ->] ?]; [done|congruence].
    + intros v' [Hv| ->%list_elem_of_singleton]%elem_of_app Hn; [by apply Hw|].
      apply orb_true_iff in M as [M|M]; breflect; eauto.
    + by apply sublist_app.
    + rewrite map_app. apply NoDup_app. split_and!; [done| |apply NoDup_singleton]. intros k Hk.
      simpl. rewrite list_elem_of_singleton. intros ->. apply Hsel in Hk. done.
    + intros k. rewrite map_app, elem_of_cons, elem_of_app, Hsel. simpl. rewrite list_elem_of_singleton. tauto.
    + intros v' [Hv| ->%list_elem_of_singleton]%elem_of_app; [by apply Hask|done].
    + split; [by apply sublist_inserts_r|]. intros v' url'. rewrite Hre, elem_of_app, list_elem_of_singleton.
      split; [intros [? ?]; split; [by left|done]|]. intros [[?| ->] ?]; [done|congruence].
    + intros v' [Hv| ->%list_elem_of_singleton]%elem_of_app Hn.
      * destruct (Hw v' Hv Hn); [by left|right; by constructor 2].
      * right. constructor.
Qed.

Lemma split_candidates_inv rows : split_inv rows (split_candidates sha256 twins flying rows).
Proof.
  unfold split_candidates. induction rows as [|v rows IH] using rev_ind.
  - constructor; simpl; [done|constructor|set_solver|set_solver| |set_solver].
    split; [done|]. intros v url. split; [set_solver|]. intros [? _]. set_solver.
  - rewrite foldl_app. by apply split_step_inv.
Qed.
End split.

Section copies.
Context (now : Z) (d : db) (twin_urls : list string).

Lemma copied_row_url v twin a : a ∈ copied_rows now d twin_urls (v, twin) → a_url a = vr_url v.
Proof.
  unfold copied_rows. rewrite elem_of_app. intros [H|H].
  - apply list_elem_of_omap in H as (check & _ & H). case_match; [|done].
    destruct (_ !! check); simplify_eq/=. done.
  - by apply list_elem_of_fmap in H as (x & -> & _).
Qed.

(** A candidate takes its twin's answer to each check it needs. *)
Lemma copied_answers v twin check a :
  twin ∈ twin_urls → check ∈ CHECKS → needs check v = true →
  latest twin check None None (b_answers (d_tables d)) = Some a →
  answers_to (vr_url v) check (copied_rows now d twin_urls (v, twin)) =
    [copied_check now check v (latest_verdict a)].
Proof.
  intros Ht Hc Hn Ha. unfold copied_rows. rewrite answers_to_app.
  rewrite (answers_to_none _ _ (map _ _)), app_nil_r.
  2: { intros x (y & -> & _)%list_elem_of_fmap. right. simpl. by apply elem_of_checks in Hc as [-> | ->]. }
  assert (decided a = true) as Hd.
  { apply find_some in Ha as [Ha _]. by apply filter_In in Ha as [_ Ha]. }
  unfold decided in Hd. apply andb_true_iff in Hd as [_ Hd].
  pose proof (latest_checks_latest twin_urls twin check (b_answers (d_tables d)) Ht Hc) as E. rewrite Ha in E.
  set (f := λ c, if needs c v then copied_check now c v <$> _ else None).
  assert (f check = Some (copied_check now check v (latest_verdict a))) as Ef by (unfold f; by rewrite Hn, E).
  assert (∀ c x, f c = Some x → a_check_type x = c) as Ht'.
  { intros c x. unfold f. destruct (needs c v); [|done]. by intros (y & _ & ->)%fmap_Some_1. }
  assert (answers_to (vr_url v) check [copied_check now check v (latest_verdict a)] =
            [copied_check now check v (latest_verdict a)]) as Eone.
  { unfold answers_to, verdicts, decided, about. simpl. rewrite Hd.
    apply elem_of_checks in Hc as [-> | ->]; simpl; by rewrite !String.eqb_refl. }
  assert (∀ c x, c ≠ check → f c = Some x → answers_to (vr_url v) check [x] = []) as Eno.
  { intros c x Hne Hx. apply answers_to_none. intros y ->%list_elem_of_singleton. right. by rewrite (Ht' c x Hx). }
  clearbody f. apply elem_of_checks in Hc as [-> | ->]; unfold CHECKS; cbn [omap list_omap]; rewrite Ef.
  - destruct (f "clearance") as [x|] eqn:Ex; [|done].
    change [?a; x] with ([a] ++ [x])%list. by rewrite answers_to_app, Eone, (Eno "clearance" x ltac:(discriminate) Ex).
  - destruct (f "closed") as [x|] eqn:Ex; [|done].
    change [x; ?a] with ([x] ++ [a])%list. by rewrite answers_to_app, Eone, (Eno "closed" x ltac:(discriminate) Ex).
Qed.
End copies.

Lemma filter_nothing {A} (P : A → bool) l : (∀ x, x ∈ l → P x = false) → List.filter P l = [].
Proof. induction l as [|x l IH]; intros H; [done|]. simpl. rewrite (H x) by constructor. apply IH. set_solver. Qed.

(** The one pair of a candidate, when the candidates' postings are distinct. *)
Lemma filter_pair (l : list (verify_row * string)) v url :
  NoDup (map vr_url (map fst l)) → (v, url) ∈ l →
  List.filter (λ x : verify_row * string, String.eqb (vr_url x.1) (vr_url v)) l = [(v, url)].
Proof.
  induction l as [|[v' url'] l IH]; intros Hd Hin; [by apply elem_of_nil in Hin|]. simpl in *.
  apply NoDup_cons in Hd as [Hn Hd]. apply elem_of_cons in Hin as [[= <- <-]|Hin].
  - rewrite String.eqb_refl, filter_nothing; [done|]. intros [w x] Hw. simpl. apply String.eqb_neq. intros E.
    apply Hn. rewrite <- E. apply list_elem_of_fmap. exists w. split; [done|].
    apply list_elem_of_fmap. by exists (w, x).
  - assert (vr_url v' ≠ vr_url v) as Hne.
    { intros E. apply Hn. rewrite E. apply list_elem_of_fmap. exists v. split; [done|].
      apply list_elem_of_fmap. by exists (v, url). }
    rewrite (proj2 (String.eqb_neq _ _) Hne). by apply IH.
Qed.

Lemma verified_twin_spec urls k b twin :
  verified_twin urls k b = Some twin →
  ∃ i j, b_jobs b !! i = Some j ∧ j_url j = twin ∧ j_source j = k.1 ∧ j_near_copy_key j = Some k.2 ∧
         twin ∉ urls ∧ fully_verified twin (b_answers b) = true.
Proof.
  unfold verified_twin. intros H. destruct (last _) as [i|] eqn:E; [|done]. simpl in H.
  apply last_Some_elem_of, elem_of_ids_where in E as (j & Hj & E). rewrite Hj in H. simplify_eq/=.
  unfold column_is, mem in E. breflect. exists i, j. repeat match goal with H : String.eqb _ _ = true |- _ => apply String.eqb_eq in H end.
  done.
Qed.

Lemma verified_latest url check answers :
  fully_verified url answers = true → check ∈ CHECKS → ∃ a, latest url check None None answers = Some a.
Proof.
  intros H Hc. rewrite latest_head. unfold fully_verified in H. apply andb_true_iff in H as [H1 H2].
  destruct (answers_to url check answers) as [|a l] eqn:E; [|by exists a].
  apply settled_none in E. unfold settled in E. apply elem_of_checks in Hc as [-> | ->]; congruence.
Qed.

(** A posting shares a candidate's source and key. *)
Definition twin_posting (sha256 : string → string) (v : verify_row) (j : job) : Prop :=
  j_source j = vr_source v ∧ j_near_copy_key j = Some (row_key sha256 v).

Lemma in_flight_twin sha256 v in_flight b :
  row_source_key sha256 v ∈ in_flight_source_keys in_flight b ↔
  ∃ i j, b_jobs b !! i = Some j ∧ j_url j ∈ in_flight ∧ twin_posting sha256 v j.
Proof.
  unfold in_flight_source_keys, row_source_key, twin_posting. rewrite list_elem_of_omap. split.
  - intros (j & Hj & E). apply list_elem_of_fmap in Hj as ([i j'] & -> & Hj%elem_of_map_to_list). simpl in *.
    unfold mem in E. case_bool_decide; simplify_eq/=.
    destruct (j_near_copy_key j') eqn:Ek; simplify_eq/=. exists i, j'. by rewrite Ek.
  - intros (i & j & Hj & Hf & Es & Ek). exists j. split.
    + apply list_elem_of_fmap. exists (i, j). split; [done|by apply elem_of_map_to_list].
    + unfold mem. rewrite bool_decide_eq_true_2 by done. rewrite Ek. simpl. by rewrite Es.
Qed.

(** The copies' answers: those of every pair, over what was there. *)
Lemma copied_over now reuse r url check :
  answers_to url check (r_answers (_copy_twin_verdicts now reuse r)) =
  (rev (answers_to url check (reuse ≫= copied_rows now (r_db r) (merge_sort String.le (remove_dups (map snd reuse))))) ++
   answers_to url check (r_answers r))%list.
Proof. unfold _copy_twin_verdicts, add_ai_results. by rewrite <- answers_to_rev, <- answers_to_app. Qed.

Lemma bind_one {A B} (x : A) (f : A → list B) : [x] ≫= f = f x.
Proof. csimpl. apply app_nil_r. Qed.

Section copied.
Context (now : Z) (reuse : list (verify_row * string)) (r : runs).
Hypothesis Hd : NoDup (map vr_url (map fst reuse)).

Lemma copies_elsewhere url check :
  (∀ v twin, (v, twin) ∈ reuse → vr_url v ≠ url) →
  answers_to url check (r_answers (_copy_twin_verdicts now reuse r)) = answers_to url check (r_answers r).
Proof.
  intros H. rewrite copied_over, answers_to_none; [done|]. intros a ([v twin] & Ha & Hin)%list_elem_of_bind.
  left. rewrite (copied_row_url _ _ _ _ _ _ Ha). eauto.
Qed.

Lemma copies_twin v twin check a :
  (v, twin) ∈ reuse → check ∈ CHECKS → needs check v = true →
  latest twin check None None (r_answers r) = Some a →
  latest_status (vr_url v) check None (r_answers (_copy_twin_verdicts now reuse r)) = Some (a_status a).
Proof.
  intros Hin Hc Hn Ha. unfold latest_status. rewrite latest_head, copied_over.
  rewrite (answers_to_concat _ (λ x : verify_row * string, vr_url x.1)).
  2: { intros [w x] b _ Hb. by eapply copied_row_url. }
  rewrite (filter_pair _ _ _ Hd Hin), bind_one.
  rewrite (copied_answers now (r_db r) _ v twin check a); [done| |done..].
  rewrite merge_sort_Permutation. apply elem_of_remove_dups, list_elem_of_fmap. by exists (v, twin).
Qed.
End copied.

(** one posting's text is read once. Of the candidates of a sweep, those it asks about
    have distinct sources and keys, and no other sweep is reading their near copies; each of
    the rest has, to every check it needed, the answer of a verified near copy that was not a
    candidate, or waits for a near copy that this sweep asks about or another one has asked. *)
Theorem near_copies_read_once sha256 now tid rows requests r r' still :
  NoDup (map vr_url rows) → _reuse_near_copies sha256 now tid rows requests r = (r', still) →
  let flying := _in_flight tid requests (tasks (r_queue r)) in
  still `sublist_of` rows ∧ NoDup (map (row_source_key sha256) still) ∧
  (∀ v i j, v ∈ still → b_jobs (r_tables r') !! i = Some j → j_url j ∈ flying → ¬ twin_posting sha256 v j) ∧
  ∀ v, v ∈ rows → v ∉ still →
    (∃ i j, b_jobs (r_tables r') !! i = Some j ∧ twin_posting sha256 v j ∧ j_url j ∉ map vr_url rows ∧
       ∀ check, check ∈ CHECKS → needs check v = true →
         ∃ a, latest (j_url j) check None None (r_answers r') = Some a ∧
              latest_status (vr_url v) check None (r_answers r') = Some (a_status a)) ∨
    (∃ v', v' ∈ still ∧ row_source_key sha256 v' = row_source_key sha256 v) ∨
    (∃ i j, b_jobs (r_tables r') !! i = Some j ∧ twin_posting sha256 v j ∧ j_url j ∈ flying).
Proof.
  intros Hnd H flying. unfold _reuse_near_copies in H.
  set (r1 := with_jobs _ r) in H. unfold twin_decision in H.
  set (b := r_tables r1) in H. set (twins := λ k, verified_twin _ k b) in H.
  pose proof (split_candidates_inv sha256 twins (in_flight_source_keys flying b) rows) as I.
  set (s := split_candidates _ _ _ rows) in *. destruct I as [Hsub Honce Hsel Hask [Hru Hre] Hw].
  assert (b_jobs (r_tables r') = b_jobs b) as Hjobs by (destruct (sp_reuse s); by simplify_eq/=).
  assert (still = sp_verify s) as -> by congruence.
  assert (r' = _copy_twin_verdicts now (sp_reuse s) r1 ∨ sp_reuse s = [] ∧ r' = r1) as Hr.
  { destruct (sp_reuse s) eqn:E; simplify_eq; [by right|by left]. }
  rewrite Hjobs. split_and!; [done..| |].
  - intros v i j Hv Hj Hf Ht. apply Hask in Hv as [_ Hv]. apply Hv, in_flight_twin. eauto.
  - intros v Hv _. destruct (twins (row_source_key sha256 v)) as [twin|] eqn:E.
    + left. pose proof E as E'. unfold twins in E'. apply verified_twin_spec in E' as (i & j & Hj & <- & Es & Ek & Hn & Hf).
      exists i, j. split_and!; [done..|]. intros check Hc Hneed.
      destruct (verified_latest _ _ _ Hf Hc) as (a & Ha). exists a.
      assert ((v, j_url j) ∈ sp_reuse s) as Hin by (by apply Hre).
      assert (NoDup (map vr_url (map fst (sp_reuse s)))) as Hd.
      { eapply sublist_NoDup; [exact Hnd|]. by apply (sublist_fmap vr_url). }
      destruct Hr as [->|[Hr _]]; [|rewrite Hr in Hin; set_solver]. split.
      * rewrite latest_head, copies_elsewhere, <- latest_head; [done|]. intros w t Hw' Ew. apply Hn.
        apply Hre in Hw' as [Hw' _]. rewrite <- Ew. apply list_elem_of_fmap. by exists w.
      * by apply (copies_twin now (sp_reuse s) r1 Hd v (j_url j)).
    + right. destruct (Hw v Hv E) as [Hf|Hs].
      * right. apply in_flight_twin in Hf as (i & j & ? & ? & ?). eauto.
      * left. apply Hsel, list_elem_of_fmap in Hs as (v' & -> & ?). eauto.
Qed.

(** ** At concrete candidates *)

Definition demo_row (url text : string) : verify_row := mkVerifyRow url "acme" "Acme" "Engineer" text 1 true true.

(** Two copies of one text, and a copy of a posting verified before. *)
Definition demo_candidates : list verify_row :=
  [demo_row "a" "Build 2 things."; demo_row "b" "Build 3 things."; demo_row "c" "Sell things."].

Definition demo_posting (url : string) (key : option string) : job :=
  mkJob url url "Acme" "Engineer" [] [] "acme" key true (Some true) None 0.

Definition demo_check (check : string) : Verdicts.answer :=
  mkAnswer "d" check "passed" (Some "open") None None None None None None 0.

Definition demo_site : runs :=
  mkRuns
    (mkDb ∅ ∅ ∅ [] ∅ [] (mkWorld ∅ 1 []) no_configs
       (mkBoard {[ 1 := demo_posting "a" None; 2 := demo_posting "b" None; 3 := demo_posting "c" None;
                   4 := demo_posting "d" (Some (twin_text "Engineer" "Sell things.")) ]}
          ∅ ∅ ∅ [demo_check "closed"; demo_check "clearance"] [] (mkSelections ∅ ∅ ∅ ∅ ∅) ∅ ∅ ∅ ∅) [] ∅ [])
    ∅ (mkRunSettings 20 200 true ∅).

Definition demo_reuse : runs * list verify_row := _reuse_near_copies (λ s, s) 5 1 demo_candidates ∅ demo_site.

Lemma near_copies_read_once_witness :
  demo_reuse.2 = [demo_row "a" "Build 2 things."] ∧
  NoDup (map (row_source_key (λ s, s)) demo_reuse.2) ∧
  latest_status "c" "closed" None (r_answers demo_reuse.1) = Some "passed".
Proof.
  assert (NoDup (map vr_url demo_candidates)) as Hd by (apply (bool_decide_eq_true_1 _); vm_compute; reflexivity).
  destruct (near_copies_read_once (λ s, s) 5 1 demo_candidates ∅ demo_site demo_reuse.1 demo_reuse.2 Hd
              (surjective_pairing _)) as (_ & Hn & _).
  split; [vm_compute; reflexivity|]. split; [exact Hn|vm_compute; reflexivity].
Defined.

Definition demo_question : option string := page_question (λ s, s) ∅ "m" "d" "text".

Definition demo_standing (check : string) : Verdicts.answer :=
  mkAnswer "d" check "passed" (Some "open") None (Some "m") None None None demo_question 0.

Definition demo_unchanged : list Verdicts.answer * list string :=
  _reuse_unchanged (λ s, s) ∅ [] 7 "m" [("d", "text")] {[ "d" := ("Acme", "Engineer") ]}
    [demo_standing "closed"; demo_standing "clearance"].

Lemma unchanged_pages_keep_answers_witness :
  demo_unchanged.2 = ["d"] ∧ latest_status "d" "closed" None demo_unchanged.1 = Some "passed" ∧
  ∃ a text, latest "d" "clearance" None None demo_unchanged.1 = Some a ∧
    alist_get "d" (rev [("d", "text")]) = Some text ∧ a_created_at a = 7 ∧
    a_request_sha256 a = page_question (λ s, s) ∅ "m" "d" text.
Proof.
  destruct (unchanged_pages_keep_answers (λ s, s) ∅ [] 7 "m" [("d", "text")] {[ "d" := ("Acme", "Engineer") ]}
              [demo_standing "closed"; demo_standing "clearance"] demo_unchanged.1 demo_unchanged.2
              (surjective_pairing _)) as [Hkeep Hread].
  split; [vm_compute; reflexivity|]. split.
  - rewrite (proj1 (Hkeep "d" "closed" ltac:(constructor))). vm_compute. reflexivity.
  - apply Hread; [|right; constructor]. apply (bool_decide_eq_true_1 _). vm_compute. reflexivity.
Defined.
