(* ===== verification/Ssrf.v ===== *)
(** * Which addresses a request may reach ([api.ssrf], [api.fetching])

    The static checks of a URL, the check of what its host resolves to, the client whose
    connections are pinned to a checked address, and the page fetches that check before and
    after; then what they promise. Name resolution is a parameter that may answer differently
    every time it is asked: [n] counts the lookups made so far. *)

From Stdlib Require Import Ascii.
From S2P Require Import Prelude PyStr Urls.

Local Open Scope string_scope.
Local Open Scope Z_scope.

Definition _CGNAT : network := (quad 100 64 0 0, 10).

(** An IPv4 address mapped into IPv6 is read as itself. *)
Definition unmapped (a : ip_addr) : ip_addr :=
  match a with
  | V6 n => match ipv4_mapped n with Some m => V4 m | None => a end
  | V4 _ => a
  end.

Definition address_ok (a : ip_addr) : bool :=
  let a := unmapped a in
  negb (is_private a || is_loopback a || is_link_local a || is_multicast a || is_reserved a || is_unspecified a) &&
  match a with V4 n => negb (in_network 32 n _CGNAT) | V6 _ => true end.

Definition _addr_ok (ip : string) : bool :=
  match ip_address ip with
  | Some a => address_ok a
  | None => false
  end.

(** A host that is a DNS name with a dot, not at its end. *)
Definition dns_name (host : string) : bool := contains "." host && negb (ends_with "." host).

(** The answers: no error, or its message. [None] is a ValueError of [urlparse]. *)
Definition validate_base_url (url : string) : option (option string) :=
  u ← urlparse url;
  Some (if negb (String.eqb (pu_scheme u) "https") then Some "base_url must use https"
        else
          match url_hostname u with
          | None => Some "base_url has no hostname"
          | Some host =>
              if has_credentials u then Some "base_url must not contain credentials"
              else
                match ip_address host with
                | Some _ => Some "base_url must use a hostname, not an IP address"
                | None => if dns_name host then None else Some "base_url hostname must be a public DNS name"
                end
          end).

Definition validate_public_url (url : string) : option (option string) :=
  u ← urlparse url;
  Some (if negb (mem (pu_scheme u) ["http"; "https"]) then Some "url must be http or https"
        else
          match url_hostname u with
          | None => Some "url has no hostname"
          | Some host =>
              if has_credentials u then Some "url must not contain credentials"
              else
                match ip_address host with
                | Some a => if address_ok a then None else Some "url points at a non-public address"
                | None => if dns_name host then None else Some "url hostname must be a public DNS name"
                end
          end).

Section resolving.
(** [getaddrinfo]: the addresses of a host at a lookup, [None] when there is an error. *)
Context (dns : nat → string → option (list string)).

Definition resolve_public_ip (n : nat) (host : string) : result string string :=
  match dns n host with
  | None => Err ("could not resolve " ++ host)
  | Some ips =>
      match merge_sort String.le (remove_dups ips) with
      | [] => Err ("no addresses for " ++ host)
      | ip :: _ =>
          if forallb _addr_ok ips then Ok ip else Err (host ++ " resolves to a non-public address")
      end
  end.

(** Its answer and the lookups made. *)
Definition public_url_error (n : nat) (url : string) : option (option string * nat) :=
  error ← validate_public_url url;
  match error with
  | Some e => Some (Some e, n)
  | None =>
      u ← urlparse url;
      Some (match resolve_public_ip n (default "" (url_hostname u)) with
            | Ok _ => None
            | Err e => Some e
            end, S n)
  end.

(** ** The pinned client *)

(** A request: its URL and the host [httpx] reads in it. *)
Record request : Type := mkRequest {
  rq_url : string;
  rq_host : string;
}.

(** Where a request connects, the host it names in its headers and its handshake. *)
Record connection : Type := mkConnection {
  cn_address : string;
  cn_host : string;
}.

(** [handle_async_request]: the connection it makes, if it makes one. *)
Definition handle_async_request (n : nat) (q : request) : option connection * nat :=
  match validate_base_url (rq_url q) with
  | Some None =>
      (match resolve_public_ip n (rq_host q) with
       | Ok ip => Some (mkConnection ip (rq_host q))
       | Err _ => None
       end, S n)
  | _ => (None, n)
  end.

(** The requests of a client, redirects among them, with lookups of others between. *)
Fixpoint connections (n : nat) (l : list (nat * request)) : list connection :=
  match l with
  | [] => []
  | (between, q) :: l =>
      let '(made, n) := handle_async_request (n + between) q in
      match made with
      | Some c => c :: connections n l
      | None => connections n l
      end
  end.

(** ** Page fetches ([api.fetching]) *)

Definition _BLOCK_MARKERS : list string :=
  ["captcha"; "access denied"; "request blocked"; "are you a robot"; "unusual traffic"; "too many requests";
   "rate limit"; "just a moment"; "checking your browser"; "attention required"; "service unavailable";
   "temporarily unavailable"; "not available in your region"; "not available in your country"; "error 503";
   "error 502"].

Definition text_len (s : string) : Z := Z.of_nat (String.length s).

(** [None] and the empty text are not blocked. *)
Definition looks_blocked (content : option string) : bool :=
  match content with
  | None | Some "" => false
  | Some content =>
      let text := strip content in
      if text_len text <? 300 then true
      else if text_len text <? 6000
      then existsb (λ m, contains m (lower text)) _BLOCK_MARKERS
      else false
  end.

(** [_ID_SEGMENT]: at least three letters, digits, underscores or hyphens, two of them digits. *)
Definition is_id_segment (segment : list ascii) : bool :=
  (3 <=? length segment)%nat &&
  forallb (λ c, is_alpha c || is_digit c || mem c ["_"; "-"]%char) segment &&
  (2 <=? length (List.filter is_digit segment))%nat.

Definition _posting_ids (path : string) : list string :=
  map of_chars (List.filter is_id_segment (split_at "/"%char (chars path))).

Definition share (a b : list string) : bool := existsb (λ x, mem x b) a.

(** The outer [None] is ValueError. *)
Definition redirected_away (requested : string) (final : option string) : option bool :=
  match final with
  | None | Some "" => Some false
  | Some final =>
      a ← urlparse requested;
      b ← urlparse final;
      Some (if bool_decide (pu_netloc a = pu_netloc b) && String.eqb (rstrip "/" (pu_path a)) (rstrip "/" (pu_path b))
            then false
            else match _posting_ids (pu_path a) with
                 | [] => true
                 | ids => negb (share ids (_posting_ids (pu_path b)))
                 end)
  end.

(** What the browser brings back: it resolves names itself. *)
Inductive browsed : Type :=
| BrowseTimeout
| BrowseRaised
| Browsed (content final_url : option string).

(** [fetch_page]: the content and the hint; [None] is an exception. [browse] connects by the
    lookup it is given. *)
Definition fetch_page (n : nat) (browse : nat → string → browsed) (url : string)
    : option (option string * bool * nat) :=
  '(error, n) ← public_url_error n url;
  match error with
  | Some _ => Some (None, false, n)
  | None =>
      match browse n url with
      | BrowseTimeout => Some (None, false, S n)
      | BrowseRaised => None
      | Browsed content final =>
          let n := S n in
          '(landed, n) ← (match final with
                          | Some f => if String.eqb f "" || String.eqb f url then Some (None, n)
                                      else public_url_error n f
                          | None => Some (None, n)
                          end);
          match landed with
          | Some _ => Some (None, false, n)
          | None =>
              elsewhere ← redirected_away url final;
              Some (if looks_blocked content then (None, false, n)
                    else match content with
                         | None | Some "" => (content, false, n)
                         | Some _ => (content, elsewhere, n)
                         end)
          end
      end
  end.

(** A response of the browserless fetch, its text extracted. *)
Record static_response : Type := mkStatic {
  sr_final_url : string;
  sr_status : Z;
  sr_content_type : string;
  sr_text : string;
}.

(** [fetch_static]; a failed request is [None] of [get]. *)
Definition fetch_static (n : nat) (get : nat → string → option static_response) (url : string) (min_chars : Z)
    : option (option string * nat) :=
  '(error, n) ← public_url_error n url;
  match error with
  | Some _ => Some (None, n)
  | None =>
      match get n url with
      | None => Some (None, S n)
      | Some r =>
          let n := S n in
          let final := if String.eqb (sr_final_url r) "" then url else sr_final_url r in
          '(landed, n) ← (if String.eqb final url then Some (None, n) else public_url_error n final);
          match landed with
          | Some _ => Some (None, n)
          | None =>
              Some (if negb (sr_status r =? 200) || negb (contains "html" (sr_content_type r)) ||
                       (text_len (sr_text r) <? min_chars) || looks_blocked (Some (sr_text r))
                    then None else Some (sr_text r), n)
          end
      end
  end.
End resolving.

(** ** Networks as ranges *)

Definition within (lo hi n : Z) : Prop := lo <= n < hi.

(** A network whose prefix is aligned is a range. *)
Lemma in_network_range bits n p len :
  0 <= len <= bits → p mod 2 ^ (bits - len) = 0 →
  in_network bits n (p, len) = true ↔ within p (p + 2 ^ (bits - len)) n.
Proof.
  intros Hl Hp. unfold in_network, within. simpl. rewrite Z.eqb_eq, !Z.shiftr_div_pow2 by lia.
  assert (0 < 2 ^ (bits - len)) as Hpos by (apply Z.pow_pos_nonneg; lia).
  pose proof (Z.div_mod p (2 ^ (bits - len)) ltac:(lia)) as E. rewrite Hp in E.
  pose proof (Z.div_mod n (2 ^ (bits - len)) ltac:(lia)) as En.
  pose proof (Z.mod_pos_bound n (2 ^ (bits - len)) Hpos). split; intros H'.
  - rewrite H' in En. lia.
  - symmetry. apply (Z.div_unique_pos _ _ _ (n - p)); lia.
Qed.

(** This network, private, shared, loopback, link-local (the metadata services among them),
    benchmark, documentation, multicast and reserved addresses. *)
Definition internal_v4 (n : Z) : Prop :=
  within 0 (quad 1 0 0 0) n ∨ within (quad 10 0 0 0) (quad 11 0 0 0) n ∨
  within (quad 100 64 0 0) (quad 100 128 0 0) n ∨ within (quad 127 0 0 0) (quad 128 0 0 0) n ∨
  within (quad 169 254 0 0) (quad 169 255 0 0) n ∨ within (quad 172 16 0 0) (quad 172 32 0 0) n ∨
  within (quad 192 0 2 0) (quad 192 0 3 0) n ∨ within (quad 192 168 0 0) (quad 192 169 0 0) n ∨
  within (quad 198 18 0 0) (quad 198 20 0 0) n ∨ within (quad 198 51 100 0) (quad 198 51 101 0) n ∨
  within (quad 203 0 113 0) (quad 203 0 114 0) n ∨ within (quad 224 0 0 0) (quad 256 0 0 0) n.

(** The unspecified and loopback addresses, unique local, link-local and multicast ones. *)
Definition internal_v6 (n : Z) : Prop :=
  n = 0 ∨ n = 1 ∨ within (hextets [64512]) (hextets [65024]) n ∨
  within (hextets [65152]) (hextets [65216]) n ∨ within (hextets [65280]) (hextets [65536]) n.

Definition public_address (a : ip_addr) : Prop :=
  match unmapped a with
  | V4 n => ¬ internal_v4 n
  | V6 n => ¬ internal_v6 n
  end.

Lemma not_in_range bits n p len :
  0 <= len <= bits → p mod 2 ^ (bits - len) = 0 → in_network bits n (p, len) = false →
  ¬ within p (p + 2 ^ (bits - len)) n.
Proof. intros Hl Hp H Hn. apply (in_network_range bits n p len Hl Hp) in Hn. congruence. Qed.

Lemma in_any_false bits n nets : in_any bits n nets = false → ∀ p len, (p, len) ∈ nets → in_network bits n (p, len) = false.
Proof.
  intros H p len Hin. apply not_true_is_false. intros E. apply not_true_iff_false in H. apply H, existsb_exists.
  exists (p, len). split; [by apply list_elem_of_In|done].
Qed.

Lemma ipv4_mapped_v6 a n : unmapped a = V6 n → ipv4_mapped n = None.
Proof. unfold unmapped. destruct a as [m|m]; [done|]. destruct (ipv4_mapped m) eqn:E; congruence. Qed.

(** A network that some list of refused ones holds. *)
Ltac refused_range bits p len :=
  match goal with
  | H : in_any bits ?n _ = false |- _ =>
      let R := fresh in
      pose proof (in_any_false _ _ _ H p len ltac:(apply (bool_decide_eq_true_1 _); vm_compute; reflexivity)) as R;
      apply (not_in_range bits n p len ltac:(lia) ltac:(vm_compute; reflexivity)) in R
  end.

(** Prefixes and sizes as numbers. *)
Ltac numbers :=
  unfold internal_v4, internal_v6, within in *;
  repeat match goal with
         | |- context [hextets ?l] => let v := eval vm_compute in (hextets l) in change (hextets l) with v
         | H : context [hextets ?l] |- _ => let v := eval vm_compute in (hextets l) in change (hextets l) with v in H
         | |- context [quad ?a ?b ?c ?d] => let v := eval vm_compute in (quad a b c d) in change (quad a b c d) with v
         | H : context [quad ?a ?b ?c ?d] |- _ =>
             let v := eval vm_compute in (quad a b c d) in change (quad a b c d) with v in H
         | H : context [2 ^ ?e] |- _ => let v := eval vm_compute in (2 ^ e) in change (2 ^ e) with v in H
         end.

Lemma v4_refused n :
  v4_is_private n = false → in_network 32 n (quad 224 0 0 0, 4) = false → in_network 32 n _CGNAT = false →
  ¬ internal_v4 n.
Proof.
  unfold v4_is_private. intros [H|H]%andb_false_iff Hm Hc.
  - apply (not_in_range 32) in Hm; [|lia|vm_compute; reflexivity]. apply (not_in_range 32) in Hc; [|lia|vm_compute; reflexivity].
    refused_range 32 (quad 0 0 0 0) 8. refused_range 32 (quad 10 0 0 0) 8. refused_range 32 (quad 127 0 0 0) 8.
    refused_range 32 (quad 169 254 0 0) 16. refused_range 32 (quad 172 16 0 0) 12.
    refused_range 32 (quad 192 0 2 0) 24. refused_range 32 (quad 192 168 0 0) 16.
    refused_range 32 (quad 198 18 0 0) 15. refused_range 32 (quad 198 51 100 0) 24.
    refused_range 32 (quad 203 0 113 0) 24. refused_range 32 (quad 240 0 0 0) 4.
    numbers. lia.
  - apply negb_false_iff, existsb_exists in H as (net & Hin%list_elem_of_In & Hn).
    unfold v4_private_exceptions in Hin.
    apply elem_of_cons in Hin as [->|Hin%list_elem_of_singleton]; subst;
      (apply (in_network_range 32) in Hn; [|lia|vm_compute; reflexivity]); numbers; lia.
Qed.

Lemma v6_refused n :
  in_any 128 n v6_private && negb (in_any 128 n v6_private_exceptions) = false →
  in_network 128 n (hextets [65280], 8) = false → ¬ internal_v6 n.
Proof.
  intros [H|H]%andb_false_iff Hm.
  - apply (not_in_range 128) in Hm; [|lia|vm_compute; reflexivity].
    refused_range 128 1 128. refused_range 128 0 128. refused_range 128 (hextets [64512]) 7.
    refused_range 128 (hextets [65152]) 10. numbers. lia.
  - apply negb_false_iff, existsb_exists in H as (net & Hin%list_elem_of_In & Hn).
    unfold v6_private_exceptions in Hin.
    repeat (apply elem_of_cons in Hin as [->|Hin]; [
      (apply (in_network_range 128) in Hn; [|lia|vm_compute; reflexivity]); numbers; lia|]). set_solver.
Qed.

Lemma address_ok_public a : address_ok a = true → public_address a.
Proof.
  unfold address_ok, public_address. pose proof (ipv4_mapped_v6 a) as Hv6.
  destruct (unmapped a) as [n|n]; intros [H Hc]%andb_true_iff; apply negb_true_iff in H;
    do 5 (apply orb_false_iff in H as [H ?]); cbv beta iota delta [is_private is_multicast] in *.
  - apply v4_refused; [done..|]. by apply negb_true_iff.
  - rewrite (Hv6 n eq_refl) in *. by apply v6_refused.
Qed.

(** ** The pinned client *)

Section pinned.
Context (dns : nat → string → option (list string)).

(** A resolved address is one of the answers, all of which the checks let through. *)
Lemma resolved_public n host ip :
  resolve_public_ip dns n host = Ok ip →
  ∃ ips, dns n host = Some ips ∧ ip ∈ ips ∧ ∃ a, ip_address ip = Some a ∧ public_address a.
Proof.
  unfold resolve_public_ip. destruct (dns n host) as [ips|]; [|done].
  pose proof (merge_sort_Permutation String.le (remove_dups ips)) as Hp.
  destruct (merge_sort String.le (remove_dups ips)) as [|x l]; [done|].
  destruct (forallb _addr_ok ips) eqn:Hok; [|done]. intros [= ->].
  assert (ip ∈ ips) as Hin by (apply elem_of_remove_dups; rewrite <- Hp; constructor).
  exists ips. split_and!; [done..|]. rewrite forallb_forall in Hok.
  specialize (Hok ip (proj1 (list_elem_of_In _ _) Hin)). unfold _addr_ok in Hok.
  destruct (ip_address ip) as [a|]; [|done]. exists a. split; [done|]. by apply address_ok_public.
Qed.

Lemma connection_public n l c :
  c ∈ connections dns n l →
  ∃ k ips, dns k (cn_host c) = Some ips ∧ cn_address c ∈ ips ∧
           ∃ a, ip_address (cn_address c) = Some a ∧ public_address a.
Proof.
  revert n. induction l as [|[between q] l IH]; intros n; simpl; [set_solver|].
  unfold handle_async_request.
  destruct (validate_base_url (rq_url q)) as [[?|]|]; [by eauto| |by eauto].
  destruct (resolve_public_ip dns (n + between) (rq_host q)) as [ip|] eqn:E; [|by eauto].
  intros [->|H]%elem_of_cons; [|by eauto]. destruct (resolved_public _ _ _ E) as (ips & H1 & H2 & H3).
  exists (n + between)%nat, ips. done.
Qed.
End pinned.

(** C30: a request of the pinned client stays on the public internet. Whatever requests and
    redirects a client is given, and whatever the resolver answers each time it is asked, every
    connection goes to one of the answers to the lookup of its own host made for that request,
    and that address is no internal one: not this network, private, shared, loopback,
    link-local (the metadata services), documentation, multicast or reserved, whether it is
    written as IPv4 or mapped into IPv6, nor an internal IPv6 address. *)
Theorem pinned_requests_stay_public dns n l c :
  c ∈ connections dns n l →
  ∃ k ips, dns k (cn_host c) = Some ips ∧ cn_address c ∈ ips ∧
           ∃ a, ip_address (cn_address c) = Some a ∧ public_address a.
Proof. apply connection_public. Qed.

Definition demo_dns (n : nat) (host : string) : option (list string) :=
  if String.eqb host "api.example.com" then Some (if (n =? 0)%nat then ["93.184.216.34"] else ["169.254.169.254"])
  else None.

Definition demo_requests : list (nat * request) :=
  [(0%nat, mkRequest "https://api.example.com/v1" "api.example.com");
   (0%nat, mkRequest "https://api.example.com/v1" "api.example.com")].

(** The second lookup answers the metadata service, and no connection is made. *)
Lemma pinned_requests_stay_public_witness :
  connections demo_dns 0 demo_requests = [mkConnection "93.184.216.34" "api.example.com"] ∧
  ∃ k ips, demo_dns k "api.example.com" = Some ips ∧ "93.184.216.34" ∈ ips ∧
           ∃ a, ip_address "93.184.216.34" = Some a ∧ public_address a.
Proof.
  split; [vm_compute; reflexivity|].
  refine (pinned_requests_stay_public demo_dns 0 demo_requests (mkConnection "93.184.216.34" "api.example.com") _).
  replace (connections demo_dns 0 demo_requests) with [mkConnection "93.184.216.34" "api.example.com"]
    by (vm_compute; reflexivity). constructor.
Defined.

(** ** Page fetches *)

(** A browser that connects to what the resolver answers then. *)
Definition demo_browse (n : nat) (url : string) : browsed :=
  Browsed (Some (String.concat "" (repeat (match demo_dns n "api.example.com" with
                                           | Some [ip] => if String.eqb ip "169.254.169.254" then "secret." else "posting."
                                           | _ => "" end) 60))) (Some url).


(** ** Redirects *)

Lemma share_spec a b : share a b = true ↔ ∃ x, x ∈ a ∧ x ∈ b.
Proof.
  unfold share. rewrite existsb_exists. split.
  - intros (x & Hx%list_elem_of_In & H). unfold mem in H. breflect. eauto.
  - intros (x & Ha & Hb). exists x. split; [by apply list_elem_of_In|]. unfold mem. by apply bool_decide_eq_true_2.
Qed.

(** A page that lands where the posting's id still stands has not been redirected away, and
    one whose path has such ids and lands where none of them stands has. *)
Lemma redirects_follow_ids requested final a b :
  urlparse requested = Some a → urlparse final = Some b → final ≠ "" →
  (pu_netloc a, rstrip "/" (pu_path a)) ≠ (pu_netloc b, rstrip "/" (pu_path b)) →
  _posting_ids (pu_path a) ≠ [] →
  redirected_away requested (Some final) = Some true ↔
  ¬ ∃ id, id ∈ _posting_ids (pu_path a) ∧ id ∈ _posting_ids (pu_path b).
Proof.
  intros Ha Hb Hne Hdiff Hids. unfold redirected_away. destruct final as [|c s]; [done|]. rewrite Ha, Hb. simpl.
  destruct (bool_decide (pu_netloc a = pu_netloc b) && _) eqn:E.
  { apply andb_true_iff in E as [E1 E2]. breflect. apply String.eqb_eq in E2. congruence. }
  destruct (_posting_ids (pu_path a)) as [|x l] eqn:I; [done|]. rewrite <- share_spec.
  change (mem x _ || share l _) with (share (x :: l) (_posting_ids (pu_path b))).
  destruct (share (x :: l) (_posting_ids (pu_path b))); simpl; intuition congruence.
Qed.
