(* ===== verification/Ats.v ===== *)
(** * Applicant-tracking systems ([core.fetching.ats])

    Which system a posting's URL belongs to, the one spelling its variants reduce to, and
    what the system's own endpoint says of it: its text, that it is gone, or nothing that
    can be relied on. A request's answer is a parameter, and so are [ftfy] with BeautifulSoup
    ([clean]) and the table of HTML entities ([html_unescape]). Text is ASCII. *)

From stdpp Require Import pretty.
From Stdlib Require Import Ascii.
From S2P Require Import Prelude PyStr Sql Json Tasks Spec Datasheets Pricing Batches Collect Urls.

Local Open Scope string_scope.
Local Open Scope list_scope.
Local Open Scope Z_scope.

(** ** Regular expressions with groups

    Python's backtracking: the first way to match, counts from the greatest. No group of
    these expressions is inside another. *)

Inductive pat : Type :=
| PText (s : string)
| PChar (p : ascii → bool)
| PMany (p : ascii → bool)
| PLazy (p : ascii → bool)
| PGroup (a : pat)
| PSeq (a b : pat)
| PAlt (a b : pat)
| POpt (a : pat)
| PLoop (a : pat)
| PEnd.

#[local] Infix "·" := PSeq (at level 40, left associativity).

Definition captures : Type := list (option (list ascii)).
Definition matching : Type := list ascii → captures → option captures.

Fixpoint many (p : ascii → bool) (k : matching) (l : list ascii) (cs : captures) : option captures :=
  match l with
  | c :: l' => if p c then match many p k l' cs with
                           | Some r => Some r
                           | None => k l cs
                           end
               else k l cs
  | [] => k [] cs
  end.

Fixpoint few (p : ascii → bool) (k : matching) (l : list ascii) (cs : captures) : option captures :=
  match k l cs with
  | Some r => Some r
  | None => match l with
            | c :: l' => if p c then few p k l' cs else None
            | [] => None
            end
  end.

Fixpoint loop (fuel : nat) (body : matching → matching) (k : matching) (l : list ascii) (cs : captures)
    : option captures :=
  match fuel with
  | O => k l cs
  | S fuel =>
      match body (λ l' cs', if (length l' <? length l)%nat then loop fuel body k l' cs' else None) l cs with
      | Some r => Some r
      | None => k l cs
      end
  end.

Fixpoint groups (a : pat) : nat :=
  match a with
  | PGroup _ => 1
  | PSeq a b | PAlt a b => groups a + groups b
  | POpt a | PLoop a => groups a
  | _ => 0
  end.

Definition unmatched (a : pat) : captures := repeat None (groups a).

Fixpoint run (a : pat) (k : matching) (l : list ascii) (cs : captures) : option captures :=
  match a with
  | PText s => if starts_with (chars s) l then k (drop (String.length s) l) cs else None
  | PChar p => match l with
               | c :: l => if p c then k l cs else None
               | [] => None
               end
  | PMany p => many p k l cs
  | PLazy p => few p k l cs
  | PGroup a => run a (λ l' cs, k l' (cs ++ [Some (take (length l - length l') l)])) l cs
  | PSeq a b => run a (run b k) l cs
  | PAlt a b => match run a (λ l' cs, k l' (cs ++ unmatched b)) l cs with
                | Some r => Some r
                | None => run b k l (cs ++ unmatched a)
                end
  | POpt a => match run a k l cs with
              | Some r => Some r
              | None => k l (cs ++ unmatched a)
              end
  | PLoop a => loop (length l) (run a) k l cs
  | PEnd => match l with
            | [] | ["010"%char] => k l cs
            | _ => None
            end
  end.

(** [re.match], [re.fullmatch] and [re.search]: the groups. *)
Definition match_at (a : pat) (l : list ascii) : option captures := run a (λ _ cs, Some cs) l [].

Definition fullmatch (a : pat) (s : string) : option captures :=
  run a (λ l cs, match l with [] => Some cs | _ => None end) (chars s) [].

Fixpoint search_chars (a : pat) (l : list ascii) : option captures :=
  match match_at a l with
  | Some r => Some r
  | None => match l with
            | [] => None
            | _ :: l => search_chars a l
            end
  end.

Definition search (a : pat) (s : string) : option captures := search_chars a (chars s).

(** The text of the groups, where every group took part. *)
Definition texts (r : option captures) : option (list string) :=
  cs ← r; mapM (λ g, of_chars <$> g) cs.

(** [p+], [p{n}], [p{n,}]. *)
Definition PSome (p : ascii → bool) : pat := PChar p · PMany p.
Fixpoint PTimes (n : nat) (p : ascii → bool) : pat :=
  match n with O => PText "" | S n => PChar p · PTimes n p end.

Definition none_of (stops : string) (c : ascii) : bool := negb (mem c (chars stops)).
Definition not_newline (c : ascii) : bool := none_of (of_chars ["010"%char]) c.
Definition is_hex_dash (c : ascii) : bool :=
  is_digit c || mem c (chars "abcdef-").
Definition is_any_hex_dash (c : ascii) : bool := is_hex_dash c || mem c (chars "ABCDEF").
Definition is_alnum (c : ascii) : bool := is_alpha c || is_digit c.
Definition is_id_char (c : ascii) : bool := is_alnum c || mem c (chars "_-").

(** ** Query strings ([parse_qs]) *)

Definition hex_pair (a b : ascii) : option ascii :=
  x ← hex_digit_value a; y ← hex_digit_value b; Some (ascii_of_nat (Z.to_nat (16 * x + y))).

Fixpoint unquote_chars (l : list ascii) : list ascii :=
  match l with
  | "%"%char :: (a :: b :: l') as rest =>
      match hex_pair a b with
      | Some c => c :: unquote_chars l'
      | None => "%"%char :: unquote_chars rest
      end
  | c :: l => c :: unquote_chars l
  | [] => []
  end.

Definition unquote_plus (l : list ascii) : string :=
  of_chars (unquote_chars (map (λ c, if Ascii.eqb c "+" then " "%char else c) l)).

(** The pairs in order; a name without a value is dropped. *)
Definition parse_qs (query : string) : list (string * string) :=
  omap (λ part, match partition "="%char part with
                | (name, true, (_ :: _) as value) => Some (unquote_plus name, unquote_plus value)
                | _ => None
                end) (split_at "&"%char (chars query)).

(** ** What a system answers ([ats.common]) *)

Inductive Status : Type := OK | GONE | UNSUPPORTED_ | ERROR.

#[export] Instance Status_eq_dec : EqDecision Status.
Proof. solve_decision. Defined.

(** [ar_posted] is the day, counted from 1970-01-01. *)
Record AtsResult : Type := mkAts {
  ar_status : Status;
  ar_text : option string;
  ar_source : option string;
  ar_posted : option Z;
}.

Definition UNSUPPORTED : AtsResult := mkAts UNSUPPORTED_ None None None.
Definition failed (name : string) : AtsResult := mkAts ERROR None (Some name) None.
Definition gone (name : string) : AtsResult := mkAts GONE None (Some name) None.

(** A request, and the answer: [rs_json] is what [.json()] parses, [None] when it raises. *)
Inductive http_request : Type :=
| Get (url : string) (params : list (string * string))
| GetNoRedirect (url : string)
| GetHtml (url : string)
| Post (url : string) (body : json).

Record response : Type := mkHttp {
  rs_status : Z;
  rs_text : string;
  rs_json : option json;
  rs_location : string;
}.

(** [early]: what [from_response] settles before the body is read. *)
Definition from_response (name : string) (resp : option response) : option AtsResult :=
  match resp with
  | None => Some (failed name)
  | Some r =>
      if (rs_status r =? 404) || (rs_status r =? 410) then Some (gone name)
      else if negb (rs_status r =? 200) then Some (failed name) else None
  end.

(** ** Dates ([date.fromisoformat]) *)

Definition is_leap (y : Z) : bool := (y mod 4 =? 0) && (negb (y mod 100 =? 0) || (y mod 400 =? 0)).

Definition days_in_month (y m : Z) : Z :=
  if m =? 2 then (if is_leap y then 29 else 28)
  else if mem m [4; 6; 9; 11] then 30 else 31.

(** The day number of a civil date, 0 being 1970-01-01. *)
Definition day_number (y m d : Z) : Z :=
  let y := if m <=? 2 then y - 1 else y in
  let era := y / 400 in
  let yoe := y - era * 400 in
  let doy := (153 * (m + (if 2 <? m then -3 else 9)) + 2) / 5 + d - 1 in
  era * 146097 + yoe * 365 + yoe / 4 - yoe / 100 + doy - 719468.

Definition digits_value (l : list ascii) : option Z :=
  match l with
  | [] => None
  | _ => if forallb is_digit l then Some (decimal_value 0 l) else None
  end.

Definition civil_date (y m d : Z) : option Z :=
  if (1 <=? y) && (1 <=? m) && (m <=? 12) && (1 <=? d) && (d <=? days_in_month y m)
  then Some (day_number y m d) else None.

(** The Monday of the first ISO week of a year. *)
Definition iso_monday (y : Z) : Z :=
  let jan4 := day_number y 1 4 in jan4 - (jan4 + 3) mod 7.

Definition week_date (y w d : Z) : option Z :=
  if (1 <=? y) && (1 <=? w) && (w <=? 53) && (1 <=? d) && (d <=? 7) &&
     ((w <=? 52) || (iso_monday y + 52 * 7 <? iso_monday (y + 1)))
  then Some (iso_monday y + (w - 1) * 7 + (d - 1)) else None.

(** YYYY-MM-DD, YYYYMMDD, YYYY-Www, YYYYWww, YYYY-Www-D and YYYYWwwD. *)
Definition fromisoformat (l : list ascii) : option Z :=
  y ← digits_value (take 4 l);
  if negb (length (take 4 l) =? 4)%nat then None
  else
    match drop 4 l with
    | ["-"; a; b; "-"; c; d]%char =>
        if Ascii.eqb a "W" then None
        else m ← digits_value [a; b]; d ← digits_value [c; d]; civil_date y m d
    | ["-"; "W"; a; b; "-"; d]%char => w ← digits_value [a; b]; d ← digits_value [d]; week_date y w d
    | ["-"; "W"; a; b]%char => w ← digits_value [a; b]; week_date y w 1
    | ["W"; a; b; d]%char => w ← digits_value [a; b]; d ← digits_value [d]; week_date y w d
    | ["W"; a; b]%char => w ← digits_value [a; b]; week_date y w 1
    | [a; b; c; d] => m ← digits_value [a; b]; d ← digits_value [c; d]; civil_date y m d
    | _ => None
    end.

(** The outer [None] is an exception: the value is no text. *)
Definition parse_posted_date (v : json) : option (option Z) :=
  match v with
  | JStr s => Some (fromisoformat (take 10 (chars s)))
  | _ => if truthy v then None else Some None
  end.

(** ** Reading JSON: [None] is an exception *)

Definition get_default (k : string) (d v : json) : option json :=
  match v with
  | JObj o => Some (default d (alist_get k o))
  | _ => None
  end.
Definition get (k : string) (v : json) : option json := get_default k JNull v.
Definition dict_or (v : json) : json := py_or v (JObj []).
Definition items_or (v : json) : option (list json) :=
  match py_iter (py_or v (JArr [])) with Ok l => Some l | Err _ => None end.

(** [join_posting_sections]. *)
Definition section_of (v : json) : option (list string) :=
  if negb (truthy v) then Some []
  else match v with
       | JStr s => Some (if String.eqb (strip s) "" then [] else [strip s])
       | _ => None
       end.

Definition blank_line : string := of_chars ["010"; "010"]%char.

Definition join_posting_sections (parts : list json) : option string :=
  l ← mapM section_of parts; Some (strip (str_join blank_line (concat l))).

(** [", ".join(str(loc[k]) for k in keys if loc.get(k))]. *)
Definition labels (keys : list string) (loc : json) : option string :=
  l ← mapM (λ k, get k loc) keys;
  Some (str_join ", " (map py_str (List.filter truthy l))).

(** [sep.join(l)] of values that must be text. *)
Definition join_texts (sep : string) (l : list json) : option string :=
  l ← mapM (λ v, match v with JStr s => Some s | _ => None end) l; Some (str_join sep l).

(** [f"{n:,.0f}"] of an integer. *)
Fixpoint commas (l : list ascii) : list ascii :=
  match l with
  | a :: b :: c :: ((_ :: _) as rest) => a :: b :: c :: ","%char :: commas rest
  | _ => l
  end.

Definition with_commas (v : json) : option string :=
  let shown (z : Z) := ((if (z <? 0)%Z then "-" else "") ++ of_chars (rev (commas (rev (chars (pretty (Z.abs z)))))))%string in
  match v with
  | JInt z => Some (shown z)
  | JBool b => Some (shown (if b then 1 else 0))
  | _ => None
  end.

Section texts.
Context (clean : string → string).

Definition clean_html (v : json) : option json :=
  match v with
  | JStr s => Some (JStr (clean s))
  | _ => if truthy v then None else Some (JStr (clean ""))
  end.

Definition cleaned (k : string) (v : json) : option json := x ← get k v; clean_html x.

Definition greenhouse_text (data : json) : option string :=
  title ← get "title" data;
  loc ← get "location" data;
  place ← get "name" (dict_or loc);
  content ← get_default "content" (JStr "") data;
  content ← clean_html content;
  join_posting_sections [title; place; content].

Definition lever_section (s : json) : option json :=
  t ← get "text" s;
  c ← get_default "content" (JStr "") s;
  c ← clean_html c;
  JStr <$> join_posting_sections [t; c].

Definition lever_text (data : json) : option string :=
  lists ← get_default "lists" (JArr []) data;
  lists ← (match py_iter lists with Ok l => Some l | Err _ => None end);
  lists ← mapM lever_section lists;
  t ← get "text" data;
  cats ← get "categories" data;
  place ← get "location" (dict_or cats);
  description ← get_default "description" (JStr "") data;
  description ← clean_html description;
  more ← get_default "additional" (JStr "") data;
  more ← clean_html more;
  join_posting_sections ([t; place; description] ++ lists ++ [more]).

Definition ashby_text (job : json) : option string :=
  comp ← get "compensation" job;
  comp ← get "compensationTierSummary" (dict_or comp);
  title ← get "title" job;
  place ← get "location" job;
  body ← get_default "descriptionHtml" (JStr "") job;
  body ← clean_html body;
  join_posting_sections [title; place; comp; body].

Definition goldman_place : json → option string := labels ["city"; "state"; "country"].

Definition goldman_pay (comp : json) : option string :=
  lo ← get "minSalary" comp;
  hi ← get "maxSalary" comp;
  if truthy lo && truthy hi
  then
    currency ← get "currency" comp;
    lo ← with_commas lo;
    hi ← with_commas hi;
    Some (py_str (py_or currency (JStr "")) ++ " " ++ lo ++ " - " ++ hi)%string
  else Some "".

Definition goldman_text (role : json) : option string :=
  comp ← get "compensation" role;
  pay ← goldman_pay (dict_or comp);
  title ← get "jobTitle" role;
  places ← get "locations" role;
  places ← items_or places;
  places ← mapM goldman_place places;
  rank ← get "corporateTitle" role;
  body ← cleaned "descriptionHtml" role;
  join_posting_sections [title; JStr (str_join "; " places); rank; JStr pay; body].

Definition oracle_text (item : json) : option string :=
  title ← get "Title" item;
  place ← get "PrimaryLocation" item;
  a ← cleaned "ExternalDescriptionStr" item;
  b ← cleaned "ExternalResponsibilitiesStr" item;
  c ← cleaned "ExternalQualificationsStr" item;
  join_posting_sections [title; place; a; b; c].

Definition workable_text (data : json) : option string :=
  loc ← get "location" data;
  title ← get "title" data;
  place ← labels ["city"; "region"; "country"] (dict_or loc);
  a ← cleaned "description" data;
  b ← cleaned "requirements" data;
  c ← cleaned "benefits" data;
  join_posting_sections [title; JStr place; a; b; c].

Definition rippling_text (data : json) : option string :=
  description ← get "description" data;
  let description := dict_or description in
  name ← get "name" data;
  places ← get "workLocations" data;
  places ← items_or places;
  place ← join_texts "; " places;
  company ← cleaned "company" description;
  role ← cleaned "role" description;
  join_posting_sections [name; JStr place; company; role].

Definition ukg_place (loc : json) : option json :=
  addr ← get "Address" loc;
  let addr := dict_or addr in
  city ← get "City" addr;
  state ← get "State" addr;
  state ← get "Code" (dict_or state);
  country ← get "Country" addr;
  country ← get "Code" (dict_or country);
  place ← join_texts ", " (List.filter truthy [city; state; country]);
  label ← get "LocalizedDescription" loc;
  Some (py_or (JStr place) (py_or label (JStr ""))).

Definition ukg_text (opportunity : json) : option string :=
  title ← get "Title" opportunity;
  places ← get "Locations" opportunity;
  places ← items_or places;
  places ← mapM ukg_place places;
  place ← join_texts "; " places;
  body ← cleaned "Description" opportunity;
  join_posting_sections [title; JStr place; body].
End texts.

(** ** The URL of a posting in each system *)

Definition netloc_lower (u : parsed_url) : string := lower (of_chars (pu_netloc u)).

Definition first_of (name : string) (query : list (string * string)) : option string := alist_get name query.

Definition GREENHOUSE_JOB : pat :=
  PText "greenhouse.io/" · PGroup (PSome (none_of "/?")) · PText "/jobs/" · PGroup (PSome is_digit).

Definition greenhouse_canonical (url : string) : option string :=
  u ← urlparse url;
  match texts (search GREENHOUSE_JOB url) with
  | Some [board; job] => Some ("https://" ++ netloc_lower u ++ "/" ++ board ++ "/jobs/" ++ job)%string
  | _ =>
      job ← first_of "gh_jid" (parse_qs (pu_query u));
      Some ("https://" ++ netloc_lower u ++ rstrip "/" (pu_path u) ++ "?gh_jid=" ++ job)%string
  end.

Definition LEVER_JOB : pat :=
  PGroup (PText "jobs" · POpt (PText ".eu") · PText ".lever.co") · PText "/" ·
  PGroup (PSome (none_of "/?")) · PText "/" · PGroup (PTimes 36 is_hex_dash).

Definition lever_canonical (url : string) : option string :=
  match texts (search LEVER_JOB url) with
  | Some [host; board; job] => Some ("https://" ++ lower host ++ "/" ++ board ++ "/" ++ job)%string
  | _ => None
  end.

Definition ashby_canonical (url : string) : option string :=
  match texts (search (PText "ashbyhq.com/" · PGroup (PSome (none_of "/?")) · PText "/" ·
                       PGroup (PTimes 36 is_hex_dash)) url) with
  | Some [board; job] => Some ("https://jobs.ashbyhq.com/" ++ board ++ "/" ++ job)%string
  | _ => None
  end.

Definition smartrecruiters_canonical (url : string) : option string :=
  match texts (search (PText "smartrecruiters.com/" · PGroup (PSome (none_of "/?")) · PText "/" ·
                       PGroup (PSome is_digit)) url) with
  | Some [board; job] => Some ("https://jobs.smartrecruiters.com/" ++ board ++ "/" ++ job)%string
  | _ => None
  end.

(** [re.sub] of a leading locale, letters of either case. *)
Definition without_locale (path : string) : string :=
  match chars path with
  | "/"%char :: a :: b :: "-"%char :: c :: d :: ("/"%char :: _) as rest =>
      if forallb is_alpha [a; b; c; d] then of_chars rest else path
  | _ => path
  end.

Definition workday_canonical (url : string) : option string :=
  u ← urlparse url;
  match texts (match_at (PText "/" · PGroup (PSome (none_of "/")) · PText "/job/" ·
                         PGroup (PChar not_newline · PLazy not_newline) · POpt (PText "/") · PEnd)
                 (chars (without_locale (pu_path u)))) with
  | Some [site; job] => Some ("https://" ++ netloc_lower u ++ "/" ++ site ++ "/job/" ++ job)%string
  | _ => None
  end.

Definition ORACLE_JOB : pat :=
  PText "/sites/" · PGroup (PSome (none_of "/")) · PText "/job/" · PGroup (PSome is_id_char).

Definition oracle_canonical (url : string) : option string :=
  u ← urlparse url;
  match texts (search ORACLE_JOB (pu_path u)) with
  | Some [site; job] =>
      Some ("https://" ++ netloc_lower u ++ "/hcmUI/CandidateExperience/en/sites/" ++ site ++ "/job/" ++ job)%string
  | _ => None
  end.

Definition WORKABLE_JOB : pat :=
  PText "workable.com/" · PGroup (PSome (none_of "/")) · PText "/j/" · PGroup (PSome is_alnum).

Definition upper_char (c : ascii) : ascii := if is_lower c then ascii_of_nat (code c - 32) else c.
Definition upper (s : string) : string := of_chars (map upper_char (chars s)).

Definition workable_canonical (url : string) : option string :=
  match texts (search WORKABLE_JOB url) with
  | Some [board; job] => Some ("https://apply.workable.com/" ++ board ++ "/j/" ++ upper job ++ "/")%string
  | _ => None
  end.

Definition GEM_JOB : pat :=
  PText "jobs.gem.com/" · PGroup (PSome (none_of "/?#")) · PText "/" · PGroup (PSome is_id_char).

Definition gem_canonical (url : string) : option string :=
  match texts (search GEM_JOB url) with
  | Some [board; job] => Some ("https://jobs.gem.com/" ++ board ++ "/" ++ job)%string
  | _ => None
  end.

Definition RIPPLING_JOB : pat :=
  PText "ats.rippling.com/" ·
  PLoop (PAlt (PText "embed")
           (PTimes 2 is_lower · PText "-" · PTimes 2 is_upper) · PText "/") ·
  PGroup (PSome (none_of "/?#")) · PText "/jobs/" · PGroup (PTimes 36 is_hex_dash).

Definition rippling_canonical (url : string) : option string :=
  match texts (search RIPPLING_JOB url) with
  | Some [board; job] => Some ("https://ats.rippling.com/" ++ board ++ "/jobs/" ++ job)%string
  | _ => None
  end.

Definition ICIMS_JOB : pat :=
  PText "/jobs/" · PGroup (PSome is_digit) · POpt (PText "/" · PMany (none_of "/")) · PText "/job".

Definition icims_canonical (url : string) : option string :=
  u ← urlparse url;
  match texts (search ICIMS_JOB (pu_path u)) with
  | Some [job] => Some ("https://" ++ netloc_lower u ++ "/jobs/" ++ job ++ "/job")%string
  | _ => None
  end.

Definition APPLE_JOB : pat :=
  PText "jobs.apple.com/" · PTimes 2 is_lower · PText "-" · PTimes 2 is_lower · PText "/details/" ·
  POpt (PText "PIPE-") ·
  PGroup (PChar is_digit · PMany (λ c, is_digit c || Ascii.eqb c "-")) ·
  POpt (PGroup (PText "/" · PSome (none_of "/?#"))).

Definition apple_canonical (url : string) : option string :=
  match search APPLE_JOB url with
  | Some [Some job; slug] =>
      Some ("https://jobs.apple.com/en-us/details/" ++ of_chars job ++ of_chars (default [] slug))%string
  | _ => None
  end.

Definition ADP_HOSTS : list string := ["workforcenow.adp.com"; "workforcenow.cloud.adp.com"].
Definition ADP_REQUISITIONS : string :=
  "/mascsr/default/careercenter/public/events/staffing/v1/job-requisitions".
Definition ADP_POSTING : string := "/mascsr/default/mdf/recruitment/recruitment.html".

Definition adp_posting_url (host cid job : string) : string :=
  ("https://" ++ host ++ ADP_POSTING ++ "?cid=" ++ cid ++ "&jobId=" ++ job)%string.

Definition ask_or_and (c : ascii) : bool := mem c ["?"; "&"]%char.

Definition adp_parts (url : string) : option (string * string * string) :=
  host ← texts (search (PText "//" · PGroup (PText "workforcenow" · POpt (PText ".cloud") · PText ".adp.com") ·
                        PText ADP_POSTING) url);
  cid ← texts (search (PChar ask_or_and · PText "cid=" · PGroup (PTimes 36 is_any_hex_dash)) url);
  job ← texts (search (PChar ask_or_and · PText "jobId=" · PGroup (PSome is_digit)) url);
  match host, cid, job with
  | [h], [c], [j] => Some (h, lower c, j)
  | _, _, _ => None
  end.

Definition adp_canonical (url : string) : option string :=
  '(h, c, j) ← adp_parts url; Some (adp_posting_url h c j).

Definition UKG_JOB : pat :=
  PGroup (PText "recruiting" · PMany is_digit · PText ".ultipro." · PAlt (PText "com") (PText "ca")) ·
  PText "/" · PGroup (PSome (none_of "/")) · PText "/JobBoard/" · PGroup (PTimes 36 is_any_hex_dash) ·
  PText "/OpportunityDetail?" · POpt (PMany (none_of "#") · PText "&") · PText "opportunityId=" ·
  PGroup (PTimes 36 is_any_hex_dash).

Definition ukg_canonical (url : string) : option string :=
  match texts (search UKG_JOB url) with
  | Some [host; tenant; board; job] =>
      Some ("https://" ++ host ++ "/" ++ tenant ++ "/JobBoard/" ++ board ++
            "/OpportunityDetail?opportunityId=" ++ job)%string
  | _ => None
  end.

Definition BRASSRING_PAGE : string := "/tgnewui/search/home/homewithpreload".

(** [str.isdecimal]. *)
Definition isdecimal (s : string) : bool :=
  match chars s with [] => false | l => forallb is_digit l end.

(** [{k.lower(): v[0] for k, v in parse_qs(query).items()}]: the first of the last spelling
    of a name. *)
Definition lowered_query (query : list (string * string)) : list (string * string) :=
  let spellings := rev (remove_dups (rev (map fst query))) in
  foldl (λ d k, match alist_get k query with Some v => alist_set (lower k) v d | None => d end) [] spellings.

Definition brassring_canonical (url : string) : option string :=
  u ← urlparse url;
  let query := lowered_query (parse_qs (pu_query u)) in
  let id k := default "" (alist_get k query) in
  let '(partner, site, job) := (id "partnerid", id "siteid", id "jobid") in
  if isdecimal partner && isdecimal site && isdecimal job
  then Some ("https://" ++ netloc_lower u ++ "/TGnewUI/Search/home/HomeWithPreLoad?partnerid=" ++ partner ++
             "&siteid=" ++ site ++ "&PageType=JobDetails&jobid=" ++ job)%string
  else None.

(** ** What each system's endpoint says of a posting

    [http n q] answers the [n]-th request of a resolution. [None] of a fetch is an
    exception. *)

Definition with_posted (day : option Z) (r : AtsResult) : AtsResult :=
  mkAts (ar_status r) (ar_text r) (ar_source r) day.

Definition result_of (name : string) (text : option string) : AtsResult :=
  match text with
  | None | Some "" => failed name
  | Some t => mkAts OK (Some t) (Some name) None
  end.

(** [resp.json()] after [from_response], and a reading of it. *)
Definition body_of (name : string) (resp : option response) (read : json → option AtsResult) : option AtsResult :=
  match from_response name resp with
  | Some early => Some early
  | None => r ← resp; data ← rs_json r; read data
  end.

(** Where a status is never about the posting. *)
Definition body_if_200 (name : string) (resp : option response) (read : response → option AtsResult)
    : option AtsResult :=
  match resp with
  | Some r => if rs_status r =? 200 then read r else Some (failed name)
  | None => Some (failed name)
  end.

Definition dated (name : string) (text : string) (day : json) : option AtsResult :=
  d ← parse_posted_date day; Some (with_posted d (result_of name (Some text))).

Section fetch.
Context (clean html_unescape : string → string) (http : nat → http_request → option response).

(** The boards a Greenhouse job may be on: the one its URL names, and guesses at its host. *)
Definition greenhouse_candidates (u : parsed_url) (board : option string) : list string :=
  let host := of_chars (hd [] (split_at "."%char (chars (replace "www." "" (of_chars (pu_netloc u)))))) in
  List.filter (λ c, negb (String.eqb c ""))
    (rev (remove_dups (rev [default "" board; host; replace "-" "" host]))).

Fixpoint greenhouse_try (n : nat) (board : option string) (job : string) (candidates : list string)
    : option AtsResult :=
  match candidates with
  | [] => Some (failed "greenhouse")
  | c :: candidates =>
      let resp := http n (Get ("https://boards-api.greenhouse.io/v1/boards/" ++ c ++ "/jobs/" ++ job ++
                               "?content=true")%string []) in
      match from_response "greenhouse" resp with
      | Some early =>
          if bool_decide (board = Some c) then Some early else greenhouse_try (S n) board job candidates
      | None => r ← resp; data ← rs_json r; t ← greenhouse_text clean data; Some (result_of "greenhouse" (Some t))
      end
  end.

Definition greenhouse_fetch (url : string) : option AtsResult :=
  u ← urlparse url;
  match texts (search GREENHOUSE_JOB url) with
  | Some [board; job] => greenhouse_try 0 (Some board) job (greenhouse_candidates u (Some board))
  | _ =>
      match first_of "gh_jid" (parse_qs (pu_query u)) with
      | None => Some UNSUPPORTED
      | Some job => greenhouse_try 0 None job (greenhouse_candidates u None)
      end
  end.

Definition lever_fetch (url : string) : option AtsResult :=
  match texts (search (PText "lever.co/" · PGroup (PSome (none_of "/")) · PText "/" ·
                       PGroup (PTimes 36 is_hex_dash)) url) with
  | Some [board; job] =>
      let host := if contains ".eu.lever.co" url then "api.eu.lever.co" else "api.lever.co" in
      body_of "lever" (http 0 (Get ("https://" ++ host ++ "/v0/postings/" ++ board ++ "/" ++ job)%string []))
        (λ data, t ← lever_text clean data; Some (result_of "lever" (Some t)))
  | _ => Some UNSUPPORTED
  end.

(** [job_id in str(job.get("jobUrl", ""))]. *)
Definition ashby_names (job_id : string) (job : json) : option bool :=
  i ← get "id" job;
  if bool_decide (i = JStr job_id) then Some true
  else u ← get_default "jobUrl" (JStr "") job; Some (contains job_id (py_str u)).

Fixpoint ashby_find (job_id : string) (jobs : list json) : option AtsResult :=
  match jobs with
  | [] => Some (gone "ashby")
  | job :: jobs =>
      found ← ashby_names job_id job;
      if (found : bool) then t ← ashby_text clean job; Some (result_of "ashby" (Some t))
      else ashby_find job_id jobs
  end.

Definition ashby_fetch (url : string) : option AtsResult :=
  match texts (search (PText "ashbyhq.com/" · PGroup (PSome (none_of "/")) · PText "/" ·
                       PGroup (PTimes 36 is_hex_dash)) url) with
  | Some [org; job_id] =>
      body_of "ashby"
        (http 0 (Get ("https://api.ashbyhq.com/posting-api/job-board/" ++ of_chars (unquote_chars (chars org)) ++
                      "?includeCompensation=true")%string []))
        (λ data, jobs ← get_default "jobs" (JArr []) data;
                 jobs ← (match py_iter jobs with Ok l => Some l | Err _ => None end);
                 ashby_find job_id jobs)
  | _ => Some UNSUPPORTED
  end.

Definition smartrecruiters_sections : list string :=
  ["companyDescription"; "jobDescription"; "qualifications"; "additionalInformation"].

Definition smartrecruiters_read (data : json) : option AtsResult :=
  active ← get "active" data;
  visibility ← get "visibility" data;
  if bool_decide (active = JBool false) || bool_decide (visibility = JStr "INTERNAL")
  then Some (gone "smartrecruiters")
  else
    loc ← get "location" data;
    ad ← get "jobAd" data;
    sections ← get "sections" (dict_or ad);
    body ← mapM (λ k, s ← get k (dict_or sections); t ← get_default "text" (JStr "") (dict_or s); clean_html clean t)
             smartrecruiters_sections;
    place ← mapM (λ k, get_default k (JStr "") (dict_or loc)) ["city"; "region"; "country"];
    name ← get "name" data;
    t ← join_posting_sections ([name; JStr (str_join " " (map py_str place))] ++ body);
    Some (result_of "smartrecruiters" (Some t)).

Definition smartrecruiters_fetch (url : string) : option AtsResult :=
  match texts (search (PText "smartrecruiters.com/" · PGroup (PSome (none_of "/")) · PText "/" ·
                       PGroup (PSome is_digit)) url) with
  | Some [board; job] =>
      body_of "smartrecruiters"
        (http 0 (Get ("https://api.smartrecruiters.com/v1/companies/" ++ board ++ "/postings/" ++ job)%string []))
        smartrecruiters_read
  | _ => Some UNSUPPORTED
  end.

Definition workday_read (data : json) : option AtsResult :=
  info ← get "jobPostingInfo" data;
  let info := dict_or info in
  title ← get "title" info;
  place ← get "location" info;
  start ← get "startDate" info;
  body ← get_default "jobDescription" (JStr "") info;
  body ← clean_html clean body;
  t ← join_posting_sections [title; place; start; body];
  dated "workday" t start.

Definition workday_fetch (url : string) : option AtsResult :=
  u ← urlparse url;
  let netloc := of_chars (pu_netloc u) in
  let tenant := of_chars (hd [] (split_at "."%char (pu_netloc u))) in
  match texts (match_at (PText "/" · PGroup (PSome (none_of "/")) · PText "/job/" ·
                         PGroup (PSome not_newline) · PEnd) (chars (without_locale (pu_path u)))) with
  | Some [site; job] =>
      body_of "workday"
        (http 0 (Get ("https://" ++ netloc ++ "/wday/cxs/" ++ tenant ++ "/" ++ site ++ "/job/" ++ job)%string []))
        workday_read
  | _ => Some UNSUPPORTED
  end.

Definition oracle_read (data : json) : option AtsResult :=
  items ← get "items" data;
  match py_or items (JArr []) with
  | JArr [] => Some (gone "oracle")
  | JArr (item :: _) =>
      t ← oracle_text clean item;
      a ← get "ExternalPostedStartDate" item;
      b ← get "PostedDate" item;
      dated "oracle" t (py_or a b)
  | _ => None
  end.

Definition oracle_fetch (url : string) : option AtsResult :=
  u ← urlparse url;
  match texts (search ORACLE_JOB (pu_path u)) with
  | Some [site; job] =>
      body_of "oracle"
        (http 0 (Get ("https://" ++ of_chars (pu_netloc u) ++
                      "/hcmRestApi/resources/latest/recruitingCEJobRequisitionDetails" ++
                      "?onlyData=true&expand=all&finder=ById;siteNumber=" ++ site ++ ",Id=%22" ++ job ++ "%22")%string []))
        oracle_read
  | _ => Some UNSUPPORTED
  end.

Definition workable_fetch (url : string) : option AtsResult :=
  match texts (search WORKABLE_JOB url) with
  | Some [board; job] =>
      body_of "workable"
        (http 0 (Get ("https://apply.workable.com/api/v2/accounts/" ++ board ++ "/jobs/" ++ job)%string []))
        (λ data, t ← workable_text clean data; d ← get "published" data; dated "workable" t d)
  | _ => Some UNSUPPORTED
  end.

Definition gem_fetch (url : string) : option AtsResult :=
  match texts (search GEM_JOB url) with
  | Some [board; job] =>
      body_if_200 "gem"
        (http 0 (Get ("https://api.gem.com/job_board/v0/" ++ board ++ "/job_posts/" ++ job)%string []))
        (λ r, data ← rs_json r; t ← greenhouse_text clean data; d ← get "first_published_at" data; dated "gem" t d)
  | _ => Some UNSUPPORTED
  end.

(** A board that lists the posting no longer says so in the body of its 404. *)
Definition rippling_closed (r : response) : option bool :=
  match rs_json r with
  | Some j => ok ← get "ok" j; Some (bool_decide (ok = JBool false))
  | None => Some false
  end.

Definition rippling_fetch (url : string) : option AtsResult :=
  match texts (search RIPPLING_JOB url) with
  | Some [board; job] =>
      match http 0 (Get ("https://ats.rippling.com/api/v2/board/" ++ board ++ "/jobs/" ++ job)%string []) with
      | None => Some (failed "rippling")
      | Some r =>
          if rs_status r =? 404
          then closed ← rippling_closed r; Some (if (closed : bool) then gone "rippling" else failed "rippling")
          else if negb (rs_status r =? 200) then Some (failed "rippling")
          else data ← rs_json r; t ← rippling_text clean data; d ← get "createdOn" data; dated "rippling" t d
      end
  | _ => Some UNSUPPORTED
  end.

(** The scripts of a page that hold linked data. *)
Definition LD_OPEN : list ascii :=
  chars "<script type=" ++ quote :: chars "application/ld+json" ++ [quote; ">"%char].

Definition LD_CLOSE : list ascii := chars "</script>".

Fixpoint before_text (stop l : list ascii) : option (list ascii * list ascii) :=
  if starts_with stop l then Some ([], drop (length stop) l)
  else match l with
       | [] => None
       | c :: l => '(a, b) ← before_text stop l; Some (c :: a, b)
       end.

Fixpoint ld_scripts (fuel : nat) (l : list ascii) : list (list ascii) :=
  match fuel with
  | O => []
  | S fuel =>
      match before_text LD_OPEN l with
      | None => []
      | Some (_, rest) =>
          match before_text LD_CLOSE rest with
          | None => []
          | Some (script, rest) => script :: ld_scripts fuel rest
          end
      end
  end.

Definition is_job_posting_json_ld (data : json) : bool :=
  match data with
  | JObj o => bool_decide (alist_get "@type" o = Some (JStr "JobPosting"))
  | _ => false
  end.

Definition ld_posting (page : string) : option json :=
  find is_job_posting_json_ld (omap (λ l, loads (of_chars l)) (ld_scripts (String.length page) (chars page))).

Definition json_ld_location (place : json) : string :=
  match place with
  | JObj o =>
      match alist_get "address" o with
      | Some (JObj a) =>
          let parts := map (λ k, strip (py_str (py_or (default JNull (alist_get k a)) (JStr ""))))
                         ["addressLocality"; "addressRegion"; "addressCountry"] in
          str_join ", " (List.filter (λ p, negb (String.eqb p "") && negb (String.eqb p "UNAVAILABLE")) parts)
      | _ => ""
      end
  | _ => ""
  end.

Definition icims_read (page : string) : option AtsResult :=
  match ld_posting page with
  | None => Some (result_of "icims" None)
  | Some posting =>
      places ← get "jobLocation" posting;
      let places := match py_or places (JArr []) with JArr l => l | v => [v] end in
      title ← get "title" posting;
      body ← cleaned clean "description" posting;
      t ← join_posting_sections
            [title; JStr (str_join "; " (List.filter (λ p, negb (String.eqb p "")) (map json_ld_location places))); body];
      d ← get "datePosted" posting;
      dated "icims" t d
  end.

Definition icims_fetch (url : string) : option AtsResult :=
  u ← urlparse url;
  let host := netloc_lower u in
  match ends_with ".icims.com" host, texts (search ICIMS_JOB (pu_path u)) with
  | true, Some [job] =>
      let resp := http 0 (Get ("https://" ++ host ++ "/jobs/" ++ job ++ "/job?in_iframe=1")%string []) in
      match from_response "icims" resp with
      | Some early => Some early
      | None => r ← resp; icims_read (rs_text r)
      end
  | _, _ => Some UNSUPPORTED
  end.

Definition apple_sections : list (string * json) :=
  [("jobSummary", JNull); ("description", JStr "Description"); ("responsibilities", JStr "Responsibilities");
   ("minimumQualifications", JStr "Minimum Qualifications");
   ("preferredQualifications", JStr "Preferred Qualifications")].

Definition distinct (l : list json) : list json := rev (remove_dups (rev l)).

Definition apple_place (p : json) : option string :=
  name ← get "name" p;
  country ← get "countryName" p;
  join_texts ", " (distinct (List.filter truthy [name; country])).

Definition apple_section (data : json) (s : string * json) : option json :=
  v ← get s.1 data;
  if truthy v then JStr <$> join_posting_sections [s.2; v] else Some JNull.

Definition apple_read (job_id : string) (answer : json) : option AtsResult :=
  res ← get "res" answer;
  let data := dict_or res in
  number ← get "jobNumber" data;
  selected ← get "selectedLocation" data;
  let place := if bool_decide (number = JStr job_id) then selected else JNull in
  locations ← get "locations" data;
  places ← (if truthy place then Some [place] else items_or locations);
  places ← mapM apple_place places;
  title ← get "postingTitle" data;
  sections ← mapM (apple_section data) apple_sections;
  t ← join_posting_sections ([title; JStr (str_join "; " places)] ++ sections);
  pipeline ← get "managedPipelineRole" data;
  if truthy pipeline then Some (result_of "apple" (Some t))
  else d ← get "postDateInGMT" data; dated "apple" t d.

Definition apple_fetch (url : string) : option AtsResult :=
  match search APPLE_JOB url with
  | Some [Some job; _] =>
      body_of "apple" (http 0 (Get ("https://jobs.apple.com/api/v1/jobDetails/" ++ of_chars job)%string []))
        (apple_read (of_chars job))
  | _ => Some UNSUPPORTED
  end.

Definition GOLDMAN_QUERY : string :=
  str_join (of_chars ["010"%char])
    ["query Role($id: String!) {"; "  role(externalSourceId: $id) {";
     "    jobTitle corporateTitle status externalJobStatus lastPostedDate";
     "    locations { city state country }"; "    compensation { minSalary maxSalary currency }";
     "    descriptionHtml"; "  }"; "}"].

Definition goldman_read (answer : json) : option AtsResult :=
  data ← get "data" answer;
  role ← get "role" (dict_or data);
  let role := dict_or role in
  status ← get "externalJobStatus" role;
  description ← get "descriptionHtml" role;
  if negb (mem status [JNull; JStr "POSTED"]) || negb (truthy description) then Some (failed "goldman")
  else t ← goldman_text clean role; d ← get "lastPostedDate" role; dated "goldman" t d.

Definition goldman_fetch (url : string) : option AtsResult :=
  match texts (search (PText "higher.gs.com/roles/" · PGroup (PSome is_digit)) url) with
  | Some [job] =>
      body_if_200 "goldman"
        (http 0 (Post "https://api-higher.gs.com/gateway/api/v1/graphql"
                   (JObj [("query", JStr GOLDMAN_QUERY); ("variables", JObj [("id", JStr job)])])))
        (λ r, j ← rs_json r; goldman_read j)
  | _ => Some UNSUPPORTED
  end.

Definition IBM_JOB : pat :=
  PAlt (PText "careers.ibm.com") (PText "ibmglobal.avature.net") · PText "/" · PMany not_newline ·
  PChar ask_or_and · PText "jobId=" · PGroup (PSome is_digit).

Definition ibm_fetch (url : string) : option AtsResult :=
  match texts (search IBM_JOB url) with
  | Some [job] =>
      match http 0 (GetNoRedirect ("https://ibmglobal.avature.net/en_US/careers/JobDetail?jobId=" ++ job)%string) with
      | None => Some (failed "ibm")
      | Some r =>
          u ← urlparse (rs_location r);
          Some (if mem (rs_status r) [301; 302] && ends_with "/careers/Error" (pu_path u)
                then gone "ibm" else UNSUPPORTED)
      end
  | _ => Some UNSUPPORTED
  end.

Definition _ADP_ATTEMPTS : nat := 8.

Definition _node_refused (r : response) : bool :=
  (rs_status r =? 500) ||
  ((rs_status r =? 404) && starts_with (chars "default backend") (chars (rs_text r))).

(** The answer of a node that serves the tenant, or the last refusal. *)
Fixpoint adp_get (attempts n : nat) (q : http_request) (last : option response) : option response :=
  match attempts with
  | O => last
  | S attempts =>
      match http n q with
      | None => None
      | Some r => if _node_refused r then adp_get attempts (S n) q (Some r) else Some r
      end
  end.

Definition adp_read (data : json) : option AtsResult :=
  item ← get "itemID" data;
  if negb (truthy item) then Some (gone "adp")
  else
    title ← get "requisitionTitle" data;
    body ← cleaned clean "requisitionDescription" data;
    t ← join_posting_sections [title; body];
    d ← get "postDate" data;
    dated "adp" t d.

Definition adp_fetch (url : string) : option AtsResult :=
  match adp_parts url with
  | None => Some UNSUPPORTED
  | Some (host, cid, job) =>
      body_if_200 "adp"
        (adp_get _ADP_ATTEMPTS 0 (Get ("https://" ++ host ++ ADP_REQUISITIONS ++ "/" ++ job)%string [("cid", cid)]) None)
        (λ r, data ← rs_json r; adp_read data)
  end.

Definition UKG_DETAIL : list ascii := chars "CandidateOpportunityDetail(".

Definition ukg_read (page : string) : option AtsResult :=
  match before_text UKG_DETAIL (chars page) with
  | None => Some (failed "ukg")
  | Some (_, rest) =>
      match read (S (length rest)) rest with
      | None => Some (failed "ukg")
      | Some (data, _) =>
          closed ← get "OpportunityIsClosed" data;
          if truthy closed then Some (gone "ukg")
          else t ← ukg_text clean data; d ← get "PostedDate" data; dated "ukg" t d
      end
  end.

Definition ukg_fetch (url : string) : option AtsResult :=
  match ukg_canonical url with
  | None => Some UNSUPPORTED
  | Some page => body_if_200 "ukg" (http 0 (GetHtml page)) (λ r, ukg_read (rs_text r))
  end.

Definition BRASSRING_INPUT : pat :=
  PText (of_chars (chars "<input id=" ++ quote :: chars "preLoadJSON" ++ quote :: chars " type=" ++
                   quote :: chars "hidden" ++ quote :: chars " value=" ++ [quote])) ·
  PGroup (PMany (λ c, negb (Ascii.eqb c quote))) · PChar (Ascii.eqb quote).

Definition brassring_question (q : json) : option json :=
  name ← get "QuestionName" q;
  answer ← cleaned clean "AnswerValue" q;
  JStr <$> join_posting_sections [name; answer].

Definition brassring_read (page : string) : option AtsResult :=
  data ← (match texts (search BRASSRING_INPUT page) with
          | Some [held] => if String.eqb held "" then Some (JObj []) else loads (html_unescape held)
          | _ => Some (JObj [])
          end);
  details ← get "Jobdetails" data;
  questions ← get "JobDetailQuestions" (dict_or details);
  questions ← items_or questions;
  named ← mapM (λ q, c ← get "ClassName" q; Some (q, truthy c)) questions;
  sections ← mapM (λ q : json * bool, brassring_question q.1) (List.filter (λ q : json * bool, q.2) named);
  t ← join_posting_sections sections;
  Some (result_of "brassring" (Some t)).

Definition brassring_fetch (url : string) : option AtsResult :=
  match brassring_canonical url with
  | None => Some UNSUPPORTED
  | Some page => body_if_200 "brassring" (http 0 (Get page [])) (λ r, brassring_read (rs_text r))
  end.

(** ** Systems on an employer's own host, known by the source that lists it *)

Definition EIGHTFOLD_JOB : pat := PText "/careers/job/" · PGroup (PSome is_digit) · POpt (PText "/") · PEnd.

(** [int(v)]. *)
Definition int_of (v : json) : option Z :=
  match v with
  | JInt z => Some z
  | JBool b => Some (if b then 1 else 0)
  | JStr s => match chars (strip s) with
              | "-"%char :: l => Z.opp <$> digits_value l
              | "+"%char :: l => digits_value l
              | l => digits_value l
              end
  | _ => None
  end.

Definition day_of_timestamp (ts : json) : option (option Z) :=
  if negb (truthy ts) then Some None
  else s ← int_of ts;
       if (-62135596800 <=? s) && (s <? 253402300800) then Some (Some (s / 86400)) else None.

Definition eightfold_read (pcsx : bool) (body : json) : option AtsResult :=
  data ← (if pcsx then d ← get "data" body; Some (dict_or d) else Some body);
  text ← get (if pcsx then "jobDescription" else "job_description") data;
  result ← (if truthy text
            then name ← get "name" data;
                 places ← get "locations" data;
                 places ← items_or places;
                 place ← join_texts "; " places;
                 body ← clean_html clean text;
                 t ← join_posting_sections [name; JStr place; body];
                 Some (result_of "eightfold" (Some t))
            else Some (result_of "eightfold" None));
  ts ← get (if pcsx then "postedTs" else "t_create") data;
  d ← day_of_timestamp ts;
  Some (with_posted d result).

Definition eightfold_fetch_listed (url listings_url : string) : option (option AtsResult) :=
  posting ← urlparse url;
  listing ← urlparse listings_url;
  let generation := rstrip "/" (pu_path listing) in
  match texts (match_at EIGHTFOLD_JOB (chars (pu_path posting))) with
  | Some [job] =>
      if negb (String.eqb (netloc_lower posting) (netloc_lower listing)) ||
         negb (mem generation [EIGHTFOLD_PCSX; EIGHTFOLD_V2])
      then Some None
      else
        let origin := ("https://" ++ of_chars (pu_netloc listing))%string in
        let pcsx := String.eqb generation EIGHTFOLD_PCSX in
        Some <$> body_of "eightfold"
                   (http 0 (Get (if pcsx then origin ++ "/api/pcsx/position_details?position_id=" ++ job
                                 else origin ++ EIGHTFOLD_V2 ++ "/" ++ job)%string []))
                   (eightfold_read pcsx)
  | _ => Some None
  end.

Definition PHENOM_SITE : pat := PGroup (POpt (PText "/" · PSome is_lower · PText "/" · PTimes 2 is_lower)).
Definition PHENOM_JOB : pat := PHENOM_SITE · PText "/job/" · PGroup (PSome (none_of "/")).
Definition PHENOM_SEARCH : pat := PHENOM_SITE · PText "/search-results" · PEnd.

Definition phenom_locale (prefix : string) : list (string * json) :=
  let '(country, _, lang) := partition "/"%char (chars (rstrip "/" (of_chars (lstrip_chars (Ascii.eqb "/") (chars prefix))))) in
  match lang with
  | [] => []
  | _ => [("lang", JStr (of_chars lang ++ "_" ++ of_chars country)%string); ("country", JStr (of_chars country))]
  end.

(** The listings URL a Phenom source for this posting would have. *)
Definition phenom_listing (url : string) : option (option string) :=
  u ← urlparse url;
  Some (match texts (match_at PHENOM_JOB (chars (pu_path u))) with
        | Some [site; _] =>
            if String.eqb (pu_scheme u) "https"
            then Some ("https://" ++ netloc_lower u ++ site ++ "/search-results")%string else None
        | _ => None
        end).

Definition phenom_place (m : json) : option json :=
  a ← get "cityStateCountry" m; b ← get "locationName" m; Some (JStr (py_str (py_or a b))).

Definition phenom_read (answer : json) : option AtsResult :=
  detail ← get "jobDetail" answer;
  data ← get "data" (dict_or detail);
  job ← get "job" (dict_or data);
  let job := dict_or job in
  text ← get "description" job;
  result ← (if truthy text
            then title ← get "title" job;
                 places ← get "multi_location" job;
                 places ← items_or places;
                 places ← mapM phenom_place places;
                 place ← join_texts "; " (distinct places);
                 location ← get "location" job;
                 body ← clean_html clean text;
                 t ← join_posting_sections [title; py_or (JStr place) location; body];
                 Some (result_of "phenom" (Some t))
            else Some (result_of "phenom" None));
  posted ← get "postedDate" job;
  d ← parse_posted_date posted;
  Some (with_posted d result).

Definition phenom_fetch_listed (url listings_url : string) : option (option AtsResult) :=
  posting ← urlparse url;
  listing ← urlparse listings_url;
  match texts (match_at PHENOM_JOB (chars (pu_path posting))), texts (match_at PHENOM_SEARCH (chars (pu_path listing))) with
  | Some [site; job], Some [listed_site] =>
      if negb (String.eqb (netloc_lower posting) (netloc_lower listing)) || negb (String.eqb site listed_site)
      then Some None
      else
        Some <$> body_if_200 "phenom"
          (http 0 (Post ("https://" ++ of_chars (pu_netloc listing) ++ "/widgets")%string
                     (JObj ([("ddoKey", JStr "jobDetail");
                             ("jobId", JStr (of_chars (unquote_chars (chars job))))] ++ phenom_locale site))))
          (λ r, j ← rs_json r; phenom_read j)
  | _, _ => Some None
  end.

(** ** The resolvers *)

(** [rv_matches] is [None] where it raises. *)
Record resolver : Type := mkResolver {
  rv_name : string;
  rv_markers : list string;
  rv_matches : string → option bool;
  rv_canonical : string → option string;
  rv_fetch : string → option AtsResult;
}.

(** A resolver that matches by its markers. *)
Definition by_markers (name : string) (markers : list string) (canonical : string → option string)
    (fetch : string → option AtsResult) : resolver :=
  mkResolver name markers (λ url, Some (existsb (λ m, contains m url) markers)) canonical fetch.

Definition no_canonical (url : string) : option string := None.

Definition RESOLVERS : list resolver :=
  [by_markers "greenhouse" ["greenhouse.io"; "gh_jid="] greenhouse_canonical greenhouse_fetch;
   by_markers "lever" ["lever.co"] lever_canonical lever_fetch;
   by_markers "ashby" ["ashbyhq.com"] ashby_canonical ashby_fetch;
   by_markers "smartrecruiters" ["smartrecruiters.com"] smartrecruiters_canonical smartrecruiters_fetch;
   by_markers "workday" ["myworkdayjobs.com"] workday_canonical workday_fetch;
   by_markers "oracle" ["oraclecloud.com"] oracle_canonical oracle_fetch;
   by_markers "workable" ["workable.com"] workable_canonical workable_fetch;
   by_markers "gem" ["jobs.gem.com"] gem_canonical gem_fetch;
   by_markers "rippling" ["ats.rippling.com"] rippling_canonical rippling_fetch;
   by_markers "icims" ["icims.com"] icims_canonical icims_fetch;
   by_markers "apple" ["jobs.apple.com/"] apple_canonical apple_fetch;
   by_markers "goldman" ["higher.gs.com/roles/"] no_canonical goldman_fetch;
   by_markers "ibm" ["careers.ibm.com/"; "ibmglobal.avature.net/"] no_canonical ibm_fetch;
   by_markers "adp" ADP_HOSTS adp_canonical adp_fetch;
   by_markers "ukg" ["ultipro.com/"; "ultipro.ca/"] ukg_canonical ukg_fetch;
   mkResolver "brassring" ["brassring.com/"]
     (λ url, (λ u, String.eqb (lower (pu_path u)) BRASSRING_PAGE) <$> urlparse url)
     brassring_canonical brassring_fetch].

(** The first that matches; the outer [None] is an exception. *)
Fixpoint matching_resolver (l : list resolver) (url : string) : option (option resolver) :=
  match l with
  | [] => Some None
  | r :: l => m ← rv_matches r url;
              if (m : bool) then Some (Some r) else matching_resolver l url
  end.

(** [_logged]: an exception is an error of the resolver. *)
Definition logged (name : string) (result : option AtsResult) : AtsResult := default (failed name) result.

Definition resolve (url : string) : option AtsResult :=
  r ← matching_resolver RESOLVERS url;
  Some match r with
       | None => UNSUPPORTED
       | Some r => logged (rv_name r) (rv_fetch r url)
       end.

Definition resolve_listed (url listings_url : string) : option AtsResult :=
  u ← urlparse listings_url;
  Some (match match_at PHENOM_SEARCH (chars (pu_path u)) with
        | Some _ => logged "phenom" (default UNSUPPORTED <$> phenom_fetch_listed url listings_url)
        | None => logged "eightfold" (default UNSUPPORTED <$> eightfold_fetch_listed url listings_url)
        end).
End fetch.

(** ** One spelling for a posting *)

Definition AMAZON_JOB : pat :=
  PText "/" · PLoop (PSome (λ c, is_alpha c || Ascii.eqb c "-") · PText "/") · PText "jobs/" ·
  PGroup (PSome is_digit) · PAlt (PText "/") PEnd.

Definition GOOGLE_JOB : pat :=
  PText "/" · POpt (PText "about/careers/applications/") · PText "jobs/results/" · PGroup (PSome is_digit) ·
  POpt (PText "-" · PMany (none_of "/")) · POpt (PText "/") · PEnd.

(** The outer [None] is ValueError. *)
Definition employer_canonical (url : string) : option (option string) :=
  u ← urlparse url;
  let host := lower (default "" (url_hostname u)) in
  Some (if String.eqb host "amazon.jobs" || ends_with ".amazon.jobs" host
        then match texts (match_at AMAZON_JOB (chars (pu_path u))) with
             | Some [job] => Some ("https://www.amazon.jobs/en/jobs/" ++ job)%string
             | _ => None
             end
        else if mem host ["www.google.com"; "google.com"; "careers.google.com"]
        then match texts (match_at GOOGLE_JOB (chars (pu_path u))) with
             | Some [job] => Some ("https://www.google.com/about/careers/applications/jobs/results/" ++ job)%string
             | _ => None
             end
        else None).

(** [canonicalize]; the requests its resolvers could make are never asked. *)
Definition canonicalize (url : string) : option (option string) :=
  employer ← employer_canonical url;
  match employer with
  | Some c => Some (Some c)
  | None =>
      r ← matching_resolver (RESOLVERS id id (λ _ _, None)) url;
      Some (match r with Some r => rv_canonical r url | None => None end)
  end.

(** ** Which mail an applicant-tracking system sends *)

Definition _MAIL_ONLY_DOMAINS : list string :=
  ["greenhouse-mail.io"; "myworkday.com"; "successfactors.com"; "jobvite.com"; "candidates.workablemail.com";
   "appreview.gem.com"; "applytojob.com"; "workflow.mail.us2.cloud.oracle.com"; "welcometothejungle.com";
   "hackerrankforwork.com"].

Definition is_ats_email_domain (domain : option string) : bool :=
  let d := rstrip "." (strip (lower (default "" domain))) in
  if String.eqb d "" then false
  else
    let known := List.filter (contains ".") (concat (map rv_markers (RESOLVERS id id (λ _ _, None)))) ++ _MAIL_ONLY_DOMAINS in
    existsb (λ k, String.eqb d k || ends_with ("." ++ k)%string d) known.

(** ** The source behind a posting *)

Definition BOARD_PATH : pat :=
  PText "/v1/boards/" · PGroup (PSome is_id_char) · PText "/jobs" · POpt (PText "/").

Definition source_posting_url (url : string) (listings_url : option string) : option string :=
  posting ← urlparse url;
  listing ← urlparse (default "" listings_url);
  Some (match first_of "gh_jid" (parse_qs (pu_query posting)), texts (fullmatch BOARD_PATH (pu_path listing)) with
        | Some job, Some [board] =>
            if isdecimal job && bool_decide (url_hostname listing = Some "boards-api.greenhouse.io")
            then ("https://boards.greenhouse.io/" ++ board ++ "/jobs/" ++ job)%string else url
        | _, _ => url
        end).

(** The outer [None] is ValueError. *)
Definition listing_prefixes (url : string) : option (option (string * string)) :=
  u ← urlparse url;
  if String.eqb (pu_scheme u) "https" && bool_decide (is_Some (match_at EIGHTFOLD_JOB (chars (pu_path u))))
  then let origin := ("https://" ++ netloc_lower u)%string in
       Some (Some ((origin ++ EIGHTFOLD_PCSX ++ "?")%string, (origin ++ EIGHTFOLD_V2 ++ "?")%string))
  else match phenom_listing url with
       | Some phenom => Some ((λ p : string, (p, p)) <$> phenom)
       | None => None
       end.
