(* ===== verification/Ingest.v ===== *)
(** * Pulling a source ([tasks.ingest], [api.ai.verdicts], [core.fetching.boards.formats])

    The format of a board and what its absence proves, a fresh read of a posting's page,
    and the task that pulls a source: the host's slot, the pull and how it can end, the
    listings, the catalog and its observations, the pages, and the filter runs it starts.
    A board's fetcher is a parameter that lists postings, lists some of them, or fails. *)

From Stdlib Require Import Ascii.
From S2P Require Import Prelude PyStr Sql Json Objects Tasks Lifecycle Queue Execution Spec Access Listings Hosts Catalog Regex Selection Verdicts Visibility Urls Fetches FilterRuns Ssrf Ats.

Local Open Scope string_scope.
Local Open Scope list_scope.
Local Open Scope Z_scope.

(** ** Board formats ([core.fetching.boards.formats]) *)

Record ListingAddress : Type := mkAddress {
  la_host : string;
  la_path : string;
}.

(** [None] is ValueError. *)
Definition from_url (url : string) : option ListingAddress :=
  (λ u, mkAddress (netloc_lower u) (pu_path u)) <$> urlparse url.

(** [bf_fetched]: the format has a fetcher of its own. *)
Record BoardFormat : Type := mkFormat {
  bf_name : string;
  bf_matches : ListingAddress → bool;
  bf_fetched : bool;
  bf_needs_company : bool;
  bf_authoritative : bool;
}.

(** A company's board, which lists every open posting. *)
Definition company_board (name : string) (matches_ : ListingAddress → bool) : BoardFormat :=
  mkFormat name matches_ true true true.

(** One whose rows name their own company. *)
Definition naming_board (name : string) (matches_ : ListingAddress → bool) : BoardFormat :=
  mkFormat name matches_ true false true.

#[local] Infix "·" := PSeq (at level 40, left associativity).

Definition host_is (hosts : list string) (a : ListingAddress) : bool := mem (la_host a) hosts.
Definition host_under (suffix : string) (a : ListingAddress) : bool := ends_with suffix (la_host a).
Definition path_is (paths : list string) (a : ListingAddress) : bool := mem (la_path a) paths.
Definition trimmed_path_is (paths : list string) (a : ListingAddress) : bool := mem (rstrip "/" (la_path a)) paths.
Definition path_from (prefix : string) (a : ListingAddress) : bool := starts_with (chars prefix) (chars (la_path a)).
Definition whole (p : pat) (s : string) : bool := bool_decide (is_Some (fullmatch p s)).
Definition from_start (p : pat) (s : string) : bool := bool_decide (is_Some (match_at p (chars s))).

Definition RIPPLING_BOARD : pat := PText "/api/v2/board/" · PSome (none_of "/") · PText "/jobs" · POpt (PText "/").
Definition TALEO_SECTION : pat := PText "/careersection/" · PSome (none_of "/") · PText "/jobsearch.ftl" · PEnd.
Definition UKG_HOST : pat := PText "recruiting" · PMany is_digit · PText ".ultipro." · PAlt (PText "com") (PText "ca").
Definition UKG_SEARCH : pat :=
  PText "/" · PSome (none_of "/") · PText "/JobBoard/" · PTimes 36 is_any_hex_dash ·
  PText "/JobBoardView/LoadSearchResults".
Definition PORTAL_HOSTS : pat :=
  PText "career" · PMany (λ c, is_alnum_lower c || Ascii.eqb c "-") · PText "." ·
  PAlt (PText "successfactors") (PText "sapsf") · PText "." · PAlt (PText "com") (PText "eu") · PEnd.
Definition PAYLOCITY_BOARD : pat :=
  PText "/recruiting/jobs/all/" · PTimes 36 is_hex_dash · POpt (PText "/" · PMany (none_of "/")) · POpt (PText "/").
Definition JOBVITE_BOARD : pat := PText "/" · PSome (none_of "/") · PText "/jobs" · POpt (PText "/").
Definition PAGEUP_FEED : pat :=
  PText "/" · PSome is_digit · PText "/cw/" · PSome (λ c, is_lower c || Ascii.eqb c "-") · PText "/rss" ·
  POpt (PText "/").

Definition is_successfactors_portal (a : ListingAddress) : bool :=
  from_start PORTAL_HOSTS (la_host a) && path_is ["/career"] a.

Definition FORMATS : list BoardFormat :=
  [naming_board "greenhouse" (host_is ["boards-api.greenhouse.io"]);
   company_board "lever" (host_is ["api.lever.co"; "api.eu.lever.co"]);
   company_board "ashby" (host_is ["api.ashbyhq.com"]);
   company_board "workday" (λ a, host_under "myworkdayjobs.com" a && contains "/wday/cxs/" (la_path a));
   naming_board "smartrecruiters" (host_is ["api.smartrecruiters.com"]);
   company_board "oracle" (λ a, host_under "oraclecloud.com" a && contains "/hcmRestApi/" (la_path a));
   company_board "workable" (λ a, host_is ["apply.workable.com"] a && path_from "/api/" a);
   company_board "gem" (λ a, host_is ["api.gem.com"] a && path_from "/job_board/v0/" a);
   company_board "rippling" (λ a, host_is ["ats.rippling.com"] a && whole RIPPLING_BOARD (la_path a));
   company_board "avature" (host_under ".avature.net");
   company_board "taleo" (λ a, host_under ".taleo.net" a && from_start TALEO_SECTION (la_path a));
   company_board "ukg" (λ a, whole UKG_HOST (la_host a) && whole UKG_SEARCH (la_path a));
   company_board "apple" (λ a, host_is ["jobs.apple.com"] a && path_from "/api/" a);
   company_board "bytedance" (λ a, host_is ["api.lifeattiktok.com"; "jobs.bytedance.com"] a &&
                                   path_is ["/api/v1/public/supplier/search/job/posts"] a);
   company_board "icims" (λ a, host_under ".icims.com" a && trimmed_path_is ["/jobs/search"] a);
   naming_board "jibe" (trimmed_path_is ["/api/jobs"]);
   company_board "ibm" (λ a, host_is ["www-api.ibm.com"] a && path_is ["/search/api/v2"] a);
   company_board "goldman" (λ a, host_is ["api-higher.gs.com"] a && path_is ["/gateway/api/v1/graphql"] a);
   company_board "amazon" (λ a, host_is ["www.amazon.jobs"] a && ends_with "/search.json" (la_path a));
   company_board "google" (λ a, host_is ["www.google.com"] a && path_is ["/about/careers/applications/jobs/feed.xml"] a);
   company_board "successfactors" (path_is ["/services/rss/job/"]);
   company_board "successfactors_portal" is_successfactors_portal;
   company_board "eightfold" (trimmed_path_is [EIGHTFOLD_PCSX; EIGHTFOLD_V2]);
   company_board "adp" (λ a, host_is ADP_HOSTS a && path_is [ADP_REQUISITIONS] a);
   company_board "brassring" (λ a, String.eqb (lower (la_path a)) "/tgnewui/search/home/home");
   company_board "paylocity" (λ a, host_is ["recruiting.paylocity.com"] a && whole PAYLOCITY_BOARD (lower (la_path a)));
   company_board "jazzhr" (λ a, host_is ["app.jazz.co"] a && path_from "/feeds/export/jobs/" a);
   company_board "jobvite" (λ a, host_is ["jobs.jobvite.com"] a && whole JOBVITE_BOARD (la_path a));
   company_board "bamboohr" (λ a, host_under ".bamboohr.com" a && path_is ["/careers/list"] a);
   company_board "pinpoint" (λ a, host_under ".pinpointhq.com" a && path_is ["/postings.json"] a);
   company_board "breezy" (λ a, host_under ".breezy.hr" a && path_is ["/json"] a);
   company_board "teamtailor" (λ a, host_under ".teamtailor.com" a && path_is ["/jobs.rss"] a);
   company_board "pageup" (λ a, host_is ["careers.pageuppeople.com"] a && whole PAGEUP_FEED (la_path a));
   company_board "recruitee" (λ a, host_under ".recruitee.com" a && trimmed_path_is ["/api/offers"] a);
   company_board "phenom" (λ a, from_start PHENOM_SEARCH (la_path a));
   mkFormat "markdown" (λ a, ends_with ".md" (la_path a)) true false false].

Definition SHEET_ERA : BoardFormat := mkFormat "sheet_era" (λ _, true) false false false.

Definition format_for_url (url : string) : option BoardFormat :=
  a ← from_url url; Some (default SHEET_ERA (find (λ f, bf_matches f a) FORMATS)).

(** [__post_init__] of the formats declared: a board that needs a company proves a
    complete pull. *)
Example formats_checked : forallb (λ f, negb (bf_needs_company f) || bf_authoritative f) (SHEET_ERA :: FORMATS) = true.
Proof. reflexivity. Qed.

(** ** A pull and how it can end *)

(** An exception of a fetcher, and the response it carries: its status and its
    [x-amzn-waf-action] header. *)
Record board_failure : Type := mkBoardFailure {
  bx_response : option (Z * string);
  bx_exn : exn;
}.

Inductive pulled : Type :=
| Listed (postings : list JobPosting)
| PartialPull (postings : list JobPosting)
| BoardRaised (e : board_failure).

Definition plain_failure (text : string) : board_failure := mkBoardFailure None (mkExn OtherError text).

(** [fetch_listings]; [fetchers] is a format's fetcher by its name. *)
Definition fetch_listings (fetchers : string → string → string → pulled) (url : string) (company : option string)
    : pulled :=
  match format_for_url url with
  | None => BoardRaised (plain_failure "ValueError")
  | Some f =>
      if negb (bf_fetched f) then fetchers (bf_name f) url ""
      else
        let company := strip (default "" company) in
        if bf_needs_company f && String.eqb company ""
        then BoardRaised (plain_failure ("a " ++ bf_name f ++ " board names no company; set the source's company"))
        else fetchers (bf_name f) url company
  end.

(** Too many requests, or a challenge of the web firewall. *)
Definition refusal (e : board_failure) : bool :=
  match bx_response e with
  | Some (status, waf) => (status =? 429) || negb (String.eqb waf "")
  | None => false
  end.

(** ** Everything a pull writes *)

Record ingest_conf : Type := mkIngestConf {
  ingest_host_pace_seconds : gmap string Qc;
  ingest_give_up_after_failures : Z;
  listings_seen_refresh_hours : Z;
  fetch_host_limits : gmap string Z;
  fetch_engine : string;
  static_fetch_min_chars : Z;
  ic_fetch_rules : fetch_rules;
  ai_paused : bool;
}.

(** People, as far as a filter run needs them: their groups, whether they have a key of
    their own, the groups with a budget, filters and sources. *)
Record people : Type := mkPeople {
  pp_users : gmap Z (list string);
  pp_own_key : gset Z;
  pp_budgets : list group_budget;
  pp_filters : list user_filter;
  pp_selections : selections;
}.

(** [is_lookups] counts the lookups of host names. *)
Record ingest_site (St : Type) : Type := mkSite {
  is_catalog : catalog;
  is_world : world;
  is_budgets : budgets;
  is_log : fetch_log;
  is_answers : list answer;
  is_listings : gmap string listing;
  is_objects : St;
  is_people : people;
  is_conf : ingest_conf;
  is_lookups : nat;
}.
Arguments mkSite {St}.
Arguments is_catalog {St}.
Arguments is_world {St}.
Arguments is_budgets {St}.
Arguments is_log {St}.
Arguments is_answers {St}.
Arguments is_listings {St}.
Arguments is_objects {St}.
Arguments is_people {St}.
Arguments is_conf {St}.
Arguments is_lookups {St}.

Section ingest.
Context {St : Type} (cl : client St) (sha256 : string → string) (bucket : string).
Context (clean html_unescape : string → string) (http : nat → http_request → option response).
Context (dns : nat → string → option (list string)) (browse : nat → string → browsed)
  (static_get : nat → string → option static_response).
Context (fetchers : string → string → string → pulled) (worker egress : string) (now : Z).
#[local] Notation site := (ingest_site St).

Definition on_catalog (c : catalog) (s : site) : site :=
  mkSite c (is_world s) (is_budgets s) (is_log s) (is_answers s) (is_listings s) (is_objects s) (is_people s)
    (is_conf s) (is_lookups s).
Definition on_world (w : world) (s : site) : site :=
  mkSite (is_catalog s) w (is_budgets s) (is_log s) (is_answers s) (is_listings s) (is_objects s) (is_people s)
    (is_conf s) (is_lookups s).
Definition on_budgets (b : budgets) (s : site) : site :=
  mkSite (is_catalog s) (is_world s) b (is_log s) (is_answers s) (is_listings s) (is_objects s) (is_people s)
    (is_conf s) (is_lookups s).
Definition on_log (l : fetch_log) (s : site) : site :=
  mkSite (is_catalog s) (is_world s) (is_budgets s) l (is_answers s) (is_listings s) (is_objects s) (is_people s)
    (is_conf s) (is_lookups s).
Definition on_answers (l : list answer) (s : site) : site :=
  mkSite (is_catalog s) (is_world s) (is_budgets s) (is_log s) l (is_listings s) (is_objects s) (is_people s)
    (is_conf s) (is_lookups s).
Definition on_listings (t : gmap string listing) (o : St) (s : site) : site :=
  mkSite (is_catalog s) (is_world s) (is_budgets s) (is_log s) (is_answers s) t o (is_people s) (is_conf s)
    (is_lookups s).
Definition on_lookups (n : nat) (s : site) : site :=
  mkSite (is_catalog s) (is_world s) (is_budgets s) (is_log s) (is_answers s) (is_listings s) (is_objects s)
    (is_people s) (is_conf s) n.

(** ** A fresh read of a posting's page ([api.ai.verdicts.refresh_page]) *)

(** [record_manual] of a closure. *)
Definition gone_answer (url context : string) : answer :=
  mkAnswer url "closed" "rejected" (Some "ATS reports posting gone") (Some context) None None None None None now.

Definition record_gone (url context : string) (s : site) : site :=
  on_answers (gone_answer url context :: is_answers s) s.

(** [page_fetches.record], and the page it stored. *)
Definition keep_page (url method text : string) (s : site) : site * Page :=
  let '(l, i) := Fetches.record worker now url "passed" method (Some text) (is_log s) in
  (on_log l s, mkPage i text).

Definition source_of_posting (url : string) (c : catalog) : option source :=
  i ← id_of_url url (c_jobs c); j ← c_jobs c !! i; c_sources c !! j_source j.

(** The first source by name whose listings start with either prefix. *)
Definition source_listing (prefixes : string * string) (c : catalog) : option source :=
  let starts p (r : source) := starts_with (chars p) (chars (s_listings_url r)) in
  snd <$> head (merge_sort by_url
                  (List.filter (λ nr : string * source, starts prefixes.1 nr.2 || starts prefixes.2 nr.2)
                     (map_to_list (c_sources c)))).

(** The URL its board is asked about and, for a board on its employer's host, the listing
    that vouches for it. [None] is an exception, here and below. *)
Definition ats_target (url : string) (c : catalog) : option (string * option string) :=
  if contains "gh_jid=" url
  then u ← source_posting_url url (s_listings_url <$> source_of_posting url c); Some (u, None)
  else
    prefixes ← listing_prefixes url;
    Some (url, match prefixes with
               | Some p => s_listings_url <$> source_listing p c
               | None => None
               end).

Definition ask_board (target : string * option string) : option AtsResult :=
  match target with
  | (url, None) => resolve clean html_unescape http url
  | (url, Some listings) => if String.eqb listings "" then resolve clean html_unescape http url
                            else resolve_listed clean http url listings
  end.

(** The browserless tier, then the browser. *)
Definition static_text (url : string) (s : site) : option (option string * nat) :=
  fetch_static dns (is_lookups s) static_get url (static_fetch_min_chars (is_conf s)).

Definition browse_page (url : string) (s : site) : site * option (option Page * option string) :=
  match fetch_page dns (is_lookups s) browse url with
  | None => (s, None)
  | Some (content, _, n) =>
      let s := on_lookups n s in
      match content with
      | None | Some "" =>
          (on_log (Fetches.record worker now url "failed" "fetch returned nothing" None (is_log s)).1 s, Some (None, None))
      | Some text => let '(s, p) := keep_page url "scraped" text s in (s, Some (Some p, None))
      end
  end.

Definition fetch_text (url : string) (listed : bool) (s : site) : site * option (option Page * option string) :=
  if String.eqb (fetch_engine (is_conf s)) "static_first" && negb listed
  then
    match static_text url s with
    | None => (s, None)
    | Some (text, n) =>
        let s := on_lookups n s in
        match text with
        | None | Some "" => browse_page url s
        | Some text => let '(s, p) := keep_page url "static" text s in (s, Some (Some p, None))
        end
    end
  else browse_page url s.

(** [refresh_page]: the page and the closure its board reports. *)
Definition refresh_page (url context : string) (s : site) : site * option (option Page * option string) :=
  match ats_target url (is_catalog s) with
  | None => (s, None)
  | Some target =>
      match ask_board target with
      | None => (s, None)
      | Some res =>
          if bool_decide (ar_status res = GONE) then (record_gone url context s, Some (None, Some "ats_gone"))
          else
            let text := if bool_decide (ar_status res = OK) then default "" (ar_text res) else "" in
            if negb (String.eqb text "") && negb (looks_blocked (Some text))
            then
              let '(s, p) := keep_page url "ats text" text s in
              let s := match ar_posted res with
                       | Some day => on_catalog (fill_date_posted url (day * 86400) (is_catalog s)) s
                       | None => s
                       end in
              (s, Some (Some p, None))
            else
              match host_paced (fetch_host_limits (is_conf s)) now url (is_log s) with
              | None => (s, None)
              | Some true => (s, Some (None, None))
              | Some false => fetch_text url (bool_decide (is_Some target.2)) s
              end
      end
  end.

(** ** The task *)

(** [_switch_off_if_given_up]: this pull is still running, so its own failure is added. *)
Definition switch_off_if_given_up (name : string) (s : site) : site :=
  let c := is_catalog s in
  let run := failure_runs (Some [name]) 1 (c_sources c) (tasks (is_world s)) !! name in
  let failures := match run with Some r => fr_failures r.2 | None => 0 end + 1 in
  if failures <? ingest_give_up_after_failures (is_conf s) then s
  else
    on_catalog
      (mkCatalog (c_jobs c) (c_next_job c) (c_uploads c) (c_observations c)
         (alter (λ r, mkSource false (s_ingest_interval_hours r) (s_listings_url r) (s_company r)
                        (s_title_pattern r)) name (c_sources c)) (c_patterns c)) s.

(** [_pull]: the postings and whether the pull saw all of them, or how the task ends. *)
Definition _pull (name : string) (src : source) (host : string) (s : site)
    : site * result Execution.outcome (list JobPosting * bool) :=
  match fetch_listings fetchers (s_listings_url src) (s_company src) with
  | Listed l => (s, Ok (l, true))
  | PartialPull l => (s, Ok (l, false))
  | BoardRaised e =>
      if refusal e
      then (on_budgets (refused now (host, egress) (is_budgets s)).1 s, Err (RaisedDeferred (soon now)))
      else (switch_off_if_given_up name s, Err (Raised (bx_exn e)))
  end.

(** The postings the stored title pattern keeps; [None] when it is no pattern. *)
Definition pattern_matched (pattern : option string) (listed : list JobPosting) : option (list JobPosting) :=
  match pattern with
  | None | Some "" => Some listed
  | Some p => r ← Regex.compile Python p; Some (List.filter (λ q, Regex.search Python true r (jp_title q)) listed)
  end.

Definition urls_of (l : list JobPosting) : list string := map jp_url l.

(** The columns of a listing that its change check compares as one; a pattern's id names
    its text. *)
Definition listing_facts (name pattern : string) (kept : list string) (p : JobPosting) : string :=
  dumps (JArr [JStr name; JStr (jp_company p); JStr (jp_title p); JArr (map JStr (jp_locations p)); JStr pattern;
               JBool (mem (jp_url p) kept)]).

Definition listed_posting (name pattern : string) (kept : list string) (p : JobPosting) : posting :=
  mkPosting (jp_url p) (jp_description p)
    (match jp_raw p with Some raw => if truthy raw then raw else JObj [] | None => JObj [] end)
    (listing_facts name pattern kept p) (if jp_date_posted p =? 0 then None else Some (jp_date_posted p)).

(** The stored listings of a pull's urls. *)
Definition stored_listings (l : list JobPosting) (t : gmap string listing) : list listing :=
  omap (λ u, t !! u) (remove_dups (urls_of l)).

(** How many values stay inline because their upload failed. *)
Definition inline_values (listed : list (string * json))
    (cols : list ((string * option reference) * (json * option reference))) : nat :=
  list_sum (zip_with (λ (p : string * json) (c : (string * option reference) * (json * option reference)),
     ((if negb (String.eqb p.1 "") && bool_decide (c.1.2 = None) then 1 else 0) +
      (if bool_decide (c.2.2 = None) then 1 else 0))%nat) listed cols).

Definition keep_listings (name pattern : string) (kept : list string) (l : list JobPosting) (s : site)
    : site * nat :=
  let rows := stored_listings l (is_listings s) in
  let ps := List.map (listed_posting name pattern kept) l in
  let listed := List.map (λ p, (po_description p, po_raw p)) (filter (λ p, po_url p ≠ "") ps) in
  let '(o, t) := record_listings cl sha256 bucket now (listings_seen_refresh_hours (is_conf s)) ps rows
                   (is_listings s) (is_objects s) in
  let cols := (reference_columns cl sha256 bucket rows listed (is_objects s)).2 in
  (on_listings t o s, inline_values listed cols).

(** Midnight of 2026-05-01, on a host whose time zone is UTC. *)
Definition FALLBACK_CUTOFF_TS : Z := 1777593600.

(** ** The pages *)

Record page_counts : Type := mkCounts {
  n_cached : nat;
  n_failed : nat;
  n_gone : nat;
}.

Definition page_wanted (have parked : gset string) (p : JobPosting) : bool :=
  negb (bool_decide (jp_url p ∈ have)) && negb (bool_decide (jp_url p ∈ parked)).

Definition content_ready (urls : list string) (l : fetch_log) : gset string :=
  list_to_set (List.filter (λ u, match text_rows u l with [] => false | _ => true end) urls).

(** One candidate without a page: the listing's text, or a fresh read. *)
Definition cache_page (p : JobPosting) (k : page_counts) (s : site) : site * page_counts :=
  if negb (String.eqb (jp_description p) "")
  then ((keep_page (jp_url p) "listing text" (jp_description p) s).1, mkCounts (S (n_cached k)) (n_failed k) (n_gone k))
  else
    let '(s, r) := refresh_page (jp_url p) "ingest" s in
    (s, match r with
        | Some (_, Some _) => mkCounts (n_cached k) (n_failed k) (S (n_gone k))
        | Some (Some page, None) =>
            if String.eqb (pg_text page) "" then mkCounts (n_cached k) (S (n_failed k)) (n_gone k)
            else mkCounts (S (n_cached k)) (n_failed k) (n_gone k)
        | _ => mkCounts (n_cached k) (S (n_failed k)) (n_gone k)
        end).

(** Progress is written at each fifth page that was read. *)
Definition progress_due (p : JobPosting) (before after : page_counts) : bool :=
  String.eqb (jp_description p) "" && negb (n_cached after =? n_cached before)%nat &&
  (n_cached after mod 5 =? 0)%nat.

Section cache.
Context (cur : option TaskClaim) (tid : Z) (name : string) (cancelled_at : nat → bool).
Context (have parked : gset string) (total : nat).

(** [cancelled_at i]: whether the [i]-th look finds the task cancelled. *)
Fixpoint cache_from (i : nat) (l : list JobPosting) (k : page_counts) (s : site) : site * option page_counts :=
  match l with
  | [] => (s, Some k)
  | p :: l =>
      if (i mod 10 =? 0)%nat && cancelled_at i then (s, None)
      else if negb (page_wanted have parked p) then cache_from (S i) l k s
      else
        let '(s, k') := cache_page p k s in
        let s := if progress_due p k k'
                 then on_world (set_progress cur now tid (Z.of_nat (S i)) (Z.of_nat total) name ∅ (is_world s)) s
                 else s in
        cache_from (S i) l k' s
  end.
End cache.

Definition count_json (n : nat) : json := JInt (Z.of_nat n).

Definition counts_json (have parked : gset string) (k : page_counts) : jobject :=
  {[ "already_cached" := count_json (size have); "skipped_recent_failure" := count_json (size parked);
     "cached" := count_json (n_cached k); "fetch_failed" := count_json (n_failed k); "gone" := count_json (n_gone k) ]}.

Definition _cache_pages (cur : option TaskClaim) (tid : Z) (name : string) (cancelled_at : nat → bool)
    (candidates : list JobPosting) (s : site) : site * option jobject :=
  let have := content_ready (urls_of candidates) (is_log s) in
  let parked := fetch_parked_urls (ic_fetch_rules (is_conf s)) now
                  (List.filter (λ u, negb (bool_decide (u ∈ have))) (urls_of candidates)) (is_log s) in
  let '(s, k) := cache_from cur tid name cancelled_at have parked (length candidates) 0 candidates
                   (mkCounts 0 0 0) s in
  (s, counts_json have parked <$> k).

(** ** The filter runs of a cycle *)

Definition sources_held (user : Z) (s : site) : gset string :=
  let sel := pp_selections (is_people s) in
  user_source_set (mkSelections (user_sources sel) (user_source_groups sel) (source_groups sel)
                     (managed_board_sources sel) (c_sources (is_catalog s))) user.

Definition entitled_to_run (s : site) (user : Z) (groups : list string) : bool :=
  let p := is_people s in
  negb (bool_decide (sources_held user s = ∅)) &&
  existsb (λ f, (uf_user_id f =? user) && uf_enabled f) (pp_filters p) &&
  (bool_decide (user ∈ pp_own_key p) || existsb (λ g, mem (gb_group g) groups) (pp_budgets p)).

Definition run_key (user : Z) (cycle : string) : string := ("runall:" ++ pretty.pretty user ++ ":" ++ cycle)%string.

Definition schedule_filter_runs (cycle : string) (s : site) : site :=
  if ai_paused (is_conf s) then s
  else
    let users := List.filter (λ ug : Z * list string, entitled_to_run s ug.1 ug.2) (map_to_list (pp_users (is_people s))) in
    on_world (foldl (λ w ug, (enqueue_run now ug.1 None scheduled_policy (Some (run_key ug.1 cycle)) w).1)
                (is_world s) users) s.

(** ** The handler *)

Definition kind_text (k : kind) : string :=
  match k with
  | Appeared => "appeared"
  | Reappeared => "reappeared"
  | FilteredOut => "filtered"
  | Unlisted => "unlisted"
  | NotListed => "not_listed"
  end.

Definition observed_json (rows : list (string * (Z * kind))) : json :=
  JObj (omap (λ k, let n := kind_count k rows in
                   if (n =? 0)%nat then None else Some (kind_text k, count_json n))
          [Appeared; Reappeared; FilteredOut; Unlisted; NotListed]).

(** What a pull that did not list a posting says of it: only a whole pull says anything. *)
Definition absence_of (listed : list JobPosting) (complete authoritative : bool) : option kind :=
  match listed with
  | [] => None
  | _ => if complete then Some (if authoritative then Unlisted else NotListed) else None
  end.

Definition worth_reading (p : JobPosting) : bool :=
  jp_active p && negb (String.eqb (jp_url p) "") && (FALLBACK_CUTOFF_TS <=? jp_date_posted p).

(** What a pull that came back writes, but for its pages. *)
Definition take_in (name : string) (src : source) (authoritative complete : bool) (listed matched : list JobPosting)
    (tid : Z) (s : site) : site * nat * list (string * (Z * kind)) :=
  let admitted := if PATTERNS_ENFORCED (is_catalog s) then matched else listed in
  let '(s, inline) := keep_listings name (default "" (s_title_pattern src)) (urls_of matched) listed s in
  let s := on_catalog (upsert_postings now admitted name (is_catalog s)).1 s in
  let '(c, rows) := observe name (Some tid) listed (urls_of matched) (absence_of listed complete authoritative)
                      (is_catalog s) in
  (on_catalog c s, inline, rows).

Definition cycle_of (payload : jobject) : string := default "manual" (obj_text payload "cycle").

(** The rest of the task, once its pull came back. *)
Definition pulled_back (cur : option TaskClaim) (cancelled_at : nat → bool) (tid : Z) (payload : jobject)
    (name : string) (src : source) (host : string) (format : BoardFormat) (listed : list JobPosting)
    (complete : bool) (s : site) : site * Execution.outcome :=
  let s := on_budgets (succeeded (ingest_host_pace_seconds (is_conf s)) (host, egress) (is_budgets s)) s in
  match pattern_matched (s_title_pattern src) listed with
  | None => (s, Raised (mkExn OtherError "bad title pattern"))
  | Some matched =>
      let enforced := PATTERNS_ENFORCED (is_catalog s) in
      let admitted := if enforced then matched else listed in
      let '(s, inline, rows) := take_in name src (bf_authoritative format) complete listed matched tid s in
      let candidates := List.filter worth_reading admitted in
      let '(s, counts) := _cache_pages cur tid name cancelled_at candidates s in
      match counts with
      | None => (s, Returned)
      | Some counts =>
          let n := Z.of_nat (length candidates) in
          let extra :=
            counts ∪
            {[ "fetched" := count_json (length listed); "kept" := count_json (length matched);
               "admitted" := count_json (length admitted); "pattern_enforced" := JBool enforced;
               "retired" := count_json (kind_count Unlisted rows); "complete" := JBool complete;
               "observed" := observed_json rows; "listings_inline" := count_json inline ]} in
          let s := on_world (set_progress cur now tid n n name extra (is_world s)) s in
          (schedule_filter_runs (cycle_of payload) s, Returned)
      end
  end.

Definition handle_ingest_source (cur : option TaskClaim) (cancelled_at : nat → bool) (tid : Z) (payload : jobject)
    (s : site) : site * Execution.outcome :=
  let name := default "" (obj_text payload "source") in
  match c_sources (is_catalog s) !! name with
  | Some src =>
      if negb (s_active src) then (s, Raised (mkExn OtherError INACTIVE_SOURCE_ERROR))
      else
        match pace_key (s_listings_url src), format_for_url (s_listings_url src) with
        | Some host, Some format =>
            let '(b, opens) := take (ingest_host_pace_seconds (is_conf s)) now (host, egress) (is_budgets s) in
            let s := on_budgets b s in
            match opens with
            | Some t => (s, RaisedDeferred t)
            | None =>
                let '(s, got) := _pull name src host s in
                match got with
                | Err o => (s, o)
                | Ok (listed, complete) =>
                    pulled_back cur cancelled_at tid payload name src host format listed complete s
                end
            end
        | _, _ => (s, Raised (mkExn OtherError "ValueError"))
        end
  | None => (s, Raised (mkExn OtherError INACTIVE_SOURCE_ERROR))
  end.

(** [handle_retire_switched_off]; [held] are the rows others hold as each chunk locks. *)
Definition handle_retire_switched_off (cur : option TaskClaim) (held : list Z) (tid : Z) (s : site) : site :=
  let '(c, n) := reconcile_available held (is_catalog s) in
  let s := on_catalog c s in
  let k := Z.of_nat n in
  on_world (set_progress cur now tid k k ("stored availability changed on " ++ pretty.pretty n ++ " postings")%string
              {[ "available_reconciled" := JInt k ]} (is_world s)) s.
End ingest.
