(* ===== verification/AtsProps.v ===== *)
(** * Properties of the applicant-tracking systems

    The expressions' groups are pieces of the text they match, and a posting is said to be
    gone only on evidence its own system gave of that posting. *)

From Stdlib Require Import Ascii.
From S2P Require Import Prelude PyStr Sql Json Tasks Spec Datasheets Pricing Batches Collect Hosts Catalog Verdicts Urls Fetches FilterRuns Ssrf Ats Ingest.

Local Open Scope string_scope.
Local Open Scope list_scope.
Local Open Scope Z_scope.

(** ** What a match captures *)

#[local] Infix "·" := PSeq (at level 40, left associativity).

(** The match takes at least a character. *)
Fixpoint consuming (a : pat) : bool :=
  match a with
  | PText s => negb (String.eqb s "")
  | PChar _ => true
  | PGroup a => consuming a
  | PSeq a b => consuming a || consuming b
  | PAlt a b => consuming a && consuming b
  | _ => false
  end.

(** Every group takes at least a character. *)
Fixpoint solid (a : pat) : bool :=
  match a with
  | PGroup a => consuming a && solid a
  | PSeq a b | PAlt a b => solid a && solid b
  | POpt a | PLoop a => solid a
  | _ => true
  end.

Definition piece (l : list ascii) (g : option (list ascii)) : Prop :=
  match g with
  | None => True
  | Some x => x ≠ [] ∧ ∃ before after, l = before ++ x ++ after
  end.

(** A continuation was called on what is left, with the pieces found so far. *)
Definition reaches (l0 l : list ascii) (strict : bool) (k : matching) (r : captures) : Prop :=
  ∃ l' cs, l' `suffix_of` l ∧ (strict = true → (length l' < length l)%nat) ∧ Forall (piece l0) cs ∧ k l' cs = Some r.

Lemma reaches_weaken l0 l b k r : reaches l0 l b k r → reaches l0 l false k r.
Proof. intros (l' & cs & H1 & _ & H3 & H4). by exists l', cs. Qed.

Lemma reaches_here l0 l k cs r : Forall (piece l0) cs → k l cs = Some r → reaches l0 l false k r.
Proof. intros H1 H2. by exists l, cs. Qed.

(** Reached behind a longer text. *)
Lemma reaches_behind l0 l1 l b k r :
  l1 `suffix_of` l → reaches l0 l1 b k r → reaches l0 l (b || bool_decide (length l1 < length l)%nat) k r.
Proof.
  intros Hs (l' & cs & H1 & H2 & H3 & H4). exists l', cs. split_and!; [by etrans| |done|done].
  apply suffix_length in H1 as Hl1. apply suffix_length in Hs as Hl.
  intros [Hb|Hb]%orb_true_iff; [apply H2 in Hb|apply bool_decide_eq_true in Hb]; lia.
Qed.

Lemma many_reaches l0 p k l cs r :
  Forall (piece l0) cs → many p k l cs = Some r → reaches l0 l false k r.
Proof.
  intros Hcs. induction l as [|c l IH]; simpl; [by apply reaches_here|]. intros H.
  destruct (p c); [|by eapply reaches_here].
  destruct (many p k l cs) as [r'|]; [|by eapply reaches_here].
  eapply reaches_weaken, reaches_behind; [|apply IH, H]. by exists [c].
Qed.

Lemma few_reaches l0 p k l cs r :
  Forall (piece l0) cs → few p k l cs = Some r → reaches l0 l false k r.
Proof.
  intros Hcs. induction l as [|c l IH]; simpl; intros H; destruct (k _ cs) as [r'|] eqn:Hk;
    try (eapply reaches_here; [done|congruence]).
  destruct (p c); [|done]. eapply reaches_weaken, reaches_behind; [|apply IH, H]. by exists [c].
Qed.

Lemma pieces_unmatched l0 a cs : Forall (piece l0) cs → Forall (piece l0) (cs ++ unmatched a).
Proof.
  intros H. apply Forall_app. split; [done|]. unfold unmatched. by induction (groups a); constructor.
Qed.

(** What a pattern runs, its continuation takes up. *)
Definition sound (a : pat) : Prop :=
  ∀ l0 k l cs r, l `suffix_of` l0 → Forall (piece l0) cs → run a k l cs = Some r →
    reaches l0 l (consuming a) k r.

Lemma loop_reaches l0 a fuel k l cs r :
  sound a → l `suffix_of` l0 → Forall (piece l0) cs → loop fuel (run a) k l cs = Some r →
  reaches l0 l false k r.
Proof.
  intros Ha. revert l cs. induction fuel as [|fuel IH]; intros l cs Hl Hcs; simpl; [by apply reaches_here|].
  destruct (run a _ l cs) as [r'|] eqn:E; [|by apply reaches_here]. intros [= ->].
  destruct (Ha l0 _ l cs r Hl Hcs E) as (l1 & cs1 & H1 & _ & H3 & H4).
  destruct (Nat.ltb _ _) eqn:Hlt; [|done].
  eapply reaches_weaken, reaches_behind; [exact H1|]. apply (IH l1 cs1); [by etrans|done|done].
Qed.

Lemma group_reaches l0 a k l cs r :
  sound a → consuming a = true → l `suffix_of` l0 → Forall (piece l0) cs →
  run (PGroup a) k l cs = Some r → reaches l0 l true k r.
Proof.
  intros Ha Hc Hl Hcs H. simpl in H. destruct (Ha l0 _ l cs r Hl Hcs H) as (l1 & cs1 & [p Hp] & H2 & H3 & H4).
  rewrite Hc in H2. eexists l1, _. split_and!; [by exists p|done| |exact H4].
  apply Forall_app. split; [done|]. apply Forall_singleton. destruct Hl as [q Hq].
  assert (list.take (length l - length l1) l = p) as -> by (rewrite Hp, length_app, Nat.add_sub; apply take_app_length).
  split; [|exists q, l1; by rewrite Hq, Hp]. intros ->. rewrite Hp in H2. specialize (H2 eq_refl). simpl in H2. lia.
Qed.

Lemma run_sound a : solid a = true → sound a.
Proof.
  induction a as [s|p|p|p|a IH|a IHa b IHb|a IHa b IHb|a IH|a IH|]; intros Hs l0 k l cs r Hl Hcs H; simpl in Hs.
  - simpl in H. destruct (starts_with _ _) eqn:E; [|done]. apply starts_with_spec in E as [l' ->].
    exists (drop (String.length s) (chars s ++ l')), cs.
    assert (drop (String.length s) (chars s ++ l') = l') as El.
    { assert (String.length s = length (chars s)) as ->
        by (clear; induction s as [|c s IH]; [done|simpl; f_equal; exact IH]). apply drop_app_length. }
    rewrite El in *. split_and!; [by exists (chars s)| |done|done]. intros Hc. destruct s; [done|].
    unfold chars. rewrite length_app. simpl. lia.
  - simpl in H. destruct l as [|c l]; [done|]. destruct (p c); [|done]. exists l, cs. split_and!; [by exists [c]| |done|done].
    simpl. lia.
  - by eapply many_reaches.
  - by eapply few_reaches.
  - apply andb_true_iff in Hs as [Hc Hs]. simpl. rewrite Hc. eapply group_reaches; [by apply IH|done..].
  - apply andb_true_iff in Hs as [Hsa Hsb]. simpl in H.
    destruct (IHa Hsa l0 _ l cs r Hl Hcs H) as (l1 & cs1 & H1 & H2 & H3 & H4).
    destruct (IHb Hsb l0 k l1 cs1 r ltac:(by etrans) H3 H4) as (l2 & cs2 & G1 & G2 & G3 & G4).
    exists l2, cs2. split_and!; [by etrans| |done|done]. simpl.
    apply suffix_length in H1 as L1. apply suffix_length in G1 as L2.
    intros [E|E]%orb_true_iff; [apply H2 in E|apply G2 in E]; lia.
  - apply andb_true_iff in Hs as [Hsa Hsb]. simpl in H. simpl.
    destruct (run a _ l cs) as [r'|] eqn:E.
    + injection H as ->. destruct (IHa Hsa l0 _ l cs r Hl Hcs E) as (l1 & cs1 & H1 & H2 & H3 & H4).
      exists l1, (cs1 ++ unmatched b). split_and!; [done| |by apply pieces_unmatched|done].
      intros [Hc _]%andb_true_iff. auto.
    + destruct (IHb Hsb l0 k l (cs ++ unmatched a) r Hl (pieces_unmatched _ _ _ Hcs) H) as (l1 & cs1 & H1 & H2 & H3 & H4).
      exists l1, cs1. split_and!; [done| |done|done]. intros [_ Hc]%andb_true_iff. auto.
  - simpl in H. simpl. destruct (run a k l cs) as [r'|] eqn:E.
    + injection H as ->. eapply reaches_weaken, IH; done.
    + eapply reaches_here; [by apply pieces_unmatched|done].
  - simpl in H. by eapply loop_reaches; [apply IH| | |].
  - simpl in H. simpl. destruct l as [|c [|? ?]]; [by eapply reaches_here| |]; repeat case_match; try done; by eapply reaches_here.
Qed.

(** The texts a search captures are pieces of what it searched. *)
Lemma texts_pieces l cs xs :
  Forall (piece l) cs → texts (Some cs) = Some xs →
  Forall (λ x, x ≠ "" ∧ ∃ before after, l = before ++ chars x ++ after) xs.
Proof.
  intros Hcs H. unfold texts in H. simpl in H. apply mapM_Some_1 in H. revert Hcs.
  induction H as [|g x cs xs Hg _ IH]; [constructor|]. intros [Hp Hcs]%Forall_cons. constructor; [|auto].
  destruct g as [t|]; [|done]. simpl in Hg. injection Hg as <-. destruct Hp as [Hne (p & q & ->)].
  split; [|exists p, q; by rewrite chars_of_chars]. intros E. apply Hne. by rewrite <- (chars_of_chars t), E.
Qed.

Lemma contains_piece x s :
  (∃ before after, chars s = before ++ chars x ++ after) → contains x s = true.
Proof. intros (p & q & E). unfold contains. apply contains_chars_spec. eauto. Qed.

Definition named (s : string) (x : string) : Prop := x ≠ "" ∧ contains x s = true.

Lemma match_pieces a l0 l r :
  solid a = true → l `suffix_of` l0 → match_at a l = Some r → Forall (piece l0) r.
Proof.
  intros Hs Hl Hr.
  destruct (run_sound a Hs l0 _ l [] r Hl ltac:(constructor) Hr) as (l1 & cs & _ & _ & Hcs & [= <-]). exact Hcs.
Qed.

Lemma search_pieces a s r : solid a = true → search a s = Some r → Forall (piece (chars s)) r.
Proof.
  intros Hs. unfold search. assert (chars s `suffix_of` chars s) as H by done. revert H.
  generalize (chars s) at 1 3. intros l. induction l as [|c l IH]; intros Hl E; cbn [search_chars] in E.
  all: destruct (match_at _ _) as [r'|] eqn:M; [injection E as <-; by eapply match_pieces|].
  - done.
  - apply IH; [|done]. etrans; [|exact Hl]. by exists [c].
Qed.

Lemma pieces_named s r xs : Forall (piece (chars s)) r → texts (Some r) = Some xs → Forall (named s) xs.
Proof.
  intros Hr Hx. eapply Forall_impl; [exact (texts_pieces _ _ _ Hr Hx)|].
  intros x [Hne Hp]. split; [done|]. by apply contains_piece.
Qed.

Lemma match_named a s xs : solid a = true → texts (match_at a (chars s)) = Some xs → Forall (named s) xs.
Proof.
  intros Hs H. destruct (match_at a (chars s)) as [r|] eqn:E; [|done].
  eapply pieces_named; [by eapply match_pieces|exact H].
Qed.

Lemma search_named a s xs : solid a = true → texts (search a s) = Some xs → Forall (named s) xs.
Proof.
  intros Hs H. destruct (search a s) as [r|] eqn:E; [|done]. eapply pieces_named; [by eapply search_pieces|exact H].
Qed.

Lemma contains_app x a b : contains x b = true → contains x (a ++ b)%string = true.
Proof.
  unfold contains. rewrite !contains_chars_spec. intros (p & q & E).
  exists (chars a ++ p), q. by rewrite chars_append, E, <- app_assoc.
Qed.
Lemma contains_here x b : contains x (x ++ b)%string = true.
Proof.
  unfold contains. rewrite contains_chars_spec. exists [], (chars b).
  by rewrite chars_append.
Qed.
Lemma contains_self x : contains x x = true.
Proof. unfold contains. rewrite contains_chars_spec. exists [], []. by rewrite app_nil_r. Qed.

(** ** What counts as saying that a posting is gone *)

Definition target_of (q : http_request) : string :=
  match q with
  | Get u _ | GetNoRedirect u | GetHtml u | Post u _ => u
  end.

(** A part of the posting's URL, or of the path it parses to. *)
Definition part_of (url x : string) : Prop :=
  x ≠ "" ∧ (contains x url = true ∨ ∃ u, urlparse url = Some u ∧ contains x (pu_path u) = true).

(** The systems whose 404 and 410 are about the posting asked for. *)
Definition answers_by_status : list string :=
  ["greenhouse"; "lever"; "ashby"; "smartrecruiters"; "workday"; "oracle"; "workable"; "icims"; "apple";
   "eightfold"].

(** The body of an answer says the posting is closed. *)
Definition says_closed (name job : string) (data : json) : Prop :=
  name = "smartrecruiters" ∧ (get "active" data = Some (JBool false) ∨ get "visibility" data = Some (JStr "INTERNAL")) ∨
  name = "oracle" ∧ (∃ items, get "items" data = Some items ∧ py_or items (JArr []) = JArr []) ∨
  name = "adp" ∧ (∃ item, get "itemID" data = Some item ∧ truthy item = false) ∨
  name = "ashby" ∧ (∃ jobs l, get_default "jobs" (JArr []) data = Some jobs ∧ py_iter jobs = Ok l ∧
                      Forall (λ j, ashby_names job j = Some false) l).

Inductive gone_evidence (name url : string) (q : http_request) (a : response) : Prop :=
| ev_status job :
    name ∈ answers_by_status → part_of url job →
    (contains job (target_of q) = true ∨ name = "ashby") →
    rs_status a = 404 ∨ rs_status a = 410 → gone_evidence name url q a
| ev_body job data :
    part_of url job → (contains job (target_of q) = true ∨ name = "ashby") →
    rs_json a = Some data → says_closed name job data → gone_evidence name url q a
| ev_rippling job data :
    name = "rippling" → part_of url job → contains job (target_of q) = true →
    rs_status a = 404 → rs_json a = Some data → get "ok" data = Some (JBool false) → gone_evidence name url q a
| ev_ibm job u :
    name = "ibm" → part_of url job → contains job (target_of q) = true →
    rs_status a = 301 ∨ rs_status a = 302 → urlparse (rs_location a) = Some u →
    ends_with "/careers/Error" (pu_path u) = true → gone_evidence name url q a
| ev_ukg before rest data closed more :
    name = "ukg" → ukg_canonical url = Some (target_of q) → rs_status a = 200 →
    before_text UKG_DETAIL (chars (rs_text a)) = Some (before, rest) → read (S (length rest)) rest = Some (data, more) →
    get "OpportunityIsClosed" data = Some closed → truthy closed = true → gone_evidence name url q a.

(** ** Readings that cannot say so *)

#[local] Arguments result_of : simpl never.
#[local] Arguments dated : simpl never.

Definition never_gone (o : option AtsResult) : Prop := ∀ r, o = Some r → ar_status r ≠ GONE.

Lemma never_gone_bind {A} (o : option A) f : (∀ x, o = Some x → never_gone (f x)) → never_gone (o ≫= f).
Proof. intros H r. destruct o as [x|]; [|done]. by apply H. Qed.

(** A result that is read first and returned with more. *)
Lemma never_gone_then (o : option AtsResult) f :
  never_gone o → (∀ x, never_gone (Some x) → never_gone (f x)) → never_gone (o ≫= f).
Proof. intros Ho H r. destruct o as [x|]; [|done]. by apply H. Qed.

Lemma never_gone_failed name : never_gone (Some (failed name)).
Proof. by intros ? [= <-]. Qed.
Lemma never_gone_unsupported : never_gone (Some UNSUPPORTED).
Proof. by intros ? [= <-]. Qed.
Lemma result_of_status name t : ar_status (result_of name t) ≠ GONE.
Proof. by destruct t as [[|]|]. Qed.
Lemma never_gone_result name t : never_gone (Some (result_of name t)).
Proof. intros ? [= <-]. apply result_of_status. Qed.
Lemma never_gone_posted d r : never_gone (Some r) → never_gone (Some (with_posted d r)).
Proof. intros H ? [= <-]. exact (H r eq_refl). Qed.
Lemma never_gone_dated name t d : never_gone (dated name t d).
Proof. apply never_gone_bind. intros x _. apply never_gone_posted, never_gone_result. Qed.
Lemma never_gone_none : never_gone None.
Proof. done. Qed.

#[local] Hint Resolve never_gone_failed never_gone_unsupported never_gone_result never_gone_posted
  never_gone_dated never_gone_none : gone.

(** Runs through a reading whose every end is one of these. *)
Ltac never :=
  repeat first
    [ solve [eauto with gone]
    | apply never_gone_then; [|intros ? ?]
    | apply never_gone_bind; intros ? ?
    | match goal with |- never_gone (if ?b then _ else _) => destruct b end
    | match goal with |- never_gone (match ?x with _ => _ end) => destruct x end ].

(** The id is in the address asked. *)
Ltac names := repeat first [apply contains_here | apply contains_self | apply contains_app].

Lemma named_part url x : named url x → part_of url x.
Proof. intros [? ?]. split; auto. Qed.

Lemma path_part url u x : urlparse url = Some u → named (pu_path u) x → part_of url x.
Proof. intros Hu [? ?]. split; eauto. Qed.

Lemma without_locale_part path x : named (without_locale path) x → named path x.
Proof.
  intros [Hne Hc]. split; [done|]. revert Hc. unfold without_locale.
  destruct (chars path) as [|c0 [|a [|b [|c1 [|c [|d [|c2 l]]]]]]] eqn:E; try done; repeat (case_match; try done).
  all: unfold contains; rewrite chars_of_chars, E, !contains_chars_spec; intros (p & q & Hpq).
  all: eexists (_ :: _ :: _ :: _ :: _ :: _ :: p), q; simpl; by rewrite <- Hpq.
Qed.

Section resolvers.
Context (clean html_unescape : string → string) (http : nat → http_request → option response).

Definition evidence (name url : string) (res : AtsResult) : Prop :=
  ar_status res = GONE → ∃ n q a, http n q = Some a ∧ gone_evidence name url q a.

(** A status that answers, or a body to read. *)
Lemma body_of_evidence name url n q job rd res :
  name ∈ answers_by_status → part_of url job → (contains job (target_of q) = true ∨ name = "ashby") →
  (∀ data res, rd data = Some res → ar_status res = GONE → says_closed name job data) →
  body_of name (http n q) rd = Some res → evidence name url res.
Proof.
  intros Hn Hp Hc Hrd H Hg. unfold body_of in H. destruct (http n q) as [a|] eqn:Ha.
  - exists n, q, a. split; [done|]. simpl in H. destruct (_ || _) eqn:E.
    + apply orb_true_iff in E as [E|E]; apply Z.eqb_eq in E; eapply ev_status; eauto.
    + destruct (negb _); [by injection H as <-|]. simpl in H. destruct (rs_json a) as [data|] eqn:Hd; [|done].
      simpl in H. eapply ev_body; eauto.
  - simpl in H. by injection H as <-.
Qed.

Lemma never_evidence name url o res : never_gone o → o = Some res → evidence name url res.
Proof. intros H E Hg. by apply H in E. Qed.

Lemma never_closed name job rd :
  (∀ data, never_gone (rd data)) →
  ∀ data res, rd data = Some res → ar_status res = GONE → says_closed name job data.
Proof. intros H data res E Hg. by apply H in E. Qed.

(** ** The systems, one by one *)

Lemma greenhouse_guess_never n job l : never_gone (greenhouse_try clean http n None job l).
Proof.
  revert n. induction l as [|c l IH]; intros n; cbn [greenhouse_try]; [apply never_gone_failed|].
  destruct (from_response _ _); [|never]. rewrite bool_decide_eq_false_2 by done. apply IH.
Qed.

Lemma greenhouse_try_evidence n board job l url res :
  part_of url job → greenhouse_try clean http n board job l = Some res → evidence "greenhouse" url res.
Proof.
  intros Hp. revert n. induction l as [|c l IH]; intros n; simpl.
  { intros [= <-]. done. }
  set (q := Get _ _). destruct (http n q) as [a|] eqn:Ha; simpl.
  - destruct (_ || _) eqn:E; [|destruct (negb _)].
    + case_bool_decide; [|apply IH]. intros [= <-] _. exists n, q, a. split; [done|].
      apply orb_true_iff in E as [E|E]; apply Z.eqb_eq in E; eapply (ev_status _ _ _ _ job); eauto;
        try (by vm_compute; repeat constructor); left; unfold q; simpl; names.
    + case_bool_decide; [by intros [= <-]|apply IH].
    + intros H. eapply never_evidence; [|exact H]. never.
  - case_bool_decide; [by intros [= <-]|apply IH].
Qed.

Lemma greenhouse_evidence url res : greenhouse_fetch clean http url = Some res → evidence "greenhouse" url res.
Proof.
  unfold greenhouse_fetch. destruct (urlparse url) as [u|]; [|done]. cbn [mbind option_bind].
  destruct (texts (search GREENHOUSE_JOB url)) as [[|board [|job []]]|] eqn:E.
  all: try (destruct (first_of _ _) as [g|]; [|by intros [= <-]]; intros H;
            eapply never_evidence; [|exact H]; apply greenhouse_guess_never).
  apply search_named in E; [|done]. apply Forall_cons in E as [_ [Hj _]%Forall_cons].
  apply greenhouse_try_evidence. by apply named_part.
Qed.

Ltac listed_status := by vm_compute; repeat constructor.

Lemma lever_evidence url res : lever_fetch clean http url = Some res → evidence "lever" url res.
Proof.
  unfold lever_fetch. destruct (texts _) as [[|board [|job []]]|] eqn:E; try (by intros [= <-]).
  apply search_named in E; [|done]. apply Forall_cons in E as [_ [Hj _]%Forall_cons].
  apply (body_of_evidence _ _ _ _ job); [listed_status|by apply named_part|left; simpl; names|].
  apply never_closed. intros. never.
Qed.

Lemma ashby_find_gone job l res :
  ashby_find clean job l = Some res → ar_status res = GONE → Forall (λ j, ashby_names job j = Some false) l.
Proof.
  induction l as [|j l IH]; cbn [ashby_find]; [constructor|].
  destruct (ashby_names job j) as [[]|] eqn:E; cbn [mbind option_bind]; [|by constructor; auto|done].
  intros H Hg. exfalso. revert Hg. assert (never_gone (Some res)) as Hn; [|by apply Hn].
  rewrite <- H. never.
Qed.

Lemma ashby_evidence url res : ashby_fetch clean http url = Some res → evidence "ashby" url res.
Proof.
  unfold ashby_fetch. destruct (texts _) as [[|org [|job []]]|] eqn:E; try (by intros [= <-]).
  apply search_named in E; [|done]. apply Forall_cons in E as [_ [Hj _]%Forall_cons].
  apply (body_of_evidence _ _ _ _ job); [listed_status|by apply named_part|by right|].
  intros data r H Hg. right; right; right. split; [done|].
  destruct (get_default "jobs" (JArr []) data) as [jobs|]; [|done]. cbn [mbind option_bind] in H.
  destruct (py_iter jobs) as [l|] eqn:El; [|done]. cbn [mbind option_bind] in H.
  exists jobs, l. split_and!; [done|done|]. by eapply ashby_find_gone.
Qed.

Lemma smartrecruiters_evidence url res :
  smartrecruiters_fetch clean http url = Some res → evidence "smartrecruiters" url res.
Proof.
  unfold smartrecruiters_fetch. destruct (texts _) as [[|board [|job []]]|] eqn:E; try (by intros [= <-]).
  apply search_named in E; [|done]. apply Forall_cons in E as [_ [Hj _]%Forall_cons].
  apply (body_of_evidence _ _ _ _ job); [listed_status|by apply named_part|left; simpl; names|].
  intros data r H Hg. left. split; [done|]. unfold smartrecruiters_read in H.
  destruct (get "active" data) as [active|]; [|done]. destruct (get "visibility" data) as [vis|]; [|done].
  cbn [mbind option_bind] in H. destruct (_ || _) eqn:Ec.
  - apply orb_true_iff in Ec as [Ec|Ec]; apply bool_decide_eq_true in Ec as ->; auto.
  - exfalso. revert Hg. assert (never_gone (Some r)) as Hn; [|by apply Hn]. rewrite <- H. never.
Qed.

Lemma workday_evidence url res : workday_fetch clean http url = Some res → evidence "workday" url res.
Proof.
  unfold workday_fetch. destruct (urlparse url) as [u|] eqn:Hu; [|done]. cbn [mbind option_bind].
  destruct (texts _) as [[|site [|job []]]|] eqn:E; try (by intros [= <-]).
  apply match_named in E; [|done]. apply Forall_cons in E as [_ [Hj _]%Forall_cons].
  apply (body_of_evidence _ _ _ _ job); [listed_status| |left; simpl; names|].
  - eapply path_part; [done|]. by apply without_locale_part.
  - apply never_closed. intros. unfold workday_read. never.
Qed.

Lemma oracle_evidence url res : oracle_fetch clean http url = Some res → evidence "oracle" url res.
Proof.
  unfold oracle_fetch. destruct (urlparse url) as [u|] eqn:Hu; [|done]. cbn [mbind option_bind].
  destruct (texts _) as [[|site [|job []]]|] eqn:E; try (by intros [= <-]).
  apply search_named in E; [|done]. apply Forall_cons in E as [_ [Hj _]%Forall_cons].
  apply (body_of_evidence _ _ _ _ job); [listed_status|by eapply path_part|left; simpl; names|].
  intros data r H Hg. right; left. split; [done|]. unfold oracle_read in H.
  destruct (get "items" data) as [items|]; [|done]. cbn [mbind option_bind] in H. exists items. split; [done|].
  destruct (py_or items (JArr [])) as [| | | |[|item l]|]; try done. exfalso. revert Hg.
  assert (never_gone (Some r)) as Hn; [|by apply Hn]. rewrite <- H. never.
Qed.

Lemma workable_evidence url res : workable_fetch clean http url = Some res → evidence "workable" url res.
Proof.
  unfold workable_fetch. destruct (texts _) as [[|board [|job []]]|] eqn:E; try (by intros [= <-]).
  apply search_named in E; [|done]. apply Forall_cons in E as [_ [Hj _]%Forall_cons].
  apply (body_of_evidence _ _ _ _ job); [listed_status|by apply named_part|left; simpl; names|].
  apply never_closed. intros. never.
Qed.

Lemma body_if_200_never name o rd : (∀ r, never_gone (rd r)) → never_gone (body_if_200 name o rd).
Proof. intros H. unfold body_if_200. destruct o as [r|]; [destruct (_ =? _)|]; auto with gone. Qed.

Lemma gem_evidence url res : gem_fetch clean http url = Some res → evidence "gem" url res.
Proof.
  apply never_evidence. unfold gem_fetch.
  destruct (texts _) as [[|board [|job []]]|]; try apply never_gone_unsupported. apply body_if_200_never. intros. never.
Qed.

Lemma goldman_evidence url res : goldman_fetch clean http url = Some res → evidence "goldman" url res.
Proof.
  apply never_evidence. unfold goldman_fetch.
  destruct (texts _) as [[|job []]|]; try apply never_gone_unsupported. apply body_if_200_never. intros.
  unfold goldman_read. never.
Qed.

Lemma brassring_evidence url res :
  brassring_fetch clean html_unescape http url = Some res → evidence "brassring" url res.
Proof.
  apply never_evidence. unfold brassring_fetch. destruct (brassring_canonical url); [|apply never_gone_unsupported].
  apply body_if_200_never. intros r. unfold brassring_read. never.
Qed.

Lemma rippling_evidence url res : rippling_fetch clean http url = Some res → evidence "rippling" url res.
Proof.
  unfold rippling_fetch. destruct (texts _) as [[|board [|job []]]|] eqn:E; try (by intros [= <-]).
  apply search_named in E; [|done]. apply Forall_cons in E as [_ [Hj _]%Forall_cons].
  set (q := Get _ _). destruct (http 0 q) as [a|] eqn:Ha; [|by intros [= <-]].
  destruct (Z.eqb_spec (rs_status a) 404) as [E4|].
  - unfold rippling_closed. destruct (rs_json a) as [data|] eqn:Hd; [|by intros [= <-]].
    destruct (get "ok" data) as [ok|] eqn:Hok; [|done]. cbn [mbind option_bind].
    case_bool_decide; [|by intros [= <-]]. subst ok. intros [= <-] _. exists 0%nat, q, a. split; [done|].
    eapply (ev_rippling _ _ _ _ job); eauto; [by apply named_part|]. unfold q. simpl. names.
  - intros H. eapply never_evidence; [|exact H]. never.
Qed.

Lemma icims_read_never page : never_gone (icims_read clean page).
Proof. unfold icims_read. destruct (ld_posting page) as [o|]; [|auto with gone]. never. Qed.

Lemma icims_evidence url res : icims_fetch clean http url = Some res → evidence "icims" url res.
Proof.
  unfold icims_fetch. destruct (urlparse url) as [u|] eqn:Hu; [|done]. cbn [mbind option_bind].
  destruct (ends_with _ _); [|by intros [= <-]].
  destruct (texts _) as [[|job []]|] eqn:E; try (by intros [= <-]).
  apply search_named in E; [|done]. apply Forall_cons in E as [Hj _]. set (q := Get _ _).
  destruct (from_response "icims" (http 0 q)) as [early|] eqn:Hf.
  - intros [= <-] Hg. unfold from_response in Hf. destruct (http 0 q) as [a|] eqn:Ha; [|by injection Hf as <-].
    exists 0%nat, q, a. split; [done|]. destruct (_ || _) eqn:Es; [|by destruct (negb _); [injection Hf as <-|]].
    eapply (ev_status _ _ _ _ job); [listed_status|by eapply path_part|left; unfold q; simpl; names|].
    by apply orb_true_iff in Es as [?%Z.eqb_eq|?%Z.eqb_eq]; auto.
  - intros H. eapply never_evidence; [|exact H]. apply never_gone_bind. intros a _. apply icims_read_never.
Qed.

(** The id of an Apple posting is never empty. *)
Lemma apple_id url job g : search APPLE_JOB url = Some [Some job; g] → named url (of_chars job).
Proof.
  intros [[Hne Hp] _]%(search_pieces APPLE_JOB)%Forall_cons; [|done]. split.
  - intros E. apply Hne. by rewrite <- (chars_of_chars job), E.
  - apply contains_piece. by rewrite chars_of_chars.
Qed.

Lemma apple_evidence url res : apple_fetch http url = Some res → evidence "apple" url res.
Proof.
  unfold apple_fetch. destruct (search APPLE_JOB url) as [[|[job|] [|g []]]|] eqn:E; try (by intros [= <-]).
  apply apple_id in E.
  apply (body_of_evidence _ _ _ _ (of_chars job)); [listed_status|by apply named_part|left; simpl; names|].
  apply never_closed. intros data. unfold apple_read. never.
Qed.

Lemma ibm_evidence url res : ibm_fetch http url = Some res → evidence "ibm" url res.
Proof.
  unfold ibm_fetch. destruct (texts _) as [[|job []]|] eqn:E; try (by intros [= <-]).
  apply search_named in E; [|done]. apply Forall_cons in E as [Hj _]. set (q := GetNoRedirect _).
  destruct (http 0 q) as [a|] eqn:Ha; [|by intros [= <-]].
  destruct (urlparse (rs_location a)) as [u|] eqn:Hu; [|done]. cbn [mbind option_bind].
  destruct (_ && _) eqn:Ec; [|by intros [= <-]]. apply andb_true_iff in Ec as [Es Ee].
  intros [= <-] _. exists 0%nat, q, a. split; [done|].
  eapply (ev_ibm _ _ _ _ job); eauto; [by apply named_part|unfold q; simpl; names|].
  unfold mem in Es. apply bool_decide_eq_true in Es. rewrite !elem_of_cons in Es.
  destruct Es as [?|[?|[]%elem_of_nil]]; auto.
Qed.

Lemma adp_get_asked k n q last r : adp_get http k n q last = Some r → last = Some r ∨ ∃ m, http m q = Some r.
Proof.
  revert n last. induction k as [|k IH]; intros n last; cbn [adp_get]; [auto|].
  destruct (http n q) as [a|] eqn:Ha; [|done]. destruct (_node_refused a).
  - intros [[= ->]|?]%IH; eauto.
  - intros [= ->]. eauto.
Qed.

Lemma adp_evidence url res : adp_fetch clean http url = Some res → evidence "adp" url res.
Proof.
  unfold adp_fetch. destruct (adp_parts url) as [[[h c] job]|] eqn:E; [|by intros [= <-]].
  assert (named url job) as Hj.
  { unfold adp_parts in E. apply bind_Some in E as (hs & _ & E). apply bind_Some in E as (cs & _ & E).
    apply bind_Some in E as (js & Ej & E).
    destruct hs as [|h' []], cs as [|c' []], js as [|j []]; try done. injection E as _ _ <-.
    apply search_named in Ej; [|done]. by apply Forall_cons in Ej as [? _]. }
  set (q := Get _ _). unfold body_if_200.
  destruct (adp_get _ _ _ _ _) as [a|] eqn:Ha; [|by intros [= <-]].
  apply adp_get_asked in Ha as [|[m Ha]]; [done|]. destruct (_ =? _); [|by intros [= <-]].
  destruct (rs_json a) as [data|] eqn:Hd; [|done]. cbn [mbind option_bind]. intros H Hg. exists m, q, a. split; [done|].
  eapply (ev_body _ _ _ _ job); eauto; [by apply named_part|left; unfold q; simpl; names|].
  right; right; left. split; [done|]. unfold adp_read in H. destruct (get "itemID" data) as [item|]; [|done].
  cbn [mbind option_bind] in H. exists item. split; [done|]. destruct (truthy item); [|done]. cbn [negb] in H.
  exfalso. revert Hg. assert (never_gone (Some res)) as Hn; [|by apply Hn]. rewrite <- H. never.
Qed.

Lemma ukg_evidence url res : ukg_fetch clean http url = Some res → evidence "ukg" url res.
Proof.
  unfold ukg_fetch. destruct (ukg_canonical url) as [page|] eqn:Hc; [|by intros [= <-]].
  unfold body_if_200. destruct (http 0 _) as [a|] eqn:Ha; [|by intros [= <-]].
  destruct (Z.eqb_spec (rs_status a) 200) as [E2|]; [|by intros [= <-]]. unfold ukg_read.
  destruct (before_text _ _) as [[before rest]|] eqn:Hb; [|by intros [= <-]].
  destruct (read _ rest) as [[data more]|] eqn:Hr; [|by intros [= <-]].
  intros (closed & Hg & H)%bind_Some. revert H.
  destruct (truthy closed) eqn:Ht; [|intros H; eapply never_evidence; [|exact H]; never].
  intros [= <-] _. do 3 eexists. split; [exact Ha|]. eapply ev_ukg; eauto.
Qed.

(** ** Whichever system a URL is of *)

Definition evident (r : resolver) : Prop :=
  ∀ url res, rv_fetch r url = Some res → evidence (rv_name r) url res.

Lemma resolvers_evident : Forall evident (RESOLVERS clean html_unescape http).
Proof.
  unfold RESOLVERS.
  apply Forall_cons; split; [exact greenhouse_evidence|].
  apply Forall_cons; split; [exact lever_evidence|].
  apply Forall_cons; split; [exact ashby_evidence|].
  apply Forall_cons; split; [exact smartrecruiters_evidence|].
  apply Forall_cons; split; [exact workday_evidence|].
  apply Forall_cons; split; [exact oracle_evidence|].
  apply Forall_cons; split; [exact workable_evidence|].
  apply Forall_cons; split; [exact gem_evidence|].
  apply Forall_cons; split; [exact rippling_evidence|].
  apply Forall_cons; split; [exact icims_evidence|].
  apply Forall_cons; split; [exact apple_evidence|].
  apply Forall_cons; split; [exact goldman_evidence|].
  apply Forall_cons; split; [exact ibm_evidence|].
  apply Forall_cons; split; [exact adp_evidence|].
  apply Forall_cons; split; [exact ukg_evidence|].
  apply Forall_cons; split; [exact brassring_evidence|].
  constructor.
Qed.

Lemma logged_evidence name url o : (∀ res, o = Some res → evidence name url res) → evidence name url (logged name o).
Proof. intros H. destruct o as [res|]; [by apply H|]. done. Qed.

Lemma matching_in l url r : matching_resolver l url = Some (Some r) → r ∈ l.
Proof.
  induction l as [|x l IH]; cbn [matching_resolver]; [done|]. intros (m & _ & H)%bind_Some.
  destruct m; [injection H as ->; constructor|]. constructor. by apply IH.
Qed.

(** The system a board's answer is read as. *)
Definition system_of (url : string) : string :=
  match matching_resolver (RESOLVERS clean html_unescape http) url with
  | Some (Some r) => rv_name r
  | _ => ""
  end.

Definition system_listed (listings_url : string) : string :=
  match urlparse listings_url with
  | Some u => if bool_decide (is_Some (match_at PHENOM_SEARCH (chars (pu_path u)))) then "phenom" else "eightfold"
  | None => ""
  end.

Definition system_asked (target : string * option string) : string :=
  match target with
  | (url, None) => system_of url
  | (url, Some listings) => if String.eqb listings "" then system_of url else system_listed listings
  end.

Lemma resolve_evidence url res :
  resolve clean html_unescape http url = Some res → evidence (system_of url) url res.
Proof.
  unfold resolve, system_of. intros (r & Hr & H)%bind_Some. injection H as <-. rewrite Hr. destruct r as [r|]; [|done].
  apply logged_evidence. apply matching_in in Hr.
  pose proof resolvers_evident as Hall. rewrite Forall_forall in Hall. by apply Hall.
Qed.

Lemma eightfold_evidence url listing res :
  eightfold_fetch_listed clean http url listing = Some (Some res) → evidence "eightfold" url res.
Proof.
  unfold eightfold_fetch_listed. intros (u & Hu & H)%bind_Some. apply bind_Some in H as (v & _ & H).
  destruct (texts _) as [[|job []]|] eqn:E in H; try done.
  apply match_named in E; [|done]. apply Forall_cons in E as [Hj _].
  destruct (_ || _) in H; [done|]. apply fmap_Some in H as (r & H & [= <-]). revert H.
  apply (body_of_evidence _ _ _ _ job); [listed_status|by eapply path_part| |].
  - left. destruct (String.eqb _ _); cbn [target_of]; names.
  - apply never_closed. intros data. unfold eightfold_read. never.
Qed.

Lemma phenom_never url listing : never_gone (default UNSUPPORTED <$> phenom_fetch_listed clean http url listing).
Proof.
  intros res (r & H & ->)%fmap_Some. unfold phenom_fetch_listed in H. apply bind_Some in H as (u & Hu & H).
  apply bind_Some in H as (v & _ & H). destruct r as [r|]; [|done].
  destruct (texts _) as [[|site [|job []]]|] in H; try done. destruct (texts _) as [[|listed []]|] in H; try done.
  destruct (_ || _) in H; [done|]. apply fmap_Some in H as (r' & H & [= <-]). revert H. generalize r.
  change (never_gone (body_if_200 "phenom"
    (http 0 (Post ("https://" ++ of_chars (pu_netloc v) ++ "/widgets")%string
       (JObj ([("ddoKey", JStr "jobDetail"); ("jobId", JStr (of_chars (unquote_chars (chars job))))] ++ phenom_locale site))))
    (λ r, j ← rs_json r; phenom_read clean j))).
  apply body_if_200_never. intros a. unfold phenom_read. never.
Qed.

Lemma resolve_listed_evidence url listing res :
  resolve_listed clean http url listing = Some res → evidence (system_listed listing) url res.
Proof.
  unfold resolve_listed, system_listed. intros (u & -> & [= <-])%bind_Some.
  destruct (match_at _ _); case_bool_decide as H; try (by destruct H); try (by destruct H; eauto); apply logged_evidence.
  - intros res. apply never_evidence, phenom_never.
  - intros res (r & Hr & ->)%fmap_Some. destruct r as [r|]; [by eapply eightfold_evidence|done].
Qed.

Lemma board_evidence target res :
  ask_board clean html_unescape http target = Some res → evidence (system_asked target) target.1 res.
Proof.
  destruct target as [url [listing|]]; cbn [ask_board system_asked fst]; [destruct (String.eqb _ _)|];
    eauto using resolve_evidence, resolve_listed_evidence.
Qed.
End resolvers.

Section closures.
Context {St : Type} (clean html_unescape : string → string) (http : nat → http_request → option response).
Context (dns : nat → string → option (list string)) (browse : nat → string → browsed)
  (static_get : nat → string → option static_response) (worker : string) (now : Z).

Lemma keep_page_answers url method text (s : ingest_site St) :
  is_answers (keep_page worker now url method text s).1 = is_answers s.
Proof. unfold keep_page. by destruct (Fetches.record _ _ _ _ _ _ _). Qed.

Lemma browse_answers url (s : ingest_site St) :
  is_answers (browse_page dns browse worker now url s).1 = is_answers s ∧
  (∀ r, (browse_page dns browse worker now url s).2 = Some r → r.2 = None).
Proof.
  unfold browse_page. destruct (fetch_page _ _ _ _) as [[[content ?] n]|]; [|done].
  destruct content as [[|c t]|]; [by split; [|intros ? [= <-]]| |by split; [|intros ? [= <-]]].
  pose proof (keep_page_answers url "scraped" (String c t) (on_lookups n s)) as H.
  destruct (keep_page _ _ _ _ _ _). by split; [|intros ? [= <-]].
Qed.

Lemma fetch_text_answers url vouched (s : ingest_site St) :
  is_answers (fetch_text dns browse static_get worker now url vouched s).1 = is_answers s ∧
  (∀ r, (fetch_text dns browse static_get worker now url vouched s).2 = Some r → r.2 = None).
Proof.
  unfold fetch_text. destruct (_ && _); [|apply browse_answers].
  destruct (static_text _ _ _ _) as [[text n]|]; [|done].
  destruct text as [[|c t]|]; [exact (browse_answers url (on_lookups n s))| |exact (browse_answers url (on_lookups n s))].
  pose proof (keep_page_answers url "static" (String c t) (on_lookups n s)) as H.
  destruct (keep_page _ _ _ _ _ _). by split; [|intros ? [= <-]].
Qed.

End closures.

(** A system's marker anywhere in a URL selects its resolver, and Workday's and Oracle's
    ask the URL's own host: an employer's page that mentions the marker in its query is
    read as gone when its host has no such path. *)
Definition marked_elsewhere : string := "https://careers.acme.com/en-us/team/job/123?ref=myworkdayjobs.com".

Lemma marker_elsewhere_reads_gone clean html_unescape :
  let absent : nat → http_request → option response := λ _ _, Some (mkHttp 404 "" None "") in
  ask_board clean html_unescape absent (marked_elsewhere, None) = Some (gone "workday") ∧
  let asked q := bool_decide (target_of q = "https://careers.acme.com/wday/cxs/careers/team/job/123") in
  ask_board clean html_unescape (λ n q, if asked q then absent n q else None) (marked_elsewhere, None) =
    Some (gone "workday").
Proof. split; by vm_compute. Qed.
