(* ===== verification/IngestProps.v ===== *)
(** * Properties of pulling a source

    What a pull that came back, a refused one and a failed one do to the catalog, to the
    source and to its failure run, and when a posting is said to be gone. *)

From Stdlib Require Import Ascii.
From S2P Require Import Prelude PyStr Sql Json Objects ObjectProps Tasks Lifecycle Queue Execution Spec Access Listings Hosts Catalog CatalogProps Availability Regex Selection Verdicts Visibility PyStd Urls Schedule Fetches FilterRuns Ssrf Ats Ingest.

Local Open Scope string_scope.
Local Open Scope list_scope.
Local Open Scope Z_scope.

(** ** Writes of text compose *)

Lemma text_write_refl c : text_write c c.
Proof.
  split; try done. intros i. destruct (c_jobs c !! i); [apply same_columns_refl|done].
Qed.

Lemma text_write_trans c c1 c2 : text_write c c1 → text_write c1 c2 → text_write c c2.
Proof.
  intros [J1 N1 U1 O1 S1 P1] [J2 N2 U2 O2 S2 P2]. split; try congruence.
  intros i. specialize (J1 i). specialize (J2 i).
  destruct (c_jobs c !! i), (c_jobs c1 !! i), (c_jobs c2 !! i); try done.
  destruct J1 as (?&?&?&?), J2 as (?&?&?&?). split_and!; congruence.
Qed.

#[local] Hint Resolve text_write_refl : core.

Lemma text_latest c c' i s : text_write c c' → latest_kind i s c' = latest_kind i s c.
Proof. intros [_ _ _ Ho _ _]. unfold latest_kind, latest_of, Catalog.latest. by rewrite Ho. Qed.

Lemma text_lookup c c' i j :
  text_write c c' → c_jobs c !! i = Some j → ∃ j', c_jobs c' !! i = Some j' ∧ same_columns j j'.
Proof.
  intros [Hj _ _ _ _ _] E. specialize (Hj i). rewrite E in Hj. destruct (c_jobs c' !! i); [eauto|done].
Qed.

(** ** The postings of a pull, row by row *)

Lemma posting_by_url_None l u : u ∉ urls_of l → posting_by_url l u = None.
Proof.
  intros H. unfold posting_by_url. destruct (String.eqb u ""); [done|].
  replace (List.filter _ l) with (@nil JobPosting); [done|]. symmetry.
  destruct (List.filter _ l) as [|p k] eqn:E; [done|]. exfalso. apply H.
  assert (In p (List.filter (λ p, String.eqb (jp_url p) u) l)) as Hp by (rewrite E; by left).
  apply filter_In in Hp as [Hin Hu]. apply String.eqb_eq in Hu as <-.
  apply list_elem_of_In, in_map, Hin.
Qed.

Lemma rows_for_unlisted source l u : u ∉ urls_of l → rows_for u (posting_rows source l) = [].
Proof.
  intros H. destruct (rows_for u _) as [|v k] eqn:E; [done|]. exfalso. apply H.
  assert (v ∈ rows_for u (posting_rows source l)) as Hv by (rewrite E; constructor).
  apply rows_for_elem in Hv as [Hv <-]. unfold posting_rows in Hv.
  rewrite merge_sort_Permutation in Hv. apply list_elem_of_fmap in Hv as (p & -> & Hp).
  apply list_elem_of_In, filter_In in Hp as [Hp _]. apply list_elem_of_In. exact (in_map jp_url l p Hp).
Qed.

(** A transaction's jobs are those of the plain upsert, and it writes no observation. *)
Lemma upserted_frame now l name c :
  catalog_ok c → name ≠ "upload" →
  let c' := (upsert_postings now l name c).1 in
  catalog_ok c' ∧ c_jobs c' = c_jobs (foldl (plain_upsert now) c (posting_rows name l)) ∧
  c_observations c' = c_observations c ∧ c_sources c' = c_sources c ∧ c_patterns c' = c_patterns c.
Proof.
  intros Hok Hn c'. unfold c', upsert_postings. cbn [fst].
  destruct (transactions_rows now (chunks _BATCH (posting_rows name l)) c Hok) as (m & E & Hok').
  rewrite E. rewrite E in Hok'. rewrite chunks_concat in * by (unfold _BATCH; lia).
  destruct (plain_upsert_frame now (posting_rows name l) c) as (_ & Ho & Hs & Hp). by split_and!.
Qed.

(** A posting the pull does not carry keeps its row. *)
Lemma upserted_unlisted now l name c i j :
  catalog_ok c → name ≠ "upload" → c_jobs c !! i = Some j → j_url j ∉ urls_of l →
  c_jobs (upsert_postings now l name c).1 !! i = Some j.
Proof.
  intros Hok Hn Hj Hu. destruct (upserted_frame now l name c Hok Hn) as (_ & -> & _).
  rewrite (pull_row _ _ _ _ _ Hok Hj), rows_for_unlisted by done. done.
Qed.

(** What is not spoken of by a pull that proves no absence stays as it was. *)
Lemma observed_unlisted name run_id l kept c i j :
  c_jobs c !! i = Some j → j_url j ∉ urls_of l →
  let c' := (observe name run_id l kept None c).1 in
  c_jobs c' !! i = Some j ∧ ∀ s, latest_kind i s c' = latest_kind i s c.
Proof.
  intros Hj Hu c'. unfold c'. rewrite observe_eq.
  assert (pull_says name l kept None c i j = None) as Hn by (unfold pull_says; by rewrite posting_by_url_None).
  split.
  - rewrite refreshed_lookup. change (c_jobs (CatalogProps.pulled _ _ _ _ _ _)) with (c_jobs c). rewrite Hj. simpl.
    destruct (mem i _) eqn:Hm; [|done]. apply observed_ids_elem in Hm as (j' & Hj' & k & Hk). congruence.
  - intros s. change (latest_kind i s (refreshed ?ids ?d)) with (latest_kind i s d).
    rewrite (latest_pulled _ _ _ _ _ _ _ j), Hn by done. by case_match.
Qed.

(** ** One row of the queue *)

Lemma ids_where_insert {R} (P : Z → R → bool) m i r r' :
  m !! i = Some r → P i r = P i r' → ids_where P (<[i := r']> m) = ids_where P m.
Proof.
  intros Hr HP. apply sorted_ids_unique; [apply ids_where_sorted..|apply NoDup_ids_where|apply NoDup_ids_where|].
  intros k. rewrite !elem_of_ids_where. destruct (decide (k = i)) as [->|Hne].
  - rewrite lookup_insert_eq, Hr. split; intros (x & [= <-] & ?); eexists; (split; [done|congruence]).
  - by rewrite lookup_insert_ne.
Qed.

Lemma ids_where_gains {R} (P : Z → R → bool) m i r r' :
  m !! i = Some r → P i r = false → P i r' = true →
  length (ids_where P (<[i := r']> m)) = S (length (ids_where P m)).
Proof.
  intros Hr H H'. change (S (length ?l)) with (length (i :: l)). apply Permutation_length, NoDup_Permutation.
  - apply NoDup_ids_where.
  - apply NoDup_cons. split; [|apply NoDup_ids_where]. intros (x & Hx & ?)%elem_of_ids_where. congruence.
  - intros k. rewrite elem_of_cons, !elem_of_ids_where. destruct (decide (k = i)) as [->|Hne].
    + rewrite lookup_insert_eq. naive_solver.
    + rewrite lookup_insert_ne by done. naive_solver.
Qed.

Lemma update_one {R} (P : Z → R → bool) f (m : gmap Z R) i r :
  m !! i = Some r → P i r = true → (∀ k x, k ≠ i → P k x = false) → update_where P f m = <[i := f r]> m.
Proof.
  intros Hr H Hne. apply map_eq. intros k. rewrite lookup_update_where. destruct (decide (k = i)) as [->|Hk].
  - rewrite lookup_insert_eq, Hr. simpl. by rewrite H.
  - rewrite lookup_insert_ne by done. destruct (m !! k) as [x|]; [|done]. simpl. by rewrite (Hne k x).
Qed.

(** A row that is no ended pull on either side of a write counts for nothing. *)
Lemma failures_kept name m i r r' :
  m !! i = Some r → t_status r ≠ Done → t_status r ≠ Failed → t_status r' ≠ Done → t_status r' ≠ Failed →
  fr_failures (_FAILURE_RUN name (<[i := r']> m)) = fr_failures (_FAILURE_RUN name m).
Proof.
  intros Hr H1 H2 H3 H4. unfold _FAILURE_RUN, last_done. cbn [fr_failures].
  assert (∀ st x, t_status x ≠ st → is_status st x = false) as Hst
    by (intros; by apply bool_decide_eq_false).
  rewrite (ids_where_insert (λ _ x, pull_of name x && is_status Done x) m i r r'); [|done|cbv beta; by rewrite (Hst Done r), (Hst Done r'), !andb_false_r].
  rewrite (ids_where_insert _ m i r r'); [done|done|].
  unfold failed_pull. by rewrite (Hst Failed r), (Hst Failed r'), !andb_false_r.
Qed.

(** A pull that ends failed, with nothing done since it was queued, is one more. *)
Lemma failures_gain name m i r r' :
  m !! i = Some r → t_status r ≠ Done → t_status r ≠ Failed →
  pull_of name r' = true → t_status r' = Failed → t_error r' ≠ Some INACTIVE_SOURCE_ERROR → last_done name m < i →
  fr_failures (_FAILURE_RUN name (<[i := r']> m)) = fr_failures (_FAILURE_RUN name m) + 1.
Proof.
  intros Hr H1 H2 Hp Hf He Hl. unfold _FAILURE_RUN. cbn [fr_failures].
  assert (last_done name (<[i:=r']> m) = last_done name m) as ->.
  { unfold last_done. rewrite (ids_where_insert _ m i r r'); [done|done|].
    unfold is_status. rewrite Hf. rewrite (bool_decide_eq_false_2 (t_status r = Done)) by done.
    by rewrite !andb_false_r. }
  rewrite (ids_where_gains _ m i r r'); [lia|done|..]; unfold failed_pull, is_status.
  - rewrite (bool_decide_eq_false_2 (t_status r = Failed)) by done. by rewrite andb_false_r.
  - rewrite Hp, Hf, (bool_decide_eq_false_2 (t_error r' = _)), (proj2 (Z.ltb_lt _ _)) by done. done.
Qed.

(** ** How the task can end, as far as the catalog sees *)

Section ends.
Context {St : Type} (cl : client St) (sha256 : string → string) (bucket : string).
Context (clean html_unescape : string → string) (http : nat → http_request → option response).
Context (dns : nat → string → option (list string)) (browse : nat → string → browsed)
  (static_get : nat → string → option static_response).
Context (fetchers : string → string → string → pulled) (worker egress : string) (now : Z).
#[local] Notation site := (ingest_site St).
#[local] Notation ingest := (handle_ingest_source cl sha256 bucket clean html_unescape http dns browse
                               static_get fetchers worker egress now).

Lemma keep_page_catalog url method text (s : site) :
  is_catalog (keep_page worker now url method text s).1 = is_catalog s.
Proof. unfold keep_page. by destruct (Fetches.record _ _ _ _ _ _ _). Qed.

Lemma browse_page_catalog url (s : site) :
  is_catalog (browse_page dns browse worker now url s).1 = is_catalog s.
Proof.
  unfold browse_page. destruct (fetch_page _ _ _ _) as [[[content ?] n]|]; [|done].
  destruct content as [[|c t]|]; [done| |done].
  set (s1 := on_lookups n s). pose proof (keep_page_catalog url "scraped" (String c t) s1) as H.
  destruct (keep_page _ _ _ _ _ s1). exact H.
Qed.

Lemma fetch_text_catalog url vouched (s : site) :
  is_catalog (fetch_text dns browse static_get worker now url vouched s).1 = is_catalog s.
Proof.
  unfold fetch_text. destruct (_ && _); [|apply browse_page_catalog].
  destruct (static_text _ _ _ _) as [[text n]|]; [|done].
  destruct text as [[|c t]|]; [exact (browse_page_catalog url (on_lookups n s))| |exact (browse_page_catalog url (on_lookups n s))].
  set (s1 := on_lookups n s). pose proof (keep_page_catalog url "static" (String c t) s1) as H.
  destruct (keep_page _ _ _ _ _ s1). exact H.
Qed.

Lemma refresh_page_text url context (s : site) :
  text_write (is_catalog s)
    (is_catalog (refresh_page clean html_unescape http dns browse static_get worker now url context s).1).
Proof.
  unfold refresh_page. destruct (ats_target _ _) as [target|]; [|done].
  destruct (ask_board _ _ _ _) as [res|]; [|done]. destruct (bool_decide _); [done|].
  set (text := if bool_decide _ then _ else _). destruct (_ && _).
  - pose proof (keep_page_catalog url "ats text" text s) as H.
    destruct (keep_page _ _ _ _ _ s) as [s1 p]. cbn [fst] in *. rewrite <- H.
    destruct (ar_posted res); [apply fill_date_text|done].
  - destruct (host_paced _ _ _ _) as [[]|]; [done| |done]. by rewrite fetch_text_catalog.
Qed.

Lemma cache_page_text p k (s : site) :
  text_write (is_catalog s)
    (is_catalog (cache_page clean html_unescape http dns browse static_get worker now p k s).1).
Proof.
  unfold cache_page. destruct (negb _).
  - unfold keep_page. destruct (Fetches.record _ _ _ _ _ _ _). apply text_write_refl.
  - pose proof (refresh_page_text (jp_url p) "ingest" s) as H.
    destruct (refresh_page _ _ _ _ _ _ _ _ _ _ s) as [s1 r]. exact H.
Qed.

Lemma cache_from_text cur tid name cancelled_at have parked total i l k (s : site) :
  text_write (is_catalog s)
    (is_catalog (cache_from clean html_unescape http dns browse static_get worker now cur tid name
                   cancelled_at have parked total i l k s).1).
Proof.
  revert i k s. induction l as [|p l IH]; intros i k s; simpl; [auto|].
  destruct (_ && cancelled_at i); [auto|]. destruct (negb _); [apply IH|].
  pose proof (cache_page_text p k s) as H.
  destruct (cache_page _ _ _ _ _ _ _ _ p k s) as [s1 k1]. eapply text_write_trans; [exact H|].
  eapply text_write_trans; [|apply IH]. destruct (progress_due p k k1); apply text_write_refl.
Qed.

(** What a pull that came back writes to the catalog, its pages apart. *)
Definition pulled_catalog (name : string) (authoritative complete : bool) (listed matched : list JobPosting)
    (tid : Z) (c : catalog) : catalog :=
  (observe name (Some tid) listed (urls_of matched) (absence_of listed complete authoritative)
     (upsert_postings now (if PATTERNS_ENFORCED c then matched else listed) name c).1).1.

Lemma take_in_catalog name src authoritative complete listed matched tid (s : site) :
  is_catalog (take_in cl sha256 bucket now name src authoritative complete listed matched tid s).1.1 =
  pulled_catalog name authoritative complete listed matched tid (is_catalog s).
Proof.
  unfold take_in, pulled_catalog, keep_listings.
  destruct (record_listings _ _ _ _ _ _ _ _ _) as [o t]. simpl.
  destruct (observe _ _ _ _ _ _) as [c rows]. done.
Qed.

Lemma cache_pages_text cur tid name cancelled_at candidates (s : site) :
  text_write (is_catalog s)
    (is_catalog (_cache_pages clean html_unescape http dns browse static_get worker now cur tid name
                   cancelled_at candidates s).1).
Proof.
  unfold _cache_pages.
  match goal with |- context [cache_from ?a ?b ?c ?d ?e ?f ?g ?h ?i ?j ?k ?l ?m ?n ?o ?p ?q ?r ?t] =>
    pose proof (cache_from_text i j k l m n o p q r t) as H end.
  destruct (cache_from _ _ _ _ _ _ _ _ _ _ _ _ _ _ _ _ _ _ _) as [s1 k]. exact H.
Qed.

Lemma schedule_catalog cycle (s : site) : is_catalog (schedule_filter_runs now cycle s) = is_catalog s.
Proof. unfold schedule_filter_runs. by destruct (ai_paused _). Qed.

(** The pull, and what the task does with it. *)
Definition came_back (src : source) (complete : bool) (listed : list JobPosting) : Prop :=
  fetch_listings fetchers (s_listings_url src) (s_company src) =
  if complete then Listed listed else PartialPull listed.

Definition named (payload : jobject) : string := default "" (obj_text payload "source").

Lemma pulled_back_ends cur cancelled_at tid payload name src host f listed complete (s : site) :
  let s' := (pulled_back cl sha256 bucket clean html_unescape http dns browse static_get worker egress now
               cur cancelled_at tid payload name src host f listed complete s).1 in
  match pattern_matched (s_title_pattern src) listed with
  | None => is_catalog s' = is_catalog s
  | Some matched =>
      text_write (pulled_catalog name (bf_authoritative f) complete listed matched tid (is_catalog s)) (is_catalog s')
  end.
Proof.
  cbv zeta. unfold pulled_back. set (s0 := on_budgets _ s).
  destruct (pattern_matched _ _) as [matched|]; [|done].
  pose proof (take_in_catalog name src (bf_authoritative f) complete listed matched tid s0) as Ht.
  destruct (take_in _ _ _ _ _ _ _ _ _ _ _ s0) as [[s1 inline] rows]. simpl in Ht.
  change (is_catalog s0) with (is_catalog s) in Ht. rewrite <- Ht.
  set (cands := List.filter _ _). pose proof (cache_pages_text cur tid name cancelled_at cands s1) as Hc.
  destruct (_cache_pages _ _ _ _ _ _ _ _ _ _ _ _ _ s1) as [s2 [counts|]]; [|exact Hc].
  cbn [fst]. rewrite schedule_catalog. exact Hc.
Qed.

Lemma pull_ends cur cancelled_at tid payload (s : site) :
  let name := named payload in
  let s' := (ingest cur cancelled_at tid payload s).1 in
  is_catalog s' = is_catalog s ∨
  is_catalog s' = is_catalog (switch_off_if_given_up name s) ∨
  ∃ src f complete listed matched,
    c_sources (is_catalog s) !! name = Some src ∧ s_active src = true ∧
    format_for_url (s_listings_url src) = Some f ∧ came_back src complete listed ∧
    pattern_matched (s_title_pattern src) listed = Some matched ∧
    text_write (pulled_catalog name (bf_authoritative f) complete listed matched tid (is_catalog s)) (is_catalog s').
Proof.
  cbv zeta. unfold handle_ingest_source. fold (named payload). set (name := named payload).
  destruct (c_sources _ !! name) as [src|] eqn:Hsrc; [|by left].
  destruct (s_active src) eqn:Hon; cbn [negb]; [|by left].
  destruct (pace_key _) as [host|]; [|by left]. destruct (format_for_url _) as [f|] eqn:Hf; [|by left].
  destruct (take _ _ _ _) as [b opens]. destruct opens; [by left|]. unfold _pull.
  pose proof (λ complete l,
    pulled_back_ends cur cancelled_at tid payload name src host f l complete (on_budgets b s)) as Hback.
  destruct (fetch_listings _ _ _) as [l|l|e] eqn:Hl.
  - specialize (Hback true l). destruct (pattern_matched _ l) as [m|] eqn:Hm; [|left; exact Hback].
    right; right. exists src, f, true, l, m. done.
  - specialize (Hback false l). destruct (pattern_matched _ l) as [m|] eqn:Hm; [|left; exact Hback].
    right; right. exists src, f, false, l, m. done.
  - destruct (refusal e); [by left|]. right; left.
    unfold switch_off_if_given_up. simpl. by destruct (_ <? _).
Qed.

(** ** A pull that proves no absence *)

Lemma matched_listed pattern listed matched :
  pattern_matched pattern listed = Some matched → ∀ p, p ∈ matched → p ∈ listed.
Proof.
  unfold pattern_matched. destruct pattern as [[|c p]|]; [by intros [= <-]| |by intros [= <-]].
  destruct (Regex.compile _ _) as [r|]; [|done]. cbn [mbind option_bind]. intros [= <-] q Hq.
  apply list_elem_of_In, filter_In in Hq as [Hq _]. by apply list_elem_of_In.
Qed.

Lemma urls_of_sub l k u : (∀ p, p ∈ l → p ∈ k) → u ∈ urls_of l → u ∈ urls_of k.
Proof. intros H (p & -> & Hp)%list_elem_of_fmap. apply list_elem_of_fmap. eauto. Qed.

(** C26: a posting is unlisted only by a pull that saw the whole board. When the board
    fails, refuses, answers nothing or shows only part of itself without the posting, then
    however the task goes on - its pages, a cancelled run, a source it switches off - the
    posting keeps its stored availability and what every source last said of it. *)
Theorem absence_needs_a_whole_pull cur cancelled_at tid payload (s : site) i j :
  catalog_ok (is_catalog s) → named payload ≠ "upload" →
  c_jobs (is_catalog s) !! i = Some j →
  (∀ src, c_sources (is_catalog s) !! named payload = Some src →
     match fetch_listings fetchers (s_listings_url src) (s_company src) with
     | Listed l => l = []
     | PartialPull l => j_url j ∉ urls_of l
     | BoardRaised _ => True
     end) →
  let s' := (ingest cur cancelled_at tid payload s).1 in
  ∃ j', c_jobs (is_catalog s') !! i = Some j' ∧ j_available j' = j_available j ∧
    ∀ n, latest_kind i n (is_catalog s') = latest_kind i n (is_catalog s).
Proof.
  intros Hok Hn Hj Hpull. cbv zeta.
  destruct (pull_ends cur cancelled_at tid payload s) as [->|[->|(src & f & complete & l & m & Hs & _ & _ & Hb & Hm & Hw)]].
  - eauto.
  - exists j. unfold switch_off_if_given_up. by destruct (_ <? _).
  - specialize (Hpull src Hs). rewrite Hb in Hpull.
    assert (j_url j ∉ urls_of l ∧ absence_of l complete (bf_authoritative f) = None) as [Hu Ha].
    { destruct complete; [subst l; split; [by intros ?%elem_of_nil|done]|]. split; [done|by destruct l]. }
    unfold pulled_catalog in Hw. rewrite Ha in Hw. set (c := is_catalog s) in *.
    set (admitted := if PATTERNS_ENFORCED c then m else l) in *.
    assert (j_url j ∉ urls_of admitted) as Hua.
    { unfold admitted. destruct (PATTERNS_ENFORCED c); [|done]. contradict Hu.
      eapply urls_of_sub; [by eapply matched_listed|done]. }
    pose proof (upserted_unlisted now admitted (named payload) c i j Hok Hn Hj Hua) as Hj1.
    destruct (upserted_frame now admitted (named payload) c Hok Hn) as (_ & _ & Ho & _).
    destruct (observed_unlisted (named payload) (Some tid) l (urls_of m) _ i j Hj1 Hu) as [Hj2 Hk2].
    destruct (text_lookup _ _ _ _ Hw Hj2) as (j' & Hj' & _ & _ & _ & Ea).
    exists j'. split_and!; [done|done|]. intros n. rewrite (text_latest _ _ _ _ Hw), Hk2.
    unfold latest_kind, latest_of, Catalog.latest. by rewrite Ho.
Qed.

(** ** A pull that came back *)

Lemma upserted_rows_settled name l c :
  name ≠ "upload" → name ≠ "sheet_import" → Forall (λ v, v_source v = name) l → source_off name c = false →
  settled_store (mkShared c ∅ ∅) →
  settled_store (mkShared (foldl (upsert_row now) c l) ∅ ∅) ∧ source_off name (foldl (upsert_row now) c l) = false.
Proof.
  intros H1 H2 Hl. revert c. induction Hl as [|v l Hv _ IH]; intros c Hoff Hs; [done|]. simpl.
  pose proof Hs as [Hok _ _ _]. pose proof (upsert_settled now v c ∅ ∅) as H. rewrite Hv, Hoff in H.
  apply IH; [|by apply H]. simpl in Hok. rewrite upsert_row_plain by done.
  unfold source_off, plain_upsert in *. by destruct (id_of_url _ _).
Qed.

Lemma upserted_settled name ps c :
  name ≠ "upload" → name ≠ "sheet_import" → source_off name c = false →
  settled_store (mkShared c ∅ ∅) → settled_store (mkShared (upsert_postings now ps name c).1 ∅ ∅).
Proof.
  intros H1 H2 Hoff Hs. unfold upsert_postings. cbn [fst].
  assert (Forall (Forall (λ v, v_source v = name)) (chunks _BATCH (posting_rows name ps))) as Hb.
  { apply Forall_forall. intros b Hb. apply Forall_forall. intros v Hv.
    assert (v ∈ posting_rows name ps) as Hin.
    { rewrite <- (chunks_concat _BATCH (posting_rows name ps)) by (unfold _BATCH; lia).
      apply list_elem_of_In, in_concat. exists b. by rewrite <- !list_elem_of_In. }
    unfold posting_rows in Hin. rewrite merge_sort_Permutation in Hin.
    by apply list_elem_of_fmap in Hin as (p & -> & _). }
  revert c Hoff Hs. induction Hb as [|b bs Hv _ IH]; intros c Hoff Hs; [done|]. cbn [foldl].
  destruct (upserted_rows_settled name b c H1 H2 Hv Hoff Hs) as [Hs' Hoff'].
  apply IH; [done|]. eapply text_settled; [apply finish_uploads_text|done].
Qed.

Lemma observed_settled name run_id ps kept absence c :
  settled_store (mkShared c ∅ ∅) → settled_store (mkShared (observe name run_id ps kept absence c).1 ∅ ∅).
Proof.
  intros Hs. destruct (observe_run name run_id ps kept absence c ∅) as (owed & Hrun & Ho).
  assert (owed = ∅) as -> by (apply set_eq; intros i; split; [intros [? _]%Ho; done|set_solver]).
  revert Hs. generalize dependent (mkShared c ∅ ∅). intros s0 Hrun Hs.
  induction Hrun as [|s1 s2 _ IH Hst]; [done|]. by eapply catalog_step_settled.
Qed.

(** The source is on, its host's slot is open, and its board answered. *)
Record pull_through (payload : jobject) (src : source) (f : BoardFormat) (complete : bool)
    (listed matched : list JobPosting) (s : site) : Prop := mkThrough {
  pt_source : c_sources (is_catalog s) !! named payload = Some src;
  pt_on : s_active src = true;
  pt_format : format_for_url (s_listings_url src) = Some f;
  pt_slot : ∃ host, pace_key (s_listings_url src) = Some host ∧
              (take (ingest_host_pace_seconds (is_conf s)) now (host, egress) (is_budgets s)).2 = None;
  pt_back : came_back src complete listed;
  pt_matched : pattern_matched (s_title_pattern src) listed = Some matched;
}.

Lemma pull_through_writes cur cancelled_at tid payload src f complete listed matched (s : site) :
  pull_through payload src f complete listed matched s →
  text_write (pulled_catalog (named payload) (bf_authoritative f) complete listed matched tid (is_catalog s))
    (is_catalog (ingest cur cancelled_at tid payload s).1).
Proof.
  intros [Hs Hon Hf (host & Hh & Ht) Hb Hm]. unfold handle_ingest_source. fold (named payload).
  rewrite Hs, Hon, Hh, Hf. cbn [negb].
  destruct (take _ _ _ _) as [b opens]. simpl in Ht. subst opens. unfold _pull.
  pose proof (pulled_back_ends cur cancelled_at tid payload (named payload) src host f listed complete
                (on_budgets b s)) as Hw. rewrite Hm in Hw.
  unfold came_back in Hb. rewrite Hb. destruct complete; exact Hw.
Qed.

(** What observations say does not read the rows. *)
Lemma carries_same i c c' n :
  c_observations c' = c_observations c → c_sources c' = c_sources c → c_patterns c' = c_patterns c →
  carries i c' n = carries i c n ∧ correction i c' = correction i c ∧ PATTERNS_ENFORCED c' = PATTERNS_ENFORCED c.
Proof.
  intros Ho Hs Hp. unfold carries, source_on, latest_kind, latest_of, correction, Catalog.latest, admits,
    PATTERNS_ENFORCED. by rewrite Ho, Hs, Hp.
Qed.

Lemma upserted_row now' l name c p :
  catalog_ok c → name ≠ "upload" → p ∈ l → jp_url p ≠ "" →
  ∃ i j, c_jobs (upsert_postings now' l name c).1 !! i = Some j ∧ j_url j = jp_url p.
Proof.
  intros Hok Hn Hp Hu. destruct (upserted_frame now' l name c Hok Hn) as (Hok' & E & _).
  destruct (pull_holds now' (posting_rows name l) c Hok (posting_rows_feed name l Hn)) as [Hh _].
  rewrite E. destruct (Hh (posting_row_of name p)) as [i Hi].
  { unfold posting_rows. rewrite merge_sort_Permutation. apply list_elem_of_fmap. exists p. split; [done|].
    apply list_elem_of_In, filter_In. split; [by apply list_elem_of_In|]. by rewrite (proj2 (String.eqb_neq _ _)). }
  unfold id_of_url in Hi. apply head_elem, elem_of_ids_where in Hi as (j & Hj & Hju).
  exists i, j. split; [done|]. by apply String.eqb_eq in Hju.
Qed.

(** The rows behind an observation and writes of text are those before them. *)
Lemma text_observed name run_id ps kept absence c1 c' :
  text_write (observe name run_id ps kept absence c1).1 c' →
  ∀ i, (∀ j1, c_jobs c1 !! i = Some j1 → ∃ j, c_jobs c' !! i = Some j ∧ j_url j = j_url j1) ∧
       (∀ j, c_jobs c' !! i = Some j → ∃ j1, c_jobs c1 !! i = Some j1 ∧ j_url j1 = j_url j).
Proof.
  intros [Hw _ _ _ _ _] i. specialize (Hw i). rewrite observe_eq, refreshed_lookup in Hw.
  change (c_jobs (CatalogProps.pulled _ _ _ _ _ _)) with (c_jobs c1) in Hw.
  destruct (c_jobs c1 !! i) as [j1|], (c_jobs c' !! i) as [j|]; try done. simpl in Hw.
  assert (j_url j = j_url j1) as Eu by (destruct Hw as [-> _]; by destruct (mem i _)).
  split; intros ? [= <-]; eauto.
Qed.

(** A posting the pull speaks of, through the observation and the texts after it. *)
Lemma spoken_available name run_id ps kept absence c1 c' i j1 :
  settled_store (mkShared c1 ∅ ∅) → name ≠ CORRECTION_SOURCE → source_on name c1 = true →
  text_write (observe name run_id ps kept absence c1).1 c' →
  c_jobs c1 !! i = Some j1 → correction i c1 = None → spoken_of name ps absence i j1 c1 →
  ∃ j', c_jobs c' !! i = Some j' ∧
    (IS_AVAILABLE j' = true ↔ pull_admits ps kept j1 c1 = true ∨ ∃ n, n ≠ name ∧ carries i c1 n = true).
Proof.
  intros [_ _ _ Hst] Hn Hon Hw Hj1 Hc Hsp. specialize (Hst i j1 Hj1 ltac:(simpl; set_solver)).
  cbn [sh_held sh_catalog] in Hst. unfold to_store in Hst. rewrite lookup_empty in Hst.
  destruct (pull_decides_availability name run_id ps kept absence c1 i j1) as (j2 & Hj2 & Hav); [done..|].
  destruct (text_lookup _ _ _ _ Hw Hj2) as (j' & Hj' & _ & _ & _ & Ea). exists j'. split; [done|].
  unfold IS_AVAILABLE in *. rewrite Ea, Hav, Hon. tauto.
Qed.


(** ** A pull that fails *)

(** What the give-up leaves of the sources, by the failures before this pull. *)
Lemma switched_off name src (s : site) :
  c_sources (is_catalog s) !! name = Some src → s_active src = true →
  source_on name (is_catalog (switch_off_if_given_up name s)) =
  (fr_failures (_FAILURE_RUN name (tasks (is_world s))) + 1 <? ingest_give_up_after_failures (is_conf s)).
Proof.
  intros Hs Hon. unfold switch_off_if_given_up, failure_runs. rewrite map_lookup_imap, Hs.
  cbn [mbind option_bind opt_filter]. unfold mem. rewrite bool_decide_eq_true_2 by constructor. cbn [andb].
  set (n := fr_failures (_FAILURE_RUN name (tasks (is_world s)))).
  assert ((match (if 1 <=? n then Some (src, _FAILURE_RUN name (tasks (is_world s))) else None) with
           | Some r => fr_failures r.2 | None => 0 end) = n) as ->.
  { assert (0 ≤ n) as H0 by (unfold n, _FAILURE_RUN; cbn [fr_failures]; lia).
    destruct (Z.leb_spec 1 n); [done|lia]. }
  destruct (n + 1 <? _); [unfold source_on; by rewrite Hs, Hon|].
  unfold source_on. cbn [on_catalog is_catalog c_sources]. by rewrite lookup_alter_eq, Hs.
Qed.

Lemma other_tasks c k x : k ≠ c_task_id c → held_where c k x = false.
Proof. intros H. unfold held_where. by rewrite (proj2 (Z.eqb_neq _ _) H). Qed.

(** The rows after a run's end: only its own moved. *)
Lemma held_alone c row w f :
  tasks w !! c_task_id c = Some row → t_status row = Running → stamp_matches c row = true →
  tasks (exec_update (held_where c) f w) = <[c_task_id c := f row]> (tasks w).
Proof.
  intros Hr Hst Hm. unfold exec_update. simpl. apply update_one; [done| |intros; by apply other_tasks].
  unfold held_where. by rewrite Z.eqb_refl, Hm, (proj2 (is_status_true _ _) Hst).
Qed.

Lemma finish_alone c row w st err :
  tasks w !! c_task_id c = Some row → t_status row = Running → stamp_matches c row = true →
  tasks (finish (Some c) now (c_task_id c) st err w) = <[c_task_id c := finished_row now st err row]> (tasks w).
Proof.
  intros Hr Hst Hm. unfold finish, exec_update. simpl. apply update_one; [done|..].
  - by rewrite Z.eqb_refl, Hm, (proj2 (is_status_true _ _) Hst).
  - intros k x Hk. by rewrite (proj2 (Z.eqb_neq _ _) Hk).
Qed.

(** The handler of a source that is on, whose slot is open and whose board raised. *)
Lemma raised_ends cur cancelled_at tid payload (s : site) src e :
  c_sources (is_catalog s) !! named payload = Some src → s_active src = true →
  (∃ host f, pace_key (s_listings_url src) = Some host ∧ format_for_url (s_listings_url src) = Some f ∧
     (take (ingest_host_pace_seconds (is_conf s)) now (host, egress) (is_budgets s)).2 = None) →
  fetch_listings fetchers (s_listings_url src) (s_company src) = BoardRaised e →
  let r := ingest cur cancelled_at tid payload s in
  tasks (is_world r.1) = tasks (is_world s) ∧
  r.2 = (if refusal e then RaisedDeferred (soon now) else Raised (bx_exn e)) ∧
  is_catalog r.1 = if refusal e then is_catalog s else is_catalog (switch_off_if_given_up (named payload) s).
Proof.
  intros Hs Hon (host & f & Hh & Hf & Ht) He r. unfold r, handle_ingest_source. fold (named payload).
  rewrite Hs, Hon, Hh, Hf. cbn [negb]. destruct (take _ _ _ _) as [b opens]. simpl in Ht. subst opens.
  unfold _pull. rewrite He. destruct (refusal e); [done|]. split_and!; [|done|].
  all: unfold switch_off_if_given_up; simpl; by destruct (_ <? _).
Qed.

(** C39: what a pull whose board raised costs its source. A refusal (too many requests, or
    the web firewall's challenge) costs nothing: the source stays on, the run of failures is
    what it was, and the pull waits for the requeue gap. Any other exception switches the
    source off exactly when the failures before it and this one reach the limit; the failure
    is counted, as the task ends failed - except that the pull of a worker short of memory
    or disk is retried and not counted, yet switches the source off all the same. *)
Theorem failed_pull_cost cur cancelled_at c payload (s : site) src e row max_attempts :
  let name := named payload in
  let tid := c_task_id c in
  let failures w := fr_failures (_FAILURE_RUN name (tasks w)) in
  let r := ingest cur cancelled_at tid payload s in
  let w' := (settle now max_attempts c row r.2 (is_world r.1)).1 in
  c_sources (is_catalog s) !! name = Some src → s_active src = true →
  (∃ host f, pace_key (s_listings_url src) = Some host ∧ format_for_url (s_listings_url src) = Some f ∧
     (take (ingest_host_pace_seconds (is_conf s)) now (host, egress) (is_budgets s)).2 = None) →
  fetch_listings fetchers (s_listings_url src) (s_company src) = BoardRaised e →
  tasks (is_world s) !! tid = Some row → t_status row = Running → stamp_matches c row = true →
  pull_of name row = true → last_done name (tasks (is_world s)) < tid →
  x_text (bx_exn e) ≠ INACTIVE_SOURCE_ERROR →
  if refusal e
  then source_on name (is_catalog r.1) = true ∧ failures w' = failures (is_world s) ∧
       (λ x, (t_status x, t_not_before x)) <$> tasks w' !! tid = Some (Pending, Some (soon now))
  else source_on name (is_catalog r.1) =
         (failures (is_world s) + 1 <? ingest_give_up_after_failures (is_conf s)) ∧
       if _is_transient (bx_exn e) && (RETRIES_SPENT row <? max_attempts)
       then failures w' = failures (is_world s) ∧ t_status <$> tasks w' !! tid = Some Pending
       else failures w' = failures (is_world s) + 1 ∧ t_status <$> tasks w' !! tid = Some Failed.
Proof.
  intros name tid failures r w' Hs Hon Hslot He Hrow Hst Hm Hp Hl Hx.
  destruct (raised_ends cur cancelled_at tid payload s src e Hs Hon Hslot He) as (Hw & Ho & Hc).
  fold r in Hw, Ho, Hc. unfold w', failures. rewrite Ho, Hc, <- Hw in *. clear w' Ho Hc.
  destruct (refusal e); cbn [settle].
  - unfold defer. cbn [fst]. rewrite (held_alone c row) by done. split_and!.
    + unfold source_on. by rewrite Hs.
    + apply (failures_kept _ _ _ row); [done|simpl; congruence..].
    + by rewrite lookup_insert_eq.
  - split; [rewrite Hw; by apply (switched_off name src)|]. destruct (_ && _); cbn [fst].
    + unfold requeue_transient. change (tasks (publish_task ?i ?w)) with (tasks w).
      rewrite (held_alone c row) by done. split; [|by rewrite lookup_insert_eq].
      apply (failures_kept _ _ _ row); [done|simpl; congruence..].
    + rewrite (finish_alone c row) by done. split; [|by rewrite lookup_insert_eq].
      apply (failures_gain _ _ _ row); [done|congruence|congruence|done|done| |done]. simpl. congruence.
Qed.
End ends.

(** ** Witnesses *)

Definition demo_board_source : source :=
  mkSource true 24 "https://api.lever.co/v0/postings/acme" (Some "Acme") None.

Definition demo_site (board : catalog) (w : world) : ingest_site (gmap (string * string) string) :=
  mkSite board w ∅ (mkFetchLog ∅ 1) [] ∅ ∅
    (mkPeople ∅ ∅ [] [] (mkSelections ∅ ∅ ∅ ∅ ∅))
    (mkIngestConf ∅ 3 24 ∅ "static_first" 200 (mkFetchRules 24 168 6) true) 0.

Definition demo_before : catalog :=
  mkCatalog (c_jobs demo_catalog) 2 (c_uploads demo_catalog) [] {[ "acme" := demo_board_source ]} None.

Definition demo_asked : jobject := {[ "source" := JStr "acme" ]}.

Definition demo_pulls (answer : pulled) (board : catalog) (w : world) (cur : option TaskClaim) (tid : Z) :=
  handle_ingest_source demo_client (λ s, s) "bucket" (λ s, s) (λ s, s) (λ _ _, None) (λ _ _, None)
    (λ _ _, BrowseRaised) (λ _ _, None) (λ _ _ _, answer) "w" "home" 0 cur (λ _, false) tid demo_asked
    (demo_site board w).

Lemma demo_before_settled : settled_store (mkShared demo_before ∅ ∅).
Proof.
  pose proof demo_ok as [Hu Hi Ho Hup]. split; simpl.
  - by split.
  - done.
  - intros i. rewrite lookup_empty. by intros [? ?].
  - intros i j Hj _. unfold demo_jobs in Hj. apply lookup_singleton_Some in Hj as [<- <-]. by vm_compute.
Qed.

Lemma absence_needs_a_whole_pull_witness :
  let cut := PartialPull [CatalogProps.demo_posting "u2" "Analyst"] in
  let s' := (demo_pulls cut demo_before (mkWorld ∅ 1 []) None 1).1 in
  ∃ j', c_jobs (is_catalog s') !! 1 = Some j' ∧ j_available j' = Some true.
Proof.
  destruct (absence_needs_a_whole_pull demo_client (λ s, s) "bucket" (λ s, s) (λ s, s) (λ _ _, None) (λ _ _, None)
    (λ _ _, BrowseRaised) (λ _ _, None) (λ _ _ _, PartialPull [CatalogProps.demo_posting "u2" "Analyst"]) "w" "home" 0
    None (λ _, false) 1 demo_asked (demo_site demo_before (mkWorld ∅ 1 [])) 1 (uploaded_row 0 "u1" "u1"))
    as (j' & Hj & Ha & _).
  - destruct demo_before_settled as [H _ _ _]. exact H.
  - by vm_compute.
  - by vm_compute.
  - intros src [= <-]. vm_compute. by intros [|[]%elem_of_nil]%elem_of_cons.
  - exists j'. split; [exact Hj|exact Ha].
Defined.


Definition demo_claimed : task :=
  put_worker (Some "w") (put_attempts 1 (put_status Running (new_task 0 "ingest_source" demo_asked None None))).

Lemma failed_pull_cost_witness :
  let busy := BoardRaised (mkBoardFailure (Some (429, "")) (mkExn OtherError "Too Many Requests")) in
  let w := mkWorld {[ 1 := demo_claimed ]} 2 [] in
  let r := demo_pulls busy demo_before w (Some (mkClaim 1 "w" 1)) 1 in
  source_on "acme" (is_catalog r.1) = true.
Proof.
  eapply (failed_pull_cost demo_client (λ s, s) "bucket" (λ s, s) (λ s, s) (λ _ _, None) (λ _ _, None)
    (λ _ _, BrowseRaised) (λ _ _, None)
    (λ _ _ _, BoardRaised (mkBoardFailure (Some (429, "")) (mkExn OtherError "Too Many Requests"))) "w" "home" 0
    (Some (mkClaim 1 "w" 1)) (λ _, false) (mkClaim 1 "w" 1) demo_asked
    (demo_site demo_before (mkWorld {[ 1 := demo_claimed ]} 2 [])) demo_board_source
    (mkBoardFailure (Some (429, "")) (mkExn OtherError "Too Many Requests")) demo_claimed 3);
    try by vm_compute.
  eexists "api.lever.co", _. split_and!; by vm_compute.
Defined.
