(* ===== verification/Grants.v ===== *)
(** * Mailbox grants ([api.oauth])

    The consent's signed state, the exchange of a code for tokens, the access token a worker
    asks for with its refresh under the row's lock, and the end of a grant. Encryption, the
    token endpoint, the profile endpoint and [float] of a text are parameters; the random part
    of a ciphertext is not told apart. A connection block commits what it did when it ends well
    and discards it when an exception leaves it, except for what was committed before. Then:
    workers, reconnects and an endpoint that may replace the refresh token at each use, in any
    interleaving. Times are microseconds. *)

From Stdlib Require Import Ascii.
From S2P Require Import Prelude PyStr Sql Json Datasheets Pricing Tasks Access Batches Collect Urls.

Local Open Scope string_scope.
Local Open Scope list_scope.
Local Open Scope Z_scope.
Local Open Scope js_scope.

(** ** Configuration and failures ([api.oauth.provider]) *)

Definition GOOGLE : string := "google".
Definition GMAIL_SCOPES : list string := ["https://www.googleapis.com/auth/gmail.readonly"].
Definition REGISTERED_REDIRECT_URIS : list string :=
  ["https://www.kanishksachdev.com/job-tracker/settings/gmail/callback";
   "http://localhost:3000/job-tracker/settings/gmail/callback"].
Definition STATE_TTL_SECONDS : Z := 600.
Definition EXPIRY_SKEW : Z := 2 * 60 * 1000000.
Definition DEAD_GRANT_ERROR : string := "invalid_grant".

(** [RaisedElse] is an exception of another class: a value of an unexpected type, a
    ciphertext that does not open. *)
Inductive oauth_error : Type :=
| NotConnected
| NeedsReconnect
| StateInvalid
| ScopeDeclined (missing : list string)
| ProviderError
| RaisedElse.

Definition required_env (environ : gmap string string) (name : string) : result oauth_error string :=
  match environ !! name with
  | Some v => Ok v
  | None => Err ProviderError
  end.

Definition client_id (environ : gmap string string) : result oauth_error string :=
  required_env environ "GOOGLE_OAUTH_CLIENT_ID".
Definition client_secret (environ : gmap string string) : result oauth_error string :=
  required_env environ "GOOGLE_OAUTH_CLIENT_SECRET".

Definition redirect_uris (environ : gmap string string) : list string :=
  match env_list environ "GMAIL_OAUTH_REDIRECT_URIS" "" with
  | [] => REGISTERED_REDIRECT_URIS
  | l => l
  end.

(** ** The stored grants *)

(** [user_oauth_tokens], by user and provider. *)
Record grant : Type := mkGrant {
  g_refresh_token_enc : string;
  g_access_token_enc : option string;
  g_access_token_expires_at : option Z;
  g_scopes : list string;
  g_account_email : option string;
  g_invalid_at : option Z;
  g_invalid_reason : option string;
  g_connected_at : Z;
  g_updated_at : Z;
}.

Abbreviation grants := (gmap (Z * string) grant).

(** A connection: what it has committed, and what its transaction would. *)
Record conn : Type := mkConn {
  cn_committed : grants;
  cn_working : grants;
}.

Definition execute (f : grants → grants) (c : conn) : conn := mkConn (cn_committed c) (f (cn_working c)).
Definition commit (c : conn) : conn := mkConn (cn_working c) (cn_working c).

(** [with db.pool.connection() as conn]. *)
Definition with_connection {A} (body : conn → conn * result oauth_error A) (t : grants)
    : grants * result oauth_error A :=
  let '(c, r) := body (mkConn t t) in
  match r with
  | Ok a => (cn_working c, Ok a)
  | Err e => (cn_committed c, Err e)
  end.

(** ** What the token endpoint answers *)

(** [None] of [ta_json] is a body that is no JSON. *)
Record token_answer : Type := mkTokenAnswer {
  ta_status : Z;
  ta_json : option json;
}.

Definition form : Type := list (string * string).

Definition _error_code (a : token_answer) : string :=
  match ta_json a with
  | Some (JObj o) => py_str (py_or (default JNull (alist_get "error" o)) (JStr ""))
  | _ => ""
  end.

(** [resp.json()], of which the code then asks keys. *)
Definition payload_of (a : token_answer) : result oauth_error (list (string * json)) :=
  match ta_json a with
  | Some (JObj o) => Ok o
  | _ => Err RaisedElse
  end.

Definition field (k : string) (o : list (string * json)) : json := default JNull (alist_get k o).

(** A value that is encrypted must be text. *)
Definition text_of (j : json) : result oauth_error string :=
  match j with
  | JStr s => Ok s
  | _ => Err RaisedElse
  end.

Definition _granted_scopes (o : list (string * json)) : list string :=
  List.filter (λ s, negb (String.eqb s ""))
    (map of_chars (split_at " "%char (chars (py_str (py_or (field "scope" o) (JStr "")))))).

(** [json.dumps] of a dict of texts and numbers: a space after each colon and comma. *)
Definition spaced_member (p : string * json) : list ascii := emit_str p.1 ++ [":"; " "]%char ++ Json.emit p.2.

Fixpoint spaced (parts : list (list ascii)) : list ascii :=
  match parts with
  | [] => []
  | [x] => x
  | x :: parts => x ++ [","; " "]%char ++ spaced parts
  end.

Definition flat_dumps (o : list (string * json)) : string :=
  of_chars ("{"%char :: spaced (map spaced_member o) ++ ["}"%char]).

Section oauth.
Context (environ : gmap string string).
Context (encrypt : Z → string → string) (decrypt : option Z → Z → string → option string).
Context (float_text : string → option Z) (other_text : json → option string).

(** An interval's microseconds are a 64-bit integer. *)
Definition interval (t : Z) : result oauth_error Z :=
  if (-2 ^ 63 <=? t) && (t <? 2 ^ 63) then Ok t else Err RaisedElse.

(** [make_interval(secs => float(payload.get("expires_in") or 0))]; [float_text] is the time a
    text's number of seconds comes to. *)
Definition expires_in (o : list (string * json)) : result oauth_error Z :=
  match py_or (field "expires_in" o) (JInt 0) with
  | JInt n => interval (n * 1000000)
  | JBool b => Ok (if b then 1000000 else 0)
  | JStr s => match float_text s with
              | Some t => interval t
              | None => Err RaisedElse
              end
  | _ => Err RaisedElse
  end.

Definition open_token (now : Z) (c : string) : result oauth_error string :=
  match decrypt None now c with
  | Some t => Ok t
  | None => Err RaisedElse
  end.

(** ** The state of a consent ([api.oauth.authorization]) *)

Record OAuthState : Type := mkOAuthState {
  os_user_id : Z;
  os_provider : string;
  os_redirect_uri : string;
}.

Definition issue_state (now user_id : Z) (provider redirect_uri : string) : string :=
  encrypt now (flat_dumps [("user_id", JInt user_id); ("provider", JStr provider);
                           ("redirect_uri", JStr redirect_uri)]).

(** [payload.get("user_id") != user_id]: a bool is the integer it is. *)
Definition is_user (user_id : Z) (v : json) : bool := py_eq v (JInt user_id).

Definition verify_state (now : Z) (state : string) (user_id : Z) : result oauth_error OAuthState :=
  match decrypt (Some STATE_TTL_SECONDS) now state with
  | None => Err StateInvalid
  | Some text =>
      match loads text with
      | Some (JObj o) =>
          if negb (is_user user_id (field "user_id" o)) then Err StateInvalid
          else match field "redirect_uri" o with
               | JStr uri =>
                   if mem uri (redirect_uris environ)
                   then Ok (mkOAuthState user_id (py_str (py_or (field "provider" o) (JStr GOOGLE))) uri)
                   else Err StateInvalid
               | _ => Err StateInvalid
               end
      | _ => Err StateInvalid
      end
  end.

(** The parameters of the URL a consent starts at. *)
Definition authorization_url (now user_id : Z) (redirect_uri : option string)
    : result oauth_error form :=
  let uris := redirect_uris environ in
  let target := match redirect_uri with
                | None | Some "" => hd "" uris
                | Some u => u
                end in
  if mem target uris
  then
    do id <- client_id environ;;
    Ok [("client_id", id); ("redirect_uri", target); ("response_type", "code");
        ("scope", String.concat " " GMAIL_SCOPES); ("access_type", "offline"); ("prompt", "consent");
        ("state", issue_state now user_id GOOGLE target)]
  else Err StateInvalid.

(** ** A code for a grant *)

Definition exchange_form (id secret code redirect_uri : string) : form :=
  [("code", code); ("client_id", id); ("client_secret", secret); ("redirect_uri", redirect_uri);
   ("grant_type", "authorization_code")].

(** The row a reconnect writes over the old one, or a first one. *)
Definition granted_row (now : Z) (refresh : string) (access : option string) (expires : Z) (scopes : list string)
    (email : option string) : grant :=
  mkGrant refresh access (Some (now + expires)) scopes email None None now now.

(** The profile endpoint's answer, [None] when it does not come. [other_text] is what a text
    column makes of a value that is no text, [None] when it refuses it. *)
Definition _account_email (profile : string → option token_answer) (access_token : string)
    : result oauth_error (option string) :=
  match profile access_token with
  | None => Ok None
  | Some a =>
      if 400 <=? ta_status a then Ok None
      else match ta_json a with
           | Some (JObj o) => match field "emailAddress" o with
                              | JNull => Ok None
                              | JStr s => Ok (Some s)
                              | v => match other_text v with
                                     | Some s => Ok (Some s)
                                     | None => Err RaisedElse
                                     end
                              end
           | _ => Ok None
           end
  end.

(** The scopes, tokens and lifetime of an exchange's answer. *)
Definition read_grant (now : Z) (profile : string → option token_answer) (a : token_answer)
    : result oauth_error grant :=
  if 400 <=? ta_status a then Err ProviderError
  else
    do o <- payload_of a;;
    let scopes := _granted_scopes o in
    match List.filter (λ s, negb (mem s scopes)) GMAIL_SCOPES with
    | (_ :: _) as missing => Err (ScopeDeclined missing)
    | [] =>
        let refresh := field "refresh_token" o in
        if negb (truthy refresh) then Err ProviderError
        else
          let access := py_or (field "access_token" o) (JStr "") in
          do refresh <- text_of refresh;;
          do access <- text_of access;;
          do expires <- expires_in o;;
          if String.eqb access "" then Ok (granted_row now (encrypt now refresh) None expires scopes None)
          else
            do email <- _account_email profile access;;
            Ok (granted_row now (encrypt now refresh) (Some (encrypt now access)) expires scopes email)
    end.

(** [post] answers the request, [None] when it does not get through. *)
Definition exchange_code (now user_id : Z) (code state : string) (post : form → option token_answer)
    (profile : string → option token_answer) (t : grants) : grants * result oauth_error unit :=
  match (do verified <- verify_state now state user_id;;
         do id <- client_id environ;;
         do secret <- client_secret environ;;
         match post (exchange_form id secret code (os_redirect_uri verified)) with
         | None => Err ProviderError
         | Some a => do g <- read_grant now profile a;; Ok (os_provider verified, g)
         end) with
  | Ok (provider, g) => (<[(user_id, provider) := g]> t, Ok tt)
  | Err e => (t, Err e)
  end.

(** ** An access token *)

Definition mark_row (now : Z) (reason : string) (g : grant) : grant :=
  mkGrant (g_refresh_token_enc g) None None (g_scopes g) (g_account_email g) (Some now) (Some reason)
    (g_connected_at g) now.

Definition _mark_invalid (now : Z) (k : Z * string) (reason : string) (c : conn) : conn :=
  commit (execute (alter (mark_row now reason) k) c).

Definition refreshed_row (now : Z) (access : string) (expires : Z) (refresh : option string) (g : grant) : grant :=
  mkGrant (default (g_refresh_token_enc g) refresh) (Some access) (Some (now + expires)) (g_scopes g)
    (g_account_email g) (g_invalid_at g) (g_invalid_reason g) (g_connected_at g) now.

Definition refresh_form (id secret refresh_token : string) : form :=
  [("client_id", id); ("client_secret", secret); ("refresh_token", refresh_token); ("grant_type", "refresh_token")].

(** [_refresh_locked] from the endpoint's answer on. *)
Definition take_answer (now : Z) (k : Z * string) (a : option token_answer) (c : conn)
    : conn * result oauth_error string :=
  match a with
  | None => (c, Err ProviderError)
  | Some a =>
      if 400 <=? ta_status a
      then if String.eqb (_error_code a) DEAD_GRANT_ERROR
           then (_mark_invalid now k DEAD_GRANT_ERROR c, Err NeedsReconnect)
           else (c, Err ProviderError)
      else
        match (do o <- payload_of a;;
               let access := field "access_token" o in
               if negb (truthy access) then Err ProviderError
               else
                 do access <- text_of access;;
                 do expires <- expires_in o;;
                 let refresh := field "refresh_token" o in
                 if truthy refresh then do refresh <- text_of refresh;; Ok (access, expires, Some (encrypt now refresh))
                 else Ok (access, expires, None)) with
        | Err e => (c, Err e)
        | Ok (access, expires, refresh) =>
            (execute (alter (refreshed_row now (encrypt now access) expires refresh) k) c, Ok access)
        end
  end.

Definition _refresh_locked (now : Z) (k : Z * string) (refresh_token : string) (post : form → option token_answer)
    (c : conn) : conn * result oauth_error string :=
  match (do id <- client_id environ;;
         do secret <- client_secret environ;; Ok (refresh_form id secret refresh_token)) with
  | Err e => (c, Err e)
  | Ok f => take_answer now k (post f) c
  end.

Definition usable (now : Z) (g : grant) : bool :=
  match g_access_token_enc g, g_access_token_expires_at g with
  | Some _, Some e => now + EXPIRY_SKEW <? e
  | _, _ => false
  end.

(** What the row read under the lock says: the token it holds, or the refresh token to send. *)
Definition decide_row (now : Z) (row : option grant) : result oauth_error (string + string) :=
  match row with
  | None => Err NotConnected
  | Some g =>
      match g_invalid_at g with
      | Some _ => Err NeedsReconnect
      | None =>
          if usable now g
          then do t <- open_token now (default "" (g_access_token_enc g));; Ok (inl t)
          else do t <- open_token now (g_refresh_token_enc g);; Ok (inr t)
      end
  end.

(** [now] is the transaction's: it is read before the wait for the row. *)
Definition get_access_token (now : Z) (k : Z * string) (post : form → option token_answer)
    : grants → grants * result oauth_error string :=
  with_connection (λ c,
    match decide_row now (cn_working c !! k) with
    | Err e => (c, Err e)
    | Ok (inl token) => (c, Ok token)
    | Ok (inr refresh_token) => _refresh_locked now k refresh_token post c
    end).

(** ** The end of a grant, and who has one *)

(** The row goes first. Then the token the provider is asked to revoke, when it opens; whether
    it answers does not matter. *)
Definition disconnect (now : Z) (k : Z * string) (t : grants) : grants * result oauth_error (option string) :=
  match t !! k with
  | None => (t, Ok None)
  | Some g => (delete k t, do token <- open_token now (g_refresh_token_enc g);; Ok (Some token))
  end.

(** What the settings show. *)
Record connection_status : Type := mkConnectionStatus {
  connected : bool;
  cs_provider : string;
  account_email : option string;
  cs_scopes : list string;
  needs_reconnect : bool;
  invalid_reason : option string;
  connected_at : option Z;
}.

Definition status (k : Z * string) (t : grants) : connection_status :=
  match t !! k with
  | None => mkConnectionStatus false k.2 None [] false None None
  | Some g =>
      mkConnectionStatus true k.2 (g_account_email g) (g_scopes g) (bool_decide (g_invalid_at g ≠ None))
        (g_invalid_reason g) (Some (g_connected_at g))
  end.

Definition connected_user_ids (t : grants) : list Z :=
  merge_sort (≤)
    (omap (λ kg : (Z * string) * grant,
             if String.eqb kg.1.2 GOOGLE && bool_decide (g_invalid_at kg.2 = None) then Some kg.1.1 else None)
       (map_to_list t)).
End oauth.

(** ** Lemmas: the text of a state *)

Definition scalar (j : json) : Prop :=
  match j with
  | JArr _ | JObj _ => False
  | _ => True
  end.

Lemma spaced_cons x parts :
  spaced (x :: parts) = match parts with [] => x | _ => x ++ [","; " "]%char ++ spaced parts end.
Proof. by destruct parts. Qed.

Lemma read_one_spaced_member item n p v tl rest :
  skip tl = tl → item tl = Some (v, rest) →
  read_members item (S n) (emit_str p ++ [":"; " "]%char ++ tl) =
    match skip rest with
    | c :: rest =>
        if bool_decide (c = "}"%char) then Some ([(p, v)], rest)
        else if bool_decide (c = ","%char)
        then '(vs, rest) ← read_members item n rest; Some ((p, v) :: vs, rest)
        else None
    | [] => None
    end.
Proof.
  intros Htl Hv. unfold emit_str. cbn [app read_members]. unfold skip at 1. cbn [drop_while].
  change (is_ws quote) with false. cbn iota.
  change (negb (bool_decide (quote = quote))) with false. cbn iota.
  rewrite <- app_assoc. cbn [app]. rewrite read_emit_str. cbn [mbind option_bind].
  unfold skip at 1. cbn [drop_while]. change (is_ws ":"%char) with false. cbn iota.
  change (negb (bool_decide (":"%char = ":"%char))) with false. cbn iota.
  change (skip (" "%char :: tl)) with (skip tl). rewrite Htl, Hv. cbn [mbind option_bind]. by rewrite !of_chars_chars.
Qed.

Lemma read_spaced item l n rest :
  l ≠ [] → (length l ≤ n)%nat →
  (∀ p r, p ∈ l → ends r → item (Json.emit p.2 ++ r) = Some (p.2, r)) →
  read_members item n (spaced (map spaced_member l) ++ "}"%char :: rest) = Some (l, rest).
Proof.
  revert n. induction l as [|p l IH]; intros n Hl Hn Hitem; [done|]. destruct n as [|n]; [simpl in Hn; lia|].
  assert (∀ tl, spaced_member p ++ tl = emit_str p.1 ++ [":"; " "]%char ++ Json.emit p.2 ++ tl) as Hp.
  { intros tl. unfold spaced_member. by rewrite <- !app_assoc. }
  cbn [map]. rewrite spaced_cons. destruct l as [|p' l]; cbn [map].
  - rewrite Hp. erewrite read_one_spaced_member;
      [|by apply skip_starts, emit_starts|by apply Hitem; [left|]]. by destruct p.
  - rewrite <- app_assoc, Hp. erewrite read_one_spaced_member;
      [|by apply skip_starts, emit_starts|by apply Hitem; [left|]].
    cbn -[spaced read_members spaced_member]. change (is_ws ","%char) with false. cbn iota.
    rewrite bool_decide_eq_false_2, bool_decide_eq_true_2 by done.
    change (spaced_member p' :: map spaced_member l) with (map spaced_member (p' :: l)).
    destruct n as [|n]; [simpl in Hn; lia|].
    assert (∀ tl, read_members item (S n) (" "%char :: tl) = read_members item (S n) tl) as Hsp by done.
    rewrite Hsp, IH; [by destruct p|done|simpl in *; lia|]. intros w r Hw. apply Hitem. by right.
Qed.

(** A flat dict is read back as it was. *)
Lemma loads_flat_dumps o :
  o ≠ [] → NoDup o.*1 → Forall (λ p, scalar p.2) o → loads (flat_dumps o) = Some (JObj o).
Proof.
  intros Hne Hnd Hs. unfold loads, flat_dumps. rewrite chars_of_chars.
  set (body := spaced (map spaced_member o)).
  assert (length o ≤ length body ∧ ∀ p, p ∈ o → (length (Json.emit p.2) ≤ length body))%nat as [Hn Hlen].
  { subst body. clear. induction o as [|p o [IH1 IH2]]; [split; [done|by intros ? ?%elem_of_nil]|].
    cbn [map]. rewrite spaced_cons. assert (1 + length (Json.emit p.2) ≤ length (spaced_member p))%nat as Hp.
    { unfold spaced_member, emit_str. rewrite !length_app. simpl. lia. }
    destruct o as [|q o]; cbn [map] in *.
    - split; [simpl; lia|]. intros w [->|?%elem_of_nil]%elem_of_cons; [lia|done].
    - rewrite !length_app. split; [cbn [length] in *; lia|].
      intros w [->|Hw]%elem_of_cons; [lia|]. specialize (IH2 w Hw). lia. }
  change (skip ("{"%char :: body ++ ["}"%char])) with ("{"%char :: body ++ ["}"%char]).
  cbn [length]. rewrite length_app. cbn [length].
  remember (S (length body + 1)) as n eqn:En. cbn [Json.read]. do 2 (rewrite bool_decide_eq_false_2 by done). rewrite bool_decide_eq_true_2 by done.
  assert (∃ tl, body ++ ["}"%char] = quote :: tl) as [tl Htl].
  { subst body. destruct o as [|p o]; [done|]. cbn [map]. rewrite spaced_cons.
    destruct (map spaced_member o); eexists; reflexivity. }
  assert (read_members (Json.read n) n (body ++ ["}"%char]) = Some (o, [])) as Hr.
  { apply read_spaced; [done|lia|]. intros p r Hp Hends. apply read_emit; [|specialize (Hlen p Hp); lia|done].
    rewrite Forall_forall in Hs. specialize (Hs p Hp). by destruct (p.2); try done; constructor. }
  rewrite Htl in *. change (skip (quote :: tl)) with (quote :: tl). cbn iota.
  rewrite bool_decide_eq_false_2 by done. rewrite Hr. cbn [mbind option_bind].
  by rewrite dict_of_nodup.
Qed.

(** ** One worker *)

Section worker.
Context (environ : gmap string string).
Context (encrypt : Z → string → string) (decrypt : option Z → Z → string → option string).
Context (float_text : string → option Z) (other_text : json → option string).

Abbreviation get_token := (get_access_token environ encrypt decrypt float_text).
Abbreviation answered := (take_answer encrypt float_text).

Lemma text_of_error j e : text_of j = Err e → e = RaisedElse.
Proof. destruct j; intros [= <-]; done. Qed.

Lemma interval_error z e : interval z = Err e → e = RaisedElse.
Proof. unfold interval. case_match; intros [= <-]; done. Qed.

Lemma expires_in_error o e : expires_in float_text o = Err e → e = RaisedElse.
Proof.
  unfold expires_in. destruct (py_or _ _); try (by intros [= <-]); [apply interval_error|].
  destruct (float_text _); [apply interval_error|by intros [= <-]].
Qed.

(** What an answer leaves: the refreshed row with the token handed out, the mark with
    [NeedsReconnect], or the rows as they were. *)
Lemma take_answer_outcomes now k a t :
  match with_connection (answered now k a) t with
  | (t', Ok token) => ∃ expires refresh, t' = alter (refreshed_row now (encrypt now token) expires refresh) k t
  | (t', Err NeedsReconnect) =>
      t' = alter (mark_row now DEAD_GRANT_ERROR) k t ∧ ∃ b, a = Some b ∧ 400 <= ta_status b
  | (t', Err _) => t' = t
  end.
Proof.
  unfold with_connection, take_answer. destruct a as [a|]; [|done].
  destruct (Z.leb_spec 400 (ta_status a)); [by destruct (String.eqb _ _); [split; [|exists a]|]|].
  unfold payload_of. destruct (ta_json a) as [[]|]; try done. cbn [rbind].
  destruct (negb _); [done|]. destruct (text_of _) as [access|e] eqn:Ht; [|by apply text_of_error in Ht as ->]. cbn [rbind].
  destruct (expires_in _ _) as [expires|e] eqn:He.
  2: { by apply expires_in_error in He as ->. }
  cbn [rbind]. destruct (truthy _); [|cbn; by eauto].
  destruct (text_of (field "refresh_token" l)) as [r|e] eqn:Hr; cbn; [by eauto|].
  by apply text_of_error in Hr as ->.
Qed.

(** An access token is asked for with one of three ends. *)
Lemma get_access_token_cases now k post t :
  (∃ e, decide_row decrypt now (t !! k) = Err e ∧ get_token now k post t = (t, Err e)) ∨
  (∃ token, decide_row decrypt now (t !! k) = Ok (inl token) ∧ get_token now k post t = (t, Ok token)) ∨
  (∃ r, decide_row decrypt now (t !! k) = Ok (inr r) ∧
     (get_token now k post t = (t, Err ProviderError) ∨
      ∃ f, get_token now k post t = with_connection (answered now k (post f)) t)).
Proof.
  unfold get_access_token, with_connection. cbn [cn_working].
  destruct (decide_row _ _ _) as [[token|r]|e]; [by right; left; eauto| |by left; eauto]. right. right. exists r.
  split; [done|]. unfold _refresh_locked, client_id, client_secret, required_env.
  destruct (environ !! "GOOGLE_OAUTH_CLIENT_ID") as [id|]; [|by left].
  destruct (environ !! "GOOGLE_OAUTH_CLIENT_SECRET") as [secret|]; [|by left]. right. eauto.
Qed.

Lemma decide_row_invalid now g :
  g_invalid_at g ≠ None → decide_row decrypt now (Some g) = Err NeedsReconnect.
Proof. intros H. unfold decide_row. by destruct (g_invalid_at g). Qed.

Lemma decide_row_present now row x : decide_row decrypt now row = Ok x → ∃ g, row = Some g ∧ g_invalid_at g = None.
Proof. unfold decide_row. destruct row as [g|]; [|done]. destruct (g_invalid_at g) eqn:E; [done|]. eauto. Qed.

Lemma open_token_error now c e : open_token decrypt now c = Err e → e = RaisedElse.
Proof. unfold open_token. by destruct (decrypt _ _ _); intros; simplify_eq. Qed.

(** A person must reconnect exactly when the row says so. *)
Lemma decide_row_needs_reconnect now row :
  decide_row decrypt now row = Err NeedsReconnect ↔ ∃ g, row = Some g ∧ g_invalid_at g ≠ None.
Proof.
  split; [|intros (g & -> & Hg); by apply decide_row_invalid].
  unfold decide_row. destruct row as [g|]; [|done]. destruct (g_invalid_at g) eqn:E; [intros _; exists g; by rewrite E|].
  destruct (usable now g); destruct (open_token _ _ _) as [|e] eqn:Ho; try done;
    apply open_token_error in Ho as ->; done.
Qed.

(** Whatever the endpoint answers: a token handed out is the row's own or was written into it,
    [NeedsReconnect] leaves the grant marked, so that from then on every ask raises it without a
    request and the scheduled sync passes the user by, and any other failure leaves the rows as
    they were. *)
Theorem refusal_is_recorded now k post t :
  match get_token now k post t with
  | (t', Ok token) =>
      t' = t ∧ decide_row decrypt now (t !! k) = Ok (inl token) ∨
      ∃ expires refresh, t' = alter (refreshed_row now (encrypt now token) expires refresh) k t
  | (t', Err NeedsReconnect) =>
      (t' = t ∨ t' = alter (mark_row now DEAD_GRANT_ERROR) k t) ∧
      needs_reconnect (status k t') = true ∧
      (∀ now' post', get_token now' k post' t' = (t', Err NeedsReconnect)) ∧
      (k.2 = GOOGLE → k.1 ∉ connected_user_ids t')
  | (t', Err _) => t' = t
  end.
Proof.
  assert (∀ t', (∃ g, t' !! k = Some g ∧ g_invalid_at g ≠ None) →
    needs_reconnect (status k t') = true ∧
    (∀ now' post', get_token now' k post' t' = (t', Err NeedsReconnect)) ∧
    (k.2 = GOOGLE → k.1 ∉ connected_user_ids t')) as Hdead.
  { intros t' (g & Hg & Hi). split_and!.
    - unfold status. rewrite Hg. cbn. by apply bool_decide_eq_true.
    - intros now' post'. unfold get_access_token, with_connection. cbn [cn_working].
      by rewrite Hg, decide_row_invalid.
    - intros Hk. unfold connected_user_ids. rewrite merge_sort_Permutation.
      intros ([k' g'] & Hin & Hm)%list_elem_of_omap. apply elem_of_map_to_list in Hin. cbn in Hm.
      destruct (String.eqb_spec k'.2 GOOGLE) as [Hk'|]; [|done]. cbn in Hm.
      destruct (bool_decide (g_invalid_at g' = None)) eqn:E; [|done]. apply bool_decide_eq_true in E.
      assert (k' = k) as -> by (destruct k, k'; cbn in *; congruence). congruence. }
  destruct (get_access_token_cases now k post t) as [(e & Hd & ->)|[(token & Hd & ->)|(r & Hd & [->|[f ->]])]].
  - destruct e; try done. apply decide_row_needs_reconnect in Hd. split; [by left|]. by apply Hdead.
  - by left.
  - done.
  - pose proof (take_answer_outcomes now k (post f) t) as Ho. destruct (with_connection _ _) as [t' [token|[]]]; try done.
    + by right.
    + split; [by right; apply Ho|]. apply Hdead. apply decide_row_present in Hd as (g & Hg & _).
      destruct Ho as [-> _]. rewrite lookup_alter_eq, Hg. cbn. by eexists.
Qed.

(** Deciphering without a lifetime: what was enciphered comes back, at any time. *)
Context (Hopen : ∀ now now' s, decrypt None now (encrypt now' s) = Some s).
Context (Hno_ttl : ∀ now now' c, decrypt None now c = decrypt None now' c).

(** A worker that waited for the row while another refreshed it takes the token that one got,
    and makes no request. *)
Theorem waiters_take_the_fresh_token now k post t t' token now' post' :
  get_token now k post t = (t', Ok token) →
  (∃ g, t' !! k = Some g ∧ usable now' g = true) →
  get_token now' k post' t' = (t', Ok token).
Proof.
  intros Hget (g & Hg & Hu). unfold get_access_token, with_connection. cbn [cn_working]. rewrite Hg.
  assert (decide_row decrypt now' (Some g) = Ok (inl token)) as ->; [|done].
  assert (g_invalid_at g = None ∧ decrypt None now' (default "" (g_access_token_enc g)) = Some token) as [Hi Ho].
  { destruct (get_access_token_cases now k post t) as [(e & Hd & Hc)|[(tok & Hd & Hc)|(r & Hd & [Hc|[f Hc]])]];
      rewrite Hget in Hc; simplify_eq.
    - rewrite Hg in Hd. unfold decide_row in Hd. destruct (g_invalid_at g); [done|]. split; [done|].
      destruct (usable now g); unfold open_token in Hd; rewrite (Hno_ttl now' now);
        destruct (decrypt None now _); cbn in Hd; by simplify_eq.
    - pose proof (take_answer_outcomes now k (post f) t) as Ho. rewrite <- Hc in Ho.
      destruct Ho as (expires & refresh & ->). apply decide_row_present in Hd as (g0 & Hg0 & Hi).
      rewrite lookup_alter_eq, Hg0 in Hg. cbn in Hg. simplify_eq. cbn. by rewrite Hopen. }
  unfold decide_row. rewrite Hi, Hu. unfold open_token. by rewrite Ho.
Qed.

End worker.

(** ** A consent comes back *)

Section consent.
Context (environ : gmap string string).
Context (encrypt : Z → string → string) (decrypt : option Z → Z → string → option string).
Context (float_text : string → option Z) (other_text : json → option string).

(** A state is taken back, while the deciphering allows its age, from the person it was issued
    to and for an address that is still registered; from anybody else, or for an address
    withdrawn since, it is refused. *)
Theorem state_comes_back now now' user user' provider uri :
  (∀ s, decrypt (Some STATE_TTL_SECONDS) now' (encrypt now s) = Some s) →
  provider ≠ "" →
  verify_state environ decrypt now' (issue_state encrypt now user provider uri) user' =
    if (user =? user') && mem uri (redirect_uris environ)
    then Ok (mkOAuthState user' provider uri) else Err StateInvalid.
Proof.
  intros Hopen Hp. unfold verify_state, issue_state. rewrite Hopen, loads_flat_dumps;
    [|done|apply (bool_decide_unpack _); by vm_compute|by repeat constructor].
  change (field "user_id" _) with (JInt user). change (field "redirect_uri" _) with (JStr uri).
  change (field "provider" _) with (JStr provider). unfold is_user, py_eq. cbn [eq_form].
  destruct (Z.eqb_spec user user') as [->|Hu].
  - rewrite bool_decide_eq_true_2 by done. cbn [negb andb]. cbn. destruct (mem uri _); [|done].
    unfold py_or. cbn. apply String.eqb_neq in Hp. by rewrite Hp.
  - rewrite bool_decide_eq_false_2 by congruence. done.
Qed.

(** An exchange that fails changes no grant; one that succeeds leaves a grant that is not
    marked, for the person it was asked for, with the refresh token of the answer. *)
Theorem exchange_outcomes now user code state post profile t :
  match exchange_code environ encrypt decrypt float_text other_text now user code state post profile t with
  | (t', Err _) => t' = t
  | (t', Ok _) =>
      ∃ verified f a o r g,
        verify_state environ decrypt now state user = Ok verified ∧
        post f = Some a ∧ payload_of a = Ok o ∧ field "refresh_token" o = JStr r ∧ r ≠ "" ∧
        Forall (λ s, mem s (_granted_scopes o) = true) GMAIL_SCOPES ∧
        g_refresh_token_enc g = encrypt now r ∧ g_invalid_at g = None ∧
        t' = <[(user, os_provider verified) := g]> t
  end.
Proof.
  unfold exchange_code. destruct (verify_state _ _ _ _ _) as [v|]; [|done]. cbn [rbind].
  destruct (client_id _) as [id|]; [|done]. destruct (client_secret _) as [secret|]; [|done]. cbn [rbind].
  destruct (post _) as [a|] eqn:Hpost; [|done]. destruct (read_grant _ _ _ _ _ _) as [g|] eqn:Hg; [|done]. cbn [rbind].
  unfold read_grant in Hg. destruct (400 <=? _); [done|]. destruct (payload_of a) as [o|] eqn:Ho; [|done]. cbn [rbind] in Hg.
  destruct (List.filter _ GMAIL_SCOPES) as [|] eqn:Hs; [|done]. destruct (negb _) eqn:Ht; [done|].
  destruct (field "refresh_token" o) as [| | |r| |] eqn:Hr; try done. cbn [text_of rbind] in Hg.
  destruct (text_of _) as [access|]; [|done]. cbn [rbind] in Hg. destruct (expires_in _ _) as [e|]; [|done]. cbn [rbind] in Hg.
  assert (∃ access' email, g = granted_row now (encrypt now r) access' e (_granted_scopes o) email) as (access' & email & ->).
  { destruct (String.eqb access ""); [by simplify_eq; eauto|].
    destruct (_account_email _ _ _); [|done]. cbn [rbind] in Hg. simplify_eq. eauto. }
  eexists v, _, a, o, r, (granted_row now (encrypt now r) access' e (_granted_scopes o) email). split_and!; try done.
  - by intros ->.
  - apply Forall_forall. intros s Hin. destruct (mem s (_granted_scopes o)) eqn:E; [done|].
    assert (s ∈ []) as ?%elem_of_nil; [|done].
    rewrite <- Hs. apply list_elem_of_In, List.filter_In. split; [by apply list_elem_of_In|by rewrite E].
Qed.

End consent.

(** ** Workers, people and the endpoint together *)

(** [fl_asked]: the refresh token a worker sent while it holds a row's lock. [fl_owner]: which
    grant a refresh token was issued for. [fl_pending]: issued on a consent and not stored yet.
    [fl_live]: what the provider would take. [fl_revoked]: what the provider stopped taking by
    itself. [fl_lost]: sent by a worker that did not keep the answer. *)
Record fleet : Type := mkFleet {
  fl_rows : grants;
  fl_asked : gmap (Z * string) string;
  fl_owner : gmap string (Z * string);
  fl_pending : gset string;
  fl_live : gset string;
  fl_revoked : gset string;
  fl_lost : gset string;
}.

Definition no_grants : fleet := mkFleet ∅ ∅ ∅ ∅ ∅ ∅ ∅.

(** What the provider does with a refresh token it is sent: it may replace it, keeping the old
    one or not; [invalid_grant] is for a token it does not take. *)
Inductive endpoint (k : Z * string) (r : string) (owner : gmap string (Z * string)) (live : gset string)
    : token_answer → gmap string (Z * string) → gset string → Prop :=
| end_keeps a o :
    r ∈ live → ta_status a < 400 → ta_json a = Some (JObj o) → truthy (field "refresh_token" o) = false →
    endpoint k r owner live a owner live
| end_rotates a o r' kept :
    r ∈ live → ta_status a < 400 → ta_json a = Some (JObj o) → field "refresh_token" o = JStr r' → r' ≠ "" →
    owner !! r' = None →
    endpoint k r owner live a (<[r' := k]> owner) ({[r']} ∪ (if kept : bool then live else live ∖ {[r]}))
| end_refuses a :
    400 <= ta_status a → (_error_code a = DEAD_GRANT_ERROR → r ∉ live) →
    endpoint k r owner live a owner live.

Section fleet.
Context (environ : gmap string string).
Context (encrypt : Z → string → string) (decrypt : option Z → Z → string → option string).
Context (float_text : string → option Z) (other_text : json → option string).

(** The lock of a row keeps its other writers out: a reconnect and a disconnect wait for the
    worker that asked. An answer comes with the end of its connection block, so what raises
    without keeping an answer is [step_drop], as are a worker that dies and a request that times
    out; its request may still reach the provider, then or later. *)
Inductive step : fleet → fleet → Prop :=
| step_consent k r rows asked owner pending live revoked lost :
    owner !! r = None →
    step (mkFleet rows asked owner pending live revoked lost)
      (mkFleet rows asked (<[r := k]> owner) ({[r]} ∪ pending) ({[r]} ∪ live) revoked lost)
| step_connect now k r a o profile g rows asked owner pending live revoked lost :
    r ∈ pending → owner !! r = Some k → asked !! k = None →
    payload_of a = Ok o → field "refresh_token" o = JStr r →
    read_grant encrypt float_text other_text now profile a = Ok g →
    step (mkFleet rows asked owner pending live revoked lost)
      (mkFleet (<[k := g]> rows) asked owner (pending ∖ {[r]}) live revoked lost)
| step_ask now k r rows asked owner pending live revoked lost :
    asked !! k = None → decide_row decrypt now (rows !! k) = Ok (inr r) →
    step (mkFleet rows asked owner pending live revoked lost)
      (mkFleet rows (<[k := r]> asked) owner pending live revoked lost)
| step_answer now k r a rows rows' res asked owner owner' pending live live' revoked lost :
    asked !! k = Some r → endpoint k r owner live a owner' live' →
    with_connection (take_answer encrypt float_text now k (Some a)) rows = (rows', res) →
    (ta_status a < 400 → is_ok res = true) →
    step (mkFleet rows asked owner pending live revoked lost)
      (mkFleet rows' (delete k asked) owner' pending live' revoked lost)
| step_drop k r rows asked owner pending live revoked lost :
    asked !! k = Some r →
    step (mkFleet rows asked owner pending live revoked lost)
      (mkFleet rows (delete k asked) owner pending live revoked ({[r]} ∪ lost))
| step_late k r a rows asked owner owner' pending live live' revoked lost :
    r ∈ lost → owner !! r = Some k → endpoint k r owner live a owner' live' →
    step (mkFleet rows asked owner pending live revoked lost)
      (mkFleet rows asked owner' pending live' revoked lost)
| step_disconnect now k rows rows' res asked owner pending live revoked lost :
    asked !! k = None → disconnect decrypt now k rows = (rows', res) →
    step (mkFleet rows asked owner pending live revoked lost)
      (mkFleet rows' asked owner pending live revoked lost)
| step_revoke r rows asked owner pending live revoked lost :
    step (mkFleet rows asked owner pending live revoked lost)
      (mkFleet rows asked owner pending (live ∖ {[r]}) ({[r]} ∪ revoked) lost).

Definition reaches : fleet → fleet → Prop := rtc step.

(** ** What holds of a row *)

Definition holds (g : grant) (r : string) : Prop := ∃ t, g_refresh_token_enc g = encrypt t r.

(** A token is good, or somebody ended it. *)
Definition accounted (s : fleet) (r : string) : Prop :=
  r ∈ fl_live s ∨ r ∈ fl_revoked s ∨ r ∈ fl_lost s.

Definition row_ok (s : fleet) (k : Z * string) (g : grant) : Prop :=
  ∃ r, holds g r ∧ fl_owner s !! r = Some k ∧ r ∉ fl_pending s ∧ accounted s r ∧
    (g_invalid_at g ≠ None → r ∈ fl_revoked s ∨ r ∈ fl_lost s).

Definition fleet_ok (s : fleet) : Prop :=
  (∀ k g, fl_rows s !! k = Some g → row_ok s k g) ∧
  (∀ k r, fl_asked s !! k = Some r → ∃ g, fl_rows s !! k = Some g ∧ holds g r ∧ g_invalid_at g = None) ∧
  (∀ r, r ∈ fl_pending s → is_Some (fl_owner s !! r) ∧ accounted s r).

Context (Hopen : ∀ now now' s, decrypt None now (encrypt now' s) = Some s).

Lemma holds_opens now g r : holds g r → open_token decrypt now (g_refresh_token_enc g) = Ok r.
Proof. intros [t ->]. unfold open_token. by rewrite Hopen. Qed.

Lemma holds_inj g r r' : holds g r → holds g r' → r = r'.
Proof. intros H H'. apply (holds_opens 0) in H. apply (holds_opens 0) in H'. congruence. Qed.

Lemma alter_insert_lookup {A} (f : A → A) (k : Z * string) (m : gmap (Z * string) A) x :
  m !! k = Some x → alter f k m = <[k := f x]> m.
Proof.
  intros H. apply map_eq. intros i. destruct (decide (i = k)) as [->|].
  - by rewrite lookup_alter_eq, lookup_insert_eq, H.
  - by rewrite lookup_alter_ne, lookup_insert_ne.
Qed.

(** What the endpoint does keeps every other token as it was. *)
Lemma endpoint_others k r owner live a owner' live' r1 :
  endpoint k r owner live a owner' live' → is_Some (owner !! r1) →
  owner' !! r1 = owner !! r1 ∧ (r1 ≠ r → r1 ∈ live → r1 ∈ live').
Proof.
  intros He [k1 H1]. destruct He as [| a o r' kept ? ? ? ? ? Hf|]; [done| |done].
  split; [rewrite lookup_insert_ne; [done|congruence]|]. destruct kept; set_solver.
Qed.

(** An answer the worker keeps: the row it leaves holds a token the provider takes, or is marked
    for one it does not. *)
Lemma answer_row now k r g a owner live owner' live' rows rows' res :
  endpoint k r owner live a owner' live' →
  with_connection (take_answer encrypt float_text now k (Some a)) rows = (rows', res) →
  (ta_status a < 400 → is_ok res = true) →
  rows !! k = Some g → holds g r → g_invalid_at g = None → owner !! r = Some k →
  ∃ g', rows' = <[k := g']> rows ∧
    ((∃ r', holds g' r' ∧ r' ∈ live' ∧ owner' !! r' = Some k ∧ owner !! r' = None ∧ g_invalid_at g' = None) ∨
     (holds g' r ∧ (r ∈ live → r ∈ live') ∧ (g_invalid_at g' ≠ None → r ∉ live))).
Proof.
  intros He Hw Hk Hg Hh Hi Ho. unfold with_connection, take_answer in Hw.
  destruct He as [a o Hl Hs Hj Ht|a o r' kept Hl Hs Hj Hf Hne Hr'|a Hs Hd].
  - rewrite (proj2 (Z.leb_gt _ _) Hs) in Hw. unfold payload_of in Hw. rewrite Hj in Hw. cbn [rbind] in Hw.
    specialize (Hk Hs). destruct (negb _); [by cbn in Hw; simplify_eq|]. destruct (text_of _) as [access|]; [|by cbn in Hw; simplify_eq]. cbn [rbind] in Hw.
    destruct (expires_in _ _) as [e|]; [|by cbn in Hw; simplify_eq]. cbn [rbind] in Hw. rewrite Ht in Hw. cbn in Hw. simplify_eq.
    eexists. split; [by apply alter_insert_lookup|]. right. split_and!; [done|done|by intros []].
  - rewrite (proj2 (Z.leb_gt _ _) Hs) in Hw. unfold payload_of in Hw. rewrite Hj in Hw. cbn [rbind] in Hw.
    specialize (Hk Hs). destruct (negb _); [by cbn in Hw; simplify_eq|]. destruct (text_of _) as [access|]; [|by cbn in Hw; simplify_eq]. cbn [rbind] in Hw.
    destruct (expires_in _ _) as [e|]; [|by cbn in Hw; simplify_eq]. cbn [rbind] in Hw. rewrite Hf in Hw. cbn in Hw.
    rewrite (proj2 (String.eqb_neq _ _) Hne) in Hw. cbn in Hw. simplify_eq.
    eexists. split; [by apply alter_insert_lookup|]. left. exists r'. split_and!; [by eexists|set_solver|by rewrite lookup_insert_eq|done|done].
  - rewrite (proj2 (Z.leb_le _ _) Hs) in Hw. destruct (String.eqb_spec (_error_code a) DEAD_GRANT_ERROR) as [E|]; simplify_eq.
    + eexists. split; [by apply alter_insert_lookup|]. right. split_and!; [done|done|by intros _; apply Hd].
    + exists g. split; [by rewrite insert_id|]. right. split_and!; [done|done|by intros []].
Qed.

Lemma row_ok_mono s s' k g :
  row_ok s k g →
  (∀ r, fl_owner s !! r = Some k → r ∉ fl_pending s →
     fl_owner s' !! r = Some k ∧ r ∉ fl_pending s' ∧ (accounted s r → accounted s' r) ∧
     (r ∈ fl_revoked s ∨ r ∈ fl_lost s → r ∈ fl_revoked s' ∨ r ∈ fl_lost s')) →
  row_ok s' k g.
Proof.
  intros (r & Hh & Ho & Hp & Ha & Hi) Hm. destruct (Hm r Ho Hp) as (Ho' & Hp' & Ha' & Hr).
  exists r. split_and!; auto.
Qed.

(** A step that keeps the rows, and all there is to know of the tokens in them. *)
Lemma rows_stay rows asked asked' owner owner' pending pending' live live' revoked revoked' lost lost' :
  let s := mkFleet rows asked owner pending live revoked lost in
  let s' := mkFleet rows asked' owner' pending' live' revoked' lost' in
  fleet_ok s →
  (∀ k r, asked' !! k = Some r → ∃ g, rows !! k = Some g ∧ holds g r ∧ g_invalid_at g = None) →
  (∀ r, is_Some (owner !! r) →
     owner' !! r = owner !! r ∧ (accounted s r → accounted s' r) ∧
     (r ∈ revoked ∨ r ∈ lost → r ∈ revoked' ∨ r ∈ lost')) →
  (∀ r, r ∈ pending' → r ∈ pending ∨ owner !! r = None ∧ is_Some (owner' !! r) ∧ r ∈ live') →
  fleet_ok s'.
Proof.
  intros s s' (H1 & _ & H3) Hasked Hm Hp. split_and!; [|done|].
  - intros k g Hg. eapply row_ok_mono; [by apply H1|]. intros r Ho Hnp. cbn in *.
    destruct (Hm r) as (? & ? & ?); [by eexists|]. split_and!; [congruence| |done|done].
    intros [?|[? _]]%Hp; [done|congruence].
  - intros r [Hr|(_ & ? & ?)]%Hp; cbn; [|by split; [|left]].
    destruct (H3 r Hr) as [Ho Ha]. destruct (Hm r Ho) as (-> & ? & _). auto.
Qed.

Lemma step_keeps s s' : fleet_ok s → step s s' → fleet_ok s'.
Proof.
  intros Hok Hs. pose proof Hok as (H1 & H2 & H3).
  destruct Hs as [k r rows asked owner pending live revoked lost Hfresh
    |now k r a o profile g rows asked owner pending live revoked lost Hr Ho Hk Hp Hf Hg
    |now k r rows asked owner pending live revoked lost Hk Hd
    |now k r a rows rows' res asked owner owner' pending live live' revoked lost Hk He Hw Ha
    |k r rows asked owner pending live revoked lost Hk
    |k r a rows asked owner owner' pending live live' revoked lost Hr Ho He
    |now k rows rows' res asked owner pending live revoked lost Hk Hd
    |r rows asked owner pending live revoked lost].
  - eapply rows_stay; [done|done| |].
    + intros r1 [k1 Ho1]. cbn. split_and!; [by rewrite lookup_insert_ne by congruence| |done].
      unfold accounted. cbn. set_solver.
    + intros r1 [->%elem_of_singleton|]%elem_of_union; [|by left].
      right. split_and!; [done|rewrite lookup_insert_eq; by eexists|set_solver].
  - unfold read_grant in Hg. destruct (400 <=? _); [done|]. rewrite Hp in Hg. cbn [rbind] in Hg.
    assert (holds g r ∧ g_invalid_at g = None) as [Hh Hi].
    { destruct (List.filter _ _); [|done]. rewrite Hf in Hg. destruct (negb _); [done|]. cbn [text_of rbind] in Hg.
      destruct (text_of _); [|done]. cbn [rbind] in Hg. destruct (expires_in _ _); [|done]. cbn [rbind] in Hg.
      destruct (String.eqb _ _); [|destruct (_account_email _ _ _); [|done]; cbn [rbind] in Hg];
        simplify_eq; split; [by eexists|done|by eexists|done]. }
    destruct (H3 r Hr) as [_ Hacc]. split_and!; cbn.
    + intros k1 g1 [[<- <-]|[Hne Hg1]]%lookup_insert_Some.
      * exists r. split_and!; [done|done|set_solver|done|by intros []].
      * eapply row_ok_mono; [by apply H1|]. intros r1 Ho1 Hp1. cbn in *. split_and!; [done|set_solver|done|done].
    + intros k1 r1 Hk1. rewrite lookup_insert_ne by congruence. by apply H2.
    + intros r1 Hr1. apply H3. set_solver.
  - eapply rows_stay; [done| |done|by left]. intros k1 r1 [[<- <-]|[Hne Hk1]]%lookup_insert_Some; [|by apply H2].
    pose proof Hd as (g & Hg & Hi)%decide_row_present. exists g. split_and!; [done| |done].
    destruct (H1 k g Hg) as (r' & Hh & _). rewrite Hg in Hd. unfold decide_row in Hd. rewrite Hi in Hd.
    rewrite (holds_opens now g r' Hh) in Hd. cbn [rbind] in Hd.
    destruct (usable now g); [destruct (open_token _ _ _); cbn in Hd; simplify_eq|by simplify_eq].
  - destruct (H2 k r Hk) as (g & Hg & Hh & Hi). destruct (H1 k g Hg) as (r0 & Hh0 & Ho & Hp & Hacc & _).
    assert (r0 = r) as -> by by eapply holds_inj. cbn in Ho, Hp.
    destruct (answer_row _ _ _ _ _ _ _ _ _ _ _ _ He Hw Ha Hg Hh Hi Ho) as (g' & -> & Hg').
    split_and!; cbn.
    + intros k1 g1 [[<- <-]|[Hne Hg1]]%lookup_insert_Some.
      * destruct Hg' as [(r' & ? & ? & ? & Hnew & Hi')|(Hh' & Hl & Hi')].
        -- exists r'. split_and!; [done|done| |by left|by intros []]. cbn. intros Hp'.
           destruct (H3 r' Hp') as [[x Hx] _]. cbn in Hx. congruence.
        -- exists r. destruct (endpoint_others _ _ _ _ _ _ _ r He) as [Ho' _]; [by eexists|]. cbn.
           split_and!; [done|congruence|done| |].
           ++ destruct Hacc as [Hlive|Hacc]; [left; by apply Hl|by right].
           ++ intros Hx. destruct Hacc as [Hlive|Hacc]; [by destruct (Hi' Hx)|done].
      * eapply row_ok_mono; [by apply H1|]. intros r1 Ho1 Hp1. cbn in *.
        destruct (endpoint_others _ _ _ _ _ _ _ r1 He) as [Ho' Hl]; [by eexists|].
        split_and!; [congruence|done| |done]. intros [Hlive|?]; [|by right]. left. apply Hl; [congruence|done].
    + intros k1 r1 [Hne Hk1]%lookup_delete_Some. rewrite lookup_insert_ne by done. by apply H2.
    + intros r1 Hr1. destruct (H3 r1 Hr1) as [Ho1 Ha1]. destruct (endpoint_others _ _ _ _ _ _ _ r1 He Ho1) as [Ho' Hl].
      cbn in *. rewrite Ho'. split; [done|]. destruct Ha1 as [Hlive|?]; [|by right]. left. apply Hl; [|done]. by intros ->.
  - eapply rows_stay; [done|intros k1 r1 [Hne Hk1]%lookup_delete_Some; by apply H2| |by left].
    intros r1 _. unfold accounted. cbn. split_and!; [done|set_solver..].
  - eapply rows_stay; [done|done| |by left]. intros r1 Ho1. destruct (endpoint_others _ _ _ _ _ _ _ r1 He Ho1) as [Ho' Hl].
    split_and!; [done| |done]. intros [Hlive|?]; [|by right].
    destruct (decide (r1 = r)) as [->|]; [by right; right|]. left. by apply Hl.
  - unfold disconnect in Hd. destruct (rows !! k) as [g|] eqn:Hg; simplify_eq; [|done]. split_and!; cbn.
    + intros k1 g1 [Hne Hg1]%lookup_delete_Some. eapply row_ok_mono; [by apply H1|]. intros r1 ? ?. by cbn in *.
    + intros k1 r1 Hk1. rewrite lookup_delete_ne by congruence. by apply H2.
    + done.
  - eapply rows_stay; [done|done| |by left]. intros r1 _. unfold accounted. cbn.
    split_and!; [done| |set_solver]. destruct (decide (r1 = r)) as [->|]; set_solver.
Qed.

Lemma no_grants_ok : fleet_ok no_grants.
Proof. split_and!; [by intros ? ? ?|by intros ? ? ?|by intros ? ?%elem_of_empty]. Qed.

Lemma reached_ok s : reaches no_grants s → fleet_ok s.
Proof.
  unfold reaches. intros H. cut (fleet_ok no_grants → fleet_ok s); [intros Hs; apply Hs, no_grants_ok|].
  induction H; eauto using step_keeps.
Qed.

(** C34: Whatever workers, people and the endpoint do, in any order, and even when the endpoint
    replaces refresh tokens: the token in a row opens, was issued for that grant, and is one the
    provider takes, with the grant unmarked, unless the provider revoked it or a worker sent it
    and did not keep the answer. *)
Theorem stored_token_is_live now s k g :
  reaches no_grants s → fl_rows s !! k = Some g →
  ∃ r, open_token decrypt now (g_refresh_token_enc g) = Ok r ∧ fl_owner s !! r = Some k ∧
    (r ∉ fl_revoked s → r ∉ fl_lost s → r ∈ fl_live s ∧ g_invalid_at g = None).
Proof.
  intros (H1 & _ & _)%reached_ok Hg. destruct (H1 k g Hg) as (r & Hh & Ho & _ & Ha & Hi). exists r.
  split_and!; [by apply holds_opens|done|]. intros Hr Hl. split; [by destruct Ha as [?|[?|?]]|].
  destruct (g_invalid_at g); [|done]. by destruct Hi.
Qed.

(** A worker's call is a run of these steps that nobody comes between, when the endpoint is as
    [endpoint] says. *)
Theorem call_is_steps now k post s t' res :
  get_access_token environ encrypt decrypt float_text now k post (fl_rows s) = (t', res) →
  fl_asked s !! k = None →
  (∀ r f a, post f = Some a → ∃ owner' live', endpoint k r (fl_owner s) (fl_live s) a owner' live') →
  ∃ s', reaches s s' ∧ fl_rows s' = t' ∧ fl_asked s' = fl_asked s.
Proof.
  intros Hget Hk Hpost. destruct s as [rows asked owner pending live revoked lost]. cbn in *.
  destruct (get_access_token_cases environ encrypt decrypt float_text now k post rows)
    as [(e & Hd & Hc)|[(tok & Hd & Hc)|(r & Hd & [Hc|[f Hc]])]]; rewrite Hget in Hc.
  1-3: simplify_eq; eexists; split; [apply rtc_refl|done].
  assert (step (mkFleet rows asked owner pending live revoked lost) (mkFleet rows (<[k:=r]> asked) owner pending live revoked lost))
    as Hask by by econstructor.
  assert (∀ res', with_connection (take_answer encrypt float_text now k (post f)) rows = (rows, res') →
    ∃ s', reaches (mkFleet rows asked owner pending live revoked lost) s' ∧ fl_rows s' = rows ∧ fl_asked s' = asked) as Hdrop.
  { intros res' _. eexists. split; [eapply rtc_l; [done|]; apply rtc_once, step_drop, lookup_insert_eq|].
    split; [done|]. by apply delete_insert_id. }
  destruct (post f) as [a|] eqn:Hp; [|cbn in Hc; simplify_eq; by eapply Hdrop].
  destruct (Hpost r f a Hp) as (owner' & live' & He).
  destruct (decide (ta_status a < 400 → is_ok res = true)) as [Ha|Ha].
  - eexists. split; [eapply rtc_l; [done|]; eapply rtc_once, step_answer; [apply lookup_insert_eq|done|by symmetry|done]|].
    split; [done|]. by apply delete_insert_id.
  - pose proof (take_answer_outcomes encrypt float_text now k (Some a) rows) as Ho. rewrite <- Hc in Ho.
    destruct res as [tok|[]]; try (by destruct Ha); try (subst t'; by eapply Hdrop).
    destruct Ho as [_ (b & [= <-] & Hb)]. destruct Ha. lia.
Qed.

End fleet.

(** ** A grant that is renewed *)

Definition plain_encrypt (now : Z) (s : string) : string := s.
Definition plain_decrypt (ttl : option Z) (now : Z) (c : string) : option string := Some c.
Definition example_answer (refresh : string) (seconds : Z) : token_answer :=
  mkTokenAnswer 200 (Some (JObj [("access_token", JStr "at"); ("refresh_token", JStr refresh);
    ("scope", JStr "https://www.googleapis.com/auth/gmail.readonly"); ("expires_in", JInt seconds)])).
Definition example_key : Z * string := (7, GOOGLE).
Definition renewed_grant (refresh : string) (expires : Z) : grant :=
  granted_row 0 refresh (Some "at") expires GMAIL_SCOPES None.

Definition renewed : fleet :=
  mkFleet {[example_key := renewed_grant "second" (3600 * 1000000)]} ∅
    {["first" := example_key; "second" := example_key]} ∅ {["second"]} ∅ ∅.

(** A consent, its exchange, and a refresh at which the endpoint replaces the token. *)
Lemma renewed_reached :
  reaches plain_encrypt plain_decrypt (λ _, None) (λ _, None) no_grants renewed.
Proof.
  eapply rtc_l; [apply (step_consent _ _ _ _ example_key "first"); reflexivity|].
  eapply rtc_l; [eapply (step_connect _ _ _ _ 0 example_key "first" (example_answer "first" 0) _ (λ _, None)
    (renewed_grant "first" 0)); [set_solver|reflexivity..]|].
  eapply rtc_l; [eapply (step_ask _ _ _ _ 0 example_key "first"); reflexivity|].
  eapply rtc_l; [eapply (step_answer _ _ _ _ 0 example_key "first" (example_answer "second" 3600));
    [reflexivity|eapply (end_rotates _ _ _ _ _ _ "second" false); [set_solver|reflexivity|reflexivity|reflexivity|done|reflexivity]
    |reflexivity|reflexivity]|].
  match goal with |- rtc _ ?a ?b => assert (a = b) as ->; [|apply rtc_refl] end.
  unfold renewed. f_equal; try reflexivity; set_solver.
Qed.

Lemma stored_token_is_live_witness :
  fl_revoked renewed = ∅ ∧ fl_lost renewed = ∅ ∧
  ∃ r, open_token plain_decrypt 5 (g_refresh_token_enc (renewed_grant "second" (3600 * 1000000))) = Ok r ∧
    fl_owner renewed !! r = Some example_key ∧
    (r ∉ fl_revoked renewed → r ∉ fl_lost renewed →
     r ∈ fl_live renewed ∧ g_invalid_at (renewed_grant "second" (3600 * 1000000)) = None).
Proof.
  split; [reflexivity|]. split; [reflexivity|].
  apply (stored_token_is_live plain_encrypt plain_decrypt (λ _, None) (λ _, None) (λ _ _ _, eq_refl) 5);
    [apply renewed_reached|reflexivity].
Defined.

(** The next worker takes the token of the refresh. *)
Lemma waiters_take_the_fresh_token_witness :
  let environ := {["GOOGLE_OAUTH_CLIENT_ID" := "id"; "GOOGLE_OAUTH_CLIENT_SECRET" := "secret"]} in
  let post _ := Some (example_answer "second" 3600) in
  let t := {[example_key := renewed_grant "first" 0]} in
  get_access_token environ plain_encrypt plain_decrypt (λ _, None) 5 example_key (λ _, None)
    (get_access_token environ plain_encrypt plain_decrypt (λ _, None) 0 example_key post t).1 =
    ((get_access_token environ plain_encrypt plain_decrypt (λ _, None) 0 example_key post t).1, Ok "at").
Proof.
  intros environ post t.
  apply (waiters_take_the_fresh_token environ plain_encrypt plain_decrypt (λ _, None)
    (λ _ _ _, eq_refl) (λ _ _ _, eq_refl) 0 example_key post t); [reflexivity|].
  eexists. split; reflexivity.
Defined.

Lemma state_comes_back_witness :
  verify_state ∅ plain_decrypt 5 (issue_state plain_encrypt 0 7 GOOGLE (hd "" REGISTERED_REDIRECT_URIS)) 7 =
    Ok (mkOAuthState 7 GOOGLE (hd "" REGISTERED_REDIRECT_URIS)).
Proof. rewrite (state_comes_back ∅ plain_encrypt plain_decrypt 0 5); [reflexivity|done|done]. Defined.
